(* ===== verification/_CoqProject ===== *)
-Q . S2P
Prelude.v
Texts.v
Logs.v
Enums.v
TaskTypes.v
VerifierText.v
Verifications.v
Leases.v
Agents.v
Db.v
NoteMarkers.v
NoteMarkersSpec.v
Envelopes.v
LeaseStore.v
WorktreeLeases.v
SupervisorQueue.v
PromptTypes.v
PromptLanes.v
SpawnQueue.v
Reminders.v
PromptNotices.v
PromptQueue.v
PromptDrain.v
OperatorLanes.v
PromptEnqueue.v
PromptLaneSpec.v
SupervisorQueueSpec.v
PromptQueueSpec.v
PromptDrainSpec.v
LaneSpec.v
PromptWrites.v
PromptProtocol.v
PromptEnqueueSpec.v
PromptInbox.v
PromptRetentionSpec.v
SpawnQueueSpec.v
ReminderSpec.v
Continuity.v
AgentStore.v
Coordination.v
Cte.v
TaskRows.v
Dispatches.v
Capabilities.v
VerificationStore.v
Deliveries.v
QaPasses.v
QaPassSpec.v
QaGate.v
WaitBudget.v
TaskGraph.v
TaskStore.v
TaskStoreSpec.v
TaskProtocol.v
LeaseProtocol.v
System.v
VerdictTransaction.v
VerificationSpec.v
VerificationSteps.v
VerificationProtocol.v
VerdictSpec.v
CapabilitySpec.v
DeliverySpec.v
Witnesses.v
TaskWitnesses.v
QaWitnesses.v
WaitWitnesses.v
VerificationWitnesses.v
QueueWitnesses.v
PromptWitnesses.v
LaneWitnesses.v
