(* ===== verification/Prelude.v ===== *)
(** * The coordination core of Cassy

    Cassy (CAS) coordinates a fleet of coding agents over one SQLite database,
    [.cas/cas.db].  This library models the stores through which agents share
    it, as pure functions translated from the Rust sources, and proves what
    the stores promise: that a task is worked on by one agent at a time, that
    a stale agent cannot act on a lease that was given away, that what a
    retired agent leaves behind is kept and taken over once, that tasks and
    their dependencies stay consistent, that work is reviewed by someone else
    with an authority that is spent once, and that untrusted text cannot forge
    evidence; that mail between agents is neither lost nor handed over after it
    was withdrawn, and that reminders and spawn requests end once.  Paths below
    are relative to src/crates unless they begin with
    src/.

    ** Parts

    - [Prelude] (this file): errors ([cas-store/src/error.rs],
      [cas-types/src/error.rs]), results and [commit], the clock, [as] casts
      between i64 and u64, the string functions of Rust's standard library that
      the stores call, SQL statements on finite maps (select, update, delete,
      count, ORDER BY, LIMIT), JSON values and SQLite's json_set, record update.
    - [Texts]: lemmas on strings: a text in another one, its first and its last
      place; what the statements about texts are written with.
    - [Enums]: the closed vocabularies of [cas-types] with [Display] and
      [FromStr]; the class [TextEnum] states that parsing a rendered value gives
      it back, and every vocabulary is an instance.
    - [TaskTypes], [Leases], [Agents]: the records of [cas-types/src/task.rs],
      [lease.rs] and [agent.rs] with their methods.
    - [Db]: the tables as one record of finite maps, the foreign keys, the event
      log, and [Host], the interface to what the stores take from outside:
      SHA-256, timestamps' text, serde_json, the environment.
    - [LeaseStore] ([cas-store/src/agent_store/ops_task_leases.rs]): claim,
      release, fenced release, renewal, reclaim, history.
    - [WorktreeLeases] ([ops_worktree.rs]), [Continuity] ([continuity.rs]:
      retirement evidence and handoff), [AgentStore] ([ops_agent.rs], [mod.rs]:
      registration, supervisor reconciliation, heartbeat, retirement),
      [Coordination] ([ops_coordination.rs]).
    - [Logs]: tables with an AUTOINCREMENT key, their ORDER BY and LIMIT, the
      stable sort and its order class, retention in batches.
    - [SupervisorQueue] ([supervisor_queue_store.rs]): notifications to
      supervisors, their transition keys, folding of alerts, retention;
      [SupervisorQueueSpec].  [SpawnQueue] ([spawn_queue_store.rs],
      [worker_task_queue_store.rs]): requests to spawn workers, the life cycle
      of a spawn, the task queue of a worker; [SpawnQueueSpec].  [Reminders]
      ([reminder_store.rs]): reminders by time or event, holds, delivery text;
      [ReminderSpec].
    - The prompt queue ([prompt_queue_store.rs]), the mail between agents:
      [PromptTypes] (rows, delivery stages, receipts, the parsers of their
      stored forms), [PromptLanes] (the session lane and the legacy lane, and
      how a poll merges them), [PromptNotices] (texts and summaries),
      [PromptQueue] (peeking, claims, stage transitions, retry, acknowledgement,
      cancellation, shutdown, retention), [PromptDrain] (what a recipient's poll
      or hook takes out of its inbox, the expiry of relays, budgets, references,
      with [recipient_delivery.rs] and [project_hold.rs]), [PromptEnqueue] (what
      puts messages in: resends, keys, the fold of a worker's messages, peers).
      [Envelopes] ([cas-types/src/lifecycle.rs]): the tags of relayed messages.
      [PromptLaneSpec]: what a peek returns; [PromptQueueSpec]: the order in
      which rows and receipts grow and that every operation goes up in it;
      [PromptDrainSpec], [PromptWrites]: the same for drains and writers, and
      what a drain hands over; [PromptProtocol]: the operations as steps;
      [PromptInbox]: hand-overs along executions; [PromptEnqueueSpec]: the fold;
      [PromptRetentionSpec]: the sweep.
    - [OperatorLanes] ([prompt_queue_store/operator_delivery.rs],
      [operator_cloud.rs]): turns to and from the operator, their immutable
      events, the local and the cloud lane that drain them under leases, the
      binding of the feed, offline commands.  [LaneSpec]: both lanes refine one
      lease machine; exclusion, fencing, immutability, single admission.
    - [Cte]: SQLite's WITH RECURSIVE .. UNION.
    - [NoteMarkers] ([task_note_markers.rs]): reserved lines in task notes;
      [NoteMarkersSpec]: what defusing them promises, in terms of its own.
    - [TaskRows], [TaskGraph], [TaskStore] ([task_store.rs],
      [cas-types/src/dependency.rs]): rows and revision triggers; dependencies;
      creation, guarded update, notes, deletion and the lists.
    - [TaskStoreSpec]: what those operations promise; [TaskProtocol]: the
      task operations as steps.
    - [QaPasses] ([qa_pass_store.rs], [cas-types/src/qa_pass.rs]): the rounds of
      the pre-merge review; [QaPassSpec]: their life cycle; [QaGate]: the gate.
    - [VerifierText], [Verifications] ([cas-types/src/verification.rs]): the
      sanitizer of text that a verifier wrote; dispatches, capabilities,
      verdicts and their stored forms.
    - [Dispatches], [Capabilities], [VerificationStore]
      ([verification_store.rs]): requests for one verdict; bearer capabilities
      and server handoffs; the verdicts.  [Deliveries] ([delivery_store.rs],
      [cas-types/src/delivery.rs]): completion receipts, the transactions that
      carry a delivery from receipt to merge, observed merges.
    - [VerdictTransaction]
      ([src/cas-cli/src/mcp/tools/core/workflow/verification_tools.rs]): the
      transaction that records a verdict, over the four files before it.
    - [VerificationSpec] (the order [vle] on databases), [VerificationSteps]
      (that every operation goes up in it), [VerificationProtocol] (executions);
      [VerdictSpec], [CapabilitySpec], [DeliverySpec]: what the verdict
      transaction, the tokens and the receipts promise.
    - [WaitBudget] ([wait_budget.rs], [shared_db.rs]): the deadline of a thread,
      the busy handler, polled locks, [with_write_retry], the write transactions
      with their retries.  Its state is one thread and a [World] that answers
      what other threads and processes do; no other file depends on it.
    - [LeaseProtocol]: the operations of all these stores as steps of one
      transition system, and what holds for the agents and their leases;
      [System]: what holds for tasks and review rounds along the same
      executions.
    - [Witnesses], [TaskWitnesses], [QaWitnesses], [WaitWitnesses],
      [VerificationWitnesses], [QueueWitnesses], [PromptWitnesses],
      [LaneWitnesses]: the theorems applied to concrete databases.

    An operation is a function from its arguments and the database to
    [result (answer * Db)]; an error leaves the caller's database as it was,
    because the transaction is rolled back ([commit]).  Agents and leases meet
    in [Db] only: retiring an agent ([AgentStore]) captures its evidence
    ([Continuity]), writes lease history ([LeaseStore]) and deletes its lease
    rows by foreign key ([Db]); the task store reads leases to decide whether a
    sync apply may undo a live start.  A verdict crosses four stores: it spends
    a capability, resolves a dispatch, moves a delivery and its task.  A
    supervisor notification may record the delivery of the prompt that carried
    it; a shutdown cancels the unread mail of the agent that leaves.

    ** What the theorems show

    - Protocol: a live lease stays with its holder and other claims are refused
      ([lease_mutual_exclusion]); an epoch names one generation while no holder
      is retired and the task is not deleted ([epoch_identifies_holder]), so
      under the same condition a release authorized by an earlier one is refused
      ([stale_release_is_fenced]); every operation is a step of an abstract
      expiring lock ([lease_refines_lock]); [active_tasks_covers_leases].
    - Agent store, on every branch: [try_claim_spec], [reclaim_spec] (against
      the aggregated writes), [handoff_one_winner]; lemmas of the same kind
      cover the fenced release, renewal, heartbeat, registration, stale marking,
      retirement, shutdown and the worktree leases.
    - Tasks: blocking never deadlocks ([blocking_never_deadlocks]), along
      executions in which an addition checks and inserts in separate steps, no
      blocking edge is added in between and the tasks it names are not deleted
      ([concurrent_checks_admit_cycle] shows why), and no new task names itself as
      its blocker; a receipt certifies a row ([receipt_certifies_row]); the sync
      apply ([update_from_sync_spec]); evidence dies with its cycle on the updates
      through [update_checked] ([update_invalidates_evidence]; the exact reopen
      writes the evidence of its caller); the ready list is exact
      ([list_ready_spec]); creation ([create_atomic_spec]).
    - QA gate: rounds follow their life cycle ([rounds_follow_lifecycle]), an
      open gate rests on an independent reviewer ([gate_is_independent]), no
      operation breaks a constraint ([qa_never_violates_constraints]);
      [open_qa_pass_spec], [verdict_opens_its_head], [latest_failed_is_latest].
    - Verification: the author of a child's verdict is not the agent that issued
      its capability ([child_verdicts_have_authority]; who requested the review is
      not compared), a capability is spent once
      ([capability_gives_one_verdict]) and what binds it is permanent
      ([capability_binding_is_permanent]), dispatches follow their life cycle
      ([dispatches_follow_lifecycle]), all along executions of every store; a
      verdict settles exactly its review ([final_verdict_settles],
      [question_keeps_review_open]); tokens and receipts
      ([issued_token_is_accepted], [receipt_digest_is_unambiguous],
      [create_delivery_is_idempotent]).
    - Waits: the loops end, and give up only when the budget or the deadline is
      used up ([begin_immediate_pooled_ends], [locks_end_by_deadline]), and how long a writer waits
      ([busy_write_waits]).
    - Mail: what was cancelled is never handed over
      ([cancelled_mail_is_never_handed_over]), unless an acknowledgement that runs
      in several statements is under way on that very message; mail of the same or
      a less urgent priority never keeps a poll from a target, while more urgent
      mail may fill its window ([peek_reaches_every_target]), and neither lane
      starves the other ([two_lane_merge_is_fair]); a delivered row has its
      recipient's record ([delivered_has_recipient_record]); a claim excludes
      every other ([claim_is_exclusive]) and a release with an old token
      changes nothing ([stale_claim_release_is_refused]); retries are
      scheduled or end ([retry_answers], [retry_budget]); stages and stamps do
      not go back ([prompt_progress_is_irreversible]); the sweep in batches is
      one delete ([prompt_sweep_equals_one_delete]).  A drain hands a message over
      once along every execution, but for reads by name and the hook that reminds
      of polled messages ([mail_is_handed_over_once]), and loses none that
      it selects ([drain_loses_no_mail]); the unseen count is what a peek shows,
      and a poll would take all of it but what was acknowledged unread or is held
      ([inbox_count_spec]); folding a worker's messages
      loses no text ([fold_loses_no_message]).
    - Operator lanes: a leased event is drawn by no other claim
      ([lane_lease_is_exclusive]) and an old lease settles nothing
      ([stale_lease_is_fenced]); payload, receipts and sealed bytes are final
      ([operator_event_is_immutable]); an offline command is admitted once
      ([command_admitted_once]).
    - Notifications: a transition is recorded once and its replays report its
      delivery ([transition_recorded_once]), a fold settles the members of its
      groups only and loses no alert ([fold_loses_no_alert]), retention ([retention_equals_one_delete]).
      Spawns: [spawn_lifecycle_is_monotone], [stale_save_is_refused],
      [spawn_backlog_is_bound_once].  Reminders: a reminder ends once
      ([reminder_ends_once]), a hold loses no wake ([hold_loses_no_wake]), the
      delivery text names its reminder ([delivery_names_its_reminder]).
    - Text: [neutralize_defuses], [sanitize_is_safe].
    - Where the code does less than it means to, the theorem says so:
      [concurrent_checks_admit_cycle], [deliverables_roundtrip],
      [stale_snapshot_undoes_claim], [repark_forgets_a_passed_head],
      [skipped_delivery_verdict_fails], [expired_takeover_leaks_counter],
      [retirement_resets_epoch], [stale_assumption_revives_cancelled_mail],
      [half_acknowledged_mail_is_claimable], [urgent_rows_fill_the_window],
      [acknowledged_row_stays_pending].

    ** Conventions and bounds

    - Instants are integers, nanoseconds since the epoch.  Every [Utc::now()]
      is its own reading: an operation gets a [Clock] and reads it at index k
      for its k-th use.  RFC 3339 UTC text orders as the instants do.
    - Integers that wrap in a release build wrap here ([as_i64], [as_u64],
      [u64_succ], [u32_succ]); process ids are taken to fit u32.
    - An operation is one atomic step, as its immediate transaction is;
      outside [WaitBudget], [with_write_retry] is the identity, because it only
      repeats a transaction that SQLite rolled back.  Where the code runs several
      statements without a transaction, the theorems about executions that
      depend on it split them: [SystemStep] splits [add_dependency] into check and
      INSERT, [PromptStep] and [AckStep] split [ack_delivered_for_recipient] and the
      acknowledgements by id, [sq_step] and the polls split SELECT and UPDATE.
      [lease_reclaim_expired_leases] runs its statements without a transaction
      and is one step here.  The foreign key from leases to tasks that migration
      m094 adds is not modelled: where it exists a claim on an unknown task fails;
      the deletion of a task deletes its lease by its own statement.
    - A poll that claims rows is a SELECT followed by the UPDATE of what it
      found; in executions of the prompt queue and the supervisor queue the
      UPDATE is a step of its own.  An INSERT that is ignored leaves the AUTOINCREMENT
      counter as it was.  SQLite's datetime() counts whole seconds and its
      julianday() milliseconds; comparisons through them are rounded so here.
      Queries that name another store's table only when it exists get a boolean
      ([has_agents], [has_tasks], [has_prompt_queue], [has_supervisor_queue],
      [has_outbox_index]).
    - The token of a transport claim is the instant at which it was seen.  The
      protocol has the writing operations as steps ([Writes]); a writer that is
      not modelled is the insertion of an unsettled row.  A drain's probe and its transaction are one step, and the project
      hold, a file, is an argument that it reads twice.
    - The lanes' theorems follow one event: no later turn draws its identity,
      and tokens are taken to differ where a theorem says so.  Lease instants
      are milliseconds, as in the tables.
    - A table that was never created is an empty one.  Rows come back in the
      order of the key when a query asks for no order; no theorem uses it.
    - Fuel: [Cte] gets one step per row a query can produce, which the number
      of dependency rows bounds ([cte_correct] shows that it is enough).  The
      polling loops of [WaitBudget] get the number of pauses that fit before
      the deadline, and the pooled transaction the number that fit in its
      budget; [locks_end_by_deadline] and [begin_immediate_pooled_ends] show
      that these are enough.  A sweep of the prompt queue gets one batch more
      than the rows fill ([prompt_sweep_equals_one_delete]).
    - Random numbers (ids, tokens, secrets) are arguments; SHA-256 is
      [sha256_hex] of [Host], of which nothing is assumed.

    ** What is not modelled

    Of [task_store.rs]: record_merge_admission (json_set on a stored text), the
    execution-state patch, generate_id, init and schema migration.  Of
    [verification_store.rs]: the operations that reopen a task and correct the
    scope of a proof, init and migration.  Of the verification tool: the git
    checks before the transaction and the notifications after it.  Of
    [prompt_queue_store.rs]: mirrored supervisor turns, the bounce of a stalled
    delivery, the filing of merged readiness, retargeting, the sweeps that
    abandon many rows at once, conversation history, delivery reports, init and
    migration; of the other queues: init, migration and the tables of service
    levels.
    Terminal, network, git and search crates and most of the command line are
    I/O or third-party glue over these stores. *)

From stdpp Require Export base gmap sets list strings fin_maps sorting option pretty.
From Stdlib Require Export ZArith Ascii Lia.

#[export] Set Default Goal Selector "!".

Declare Scope cassy_scope.
Delimit Scope cassy_scope with cassy.
Open Scope string_scope.
Open Scope list_scope.
Open Scope Z_scope.
Open Scope cassy_scope.

(** ** Errors and results *)

(** The errors of the stores ([crates/cas-store/src/error.rs]).  Payloads of third-party errors (rusqlite,
    serde, std::io) are kept as their rendered text. *)
Inductive StoreError :=
  | NotInitialized
  | NotFound (what : string)
  | EntryNotFound (id : string)
  | RuleNotFound (id : string)
  | TaskNotFound (id : string)
  | SkillNotFound (id : string)
  | EntityNotFound (id : string)
  | RelationshipNotFound (id : string)
  | EntryExists (id : string)
  | CyclicDependency (from to : string)
  | CircularDependency (from to : string)
  | Database (error : string)
  | Io (error : string)
  | Yaml (error : string)
  | Json (error : string)
  | Parse (msg : string)
  | VerificationDispatchConflict (dispatch_id : string)
  | SyncDegradedAfterCommit (entity_type entity_id operation reason : string)
  | Other (msg : string).

(** The errors of the text parsers ([crates/cas-types/src/error.rs]). *)
Inductive TypeError :=
  | InvalidEntryType (s : string)
  | InvalidRuleStatus (s : string)
  | InvalidRuleCategory (s : string)
  | InvalidTaskStatus (s : string)
  | InvalidSpecStatus (s : string)
  | InvalidSpecType (s : string)
  | InvalidArtifact (s : string)
  | ParseError (s : string).

(** [Display] of [TypeError] *)
Definition TypeError_to_string (e : TypeError) : string :=
  match e with
  | InvalidEntryType s => "invalid entry type: " +:+ s
  | InvalidRuleStatus s => "invalid rule status: " +:+ s
  | InvalidRuleCategory s => "invalid rule category: " +:+ s
  | InvalidTaskStatus s => "invalid task status: " +:+ s
  | InvalidSpecStatus s => "invalid spec status: " +:+ s
  | InvalidSpecType s => "invalid spec type: " +:+ s
  | InvalidArtifact s => "invalid artifact reference: " +:+ s
  | ParseError s => "parse error: " +:+ s
  end.

(** [Display] of [StoreError] *)
Definition StoreError_to_string (e : StoreError) : string :=
  match e with
  | NotInitialized => "not initialized"
  | NotFound s => "not found: " +:+ s
  | EntryNotFound s => "entry not found: " +:+ s
  | RuleNotFound s => "rule not found: " +:+ s
  | TaskNotFound s => "task not found: " +:+ s
  | SkillNotFound s => "skill not found: " +:+ s
  | EntityNotFound s => "entity not found: " +:+ s
  | RelationshipNotFound s => "relationship not found: " +:+ s
  | EntryExists s => "entry already exists: " +:+ s
  | CyclicDependency a b => "cyclic dependency would be created: " +:+ a +:+ " -> " +:+ b
  | CircularDependency a b => "circular dependency would be created: " +:+ a +:+ " -> " +:+ b
  | Database s => "database error: " +:+ s
  | Io s => "io error: " +:+ s
  | Yaml s => "yaml error: " +:+ s
  | Json s => "json error: " +:+ s
  | Parse s => "parse error: " +:+ s
  | VerificationDispatchConflict dispatch_id =>
      "verification dispatch " +:+ dispatch_id +:+
      " is already active for this task with a different requester, owner or proof boundary"
  | SyncDegradedAfterCommit entity_type entity_id operation reason =>
      "local " +:+ entity_type +:+ " " +:+ operation +:+
      " committed, but cloud sync is degraded; durable retry intent retained for " +:+ entity_id +:+
      ": " +:+ reason
  | Other msg => msg
  end.

(** Rust's [Result<A, E>] *)
Inductive Result (E A : Type) :=
  | Ok (a : A)
  | Err (e : E).
Arguments Ok {E A} a.
Arguments Err {E A} e.

(** [cas_store::Result] *)
Abbreviation result := (Result StoreError).

Definition is_ok {E A} (r : Result E A) : bool :=
  match r with Ok _ => true | Err _ => false end.

(** [Result::ok] and [Result::unwrap_or] *)
Definition result_ok {E A} (r : Result E A) : option A :=
  match r with Ok a => Some a | Err _ => None end.
Definition unwrap_or {E A} (r : Result E A) (d : A) : A :=
  match r with Ok a => a | Err _ => d end.

#[export] Instance result_ret {E} : MRet (Result E) := fun A a => Ok a.
#[export] Instance result_bind {E} : MBind (Result E) := fun A B f r =>
  match r with Ok a => f a | Err e => Err e end.
#[export] Instance result_fmap {E} : FMap (Result E) := fun A B f r =>
  match r with Ok a => Ok (f a) | Err e => Err e end.

(** [Result::map_err] *)
Definition map_err {E E' A} (f : E → E') (r : Result E A) : Result E' A :=
  match r with Ok a => Ok a | Err e => Err (f e) end.

(** The database a caller observes after an operation: an operation that
    returns an error rolled its transaction back, so the state is unchanged. *)
Definition commit {S E A} (db : S) (r : Result E (A * S)) : S :=
  match r with Ok (_, db') => db' | Err _ => db end.

Lemma bind_Ok {E A B} (f : A → Result E B) (r : Result E A) b :
  (r ≫= f) = Ok b ↔ ∃ a, r = Ok a ∧ f a = Ok b.
Proof.
  destruct r; simpl; split.
  - intros H. by exists a.
  - intros (a' & [= ->] & H). done.
  - intros [=].
  - intros (a' & [=] & _).
Qed.

(** [Option::ok_or] *)
Definition ok_or {E A} (o : option A) (e : E) : Result E A :=
  match o with Some a => Ok a | None => Err e end.

(** ** Clock

    [Utc::now()] is read anew at every use.  An operation receives its clock
    as the sequence of those readings: [clk k] is the reading at its [k]-th use
    in program order (a use that is not reached leaves its index unread).
    Instants are integers, nanoseconds since the epoch. *)
Abbreviation Clock := (nat → Z).

Definition NANOS_PER_SEC : Z := 1000000000.
(** [chrono::Duration::seconds] and [chrono::Duration::days] *)
Definition duration_seconds (s : Z) : Z := s * NANOS_PER_SEC.
Definition duration_days (d : Z) : Z := d * 86400 * NANOS_PER_SEC.
(** [chrono::TimeDelta::num_milliseconds], which truncates towards zero *)
Definition num_milliseconds (d : Z) : Z := Z.quot d 1000000.
(** [chrono::TimeDelta::num_seconds], which truncates towards zero *)
Definition num_seconds (d : Z) : Z := Z.quot d NANOS_PER_SEC.

(** SQLite's julianday() of a timestamp, in its milliseconds, to which fractions
    of a second are rounded *)
Definition julianday (z : Z) : Z := (z + 500000) / 1000000.

(** ** Machine integers: the [as] casts between [i64] and [u64] *)
Definition as_u64 (z : Z) : Z := z mod 2 ^ 64.
Definition as_i64 (z : Z) : Z :=
  let u := z mod 2 ^ 64 in if u <? 2 ^ 63 then u else u - 2 ^ 64.

Lemma as_u64_small z : 0 ≤ z < 2 ^ 64 → as_u64 z = z.
Proof. intros. unfold as_u64. by apply Z.mod_small. Qed.

Lemma as_i64_small z : 0 ≤ z < 2 ^ 63 → as_i64 z = z.
Proof.
  intros. unfold as_i64. rewrite Z.mod_small by lia.
  by destruct (Z.ltb_spec z (2 ^ 63)); [|lia].
Qed.

Lemma as_i64_range z : - 2 ^ 63 ≤ as_i64 z < 2 ^ 63.
Proof.
  unfold as_i64. pose proof (Z.mod_pos_bound z (2 ^ 64) ltac:(lia)).
  destruct (Z.ltb_spec (z mod 2 ^ 64) (2 ^ 63)); lia.
Qed.

(** ** ASCII text

    Rust strings are modelled as their UTF-8 bytes. *)
Definition ascii_lower (c : ascii) : ascii :=
  let n := N_of_ascii c in
  if ((65 <=? n) && (n <=? 90))%N then ascii_of_N (n + 32) else c.

(** [str::to_ascii_lowercase] *)
Fixpoint to_ascii_lowercase (s : string) : string :=
  match s with
  | EmptyString => EmptyString
  | String c s' => String (ascii_lower c) (to_ascii_lowercase s')
  end.

(** [str::to_lowercase] as seen by a match against ASCII constants.  The only
    non-ASCII character whose Unicode lowercase is ASCII is U+212A (the Kelvin
    sign, bytes e2 84 aa), which lowers to k; every other non-ASCII character
    lowers to text with non-ASCII bytes, which is left as it is here. *)
Fixpoint to_lowercase (s : string) : string :=
  match s with
  | EmptyString => EmptyString
  | String "226" (String "132" (String "170" s')) => String "k" (to_lowercase s')
  | String c s' => String (ascii_lower c) (to_lowercase s')
  end.

(** [str::eq_ignore_ascii_case] *)
Definition eq_ignore_ascii_case (a b : string) : bool :=
  String.eqb (to_ascii_lowercase a) (to_ascii_lowercase b).

(** [str::replace] of one character by another *)
Fixpoint replace_char (from to : ascii) (s : string) : string :=
  match s with
  | EmptyString => EmptyString
  | String c s' => String (if Ascii.eqb c from then to else c) (replace_char from to s')
  end.

(** [char::is_whitespace] on the UTF-8 bytes at the head of a string: the
    number of bytes of a leading white-space character, 0 when there is none. *)
Definition whitespace_len (s : string) : nat :=
  match s with
  | String "009" _ | String "010" _ | String "011" _ | String "012" _
  | String "013" _ | String " " _ => 1
  | String "194" (String "133" _) | String "194" (String "160" _) => 2
  | String "225" (String "154" (String "128" _)) => 3
  | String "226" (String "128" (String c _)) =>
      let n := N_of_ascii c in
      if ((128 <=? n) && (n <=? 138) || (168 <=? n) && (n <=? 169) || (n =? 175))%N
      then 3 else 0
  | String "226" (String "129" (String "159" _)) => 3
  | String "227" (String "128" (String "128" _)) => 3
  | _ => 0
  end.

(** The same, at the end of a string given in reverse. *)
Definition whitespace_rev_len (s : string) : nat :=
  match s with
  | String "009" _ | String "010" _ | String "011" _ | String "012" _
  | String "013" _ | String " " _ => 1
  | String "133" (String "194" _) | String "160" (String "194" _) => 2
  | String c (String "128" (String "226" _)) =>
      let n := N_of_ascii c in
      if ((128 <=? n) && (n <=? 138) || (168 <=? n) && (n <=? 169) || (n =? 175))%N
      then 3 else 0
  | String "128" (String "154" (String "225" _)) => 3
  | String "159" (String "129" (String "226" _)) => 3
  | String "128" (String "128" (String "227" _)) => 3
  | _ => 0
  end.

Fixpoint drop_bytes (n : nat) (s : string) : string :=
  match n, s with
  | O, _ => s
  | S n', String _ s' => drop_bytes n' s'
  | S _, EmptyString => EmptyString
  end.

(** Drop leading white space, one character at a time; the length of the
    string is enough fuel because every step drops at least one byte. *)
Fixpoint strip_ws (len : string → nat) (fuel : nat) (s : string) : string :=
  match fuel with
  | O => s
  | S fuel' => match len s with O => s | k => strip_ws len fuel' (drop_bytes k s) end
  end.

(** [str::trim_start], [str::trim_end], [str::trim] *)
Definition trim_start (s : string) : string :=
  strip_ws whitespace_len (String.length s) s.
Definition trim_end (s : string) : string :=
  String.rev (strip_ws whitespace_rev_len (String.length s) (String.rev s)).
Definition trim (s : string) : string := trim_end (trim_start s).

Definition str_is_empty (s : string) : bool := String.eqb s EmptyString.

(** [Option<&str>::map(str::trim).filter(|s| !s.is_empty())] *)
Definition trimmed_nonempty (o : option string) : option string :=
  s ← o; let t := trim s in if str_is_empty t then None else Some t.

(** [str::strip_prefix], [str::starts_with], [str::ends_with] *)
Fixpoint strip_prefix (p s : string) : option string :=
  match p, s with
  | EmptyString, _ => Some s
  | String a p', String b s' => if Ascii.eqb a b then strip_prefix p' s' else None
  | String _ _, EmptyString => None
  end.
Definition starts_with (p s : string) : bool :=
  match strip_prefix p s with Some _ => true | None => false end.
Definition ends_with (p s : string) : bool := starts_with (String.rev p) (String.rev s).
(** [str::find(p)], as the text before the first occurrence and the text after it *)
Fixpoint split_text (p s : string) : option (string * string) :=
  match strip_prefix p s with
  | Some rest => Some (EmptyString, rest)
  | None =>
      match s with
      | EmptyString => None
      | String c s => '(before, after) ← split_text p s; Some (String c before, after)
      end
  end.
Definition str_contains (p s : string) : bool :=
  match split_text p s with Some _ => true | None => false end.

(** SQLite's [LIKE 'prefix%'], which ignores the case of ASCII letters; for a
    prefix without wildcards *)
Definition like_prefix (p s : string) : bool :=
  starts_with (to_ascii_lowercase p) (to_ascii_lowercase s).

(** [str::split] at one character: the pieces between its occurrences, in
    order; a text without it is one piece. *)
Fixpoint split_char (sep : ascii) (s : string) : list string :=
  match s with
  | EmptyString => [EmptyString]
  | String c s' =>
      if Ascii.eqb c sep then EmptyString :: split_char sep s'
      else match split_char sep s' with
           | piece :: rest => String c piece :: rest
           | [] => [String c EmptyString]
           end
  end.

(** [str::split_once] *)
Fixpoint split_once (sep : ascii) (s : string) : option (string * string) :=
  match s with
  | EmptyString => None
  | String c s' =>
      if Ascii.eqb c sep then Some (EmptyString, s')
      else '(a, b) ← split_once sep s'; Some (String c a, b)
  end.

(** [str::parse::<u64>]: an optional plus sign, at least one digit, in range *)
Fixpoint parse_digits (acc : Z) (s : string) : option Z :=
  match s with
  | EmptyString => Some acc
  | String c s' =>
      let n := Z.of_N (N_of_ascii c) in
      if (48 <=? n) && (n <=? 57) then parse_digits (acc * 10 + (n - 48)) s' else None
  end.
Definition parse_u64 (s : string) : option Z :=
  let digits := match s with String "+" s' => s' | _ => s end in
  if String.eqb digits EmptyString then None
  else n ← parse_digits 0 digits; if n <? 2 ^ 64 then Some n else None.

(** [str::parse::<i64>] *)
Definition parse_i64 (s : string) : option Z :=
  let '(neg, digits) := match s with
    | String "-" s' => (true, s') | String "+" s' => (false, s') | _ => (false, s) end in
  if str_is_empty digits then None
  else
    n ← parse_digits 0 digits;
    let n := if neg then - n else n in
    if (- 2 ^ 63 <=? n) && (n <? 2 ^ 63) then Some n else None.

(** [format!] of an integer: decimal digits, and of a string in a JSON text. *)
Definition show_z (z : Z) : string := pretty z.

(** [format!("{:016x}")] of a u64 *)
Definition hex_digit (n : Z) : ascii :=
  ascii_of_N (Z.to_N (if n <? 10 then 48 + n else 87 + n)).
Fixpoint hex_text (digits : nat) (n : Z) (tail : string) : string :=
  match digits with
  | O => tail
  | S d => hex_text d (n / 16) (String (hex_digit (n mod 16)) tail)
  end.
Definition hex16 (n : Z) : string := hex_text 16 n EmptyString.

(** [&s[..s.len().min(n)]]: a slice that ends inside a character panics. *)
Definition is_char_boundary (n : nat) (s : string) : bool :=
  match String.get n s with
  | Some c => let b := N_of_ascii c in negb ((128 <=? b) && (b <? 192))%N
  | None => true
  end.
Definition str_prefix (n : nat) (s : string) : option string :=
  if is_char_boundary n s then Some (String.substring 0 n s) else None.

(** ** Options *)
Definition option_or_else {A} (o : option A) (d : option A) : option A :=
  match o with Some _ => o | None => d end.

(** [Option::is_none] and SQL [IS NULL] *)
Definition is_none {A} (o : option A) : bool := match o with None => true | Some _ => false end.

(** [if let Some(a) = o && f(a)]: the value, when it meets the condition *)
Definition option_filter {A} (f : A → bool) (o : option A) : option A :=
  a ← o; if f a then Some a else None.

Definition opt_eqb (a b : option string) : bool := bool_decide (a = b).

(** SQL [COALESCE(new, old)] *)
Definition coalesce {A} (new old : option A) : option A := option_or_else new old.

(** ** Tables

    A table with a primary key is a finite map from the key to the other
    columns.  [sql_update] is UPDATE ... SET f WHERE P, [sql_delete] is
    DELETE ... WHERE P, [sql_select] the rows of SELECT ... WHERE P and
    [sql_count] the number of rows a statement reports as changed. *)
Section tables.
Context {K R : Type} `{Countable K}.
Implicit Types (P : K → R → bool) (f : R → R) (t : gmap K R).

Definition sql_update P f t : gmap K R :=
  map_imap (λ k r, Some (if P k r then f r else r)) t.

Definition sql_delete P t : gmap K R :=
  map_imap (λ k r, if P k r then None else Some r) t.

Definition sql_select P t : list (K * R) :=
  filter (λ kr, P kr.1 kr.2 = true) (map_to_list t).

Definition sql_count P t : nat := length (sql_select P t).

Lemma lookup_sql_update P f t k :
  sql_update P f t !! k = (λ r, if P k r then f r else r) <$> t !! k.
Proof. unfold sql_update. rewrite map_lookup_imap. by destruct (t !! k). Qed.

Lemma lookup_sql_delete P t k :
  sql_delete P t !! k = (r ← t !! k; if P k r then None else Some r).
Proof. unfold sql_delete. by rewrite map_lookup_imap. Qed.

Lemma elem_of_sql_select P t k r :
  (k, r) ∈ sql_select P t ↔ t !! k = Some r ∧ P k r = true.
Proof.
  unfold sql_select. rewrite list_elem_of_filter, elem_of_map_to_list. simpl. tauto.
Qed.

Lemma NoDup_sql_select P t : NoDup (sql_select P t).*1.
Proof.
  unfold sql_select. eapply sublist_NoDup; [apply (NoDup_fst_map_to_list t)|].
  apply fmap_sublist, sublist_filter.
Qed.

Lemma sql_count_zero P t : sql_count P t = 0%nat ↔ ∀ k r, t !! k = Some r → P k r = false.
Proof.
  unfold sql_count. rewrite length_zero_iff_nil. split.
  - intros Hnil k r Hk. destruct (P k r) eqn:HP; [|done].
    assert ((k, r) ∈ sql_select P t) as Hin by (by apply elem_of_sql_select).
    rewrite Hnil in Hin. by apply elem_of_nil in Hin.
  - intros Hall. apply list.elem_of_nil_inv. intros [k r] [Hk HP]%elem_of_sql_select.
    apply Hall in Hk. congruence.
Qed.

Lemma sql_update_none P f t :
  (∀ k r, t !! k = Some r → P k r = false) → sql_update P f t = t.
Proof.
  intros Hno. apply map_eq. intros k. rewrite lookup_sql_update.
  destruct (t !! k) eqn:Hk; simpl; [|done]. by rewrite (Hno k r Hk).
Qed.

Lemma sql_update_ext P (Q : K → R → bool) f (g : R → R) t :
  (∀ k r, t !! k = Some r → (if P k r then f r else r) = (if Q k r then g r else r)) →
  sql_update P f t = sql_update Q g t.
Proof.
  intros Heq. apply map_eq. intros k. rewrite !lookup_sql_update.
  destruct (t !! k) eqn:Hk; simpl; [|done]. f_equal. by apply Heq.
Qed.

(** A condition that pins the key down touches at most that row. *)
Lemma sql_update_one k P f t :
  (∀ k' r, P k' r = true → k' = k) →
  sql_update P f t =
    match t !! k with Some r => if P k r then <[k := f r]> t else t | None => t end.
Proof.
  intros Hk. apply map_eq. intros k'. rewrite lookup_sql_update.
  destruct (decide (k' = k)) as [->|Hne].
  - destruct (t !! k) as [r|] eqn:Hr; simpl; [|done].
    destruct (P k r); [by rewrite lookup_insert_eq|by rewrite Hr].
  - assert (∀ r, P k' r = false) as HP.
    { intros r. destruct (P k' r) eqn:E; [|done]. by apply Hk in E. }
    assert ((λ r, if P k' r then f r else r) <$> t !! k' = t !! k') as ->.
    { destruct (t !! k'); simpl; [|done]. by rewrite HP. }
    destruct (t !! k); [|done]. destruct (P k _); [|done]. by rewrite lookup_insert_ne.
Qed.

Lemma sql_count_one k P t :
  (∀ k' r, P k' r = true → k' = k) →
  (sql_count P t =? 0)%nat =
    match t !! k with Some r => negb (P k r) | None => true end.
Proof.
  intros Hk. destruct (sql_count P t) eqn:Hc; simpl.
  - destruct (t !! k) as [r|] eqn:Hr; [|done].
    rewrite sql_count_zero in Hc. by rewrite (Hc k r Hr).
  - destruct (sql_select P t) as [|[k' r] l] eqn:Hsel; unfold sql_count in Hc;
      rewrite Hsel in Hc; [done|].
    assert ((k', r) ∈ sql_select P t) as [Hr HP]%elem_of_sql_select by (rewrite Hsel; left).
    apply Hk in HP as Heq. subst k'. by rewrite Hr, HP.
Qed.

Lemma sql_count_empty P : sql_count P ∅ = 0%nat.
Proof. by apply sql_count_zero. Qed.

Lemma sql_count_insert_fresh P k r t :
  t !! k = None →
  sql_count P (<[k:=r]> t) = (sql_count P t + if P k r then 1 else 0)%nat.
Proof.
  intros Hk. unfold sql_count, sql_select. rewrite map_to_list_insert by done.
  destruct (P k r) eqn:HP.
  - rewrite filter_cons_True by done. simpl. lia.
  - rewrite filter_cons_False by (simpl; congruence). lia.
Qed.

(** Replacing a row moves the count by what the two rows contribute. *)
Lemma sql_count_insert P k r r0 t :
  t !! k = Some r0 →
  (sql_count P (<[k:=r]> t) + (if P k r0 then 1 else 0)
   = sql_count P t + (if P k r then 1 else 0))%nat.
Proof.
  intros Hk. rewrite <-(insert_delete_id t k r0) at 2 by done.
  rewrite <-insert_delete_eq. rewrite !sql_count_insert_fresh by apply lookup_delete_eq. lia.
Qed.

Lemma sql_update_insert P f k r t :
  sql_update P f (<[k:=r]> t) = <[k := if P k r then f r else r]> (sql_update P f t).
Proof.
  apply map_eq. intros k'. rewrite lookup_sql_update. destruct (decide (k = k')) as [->|].
  - by rewrite !lookup_insert_eq.
  - by rewrite !lookup_insert_ne, lookup_sql_update by done.
Qed.

(** An update that takes its rows out of a count takes exactly them out. *)
Lemma sql_count_update P f Q t :
  (∀ k r, P k r = true → Q k (f r) = false) →
  (sql_count Q (sql_update P f t) + sql_count (λ k r, P k r && Q k r) t = sql_count Q t)%nat.
Proof.
  intros Hout. induction t as [|k r t Hk IH] using map_ind.
  - by rewrite sql_update_none, !sql_count_empty by done.
  - rewrite sql_update_insert, !sql_count_insert_fresh
      by (done || by rewrite lookup_sql_update, Hk).
    destruct (P k r) eqn:HP; simpl; [rewrite Hout by done|]; destruct (Q k r); lia.
Qed.

Lemma sql_count_ext P (Q : K → R → bool) t :
  (∀ k r, P k r = Q k r) → sql_count P t = sql_count Q t.
Proof.
  intros Heq. unfold sql_count, sql_select. f_equal. apply list_filter_iff.
  intros [k r]. by rewrite Heq.
Qed.

(** A table whose counted rows were all counted before counts no more. *)
Lemma sql_count_le P (t t' : gmap K R) :
  (∀ k r, t' !! k = Some r → P k r = true → ∃ r0, t !! k = Some r0 ∧ P k r0 = true) →
  (sql_count P t' ≤ sql_count P t)%nat.
Proof.
  intros Hsub. unfold sql_count.
  rewrite <-(length_fmap fst (sql_select P t')), <-(length_fmap fst (sql_select P t)).
  apply submseteq_length, NoDup_submseteq; [apply NoDup_sql_select|].
  intros k. rewrite !list_elem_of_fmap. intros ([k' r] & -> & [Hk HP]%elem_of_sql_select).
  destruct (Hsub k' r Hk HP) as (r0 & Hr0 & HP0). exists (k', r0).
  by rewrite elem_of_sql_select.
Qed.

Lemma dom_sql_update P f t : dom (sql_update P f t) = dom t.
Proof.
  apply set_eq. intros k. rewrite !elem_of_dom, lookup_sql_update, fmap_is_Some. done.
Qed.
End tables.

(** UPDATE ... WHERE key = k: at most one row. *)
Definition sql_update_key `{Countable K} {R} (k : K) (f : R → R) (t : gmap K R) : gmap K R :=
  alter f k t.

Lemma sql_update_key_Some `{Countable K} {R} (k : K) (f : R → R) t r :
  t !! k = Some r → sql_update_key k f t = <[k := f r]> t.
Proof.
  intros Hr. apply map_eq. intros k'. unfold sql_update_key. destruct (decide (k' = k)) as [->|].
  - by rewrite lookup_alter_eq, lookup_insert_eq, Hr.
  - by rewrite lookup_alter_ne, lookup_insert_ne.
Qed.

Lemma sql_update_key_None `{Countable K} {R} (k : K) (f : R → R) t :
  t !! k = None → sql_update_key k f t = t.
Proof.
  intros Hr. apply map_eq. intros k'. unfold sql_update_key. destruct (decide (k' = k)) as [->|].
  - by rewrite lookup_alter_eq, Hr.
  - by rewrite lookup_alter_ne.
Qed.

(** [SELECT EXISTS] / [COUNT( * ) > 0] over a table *)
Definition sql_exists `{Countable K} {R} (P : K → R → bool) (t : gmap K R) : bool :=
  existsb (λ kr, P kr.1 kr.2) (map_to_list t).

Lemma sql_exists_true `{Countable K} {R} (P : K → R → bool) (t : gmap K R) :
  sql_exists P t = true ↔ ∃ k r, t !! k = Some r ∧ P k r = true.
Proof.
  unfold sql_exists. rewrite existsb_exists. split.
  - intros ([k r] & Hin & HP). exists k, r. split; [|done].
    apply elem_of_map_to_list. by apply list_elem_of_In.
  - intros (k & r & Hk & HP). exists (k, r). split; [|done].
    apply list_elem_of_In. by apply elem_of_map_to_list.
Qed.

(** ORDER BY: a merge sort by a comparison [le].  SQLite leaves the order of
    rows that compare equal unspecified; the model keeps the order in which the
    sort meets them. *)
Definition rel_of {A} (le : A → A → bool) : relation A := λ a b, le a b = true.
#[export] Instance rel_of_dec {A} (le : A → A → bool) a b : Decision (rel_of le a b) :=
  bool_eq_dec (le a b) true.

Definition order_by {A} (le : A → A → bool) (l : list A) : list A :=
  merge_sort (rel_of le) l.

Lemma order_by_perm {A} (le : A → A → bool) l : order_by le l ≡ₚ l.
Proof. apply merge_sort_Permutation. Qed.

Lemma elem_of_order_by {A} (le : A → A → bool) l x : x ∈ order_by le l ↔ x ∈ l.
Proof. by rewrite order_by_perm. Qed.

(** Comparisons by a key, ascending or descending, and lexicographic. *)
Definition asc {A} (key : A → Z) (a b : A) : comparison := Z.compare (key a) (key b).
Definition desc {A} (key : A → Z) (a b : A) : comparison := Z.compare (key b) (key a).
(** SQLite's BINARY collation orders texts by their bytes. *)
Definition by_text {A} (key : A → string) (a b : A) : comparison :=
  String.compare (key a) (key b).
Definition then_by {A} (c1 c2 : A → A → comparison) (a b : A) : comparison :=
  match c1 a b with Eq => c2 a b | o => o end.
Definition le_of {A} (c : A → A → comparison) (a b : A) : bool :=
  match c a b with Gt => false | _ => true end.

Lemma order_by_sorted {A} (le : A → A → bool) l :
  (∀ a b, le a b = true ∨ le b a = true) → Sorted (rel_of le) (order_by le l).
Proof. intros Htot. assert (Total (rel_of le)) by exact Htot. apply (Sorted_merge_sort (rel_of le)). Qed.

Lemma le_of_total {A} (c : A → A → comparison) :
  (∀ a b, c b a = CompOpp (c a b)) → ∀ a b, le_of c a b = true ∨ le_of c b a = true.
Proof. intros Hc a b. unfold le_of. rewrite (Hc a b). destruct (c a b); simpl; tauto. Qed.

Lemma asc_opp {A} (key : A → Z) a b : asc key b a = CompOpp (asc key a b).
Proof. apply Z.compare_antisym. Qed.
Lemma desc_opp {A} (key : A → Z) a b : desc key b a = CompOpp (desc key a b).
Proof. apply Z.compare_antisym. Qed.
Lemma then_by_opp {A} (c1 c2 : A → A → comparison) :
  (∀ a b, c1 b a = CompOpp (c1 a b)) → (∀ a b, c2 b a = CompOpp (c2 a b)) →
  ∀ a b, then_by c1 c2 b a = CompOpp (then_by c1 c2 a b).
Proof. intros H1 H2 a b. unfold then_by. rewrite (H1 a b). by destruct (c1 a b); simpl. Qed.

(** Comparisons that order rows: antisymmetric and transitive, rows that compare
    equal comparing alike with every other row. *)
Class SqlOrder {A} (c : A → A → comparison) : Prop := {
  so_opp a b : c b a = CompOpp (c a b);
  so_eq a b d : c a b = Eq → c a d = c b d;
  so_trans a b d : c a b = Lt → c b d = Lt → c a d = Lt;
}.

#[export] Instance asc_order {A} (key : A → Z) : SqlOrder (asc key).
Proof.
  split; intros *; [apply asc_opp| |]; unfold asc.
  - by intros ->%Z.compare_eq_iff.
  - rewrite !Z.compare_lt_iff. lia.
Qed.
#[export] Instance flip_order {A} (c : A → A → comparison) : SqlOrder c → SqlOrder (λ a b, c b a).
Proof.
  intros Hc. split; intros *; [apply so_opp| |].
  - intros Heq. rewrite (so_opp a d), (so_opp b d), (so_eq b a d Heq). done.
  - intros H1 H2. by apply (so_trans d b a).
Qed.
#[export] Instance desc_order {A} (key : A → Z) : SqlOrder (desc key) := flip_order (asc key) _.

Lemma string_compare_trans a b d :
  String.compare a b = Lt → String.compare b d = Lt → String.compare a d = Lt.
Proof.
  revert b d. induction a as [|x a IH]; intros [|y b] [|z d]; simpl; try done.
  destruct (Ascii.compare x y) eqn:Hxy; [apply Ascii.compare_eq_iff in Hxy as ->| |done].
  - destruct (Ascii.compare y z); [apply IH|done|done].
  - destruct (Ascii.compare y z) eqn:Hyz; [apply Ascii.compare_eq_iff in Hyz as <-; by rewrite Hxy| |done].
    intros _ _. unfold Ascii.compare in *. rewrite N.compare_lt_iff in *.
    rewrite (proj2 (N.compare_lt_iff _ _)); [done|lia].
Qed.
#[export] Instance by_text_order {A} (key : A → string) : SqlOrder (by_text key).
Proof.
  split; intros *; unfold by_text.
  - apply String.compare_antisym.
  - by intros ->%String.compare_eq_iff.
  - apply string_compare_trans.
Qed.
#[export] Instance then_by_order {A} (c1 c2 : A → A → comparison) :
  SqlOrder c1 → SqlOrder c2 → SqlOrder (then_by c1 c2).
Proof.
  intros H1 H2. split; intros *; unfold then_by.
  - rewrite (so_opp (c := c1) a b), (so_opp (c := c2) a b). by destruct (c1 a b).
  - destruct (c1 a b) eqn:E1; [|done..]. intros E2.
    by rewrite (so_eq a b d E1), (so_eq a b d E2).
  - destruct (c1 a b) eqn:E1; [rewrite (so_eq a b d E1)| |done].
    + destruct (c1 b d); [by apply so_trans|done|done].
    + destruct (c1 b d) eqn:E2; [|by rewrite (so_trans a b d E1 E2)|done].
      intros _ _. assert (c1 d b = Eq) as E3 by (by rewrite (so_opp b d), E2).
      rewrite (so_opp d a), (so_eq d b a E3), (so_opp a b), E1. done.
Qed.

Lemma le_of_trans {A} (c : A → A → comparison) `{!SqlOrder c} a b d :
  le_of c a b = true → le_of c b d = true → le_of c a d = true.
Proof.
  unfold le_of. destruct (c a b) eqn:E1; [by rewrite (so_eq a b d E1)| |done].
  destruct (c b d) eqn:E2; [|by rewrite (so_trans a b d E1 E2)|done].
  intros _ _. assert (c d b = Eq) as E3 by (by rewrite (so_opp b d), E2).
  by rewrite (so_opp d a), (so_eq d b a E3), (so_opp a b), E1.
Qed.

(** ORDER BY .. LIMIT 1 is a least row. *)
Lemma order_by_head {A} (c : A → A → comparison) `{!SqlOrder c} l x :
  head (order_by (le_of c) l) = Some x → x ∈ l ∧ ∀ y, y ∈ l → le_of c x y = true.
Proof.
  intros Hh. pose proof (order_by_sorted (le_of c) l (le_of_total c so_opp)) as Hs.
  apply Sorted_StronglySorted in Hs; [|intros a b d; apply (le_of_trans c)].
  pose proof (elem_of_order_by (le_of c) l) as Hin.
  destruct (order_by (le_of c) l) as [|x' l']; [done|]. injection Hh as ->.
  apply StronglySorted_inv in Hs as [_ Hall]. rewrite Forall_forall in Hall.
  split; [by apply Hin; left|]. intros y [->|Hy]%Hin%elem_of_cons.
  - unfold le_of. pose proof (so_opp (c := c) x x) as Hx. by destruct (c x x).
  - by apply Hall.
Qed.

(** [LIMIT n] *)
Definition limit {A} (n : nat) (l : list A) : list A := take n l.

Create Rewrite HintDb sql.
#[export] Hint Rewrite @lookup_sql_update @lookup_sql_delete : sql.

(** ** Automation *)

(** Case analysis on the next [match] or [if] of a hypothesis or the goal. *)
Ltac split_match :=
  match goal with
  | H : context [match ?x with _ => _ end] |- _ => destruct x eqn:?
  | |- context [match ?x with _ => _ end] => destruct x eqn:?
  end.

Ltac inv_ok :=
  repeat match goal with
  | H : Ok _ = Ok _ |- _ => injection H as H; subst
  | H : Ok _ = Err _ |- _ => discriminate H
  | H : Err _ = Ok _ |- _ => discriminate H
  | H : (_ ≫= _) = Ok _ |- _ => apply bind_Ok in H as (? & ? & H)
  end; simplify_eq/=.

Ltac bool_to_prop :=
  repeat match goal with
  | H : (_ && _) = true |- _ => apply andb_true_iff in H; destruct H
  | H : (_ || _) = false |- _ => apply orb_false_iff in H; destruct H
  | H : negb _ = true |- _ => apply negb_true_iff in H
  | H : negb _ = false |- _ => apply negb_false_iff in H
  | H : String.eqb _ _ = true |- _ => apply String.eqb_eq in H
  | H : String.eqb _ _ = false |- _ => apply String.eqb_neq in H
  | H : (_ =? _) = true |- _ => apply Z.eqb_eq in H
  | H : (_ =? _) = false |- _ => apply Z.eqb_neq in H
  | H : (_ <? _) = true |- _ => apply Z.ltb_lt in H
  | H : (_ <? _) = false |- _ => apply Z.ltb_ge in H
  | H : (_ <=? _) = true |- _ => apply Z.leb_le in H
  | H : (_ <=? _) = false |- _ => apply Z.leb_gt in H
  | H : bool_decide _ = true |- _ => apply bool_decide_eq_true in H
  | H : bool_decide _ = false |- _ => apply bool_decide_eq_false in H
  end.

(** ** JSON values ([serde_json::Value])

    An object is the list of its fields.  A non-integer number is kept as text. *)
#[warnings="-register-all"]
Inductive json :=
  | JNull
  | JBool (b : bool)
  | JInt (z : Z)
  | JReal (text : string)
  | JString (s : string)
  | JArray (items : list json)
  | JObject (fields : list (string * json)).

#[export] Instance json_eq_dec : EqDecision json.
Proof.
  refine (fix go a b := _ : {a = b} + {a ≠ b}).
  refine (match a, b with
    | JNull, JNull => left eq_refl
    | JBool x, JBool y => cast_if (decide (x = y))
    | JInt x, JInt y => cast_if (decide (x = y))
    | JReal x, JReal y => cast_if (decide (x = y))
    | JString x, JString y => cast_if (decide (x = y))
    | JArray x, JArray y => cast_if (@list_eq_dec json go x y)
    | JObject x, JObject y =>
        cast_if (@list_eq_dec (string * json) (@prod_eq_dec string _ json go) x y)
    | _, _ => right _
    end); congruence.
Defined.

(** [Value::get] and indexing by a key: a missing field reads as null *)
Fixpoint find_field (key : string) (fields : list (string * json)) : json :=
  match fields with
  | [] => JNull
  | (k, v) :: rest => if String.eqb k key then v else find_field key rest
  end.
Definition json_get (key : string) (v : json) : json :=
  match v with JObject fields => find_field key fields | _ => JNull end.
Definition json_as_str (v : json) : option string :=
  match v with JString s => Some s | _ => None end.
Definition json_as_i64 (v : json) : option Z :=
  match v with
  | JInt z => if (- 2 ^ 63 <=? z) && (z <? 2 ^ 63) then Some z else None
  | _ => None
  end.
(** Assignment to a key of an object *)
Fixpoint set_field (key : string) (v : json) (fields : list (string * json))
    : list (string * json) :=
  match fields with
  | [] => [(key, v)]
  | (k, w) :: rest => if String.eqb k key then (k, v) :: rest else (k, w) :: set_field key v rest
  end.
Definition json_set (key : string) (v o : json) : json :=
  match o with JObject fields => JObject (set_field key v fields) | _ => o end.

Definition opt_string (o : option string) : json :=
  match o with Some s => JString s | None => JNull end.
Definition opt_int (o : option Z) : json :=
  match o with Some z => JInt z | None => JNull end.

(** ** Record update

    [r <| f := v |>] and [r <| f ::= g |>] rebuild a record with one field
    changed, like Rust's assignment to a field.  A record type registers its
    eta expansion once; [Update] replaces one field of that expansion, and a
    projection applied to an update reduces by [simpl]. *)
Class Eta (R : Type) := eta : R → R.

Class Update {R T} (proj : R → T) := update : (T → T) → R → R.
Arguments update {R T} proj {_} _ _.

Ltac solve_update :=
  match goal with
  | |- @Update ?R ?T ?proj =>
      let e := constr:(_ : Eta R) in
      let f := fresh "f" in let r := fresh "r" in
      unfold Update; intros f r;
      let m := eval hnf in (@eta R e r) in
      let p := eval pattern (proj r) in m in
      lazymatch p with
      | ?F _ => let body := eval cbv beta in (F (f (proj r))) in exact body
      end
  end.
#[export] Hint Extern 0 (Update _) => solve_update : typeclass_instances.

#[warnings="-postfix-notation-not-level-1"]
Notation "r <| proj ::= g |>" := (update proj g r)
  (at level 12, left associativity, proj constr at level 10) : cassy_scope.
#[warnings="-postfix-notation-not-level-1"]
Notation "r <| proj := v |>" := (update proj (λ _, v) r)
  (at level 12, left associativity, proj constr at level 10) : cassy_scope.

(** ** Filtered lists *)
Lemma filter_bool_sublist {A} (P : A → bool) l : List.filter P l `sublist_of` l.
Proof. induction l as [|x l IH]; cbn; [done|]. destruct (P x); by constructor. Qed.
Lemma filter_filter_count {A} (p q : A → bool) l :
  List.filter q (List.filter p l) = List.filter (λ x, p x && q x) l.
Proof. induction l as [|x l IH]; [done|]. cbn. destruct (p x); cbn; rewrite IH; done. Qed.
Lemma filter_sublist_length {A} (p : A → bool) (l k : list A) :
  l `sublist_of` k → (length (List.filter p l) ≤ length (List.filter p k))%nat.
Proof. induction 1 as [|x l k _ IH|x l k _ IH]; cbn; [done| |]; destruct (p x); cbn; lia. Qed.
Lemma filter_le_split {A} (f g : A → Z) (z : Z) (l : list A) :
  (∀ x, x ∈ l → f x ≤ z) →
  length l = (length (List.filter (λ x, (f x <? z)%Z) l) + length (List.filter (λ x, (f x =? z)%Z) l))%nat.
Proof.
  induction l as [|x l IH]; intros H; [done|]. cbn. rewrite (IH ltac:(intros; apply H; by right)) at 1.
  pose proof (H x (list_elem_of_here _ _)). destruct (Z.ltb_spec (f x) z), (Z.eqb_spec (f x) z); cbn; lia.
Qed.
Lemma count_disjoint {A} (P Q R : A → bool) (l : list A) :
  (∀ x, P x = true → R x = true ∧ Q x = false) → (∀ x, Q x = true → R x = true) →
  (length (List.filter P l) + length (List.filter Q l) ≤ length (List.filter R l))%nat.
Proof.
  intros HP HQ. induction l as [|x l IH]; [done|]. cbn. specialize (HP x). specialize (HQ x).
  destruct (P x); [destruct HP as [-> ->]; [done|]; cbn; lia|].
  destruct (Q x); [rewrite HQ by done; cbn; lia|]. destruct (R x); cbn; lia.
Qed.
