(* ===== verification/Texts.v ===== *)
(** * Lemmas on texts

    What the development uses about strings beyond the Standard Library: a text
    that is part of another one ([carried_in]), its first and its last place
    ([first_at], [last_at]), and the prefix and search functions of the prelude in
    these terms, so that statements about texts need not mention the functions
    that cut them. *)

From S2P Require Import Prelude.

(** ** Concatenation *)
Lemma string_app_assoc a b c : (a +:+ b) +:+ c = a +:+ (b +:+ c).
Proof. induction a as [|x a IH]; [done|]. exact (f_equal (String x) IH). Qed.

Lemma string_app_nil a : a +:+ EmptyString = a.
Proof. induction a as [|x a IH]; [done|]. exact (f_equal (String x) IH). Qed.

Lemma string_length_app a b : String.length (a +:+ b) = (String.length a + String.length b)%nat.
Proof. induction a as [|x a IH]; simpl; [done|]. f_equal. exact IH. Qed.

Lemma string_app_inj_length a b a' b' :
  a +:+ b = a' +:+ b' → String.length a = String.length a' → a = a' ∧ b = b'.
Proof.
  revert a'. induction a as [|x a IH]; intros [|x' a'] Heq Hl; try done.
  cbn in Heq, Hl. injection Heq as -> Heq. injection Hl as Hl. by destruct (IH a' Heq Hl) as [-> ->].
Qed.

(** ** Reversal *)
Lemma rev_app_spec s t : String.rev_app s t = String.rev s +:+ t.
Proof.
  unfold String.rev. revert t. induction s as [|x s IH]; intros t; [done|]. cbn [String.rev_app].
  rewrite IH, (IH (String x EmptyString)), string_app_assoc. done.
Qed.
Lemma rev_cons x s : String.rev (String x s) = String.rev s +:+ String x EmptyString.
Proof. unfold String.rev at 1. cbn [String.rev_app]. apply rev_app_spec. Qed.
Lemma string_rev_app s t : String.rev (s +:+ t) = String.rev t +:+ String.rev s.
Proof.
  induction s as [|x s IH]; [by rewrite string_app_nil|].
  change (String x s +:+ t) with (String x (s +:+ t)). by rewrite !rev_cons, IH, string_app_assoc.
Qed.
Lemma string_rev_involutive s : String.rev (String.rev s) = s.
Proof. induction s as [|x s IH]; [done|]. by rewrite rev_cons, string_rev_app, IH. Qed.
Lemma string_rev_length s : String.length (String.rev s) = String.length s.
Proof. induction s as [|x s IH]; [done|]. rewrite rev_cons, string_length_app, IH. cbn. lia. Qed.

(** ** Parts of a text *)
Definition carried_in (x s : string) : Prop := ∃ a b, s = a +:+ x +:+ b.
Lemma carried_refl x : carried_in x x.
Proof. exists EmptyString, EmptyString. by rewrite string_app_nil. Qed.
Lemma carried_left a x s : carried_in x s → carried_in x (a +:+ s).
Proof. intros (l & t & ->). exists (a +:+ l), t. by rewrite string_app_assoc. Qed.
Lemma carried_right x s b : carried_in x s → carried_in x (s +:+ b).
Proof. intros (l & t & ->). exists l, (t +:+ b). by rewrite !string_app_assoc. Qed.
Lemma carried_concat x sep l : x ∈ l → carried_in x (String.concat sep l).
Proof.
  induction l as [|y l IH]; [by intros ?%elem_of_nil|]. intros [->|Hx]%elem_of_cons.
  - destruct l; [apply carried_refl|apply carried_right, carried_refl].
  - destruct l; [by apply elem_of_nil in Hx|]. cbn [String.concat]. by apply carried_left, carried_left, IH.
Qed.
#[export] Instance carried_in_preorder : PreOrder carried_in.
Proof.
  split; [exact carried_refl|]. intros x y z Hxy (l & t & ->). by apply carried_left, carried_right.
Qed.

(** ** Prefixes *)
Lemma strip_prefix_Some p s rest : strip_prefix p s = Some rest ↔ s = p +:+ rest.
Proof.
  revert s. induction p as [|a p IH]; intros s; cbn; [naive_solver|].
  destruct s as [|b s]; [done|]. destruct (Ascii.eqb_spec a b) as [->|Hne].
  - rewrite IH. split; [by intros ->|by intros [= ->]].
  - split; [done|]. intros [= -> ->]. done.
Qed.
Lemma starts_with_true p s : starts_with p s = true ↔ ∃ rest, s = p +:+ rest.
Proof.
  unfold starts_with. destruct (strip_prefix p s) as [rest|] eqn:H.
  - split; [|done]. intros _. exists rest. by apply strip_prefix_Some.
  - split; [done|]. intros [rest Hr%strip_prefix_Some]. congruence.
Qed.
Lemma starts_with_false p s : starts_with p s = false ↔ ∀ rest, s ≠ p +:+ rest.
Proof. rewrite <-not_true_iff_false, starts_with_true. naive_solver. Qed.

(** ** The first and the last place of a text *)
Definition first_at (p s before after : string) : Prop :=
  s = before +:+ p +:+ after
  ∧ ∀ b a, s = b +:+ p +:+ a → (String.length before ≤ String.length b)%nat.
Definition last_at (p s before after : string) : Prop :=
  s = before +:+ p +:+ after
  ∧ ∀ b a, s = b +:+ p +:+ a → (String.length b ≤ String.length before)%nat.

Lemma first_at_unique p s b a b' a' : first_at p s b a → first_at p s b' a' → b = b' ∧ a = a'.
Proof.
  intros [Hs H1] [Hs' H2]. specialize (H1 _ _ Hs'). specialize (H2 _ _ Hs). rewrite Hs in Hs'.
  apply string_app_inj_length in Hs' as [-> Heq]; [|lia]. split; [done|].
  by apply string_app_inj_length in Heq as [_ ->].
Qed.
Lemma last_at_unique p s b a b' a' : last_at p s b a → last_at p s b' a' → b = b' ∧ a = a'.
Proof.
  intros [Hs H1] [Hs' H2]. specialize (H1 _ _ Hs'). specialize (H2 _ _ Hs). rewrite Hs in Hs'.
  apply string_app_inj_length in Hs' as [-> Heq]; [|lia]. split; [done|].
  by apply string_app_inj_length in Heq as [_ ->].
Qed.

Lemma split_text_unfold p s :
  split_text p s =
  match strip_prefix p s with
  | Some rest => Some (EmptyString, rest)
  | None => match s with
            | EmptyString => None
            | String c s => '(before, after) ← split_text p s; Some (String c before, after)
            end
  end.
Proof. by destruct s. Qed.
Lemma split_text_Some p s before after : split_text p s = Some (before, after) → first_at p s before after.
Proof.
  revert before. induction s as [|c s IH]; intros before; rewrite split_text_unfold;
    (match goal with |- context [strip_prefix p ?x] => destruct (strip_prefix p x) as [rest|] eqn:Hp end;
      [intros [= <- <-]; split; [exact (proj1 (strip_prefix_Some _ _ _) Hp)|intros; cbn; lia]|]); [done|].
  destruct (split_text p s) as [[b a]|] eqn:Hs; [|done]. intros [= <- <-].
  destruct (IH b eq_refl) as [-> Hmin]. split; [done|]. intros b' a' Heq.
  destruct b' as [|c' b']; cbn [String.length].
  - exfalso. apply (strip_prefix_Some p) in Heq. congruence.
  - injection Heq as _ Heq. specialize (Hmin b' a' Heq). lia.
Qed.
Lemma split_text_None p s : split_text p s = None → ¬ carried_in p s.
Proof.
  intros Hn (b & a & Heq). revert b Heq Hn. induction s as [|c s IH]; intros b Heq; rewrite split_text_unfold;
    (match goal with |- context [strip_prefix p ?x] => destruct (strip_prefix p x) as [rest|] eqn:Hp end; [done|]);
    (destruct b as [|c' b]; [apply (strip_prefix_Some p) in Heq; congruence|]); [done|].
  injection Heq as _ Heq. specialize (IH b Heq). destruct (split_text p s) as [[]|]; [done|]. by intros _; apply IH.
Qed.
Lemma split_text_first p s before after : split_text p s = Some (before, after) ↔ first_at p s before after.
Proof.
  split; [apply split_text_Some|]. intros Hf. destruct (split_text p s) as [[b a]|] eqn:Hs.
  - apply split_text_Some in Hs. by destruct (first_at_unique _ _ _ _ _ _ Hs Hf) as [-> ->].
  - apply split_text_None in Hs as []. destruct Hf as [-> _]. by exists before, after.
Qed.
Lemma split_text_absent p s : split_text p s = None ↔ ¬ carried_in p s.
Proof.
  split; [apply split_text_None|]. intros Hn. destruct (split_text p s) as [[b a]|] eqn:Hs; [|done].
  apply split_text_Some in Hs as [-> _]. destruct Hn. by exists b, a.
Qed.

(** The last place is the first one from behind. *)
Lemma last_at_rev p s before after :
  last_at p s before after ↔ first_at (String.rev p) (String.rev s) (String.rev after) (String.rev before).
Proof.
  assert (∀ b a, s = b +:+ p +:+ a ↔ String.rev s = String.rev a +:+ String.rev p +:+ String.rev b) as Hrev.
  { intros b a. split; [intros ->; by rewrite !string_rev_app, string_app_assoc|].
    intros Heq%(f_equal String.rev). by rewrite !string_rev_app, !string_rev_involutive, string_app_assoc in Heq. }
  assert (∀ b a, s = b +:+ p +:+ a → String.length s = (String.length b + String.length p + String.length a)%nat) as Hlen
    by (intros b a ->; rewrite !string_length_app; lia).
  split; intros [Hs H]; (split; [by apply Hrev|]); apply Hrev in Hs as Hs'.
  - intros b a Heq. rewrite <-(string_rev_involutive b), <-(string_rev_involutive a) in Heq. apply Hrev in Heq.
    specialize (H _ _ Heq). apply Hlen in Heq, Hs. rewrite !string_rev_length in *. lia.
  - intros b a Heq. pose proof Heq as Heq'. apply Hrev in Heq'. specialize (H _ _ Heq').
    rewrite !string_rev_length in H. apply Hlen in Heq. apply Hlen in Hs'. lia.
Qed.
