(* ===== verification/Logs.v ===== *)
(** * Queue tables

    A table with an AUTOINCREMENT id keeps its rows in the order of their ids
    and remembers the largest id it ever gave.  [Queue] is the interface of the
    tables a consumer polls: it takes pending rows and marks them processed.
    The supervisor queue and the spawn queue are instances. *)

From S2P Require Import Prelude.

Record Log (R : Type) := mkLog { log_rows : list R; log_seq : Z }.
Arguments mkLog {R} _ _.
Arguments log_rows {R} _.
Arguments log_seq {R} _.
Definition empty_log {R} : Log R := mkLog [] 0.

(** [LIMIT ?] of a bound i64: a negative limit is none *)
Definition sql_limit {A} (n : Z) (l : list A) : list A :=
  if n <? 0 then l else take (Z.to_nat n) l.

Class HasId (R : Type) := row_id : R → Z.

Section logs.
Context {R : Type} {ident : HasId R}.
Implicit Types (l : Log R) (r : R) (P : R → bool).

(** INSERT: the new id, unless the ids are used up (SQLITE_FULL) *)
Definition log_insert (mk : Z → R) l : result (Z * Log R) :=
  let id := log_seq l + 1 in
  if 2 ^ 63 <=? id then Err (Database "database or disk is full")
  else Ok (id, mkLog (log_rows l ++ [mk id]) id).
(** UPDATE .. SET f WHERE P *)
Definition log_update P (f : R → R) l : Log R :=
  mkLog ((λ r, if P r then f r else r) <$> log_rows l) (log_seq l).
(** DELETE .. WHERE P *)
Definition log_delete P l : Log R := mkLog (List.filter (λ r, negb (P r)) (log_rows l)) (log_seq l).
Definition log_select P l : list R := List.filter P (log_rows l).
(** The number of rows a statement with this condition changes *)
Definition log_count P l : nat := length (log_select P l).
Definition by_id (id : Z) r : bool := row_id r =? id.
Definition log_get (id : Z) l : option R := head (log_select (by_id id) l).
(** [WHERE id IN (..)] *)
Definition among (ids : list Z) r : bool := existsb (Z.eqb (row_id r)) ids.

Definition log_wf l : Prop :=
  StronglySorted Z.lt (row_id <$> log_rows l) ∧ Forall (λ r, row_id r ≤ log_seq l) (log_rows l).

Lemma elem_of_log_update P f l r :
  r ∈ log_rows (log_update P f l) ↔ ∃ r0, r0 ∈ log_rows l ∧ r = if P r0 then f r0 else r0.
Proof. cbn. rewrite list_elem_of_fmap. naive_solver. Qed.
Lemma elem_of_log_delete P l r :
  r ∈ log_rows (log_delete P l) ↔ r ∈ log_rows l ∧ P r = false.
Proof. cbn. by rewrite !list_elem_of_In, filter_In, negb_true_iff. Qed.
Lemma elem_of_log_select P l r : r ∈ log_select P l ↔ r ∈ log_rows l ∧ P r = true.
Proof. unfold log_select. by rewrite !list_elem_of_In, filter_In. Qed.
Lemma log_insert_Ok mk l id l' :
  log_insert mk l = Ok (id, l') →
  id = log_seq l + 1 ∧ log_seq l' = id ∧ log_rows l' = log_rows l ++ [mk id].
Proof. unfold log_insert. destruct (_ <=? _); [done|]. by intros [= <- <-]. Qed.

Lemma log_wf_insert mk l id l' :
  log_wf l → (∀ z, row_id (mk z) = z) → log_insert mk l = Ok (id, l') → log_wf l'.
Proof.
  intros [Hs Hb] Hmk (-> & Hseq & Hrows)%log_insert_Ok. unfold log_wf.
  rewrite Hrows, Hseq, fmap_app, Forall_app. cbn. rewrite Hmk. rewrite Forall_forall in Hb. split.
  - apply StronglySorted_app_2; [|done|by repeat constructor].
    intros x y (r & -> & Hr)%list_elem_of_fmap ->%list_elem_of_singleton. specialize (Hb r Hr). lia.
  - split; [|repeat constructor; rewrite Hmk; lia].
    apply Forall_forall. intros r Hr. specialize (Hb r Hr). lia.
Qed.

Lemma log_wf_update P f l : (∀ r, row_id (f r) = row_id r) → log_wf l → log_wf (log_update P f l).
Proof.
  intros Hf [Hs Hb]. split; cbn.
  - rewrite <-list_fmap_compose. erewrite list_fmap_ext; [exact Hs|].
    intros i r _. cbn. destruct (P r); by rewrite ?Hf.
  - rewrite Forall_fmap. eapply Forall_impl; [exact Hb|]. cbn. intros r Hr. destruct (P r); by rewrite ?Hf.
Qed.

Lemma StronglySorted_filter {A B} (lt : relation B) (g : A → B) (p : A → bool) (l : list A) :
  StronglySorted lt (g <$> l) → StronglySorted lt (g <$> List.filter p l).
Proof.
  induction l as [|a l IH]; cbn; [done|]. intros [Hs Ha]%StronglySorted_inv.
  destruct (p a); cbn; [|by apply IH]. constructor; [by apply IH|].
  rewrite Forall_fmap in *. rewrite Forall_forall in *. intros b Hb.
  apply Ha. apply list_elem_of_In, filter_In in Hb as [Hb _]. by apply list_elem_of_In.
Qed.

Lemma log_wf_delete P l : log_wf l → log_wf (log_delete P l).
Proof.
  intros [Hs Hb]. split; cbn; [by apply StronglySorted_filter|].
  rewrite Forall_forall in *. intros r [Hr _]%(elem_of_log_delete P). by apply Hb.
Qed.

Lemma log_wf_unique l r r' :
  log_wf l → r ∈ log_rows l → r' ∈ log_rows l → row_id r = row_id r' → r = r'.
Proof.
  intros [Hs _]. induction (log_rows l) as [|a rows IH]; [by intros ?%elem_of_nil|].
  cbn in Hs. apply StronglySorted_inv in Hs as [Hs Ha]. rewrite Forall_fmap, Forall_forall in Ha.
  rewrite !elem_of_cons. intros [->|Hr] [->|Hr'] Heq; [done| | |by apply IH].
  - specialize (Ha r' Hr'). cbn in Ha. lia.
  - specialize (Ha r Hr). cbn in Ha. lia.
Qed.

Lemma log_wf_NoDup l : log_wf l → NoDup (log_rows l).
Proof.
  intros [Hs _]. apply (NoDup_fmap_1 row_id). induction Hs as [|x xs _ IH Hx]; constructor; [|done].
  intros Hin. rewrite Forall_forall in Hx. specialize (Hx x Hin). lia.
Qed.

Lemma log_select_NoDup P l : log_wf l → NoDup (log_select P l).
Proof.
  intros Hl%log_wf_NoDup. unfold log_select. induction Hl as [|x xs Hx _ IH]; cbn; [constructor|].
  destruct (P x); [constructor|]; [|done..]. 
  intros [Hin _]%list_elem_of_In%filter_In. by apply Hx, list_elem_of_In.
Qed.

Lemma log_get_Some id l r : log_get id l = Some r → r ∈ log_rows l ∧ row_id r = id.
Proof.
  unfold log_get. intros H. assert (r ∈ log_select (by_id id) l) as Hr.
  { destruct (log_select _ _); [done|]. injection H as ->. by left. }
  apply elem_of_log_select in Hr as [Hr Hid]. unfold by_id in Hid. bool_to_prop. done.
Qed.
Lemma log_get_intro id l r : log_wf l → r ∈ log_rows l → row_id r = id → log_get id l = Some r.
Proof.
  intros Hwf Hr Hid. destruct (log_get id l) as [r'|] eqn:Hg.
  - apply log_get_Some in Hg as [Hr' Hid']. f_equal. apply (log_wf_unique l); [done..|congruence].
  - exfalso. unfold log_get in Hg. assert (r ∈ log_select (by_id id) l) as Hin.
    { apply elem_of_log_select. split; [done|]. unfold by_id. by apply Z.eqb_eq. }
    destruct (log_select _ _); [by apply elem_of_nil in Hin|done].
Qed.

Lemma among_true ids r : among ids r = true ↔ row_id r ∈ ids.
Proof.
  unfold among. rewrite existsb_exists. setoid_rewrite <-list_elem_of_In.
  setoid_rewrite Z.eqb_eq. naive_solver.
Qed.
End logs.

(** ** Tables over time

    [log_evolves E l l']: ids are given out in increasing order and never again,
    and a row of [l'] is new or the row of [l] with its id, changed as [E] lets
    rows change.  [log_step E] adds that well-formed tables stay so; both are
    preorders, so what is shown of each statement holds of executions. *)
Section evolution.
Context {R : Type} {ident : HasId R} (E : relation R) `{!PreOrder E}.
Implicit Types (l : Log R) (r : R) (P : R → bool).

Definition log_evolves l l' : Prop :=
  log_seq l ≤ log_seq l'
  ∧ ∀ r', r' ∈ log_rows l' →
      log_seq l < row_id r' ∨ ∃ r, r ∈ log_rows l ∧ row_id r = row_id r' ∧ E r r'.
Definition log_step l l' : Prop := log_wf l → log_wf l' ∧ log_evolves l l'.

#[export] Instance log_evolves_preorder : PreOrder log_evolves.
Proof.
  split.
  - intros l. split; [lia|]. intros r Hr. right. by exists r.
  - intros a b d [Hab Ha] [Hbd Hb]. split; [lia|]. intros r3 Hr3.
    destruct (Hb r3 Hr3) as [?|(r2 & Hr2 & Hid & Hp)]; [left; lia|].
    destruct (Ha r2 Hr2) as [?|(r1 & Hr1 & Hid1 & Hp1)]; [left; lia|].
    right. exists r1. split_and!; [done|congruence|by etrans].
Qed.
#[export] Instance log_step_preorder : PreOrder log_step.
Proof.
  split; [by split|]. intros a b d Hab Hbd Hwf.
  destruct (Hab Hwf) as [Hwb Hb]. destruct (Hbd Hwb) as [Hwd Hd]. split; [done|by etrans].
Qed.

Lemma log_step_update P (f : R → R) l :
  (∀ r, row_id (f r) = row_id r) → (∀ r, P r = true → E r (f r)) → log_step l (log_update P f l).
Proof.
  intros Hf Hp Hwf. split; [by apply log_wf_update|]. split; [done|].
  intros r' (r & Hr & ->)%elem_of_log_update. right.
  exists r. destruct (P r) eqn:HP; [by rewrite Hf; auto|done].
Qed.
Lemma log_step_delete P l : log_step l (log_delete P l).
Proof.
  intros Hwf. split; [by apply log_wf_delete|]. split; [done|].
  intros r [Hr _]%elem_of_log_delete. right. by exists r.
Qed.
Lemma log_step_insert mk l id l' :
  (∀ z, row_id (mk z) = z) → log_insert mk l = Ok (id, l') → log_step l l'.
Proof.
  intros Hmk Hins Hwf. split; [by eapply log_wf_insert|].
  apply log_insert_Ok in Hins as (-> & Hseq & Hrows). split; [lia|]. intros r. rewrite Hrows.
  intros [Hr | ->%list_elem_of_singleton]%elem_of_app; [right; by exists r|left; rewrite Hmk; lia].
Qed.

(** A row with the id of an older row is that row, later. *)
Lemma evolves_origin l l' r r' :
  log_wf l → log_evolves l l' → r ∈ log_rows l → r' ∈ log_rows l' → row_id r' = row_id r → E r r'.
Proof.
  intros Hwf [_ Hl] Hr Hr' Hid. destruct (Hl r' Hr') as [Hnew|(r0 & Hr0 & Hid0 & HE)].
  - exfalso. destruct Hwf as [_ Hb]. rewrite Forall_forall in Hb. specialize (Hb r Hr). lia.
  - rewrite (log_wf_unique l r r0); [done..|congruence].
Qed.
End evolution.
Lemma log_step_mono {R : Type} {ident : HasId R} (E F : relation R) (l l' : Log R) :
  (∀ r r', E r r' → F r r') → log_step E l l' → log_step F l l'.
Proof.
  intros HEF H Hwf. destruct (H Hwf) as [Hwf' [Hseq Hrows]]. split; [done|]. split; [done|].
  intros r' Hr'. destruct (Hrows r' Hr') as [?|(r & ? & ? & ?)]; [by left|right; eauto].
Qed.

(** ** Polling *)

Class Queue (R : Type) {ident : HasId R} := {
  q_processed : R → option Z;
  q_mark : Z → R → R;
  q_mark_id now r : row_id (q_mark now r) = row_id r;
  q_mark_processed now r : q_processed (q_mark now r) = Some now;
}.

Section polling.
Context {R : Type} {ident : HasId R} {queue : Queue R}.
Implicit Types (l : Log R) (r : R) (mine : R → bool).

(** The SELECT of a poll: pending rows in order, at most [limit] *)
Definition poll_select mine (c : R → R → comparison) (limit : Z) l : list R :=
  sql_limit limit (order_by (le_of c) (log_select (λ r, is_none (q_processed r) && mine r) l)).
(** The UPDATE of a poll: it names the ids and does not look again. *)
Definition poll_mark (now : Z) (ids : list Z) l : Log R := log_update (among ids) (q_mark now) l.

Lemma elem_of_sql_limit {A} n (l : list A) x : x ∈ sql_limit n l → x ∈ l.
Proof. unfold sql_limit. destruct (n <? 0); [done|]. apply subseteq_take. Qed.
Lemma elem_of_poll mine c n l r :
  r ∈ poll_select mine c n l → r ∈ log_rows l ∧ q_processed r = None ∧ mine r = true.
Proof.
  intros Hr%elem_of_sql_limit%elem_of_order_by%elem_of_log_select. destruct Hr as [Hr Hp].
  bool_to_prop. split_and!; [done| |done]. by destruct (q_processed r).
Qed.

(** Once marked, a row is never polled again, whatever keeps processed rows
    processed in between. *)
Lemma marked_is_not_polled (E : relation R) now ids l l' mine c n r :
  (∀ r r', E r r' → is_Some (q_processed r) → is_Some (q_processed r')) →
  log_wf l → log_evolves E (poll_mark now ids l) l' →
  r ∈ poll_select mine c n l' → row_id r ∈ ids → row_id r ∈ row_id <$> log_rows l → False.
Proof.
  intros HE Hwf Hl (Hr & Hnone & _)%elem_of_poll Hids (r0 & Hid & Hr0)%list_elem_of_fmap.
  assert (log_wf (poll_mark now ids l)) as Hwf' by (apply log_wf_update; [apply q_mark_id|done]).
  assert (is_Some (q_processed r)) as [t Ht]; [|congruence].
  apply (HE (q_mark now r0)); [|by rewrite q_mark_processed].
  apply (evolves_origin E (poll_mark now ids l) l'); [done..| |done|by rewrite q_mark_id].
  apply elem_of_log_update. exists r0. split; [done|].
  assert (among ids r0 = true) as -> by (apply among_true; congruence). done.
Qed.
End polling.
