(* ===== verification/Enums.v ===== *)
(** * Enumerations of [crates/cas-types] and their text form

    Every enumeration that a store column or a tool argument carries as text:
    the type with its variants, [Display] ([_to_string]) and [FromStr]
    ([_from_str]) with its aliases and its error.  [Default] is [_default].
    The class [TextEnum] at the end states what the stores rely on: a column
    written with [Display] reads back as the value that was written. *)

From S2P Require Import Prelude.

(** A [match] over string literals: the first literal that equals the key. *)
Fixpoint lookup_text {A} (key : string) (table : list (string * A)) : option A :=
  match table with
  | [] => None
  | (k, a) :: rest => if String.eqb key k then Some a else lookup_text key rest
  end.

(** ** [AgentStatus] ([crates/cas-types/src/agent.rs]) *)
Inductive AgentStatus :=
  | AgentStatus_Active | AgentStatus_Idle | AgentStatus_Stale | AgentStatus_Shutdown.
#[export] Instance AgentStatus_eq_dec : EqDecision AgentStatus.
Proof. solve_decision. Defined.
Definition AgentStatus_default : AgentStatus := AgentStatus_Active.
Definition AgentStatus_to_string (x : AgentStatus) : string :=
  match x with
  | AgentStatus_Active => "active"
  | AgentStatus_Idle => "idle"
  | AgentStatus_Stale => "stale"
  | AgentStatus_Shutdown => "shutdown"
  end.
Definition AgentStatus_from_str (s : string) : Result TypeError AgentStatus :=
  let key := to_lowercase s in
  match lookup_text key
    [("active", AgentStatus_Active);
     ("idle", AgentStatus_Idle);
     ("stale", AgentStatus_Stale);
     ("dead", AgentStatus_Stale);
     ("shutdown", AgentStatus_Shutdown)] with
  | Some x => Ok x
  | None => Err (ParseError ("invalid agent status: " +:+ s))
  end.

(** ** [AgentType] ([crates/cas-types/src/agent.rs]) *)
Inductive AgentType :=
  | AgentType_Primary | AgentType_SubAgent | AgentType_Worker | AgentType_CI.
#[export] Instance AgentType_eq_dec : EqDecision AgentType.
Proof. solve_decision. Defined.
Definition AgentType_default : AgentType := AgentType_Primary.
Definition AgentType_to_string (x : AgentType) : string :=
  match x with
  | AgentType_Primary => "primary"
  | AgentType_SubAgent => "sub_agent"
  | AgentType_Worker => "worker"
  | AgentType_CI => "ci"
  end.
Definition AgentType_from_str (s : string) : Result TypeError AgentType :=
  let key := to_lowercase s in
  match lookup_text key
    [("primary", AgentType_Primary);
     ("sub_agent", AgentType_SubAgent);
     ("subagent", AgentType_SubAgent);
     ("worker", AgentType_Worker);
     ("ci", AgentType_CI)] with
  | Some x => Ok x
  | None => Err (ParseError ("invalid agent type: " +:+ s))
  end.

(** ** [AgentRole] ([crates/cas-types/src/agent.rs]) *)
Inductive AgentRole :=
  | AgentRole_Standard | AgentRole_Director | AgentRole_Supervisor | AgentRole_Worker.
#[export] Instance AgentRole_eq_dec : EqDecision AgentRole.
Proof. solve_decision. Defined.
Definition AgentRole_default : AgentRole := AgentRole_Standard.
Definition AgentRole_to_string (x : AgentRole) : string :=
  match x with
  | AgentRole_Standard => "standard"
  | AgentRole_Director => "director"
  | AgentRole_Supervisor => "supervisor"
  | AgentRole_Worker => "worker"
  end.
Definition AgentRole_from_str (s : string) : Result TypeError AgentRole :=
  let key := to_lowercase s in
  match lookup_text key
    [("standard", AgentRole_Standard);
     (EmptyString, AgentRole_Standard);
     ("director", AgentRole_Director);
     ("supervisor", AgentRole_Supervisor);
     ("worker", AgentRole_Worker)] with
  | Some x => Ok x
  | None => Err (ParseError ("invalid agent role: " +:+ s))
  end.

(** ** [AgentCapability] ([crates/cas-types/src/agent.rs]) *)
Inductive AgentCapability :=
  | AgentCapability_Coding | AgentCapability_Review | AgentCapability_Testing
  | AgentCapability_Documentation | AgentCapability_DevOps | AgentCapability_BugFix
  | AgentCapability_Research | AgentCapability_Refactor.
#[export] Instance AgentCapability_eq_dec : EqDecision AgentCapability.
Proof. solve_decision. Defined.
Definition AgentCapability_to_string (x : AgentCapability) : string :=
  match x with
  | AgentCapability_Coding => "coding"
  | AgentCapability_Review => "review"
  | AgentCapability_Testing => "testing"
  | AgentCapability_Documentation => "documentation"
  | AgentCapability_DevOps => "devops"
  | AgentCapability_BugFix => "bugfix"
  | AgentCapability_Research => "research"
  | AgentCapability_Refactor => "refactor"
  end.
Definition AgentCapability_from_str (s : string) : Result TypeError AgentCapability :=
  let key := to_lowercase s in
  match lookup_text key
    [("coding", AgentCapability_Coding);
     ("code", AgentCapability_Coding);
     ("review", AgentCapability_Review);
     ("testing", AgentCapability_Testing);
     ("test", AgentCapability_Testing);
     ("documentation", AgentCapability_Documentation);
     ("docs", AgentCapability_Documentation);
     ("devops", AgentCapability_DevOps);
     ("ops", AgentCapability_DevOps);
     ("infra", AgentCapability_DevOps);
     ("bugfix", AgentCapability_BugFix);
     ("bug", AgentCapability_BugFix);
     ("fix", AgentCapability_BugFix);
     ("research", AgentCapability_Research);
     ("explore", AgentCapability_Research);
     ("refactor", AgentCapability_Refactor);
     ("refactoring", AgentCapability_Refactor)] with
  | Some x => Ok x
  | None => Err (ParseError ("invalid capability: " +:+ s))
  end.

(** ** [LeaseStatus] ([crates/cas-types/src/lease.rs]) *)
Inductive LeaseStatus :=
  | LeaseStatus_Active | LeaseStatus_Expired | LeaseStatus_Released
  | LeaseStatus_Revoked.
#[export] Instance LeaseStatus_eq_dec : EqDecision LeaseStatus.
Proof. solve_decision. Defined.
Definition LeaseStatus_default : LeaseStatus := LeaseStatus_Active.
Definition LeaseStatus_to_string (x : LeaseStatus) : string :=
  match x with
  | LeaseStatus_Active => "active"
  | LeaseStatus_Expired => "expired"
  | LeaseStatus_Released => "released"
  | LeaseStatus_Revoked => "revoked"
  end.
Definition LeaseStatus_from_str (s : string) : Result TypeError LeaseStatus :=
  let key := to_lowercase s in
  match lookup_text key
    [("active", LeaseStatus_Active);
     ("expired", LeaseStatus_Expired);
     ("released", LeaseStatus_Released);
     ("revoked", LeaseStatus_Revoked)] with
  | Some x => Ok x
  | None => Err (ParseError ("invalid lease status: " +:+ s))
  end.

(** ** [WorktreeStatus] ([crates/cas-types/src/worktree.rs]) *)
Inductive WorktreeStatus :=
  | WorktreeStatus_Active | WorktreeStatus_Merged | WorktreeStatus_Abandoned
  | WorktreeStatus_Removed | WorktreeStatus_Conflict.
#[export] Instance WorktreeStatus_eq_dec : EqDecision WorktreeStatus.
Proof. solve_decision. Defined.
Definition WorktreeStatus_default : WorktreeStatus := WorktreeStatus_Active.
Definition WorktreeStatus_to_string (x : WorktreeStatus) : string :=
  match x with
  | WorktreeStatus_Active => "active"
  | WorktreeStatus_Merged => "merged"
  | WorktreeStatus_Abandoned => "abandoned"
  | WorktreeStatus_Removed => "removed"
  | WorktreeStatus_Conflict => "conflict"
  end.
Definition WorktreeStatus_from_str (s : string) : Result string WorktreeStatus :=
  let key := to_lowercase s in
  match lookup_text key
    [("active", WorktreeStatus_Active);
     ("merged", WorktreeStatus_Merged);
     ("abandoned", WorktreeStatus_Abandoned);
     ("removed", WorktreeStatus_Removed);
     ("conflict", WorktreeStatus_Conflict)] with
  | Some x => Ok x
  | None => Err ("Unknown worktree status: " +:+ s)
  end.

(** ** [DependencyType] ([crates/cas-types/src/dependency.rs]) *)
Inductive DependencyType :=
  | DependencyType_Blocks | DependencyType_RequiresStart | DependencyType_Related
  | DependencyType_ParentChild | DependencyType_DiscoveredFrom
  | DependencyType_ExtractedFrom.
#[export] Instance DependencyType_eq_dec : EqDecision DependencyType.
Proof. solve_decision. Defined.
Definition DependencyType_default : DependencyType := DependencyType_Blocks.
Definition DependencyType_to_string (x : DependencyType) : string :=
  match x with
  | DependencyType_Blocks => "blocks"
  | DependencyType_RequiresStart => "requires-start"
  | DependencyType_Related => "related"
  | DependencyType_ParentChild => "parent-child"
  | DependencyType_DiscoveredFrom => "discovered-from"
  | DependencyType_ExtractedFrom => "extracted-from"
  end.
Definition DependencyType_from_str (s : string) : Result TypeError DependencyType :=
  let key := replace_char "_" "-" (to_lowercase s) in
  match lookup_text key
    [("blocks", DependencyType_Blocks);
     ("requires-start", DependencyType_RequiresStart);
     ("requiresstart", DependencyType_RequiresStart);
     ("related", DependencyType_Related);
     ("parent-child", DependencyType_ParentChild);
     ("parentchild", DependencyType_ParentChild);
     ("discovered-from", DependencyType_DiscoveredFrom);
     ("discoveredfrom", DependencyType_DiscoveredFrom);
     ("extracted-from", DependencyType_ExtractedFrom);
     ("extractedfrom", DependencyType_ExtractedFrom)] with
  | Some x => Ok x
  | None => Err (ParseError ("invalid dependency type: " +:+ s))
  end.

(** ** [TaskStatus] ([crates/cas-types/src/task.rs]) *)
Inductive TaskStatus :=
  | TaskStatus_Open | TaskStatus_InProgress | TaskStatus_Blocked | TaskStatus_Closed
  | TaskStatus_Cancelled | TaskStatus_AwaitingMerge.
#[export] Instance TaskStatus_eq_dec : EqDecision TaskStatus.
Proof. solve_decision. Defined.
Definition TaskStatus_default : TaskStatus := TaskStatus_Open.
Definition TaskStatus_to_string (x : TaskStatus) : string :=
  match x with
  | TaskStatus_Open => "open"
  | TaskStatus_InProgress => "in_progress"
  | TaskStatus_Blocked => "blocked"
  | TaskStatus_Closed => "closed"
  | TaskStatus_Cancelled => "cancelled"
  | TaskStatus_AwaitingMerge => "awaiting_merge"
  end.
Definition TaskStatus_from_str (s : string) : Result TypeError TaskStatus :=
  if eq_ignore_ascii_case s "open"
  then Ok TaskStatus_Open
  else if eq_ignore_ascii_case s "in_progress"
     || eq_ignore_ascii_case s "in-progress"
     || eq_ignore_ascii_case s "inprogress"
  then Ok TaskStatus_InProgress
  else if eq_ignore_ascii_case s "blocked"
  then Ok TaskStatus_Blocked
  else if eq_ignore_ascii_case s "closed"
  then Ok TaskStatus_Closed
  else if eq_ignore_ascii_case s "cancelled"
     || eq_ignore_ascii_case s "canceled"
  then Ok TaskStatus_Cancelled
  else if eq_ignore_ascii_case s "pending_supervisor_review"
     || eq_ignore_ascii_case s "pending-supervisor-review"
  then Ok TaskStatus_AwaitingMerge
  else if eq_ignore_ascii_case s "awaiting_merge"
     || eq_ignore_ascii_case s "awaiting-merge"
  then Ok TaskStatus_AwaitingMerge
  else Err (InvalidTaskStatus s).

(** ** [TaskType] ([crates/cas-types/src/task.rs]) *)
Inductive TaskType :=
  | TaskType_Task | TaskType_Bug | TaskType_Feature | TaskType_Epic | TaskType_Chore
  | TaskType_Spike | TaskType_Gate.
#[export] Instance TaskType_eq_dec : EqDecision TaskType.
Proof. solve_decision. Defined.
Definition TaskType_default : TaskType := TaskType_Task.
Definition TaskType_to_string (x : TaskType) : string :=
  match x with
  | TaskType_Task => "task"
  | TaskType_Bug => "bug"
  | TaskType_Feature => "feature"
  | TaskType_Epic => "epic"
  | TaskType_Chore => "chore"
  | TaskType_Spike => "spike"
  | TaskType_Gate => "gate"
  end.
Definition TaskType_from_str (s : string) : Result TypeError TaskType :=
  if eq_ignore_ascii_case s "task"
  then Ok TaskType_Task
  else if eq_ignore_ascii_case s "bug"
  then Ok TaskType_Bug
  else if eq_ignore_ascii_case s "feature"
  then Ok TaskType_Feature
  else if eq_ignore_ascii_case s "epic"
  then Ok TaskType_Epic
  else if eq_ignore_ascii_case s "chore"
  then Ok TaskType_Chore
  else if eq_ignore_ascii_case s "spike"
  then Ok TaskType_Spike
  else if eq_ignore_ascii_case s "gate"
  then Ok TaskType_Gate
  else Err (ParseError ("invalid task type: " +:+ s)).

(** ** [TaskDoor] ([crates/cas-types/src/task.rs]) *)
Inductive TaskDoor :=
  | TaskDoor_OneWay | TaskDoor_TwoWay.
#[export] Instance TaskDoor_eq_dec : EqDecision TaskDoor.
Proof. solve_decision. Defined.
Definition TaskDoor_to_string (x : TaskDoor) : string :=
  match x with
  | TaskDoor_OneWay => "one-way"
  | TaskDoor_TwoWay => "two-way"
  end.
Definition TaskDoor_from_str (value : string) : Result TypeError TaskDoor :=
  let other := trim value in
  match lookup_text other
    [("one-way", TaskDoor_OneWay);
     ("two-way", TaskDoor_TwoWay)] with
  | Some x => Ok x
  | None => Err (ParseError ("invalid task door: " +:+ other +:+ "; expected one-way or two-way"))
  end.

(** ** [TaskRisk] ([crates/cas-types/src/task.rs]) *)
Inductive TaskRisk :=
  | TaskRisk_BlastRadius | TaskRisk_Platform | TaskRisk_Concurrency | TaskRisk_None.
#[export] Instance TaskRisk_eq_dec : EqDecision TaskRisk.
Proof. solve_decision. Defined.
Definition TaskRisk_to_string (x : TaskRisk) : string :=
  match x with
  | TaskRisk_BlastRadius => "blast-radius"
  | TaskRisk_Platform => "platform"
  | TaskRisk_Concurrency => "concurrency"
  | TaskRisk_None => "none"
  end.
Definition TaskRisk_from_str (value : string) : Result TypeError TaskRisk :=
  let other := to_ascii_lowercase (trim value) in
  match lookup_text other
    [("blast-radius", TaskRisk_BlastRadius);
     ("blast_radius", TaskRisk_BlastRadius);
     ("platform", TaskRisk_Platform);
     ("concurrency", TaskRisk_Concurrency);
     ("none", TaskRisk_None)] with
  | Some x => Ok x
  | None => Err (ParseError ("invalid task risk: " +:+ other +:+ "; expected blast-radius, platform, concurrency, or none"))
  end.

(** ** [TaskDepth] ([crates/cas-types/src/task.rs]) *)
Inductive TaskDepth :=
  | TaskDepth_Deep | TaskDepth_Light.
#[export] Instance TaskDepth_eq_dec : EqDecision TaskDepth.
Proof. solve_decision. Defined.
Definition TaskDepth_default : TaskDepth := TaskDepth_Deep.
Definition TaskDepth_to_string (x : TaskDepth) : string :=
  match x with
  | TaskDepth_Deep => "deep"
  | TaskDepth_Light => "light"
  end.
Definition TaskDepth_from_str (s : string) : Result TypeError TaskDepth :=
  if eq_ignore_ascii_case s "deep"
  then Ok TaskDepth_Deep
  else if eq_ignore_ascii_case s "light"
  then Ok TaskDepth_Light
  else Err (ParseError ("invalid task depth: " +:+ s)).

(** ** [DeliveryMode] ([crates/cas-types/src/task.rs]) *)
Inductive DeliveryMode :=
  | DeliveryMode_PushBranch | DeliveryMode_LocalMerge.
#[export] Instance DeliveryMode_eq_dec : EqDecision DeliveryMode.
Proof. solve_decision. Defined.
Definition DeliveryMode_default : DeliveryMode := DeliveryMode_PushBranch.
Definition DeliveryMode_to_string (x : DeliveryMode) : string :=
  match x with
  | DeliveryMode_PushBranch => "push_branch"
  | DeliveryMode_LocalMerge => "local_merge"
  end.
Definition DeliveryMode_from_str (s : string) : Result TypeError DeliveryMode :=
  if eq_ignore_ascii_case s "push_branch"
     || eq_ignore_ascii_case s "push-branch"
  then Ok DeliveryMode_PushBranch
  else if eq_ignore_ascii_case s "local_merge"
     || eq_ignore_ascii_case s "local-merge"
  then Ok DeliveryMode_LocalMerge
  else Err (ParseError ("invalid delivery mode: " +:+ s)).

(** ** [RuleCategory] ([crates/cas-types/src/rule.rs]) *)
Inductive RuleCategory :=
  | RuleCategory_General | RuleCategory_Convention | RuleCategory_Security
  | RuleCategory_Performance | RuleCategory_Architecture | RuleCategory_ErrorHandling.
#[export] Instance RuleCategory_eq_dec : EqDecision RuleCategory.
Proof. solve_decision. Defined.
Definition RuleCategory_default : RuleCategory := RuleCategory_General.
Definition RuleCategory_to_string (x : RuleCategory) : string :=
  match x with
  | RuleCategory_General => "general"
  | RuleCategory_Convention => "convention"
  | RuleCategory_Security => "security"
  | RuleCategory_Performance => "performance"
  | RuleCategory_Architecture => "architecture"
  | RuleCategory_ErrorHandling => "error-handling"
  end.
Definition RuleCategory_from_str (s : string) : Result TypeError RuleCategory :=
  let key := replace_char "-" "_" (to_lowercase s) in
  match lookup_text key
    [("general", RuleCategory_General);
     ("convention", RuleCategory_Convention);
     ("security", RuleCategory_Security);
     ("performance", RuleCategory_Performance);
     ("architecture", RuleCategory_Architecture);
     ("arch", RuleCategory_Architecture);
     ("error_handling", RuleCategory_ErrorHandling);
     ("errorhandling", RuleCategory_ErrorHandling);
     ("error", RuleCategory_ErrorHandling)] with
  | Some x => Ok x
  | None => Err (InvalidRuleCategory s)
  end.

(** ** [RuleStatus] ([crates/cas-types/src/rule.rs]) *)
Inductive RuleStatus :=
  | RuleStatus_Draft | RuleStatus_Proven | RuleStatus_Stale | RuleStatus_Retired.
#[export] Instance RuleStatus_eq_dec : EqDecision RuleStatus.
Proof. solve_decision. Defined.
Definition RuleStatus_default : RuleStatus := RuleStatus_Draft.
Definition RuleStatus_to_string (x : RuleStatus) : string :=
  match x with
  | RuleStatus_Draft => "draft"
  | RuleStatus_Proven => "proven"
  | RuleStatus_Stale => "stale"
  | RuleStatus_Retired => "retired"
  end.
Definition RuleStatus_from_str (s : string) : Result TypeError RuleStatus :=
  let key := to_lowercase s in
  match lookup_text key
    [("draft", RuleStatus_Draft);
     ("proven", RuleStatus_Proven);
     ("stale", RuleStatus_Stale);
     ("retired", RuleStatus_Retired)] with
  | Some x => Ok x
  | None => Err (InvalidRuleStatus s)
  end.

(** ** [Scope] ([crates/cas-types/src/scope.rs]) *)
Inductive Scope :=
  | Scope_Global | Scope_Project.
#[export] Instance Scope_eq_dec : EqDecision Scope.
Proof. solve_decision. Defined.
Definition Scope_default : Scope := Scope_Project.
Definition Scope_to_string (x : Scope) : string :=
  match x with
  | Scope_Global => "global"
  | Scope_Project => "project"
  end.
Definition Scope_from_str (s : string) : Result TypeError Scope :=
  let key := to_lowercase s in
  match lookup_text key
    [("global", Scope_Global);
     ("g", Scope_Global);
     ("user", Scope_Global);
     ("project", Scope_Project);
     ("p", Scope_Project);
     ("local", Scope_Project)] with
  | Some x => Ok x
  | None => Err (ParseError ("Invalid scope: " +:+ s))
  end.

(** ** [ScopeFilter] ([crates/cas-types/src/scope.rs]) *)
Inductive ScopeFilter :=
  | ScopeFilter_Global | ScopeFilter_Project | ScopeFilter_All.
#[export] Instance ScopeFilter_eq_dec : EqDecision ScopeFilter.
Proof. solve_decision. Defined.
Definition ScopeFilter_default : ScopeFilter := ScopeFilter_All.
Definition ScopeFilter_to_string (x : ScopeFilter) : string :=
  match x with
  | ScopeFilter_Global => "global"
  | ScopeFilter_Project => "project"
  | ScopeFilter_All => "all"
  end.
Definition ScopeFilter_from_str (s : string) : Result TypeError ScopeFilter :=
  let key := to_lowercase s in
  match lookup_text key
    [("global", ScopeFilter_Global);
     ("g", ScopeFilter_Global);
     ("project", ScopeFilter_Project);
     ("p", ScopeFilter_Project);
     ("local", ScopeFilter_Project);
     ("all", ScopeFilter_All);
     ("both", ScopeFilter_All);
     ("*", ScopeFilter_All)] with
  | Some x => Ok x
  | None => Err (ParseError ("Invalid scope filter: " +:+ s))
  end.

(** ** [ShareScope] ([crates/cas-types/src/scope.rs]) *)
Inductive ShareScope :=
  | ShareScope_Private | ShareScope_Team.
#[export] Instance ShareScope_eq_dec : EqDecision ShareScope.
Proof. solve_decision. Defined.
Definition ShareScope_to_string (x : ShareScope) : string :=
  match x with
  | ShareScope_Private => "private"
  | ShareScope_Team => "team"
  end.
Definition ShareScope_from_str (s : string) : Result TypeError ShareScope :=
  if eq_ignore_ascii_case s "private"
     || eq_ignore_ascii_case s "personal"
  then Ok ShareScope_Private
  else if eq_ignore_ascii_case s "team"
  then Ok ShareScope_Team
  else Err (ParseError ("Invalid share scope: " +:+ s)).

(** ** [EventType] ([crates/cas-types/src/event.rs]) *)
Inductive EventType :=
  | EventType_AgentRegistered | EventType_AgentHeartbeat | EventType_AgentShutdown
  | EventType_TaskCreated | EventType_TaskStarted | EventType_TaskCompleted
  | EventType_TaskBlocked | EventType_TaskNoteAdded | EventType_TaskDeleted
  | EventType_MemoryStored | EventType_RulePromoted | EventType_SkillUsed
  | EventType_FactoryStarted | EventType_FactoryStopped | EventType_WorkerDied
  | EventType_WorkerAssigned | EventType_WorkerCompleted | EventType_SupervisorNotified
  | EventType_SupervisorInjected | EventType_WorkerSubagentSpawned
  | EventType_WorkerSubagentCompleted | EventType_WorkerFileEdited
  | EventType_WorkerGitCommit | EventType_WorkerVerificationBlocked
  | EventType_WorkerPushBlocked | EventType_WorkerActivity
  | EventType_EpicSubtasksComplete | EventType_VerificationStarted
  | EventType_VerificationAdded | EventType_AuditTrailGap.
#[export] Instance EventType_eq_dec : EqDecision EventType.
Proof. solve_decision. Defined.
Definition EventType_to_string (x : EventType) : string :=
  match x with
  | EventType_AgentRegistered => "agent_registered"
  | EventType_AgentHeartbeat => "agent_heartbeat"
  | EventType_AgentShutdown => "agent_shutdown"
  | EventType_TaskCreated => "task_created"
  | EventType_TaskStarted => "task_started"
  | EventType_TaskCompleted => "task_completed"
  | EventType_TaskBlocked => "task_blocked"
  | EventType_TaskNoteAdded => "task_note_added"
  | EventType_TaskDeleted => "task_deleted"
  | EventType_MemoryStored => "memory_stored"
  | EventType_RulePromoted => "rule_promoted"
  | EventType_SkillUsed => "skill_used"
  | EventType_FactoryStarted => "factory_started"
  | EventType_FactoryStopped => "factory_stopped"
  | EventType_WorkerDied => "worker_died"
  | EventType_WorkerAssigned => "worker_assigned"
  | EventType_WorkerCompleted => "worker_completed"
  | EventType_SupervisorNotified => "supervisor_notified"
  | EventType_SupervisorInjected => "supervisor_injected"
  | EventType_WorkerSubagentSpawned => "worker_subagent_spawned"
  | EventType_WorkerSubagentCompleted => "worker_subagent_completed"
  | EventType_WorkerFileEdited => "worker_file_edited"
  | EventType_WorkerGitCommit => "worker_git_commit"
  | EventType_WorkerVerificationBlocked => "worker_verification_blocked"
  | EventType_WorkerPushBlocked => "worker_push_blocked"
  | EventType_WorkerActivity => "worker_activity"
  | EventType_EpicSubtasksComplete => "epic_subtasks_complete"
  | EventType_VerificationStarted => "verification_started"
  | EventType_VerificationAdded => "verification_added"
  | EventType_AuditTrailGap => "audit_trail_gap"
  end.
Definition EventType_from_str (s : string) : Result TypeError EventType :=
  let key := to_lowercase s in
  match lookup_text key
    [("agent_registered", EventType_AgentRegistered);
     ("agent_heartbeat", EventType_AgentHeartbeat);
     ("agent_shutdown", EventType_AgentShutdown);
     ("task_created", EventType_TaskCreated);
     ("task_started", EventType_TaskStarted);
     ("task_completed", EventType_TaskCompleted);
     ("task_blocked", EventType_TaskBlocked);
     ("task_note_added", EventType_TaskNoteAdded);
     ("task_deleted", EventType_TaskDeleted);
     ("memory_stored", EventType_MemoryStored);
     ("rule_promoted", EventType_RulePromoted);
     ("skill_used", EventType_SkillUsed);
     ("factory_started", EventType_FactoryStarted);
     ("factory_stopped", EventType_FactoryStopped);
     ("worker_died", EventType_WorkerDied);
     ("worker_assigned", EventType_WorkerAssigned);
     ("worker_completed", EventType_WorkerCompleted);
     ("supervisor_notified", EventType_SupervisorNotified);
     ("supervisor_injected", EventType_SupervisorInjected);
     ("worker_subagent_spawned", EventType_WorkerSubagentSpawned);
     ("worker_subagent_completed", EventType_WorkerSubagentCompleted);
     ("worker_file_edited", EventType_WorkerFileEdited);
     ("worker_git_commit", EventType_WorkerGitCommit);
     ("worker_verification_blocked", EventType_WorkerVerificationBlocked);
     ("worker_push_blocked", EventType_WorkerPushBlocked);
     ("worker_activity", EventType_WorkerActivity);
     ("epic_subtasks_complete", EventType_EpicSubtasksComplete);
     ("verification_started", EventType_VerificationStarted);
     ("verification_added", EventType_VerificationAdded);
     ("audit_trail_gap", EventType_AuditTrailGap)] with
  | Some x => Ok x
  | None => Err (ParseError ("invalid event type: " +:+ s))
  end.

(** ** [EventEntityType] ([crates/cas-types/src/event.rs]) *)
Inductive EventEntityType :=
  | EventEntityType_Agent | EventEntityType_Task | EventEntityType_Entry
  | EventEntityType_Rule | EventEntityType_Skill | EventEntityType_Session
  | EventEntityType_Verification.
#[export] Instance EventEntityType_eq_dec : EqDecision EventEntityType.
Proof. solve_decision. Defined.
Definition EventEntityType_to_string (x : EventEntityType) : string :=
  match x with
  | EventEntityType_Agent => "agent"
  | EventEntityType_Task => "task"
  | EventEntityType_Entry => "entry"
  | EventEntityType_Rule => "rule"
  | EventEntityType_Skill => "skill"
  | EventEntityType_Session => "session"
  | EventEntityType_Verification => "verification"
  end.
Definition EventEntityType_from_str (s : string) : Result TypeError EventEntityType :=
  let key := to_lowercase s in
  match lookup_text key
    [("agent", EventEntityType_Agent);
     ("task", EventEntityType_Task);
     ("entry", EventEntityType_Entry);
     ("rule", EventEntityType_Rule);
     ("skill", EventEntityType_Skill);
     ("session", EventEntityType_Session);
     ("verification", EventEntityType_Verification)] with
  | Some x => Ok x
  | None => Err (ParseError ("invalid entity type: " +:+ s))
  end.

(** ** [Visibility] ([crates/cas-types/src/visibility.rs]) *)
Inductive Visibility :=
  | Visibility_Private | Visibility_Team | Visibility_Organization | Visibility_Public.
#[export] Instance Visibility_eq_dec : EqDecision Visibility.
Proof. solve_decision. Defined.
Definition Visibility_default : Visibility := Visibility_Private.
Definition Visibility_to_string (x : Visibility) : string :=
  match x with
  | Visibility_Private => "private"
  | Visibility_Team => "team"
  | Visibility_Organization => "organization"
  | Visibility_Public => "public"
  end.
Definition Visibility_from_str (s : string) : Result TypeError Visibility :=
  let key := to_lowercase s in
  match lookup_text key
    [("private", Visibility_Private);
     ("priv", Visibility_Private);
     ("team", Visibility_Team);
     ("organization", Visibility_Organization);
     ("org", Visibility_Organization);
     ("public", Visibility_Public);
     ("pub", Visibility_Public)] with
  | Some x => Ok x
  | None => Err (ParseError ("Invalid visibility: " +:+ s))
  end.

(** ** [WorkerDeliveryState] ([crates/cas-types/src/delivery.rs]) *)
Inductive WorkerDeliveryState :=
  | WorkerDeliveryState_AwaitingVerification
  | WorkerDeliveryState_AwaitingMerge
  | WorkerDeliveryState_MergeAuthorized
  | WorkerDeliveryState_Merged
  | WorkerDeliveryState_CloseReady
  | WorkerDeliveryState_Delivered
  | WorkerDeliveryState_VerificationFailed
  | WorkerDeliveryState_ChangesRequested
  | WorkerDeliveryState_Conflict
  | WorkerDeliveryState_Stale
  | WorkerDeliveryState_RepoMismatch
  | WorkerDeliveryState_TipChanged.
#[export] Instance WorkerDeliveryState_eq_dec : EqDecision WorkerDeliveryState.
Proof. solve_decision. Defined.
Definition WorkerDeliveryState_is_recoverable_failure (x : WorkerDeliveryState) : bool :=
  match x with
  | WorkerDeliveryState_VerificationFailed | WorkerDeliveryState_ChangesRequested | WorkerDeliveryState_Conflict
  | WorkerDeliveryState_Stale | WorkerDeliveryState_RepoMismatch | WorkerDeliveryState_TipChanged => true
  | _ => false
  end.
Definition WorkerDeliveryState_to_string (x : WorkerDeliveryState) : string :=
  match x with
  | WorkerDeliveryState_AwaitingVerification => "awaiting_verification"
  | WorkerDeliveryState_AwaitingMerge => "awaiting_merge"
  | WorkerDeliveryState_MergeAuthorized => "merge_authorized"
  | WorkerDeliveryState_Merged => "merged"
  | WorkerDeliveryState_CloseReady => "close_ready"
  | WorkerDeliveryState_Delivered => "delivered"
  | WorkerDeliveryState_VerificationFailed => "verification_failed"
  | WorkerDeliveryState_ChangesRequested => "changes_requested"
  | WorkerDeliveryState_Conflict => "conflict"
  | WorkerDeliveryState_Stale => "stale"
  | WorkerDeliveryState_RepoMismatch => "repo_mismatch"
  | WorkerDeliveryState_TipChanged => "tip_changed"
  end.
Definition WorkerDeliveryState_from_str (s : string) : Result TypeError WorkerDeliveryState :=
  match lookup_text s
    [("awaiting_verification", WorkerDeliveryState_AwaitingVerification);
     ("awaiting_merge", WorkerDeliveryState_AwaitingMerge);
     ("merge_authorized", WorkerDeliveryState_MergeAuthorized);
     ("merged", WorkerDeliveryState_Merged);
     ("close_ready", WorkerDeliveryState_CloseReady);
     ("delivered", WorkerDeliveryState_Delivered);
     ("verification_failed", WorkerDeliveryState_VerificationFailed);
     ("changes_requested", WorkerDeliveryState_ChangesRequested);
     ("conflict", WorkerDeliveryState_Conflict);
     ("stale", WorkerDeliveryState_Stale);
     ("repo_mismatch", WorkerDeliveryState_RepoMismatch);
     ("tip_changed", WorkerDeliveryState_TipChanged)] with
  | Some x => Ok x
  | None => Err (ParseError ("invalid worker delivery state `" +:+ s +:+ "`"))
  end.

(** ** [QaPassState], [QaVerdict] ([crates/cas-types/src/qa_pass.rs]) *)
Inductive QaPassState :=
  | QaPassState_Pending
  | QaPassState_Claimed
  | QaPassState_Passed
  | QaPassState_Failed
  | QaPassState_TimedOut
  | QaPassState_Superseded
  | QaPassState_Waived.
#[export] Instance QaPassState_eq_dec : EqDecision QaPassState.
Proof. solve_decision. Defined.
Definition QaPassState_is_active (x : QaPassState) : bool :=
  match x with QaPassState_Pending | QaPassState_Claimed => true | _ => false end.
Definition QaPassState_satisfies_gate (x : QaPassState) : bool :=
  match x with QaPassState_Passed | QaPassState_Waived => true | _ => false end.
Definition QaPassState_to_string (x : QaPassState) : string :=
  match x with
  | QaPassState_Pending => "pending"
  | QaPassState_Claimed => "claimed"
  | QaPassState_Passed => "passed"
  | QaPassState_Failed => "failed"
  | QaPassState_TimedOut => "timed_out"
  | QaPassState_Superseded => "superseded"
  | QaPassState_Waived => "waived"
  end.
Definition QaPassState_from_str (s : string) : Result TypeError QaPassState :=
  match lookup_text s
    [("pending", QaPassState_Pending);
     ("claimed", QaPassState_Claimed);
     ("passed", QaPassState_Passed);
     ("failed", QaPassState_Failed);
     ("timed_out", QaPassState_TimedOut);
     ("superseded", QaPassState_Superseded);
     ("waived", QaPassState_Waived)] with
  | Some x => Ok x
  | None => Err (ParseError ("invalid QA pass state: " +:+ s))
  end.

Inductive QaVerdict := QaVerdict_Approved | QaVerdict_Rejected.
#[export] Instance QaVerdict_eq_dec : EqDecision QaVerdict.
Proof. solve_decision. Defined.
Definition QaVerdict_from_str (s : string) : Result TypeError QaVerdict :=
  let other := to_ascii_lowercase (trim s) in
  match lookup_text other
    [("approved", QaVerdict_Approved); ("approve", QaVerdict_Approved);
     ("pass", QaVerdict_Approved); ("passed", QaVerdict_Approved);
     ("rejected", QaVerdict_Rejected); ("reject", QaVerdict_Rejected);
     ("fail", QaVerdict_Rejected); ("failed", QaVerdict_Rejected)] with
  | Some x => Ok x
  | None => Err (ParseError ("invalid QA verdict: " +:+ other +:+ " (expected approved or rejected)"))
  end.

(** ** The interface the stores use *)

(** A type with a text form that its parser reads back. *)
Class TextEnum (A : Type) (E : Type) := {
  te_to_string : A → string;
  te_from_str : string → Result E A;
  te_roundtrip : ∀ a, te_from_str (te_to_string a) = Ok a;
}.

#[export] Program Instance AgentStatus_text : TextEnum AgentStatus TypeError :=
  {| te_to_string := AgentStatus_to_string; te_from_str := AgentStatus_from_str |}.
Next Obligation. by intros []. Qed.
#[export] Program Instance AgentType_text : TextEnum AgentType TypeError :=
  {| te_to_string := AgentType_to_string; te_from_str := AgentType_from_str |}.
Next Obligation. by intros []. Qed.
#[export] Program Instance AgentRole_text : TextEnum AgentRole TypeError :=
  {| te_to_string := AgentRole_to_string; te_from_str := AgentRole_from_str |}.
Next Obligation. by intros []. Qed.
#[export] Program Instance AgentCapability_text : TextEnum AgentCapability TypeError :=
  {| te_to_string := AgentCapability_to_string; te_from_str := AgentCapability_from_str |}.
Next Obligation. by intros []. Qed.
#[export] Program Instance LeaseStatus_text : TextEnum LeaseStatus TypeError :=
  {| te_to_string := LeaseStatus_to_string; te_from_str := LeaseStatus_from_str |}.
Next Obligation. by intros []. Qed.
#[export] Program Instance WorktreeStatus_text : TextEnum WorktreeStatus string :=
  {| te_to_string := WorktreeStatus_to_string; te_from_str := WorktreeStatus_from_str |}.
Next Obligation. by intros []. Qed.
#[export] Program Instance DependencyType_text : TextEnum DependencyType TypeError :=
  {| te_to_string := DependencyType_to_string; te_from_str := DependencyType_from_str |}.
Next Obligation. by intros []. Qed.
#[export] Program Instance TaskStatus_text : TextEnum TaskStatus TypeError :=
  {| te_to_string := TaskStatus_to_string; te_from_str := TaskStatus_from_str |}.
Next Obligation. by intros []. Qed.
#[export] Program Instance TaskType_text : TextEnum TaskType TypeError :=
  {| te_to_string := TaskType_to_string; te_from_str := TaskType_from_str |}.
Next Obligation. by intros []. Qed.
#[export] Program Instance TaskDoor_text : TextEnum TaskDoor TypeError :=
  {| te_to_string := TaskDoor_to_string; te_from_str := TaskDoor_from_str |}.
Next Obligation. by intros []. Qed.
#[export] Program Instance TaskRisk_text : TextEnum TaskRisk TypeError :=
  {| te_to_string := TaskRisk_to_string; te_from_str := TaskRisk_from_str |}.
Next Obligation. by intros []. Qed.
#[export] Program Instance TaskDepth_text : TextEnum TaskDepth TypeError :=
  {| te_to_string := TaskDepth_to_string; te_from_str := TaskDepth_from_str |}.
Next Obligation. by intros []. Qed.
#[export] Program Instance DeliveryMode_text : TextEnum DeliveryMode TypeError :=
  {| te_to_string := DeliveryMode_to_string; te_from_str := DeliveryMode_from_str |}.
Next Obligation. by intros []. Qed.
#[export] Program Instance RuleCategory_text : TextEnum RuleCategory TypeError :=
  {| te_to_string := RuleCategory_to_string; te_from_str := RuleCategory_from_str |}.
Next Obligation. by intros []. Qed.
#[export] Program Instance RuleStatus_text : TextEnum RuleStatus TypeError :=
  {| te_to_string := RuleStatus_to_string; te_from_str := RuleStatus_from_str |}.
Next Obligation. by intros []. Qed.
#[export] Program Instance Scope_text : TextEnum Scope TypeError :=
  {| te_to_string := Scope_to_string; te_from_str := Scope_from_str |}.
Next Obligation. by intros []. Qed.
#[export] Program Instance ScopeFilter_text : TextEnum ScopeFilter TypeError :=
  {| te_to_string := ScopeFilter_to_string; te_from_str := ScopeFilter_from_str |}.
Next Obligation. by intros []. Qed.
#[export] Program Instance ShareScope_text : TextEnum ShareScope TypeError :=
  {| te_to_string := ShareScope_to_string; te_from_str := ShareScope_from_str |}.
Next Obligation. by intros []. Qed.
#[export] Program Instance EventType_text : TextEnum EventType TypeError :=
  {| te_to_string := EventType_to_string; te_from_str := EventType_from_str |}.
Next Obligation. by intros []. Qed.
#[export] Program Instance EventEntityType_text : TextEnum EventEntityType TypeError :=
  {| te_to_string := EventEntityType_to_string; te_from_str := EventEntityType_from_str |}.
Next Obligation. by intros []. Qed.
#[export] Program Instance Visibility_text : TextEnum Visibility TypeError :=
  {| te_to_string := Visibility_to_string; te_from_str := Visibility_from_str |}.
Next Obligation. by intros []. Qed.
#[export] Program Instance WorkerDeliveryState_text : TextEnum WorkerDeliveryState TypeError :=
  {| te_to_string := WorkerDeliveryState_to_string; te_from_str := WorkerDeliveryState_from_str |}.
Next Obligation. by intros []. Qed.
#[export] Program Instance QaPassState_text : TextEnum QaPassState TypeError :=
  {| te_to_string := QaPassState_to_string; te_from_str := QaPassState_from_str |}.
Next Obligation. by intros []. Qed.
