(* ===== verification/TaskTypes.v ===== *)
(** * Tasks and their delivery evidence ([crates/cas-types/src/task.rs])

    The task record, the durable delivery evidence it carries
    ([TaskDeliverables]) and the operations on that evidence: recording a park,
    retiring an anchor into history, declining it.  Field names are the Rust
    names behind a prefix ([td_] for [TaskDeliverables], [t_] for [Task]). *)

From S2P Require Import Prelude Enums.

(** ** Terminal outcomes *)
Inductive TaskTerminalOutcome :=
  | TaskTerminalOutcome_Delivered | TaskTerminalOutcome_NegativeResult
  | TaskTerminalOutcome_EvidenceOnly | TaskTerminalOutcome_Decision
  | TaskTerminalOutcome_Cancelled (superseded_by : option string).
#[export] Instance TaskTerminalOutcome_eq_dec : EqDecision TaskTerminalOutcome.
Proof. solve_decision. Defined.

(** ** Priority: 0 is the highest, 4 the lowest *)
Definition Priority_from_i32 (v : Z) : Z := Z.max 0 (Z.min 4 v).
Definition Priority_MEDIUM : Z := 2.
Definition Priority_label (p : Z) : string :=
  if p =? 0 then "P0 (critical)" else if p =? 1 then "P1 (high)"
  else if p =? 2 then "P2 (medium)" else if p =? 3 then "P3 (low)"
  else "P4 (backlog)".

(** ** Evidence records *)
Record WorkTarget := mkWorkTarget {
  wt_repo_selector : string;
  wt_target_branch : string;
}.
#[export] Instance WorkTarget_eq_dec : EqDecision WorkTarget.
Proof. solve_decision. Defined.

Record PreCloseHookEvidence := mkPreCloseHookEvidence {
  pch_repo_selector : string;
  pch_target_branch : string;
  pch_worktree_branch : option string;
  pch_task_tip : option string;
}.
#[export] Instance PreCloseHookEvidence_eq_dec : EqDecision PreCloseHookEvidence.
Proof. solve_decision. Defined.

Record NegativeResultEvidence := mkNegativeResultEvidence {
  nr_artifact_path : string;
  nr_reference : string;
  nr_rationale : string;
  nr_supervisor_id : string;
  nr_supervisor_name : string;
}.
#[export] Instance NegativeResultEvidence_eq_dec : EqDecision NegativeResultEvidence.
Proof. solve_decision. Defined.

Record EvidenceOnlyEvidence := mkEvidenceOnlyEvidence {
  eo_artifact_path : string;
  eo_reference : string;
  eo_rationale : string;
  eo_supervisor_id : string;
  eo_supervisor_name : string;
  eo_commit_sha : string;
  eo_base_sha : string;
  eo_paths : list string;
}.
#[export] Instance EvidenceOnlyEvidence_eq_dec : EqDecision EvidenceOnlyEvidence.
Proof. solve_decision. Defined.

Record IntegrationBatchEvidence := mkIntegrationBatchEvidence {
  ib_branch : string;
  ib_tip : string;
  ib_base : string;
  ib_delivered_head : string;
  ib_supervisor_id : string;
  ib_recorded_at : Z;
}.
#[export] Instance IntegrationBatchEvidence_eq_dec : EqDecision IntegrationBatchEvidence.
Proof. solve_decision. Defined.

Record SplitTakeoverAuthorization := mkSplitTakeoverAuthorization {
  st_split_id : string;
  st_worker_id : string;
  st_supervisor_id : string;
  st_reason : string;
}.
#[export] Instance SplitTakeoverAuthorization_eq_dec : EqDecision SplitTakeoverAuthorization.
Proof. solve_decision. Defined.

Record FactoryBranchStart := mkFactoryBranchStart {
  fbs_work_target : WorkTarget;
  fbs_assignee : string;
  fbs_branch : string;
  fbs_base_sha : string;
}.
#[export] Instance FactoryBranchStart_eq_dec : EqDecision FactoryBranchStart.
Proof. solve_decision. Defined.

Record AuthorizedMergeSource := mkAuthorizedMergeSource {
  ams_commit : string;
  ams_supervisor_id : string;
  ams_work_target : WorkTarget;
}.
#[export] Instance AuthorizedMergeSource_eq_dec : EqDecision AuthorizedMergeSource.
Proof. solve_decision. Defined.

Record EpicBranchOrigin := mkEpicBranchOrigin {
  ebo_branch : string;
  ebo_host : string;
  ebo_device_id : option string;
}.
#[export] Instance EpicBranchOrigin_eq_dec : EqDecision EpicBranchOrigin.
Proof. solve_decision. Defined.

Record SourceClaimOverride := mkSourceClaimOverride {
  sco_source_key : string;
  sco_supervisor_id : string;
  sco_reason : string;
}.
#[export] Instance SourceClaimOverride_eq_dec : EqDecision SourceClaimOverride.
Proof. solve_decision. Defined.

Record NoDeliveryCloseIntent := mkNoDeliveryCloseIntent {
  ndc_dispatch_id : string;
  ndc_reason : string;
  ndc_assignee : option string;
}.
#[export] Instance NoDeliveryCloseIntent_eq_dec : EqDecision NoDeliveryCloseIntent.
Proof. solve_decision. Defined.

Inductive MergeCiAdmission :=
  | MergeCiAdmission_Green | MergeCiAdmission_Advisory | MergeCiAdmission_Override.
#[export] Instance MergeCiAdmission_eq_dec : EqDecision MergeCiAdmission.
Proof. solve_decision. Defined.
Definition MergeCiAdmission_default : MergeCiAdmission := MergeCiAdmission_Green.
Definition MergeCiAdmission_as_str (m : MergeCiAdmission) : string :=
  match m with
  | MergeCiAdmission_Green => "green"
  | MergeCiAdmission_Advisory => "advisory"
  | MergeCiAdmission_Override => "override"
  end.
Definition MergeCiAdmission_label (m : MergeCiAdmission) : string :=
  match m with
  | MergeCiAdmission_Green => "green"
  | MergeCiAdmission_Advisory => "advisory (unconfirmed)"
  | MergeCiAdmission_Override => "override"
  end.

(** Deliverables and durable lifecycle evidence of a task. *)
Record TaskDeliverables := mkTaskDeliverables {
  td_model_eval : option json;
  td_phase_outcome : option json;
  td_epic_branch_origin : option EpicBranchOrigin;
  td_split_takeover : option SplitTakeoverAuthorization;
  td_source_claim_override : option SourceClaimOverride;
  td_integration_batch : option IntegrationBatchEvidence;
  td_work_target : option WorkTarget;
  td_work_target_pinned : bool;
  td_work_target_cleared : bool;
  td_pre_close_hook : option PreCloseHookEvidence;
  td_negative_result : option NegativeResultEvidence;
  td_evidence_only : option EvidenceOnlyEvidence;
  td_files_changed : list string;
  td_commit_hash : option string;
  td_merge_commit : option string;
  td_delivery_pr_number : option Z;
  td_delivery_pr_merge_commit : option string;
  td_delivery_pr_merged_at : option Z;
  td_review_envelope : option string;
  td_factory_branch_anchor : option string;
  td_factory_branch_start : option FactoryBranchStart;
  td_authorized_merge_sources : list AuthorizedMergeSource;
  td_historical_factory_branch_anchors : list string;
  td_declined_factory_branch_anchors : option (list string);
  td_parked_branch : option string;
  td_handoff_branches : list string;
  td_merge_conflicted : bool;
  td_parked_close_reason : option string;
  td_no_delivery_close_intent : option NoDeliveryCloseIntent;
  td_green_merge_commit : option string;
  td_merge_ci_admission : option MergeCiAdmission;
}.
#[export] Instance TaskDeliverables_eta : Eta TaskDeliverables := λ r,
  mkTaskDeliverables
    (td_model_eval r) (td_phase_outcome r) (td_epic_branch_origin r) (td_split_takeover r)
    (td_source_claim_override r) (td_integration_batch r) (td_work_target r)
    (td_work_target_pinned r) (td_work_target_cleared r) (td_pre_close_hook r)
    (td_negative_result r) (td_evidence_only r) (td_files_changed r) (td_commit_hash r)
    (td_merge_commit r) (td_delivery_pr_number r) (td_delivery_pr_merge_commit r)
    (td_delivery_pr_merged_at r) (td_review_envelope r) (td_factory_branch_anchor r)
    (td_factory_branch_start r) (td_authorized_merge_sources r)
    (td_historical_factory_branch_anchors r) (td_declined_factory_branch_anchors r)
    (td_parked_branch r) (td_handoff_branches r) (td_merge_conflicted r) (td_parked_close_reason
    r) (td_no_delivery_close_intent r) (td_green_merge_commit r) (td_merge_ci_admission r).
#[export] Instance TaskDeliverables_eq_dec : EqDecision TaskDeliverables.
Proof. solve_decision. Defined.
Definition TaskDeliverables_default : TaskDeliverables :=
  mkTaskDeliverables None None None None None None None false false None None None [] None
    None None None None None None None [] [] None None [] false None None None None.

(** A task (work item). *)
Record Task := mkTask {
  t_id : string;
  t_scope : Scope;
  t_origin_project : option string;
  t_title : string;
  t_description : string;
  t_design : string;
  t_acceptance_criteria : string;
  t_notes : string;
  t_status : TaskStatus;
  t_priority : Z;
  t_task_type : TaskType;
  t_risk : list TaskRisk;
  t_door : option TaskDoor;
  t_proof_targets : list string;
  t_assignee : option string;
  t_labels : list string;
  t_created_at : Z;
  t_updated_at : Z;
  t_closed_at : option Z;
  t_close_reason : option string;
  t_terminal_outcome : option TaskTerminalOutcome;
  t_external_ref : option string;
  t_content_hash : option string;
  t_branch : option string;
  t_worktree_id : option string;
  t_pending_verification : bool;
  t_pending_worktree_merge : bool;
  t_epic_verification_owner : option string;
  t_deliverables : TaskDeliverables;
  t_team_id : option string;
  t_share : option ShareScope;
  t_demo_statement : string;
  t_execution_note : option string;
  t_depth : TaskDepth;
  t_delivery_mode : DeliveryMode;
}.
#[export] Instance Task_eta : Eta Task := λ r,
  mkTask
    (t_id r) (t_scope r) (t_origin_project r) (t_title r) (t_description r) (t_design r)
    (t_acceptance_criteria r) (t_notes r) (t_status r) (t_priority r) (t_task_type r) (t_risk r)
    (t_door r) (t_proof_targets r) (t_assignee r) (t_labels r) (t_created_at r) (t_updated_at r)
    (t_closed_at r) (t_close_reason r) (t_terminal_outcome r) (t_external_ref r) (t_content_hash
    r) (t_branch r) (t_worktree_id r) (t_pending_verification r) (t_pending_worktree_merge r)
    (t_epic_verification_owner r) (t_deliverables r) (t_team_id r) (t_share r) (t_demo_statement
    r) (t_execution_note r) (t_depth r) (t_delivery_mode r).
#[export] Instance Task_eq_dec : EqDecision Task.
Proof. solve_decision. Defined.

(** ** Statuses and risks *)

(** [TaskStatus::is_parked_awaiting_supervisor] *)
Definition is_parked_awaiting_supervisor (s : TaskStatus) : bool :=
  match s with TaskStatus_AwaitingMerge | TaskStatus_Blocked => true | _ => false end.

(** [TaskRisk::parse_csv]: the loop over the pieces of the text, with the
    risks read so far, then the checks on the whole list.  The error of one
    piece is the parser's. *)
Fixpoint parse_csv_pieces (pieces : list string) (risks : list TaskRisk)
    : Result TypeError (list TaskRisk) :=
  match pieces with
  | [] => Ok risks
  | raw :: rest =>
      let raw := trim raw in
      if str_is_empty raw then parse_csv_pieces rest risks
      else
        risk ← TaskRisk_from_str raw;
        if bool_decide (risk ∈ risks)
        then Err (ParseError ("duplicate task risk `" +:+ TaskRisk_to_string risk +:+ "`"))
        else parse_csv_pieces rest (risks ++ [risk])
  end.

Definition TaskRisk_parse_csv (value : string) : Result TypeError (list TaskRisk) :=
  risks ← parse_csv_pieces (split_char "," value) [];
  if bool_decide (risks = [])
  then Err (ParseError "task risk must name at least one value")
  else if (1 <? length risks)%nat && bool_decide (TaskRisk_None ∈ risks)
  then Err (ParseError "task risk `none` cannot be combined with another risk")
  else Ok risks.

(** ** Operations on [TaskDeliverables] *)

(** [iter().any(|known| known.eq_ignore_ascii_case(a))] *)
Definition any_ignore_case (a : string) (l : list string) : bool :=
  existsb (λ known, eq_ignore_ascii_case known a) l.

Definition record_handoff_branch (branch : string) (d : TaskDeliverables) : TaskDeliverables :=
  let branch := trim branch in
  if negb (str_is_empty branch)
     && negb (existsb (λ known, String.eqb known branch) (td_handoff_branches d))
  then d <| td_handoff_branches ::= λ l, l ++ [branch] |>
  else d.

Definition retain_factory_branch_anchor_as_history (d : TaskDeliverables) : TaskDeliverables :=
  let d := d <| td_integration_batch := None |> in
  match td_factory_branch_anchor d with
  | None => d
  | Some anchor =>
      let d := d <| td_factory_branch_anchor := None |> in
      let anchor := trim anchor in
      let d :=
        if negb (str_is_empty anchor)
        then d <| td_declined_factory_branch_anchors ::= λ o,
                    Some (default (td_historical_factory_branch_anchors d) o) |>
        else d in
      if negb (str_is_empty anchor)
         && negb (any_ignore_case anchor (td_historical_factory_branch_anchors d))
      then d <| td_historical_factory_branch_anchors ::= λ l, l ++ [anchor] |>
      else d
  end.

Definition decline_factory_branch_anchor (d : TaskDeliverables) : TaskDeliverables :=
  let anchor := td_factory_branch_anchor d in
  let d := retain_factory_branch_anchor_as_history d in
  match trimmed_nonempty anchor with
  | None => d
  | Some anchor =>
      let declined := default [] (td_declined_factory_branch_anchors d) in
      d <| td_declined_factory_branch_anchors :=
             Some (if any_ignore_case anchor declined then declined
                   else declined ++ [anchor]) |>
  end.

Definition record_park (measured_branch measured_tip assignee : option string)
    (d : TaskDeliverables) : TaskDeliverables :=
  let branch :=
    option_or_else
      ((λ b, default b (strip_prefix "origin/" b)) <$> measured_branch)
      ((λ a, "factory/" +:+ a) <$> assignee) in
  let same_delivery :=
    let d :=
      match td_factory_branch_anchor d with
      | None => d <| td_factory_branch_anchor := measured_tip |>
      | Some _ => d
      end in
    match td_parked_branch d with
    | None => d <| td_parked_branch := branch |>
    | Some _ => d
    end in
  match branch, measured_tip, td_parked_branch d with
  | Some b, Some tip, Some previous =>
      if negb (String.eqb previous b)
      then
        let d := record_handoff_branch previous d in
        let d := retain_factory_branch_anchor_as_history d in
        let d := d <| td_factory_branch_anchor := Some tip |> in
        d <| td_parked_branch := Some b |>
      else same_delivery
  | _, _, _ => same_delivery
  end.

Definition declined_factory_anchors (d : TaskDeliverables) : list string :=
  default (td_historical_factory_branch_anchors d) (td_declined_factory_branch_anchors d).

Definition effective_merge_ci_admission (d : TaskDeliverables) : MergeCiAdmission :=
  default MergeCiAdmission_default (td_merge_ci_admission d).

Definition vec_is_empty {A} (l : list A) : bool := match l with [] => true | _ => false end.

Definition TaskDeliverables_is_empty (d : TaskDeliverables) : bool :=
  is_none (td_epic_branch_origin d)
  && is_none (td_split_takeover d)
  && is_none (td_work_target d)
  && negb (td_work_target_pinned d)
  && is_none (td_pre_close_hook d)
  && is_none (td_negative_result d)
  && is_none (td_evidence_only d)
  && vec_is_empty (td_files_changed d)
  && is_none (td_commit_hash d)
  && is_none (td_merge_commit d)
  && is_none (td_delivery_pr_number d)
  && is_none (td_delivery_pr_merge_commit d)
  && is_none (td_delivery_pr_merged_at d)
  && is_none (td_review_envelope d)
  && is_none (td_factory_branch_anchor d)
  && is_none (td_factory_branch_start d)
  && vec_is_empty (td_authorized_merge_sources d)
  && vec_is_empty (td_historical_factory_branch_anchors d)
  && is_none (td_declined_factory_branch_anchors d)
  && is_none (td_parked_branch d)
  && negb (td_merge_conflicted d)
  && is_none (td_green_merge_commit d)
  && is_none (td_merge_ci_admission d).

(** What is read back of written deliverables: every field as written, except
    that a JSON null in a field of type [Option<Value>] reads as none. *)
Definition read_value (o : option json) : option json :=
  match o with Some JNull => None | _ => o end.
Definition read_deliverables (d : TaskDeliverables) : TaskDeliverables :=
  d <| td_model_eval ::= read_value |> <| td_phase_outcome ::= read_value |>.

(** The [deliverables] field of a serialized [Task]:
    [serde(default, skip_serializing_if = "TaskDeliverables::is_empty")].
    The field is absent when the predicate holds, and an absent field reads
    back as the default. *)
Definition serialize_deliverables (d : TaskDeliverables) : option TaskDeliverables :=
  if TaskDeliverables_is_empty d then None else Some d.
Definition deserialize_deliverables (o : option TaskDeliverables) : TaskDeliverables :=
  default TaskDeliverables_default (read_deliverables <$> o).

(** ** Operations on [Task] *)
Definition effective_epic_branch (t : Task) : option string :=
  let names_lane b := starts_with "epic/" b && ends_with ("-" +:+ t_id t) b in
  let branch := trimmed_nonempty (t_branch t) in
  let target := trimmed_nonempty (wt_target_branch <$> td_work_target (t_deliverables t)) in
  let fallback :=
    option_or_else branch
      (t ← target; if starts_with "epic/" t then Some t else None) in
  match branch, target with
  | Some b, Some tg => if names_lane b && names_lane tg then Some tg else fallback
  | _, _ => fallback
  end.

Definition Task_new (clk : Clock) (id title : string) : Task :=
  let now := clk 0%nat in
  {| t_id := id; t_scope := Scope_default; t_origin_project := None; t_title := title;
     t_description := EmptyString; t_design := EmptyString;
     t_acceptance_criteria := EmptyString; t_notes := EmptyString;
     t_status := TaskStatus_Open; t_priority := Priority_MEDIUM;
     t_task_type := TaskType_Task; t_risk := []; t_door := None; t_proof_targets := [];
     t_assignee := None; t_labels := []; t_created_at := now; t_updated_at := now;
     t_closed_at := None; t_close_reason := None; t_terminal_outcome := None;
     t_external_ref := None; t_content_hash := None; t_branch := None;
     t_worktree_id := None; t_pending_verification := false;
     t_pending_worktree_merge := false; t_epic_verification_owner := None;
     t_deliverables := TaskDeliverables_default; t_team_id := None; t_share := None;
     t_demo_statement := EmptyString; t_execution_note := None;
     t_depth := TaskDepth_Deep; t_delivery_mode := DeliveryMode_PushBranch |}.

Definition Task_is_terminal (t : Task) : bool :=
  match t_status t with TaskStatus_Closed | TaskStatus_Cancelled => true | _ => false end.
Definition Task_is_open (t : Task) : bool := negb (Task_is_terminal t).
Definition Task_is_ready (t : Task) : bool := bool_decide (t_status t = TaskStatus_Open).

(** Two [TaskDeliverables] have the same JSON exactly when they are equal: a
    skipped field is one that holds its default, and two values of a field
    have different JSON. *)
Definition lifecycle_matches (t other : Task) : bool :=
  bool_decide (t_status t = t_status other)
  && bool_decide (t_closed_at t = t_closed_at other)
  && bool_decide (t_close_reason t = t_close_reason other)
  && bool_decide (t_assignee t = t_assignee other)
  && bool_decide (t_branch t = t_branch other)
  && bool_decide (t_worktree_id t = t_worktree_id other)
  && bool_decide (t_pending_verification t = t_pending_verification other)
  && bool_decide (t_pending_worktree_merge t = t_pending_worktree_merge other)
  && bool_decide (t_terminal_outcome t = t_terminal_outcome other)
  && bool_decide (t_deliverables t = t_deliverables other).

Definition effective_terminal_outcome (t : Task) : option TaskTerminalOutcome :=
  option_or_else (t_terminal_outcome t)
    match t_status t with
    | TaskStatus_Closed =>
        if negb (is_none (td_evidence_only (t_deliverables t)))
        then Some TaskTerminalOutcome_EvidenceOnly
        else if negb (is_none (td_negative_result (t_deliverables t)))
        then Some TaskTerminalOutcome_NegativeResult
        else Some TaskTerminalOutcome_Delivered
    | TaskStatus_Cancelled => Some (TaskTerminalOutcome_Cancelled None)
    | _ => None
    end.

Definition counts_as_delivered (t : Task) : bool :=
  Task_is_terminal t
  && match effective_terminal_outcome t with
     | Some TaskTerminalOutcome_Delivered | Some TaskTerminalOutcome_EvidenceOnly => true
     | _ => false
     end.

Definition has_delivery_to_integrate (t : Task) : bool :=
  negb match effective_terminal_outcome t with
       | Some TaskTerminalOutcome_EvidenceOnly | Some TaskTerminalOutcome_NegativeResult
       | Some TaskTerminalOutcome_Decision | Some (TaskTerminalOutcome_Cancelled _) => true
       | _ => false
       end.

(** ** Deliverables across a serialized task *)

(** The fields [TaskDeliverables_is_empty] does not look at hold their defaults. *)
Definition uncounted_fields_default (d : TaskDeliverables) : Prop :=
  td_model_eval d = None ∧ td_phase_outcome d = None ∧ td_source_claim_override d = None
  ∧ td_integration_batch d = None ∧ td_work_target_cleared d = false ∧ td_handoff_branches d = []
  ∧ td_parked_close_reason d = None ∧ td_no_delivery_close_intent d = None.

Lemma is_none_true {A} (o : option A) : is_none o = true ↔ o = None.
Proof. by destruct o. Qed.
Lemma vec_is_empty_true {A} (l : list A) : vec_is_empty l = true ↔ l = [].
Proof. by destruct l. Qed.

Lemma empty_deliverables_default d :
  TaskDeliverables_is_empty d = true → (d = TaskDeliverables_default ↔ uncounted_fields_default d).
Proof.
  unfold TaskDeliverables_is_empty, uncounted_fields_default.
  rewrite !andb_true_iff, !is_none_true, !vec_is_empty_true, !negb_true_iff. intros H.
  split; [by intros ->|]. intros H'. destruct d. simpl in *. destruct_and!. by subst.
Qed.

Lemma read_value_id o : read_value o = o ↔ o ≠ Some JNull.
Proof. destruct o as [[]|]; simpl; naive_solver. Qed.

Lemma read_deliverables_id d :
  read_deliverables d = d ↔ td_model_eval d ≠ Some JNull ∧ td_phase_outcome d ≠ Some JNull.
Proof.
  rewrite <-!read_value_id. split.
  - intros H. split; by rewrite <-H at 2.
  - intros [H1 H2]. destruct d. unfold read_deliverables. unfold update. simpl in *. by rewrite H1, H2.
Qed.

(** When the evidence of a task survives its serialization.  A task that is
    serialized and read again has the same deliverables when no optional JSON
    value is a null, unless all the fields the emptiness test looks at are at
    their defaults while one of the eight it does not look at (the model
    evaluation, the phase outcome, the source claim override, the integration
    batch, the cleared work target, the handoff branches, the parked close
    reason, the no-delivery close intent) is not: then that evidence is lost. *)
Theorem deliverables_roundtrip d :
  deserialize_deliverables (serialize_deliverables d) = d ↔
  if TaskDeliverables_is_empty d then uncounted_fields_default d
  else td_model_eval d ≠ Some JNull ∧ td_phase_outcome d ≠ Some JNull.
Proof.
  unfold serialize_deliverables, deserialize_deliverables.
  destruct (TaskDeliverables_is_empty d) eqn:He; simpl.
  - rewrite <-empty_deliverables_default by done. done.
  - apply read_deliverables_id.
Qed.
