(* ===== verification/Verifications.v ===== *)
(** * Verdicts, dispatches and capabilities ([cas-types/src/verification.rs])

    The values of a verification: the verdict with its issues, the dispatch
    that asks for it, the capability that lets a verifier child give it, and
    the proof boundary it is bound to.  A confidence is the text of its f32. *)

From S2P Require Import Prelude Enums VerifierText.

(** ** Vocabularies *)
Inductive VerificationType := VerificationType_Task | VerificationType_Epic.
#[export] Instance VerificationType_eq_dec : EqDecision VerificationType.
Proof. solve_decision. Defined.
Definition VerificationType_default : VerificationType := VerificationType_Task.
Definition VerificationType_to_string (x : VerificationType) : string :=
  match x with VerificationType_Task => "task" | VerificationType_Epic => "epic" end.
Definition VerificationType_from_str (s : string) : Result TypeError VerificationType :=
  match lookup_text (to_lowercase s)
    [("task", VerificationType_Task); ("epic", VerificationType_Epic)] with
  | Some x => Ok x
  | None => Err (ParseError ("invalid verification type: " +:+ s))
  end.

Inductive VerificationProvenance :=
  | VerificationProvenance_Legacy
  | VerificationProvenance_TaskVerifier
  | VerificationProvenance_SupervisorDirect
  | VerificationProvenance_System
  | VerificationProvenance_PeerAttested.
#[export] Instance VerificationProvenance_eq_dec : EqDecision VerificationProvenance.
Proof. solve_decision. Defined.
Definition VerificationProvenance_default : VerificationProvenance := VerificationProvenance_Legacy.
Definition VerificationProvenance_to_string (x : VerificationProvenance) : string :=
  match x with
  | VerificationProvenance_Legacy => "legacy"
  | VerificationProvenance_TaskVerifier => "task_verifier"
  | VerificationProvenance_SupervisorDirect => "supervisor_direct"
  | VerificationProvenance_System => "system"
  | VerificationProvenance_PeerAttested => "peer_attested"
  end.
Definition VerificationProvenance_from_str (s : string) : Result TypeError VerificationProvenance :=
  match lookup_text (to_lowercase s)
    [("legacy", VerificationProvenance_Legacy);
     ("task_verifier", VerificationProvenance_TaskVerifier);
     ("supervisor_direct", VerificationProvenance_SupervisorDirect);
     ("system", VerificationProvenance_System);
     ("peer_attested", VerificationProvenance_PeerAttested)] with
  | Some x => Ok x
  | None => Err (ParseError ("invalid verification provenance: " +:+ s))
  end.

Inductive VerificationDispatchState :=
  | VerificationDispatchState_Pending
  | VerificationDispatchState_Claimed
  | VerificationDispatchState_TimedOut
  | VerificationDispatchState_Resolved
  | VerificationDispatchState_Invalidated.
#[export] Instance VerificationDispatchState_eq_dec : EqDecision VerificationDispatchState.
Proof. solve_decision. Defined.
Definition VerificationDispatchState_to_string (x : VerificationDispatchState) : string :=
  match x with
  | VerificationDispatchState_Pending => "pending"
  | VerificationDispatchState_Claimed => "claimed"
  | VerificationDispatchState_TimedOut => "timed_out"
  | VerificationDispatchState_Resolved => "resolved"
  | VerificationDispatchState_Invalidated => "invalidated"
  end.
Definition VerificationDispatchState_from_str (s : string)
    : Result TypeError VerificationDispatchState :=
  match lookup_text (to_lowercase s)
    [("pending", VerificationDispatchState_Pending);
     ("claimed", VerificationDispatchState_Claimed);
     ("timed_out", VerificationDispatchState_TimedOut);
     ("resolved", VerificationDispatchState_Resolved);
     ("invalidated", VerificationDispatchState_Invalidated)] with
  | Some x => Ok x
  | None => Err (ParseError ("invalid verification dispatch state: " +:+ s))
  end.

Inductive VerificationRecoveryAction := VerificationRecoveryAction_SupervisorRedispatchOrDirect.
#[export] Instance VerificationRecoveryAction_eq_dec : EqDecision VerificationRecoveryAction.
Proof. solve_decision. Defined.
Definition VerificationRecoveryAction_to_string (x : VerificationRecoveryAction) : string :=
  "supervisor_redispatch_or_direct".
Definition VerificationRecoveryAction_from_str (s : string)
    : Result TypeError VerificationRecoveryAction :=
  match lookup_text (to_lowercase s)
    [("supervisor_redispatch_or_direct", VerificationRecoveryAction_SupervisorRedispatchOrDirect)] with
  | Some x => Ok x
  | None => Err (ParseError ("invalid verification recovery action: " +:+ s))
  end.

Inductive VerificationStatus :=
  | VerificationStatus_Approved
  | VerificationStatus_Rejected
  | VerificationStatus_SupervisorCall
  | VerificationStatus_Pending
  | VerificationStatus_Skipped
  | VerificationStatus_Error.
#[export] Instance VerificationStatus_eq_dec : EqDecision VerificationStatus.
Proof. solve_decision. Defined.
Definition VerificationStatus_to_string (x : VerificationStatus) : string :=
  match x with
  | VerificationStatus_Approved => "approved"
  | VerificationStatus_Rejected => "rejected"
  | VerificationStatus_SupervisorCall => "supervisor_call"
  | VerificationStatus_Pending => "pending"
  | VerificationStatus_Error => "error"
  | VerificationStatus_Skipped => "skipped"
  end.
(** An unknown verdict reads as an error. *)
Definition VerificationStatus_from_str (s : string) : Result TypeError VerificationStatus :=
  match lookup_text (to_lowercase s)
    [("approved", VerificationStatus_Approved);
     ("rejected", VerificationStatus_Rejected);
     ("supervisor_call", VerificationStatus_SupervisorCall);
     ("pending", VerificationStatus_Pending);
     ("error", VerificationStatus_Error);
     ("skipped", VerificationStatus_Skipped)] with
  | Some x => Ok x
  | None => Ok VerificationStatus_Error
  end.

(** The two columns of a status: what every release reads, and the detail *)
Definition storage_status (x : VerificationStatus) : string :=
  match x with
  | VerificationStatus_Approved => "approved"
  | VerificationStatus_Rejected => "rejected"
  | VerificationStatus_Skipped => "skipped"
  | VerificationStatus_Error | VerificationStatus_Pending | VerificationStatus_SupervisorCall => "error"
  end.
Definition storage_detail (x : VerificationStatus) : option string :=
  match x with
  | VerificationStatus_Pending => Some "pending"
  | VerificationStatus_SupervisorCall => Some "supervisor_call"
  | _ => None
  end.
Definition from_storage (status : string) (detail : option string) : VerificationStatus :=
  if eq_ignore_ascii_case status "error" then
    match detail with
    | Some "pending" => VerificationStatus_Pending
    | Some "supervisor_call" => VerificationStatus_SupervisorCall
    | _ => VerificationStatus_Error
    end
  else unwrap_or (VerificationStatus_from_str status) VerificationStatus_Error.

Inductive IssueSeverity := IssueSeverity_Blocking | IssueSeverity_Warning.
#[export] Instance IssueSeverity_eq_dec : EqDecision IssueSeverity.
Proof. solve_decision. Defined.
Definition IssueSeverity_default : IssueSeverity := IssueSeverity_Blocking.
Definition IssueSeverity_to_string (x : IssueSeverity) : string :=
  match x with IssueSeverity_Blocking => "blocking" | IssueSeverity_Warning => "warning" end.
Definition IssueSeverity_from_str (s : string) : Result TypeError IssueSeverity :=
  match lookup_text (to_lowercase s)
    [("blocking", IssueSeverity_Blocking); ("warning", IssueSeverity_Warning)] with
  | Some x => Ok x
  | None => Err (ParseError ("invalid issue severity: " +:+ s))
  end.

Inductive FindingSeverity :=
  | FindingSeverity_Money | FindingSeverity_DataLoss | FindingSeverity_Broken
  | FindingSeverity_Awkward | FindingSeverity_Cosmetic.
#[export] Instance FindingSeverity_eq_dec : EqDecision FindingSeverity.
Proof. solve_decision. Defined.
Inductive FindingReach := FindingReach_Main | FindingReach_Secondary | FindingReach_Theoretical.
#[export] Instance FindingReach_eq_dec : EqDecision FindingReach.
Proof. solve_decision. Defined.

(** ** Findings *)
Record FindingTriage := mkFindingTriage {
  ft_severity : FindingSeverity;
  ft_reach : FindingReach;
  ft_journey : option string;
  ft_repro : option string;
}.
#[export] Instance FindingTriage_eta : Eta FindingTriage := λ r,
  mkFindingTriage (ft_severity r) (ft_reach r) (ft_journey r) (ft_repro r).
#[export] Instance FindingTriage_eq_dec : EqDecision FindingTriage.
Proof. solve_decision. Defined.
Definition FindingTriage_default : FindingTriage :=
  mkFindingTriage FindingSeverity_Broken FindingReach_Theoretical None None.

Definition triage_normalize (declared_main : bool) (f : FindingTriage) : FindingTriage :=
  if negb (match ft_repro f with Some s => negb (str_is_empty (trim s)) | None => false end)
     || bool_decide (ft_reach f = FindingReach_Main) && negb declared_main
  then f <| ft_reach := FindingReach_Theoretical |> else f.

Definition triage_priority (declared_main : bool) (f : FindingTriage) : Z :=
  match ft_reach (triage_normalize declared_main f), ft_severity f with
  | FindingReach_Main, (FindingSeverity_Money | FindingSeverity_DataLoss) => 0
  | FindingReach_Main, FindingSeverity_Broken
  | FindingReach_Secondary, (FindingSeverity_Money | FindingSeverity_DataLoss) => 1
  | FindingReach_Main, FindingSeverity_Awkward
  | FindingReach_Secondary, FindingSeverity_Broken => 2
  | FindingReach_Main, FindingSeverity_Cosmetic
  | FindingReach_Secondary, FindingSeverity_Awkward => 3
  | FindingReach_Theoretical, (FindingSeverity_Money | FindingSeverity_DataLoss) =>
      if declared_main then 2 else 4
  | _, _ => 4
  end.

Record VerificationIssue := mkVerificationIssue {
  vi_triage : FindingTriage;
  vi_file : string;
  vi_line : option Z;
  vi_severity : IssueSeverity;
  vi_category : string;
  vi_code : string;
  vi_problem : string;
  vi_suggestion : option string;
}.
#[export] Instance VerificationIssue_eta : Eta VerificationIssue := λ r,
  mkVerificationIssue (vi_triage r) (vi_file r) (vi_line r) (vi_severity r) (vi_category r)
    (vi_code r) (vi_problem r) (vi_suggestion r).
#[export] Instance VerificationIssue_eq_dec : EqDecision VerificationIssue.
Proof. solve_decision. Defined.
Definition issue_is_blocking (i : VerificationIssue) : bool :=
  bool_decide (vi_severity i = IssueSeverity_Blocking).

(** ** Proof boundaries, dispatches and capabilities *)
Record PeerPremergeReceipt := mkPeerPremergeReceipt {
  pp_status : VerificationStatus;
  pp_project_id : string;
  pp_supervisor_id : string;
  pp_task_id : string;
  pp_source_branch : string;
  pp_source_sha : string;
  pp_target_branch : string;
  pp_target_sha : string;
  pp_candidate_tree : string;
  pp_landed_sha : string;
  pp_dispatch_id : string;
  pp_verdict_id : string;
  pp_plan_digest : string;
}.
#[export] Instance PeerPremergeReceipt_eq_dec : EqDecision PeerPremergeReceipt.
Proof. solve_decision. Defined.
Record PeerPremergeAttestation := mkPeerPremergeAttestation {
  pa_receipt : PeerPremergeReceipt;
  pa_message_id : string;
  pa_sender_machine_id : string;
  pa_sender_session : string;
}.
#[export] Instance PeerPremergeAttestation_eq_dec : EqDecision PeerPremergeAttestation.
Proof. solve_decision. Defined.
Record RepositoryProofBoundary := mkRepositoryProofBoundary {
  rp_peer_premerge : option PeerPremergeAttestation;
  rp_repository_root : string;
  rp_worktree_root : string;
  rp_head_commit : string;
  rp_state_digest : string;
  rp_target_branch : option string;
  rp_anchor_commits : list string;
}.
#[export] Instance RepositoryProofBoundary_eq_dec : EqDecision RepositoryProofBoundary.
Proof. solve_decision. Defined.

Record VerificationProofBoundary := mkVerificationProofBoundary {
  pb_receipt_id : option string;
  pb_delivery_transaction_id : option string;
  pb_repository : option RepositoryProofBoundary;
}.
#[export] Instance VerificationProofBoundary_eta : Eta VerificationProofBoundary := λ r,
  mkVerificationProofBoundary (pb_receipt_id r) (pb_delivery_transaction_id r) (pb_repository r).
Definition boundary_task : VerificationProofBoundary := mkVerificationProofBoundary None None None.
Definition boundary_delivery (receipt_id delivery_transaction_id : string) : VerificationProofBoundary :=
  mkVerificationProofBoundary (Some receipt_id) (Some delivery_transaction_id) None.
Definition boundary_task_at (repository : RepositoryProofBoundary) : VerificationProofBoundary :=
  mkVerificationProofBoundary None None (Some repository).

Record VerificationDispatch := mkVerificationDispatch {
  vd_id : string;
  vd_task_id : string;
  vd_receipt_id : option string;
  vd_delivery_transaction_id : option string;
  vd_repository : option RepositoryProofBoundary;
  vd_requester_agent_id : string;
  vd_owner_agent_id : string;
  vd_verifier_agent_id : option string;
  vd_capability_id : option string;
  vd_state : VerificationDispatchState;
  vd_requested_at : Z;
  vd_deadline_at : Z;
  vd_resolved_at : option Z;
  vd_recovery_action : VerificationRecoveryAction;
}.
#[export] Instance VerificationDispatch_eta : Eta VerificationDispatch := λ r,
  mkVerificationDispatch (vd_id r) (vd_task_id r) (vd_receipt_id r) (vd_delivery_transaction_id r)
    (vd_repository r) (vd_requester_agent_id r) (vd_owner_agent_id r) (vd_verifier_agent_id r)
    (vd_capability_id r) (vd_state r) (vd_requested_at r) (vd_deadline_at r) (vd_resolved_at r)
    (vd_recovery_action r).
#[export] Instance VerificationDispatch_eq_dec : EqDecision VerificationDispatch.
Proof. solve_decision. Defined.

Record VerifierCapability := mkVerifierCapability {
  vc_id : string;
  vc_task_id : string;
  vc_dispatch_id : option string;
  vc_issuer_agent_id : string;
  vc_verifier_agent_id : option string;
  vc_token_hash : string;
  vc_issued_at : Z;
  vc_expires_at : Z;
  vc_bound_at : option Z;
  vc_consumed_at : option Z;
}.
#[export] Instance VerifierCapability_eta : Eta VerifierCapability := λ r,
  mkVerifierCapability (vc_id r) (vc_task_id r) (vc_dispatch_id r) (vc_issuer_agent_id r)
    (vc_verifier_agent_id r) (vc_token_hash r) (vc_issued_at r) (vc_expires_at r) (vc_bound_at r)
    (vc_consumed_at r).

(** ** Verdicts *)
Record Verification := mkVerification {
  v_id : string;
  v_task_id : string;
  v_agent_id : option string;
  v_verification_type : VerificationType;
  v_provenance : VerificationProvenance;
  v_capability_id : option string;
  v_dispatch_id : option string;
  v_issuer_agent_id : option string;
  v_status : VerificationStatus;
  v_confidence : option string;
  v_summary : string;
  v_issues : list VerificationIssue;
  v_files_reviewed : list string;
  v_duration_ms : option Z;
  v_duration_source : option string;
  v_created_at : Z;
}.
#[export] Instance Verification_eta : Eta Verification := λ r,
  mkVerification (v_id r) (v_task_id r) (v_agent_id r) (v_verification_type r) (v_provenance r)
    (v_capability_id r) (v_dispatch_id r) (v_issuer_agent_id r) (v_status r) (v_confidence r)
    (v_summary r) (v_issues r) (v_files_reviewed r) (v_duration_ms r) (v_duration_source r)
    (v_created_at r).

Definition Verification_new (id task_id : string) (now : Z) : Verification :=
  {| v_id := id; v_task_id := task_id; v_agent_id := None;
     v_verification_type := VerificationType_Task;
     v_provenance := VerificationProvenance_Legacy; v_capability_id := None;
     v_dispatch_id := None; v_issuer_agent_id := None;
     v_status := VerificationStatus_Approved; v_confidence := None; v_summary := "";
     v_issues := []; v_files_reviewed := []; v_duration_ms := None; v_duration_source := None;
     v_created_at := now |}.

Definition is_approved (v : Verification) : bool :=
  bool_decide (v_status v = VerificationStatus_Approved).
Definition is_rejected (v : Verification) : bool :=
  bool_decide (v_status v = VerificationStatus_Rejected).
Definition blocking_count (v : Verification) : nat := length (List.filter issue_is_blocking (v_issues v)).
Definition warning_count (v : Verification) : nat :=
  length (List.filter (λ i, negb (issue_is_blocking i)) (v_issues v)).

(** The caller-written fields of an issue, and of a verdict *)
Definition sanitize_issue (i : VerificationIssue) : VerificationIssue :=
  let text s := sanitize_verifier_text s VERIFIER_ISSUE_TEXT_MAX_BYTES in
  let category s := sanitize_verifier_text s VERIFIER_ISSUE_CATEGORY_MAX_BYTES in
  i <| vi_triage ::= λ t, t <| ft_repro ::= fmap text |> <| ft_journey ::= fmap category |> |>
    <| vi_file ::= λ s, sanitize_verifier_text s VERIFIER_ISSUE_FILE_MAX_BYTES |>
    <| vi_category ::= category |> <| vi_code ::= text |> <| vi_problem ::= text |>
    <| vi_suggestion ::= fmap text |>.
Definition sanitize_verifier_authored_content (v : Verification) : Verification :=
  v <| v_summary ::= λ s, sanitize_verifier_text s VERIFIER_SUMMARY_MAX_BYTES |>
    <| v_issues ::= λ l, sanitize_issue <$> take VERIFIER_ISSUES_MAX l |>
    <| v_files_reviewed ::= λ l,
         (λ s, sanitize_verifier_text s VERIFIER_ISSUE_FILE_MAX_BYTES)
           <$> take VERIFIER_FILES_REVIEWED_MAX l |>.

(** ** Vocabularies read back *)
#[export] Program Instance VerificationType_text : TextEnum VerificationType TypeError :=
  {| te_to_string := VerificationType_to_string; te_from_str := VerificationType_from_str |}.
Next Obligation. by intros []. Qed.
#[export] Program Instance VerificationProvenance_text : TextEnum VerificationProvenance TypeError :=
  {| te_to_string := VerificationProvenance_to_string; te_from_str := VerificationProvenance_from_str |}.
Next Obligation. by intros []. Qed.
#[export] Program Instance VerificationDispatchState_text : TextEnum VerificationDispatchState TypeError :=
  {| te_to_string := VerificationDispatchState_to_string;
     te_from_str := VerificationDispatchState_from_str |}.
Next Obligation. by intros []. Qed.
#[export] Program Instance VerificationRecoveryAction_text : TextEnum VerificationRecoveryAction TypeError :=
  {| te_to_string := VerificationRecoveryAction_to_string;
     te_from_str := VerificationRecoveryAction_from_str |}.
Next Obligation. by intros []. Qed.
#[export] Program Instance VerificationStatus_text : TextEnum VerificationStatus TypeError :=
  {| te_to_string := VerificationStatus_to_string; te_from_str := VerificationStatus_from_str |}.
Next Obligation. by intros []. Qed.
#[export] Program Instance IssueSeverity_text : TextEnum IssueSeverity TypeError :=
  {| te_to_string := IssueSeverity_to_string; te_from_str := IssueSeverity_from_str |}.
Next Obligation. by intros []. Qed.

Lemma from_storage_roundtrip x : from_storage (storage_status x) (storage_detail x) = x.
Proof. by destruct x. Qed.
