(* ===== verification/Leases.v ===== *)
(** * Lease values ([crates/cas-types/src/lease.rs])

    [TaskLease] and [WorktreeLease] as the stores return them, with the
    methods on the value.  A method that reads the clock takes its reading as
    an argument.  [renewal_count] is a u32 and wraps in a release build. *)

From S2P Require Import Prelude Enums.

Definition DEFAULT_LEASE_DURATION_SECS : Z := 600.

(** A lease on a task. *)
Record TaskLease := mkTaskLease {
  tl_task_id : string;
  tl_agent_id : string;
  tl_status : LeaseStatus;
  tl_acquired_at : Z;
  tl_expires_at : Z;
  tl_renewed_at : Z;
  tl_renewal_count : Z;
  tl_epoch : Z;
  tl_claim_reason : option string;
}.
#[export] Instance TaskLease_eta : Eta TaskLease := λ r,
  mkTaskLease
    (tl_task_id r) (tl_agent_id r) (tl_status r) (tl_acquired_at r) (tl_expires_at r)
    (tl_renewed_at r) (tl_renewal_count r) (tl_epoch r) (tl_claim_reason r).

(** A lease on a worktree. *)
Record WorktreeLease := mkWorktreeLease {
  wl_worktree_id : string;
  wl_agent_id : string;
  wl_status : LeaseStatus;
  wl_acquired_at : Z;
  wl_expires_at : Z;
  wl_renewed_at : Z;
  wl_renewal_count : Z;
}.
#[export] Instance WorktreeLease_eta : Eta WorktreeLease := λ r,
  mkWorktreeLease
    (wl_worktree_id r) (wl_agent_id r) (wl_status r) (wl_acquired_at r) (wl_expires_at r)
    (wl_renewed_at r) (wl_renewal_count r).

#[export] Instance TaskLease_eq_dec : EqDecision TaskLease.
Proof. solve_decision. Defined.
#[export] Instance WorktreeLease_eq_dec : EqDecision WorktreeLease.
Proof. solve_decision. Defined.

Definition u32_succ (n : Z) : Z := (n + 1) mod 2 ^ 32.
Definition u64_succ (n : Z) : Z := (n + 1) mod 2 ^ 64.

(** ** [TaskLease] *)
Definition TaskLease_new (now : Z) (task_id agent_id : string) (duration_secs : Z) : TaskLease :=
  {| tl_task_id := task_id; tl_agent_id := agent_id; tl_status := LeaseStatus_Active;
     tl_acquired_at := now; tl_expires_at := now + duration_seconds duration_secs;
     tl_renewed_at := now; tl_renewal_count := 0; tl_epoch := 1; tl_claim_reason := None |}.
Definition TaskLease_new_with_epoch (now : Z) (task_id agent_id : string)
    (duration_secs previous_epoch : Z) : TaskLease :=
  TaskLease_new now task_id agent_id duration_secs <| tl_epoch := u64_succ previous_epoch |>.
Definition TaskLease_with_reason (now : Z) (task_id agent_id : string) (duration_secs : Z)
    (reason : string) : TaskLease :=
  TaskLease_new now task_id agent_id duration_secs <| tl_claim_reason := Some reason |>.

Definition TaskLease_is_valid (now : Z) (l : TaskLease) : bool :=
  bool_decide (tl_status l = LeaseStatus_Active) && (now <? tl_expires_at l).
Definition TaskLease_is_expired (now : Z) (l : TaskLease) : bool :=
  bool_decide (tl_status l = LeaseStatus_Expired) || (tl_expires_at l <=? now).
Definition TaskLease_renew (now duration_secs : Z) (l : TaskLease) : TaskLease :=
  l <| tl_expires_at := now + duration_seconds duration_secs |>
    <| tl_renewed_at := now |>
    <| tl_renewal_count ::= u32_succ |>
    <| tl_status := LeaseStatus_Active |>.
Definition TaskLease_release (l : TaskLease) : TaskLease :=
  l <| tl_status := LeaseStatus_Released |>.
Definition TaskLease_revoke (l : TaskLease) : TaskLease :=
  l <| tl_status := LeaseStatus_Revoked |>.
Definition TaskLease_mark_expired (l : TaskLease) : TaskLease :=
  l <| tl_status := LeaseStatus_Expired |>.
Definition TaskLease_remaining_secs (now : Z) (l : TaskLease) : Z :=
  Z.max (num_seconds (tl_expires_at l - now)) 0.
(** Less than a fifth of the lease is left; [/] on i64 truncates. *)
Definition TaskLease_needs_renewal (now : Z) (l : TaskLease) : bool :=
  let total_duration := num_seconds (tl_expires_at l - tl_renewed_at l) in
  TaskLease_remaining_secs now l <? Z.quot total_duration 5.

(** ** [WorktreeLease] *)
Definition WorktreeLease_new (now : Z) (worktree_id agent_id : string) (duration_secs : Z)
    : WorktreeLease :=
  {| wl_worktree_id := worktree_id; wl_agent_id := agent_id; wl_status := LeaseStatus_Active;
     wl_acquired_at := now; wl_expires_at := now + duration_seconds duration_secs;
     wl_renewed_at := now; wl_renewal_count := 0 |}.
Definition WorktreeLease_is_valid (now : Z) (l : WorktreeLease) : bool :=
  bool_decide (wl_status l = LeaseStatus_Active) && (now <? wl_expires_at l).
Definition WorktreeLease_is_expired (now : Z) (l : WorktreeLease) : bool :=
  bool_decide (wl_status l = LeaseStatus_Expired) || (wl_expires_at l <=? now).
Definition WorktreeLease_renew (now duration_secs : Z) (l : WorktreeLease) : WorktreeLease :=
  l <| wl_expires_at := now + duration_seconds duration_secs |>
    <| wl_renewed_at := now |>
    <| wl_renewal_count ::= u32_succ |>
    <| wl_status := LeaseStatus_Active |>.
Definition WorktreeLease_release (l : WorktreeLease) : WorktreeLease :=
  l <| wl_status := LeaseStatus_Released |>.
Definition WorktreeLease_revoke (l : WorktreeLease) : WorktreeLease :=
  l <| wl_status := LeaseStatus_Revoked |>.
Definition WorktreeLease_mark_expired (l : WorktreeLease) : WorktreeLease :=
  l <| wl_status := LeaseStatus_Expired |>.
Definition WorktreeLease_remaining_secs (now : Z) (l : WorktreeLease) : Z :=
  Z.max (num_seconds (wl_expires_at l - now)) 0.

(** ** Results of a claim *)
Inductive ClaimResult :=
  | ClaimResult_Success (lease : TaskLease)
  | ClaimResult_AlreadyClaimed (task_id held_by : string) (user_id : option string)
      (expires_at : Z)
  | ClaimResult_TaskNotFound (task_id : string)
  | ClaimResult_NotClaimable (task_id reason : string)
  | ClaimResult_Unauthorized (why : string).

Definition ClaimResult_is_success (r : ClaimResult) : bool :=
  match r with ClaimResult_Success _ => true | _ => false end.
Definition ClaimResult_lease (r : ClaimResult) : option TaskLease :=
  match r with ClaimResult_Success lease => Some lease | _ => None end.

Inductive WorktreeClaimResult :=
  | WorktreeClaimResult_Success (lease : WorktreeLease)
  | WorktreeClaimResult_AlreadyClaimed (worktree_id held_by : string) (expires_at : Z)
  | WorktreeClaimResult_WorktreeNotFound (worktree_id : string)
  | WorktreeClaimResult_Unauthorized (why : string).

Definition WorktreeClaimResult_is_success (r : WorktreeClaimResult) : bool :=
  match r with WorktreeClaimResult_Success _ => true | _ => false end.
Definition WorktreeClaimResult_lease (r : WorktreeClaimResult) : option WorktreeLease :=
  match r with WorktreeClaimResult_Success lease => Some lease | _ => None end.
