(* ===== verification/Agents.v ===== *)
(** * Agents as values ([crates/cas-types/src/agent.rs])

    [Agent] as the registry hands it out and takes it, with its constructors
    and status methods.  A method that reads the clock takes the reading. *)

From S2P Require Import Prelude Enums.

(** A registered agent. *)
Record Agent := mkAgent {
  ag_id : string;
  ag_name : string;
  ag_agent_type : AgentType;
  ag_role : AgentRole;
  ag_status : AgentStatus;
  ag_pid : option Z;
  ag_ppid : option Z;
  ag_cc_session_id : option string;
  ag_factory_session : option string;
  ag_parent_id : option string;
  ag_machine_id : option string;
  ag_registered_at : Z;
  ag_last_heartbeat : Z;
  ag_active_tasks : Z;
  ag_pid_starttime : option Z;
  ag_metadata : gmap string string;
}.
#[export] Instance Agent_eta : Eta Agent := λ r,
  mkAgent
    (ag_id r) (ag_name r) (ag_agent_type r) (ag_role r) (ag_status r) (ag_pid r) (ag_ppid r)
    (ag_cc_session_id r) (ag_factory_session r) (ag_parent_id r) (ag_machine_id r)
    (ag_registered_at r) (ag_last_heartbeat r) (ag_active_tasks r) (ag_pid_starttime r)
    (ag_metadata r).

Definition Agent_new (now : Z) (id name : string) : Agent :=
  {| ag_id := id; ag_name := name; ag_agent_type := AgentType_Primary;
     ag_role := AgentRole_Standard; ag_status := AgentStatus_Active; ag_pid := None;
     ag_ppid := None; ag_cc_session_id := None; ag_factory_session := None;
     ag_parent_id := None; ag_machine_id := None; ag_registered_at := now;
     ag_last_heartbeat := now; ag_active_tasks := 0; ag_pid_starttime := None;
     ag_metadata := ∅ |}.
Definition Agent_new_with_ppid (now : Z) (id name : string) (ppid : Z)
    (cc_session_id : option string) : Agent :=
  Agent_new now id name <| ag_ppid := Some ppid |> <| ag_cc_session_id := cc_session_id |>.
Definition Agent_new_sub_agent (now : Z) (id name parent_id : string) : Agent :=
  Agent_new now id name <| ag_agent_type := AgentType_SubAgent |>
    <| ag_parent_id := Some parent_id |>.
Definition Agent_new_with_role (now : Z) (id name : string) (role : AgentRole) : Agent :=
  Agent_new now id name <| ag_role := role |>.

Definition visible_to_factory_session (session : option string) (a : Agent) : bool :=
  match session with
  | Some session => bool_decide (ag_factory_session a = Some session)
  | None => true
  end.

Definition Agent_heartbeat (now : Z) (a : Agent) : Agent :=
  let a := a <| ag_last_heartbeat := now |> in
  if bool_decide (ag_status a = AgentStatus_Idle)
  then a <| ag_status := AgentStatus_Active |> else a.
Definition is_heartbeat_expired (now timeout_secs : Z) (a : Agent) : bool :=
  timeout_secs <? num_seconds (now - ag_last_heartbeat a).
Definition Agent_mark_stale (a : Agent) : Agent := a <| ag_status := AgentStatus_Stale |>.
Definition Agent_mark_shutdown (a : Agent) : Agent := a <| ag_status := AgentStatus_Shutdown |>.
Definition is_alive (a : Agent) : bool :=
  match ag_status a with AgentStatus_Active | AgentStatus_Idle => true | _ => false end.

Definition DEFAULT_HEARTBEAT_TIMEOUT_SECS : Z := 300.

(** [AgentCapability::all] and [defaults_for] *)
Definition AgentCapability_all : list AgentCapability :=
  [AgentCapability_Coding; AgentCapability_Review; AgentCapability_Testing;
   AgentCapability_Documentation; AgentCapability_DevOps; AgentCapability_BugFix;
   AgentCapability_Research; AgentCapability_Refactor].
Definition AgentCapability_defaults_for (t : AgentType) : list AgentCapability :=
  match t with
  | AgentType_Primary => AgentCapability_all
  | AgentType_SubAgent => [AgentCapability_Coding; AgentCapability_Research]
  | AgentType_Worker => [AgentCapability_Testing; AgentCapability_Documentation]
  | AgentType_CI => [AgentCapability_Testing; AgentCapability_DevOps]
  end.
