(* ===== verification/Db.v ===== *)
(** * The shared database ([.cas/cas.db])

    The tables the modelled stores share, as one record.  A table with a
    primary key is a finite map from the key to the other columns; a table
    with an AUTOINCREMENT key is the list of its rows in insertion order and
    the last key given out.  Columns keep the types SQLite stores: text
    columns for the statuses that SQL statements compare, instants for the
    RFC 3339 UTC timestamps (whose text order is their time order), integers
    for INTEGER.  A table that was never created behaves as an empty one: the
    stores that ask for its existence then read no rows.

    Only the columns the modelled statements read or write are kept.  [Db]
    also holds what the stores read from their host: the environment and the
    third-party functions ([Host]). *)

From S2P Require Import Prelude Logs Enums TaskTypes VerifierText Verifications.

(** ** The host of a store

    [sha2], [chrono]'s RFC 3339 rendering and parser and its [Display] of an
    instant ([display_time]), [serde_json]'s parser with
    the text of its error for an input it rejects ([json_error]), the derived serializer of [TaskDeliverables], the process id and the
    CAS_FACTORY_SESSION environment variable.  [json_parse_string] is
    [serde_json::from_str::<String>]; [json_strings_prefix] reads one JSON
    array of strings from the front of a text and returns the rest
    ([Deserializer::from_str(..).into_iter::<Vec<String>>()]);
    [is_note_timestamp] is [NaiveDateTime::parse_from_str] with the format
    of a timeline note, year-month-day hour:minute; [json_text] is [Display]
    of [serde_json::Value].  [sqlite_json_extract key] is SQLite's json_extract
    at a top-level key of a text, NULL for a text that is not JSON;
    [sqlite_json_set key v] sets such a key to a text, and fails on a text that
    is not JSON. *)
(** A value of a SQL expression that is not NULL *)
Inductive sql_value := SqlInteger (z : Z) | SqlReal (text : string) | SqlText (s : string).
#[export] Instance sql_value_eq_dec : EqDecision sql_value.
Proof. solve_decision. Defined.
(** A value converted to text *)
Definition sql_text (v : sql_value) : string :=
  match v with SqlInteger z => show_z z | SqlReal t => t | SqlText s => s end.

Class Host := {
  sha256_hex : string → string;
  to_rfc3339 : Z → string;
  parse_from_rfc3339 : string → option Z;
  display_time : Z → string;
  json_parse : string → option json;
  json_error : string → string;
  deliverables_json : TaskDeliverables → json;
  process_id : Z;
  env_factory_session : option string;
  json_parse_string : string → option string;
  json_strings_prefix : string → option (list string * string);
  is_note_timestamp : string → bool;
  json_text : json → string;
  sqlite_json_extract : string → string → option sql_value;
  sqlite_json_set : string → string → string → option string;
}.

(** ** Rows *)
(** Table [agents], keyed by [id]. *)
Record AgentRow := mkAgentRow {
  a_name : string;
  a_agent_type : string;
  a_role : string;
  a_status : string;
  a_pid : option Z;
  a_ppid : option Z;
  a_cc_session_id : option string;
  a_parent_id : option string;
  a_machine_id : option string;
  a_factory_session : option string;
  a_registered_at : Z;
  a_last_heartbeat : Z;
  a_active_tasks : Z;
  a_metadata : gmap string string;
  a_startup_confirmed : bool;
  a_pid_starttime : option Z;
}.
#[export] Instance AgentRow_eta : Eta AgentRow := λ r,
  mkAgentRow
    (a_name r) (a_agent_type r) (a_role r) (a_status r) (a_pid r) (a_ppid r) (a_cc_session_id r)
    (a_parent_id r) (a_machine_id r) (a_factory_session r) (a_registered_at r) (a_last_heartbeat
    r) (a_active_tasks r) (a_metadata r) (a_startup_confirmed r) (a_pid_starttime r).

(** Table [task_leases], keyed by [task_id]. *)
Record LeaseRow := mkLeaseRow {
  l_agent_id : string;
  l_status : string;
  l_acquired_at : Z;
  l_expires_at : Z;
  l_renewed_at : Z;
  l_renewal_count : Z;
  l_epoch : Z;
  l_claim_reason : option string;
}.
#[export] Instance LeaseRow_eta : Eta LeaseRow := λ r,
  mkLeaseRow
    (l_agent_id r) (l_status r) (l_acquired_at r) (l_expires_at r) (l_renewed_at r)
    (l_renewal_count r) (l_epoch r) (l_claim_reason r).

(** Table [task_lease_history]. *)
Record HistoryRow := mkHistoryRow {
  h_id : Z;
  h_task_id : string;
  h_agent_id : string;
  h_event_type : string;
  h_epoch : Z;
  h_timestamp : Z;
  h_details : option string;
  h_previous_agent_id : option string;
  h_reason : option string;
}.
#[export] Instance HistoryRow_eta : Eta HistoryRow := λ r,
  mkHistoryRow
    (h_id r) (h_task_id r) (h_agent_id r) (h_event_type r) (h_epoch r) (h_timestamp r)
    (h_details r) (h_previous_agent_id r) (h_reason r).

(** Table [worktree_leases], keyed by [worktree_id]. *)
Record WorktreeLeaseRow := mkWorktreeLeaseRow {
  w_agent_id : string;
  w_status : string;
  w_acquired_at : Z;
  w_expires_at : Z;
  w_renewed_at : Z;
  w_renewal_count : Z;
}.
#[export] Instance WorktreeLeaseRow_eta : Eta WorktreeLeaseRow := λ r,
  mkWorktreeLeaseRow
    (w_agent_id r) (w_status r) (w_acquired_at r) (w_expires_at r) (w_renewed_at r)
    (w_renewal_count r).

(** Table [worktrees], keyed by [id]. *)
Record WorktreeRow := mkWorktreeRow {
  wt_epic_id : option string;
  wt_branch : string;
  wt_path : string;
  wt_status : string;
}.
#[export] Instance WorktreeRow_eta : Eta WorktreeRow := λ r,
  mkWorktreeRow
    (wt_epic_id r) (wt_branch r) (wt_path r) (wt_status r).

(** Table [daemon_instances], keyed by [id]. *)
Record DaemonRow := mkDaemonRow {
  d_pid : Z;
  d_daemon_type : string;
  d_started_at : Z;
  d_last_heartbeat : Z;
  d_status : string;
}.
#[export] Instance DaemonRow_eta : Eta DaemonRow := λ r,
  mkDaemonRow
    (d_pid r) (d_daemon_type r) (d_started_at r) (d_last_heartbeat r) (d_status r).

(** Table [qa_passes], keyed by [id]; [q_rowid] is the table's implicit row id. *)
Record QaPassRow := mkQaPassRow {
  q_rowid : Z;
  q_task_id : string;
  q_round : Z;
  q_implementer_agent_id : string;
  q_branch : string;
  q_bound_head : string;
  q_qa_task_id : option string;
  q_reviewer_agent_id : option string;
  q_state : string;
  q_summary : option string;
  q_issues_json : option string;
  q_ledger_path : option string;
  q_issuer_agent_id : option string;
  q_requested_at : Z;
  q_deadline_at : Z;
  q_resolved_at : option Z;
}.
#[export] Instance QaPassRow_eta : Eta QaPassRow := λ r,
  mkQaPassRow
    (q_rowid r) (q_task_id r) (q_round r) (q_implementer_agent_id r) (q_branch r)
    (q_bound_head r) (q_qa_task_id r) (q_reviewer_agent_id r) (q_state r) (q_summary r)
    (q_issues_json r) (q_ledger_path r) (q_issuer_agent_id r) (q_requested_at r)
    (q_deadline_at r) (q_resolved_at r).

(** Table [events]. *)
Record EventRow := mkEventRow {
  ev_id : Z;
  ev_event_type : string;
  ev_entity_type : string;
  ev_entity_id : string;
  ev_summary : string;
  ev_metadata : option json;
  ev_created_at : Z;
  ev_session_id : option string;
}.
#[export] Instance EventRow_eta : Eta EventRow := λ r,
  mkEventRow
    (ev_id r) (ev_event_type r) (ev_entity_type r) (ev_entity_id r) (ev_summary r) (ev_metadata
    r) (ev_created_at r) (ev_session_id r).

(** Table [prompt_queue], without the operator, attribution and attachment columns. *)
Record PromptRow := mkPromptRow {
  pq_id : Z;
  pq_source : string;
  pq_target : string;
  pq_prompt : string;
  pq_created_at : Z;
  pq_processed_at : option Z;
  pq_factory_session : option string;
  pq_summary : option string;
  pq_priority : Z;
  pq_acked_at : option Z;
  pq_acked_via : option string;
  pq_urgent : bool;
  pq_origin_agent_id : option string;
  pq_origin_kind : option string;
  pq_kind : option string;
  pq_dedupe_key : option string;
  pq_highest_stage : option string;
  pq_selected_at : option Z;
  pq_transport_delivered_at : option Z;
  pq_last_pending_reason : option string;
  pq_last_pending_detail : option string;
  pq_holding_detail : option string;
  pq_broadcast_attempted : option Z;
  pq_broadcast_succeeded : option Z;
  pq_broadcast_failed : option Z;
  pq_delivery_attempts : Z;
  pq_first_attempt_at : option Z;
  pq_next_attempt_at : option Z;
  pq_assumed_seen_at : option Z;
  pq_wake_attempt : option string;
  pq_wake_attempt_at : option Z;
  pq_wake_attempt_detail : option string;
  pq_wake_gate_declines : Z;
  pq_deferred_inbox_at : option Z;
  pq_deferred_inbox_bytes : option Z;
  pq_recipient_device_id : option string;
  pq_sticky : bool;
  pq_supersede_key : option string;
  pq_attribution_json : option string;
  pq_operator_label : option string;
  pq_operator_device_id : option string;
  pq_operator_device_label : option string;
  pq_operator_scopes : option string;
  pq_operator_verified : option bool;
  pq_attachments : option string;
}.
#[export] Instance PromptRow_eta : Eta PromptRow := λ r,
  mkPromptRow
    (pq_id r) (pq_source r) (pq_target r) (pq_prompt r) (pq_created_at r) (pq_processed_at r)
    (pq_factory_session r) (pq_summary r) (pq_priority r) (pq_acked_at r) (pq_acked_via r)
    (pq_urgent r) (pq_origin_agent_id r) (pq_origin_kind r) (pq_kind r) (pq_dedupe_key r)
    (pq_highest_stage r) (pq_selected_at r) (pq_transport_delivered_at r)
    (pq_last_pending_reason r) (pq_last_pending_detail r) (pq_holding_detail r)
    (pq_broadcast_attempted r) (pq_broadcast_succeeded r) (pq_broadcast_failed r)
    (pq_delivery_attempts r) (pq_first_attempt_at r) (pq_next_attempt_at r)
    (pq_assumed_seen_at r) (pq_wake_attempt r) (pq_wake_attempt_at r)
    (pq_wake_attempt_detail r) (pq_wake_gate_declines r) (pq_deferred_inbox_at r)
    (pq_deferred_inbox_bytes r) (pq_recipient_device_id r) (pq_sticky r) (pq_supersede_key r)
    (pq_attribution_json r) (pq_operator_label r) (pq_operator_device_id r) (pq_operator_device_label r)
    (pq_operator_scopes r) (pq_operator_verified r) (pq_attachments r).
#[export] Instance PromptRow_id : HasId PromptRow := pq_id.

(** Tables [prompt_queue_recipient_seen], [prompt_queue_recipient_transport],
    [prompt_queue_recipient_ack] and [communication_body_observations] (its count),
    keyed by (prompt_id, recipient), and the columns of [operator_delivery_outbox] that
    retention reads. *)
Record SeenRow := mkSeenRow {
  rs_seen_at : Z;
  rs_source : option string;
  rs_delivered_at : option Z;
  rs_teams_body_fallback_at : option Z;
  rs_poll_settled : option string;
}.
#[export] Instance SeenRow_eta : Eta SeenRow := λ r,
  mkSeenRow
    (rs_seen_at r) (rs_source r) (rs_delivered_at r) (rs_teams_body_fallback_at r)
    (rs_poll_settled r).

Record TransportRow := mkTransportRow {
  rt_delivered_at : Z;
  rt_device_id : option string;
}.
#[export] Instance TransportRow_eta : Eta TransportRow := λ r,
  mkTransportRow
    (rt_delivered_at r) (rt_device_id r).

Record AckRow := mkAckRow {
  ra_settled_at : Z;
  ra_disposition : string;
  ra_reply_prompt_id : option Z;
}.
#[export] Instance AckRow_eta : Eta AckRow := λ r,
  mkAckRow
    (ra_settled_at r) (ra_disposition r) (ra_reply_prompt_id r).

(** Table [operator_delivery_outbox]. *)
Record OutboxRow := mkOutboxRow {
  ob_event_id : string;
  ob_prompt_id : Z;
  ob_factory_session : option string;
  ob_payload_snapshot : string;
  ob_created_at : Z;
  ob_attempts : Z;
  ob_retry_at_ms : Z;
  ob_lease_token : option string;
  ob_lease_until_ms : option Z;
  ob_relay_receipt : option string;
  ob_retained_at : option Z;
}.
#[export] Instance OutboxRow_eta : Eta OutboxRow := λ r,
  mkOutboxRow
    (ob_event_id r) (ob_prompt_id r) (ob_factory_session r) (ob_payload_snapshot r) (ob_created_at r)
    (ob_attempts r) (ob_retry_at_ms r) (ob_lease_token r) (ob_lease_until_ms r) (ob_relay_receipt r)
    (ob_retained_at r).

Record PromptReceipts := mkPromptReceipts {
  pt_seen : gmap (Z * string) SeenRow;
  pt_transport : gmap (Z * string) TransportRow;
  pt_acks : gmap (Z * string) AckRow;
  pt_outbox : list OutboxRow;
  pt_observed : gmap (Z * string) Z;
}.
#[export] Instance PromptReceipts_eta : Eta PromptReceipts := λ r,
  mkPromptReceipts
    (pt_seen r) (pt_transport r) (pt_acks r) (pt_outbox r) (pt_observed r).

(** Tables [operator_feed_binding] (one row), [operator_cloud_outbox] and
    [operator_command_admissions] (keyed by [command_id]). *)
Record FeedBindingRow := mkFeedBindingRow {
  fb_account_id : string;
  fb_machine_id : string;
  fb_hub_id : string;
  fb_project_id : string;
  fb_bound_at : string;
  fb_detached_at : option Z;
}.
#[export] Instance FeedBindingRow_eta : Eta FeedBindingRow := λ r,
  mkFeedBindingRow
    (fb_account_id r) (fb_machine_id r) (fb_hub_id r) (fb_project_id r) (fb_bound_at r) (fb_detached_at r).

Record CloudRow := mkCloudRow {
  cl_event_id : string;
  cl_account_id : string;
  cl_machine_id : string;
  cl_hub_id : string;
  cl_project_id : string;
  cl_session_id : string;
  cl_created_at : Z;
  cl_feed_generation : option string;
  cl_key_epoch : option string;
  cl_ciphertext : option string;
  cl_digest : option string;
  cl_seal_count : Z;
  cl_attempts : Z;
  cl_retry_at_ms : Z;
  cl_lease_token : option string;
  cl_lease_until_ms : option Z;
  cl_receipt_kind : option string;
  cl_sequence : option string;
  cl_receipt_at : option Z;
  cl_parked_reason : option string;
}.
#[export] Instance CloudRow_eta : Eta CloudRow := λ r,
  mkCloudRow
    (cl_event_id r) (cl_account_id r) (cl_machine_id r) (cl_hub_id r) (cl_project_id r) (cl_session_id r)
    (cl_created_at r) (cl_feed_generation r) (cl_key_epoch r) (cl_ciphertext r) (cl_digest r) (cl_seal_count r)
    (cl_attempts r) (cl_retry_at_ms r) (cl_lease_token r) (cl_lease_until_ms r) (cl_receipt_kind r)
    (cl_sequence r) (cl_receipt_at r) (cl_parked_reason r).

Record AdmissionRow := mkAdmissionRow {
  ad_machine_digest : string;
  ad_history_event_id : string;
  ad_device_id : string;
  ad_prompt_id : Z;
  ad_admitted_at : Z;
  ad_receipt_id : string;
  ad_receipt_sent_at : option Z;
}.
#[export] Instance AdmissionRow_eta : Eta AdmissionRow := λ r,
  mkAdmissionRow
    (ad_machine_digest r) (ad_history_event_id r) (ad_device_id r) (ad_prompt_id r) (ad_admitted_at r)
    (ad_receipt_id r) (ad_receipt_sent_at r).

Record OperatorTables := mkOperatorTables {
  op_binding : option FeedBindingRow;
  op_cloud : list CloudRow;
  op_admissions : gmap string AdmissionRow;
}.
#[export] Instance OperatorTables_eta : Eta OperatorTables := λ r,
  mkOperatorTables
    (op_binding r) (op_cloud r) (op_admissions r).

(** Table [supervisor_queue]. *)
Record SupervisorRow := mkSupervisorRow {
  sq_id : Z;
  sq_supervisor_id : string;
  sq_event_type : string;
  sq_payload : string;
  sq_priority : Z;
  sq_created_at : Z;
  sq_processed_at : option Z;
  sq_transition_key : option string;
  sq_prompt_delivered_at : option Z;
}.
#[export] Instance SupervisorRow_eta : Eta SupervisorRow := λ r,
  mkSupervisorRow
    (sq_id r) (sq_supervisor_id r) (sq_event_type r) (sq_payload r) (sq_priority r)
    (sq_created_at r) (sq_processed_at r) (sq_transition_key r) (sq_prompt_delivered_at r).
#[export] Instance SupervisorRow_id : HasId SupervisorRow := sq_id.

(** Table [reminders]. *)
Record ReminderRow := mkReminderRow {
  rm_id : Z;
  rm_supervisor_id : string;
  rm_message : string;
  rm_trigger_type : string;
  rm_trigger_at : option Z;
  rm_trigger_event : option string;
  rm_trigger_filter : option string;
  rm_status : string;
  rm_ttl_secs : Z;
  rm_created_at : Z;
  rm_fired_at : option Z;
  rm_cancelled_at : option Z;
  rm_target_id : option string;
  rm_fired_event : option string;
  rm_session_id : option string;
  rm_origin_session_id : option string;
  rm_cross_session : bool;
  rm_task_id : option string;
  rm_suspended_at : option Z;
}.
#[export] Instance ReminderRow_eta : Eta ReminderRow := λ r,
  mkReminderRow
    (rm_id r) (rm_supervisor_id r) (rm_message r) (rm_trigger_type r) (rm_trigger_at r)
    (rm_trigger_event r) (rm_trigger_filter r) (rm_status r) (rm_ttl_secs r) (rm_created_at r)
    (rm_fired_at r) (rm_cancelled_at r) (rm_target_id r) (rm_fired_event r) (rm_session_id r)
    (rm_origin_session_id r) (rm_cross_session r) (rm_task_id r) (rm_suspended_at r).
#[export] Instance ReminderRow_id : HasId ReminderRow := rm_id.

(** Table [spawn_queue]. *)
Record SpawnRow := mkSpawnRow {
  sw_id : Z;
  sw_action : string;
  sw_count : option Z;
  sw_worker_names : option string;
  sw_force : bool;
  sw_isolate : bool;
  sw_worker_spec : option string;
  sw_factory_session : option string;
  sw_task_id : option string;
  sw_requester_config_dir : option string;
  sw_requester_secure_storage_dir : option string;
  sw_created_at : Z;
  sw_processed_at : option Z;
  sw_spawn_state : option string;
  sw_spawn_worker : option string;
  sw_spawn_detail : option string;
  sw_spawn_state_at : option Z;
}.
#[export] Instance SpawnRow_eta : Eta SpawnRow := λ r,
  mkSpawnRow
    (sw_id r) (sw_action r) (sw_count r) (sw_worker_names r) (sw_force r) (sw_isolate r)
    (sw_worker_spec r) (sw_factory_session r) (sw_task_id r) (sw_requester_config_dir r)
    (sw_requester_secure_storage_dir r) (sw_created_at r) (sw_processed_at r) (sw_spawn_state r)
    (sw_spawn_worker r) (sw_spawn_detail r) (sw_spawn_state_at r).
#[export] Instance SpawnRow_id : HasId SpawnRow := sw_id.

(** The backlog of one worker ([WorkerTaskQueue] of worker_task_queue_store.rs), which
    serde writes and reads back. *)
Record WorkerTaskQueue := mkWorkerTaskQueue {
  tq_revision : Z;
  tq_current_task : option string;
  tq_current_started : bool;
  tq_pending : list string;
  tq_dispatch_from : option string;
  tq_starting : bool;
  tq_dispatch_revision : Z;
  tq_context_reset_from : option string;
  tq_context_reset_request : option Z;
  tq_notes : list string;
}.
#[export] Instance WorkerTaskQueue_eta : Eta WorkerTaskQueue := λ r,
  mkWorkerTaskQueue
    (tq_revision r) (tq_current_task r) (tq_current_started r) (tq_pending r) (tq_dispatch_from r)
    (tq_starting r) (tq_dispatch_revision r) (tq_context_reset_from r)
    (tq_context_reset_request r) (tq_notes r).

(** Tables [worker_task_queues], keyed by (factory_session, worker_name), and
    [spawn_task_queues], keyed by [request_id], whose [task_ids] is a JSON array. *)
Record WorkerQueueRow := mkWorkerQueueRow {
  wq_revision : Z;
  wq_state : WorkerTaskQueue;
}.
#[export] Instance WorkerQueueRow_eta : Eta WorkerQueueRow := λ r,
  mkWorkerQueueRow
    (wq_revision r) (wq_state r).

Record SpawnTasksRow := mkSpawnTasksRow {
  st_task_ids : list string;
  st_bound_worker : option string;
}.
#[export] Instance SpawnTasksRow_eta : Eta SpawnTasksRow := λ r,
  mkSpawnTasksRow
    (st_task_ids r) (st_bound_worker r).

(** Table [usage_limit_episodes], keyed by [episode]. *)
Record EpisodeRow := mkEpisodeRow {
  ep_detail : string;
  ep_request_id : option Z;
}.

(** The tables of spawn_queue_store.rs and worker_task_queue_store.rs *)
Record SpawnTables := mkSpawnTables {
  sp_queue : Log SpawnRow;
  sp_tasks : gmap Z SpawnTasksRow;
  sp_worker_queues : gmap (string * string) WorkerQueueRow;
  sp_episodes : gmap string EpisodeRow;
}.
#[export] Instance SpawnTables_eta : Eta SpawnTables := λ r,
  mkSpawnTables
    (sp_queue r) (sp_tasks r) (sp_worker_queues r) (sp_episodes r).

(** The evidence of one retirement ([SessionEnd] of continuity.rs), the [payload] column of [agent_session_ends]: serde writes it and reads it back. *)
Record SessionEnd := mkSessionEnd {
  se_id : string;
  se_agent_id : string;
  se_name : string;
  se_reason : string;
  se_registered_at : Z;
  se_factory_session : option string;
  se_pid : option Z;
  se_ppid : option Z;
  se_pid_starttime : option Z;
  se_parent_starttime : option Z;
  se_tasks : list json;
  se_workers : list json;
  se_pending : list json;
}.
#[export] Instance SessionEnd_eta : Eta SessionEnd := λ r,
  mkSessionEnd
    (se_id r) (se_agent_id r) (se_name r) (se_reason r) (se_registered_at r) (se_factory_session
    r) (se_pid r) (se_ppid r) (se_pid_starttime r) (se_parent_starttime r) (se_tasks r)
    (se_workers r) (se_pending r).

(** Table [agent_session_ends], keyed by its unique pair (agent_id, registered_at). *)
Record SessionEndRow := mkSessionEndRow {
  s_id : string;
  s_machine_id : option string;
  s_role : string;
  s_reason : string;
  s_payload : SessionEnd;
  s_ended_at : Z;
  s_claimed_by : option string;
  s_claimed_epoch : option Z;
  s_queued_at : option Z;
}.
#[export] Instance SessionEndRow_eta : Eta SessionEndRow := λ r,
  mkSessionEndRow
    (s_id r) (s_machine_id r) (s_role r) (s_reason r) (s_payload r) (s_ended_at r) (s_claimed_by
    r) (s_claimed_epoch r) (s_queued_at r).

(** Table [dependencies], keyed by the pair (from_id, to_id). *)
Record DepRow := mkDepRow {
  dp_dep_type : string;
  dp_created_at : Z;
  dp_created_by : option string;
}.
#[export] Instance DepRow_eta : Eta DepRow := λ r,
  mkDepRow
    (dp_dep_type r) (dp_created_at r) (dp_created_by r).

(** Table [external_task_dependencies], keyed by the pair (origin_task_id, proposal_id). *)
Record ExternalDepRow := mkExternalDepRow {
  xd_resolution_state : string;
  xd_suppressed_at : option Z;
}.
#[export] Instance ExternalDepRow_eta : Eta ExternalDepRow := λ r,
  mkExternalDepRow
    (xd_resolution_state r) (xd_suppressed_at r).

(** Table [task_mutation_revisions], keyed by [entity_id]. *)
Record RevisionRow := mkRevisionRow {
  rv_revision : Z;
  rv_present : bool;
}.
#[export] Instance RevisionRow_eta : Eta RevisionRow := λ r,
  mkRevisionRow
    (rv_revision r) (rv_present r).

(** Table [task_mutation_receipts], keyed by [receipt_id]. *)
Record ReceiptRow := mkReceiptRow {
  rc_entity_id : string;
  rc_revision : Z;
  rc_created_at : Z;
}.
#[export] Instance ReceiptRow_eta : Eta ReceiptRow := λ r,
  mkReceiptRow
    (rc_entity_id r) (rc_revision r) (rc_created_at r).

(** Table [task_execution_states], keyed by [task_id]; the state column is the text serde_json writes and reads. *)
Record ExecStateRow := mkExecStateRow {
  xs_state : json;
  xs_updated_at : Z;
}.
#[export] Instance ExecStateRow_eta : Eta ExecStateRow := λ r,
  mkExecStateRow
    (xs_state r) (xs_updated_at r).

(** ** The tables of the delivery store ([delivery_store.rs])

    [worker_completion_receipts] and [worker_delivery_transactions] keyed by id. *)
Record CompletionReceiptRow := mkCompletionReceiptRow {
  wr_task_id : string;
  wr_worker_agent_id : string;
  wr_worker_name : string;
  wr_repo_selector : string;
  wr_source_branch : string;
  wr_commit_sha : string;
  wr_merge_base_sha : string;
  wr_target_branch : string;
  wr_target_sha : string;
  wr_proof_reference : string;
  wr_scope_summary : string;
  wr_artifact_path : option string;
  wr_created_at : Z;
}.
#[export] Instance CompletionReceiptRow_eta : Eta CompletionReceiptRow := λ r,
  mkCompletionReceiptRow
    (wr_task_id r) (wr_worker_agent_id r) (wr_worker_name r) (wr_repo_selector r)
    (wr_source_branch r) (wr_commit_sha r) (wr_merge_base_sha r) (wr_target_branch r)
    (wr_target_sha r) (wr_proof_reference r) (wr_scope_summary r) (wr_artifact_path r)
    (wr_created_at r).

Record DeliveryTransactionRow := mkDeliveryTransactionRow {
  tx_receipt_id : string;
  tx_task_id : string;
  tx_state : string;
  tx_supervisor_agent_id : option string;
  tx_verification_id : option string;
  tx_merge_commit_sha : option string;
  tx_last_error_code : option string;
  tx_last_error_detail : option string;
  tx_created_at : Z;
  tx_updated_at : Z;
}.
#[export] Instance DeliveryTransactionRow_eta : Eta DeliveryTransactionRow := λ r,
  mkDeliveryTransactionRow
    (tx_receipt_id r) (tx_task_id r) (tx_state r) (tx_supervisor_agent_id r)
    (tx_verification_id r) (tx_merge_commit_sha r) (tx_last_error_code r)
    (tx_last_error_detail r) (tx_created_at r) (tx_updated_at r).

(** Table [worker_delivery_events], in the order of insertion *)
Record DeliveryEventRow := mkDeliveryEventRow {
  we_id : string;
  we_transaction_id : string;
  we_state : string;
  we_actor_agent_id : string;
  we_detail : option string;
  we_created_at : Z;
}.

(** Tables [observed_delivery_merges] and, without the merge commit,
    [pending_observed_delivery_merges], in the order of insertion *)
Record ObservedMergeRow := mkObservedMergeRow {
  om_task_id : string;
  om_source_branch : string;
  om_target_branch : string;
  om_source_commit_sha : string;
  om_merge_commit_sha : string;
  om_actor_agent_id : string;
  om_created_at : Z;
}.
Record PendingMergeRow := mkPendingMergeRow {
  pm_task_id : string;
  pm_source_branch : string;
  pm_target_branch : string;
  pm_source_commit_sha : string;
  pm_actor_agent_id : string;
  pm_created_at : Z;
}.

Record DeliveryTables := mkDeliveryTables {
  wd_receipts : gmap string CompletionReceiptRow;
  wd_transactions : gmap string DeliveryTransactionRow;
  wd_events : list DeliveryEventRow;
  wd_observed : list ObservedMergeRow;
  wd_pending : list PendingMergeRow;
}.
#[export] Instance DeliveryTables_eta : Eta DeliveryTables := λ r,
  mkDeliveryTables (wd_receipts r) (wd_transactions r) (wd_events r) (wd_observed r) (wd_pending r).

(** ** The tables of the verification store ([verification_store.rs])

    All but the issues are keyed by id ([verification_handoffs] by
    capability_id); [vt_issues] holds the issues of a verification in the order
    of their ids.  The columns [repository_proof] and [triage] hold the JSON of
    the values here; [vr_duration_ms] and [ir_line] are the stored i64 and i32. *)
Record DispatchRow := mkDispatchRow {
  ds_task_id : string;
  ds_receipt_id : option string;
  ds_delivery_transaction_id : option string;
  ds_repository_proof : option RepositoryProofBoundary;
  ds_requester_agent_id : string;
  ds_owner_agent_id : string;
  ds_verifier_agent_id : option string;
  ds_capability_id : option string;
  ds_state : string;
  ds_requested_at : Z;
  ds_deadline_at : Z;
  ds_resolved_at : option Z;
  ds_recovery_action : string;
}.
#[export] Instance DispatchRow_eta : Eta DispatchRow := λ r,
  mkDispatchRow
    (ds_task_id r) (ds_receipt_id r) (ds_delivery_transaction_id r) (ds_repository_proof r)
    (ds_requester_agent_id r) (ds_owner_agent_id r) (ds_verifier_agent_id r) (ds_capability_id r)
    (ds_state r) (ds_requested_at r) (ds_deadline_at r) (ds_resolved_at r) (ds_recovery_action r).

Record CapabilityRow := mkCapabilityRow {
  cp_task_id : string;
  cp_dispatch_id : option string;
  cp_issuer_agent_id : string;
  cp_verifier_agent_id : option string;
  cp_token_hash : string;
  cp_issued_at : Z;
  cp_expires_at : Z;
  cp_bound_at : option Z;
  cp_consumed_at : option Z;
}.
#[export] Instance CapabilityRow_eta : Eta CapabilityRow := λ r,
  mkCapabilityRow
    (cp_task_id r) (cp_dispatch_id r) (cp_issuer_agent_id r) (cp_verifier_agent_id r)
    (cp_token_hash r) (cp_issued_at r) (cp_expires_at r) (cp_bound_at r) (cp_consumed_at r).

Record HandoffRow := mkHandoffRow {
  hf_issuer_agent_id : string;
  hf_verifier_agent_id : option string;
  hf_tool_use_id_hash : string;
  hf_state : string;
  hf_created_at : Z;
  hf_bound_at : option Z;
  hf_consumed_at : option Z;
}.
#[export] Instance HandoffRow_eta : Eta HandoffRow := λ r,
  mkHandoffRow
    (hf_issuer_agent_id r) (hf_verifier_agent_id r) (hf_tool_use_id_hash r) (hf_state r)
    (hf_created_at r) (hf_bound_at r) (hf_consumed_at r).

Record VerificationRow := mkVerificationRow {
  vr_task_id : string;
  vr_agent_id : option string;
  vr_verification_type : string;
  vr_provenance : string;
  vr_capability_id : option string;
  vr_dispatch_id : option string;
  vr_issuer_agent_id : option string;
  vr_status : string;
  vr_status_detail : option string;
  vr_confidence : option string;
  vr_summary : string;
  vr_files_reviewed : list string;
  vr_duration_ms : option Z;
  vr_duration_source : option string;
  vr_created_at : Z;
}.
#[export] Instance VerificationRow_eta : Eta VerificationRow := λ r,
  mkVerificationRow
    (vr_task_id r) (vr_agent_id r) (vr_verification_type r) (vr_provenance r)
    (vr_capability_id r) (vr_dispatch_id r) (vr_issuer_agent_id r) (vr_status r)
    (vr_status_detail r) (vr_confidence r) (vr_summary r) (vr_files_reviewed r)
    (vr_duration_ms r) (vr_duration_source r) (vr_created_at r).

Record IssueRow := mkIssueRow {
  ir_file : string;
  ir_line : option Z;
  ir_severity : string;
  ir_category : string;
  ir_code : string;
  ir_problem : string;
  ir_suggestion : option string;
  ir_triage : FindingTriage;
}.

Record VerificationTables := mkVerificationTables {
  vt_verifications : gmap string VerificationRow;
  vt_issues : gmap string (list IssueRow);
  vt_capabilities : gmap string CapabilityRow;
  vt_handoffs : gmap string HandoffRow;
  vt_dispatches : gmap string DispatchRow;
}.
#[export] Instance VerificationTables_eta : Eta VerificationTables := λ r,
  mkVerificationTables
    (vt_verifications r) (vt_issues r) (vt_capabilities r) (vt_handoffs r) (vt_dispatches r).

(** ** The database

    [db_qa_sync] is the table [qa_pass_sync_versions], from the id of a round
    to its [changed_at]. *)
Record Db := mkDb {
  db_agents : gmap string AgentRow;
  db_task_leases : gmap string LeaseRow;
  db_history : list HistoryRow;
  db_history_seq : Z;
  db_worktree_leases : gmap string WorktreeLeaseRow;
  db_worktrees : gmap string WorktreeRow;
  db_working_epics : gmap (string * string) Z;
  db_daemons : gmap string DaemonRow;
  db_qa_passes : gmap string QaPassRow;
  db_session_ends : gmap (string * Z) SessionEndRow;
  db_tasks : gmap string Task;
  db_prompts : Log PromptRow;
  db_supervisor_queue : Log SupervisorRow;
  db_reminders : Log ReminderRow;
  db_events : list EventRow;
  db_events_seq : Z;
  db_dependencies : gmap (string * string) DepRow;
  db_external_deps : gmap (string * string) ExternalDepRow;
  db_revisions : gmap string RevisionRow;
  db_receipts : gmap string ReceiptRow;
  db_exec_states : gmap string ExecStateRow;
  db_qa_sync : gmap string Z;
  db_delivery : DeliveryTables;
  db_verification : VerificationTables;
  db_spawns : SpawnTables;
  db_prompt_receipts : PromptReceipts;
  db_operator : OperatorTables;
}.
#[export] Instance Db_eta : Eta Db := λ r,
  mkDb
    (db_agents r) (db_task_leases r) (db_history r) (db_history_seq r) (db_worktree_leases r)
    (db_worktrees r) (db_working_epics r) (db_daemons r) (db_qa_passes r) (db_session_ends r)
    (db_tasks r) (db_prompts r) (db_supervisor_queue r) (db_reminders r) (db_events r)
    (db_events_seq r) (db_dependencies r) (db_external_deps r) (db_revisions r) (db_receipts r)
    (db_exec_states r) (db_qa_sync r) (db_delivery r) (db_verification r)
    (db_spawns r) (db_prompt_receipts r) (db_operator r).

Definition empty_db : Db := mkDb ∅ ∅ [] 0 ∅ ∅ ∅ ∅ ∅ ∅ ∅ empty_log empty_log empty_log [] 0
  ∅ ∅ ∅ ∅ ∅ ∅ (mkDeliveryTables ∅ ∅ [] [] []) (mkVerificationTables ∅ ∅ ∅ ∅ ∅)
  (mkSpawnTables empty_log ∅ ∅ ∅) (mkPromptReceipts ∅ ∅ ∅ [] ∅)
  (mkOperatorTables None [] ∅).

(** ** Foreign keys

    [PRAGMA foreign_keys = ON] ([shared_db.rs]): a lease row names an existing
    agent.  A statement that writes another [agent_id] fails; deleting an
    agent deletes its task and worktree lease rows (ON DELETE CASCADE). *)
Definition fk_error : StoreError := Database "FOREIGN KEY constraint failed".

Definition agent_exists (db : Db) (agent_id : string) : bool :=
  bool_decide (is_Some (db_agents db !! agent_id)).

Definition check_fk (db : Db) (agent_id : string) : result unit :=
  if agent_exists db agent_id then Ok tt else Err fk_error.

(** INSERT or UPDATE of the [agent_id] of a task lease *)
Definition put_task_lease (task_id : string) (row : LeaseRow) (db : Db) : result Db :=
  check_fk db (l_agent_id row) ≫= λ _, Ok (db <| db_task_leases ::= <[task_id := row]> |>).

Definition put_worktree_lease (worktree_id : string) (row : WorktreeLeaseRow) (db : Db)
    : result Db :=
  check_fk db (w_agent_id row) ≫= λ _,
  Ok (db <| db_worktree_leases ::= <[worktree_id := row]> |>).

(** DELETE FROM agents WHERE id = ? *)
Definition delete_agent (id : string) (db : Db) : Db :=
  db <| db_agents ::= delete id |>
     <| db_task_leases ::= sql_delete (λ _ r, String.eqb (l_agent_id r) id) |>
     <| db_worktree_leases ::= sql_delete (λ _ r, String.eqb (w_agent_id r) id) |>.

(** UPDATE agents SET ... WHERE id = ? *)
Definition update_agent (id : string) (f : AgentRow → AgentRow) (db : Db) : Db :=
  db <| db_agents ::= sql_update_key id f |>.

(** UPDATE task_leases SET ... WHERE P, for an update that keeps [agent_id] *)
Definition update_leases (P : string → LeaseRow → bool) (f : LeaseRow → LeaseRow) (db : Db) : Db :=
  db <| db_task_leases ::= sql_update P f |>.

Definition update_worktree_leases (P : string → WorktreeLeaseRow → bool)
    (f : WorktreeLeaseRow → WorktreeLeaseRow) (db : Db) : Db :=
  db <| db_worktree_leases ::= sql_update P f |>.

(** [record_event_with_conn] (event_store.rs) of [Event::new(..)] with its
    optional metadata and session; the store assigns the id. *)
Definition record_event (now : Z) (event_type : EventType) (entity_type : EventEntityType)
    (entity_id summary : string) (metadata : option json) (session_id : option string)
    (db : Db) : Db :=
  let id := db_events_seq db + 1 in
  db <| db_events_seq := id |>
     <| db_events ::= λ l, l ++
          [{| ev_id := id; ev_event_type := EventType_to_string event_type;
              ev_entity_type := EventEntityType_to_string entity_type;
              ev_entity_id := entity_id; ev_summary := summary; ev_metadata := metadata;
              ev_created_at := now; ev_session_id := session_id |}] |>.

(** [status IN ('active', 'idle')] *)
Definition status_live (status : string) : bool :=
  String.eqb status "active" || String.eqb status "idle".

(** ** Well-formedness: the constraints SQLite enforces *)
Record db_wf (db : Db) : Prop := mk_db_wf {
  wf_lease_agents : map_Forall (λ _ r, is_Some (db_agents db !! l_agent_id r))
                               (db_task_leases db);
  wf_worktree_agents : map_Forall (λ _ r, is_Some (db_agents db !! w_agent_id r))
                                  (db_worktree_leases db);
}.

Lemma empty_db_wf : db_wf empty_db.
Proof. split; apply map_Forall_empty. Qed.
