(* ===== verification/NoteMarkers.v ===== *)
(** * Reserved lines of the task timeline ([crates/cas-store/src/task_note_markers.rs])

    Notes are untrusted text in which some lines carry meaning: proof lines
    and the delimiters of provenance blocks.  An untrusted write defuses the
    ones that were not there before ([neutralize_new_markers]); the trusted
    append upgrades a raw artifact note or replaces rendered provenance.
    Byte offsets are naturals; texts are their UTF-8 bytes. *)

From S2P Require Import Prelude Texts Enums TaskTypes Db.

(** ** Lines *)
Definition newline : ascii := "010".
Definition carriage_return : ascii := "013".
Definition nl : string := String newline EmptyString.
Definition nlnl : string := String newline nl.

(** [str::split_inclusive('\n')]: every piece but the last ends in a newline,
    and no piece is empty. *)
Fixpoint split_inclusive (s : string) : list string :=
  match s with
  | EmptyString => []
  | String c s' =>
      if Ascii.eqb c newline then String c EmptyString :: split_inclusive s'
      else match split_inclusive s' with
           | piece :: rest => String c piece :: rest
           | [] => [String c EmptyString]
           end
  end.

(** [trim_end_matches] of a set of characters *)
Fixpoint trim_end_matches (p : ascii → bool) (s : string) : string :=
  match s with
  | EmptyString => EmptyString
  | String c s' =>
      match trim_end_matches p s' with
      | EmptyString => if p c then EmptyString else String c EmptyString
      | t => String c t
      end
  end.

Definition is_newline (c : ascii) : bool := Ascii.eqb c newline.
Definition is_eol (c : ascii) : bool := Ascii.eqb c newline || Ascii.eqb c carriage_return.
(** [line.trim_end_matches(['\n', '\r'])] *)
Definition line_text (line : string) : string := trim_end_matches is_eol line.

(** [str::strip_suffix] *)
Definition strip_suffix (p s : string) : option string :=
  String.rev <$> strip_prefix (String.rev p) (String.rev s).

(** [str::lines]: the pieces without their newline, or carriage return and
    newline *)
Definition strip_line_end (line : string) : string :=
  match strip_suffix nl line with
  | Some l => default l (strip_suffix (String carriage_return EmptyString) l)
  | None => line
  end.
Definition lines (s : string) : list string := strip_line_end <$> split_inclusive s.

(** [&s[start..end]] *)
Definition slice (start stop : nat) (s : string) : string :=
  String.substring start (stop - start) s.
Definition slice_from (start : nat) (s : string) : string := drop_bytes start s.

(** ** Markers *)
Definition PROVENANCE_BLOCKS : list (string * string) :=
  [("--- BEGIN SERVER-ATTESTED PROPOSAL PROVENANCE ---",
    "--- END SERVER-ATTESTED PROPOSAL PROVENANCE ---");
   ("--- BEGIN CLIENT-ASSERTED PROPOSAL PROVENANCE ---",
    "--- END CLIENT-ASSERTED PROPOSAL PROVENANCE ---")].

Definition is_proof_line (line : string) : bool :=
  starts_with "ARTIFACT_PROOF:" line || starts_with "QA_PASS_PROOF:" line
  || starts_with "QA_EVIDENCE_PROOF:" line || starts_with "QA_BATCH_RECEIPT_PROOF:" line
  || starts_with "RELEASE_VERDICT_PROOF:" line || starts_with "FAST_LANE_PROOF:" line.

Definition is_reserved_line (line : string) : bool :=
  is_proof_line line
  || existsb (λ b, starts_with b.1 line || starts_with b.2 line) PROVENANCE_BLOCKS.

(** The suffixes of a text that start a line *)
Fixpoint after_newlines (s : string) : list string :=
  match s with
  | EmptyString => []
  | String c s' => if Ascii.eqb c newline then s' :: after_newlines s' else after_newlines s'
  end.

(** [text] occurs in [notes], delimited by line boundaries. *)
Definition contains_complete_lines (notes text : string) : bool :=
  existsb (λ s, match strip_prefix text s with
                | Some rest => str_is_empty rest || starts_with nl rest
                | None => false
                end) (notes :: after_newlines notes).

(** The byte ranges of closed provenance blocks: [open] is the start of the
    block being read and the line that closes it. *)
Fixpoint provenance_blocks_from (offset : nat) (open : option (nat * string)) (ls : list string)
    : list (nat * nat) :=
  match ls with
  | [] => []
  | line :: rest =>
      let text := line_text line in
      let offset' := (offset + String.length line)%nat in
      match snd <$> list_find (λ b : string * string, b.1 = text) PROVENANCE_BLOCKS with
      | Some (_, stop) => provenance_blocks_from offset' (Some (offset, stop)) rest
      | None =>
          match open with
          | Some (start, stop) =>
              if String.eqb text stop
              then (start, (offset + String.length (trim_end_matches is_newline line))%nat)
                     :: provenance_blocks_from offset' None rest
              else if is_reserved_line text then provenance_blocks_from offset' None rest
              else provenance_blocks_from offset' open rest
          | None => provenance_blocks_from offset' open rest
          end
      end
  end.

Definition provenance_blocks (notes : string) : list (nat * nat) :=
  provenance_blocks_from 0 None (split_inclusive notes).

(** ** Defusing *)
Definition prior_markers (previous : option string) : list string :=
  match previous with
  | Some prior => filter (λ l, is_proof_line l = true) (lines prior)
  | None => []
  end.

Definition preserved_blocks (notes : string) (previous : option string) : list (nat * nat) :=
  filter (λ r, match previous with
               | Some prior => contains_complete_lines prior (slice r.1 r.2 notes)
               | None => false
               end = true) (provenance_blocks notes).

Definition in_range (offset : nat) (r : nat * nat) : bool :=
  ((r.1 <=? offset) && (offset <? r.2))%nat.

(** A line that gets the defusing space *)
Definition defused (prior : list string) (preserved : list (nat * nat)) (offset : nat)
    (line : string) : bool :=
  let text := line_text line in
  is_reserved_line text && negb (bool_decide (text ∈ prior))
  && negb (existsb (in_range offset) preserved).

Fixpoint neutralize_lines (prior : list string) (preserved : list (nat * nat)) (offset : nat)
    (ls : list string) : list string :=
  match ls with
  | [] => []
  | line :: rest =>
      (if defused prior preserved offset line then String " " line else line)
        :: neutralize_lines prior preserved (offset + String.length line) rest
  end.

Definition concat_text (ls : list string) : string := foldr String.append EmptyString ls.

Definition neutralize_new_markers (notes : string) (previous : option string) : string :=
  concat_text
    (neutralize_lines (prior_markers previous) (preserved_blocks notes previous) 0
       (split_inclusive notes)).

(** ** The trusted append *)
Section trusted.
Context {host : Host}.

Definition is_timestamped_note (text : string) : bool :=
  starts_with "[" text && String.eqb (String.substring 17 1 text) "]"
  && is_note_timestamp (String.substring 1 16 text).

(** [match_indices] of an empty line *)
Fixpoint blank_lines (offset : nat) (s : string) : list nat :=
  match s with
  | EmptyString => []
  | String a s' =>
      match s' with
      | String b s'' =>
          if Ascii.eqb a newline && Ascii.eqb b newline
          then offset :: blank_lines (offset + 2) s''
          else blank_lines (S offset) s'
      | EmptyString => []
      end
  end.

(** The range of [notes[start..stop].trim()] *)
Definition trimmed_range (notes : string) (start stop : nat) : nat * nat :=
  let raw := slice start stop notes in
  let skipped := (String.length raw - String.length (trim_start raw))%nat in
  ((start + skipped)%nat, (start + skipped + String.length (trim raw))%nat).

(** A paragraph boundary that also separates notes *)
Definition note_boundary (notes : string) (start offset : nat) : bool :=
  let next := slice_from (offset + 2) notes in
  is_timestamped_note next
  || match head (lines next) with Some l => is_proof_line l | None => false end
  || existsb (λ b, starts_with b.1 next) PROVENANCE_BLOCKS
  || negb (is_timestamped_note (trim (slice start offset notes))).

Fixpoint note_ranges_from (notes : string) (start : nat) (offsets : list nat)
    : list (nat * nat) :=
  match offsets with
  | [] => [trimmed_range notes start (String.length notes)]
  | offset :: rest =>
      if note_boundary notes start offset
      then trimmed_range notes start offset :: note_ranges_from notes (offset + 2) rest
      else note_ranges_from notes start rest
  end.

(** The notes of a timeline, as ranges of its text *)
Definition note_blocks (notes : string) : list (nat * nat) :=
  filter (λ r, r.1 ≠ r.2) (note_ranges_from notes 0 (blank_lines 0 notes)).

Definition replace_range (start stop : nat) (by_ s : string) : string :=
  slice 0 start s +:+ by_ +:+ slice_from stop s.

(** One raw copy, from the last to the first: the first one met becomes the
    enriched receipt unless it is there already, the others go. *)
Definition replace_copy (receipt : string) (acc : string * bool) (r : nat * nat) : string * bool :=
  let '(next, enriched) := acc in
  if enriched
  then
    let '(start, stop) :=
      if starts_with nlnl (slice_from r.2 next) then (r.1, (r.2 + 2)%nat)
      else if (2 <=? r.1)%nat then ((r.1 - 2)%nat, r.2) else r in
    (replace_range start stop EmptyString next, enriched)
  else (replace_range r.1 r.2 receipt next, true).

Definition replace_raw_artifact_note (notes receipt : string) : option string :=
  if negb (is_timestamped_note receipt)
     || negb (existsb (starts_with "ARTIFACT_PROOF:") (lines receipt))
  then None
  else
    let raw := String.concat nl (filter (λ l, starts_with "ARTIFACT_PROOF:" l = false) (lines receipt)) in
    let blocks := note_blocks notes in
    let copies := filter (λ r, slice r.1 r.2 notes = raw) blocks in
    if bool_decide (copies = []) then None
    else Some (foldl (replace_copy receipt)
                 (notes, existsb (λ r, String.eqb (slice r.1 r.2 notes) receipt) blocks)
                 (reverse copies)).1.

(** [str::split] at an empty line *)
Fixpoint split_paragraphs (s : string) : list string :=
  match s with
  | EmptyString => [EmptyString]
  | String a s' =>
      match s' with
      | String b s'' =>
          if Ascii.eqb a newline && Ascii.eqb b newline
          then EmptyString :: split_paragraphs s''
          else match split_paragraphs s' with
               | p :: rest => String a p :: rest
               | [] => [String a EmptyString]
               end
      | EmptyString => [String a EmptyString]
      end
  end.

Definition is_rendered_provenance (paragraph : string) : bool :=
  let paragraph := trim paragraph in
  existsb (λ b, starts_with b.1 paragraph && ends_with b.2 paragraph) PROVENANCE_BLOCKS.

Definition replace_rendered_provenance (notes rendered : string) : string :=
  let retained := String.concat nlnl
    (filter (λ p, is_rendered_provenance p = false) (split_paragraphs notes)) in
  if str_is_empty (trim retained) then rendered
  else trim_end retained +:+ nlnl +:+ rendered.

End trusted.

(** ** Lemmas *)

Fixpoint newline_free (s : string) : bool :=
  match s with
  | EmptyString => true
  | String c s' => negb (Ascii.eqb c newline) && newline_free s'
  end.

(** What [split_inclusive] returns *)
Inductive lines_ok : list string → Prop :=
  | lines_nil : lines_ok []
  | lines_last body : newline_free body = true → body ≠ EmptyString → lines_ok [body]
  | lines_cons body rest :
      newline_free body = true → lines_ok rest → lines_ok ((body +:+ nl) :: rest).

Lemma split_inclusive_line body rest :
  newline_free body = true →
  split_inclusive (body +:+ String newline rest) = (body +:+ nl) :: split_inclusive rest.
Proof.
  induction body as [|c body IH]; simpl; [done|].
  intros [Hc Hb]%andb_true_iff. rewrite (negb_true_iff _) in Hc. by rewrite Hc, IH.
Qed.

Lemma split_inclusive_last body :
  newline_free body = true → body ≠ EmptyString → split_inclusive body = [body].
Proof.
  induction body as [|c body IH]; simpl; [done|].
  intros [Hc Hb]%andb_true_iff _. rewrite (negb_true_iff _) in Hc. rewrite Hc.
  destruct body; [done|]. by rewrite IH.
Qed.

Lemma split_inclusive_ok s : lines_ok (split_inclusive s).
Proof.
  induction s as [|c s IH]; simpl; [constructor|].
  destruct (Ascii.eqb c newline) eqn:Hc.
  - apply Ascii.eqb_eq in Hc as ->. by apply (lines_cons EmptyString).
  - inversion IH as [|body Hb Hne Heq|body rest Hb Hrest Heq].
    + apply lines_last; [|done]. simpl. by rewrite Hc.
    + apply (lines_last (String c body)); [|done]. simpl. by rewrite Hc.
    + apply (lines_cons (String c body)); [|done]. simpl. by rewrite Hc.
Qed.

Lemma split_inclusive_concat ls : lines_ok ls → split_inclusive (concat_text ls) = ls.
Proof.
  induction 1 as [|body Hb Hne|body rest Hb _ IH]; [done| |].
  - change (concat_text [body]) with (body +:+ EmptyString). rewrite string_app_nil.
    by apply split_inclusive_last.
  - change (concat_text ((body +:+ nl) :: rest)) with ((body +:+ nl) +:+ concat_text rest).
    rewrite string_app_assoc.
    change (nl +:+ concat_text rest) with (String newline (concat_text rest)).
    by rewrite split_inclusive_line, IH.
Qed.

Lemma concat_split_inclusive s : concat_text (split_inclusive s) = s.
Proof.
  induction s as [|c s IH]; simpl; [done|]. destruct (Ascii.eqb c newline).
  - exact (f_equal (String c) IH).
  - destruct (split_inclusive s); [by rewrite <-IH|exact (f_equal (String c) IH)].
Qed.

Lemma neutralize_lines_ok prior preserved ls : ∀ offset,
  lines_ok ls → lines_ok (neutralize_lines prior preserved offset ls).
Proof.
  intros offset Hls. revert offset.
  induction Hls as [|body Hb Hne|body rest Hb _ IH]; intros offset; simpl; [constructor| |].
  - destruct (defused _ _ _ _); [|by apply lines_last]. by apply (lines_last (String " " body)).
  - destruct (defused _ _ _ _); [|by apply lines_cons].
    by apply (lines_cons (String " " body)).
Qed.

Lemma neutralize_split notes previous :
  split_inclusive (neutralize_new_markers notes previous) =
  neutralize_lines (prior_markers previous) (preserved_blocks notes previous) 0 (split_inclusive notes).
Proof. apply split_inclusive_concat, neutralize_lines_ok, split_inclusive_ok. Qed.

(** The byte offset of a line *)
Definition line_offset (ls : list string) (i : nat) : nat := String.length (concat_text (take i ls)).

Lemma neutralize_lines_lookup prior preserved ls : ∀ offset i,
  neutralize_lines prior preserved offset ls !! i =
  (λ line, if defused prior preserved (offset + line_offset ls i) line
           then String " " line else line) <$> ls !! i.
Proof.
  induction ls as [|line ls IH]; intros offset [|i]; simpl; [done..| |].
  - unfold line_offset. simpl. by rewrite Nat.add_0_r.
  - rewrite IH. unfold line_offset. simpl. rewrite string_length_app.
    by rewrite Nat.add_assoc.
Qed.

Lemma line_text_space line : line_text (String " " line) = String " " (line_text line).
Proof. unfold line_text. simpl. by destruct (trim_end_matches is_eol line). Qed.

Lemma space_not_reserved text : is_reserved_line (String " " text) = false.
Proof. done. Qed.

(** The test of the scan at line [i]; [NoteMarkersSpec] says what it means. *)
Definition marker_allowed (notes : string) (previous : option string) (i : nat) (line : string)
    : Prop :=
  line_text line ∈ prior_markers previous
  ∨ ∃ r, r ∈ preserved_blocks notes previous ∧
         in_range (line_offset (split_inclusive notes) i) r = true.

Lemma neutralize_lookup notes previous i line' :
  split_inclusive (neutralize_new_markers notes previous) !! i = Some line' →
  ∃ line, split_inclusive notes !! i = Some line ∧
    ((line' = line ∧ (is_reserved_line (line_text line) = true → marker_allowed notes previous i line))
     ∨ (line' = String " " line ∧ is_reserved_line (line_text line) = true
        ∧ ¬ marker_allowed notes previous i line)).
Proof.
  rewrite neutralize_split, neutralize_lines_lookup. intros (line & Hline & ->)%fmap_Some_1.
  exists line. split; [done|]. simpl.
  set (off := line_offset (split_inclusive notes) i).
  unfold defused. fold off.
  assert (existsb (in_range off) (preserved_blocks notes previous) = true ↔
    ∃ r, r ∈ preserved_blocks notes previous ∧ in_range off r = true) as Hex.
  { rewrite existsb_exists. split; intros (r & Hr & Hin); exists r; (split; [|done]);
      by apply list_elem_of_In. }
  unfold marker_allowed. fold off.
  destruct (is_reserved_line (line_text line)); simpl; [|by left].
  case_bool_decide as Hprior; simpl; [left; by auto|].
  destruct (existsb _ _); simpl.
  - left. split; [done|]. intros _. right. by apply Hex.
  - right. split_and!; [done..|]. intros [?|Hr]; [done|]. apply Hex in Hr. done.
Qed.

(** ** Appending *)

(** [CASE WHEN notes = '' THEN ?1 ELSE notes || char(10) || char(10) || ?1 END] *)
Definition append_text (notes note : string) : string :=
  if str_is_empty notes then note else notes +:+ nlnl +:+ note.

(** The reserved lines of a text, in order *)
Definition reserved_lines (s : string) : list string :=
  filter (λ t, is_reserved_line t = true) (line_text <$> split_inclusive s).

Lemma trim_end_matches_last p s c :
  p c = true → trim_end_matches p (s +:+ String c EmptyString) = trim_end_matches p s.
Proof.
  intros Hp. induction s as [|x s IH]; simpl; [by rewrite Hp|].
  change (String.append s (String c EmptyString)) with (s +:+ String c EmptyString).
  by rewrite IH.
Qed.

Lemma line_text_newline body : line_text (body +:+ nl) = line_text body.
Proof. by apply trim_end_matches_last. Qed.

Lemma reserved_lines_cons l ls :
  filter (λ t, is_reserved_line t = true) (line_text <$> l :: ls)
  = filter (λ t, is_reserved_line t = true) (line_text <$> [l])
    ++ filter (λ t, is_reserved_line t = true) (line_text <$> ls).
Proof. rewrite <-filter_app. done. Qed.

Lemma reserved_lines_newline a b :
  reserved_lines (a +:+ String newline b) = reserved_lines a ++ reserved_lines b.
Proof.
  unfold reserved_lines. rewrite <-(concat_split_inclusive a) at 1.
  pose proof (split_inclusive_ok a) as Hok.
  induction Hok as [|body Hb Hne|body rest Hb Hrest IH].
  - change (split_inclusive (concat_text [] +:+ String newline b)) with (nl :: split_inclusive b).
    by rewrite reserved_lines_cons.
  - change (concat_text [body]) with (body +:+ EmptyString). rewrite string_app_nil.
    rewrite split_inclusive_line by done. rewrite reserved_lines_cons. f_equal.
    change (line_text <$> [body +:+ nl]) with [line_text (body +:+ nl)].
    by rewrite line_text_newline.
  - change (concat_text ((body +:+ nl) :: rest)) with ((body +:+ nl) +:+ concat_text rest).
    rewrite !string_app_assoc.
    change (nl +:+ concat_text rest +:+ String newline b)
      with (String newline (concat_text rest +:+ String newline b)).
    rewrite split_inclusive_line by done.
    rewrite reserved_lines_cons, IH, (reserved_lines_cons (body +:+ nl) rest).
    by rewrite app_assoc.
Qed.

Lemma reserved_lines_append notes note :
  reserved_lines (append_text notes note) = reserved_lines notes ++ reserved_lines note.
Proof.
  unfold append_text, str_is_empty. destruct (String.eqb_spec notes EmptyString) as [->|]; [done|].
  change (nlnl +:+ note) with (String newline (String newline note)).
  by rewrite reserved_lines_newline.
Qed.

Lemma reserved_lines_neutralized notes :
  reserved_lines (neutralize_new_markers notes None) = [].
Proof.
  apply elem_of_nil_inv. intros t [Hr Ht]%list_elem_of_filter.
  apply list_elem_of_fmap in Ht as (line' & -> & Hin).
  apply list_elem_of_lookup_1 in Hin as [i Hi].
  apply neutralize_lookup in Hi as (line & _ & [[-> H]|(-> & _)]);
    [|by rewrite line_text_space in Hr].
  destruct (H Hr) as [Hin|(r & Hin & _)]; [by apply elem_of_nil in Hin|].
  unfold preserved_blocks in Hin. by apply list_elem_of_filter in Hin as [[=] _].
Qed.
