(* ===== verification/NoteMarkersSpec.v ===== *)
(** * What defusing a note promises

    Which lines of a text carry meaning is said here by literals, and which of
    them the previous notes vouch for by the lines of the two texts, so that the
    functions of [NoteMarkers] that scan byte ranges are characterized rather than
    repeated. *)

From S2P Require Import Prelude Texts VerifierText NoteMarkers.

(** ** Markers *)
Definition PROOF_MARKERS : list string :=
  ["ARTIFACT_PROOF:"; "QA_PASS_PROOF:"; "QA_EVIDENCE_PROOF:"; "QA_BATCH_RECEIPT_PROOF:";
   "RELEASE_VERDICT_PROOF:"; "FAST_LANE_PROOF:"].
Definition DELIMITERS : list (string * string) :=
  [("--- BEGIN SERVER-ATTESTED PROPOSAL PROVENANCE ---", "--- END SERVER-ATTESTED PROPOSAL PROVENANCE ---");
   ("--- BEGIN CLIENT-ASSERTED PROPOSAL PROVENANCE ---", "--- END CLIENT-ASSERTED PROPOSAL PROVENANCE ---")].
(** The text of a line reads as a proof, or as a proof or provenance delimiter. *)
Definition reads_as_proof (text : string) : Prop :=
  ∃ marker rest, marker ∈ PROOF_MARKERS ∧ text = marker +:+ rest.
Definition reads_as_marker (text : string) : Prop :=
  reads_as_proof text
  ∨ ∃ b rest, b ∈ DELIMITERS ∧ (text = b.1 +:+ rest ∨ text = b.2 +:+ rest).

Lemma is_proof_line_true text : is_proof_line text = true ↔ reads_as_proof text.
Proof.
  unfold is_proof_line, reads_as_proof, PROOF_MARKERS. rewrite !orb_true_iff, !starts_with_true.
  split; [intros [[[[[[r ->]|[r ->]]|[r ->]]|[r ->]]|[r ->]]|[r ->]]; eexists _, r; (split; [|done]); set_solver|].
  intros (m & r & Hm & ->). rewrite !elem_of_cons in Hm. destruct_or? Hm; subst; [eauto 8..|by apply elem_of_nil in Hm].
Qed.
Lemma is_reserved_line_true text : is_reserved_line text = true ↔ reads_as_marker text.
Proof.
  unfold is_reserved_line, reads_as_marker. rewrite orb_true_iff, is_proof_line_true, existsb_exists.
  apply or_iff_compat_l. change PROVENANCE_BLOCKS with DELIMITERS. split.
  - intros (b & Hb%list_elem_of_In & Hs). rewrite orb_true_iff, !starts_with_true in Hs.
    destruct Hs as [[r ->]|[r ->]]; eauto.
  - intros (b & r & Hb%list_elem_of_In & Hs). exists b. split; [done|].
    rewrite orb_true_iff, !starts_with_true. destruct Hs as [->| ->]; eauto.
Qed.

(** ** Lines of a text *)

(** [block] stands in [text] between line boundaries. *)
Definition stands_in (block text : string) : Prop :=
  ∃ before after, text = before +:+ block +:+ after
    ∧ (before = EmptyString ∨ ∃ b, before = b +:+ nl) ∧ (after = EmptyString ∨ ∃ a, after = nl +:+ a).

Lemma elem_of_after_newlines s t : s ∈ after_newlines t ↔ ∃ p, t = p +:+ nl +:+ s.
Proof.
  induction t as [|c t IH]; cbn [after_newlines].
  { rewrite elem_of_nil. split; [done|]. by intros ([|] & ?). }
  assert ((∃ p, String c t = p +:+ nl +:+ s) ↔ (c = newline ∧ s = t) ∨ ∃ p, t = p +:+ nl +:+ s) as ->.
  { split.
    - intros ([|x p] & H); [left; by injection H as -> ->|right; injection H as -> ->; by exists p].
    - intros [[-> ->]|[p ->]]; [by exists EmptyString|by exists (String c p)]. }
  destruct (Ascii.eqb_spec c newline) as [->|Hne]; rewrite ?elem_of_cons, IH; naive_solver.
Qed.
Lemma contains_complete_lines_true prior block :
  contains_complete_lines prior block = true ↔ stands_in block prior.
Proof.
  assert (∀ s, match strip_prefix block s with
                | Some rest => str_is_empty rest || starts_with nl rest | None => false end = true
    ↔ ∃ after, s = block +:+ after ∧ (after = EmptyString ∨ ∃ a, after = nl +:+ a)) as Hs.
  { intros s. destruct (strip_prefix block s) as [rest|] eqn:Hp.
    - apply strip_prefix_Some in Hp as ->. unfold str_is_empty. rewrite orb_true_iff, String.eqb_eq, starts_with_true.
      split; [intros ?; by exists rest|]. intros (after & Heq & Ha).
      by apply string_app_inj_length in Heq as [_ ->].
    - split; [done|]. intros (after & Heq%strip_prefix_Some & _). congruence. }
  unfold contains_complete_lines, stands_in. rewrite existsb_exists. split.
  - intros (s & Hin%list_elem_of_In & Hm%Hs). destruct Hm as (after & -> & Ha).
    apply elem_of_cons in Hin as [<-|Hin]; [exists EmptyString, after; auto|].
    apply elem_of_after_newlines in Hin as [p ->]. exists (p +:+ nl), after.
    split_and!; [by rewrite string_app_assoc|right; by exists p|done].
  - intros (before & after & -> & Hb & Ha). exists (block +:+ after). split; [|apply Hs; by exists after].
    apply list_elem_of_In. destruct Hb as [->|[b ->]]; [by left|]. right. apply elem_of_after_newlines.
    exists b. by rewrite string_app_assoc.
Qed.

Lemma concat_text_app l k : concat_text (l ++ k) = concat_text l +:+ concat_text k.
Proof.
  induction l as [|x l IH]; [done|]. change (x +:+ concat_text (l ++ k) = (x +:+ concat_text l) +:+ concat_text k).
  by rewrite IH, string_app_assoc.
Qed.
Lemma drop_bytes_app a b : drop_bytes (String.length a) (a +:+ b) = b.
Proof. induction a as [|x a IH]; [by destruct b|exact IH]. Qed.
Lemma substring_middle a b c : String.substring (String.length a) (String.length b) (a +:+ b +:+ c) = b.
Proof. induction a as [|x a IH]; [exact (substring_append b c)|exact IH]. Qed.

Lemma line_offset_S ls i line :
  ls !! i = Some line → line_offset ls (S i) = (line_offset ls i + String.length line)%nat.
Proof.
  intros Hi. unfold line_offset. rewrite (take_S_r _ _ _ Hi), concat_text_app, string_length_app.
  change (concat_text [line]) with (line +:+ EmptyString). by rewrite string_app_nil.
Qed.
Lemma line_offset_le ls i j : (i ≤ j)%nat → (line_offset ls i ≤ line_offset ls j)%nat.
Proof.
  intros Hle. unfold line_offset. replace (take j ls) with (take i ls ++ take (j - i) (drop i ls)).
  - rewrite concat_text_app, string_length_app. lia.
  - replace j with (i + (j - i))%nat at 2 by lia. by rewrite take_take_drop.
Qed.
Lemma lines_nonempty ls i line : lines_ok ls → ls !! i = Some line → (0 < String.length line)%nat.
Proof.
  intros Hok. revert i. induction Hok as [|body Hb Hne|body rest Hb _ IH]; intros i; [done| |].
  - destruct i; [|done]. intros [= <-]. destruct body; [done|cbn; lia].
  - destruct i; [|apply IH]. intros [= <-]. rewrite string_length_app. cbn. lia.
Qed.

(** ** Provenance blocks *)

(** Lines [a] to [b] are a closed provenance block: the delimiters of one kind,
    and no marker in between. *)
Definition closed_block (ls : list string) (a b : nat) : Prop :=
  ∃ d first last_, d ∈ DELIMITERS ∧ ls !! a = Some first ∧ line_text first = d.1
    ∧ ls !! b = Some last_ ∧ line_text last_ = d.2 ∧ (a < b)%nat
    ∧ ∀ k line, (a < k < b)%nat → ls !! k = Some line → ¬ reads_as_marker (line_text line).
(** Its text, without the newline of its last line *)
Definition block_text (ls : list string) (a b : nat) : string :=
  concat_text (take (b - a) (drop a ls)) +:+ trim_end_matches is_newline (default EmptyString (ls !! b)).

(** The block that [open] waits for ends at line [b]. *)
Definition closes_at (stop : string) (ls : list string) (b : nat) : Prop :=
  ∃ last_, ls !! b = Some last_ ∧ line_text last_ = stop
    ∧ ∀ k line, (k < b)%nat → ls !! k = Some line → ¬ reads_as_marker (line_text line).
Definition block_end (ls : list string) (b : nat) : nat :=
  (line_offset ls b + String.length (trim_end_matches is_newline (default EmptyString (ls !! b))))%nat.

Lemma line_offset_cons line ls i : line_offset (line :: ls) (S i) = (String.length line + line_offset ls i)%nat.
Proof. unfold line_offset. cbn [take concat_text foldr]. by rewrite string_length_app. Qed.
Lemma line_offset_0 ls : line_offset ls 0 = 0%nat.
Proof. done. Qed.
Lemma block_end_cons line ls b : block_end (line :: ls) (S b) = (String.length line + block_end ls b)%nat.
Proof. unfold block_end. rewrite line_offset_cons. change ((line :: ls) !! S b) with (ls !! b). lia. Qed.

Lemma delimiter_is_marker d : d ∈ DELIMITERS → reads_as_marker d.1 ∧ reads_as_marker d.2.
Proof.
  intros Hd. split; right; exists d, EmptyString; (split; [done|]); rewrite !string_app_nil; auto.
Qed.
Lemma closed_block_cons line ls a b :
  closed_block (line :: ls) (S a) (S b) ↔ closed_block ls a b.
Proof.
  unfold closed_block. split; intros (d & f & l & Hd & Hf & Ht & Hl & Hs & Hab & Hk);
    exists d, f, l; (split_and!; [done..|lia|]).
  - intros k x Hx Hin. apply (Hk (S k) x); [lia|done].
  - intros [|k] x Hx Hin; [lia|]. apply (Hk k x); [lia|done].
Qed.
Lemma closed_block_first line ls b d :
  d ∈ DELIMITERS → line_text line = d.1 → closed_block (line :: ls) 0 (S b) ↔ closes_at d.2 ls b.
Proof.
  intros Hd Hline. unfold closed_block, closes_at. split.
  - intros (d' & f & l & Hd' & [= <-] & Ht & Hl & Hs & _ & Hk). exists l.
    assert (d' = d) as ->.
    { rewrite Hline in Ht. unfold DELIMITERS in *. rewrite !elem_of_cons, elem_of_nil in *. naive_solver. }
    split_and!; [done..|]. intros k x Hx Hin. apply (Hk (S k) x); [lia|done].
  - intros (l & Hl & Hs & Hk). exists d, line, l. split_and!; [done..|lia|].
    intros [|k] x Hx Hin; [lia|]. apply (Hk k x); [lia|done].
Qed.
Lemma no_closed_block_first line ls b :
  (∀ d, d ∈ DELIMITERS → line_text line ≠ d.1) → ¬ closed_block (line :: ls) 0 b.
Proof. intros Hno (d & f & l & Hd & [= <-] & Ht & _). by apply (Hno d). Qed.
Lemma closes_at_cons stop line ls b :
  closes_at stop (line :: ls) b ↔
  b = 0%nat ∧ line_text line = stop ∨ ∃ b', b = S b' ∧ ¬ reads_as_marker (line_text line) ∧ closes_at stop ls b'.
Proof.
  unfold closes_at. split.
  - intros (l & Hl & Hs & Hk). destruct b as [|b]; [injection Hl as ->; by left|]. right. exists b.
    split_and!; [done|apply (Hk 0%nat); [lia|done]|]. exists l. split_and!; [done..|].
    intros k x Hx Hin. apply (Hk (S k) x); [lia|done].
  - intros [[-> Hs]|(b' & -> & Hn & l & Hl & Hs & Hk)]; [exists line; split_and!; [done..|lia]|].
    exists l. split_and!; [done..|]. intros [|k] x Hx Hin; [by injection Hin as <-|]. apply (Hk k x); [lia|done].
Qed.

(** The scan finds exactly the closed blocks, and the one it is in. *)
Lemma provenance_blocks_from_spec ls r : ∀ offset open,
  (∀ start stop, open = Some (start, stop) → ∃ d, d ∈ DELIMITERS ∧ d.2 = stop) →
  r ∈ provenance_blocks_from offset open ls ↔
  (∃ start stop b, open = Some (start, stop) ∧ closes_at stop ls b ∧ r = (start, offset + block_end ls b)%nat)
  ∨ ∃ a b, closed_block ls a b ∧ r = (offset + line_offset ls a, offset + block_end ls b)%nat.
Proof.
  induction ls as [|line ls IH]; intros offset open Hopen; cbn [provenance_blocks_from].
  { rewrite elem_of_nil. split; [done|]. by intros [(? & ? & ? & _ & (? & ? & _) & _)|(? & ? & (? & ? & ? & _ & ? & _) & _)]. }
  change PROVENANCE_BLOCKS with DELIMITERS.
  assert ((∃ a b, closed_block (line :: ls) a b ∧ r = (offset + line_offset (line :: ls) a, offset + block_end (line :: ls) b)%nat)
    ↔ (∃ b, closed_block (line :: ls) 0 (S b) ∧ r = (offset, offset + String.length line + block_end ls b)%nat)
      ∨ ∃ a b, closed_block ls a b
          ∧ r = (offset + String.length line + line_offset ls a, offset + String.length line + block_end ls b)%nat) as Hblocks.
  { split.
    - intros ([|a] & [|b] & Hc & ->); [by destruct Hc as (? & ? & ? & _ & _ & _ & _ & _ & ? & _); lia| | |].
      + left. exists b. split; [done|]. rewrite line_offset_0, block_end_cons. f_equal; lia.
      + by destruct Hc as (? & ? & ? & _ & _ & _ & _ & _ & ? & _); lia.
      + right. exists a, b. split; [by apply closed_block_cons in Hc|]. rewrite line_offset_cons, block_end_cons. f_equal; lia.
    - intros [(b & Hc & ->)|(a & b & Hc & ->)].
      + exists 0%nat, (S b). split; [done|]. rewrite line_offset_0, block_end_cons. f_equal; lia.
      + exists (S a), (S b). split; [by apply closed_block_cons|]. rewrite line_offset_cons, block_end_cons. f_equal; lia. }
  rewrite Hblocks. clear Hblocks.
  destruct (list_find _ DELIMITERS) as [[i [b e]]|] eqn:Hfind; cbn [fmap option_fmap option_map snd].
  - apply list_find_Some in Hfind as (Hd%list_elem_of_lookup_2 & Ht & _). cbn [fst] in Ht.
    rewrite IH by (intros ? ? [= <- <-]; by exists (b, e)).
    pose proof (delimiter_is_marker _ Hd) as [Hm _]. cbn [fst] in Hm.
    assert (∀ x stop, open = Some (x, stop) → b ≠ stop) as Hdiff.
    { intros x stop Ho ->. destruct (Hopen _ _ Ho) as (d & Hd' & Hs). clear -Hd Hd' Hs. unfold DELIMITERS in *.
      rewrite !elem_of_cons, elem_of_nil in *. naive_solver. }
    split.
    + intros [(x & y & k & [= <- <-] & Hc & ->)|?]; [|auto]. right. left. exists k.
      split; [by apply (closed_block_first line ls k (b, e))|]. f_equal; lia.
    + intros [(x & y & k & Ho & Hc & ->)|[(k & Hc & ->)|?]]; [| |auto].
      * apply closes_at_cons in Hc as [[_ Hs]|(k' & _ & Hn & _)]; [exfalso; apply (Hdiff x y Ho); congruence|].
        by rewrite Ht in Hm.
      * left. exists offset, e, k. split_and!; [done|by apply (closed_block_first line ls k (b, e)) in Hc|f_equal; lia].
  - rewrite list_find_None, Forall_forall in Hfind.
    assert (∀ b, ¬ closed_block (line :: ls) 0 b) as Hno
      by (intros k; apply no_closed_block_first; intros d Hd Ht; by apply (Hfind d)).
    destruct open as [[start stop]|].
    2:{ rewrite IH by done. split; [intros [(? & ? & ? & [=] & _)|?]; auto|].
        intros [(? & ? & ? & [=] & _)|[(? & ? & _)|?]]; [by edestruct Hno|auto]. }
    destruct (Hopen _ _ eq_refl) as (d & Hd & <-).
    assert (∀ b, closes_at d.2 (line :: ls) b ∧ r = (start, offset + block_end (line :: ls) b)%nat ↔
      (b = 0%nat ∧ line_text line = d.2 ∧ r = (start, offset + String.length (trim_end_matches is_newline line))%nat)
      ∨ ∃ b', b = S b' ∧ ¬ reads_as_marker (line_text line) ∧ closes_at d.2 ls b'
          ∧ r = (start, offset + String.length line + block_end ls b')%nat) as Hcl.
    { intros k. rewrite closes_at_cons. split.
      - intros [[[-> Hs]|(k' & -> & Hn & Hc)] ->]; [left|right].
        + split_and!; [done..|]. unfold block_end. rewrite line_offset_0. cbn. f_equal.
        + exists k'. split_and!; [done..|]. rewrite block_end_cons. f_equal; lia.
      - intros [(-> & Hs & ->)|(k' & -> & Hn & Hc & ->)]; (split; [eauto|]).
        + unfold block_end. rewrite line_offset_0. cbn. f_equal.
        + rewrite block_end_cons. f_equal; lia. }
    pose proof (delimiter_is_marker _ Hd) as [_ Hm].
    destruct (String.eqb_spec (line_text line) d.2) as [Hs|Hs].
    + rewrite elem_of_cons, IH by done. split.
      * intros [->|[(? & ? & ? & [=] & _)|?]]; [|auto]. left. exists start, d.2, 0%nat. split; [done|]. apply Hcl. auto.
      * intros [(x & y & k & [= <- <-] & Hc)|[(? & ? & _)|?]]; [|by edestruct Hno|auto].
        apply Hcl in Hc as [(_ & _ & ->)|(k' & _ & Hn & _)]; [by left|]. by rewrite Hs in Hn.
    + destruct (is_reserved_line (line_text line)) eqn:Hres.
      * apply is_reserved_line_true in Hres. rewrite IH by done. split; [intros [(? & ? & ? & [=] & _)|?]; auto|].
        intros [(x & y & k & [= <- <-] & Hc)|[(? & ? & _)|?]]; [|by edestruct Hno|auto].
        apply Hcl in Hc as [(_ & ? & _)|(k' & _ & ? & _)]; done.
      * assert (¬ reads_as_marker (line_text line)) as Hn by (rewrite <-is_reserved_line_true; congruence).
        rewrite IH by (intros ? ? [= <- <-]; by exists d). split.
        -- intros [(x & y & k & [= <- <-] & Hc & ->)|?]; [|auto]. left. exists start, d.2, (S k). split; [done|].
           apply Hcl. right. by exists k.
        -- intros [(x & y & k & [= <- <-] & Hc)|[(? & ? & _)|?]]; [|by edestruct Hno|auto].
           apply Hcl in Hc as [(_ & ? & _)|(k' & -> & _ & Hc & ->)]; [done|]. left. by exists start, d.2, k'.
Qed.

Lemma trim_end_matches_prefix p s : ∃ rest, s = trim_end_matches p s +:+ rest.
Proof.
  induction s as [|c s [rest IH]]; [by exists EmptyString|]. cbn.
  destruct (trim_end_matches p s) as [|x t]; [|exists rest; exact (f_equal (String c) IH)].
  destruct (p c); [by exists (String c s)|by exists s].
Qed.
Lemma slice_block ls a b :
  closed_block ls a b → slice (line_offset ls a) (block_end ls b) (concat_text ls) = block_text ls a b.
Proof.
  intros (d & f & l & _ & _ & _ & Hl & _ & Hab & _). unfold slice, block_end, block_text. rewrite Hl. cbn [default from_option id].
  destruct (trim_end_matches_prefix is_newline l) as [rest Hrest]. set (t := trim_end_matches is_newline l) in *.
  set (mid := concat_text (take (b - a) (drop a ls))).
  assert (concat_text ls = concat_text (take a ls) +:+ (mid +:+ t) +:+ (rest +:+ concat_text (drop (S b) ls))) as ->.
  { rewrite <-(take_drop b ls) at 1. rewrite concat_text_app. rewrite (drop_S _ _ _ Hl).
    change (concat_text (l :: drop (S b) ls)) with (l +:+ concat_text (drop (S b) ls)). rewrite Hrest at 1.
    replace (take b ls) with (take a ls ++ take (b - a) (drop a ls))
      by (rewrite take_take_drop; f_equal; lia).
    rewrite concat_text_app. fold mid. by rewrite !string_app_assoc. }
  assert (line_offset ls b = line_offset ls a + String.length mid)%nat as ->.
  { unfold line_offset, mid. replace (take b ls) with (take a ls ++ take (b - a) (drop a ls))
      by (rewrite take_take_drop; f_equal; lia). by rewrite concat_text_app, string_length_app. }
  assert (line_offset ls a + String.length mid + String.length t - line_offset ls a
          = String.length (mid +:+ t))%nat as -> by (rewrite string_length_app; lia).
  apply substring_middle.
Qed.
Lemma in_block ls i line a b :
  lines_ok ls → ls !! i = Some line → closed_block ls a b →
  in_range (line_offset ls i) (line_offset ls a, block_end ls b) = true ↔ (a ≤ i ≤ b)%nat.
Proof.
  intros Hok Hi (d & f & l & Hd & Ha & Hf & Hl & Hs & Hab & _). unfold in_range, block_end. rewrite Hl. cbn [default from_option id fst snd].
  rewrite andb_true_iff, Nat.leb_le, Nat.ltb_lt.
  pose proof (lines_nonempty _ _ _ Hok Hi) as Hlen. pose proof (line_offset_S _ _ _ Hi) as HS.
  pose proof (line_offset_S _ _ _ Hl) as HSb.
  destruct (trim_end_matches_prefix is_newline l) as [rest Hrest]. set (t := trim_end_matches is_newline l) in *.
  assert (0 < String.length t)%nat as Ht.
  { destruct t as [|x t'] eqn:E; [|cbn; lia]. exfalso.
    assert (line_text l = EmptyString) as Hempty.
    { clear -E. unfold t in E. unfold line_text. revert E. induction l as [|c l IH]; [done|]. cbn.
      destruct (trim_end_matches is_newline l); [|done]. intros E. rewrite IH by done.
      unfold is_newline in E. unfold is_eol. by destruct (Ascii.eqb c newline). }
    rewrite Hempty in Hs. unfold DELIMITERS in Hd. rewrite !elem_of_cons, elem_of_nil in Hd. naive_solver. }
  assert (String.length t ≤ String.length l)%nat as Htl by (apply (f_equal String.length) in Hrest; rewrite string_length_app in Hrest; lia).
  split.
  - intros [H1 H2]. split.
    + destruct (decide (a ≤ i)%nat); [done|]. pose proof (line_offset_le ls (S i) a). lia.
    + destruct (decide (i ≤ b)%nat); [done|]. pose proof (line_offset_le ls (S b) i). lia.
  - intros [H1 H2]. pose proof (line_offset_le ls a i). pose proof (line_offset_le ls i b). lia.
Qed.

(** ** Defusing *)

(** The previous notes vouch for line [i] of a text: it is one of their proof
    lines, or it belongs to a closed provenance block that stands in them. *)
Definition vouched (notes : string) (previous : option string) (i : nat) (line : string) : Prop :=
  ∃ prior, previous = Some prior ∧
    (reads_as_proof (line_text line) ∧ line_text line ∈ lines prior
     ∨ ∃ a b, (a ≤ i ≤ b)%nat ∧ closed_block (split_inclusive notes) a b
         ∧ stands_in (block_text (split_inclusive notes) a b) prior).

Lemma marker_allowed_vouched notes previous i line :
  split_inclusive notes !! i = Some line → marker_allowed notes previous i line ↔ vouched notes previous i line.
Proof.
  intros Hi. unfold marker_allowed, vouched, prior_markers, preserved_blocks.
  pose proof (split_inclusive_ok notes) as Hok. destruct previous as [prior|].
  2:{ split; [|by intros (? & [=] & _)]. intros [?%elem_of_nil|(r & [[=] _]%list_elem_of_filter & _)]; done. }
  assert (∀ Q : Prop, (∃ p, Some prior = Some p ∧ Q) ↔ Q) as _ by naive_solver.
  rewrite list_elem_of_filter, is_proof_line_true. split.
  - intros [[Hp Hin]|(r & [Hc Hr]%list_elem_of_filter & Hrange)]; exists prior; (split; [done|]); [by left|right].
    unfold provenance_blocks in Hr. apply provenance_blocks_from_spec in Hr as [(? & ? & ? & [=] & _)|(a & b & Hb & ->)]; [|done].
    cbn [plus] in *. exists a, b. rewrite in_block in Hrange by done. split_and!; [lia|lia|done|].
    apply contains_complete_lines_true in Hc. cbn [fst snd] in Hc.
    rewrite <-(concat_split_inclusive notes) in Hc at 3. by rewrite slice_block in Hc.
  - intros (p & [= <-] & [[Hp Hin]|(a & b & Hab & Hb & Hst)]); [by left|right].
    exists (line_offset (split_inclusive notes) a, block_end (split_inclusive notes) b). split; [|by apply (in_block _ i line a b)].
    apply list_elem_of_filter. split.
    + apply contains_complete_lines_true. cbn [fst snd]. rewrite <-(concat_split_inclusive notes) at 3. by rewrite slice_block.
    + unfold provenance_blocks. apply provenance_blocks_from_spec; [done|]. right. by exists a, b.
Qed.

(** C36: Defusing a text removes exactly the markers that are new.  The lines of
    the text stay what and where they were, but for one space put in front of
    every line that reads as a proof or as a provenance delimiter and for which
    the previous notes do not vouch, which then no longer reads as one.  The
    previous notes vouch for their own proof lines, and for the lines of a closed
    provenance block that stands in them word for word; with no previous notes no
    marker is left. *)
Theorem neutralize_defuses notes previous :
  let out := split_inclusive (neutralize_new_markers notes previous) in
  length out = length (split_inclusive notes)
  ∧ ∀ i line line', split_inclusive notes !! i = Some line → out !! i = Some line' →
      (line' = line ∧ (reads_as_marker (line_text line) → vouched notes previous i line)
       ∨ line' = String " " line ∧ reads_as_marker (line_text line) ∧ ¬ vouched notes previous i line
         ∧ ¬ reads_as_marker (line_text line'))
      ∧ (previous = None → ¬ reads_as_marker (line_text line')).
Proof.
  cbn zeta. split.
  { rewrite neutralize_split. generalize (prior_markers previous) (preserved_blocks notes previous) 0%nat. intros p q.
    induction (split_inclusive notes) as [|l ls IH]; intros n; [done|]. cbn. by rewrite IH. }
  intros i line line' Hi H. apply neutralize_lookup in H as (line0 & Hline & H). simplify_eq.
  rewrite (marker_allowed_vouched notes previous i line Hi), is_reserved_line_true in H.
  assert (∀ l, ¬ reads_as_marker (line_text (String " " l))) as Hspace
    by (intros l; by rewrite <-is_reserved_line_true, line_text_space).
  split.
  - destruct H as [?|(-> & Hr & Hv)]; [by left|]. right. auto.
  - intros ->. destruct H as [[-> H]|(-> & _)]; [|done]. intros Hm. by destruct (H Hm) as (? & [=] & _).
Qed.
