(* ===== verification/Envelopes.v ===== *)
(** * Relay envelopes ([crates/cas-types/src/lifecycle.rs])

    The tags that open a machine-written prompt, as the recipient's drain parses
    them: task life cycle, verification dispatch, CI red run, worker attention. *)

From S2P Require Import Prelude Enums TaskTypes Logs VerifierText Verifications Db.

(** The double quote character *)
Definition quote_mark : ascii := "034".
Definition attribute_needle (name : string) : string := " " +:+ name +:+ "=" +:+ String quote_mark EmptyString.

Definition xml_attribute (tag name : string) : option string :=
  '(_, rest) ← split_text (attribute_needle name) tag;
  '(value, _) ← split_once quote_mark rest;
  Some value.

(** The text before the first [>] *)
Definition opening_tag (prompt : string) : option string := fst <$> split_once ">" prompt.
Definition nonempty (o : option string) : option string := option_filter (λ s, negb (str_is_empty s)) o.

Section envelopes.
Context `{Host}.

Record LifecycleEnvelope := mkLifecycleEnvelope {
  le_task_id : string;
  le_new_status : TaskStatus;
  le_occurrence : Z;
  le_transition : option string;
  le_branch_tip : option string;
}.
Definition parse_lifecycle_envelope (prompt : string) : option LifecycleEnvelope :=
  tag ← opening_tag prompt;
  if negb (starts_with "<task-lifecycle " tag) then None
  else
    task_id ← xml_attribute tag "task_id";
    new ← xml_attribute tag "new";
    new_status ← result_ok (TaskStatus_from_str new);
    at_ ← xml_attribute tag "occurrence";
    occurrence ← parse_from_rfc3339 at_;
    Some (mkLifecycleEnvelope task_id new_status occurrence
            (xml_attribute tag "transition") (xml_attribute tag "branch_tip")).

Record VerificationDispatchEnvelope := mkVerificationDispatchEnvelope {
  ve_dispatch_id : string;
  ve_task_id : string;
  ve_owner : string;
  ve_deadline : string;
  ve_bound_head : option string;
  ve_approved_verdict_id : option string;
}.
Definition parse_verification_dispatch_envelope (prompt : string) : option VerificationDispatchEnvelope :=
  if negb (starts_with "<cas-verification-dispatch " prompt)
     || negb (ends_with "</cas-verification-dispatch>" (trim_end prompt))
  then None
  else
    tag ← opening_tag prompt;
    let required name := nonempty (xml_attribute tag name) in
    dispatch_id ← required "dispatch_id";
    task_id ← required "task_id";
    owner ← required "owner";
    deadline ← required "deadline";
    Some (mkVerificationDispatchEnvelope dispatch_id task_id owner deadline
            (required "bound_head") (required "approved_verdict_id")).

Definition holds_attribute (ok : string → bool) (o : option string) : bool :=
  match o with Some value => ok value | None => false end.

Record CiRedRunEnvelope := mkCiRedRunEnvelope { ci_branch : string; ci_task_id : option string }.
Definition parse_ci_red_run_envelope (prompt : string) : option CiRedRunEnvelope :=
  tag ← opening_tag prompt;
  let full name := holds_attribute (λ value, negb (str_is_empty value)) (xml_attribute tag name) in
  if starts_with "<ci-red-run " tag && full "branch" && full "head_sha"
     && holds_attribute (λ value, negb (is_none (parse_u64 value))) (xml_attribute tag "run_id")
     && ends_with "</ci-red-run>" prompt
  then
    branch ← xml_attribute tag "branch";
    Some (mkCiRedRunEnvelope branch (nonempty (xml_attribute tag "task_id")))
  else None.

Definition WORKER_ATTENTION_KINDS : list string :=
  ["worker_idle"; "worker_stalled"; "worker_delivery_stalled"; "worker_unavailable";
   "worker_approval_pending"; "workers_died_together"; "supervisor_stalled"; "merged_close_blocked";
   "pr_lane_failed"; "delivery_pr_merge_timeout"; "supervisor_unread"; "sweep_failed"; "sweep_passed";
   "sweep_not_configured"].
Record WorkerAttentionEnvelope := mkWorkerAttentionEnvelope { wa_task_id : option string }.
Definition parse_worker_attention_envelope (prompt : string) : option WorkerAttentionEnvelope :=
  tag ← opening_tag prompt;
  if starts_with "<worker-attention " tag
     && holds_attribute (λ value, existsb (String.eqb value) WORKER_ATTENTION_KINDS) (xml_attribute tag "kind")
     && holds_attribute (λ value, negb (str_is_empty value)) (xml_attribute tag "worker")
     && holds_attribute (λ value, negb (is_none (parse_i64 value))) (xml_attribute tag "notification_id")
     && ends_with "</worker-attention>" prompt
  then Some (mkWorkerAttentionEnvelope (nonempty (xml_attribute tag "task_id")))
  else None.
End envelopes.
