(* ===== verification/LeaseStore.v ===== *)
(** * Task leases ([crates/cas-store/src/agent_store/ops_task_leases.rs])

    The exclusive, expiring, fenced claims of agents on tasks: the statements
    each operation runs on [task_leases], [agents] and [task_lease_history], in
    program order.  A returned error rolls the transaction back, so an
    operation is a function from the database to a result with the new one. *)

From S2P Require Import Prelude Enums TaskTypes Db Leases.

(** ** Rows *)

(** A double quote, and a text inside double quotes *)
Definition dquote : string := String "034" EmptyString.
Definition quoted (s : string) : string := dquote +:+ s +:+ dquote.

(** [lease_from_row]: unknown statuses read as active, negative counters as
    zero. *)
Definition lease_from_row (task_id : string) (r : LeaseRow) : TaskLease :=
  {| tl_task_id := task_id; tl_agent_id := l_agent_id r;
     tl_status := unwrap_or (LeaseStatus_from_str (l_status r)) LeaseStatus_Active;
     tl_acquired_at := l_acquired_at r; tl_expires_at := l_expires_at r;
     tl_renewed_at := l_renewed_at r;
     tl_renewal_count := Z.max 0 (l_renewal_count r) mod 2 ^ 32;
     tl_epoch := as_u64 (Z.max 0 (l_epoch r)); tl_claim_reason := l_claim_reason r |}.

Definition log_lease_event (now : Z) (task_id agent_id event_type : string) (epoch : Z)
    (details previous_agent_id reason : option string) (db : Db) : Db :=
  let id := db_history_seq db + 1 in
  db <| db_history_seq := id |>
     <| db_history ::= λ l, l ++
          [{| h_id := id; h_task_id := task_id; h_agent_id := agent_id;
              h_event_type := event_type; h_epoch := as_i64 epoch; h_timestamp := now;
              h_details := details; h_previous_agent_id := previous_agent_id;
              h_reason := reason |}] |>.

(** [status = 'active'] *)
Definition lease_active (r : LeaseRow) : bool := String.eqb (l_status r) "active".

(** [active_tasks = active_tasks + 1] and [MAX(0, active_tasks - n)] *)
Definition incr_active_tasks (a : AgentRow) : AgentRow := a <| a_active_tasks ::= Z.add 1 |>.
Definition decr_active_tasks (n : Z) (a : AgentRow) : AgentRow :=
  a <| a_active_tasks ::= λ x, Z.max 0 (x - n) |>.

(** The row a successful claim leaves *)
Definition claim_row (agent_id : string) (now expires_at epoch : Z) (reason : option string)
    : LeaseRow :=
  {| l_agent_id := agent_id; l_status := "active"; l_acquired_at := now;
     l_expires_at := expires_at; l_renewed_at := now; l_renewal_count := 0;
     l_epoch := epoch; l_claim_reason := reason |}.

(** ** Claim *)

(** [parent_id] of the claiming agent is the holder *)
Definition parent_is (db : Db) (agent_id held_by : string) : bool :=
  match db_agents db !! agent_id with
  | Some a => bool_decide (a_parent_id a = Some held_by)
  | None => false
  end.

(** The write of a granted claim and the steps after it; [k] is the clock
    reading of the final log entry. *)
Definition grant_claim (clk : Clock) (k : nat) (task_id agent_id : string) (duration_secs : Z)
    (reason : option string) (new_epoch : Z) (db : Db) : result (ClaimResult * Db) :=
  let now := clk 0%nat in
  let expires_at := now + duration_seconds duration_secs in
  db ← put_task_lease task_id (claim_row agent_id now expires_at (as_i64 new_epoch) reason) db;
  let db := update_agent agent_id incr_active_tasks db in
  let lease :=
    {| tl_task_id := task_id; tl_agent_id := agent_id; tl_status := LeaseStatus_Active;
       tl_acquired_at := now; tl_expires_at := expires_at; tl_renewed_at := now;
       tl_renewal_count := 0; tl_epoch := new_epoch; tl_claim_reason := reason |} in
  let details := (λ r, "{" +:+ quoted "reason" +:+ ":" +:+ quoted r +:+ "}") <$> reason in
  let db := log_lease_event (clk k) task_id agent_id "claimed" new_epoch details None None db in
  Ok (ClaimResult_Success lease, db).

Definition lease_try_claim (clk : Clock) (task_id agent_id : string) (duration_secs : Z)
    (reason : option string) (db : Db) : result (ClaimResult * Db) :=
  let now := clk 0%nat in
  match db_task_leases db !! task_id with
  | Some row =>
      let held_by := l_agent_id row in
      let current_epoch := l_epoch row in
      let new_epoch := u64_succ (as_u64 current_epoch) in
      if lease_active row && (now <? l_expires_at row)
      then
        let can_takeover :=
          if negb (String.eqb held_by agent_id) then parent_is db agent_id held_by else false in
        if can_takeover
        then
          let db := update_agent held_by (decr_active_tasks 1) db in
          let details := "{" +:+ quoted "to_agent" +:+ ":" +:+ quoted agent_id +:+ ","
                         +:+ quoted "reason" +:+ ":" +:+ quoted "worker_takeover" +:+ "}" in
          let db := log_lease_event (clk 1%nat) task_id held_by "transferred"
                      (as_u64 current_epoch) (Some details) (Some agent_id) None db in
          grant_claim clk 2 task_id agent_id duration_secs reason new_epoch db
        else Ok (ClaimResult_AlreadyClaimed task_id held_by None (l_expires_at row), db)
      else grant_claim clk 1 task_id agent_id duration_secs reason new_epoch db
  | None => grant_claim clk 1 task_id agent_id duration_secs reason 1 db
  end.

(** ** Release *)

(** The holder and epoch of the active lease of a task *)
Definition active_lease_info (db : Db) (task_id : string) : option (string * Z) :=
  row ← db_task_leases db !! task_id;
  if lease_active row then Some (l_agent_id row, l_epoch row) else None.

(** [SET status = ?] *)
Definition set_status (s : string) (r : LeaseRow) : LeaseRow := r <| l_status := s |>.

Definition by_task (task_id : string) (k : string) (r : LeaseRow) : bool := String.eqb k task_id.

Definition lease_release_lease (clk : Clock) (task_id agent_id : string) (db : Db)
    : result (unit * Db) :=
  match active_lease_info db task_id with
  | Some (owner_id, epoch) =>
      if String.eqb owner_id agent_id
      then
        let db := update_leases (by_task task_id) (set_status "released") db in
        let db := update_agent agent_id (decr_active_tasks 1) db in
        let db := log_lease_event (clk 0%nat) task_id agent_id "released" (as_u64 epoch)
                    None None None db in
        Ok (tt, db)
      else Err (Parse ("Task " +:+ task_id +:+ " is not owned by agent " +:+ agent_id))
  | None => Err (NotFound ("No active lease found for task " +:+ task_id))
  end.

Definition lease_release_lease_for_task (clk : Clock) (task_id reason : string) (db : Db)
    : result (bool * Db) :=
  match active_lease_info db task_id with
  | Some (agent_id, epoch) =>
      let db := update_leases (by_task task_id) (set_status "released") db in
      let db := update_agent agent_id (decr_active_tasks 1) db in
      let db := log_lease_event (clk 0%nat) task_id agent_id "released" (as_u64 epoch)
                  None None (Some reason) db in
      Ok (true, db)
  | None => Ok (false, db)
  end.

(** [task_id = ?1 AND agent_id = ?2 AND status = 'active' AND epoch = ?3] *)
Definition exact_lease (task_id agent_id : string) (epoch : Z) (k : string) (r : LeaseRow) : bool :=
  String.eqb k task_id && String.eqb (l_agent_id r) agent_id && lease_active r
  && (l_epoch r =? as_i64 epoch).

Definition lease_release_lease_if_owner_epoch (clk : Clock) (task_id agent_id : string)
    (epoch : Z) (reason : string) (db : Db) : result (bool * Db) :=
  let changed := sql_count (exact_lease task_id agent_id epoch) (db_task_leases db) in
  let db := update_leases (exact_lease task_id agent_id epoch) (set_status "released") db in
  if (changed =? 0)%nat then Ok (false, db)
  else
    let db := update_agent agent_id (decr_active_tasks 1) db in
    let db := log_lease_event (clk 0%nat) task_id agent_id "released" epoch None None
                (Some reason) db in
    Ok (true, db).

(** ** Reads *)
Definition lease_get_lease (task_id : string) (db : Db) : option TaskLease :=
  row ← db_task_leases db !! task_id;
  if lease_active row then Some (lease_from_row task_id row) else None.

(** The provided method of the trait [AgentStore] (agent_store/mod.rs), which a
    store without the exact update falls back to. *)
Definition release_lease_if_owner_epoch_default (clk : Clock) (task_id agent_id : string)
    (epoch : Z) (db : Db) : result (bool * Db) :=
  match lease_get_lease task_id db with
  | None => Ok (false, db)
  | Some lease =>
      if negb (String.eqb (tl_agent_id lease) agent_id) || negb (tl_epoch lease =? epoch)
      then Ok (false, db)
      else '(_, db) ← lease_release_lease clk task_id agent_id db; Ok (true, db)
  end.

Definition leases_of_rows (rows : list (string * LeaseRow)) : list TaskLease :=
  (λ kr, lease_from_row kr.1 kr.2) <$> rows.

Definition lease_list_agent_leases (agent_id : string) (db : Db) : list TaskLease :=
  leases_of_rows
    (order_by (le_of (desc (λ kr, l_acquired_at kr.2)))
       (sql_select (λ _ r, String.eqb (l_agent_id r) agent_id && lease_active r)
          (db_task_leases db))).

Definition lease_list_active_leases (db : Db) : list TaskLease :=
  leases_of_rows
    (order_by (le_of (asc (λ kr, l_expires_at kr.2)))
       (sql_select (λ _ r, lease_active r) (db_task_leases db))).

(** ** Renewal *)

(** The (id, name) pairs of the registry, newest registration first *)
Definition identities (db : Db) : list (string * string) :=
  (λ ka, (ka.1, a_name ka.2)) <$>
    order_by (le_of (desc (λ ka, a_registered_at ka.2))) (map_to_list (db_agents db)).

(** Identity of an assignee text: an agent id, else a display name *)
Definition resolve_identity (ids : list (string * string)) (token : string)
    : option (string * string) :=
  option_or_else
    (snd <$> list_find (λ p : string * string, eq_ignore_ascii_case p.1 token = true) ids)
    (snd <$> list_find (λ p : string * string, eq_ignore_ascii_case p.2 token = true) ids).

(** The join of [task_leases], [tasks] and [agents] *)
Definition renewable_row (db : Db) (agent_id task_id : string) (r : LeaseRow) : bool :=
  String.eqb (l_agent_id r) agent_id && lease_active r
  && match db_tasks db !! task_id with
     | Some t => bool_decide (t_status t = TaskStatus_InProgress)
     | None => false
     end
  && match db_agents db !! l_agent_id r with
     | Some a => status_live (a_status a)
     | None => false
     end.

Definition task_assignee (db : Db) (task_id : string) : option string :=
  t ← db_tasks db !! task_id; t_assignee t.

(** The assignee of the task resolves to this agent *)
Definition assigned_to (db : Db) (agent_id task_id : string) : bool :=
  match trimmed_nonempty (task_assignee db task_id) with
  | None => false
  | Some token =>
      match resolve_identity (identities db) token with
      | Some (id, _) => eq_ignore_ascii_case id agent_id
      | None => false
      end
  end.

Definition renewable_task_leases (agent_id : string) (db : Db) : list TaskLease :=
  leases_of_rows
    (filter (λ kr, assigned_to db agent_id kr.1 = true)
       (sql_select (renewable_row db agent_id) (db_task_leases db))).

(** [SET expires_at = ?, renewed_at = ?, renewal_count = renewal_count + 1] *)
Definition renew_row (expires_at now : Z) (r : LeaseRow) : LeaseRow :=
  r <| l_expires_at := expires_at |> <| l_renewed_at := now |>
    <| l_renewal_count ::= Z.add 1 |>.

Definition lease_renew_lease (clk : Clock) (task_id agent_id : string) (duration_secs : Z)
    (db : Db) : result (unit * Db) :=
  lease ← ok_or
    (snd <$> list_find (λ l, tl_task_id l = task_id) (renewable_task_leases agent_id db))
    (NotFound ("No renewable lease for task " +:+ task_id +:+ ": " +:+ agent_id +:+
               " must be live and assigned to its in-progress task"));
  let now := clk 0%nat in
  let expires_at := now + duration_seconds duration_secs in
  let db := update_leases (exact_lease task_id agent_id (tl_epoch lease))
              (renew_row expires_at now) db in
  let details := "{" +:+ quoted "duration_secs" +:+ ":" +:+ show_z duration_secs +:+ "}" in
  Ok (tt, log_lease_event (clk 1%nat) task_id agent_id "renewed" (tl_epoch lease)
            (Some details) None None db).

(** ** Reclaim *)

(** [status = 'active' AND expires_at < now] *)
Definition lease_overdue (now : Z) (r : LeaseRow) : bool :=
  lease_active r && (l_expires_at r <? now).

(** The number of selected leases of each agent *)
Definition agent_counts (expired : list (string * LeaseRow)) : gmap string Z :=
  foldr (λ kr, partial_alter (λ o, Some (default 0 o + 1)) (l_agent_id kr.2)) ∅ expired.

(** One UPDATE per counted agent; the order of a HashMap is arbitrary and the
    updates touch different rows. *)
Definition decrement_counted (counts : gmap string Z) (db : Db) : Db :=
  foldr (λ kn, update_agent kn.1 (decr_active_tasks kn.2)) db (map_to_list counts).

(** One log entry per lease, each with its own reading of the clock *)
Fixpoint log_each (clk : Clock) (k : nat) (agent_of : LeaseRow → string) (event_type : string)
    (reason : option string) (rows : list (string * LeaseRow)) (db : Db) : Db :=
  match rows with
  | [] => db
  | (task_id, r) :: rest =>
      log_each clk (S k) agent_of event_type reason rest
        (log_lease_event (clk k) task_id (agent_of r) event_type (as_u64 (l_epoch r))
           None None reason db)
  end.

Definition lease_reclaim_expired_leases (clk : Clock) (db : Db) : result (nat * Db) :=
  let now := clk 0%nat in
  let expired := sql_select (λ _ r, lease_overdue now r) (db_task_leases db) in
  let count := length expired in
  let db := update_leases (λ _ r, lease_overdue now r) (set_status "expired") db in
  let db := decrement_counted (agent_counts expired) db in
  let db := log_each clk 1 l_agent_id "expired" None expired db in
  Ok (count, db).

(** ** History *)
Record LeaseHistoryEntry := mkLeaseHistoryEntry {
  he_id : Z;
  he_task_id : string;
  he_agent_id : string;
  he_event_type : string;
  he_epoch : Z;
  he_timestamp : Z;
  he_details : option string;
  he_previous_agent_id : option string;
  he_reason : option string;
}.

(** A release recorded before the [reason] column existed kept its reason in
    [previous_agent_id]. *)
Definition history_entry (h : HistoryRow) : LeaseHistoryEntry :=
  {| he_id := h_id h; he_task_id := h_task_id h; he_agent_id := h_agent_id h;
     he_event_type := h_event_type h; he_epoch := as_u64 (h_epoch h);
     he_timestamp := h_timestamp h; he_details := h_details h;
     he_previous_agent_id := h_previous_agent_id h;
     he_reason :=
       option_or_else (h_reason h)
         (if String.eqb (h_event_type h) "released" then h_previous_agent_id h else None) |}.

Definition lease_get_lease_history (task_id : string) (max : option nat) (db : Db)
    : list LeaseHistoryEntry :=
  history_entry <$>
    limit (default 100%nat max)
      (order_by (le_of (desc h_timestamp))
         (filter (λ h, h_task_id h = task_id) (db_history db))).

Definition lease_cleanup_lease_history (clk : Clock) (older_than_days : Z) (db : Db)
    : result (nat * Db) :=
  let cutoff := clk 0%nat - duration_days older_than_days in
  Ok (length (filter (λ h, h_timestamp h < cutoff) (db_history db)),
      db <| db_history ::= filter (λ h, ¬ h_timestamp h < cutoff) |>).

(** ** Lemmas *)

Lemma agent_exists_true db a : agent_exists db a = true ↔ is_Some (db_agents db !! a).
Proof. apply bool_decide_eq_true. Qed.

Lemma agent_exists_update_agent id f db a :
  agent_exists (update_agent id f db) a = agent_exists db a.
Proof.
  unfold agent_exists, update_agent, sql_update_key. simpl.
  apply bool_decide_ext. by rewrite lookup_alter_is_Some.
Qed.

Lemma db_agents_update_agent id f db : db_agents (update_agent id f db) = alter f id (db_agents db).
Proof. done. Qed.

(** What a granted claim returns and leaves, when the agent is registered *)
Lemma grant_claim_ok clk k t a dur reason e db :
  agent_exists db a = true →
  ∃ lease db',
    grant_claim clk k t a dur reason e db = Ok (ClaimResult_Success lease, db')
    ∧ lease = TaskLease_new (clk 0%nat) t a dur <| tl_epoch := e |> <| tl_claim_reason := reason |>
    ∧ db_task_leases db' =
        <[t := claim_row a (clk 0%nat) (clk 0%nat + duration_seconds dur) (as_i64 e) reason]>
          (db_task_leases db)
    ∧ db_agents db' = alter incr_active_tasks a (db_agents db).
Proof.
  intros Ha. unfold grant_claim, put_task_lease, check_fk. simpl. rewrite Ha. simpl. by eauto 10.
Qed.

Lemma grant_claim_fk clk k t a dur reason e db :
  agent_exists db a = false → grant_claim clk k t a dur reason e db = Err fk_error.
Proof. intros Ha. unfold grant_claim, put_task_lease, check_fk. simpl. by rewrite Ha. Qed.

(** *** Claims *)

(** The lease of a task is free for an agent: there is none, or the recorded
    one is not active or has run out, or its holder is the agent's parent. *)
Definition claimable (db : Db) (now : Z) (task_id agent_id : string) : bool :=
  match db_task_leases db !! task_id with
  | None => true
  | Some row =>
      negb (lease_active row && (now <? l_expires_at row))
      || (negb (String.eqb (l_agent_id row) agent_id) && parent_is db agent_id (l_agent_id row))
  end.

(** The live holder a claim takes the lease over from *)
Definition taken_over (db : Db) (now : Z) (task_id : string) : option string :=
  row ← db_task_leases db !! task_id;
  if lease_active row && (now <? l_expires_at row) then Some (l_agent_id row) else None.

(** The epoch of the next holder *)
Definition next_epoch (db : Db) (task_id : string) : Z :=
  match db_task_leases db !! task_id with
  | None => 1
  | Some row => u64_succ (as_u64 (l_epoch row))
  end.

(** What a granted claim leaves of the registry's counters *)
Definition claimed_agents (db : Db) (now : Z) (task_id agent_id : string) : gmap string AgentRow :=
  alter incr_active_tasks agent_id
    match taken_over db now task_id with
    | Some held_by => alter (decr_active_tasks 1) held_by (db_agents db)
    | None => db_agents db
    end.

(** Every claim that is not refused is one grant on the unchanged leases *)
Lemma try_claim_grant clk t a dur reason db :
  claimable db (clk 0%nat) t a = true →
  ∃ k db0, lease_try_claim clk t a dur reason db
             = grant_claim clk k t a dur reason (next_epoch db t) db0
    ∧ db_task_leases db0 = db_task_leases db
    ∧ agent_exists db0 a = agent_exists db a
    ∧ alter incr_active_tasks a (db_agents db0) = claimed_agents db (clk 0%nat) t a.
Proof.
  unfold claimable, lease_try_claim, next_epoch, claimed_agents, taken_over.
  destruct (db_task_leases db !! t) as [row|]; simpl; [|by eauto 10].
  destruct (lease_active row && (clk 0%nat <? l_expires_at row)); simpl; [|by eauto 10].
  destruct (String.eqb (l_agent_id row) a); simpl; [done|].
  destruct (parent_is db a (l_agent_id row)); [|done]. intros _. do 2 eexists.
  split_and!; [done..| |done]. apply (agent_exists_update_agent (l_agent_id row)).
Qed.

(** What a claim promises of its result *)
Definition claim_post (clk : Clock) (t a : string) (dur : Z) (reason : option string) (db : Db)
    (res : result (ClaimResult * Db)) : Prop :=
  match claimable db (clk 0%nat) t a, agent_exists db a with
  | true, true =>
      ∃ lease db',
        res = Ok (ClaimResult_Success lease, db')
        ∧ lease = TaskLease_new (clk 0%nat) t a dur
                    <| tl_epoch := next_epoch db t |> <| tl_claim_reason := reason |>
        ∧ db_task_leases db' =
            <[t := claim_row a (clk 0%nat) (clk 0%nat + duration_seconds dur)
                     (as_i64 (next_epoch db t)) reason]> (db_task_leases db)
        ∧ db_agents db' = claimed_agents db (clk 0%nat) t a
  | true, false => res = Err fk_error
  | false, _ =>
      ∃ row, db_task_leases db !! t = Some row
        ∧ lease_active row = true ∧ clk 0%nat < l_expires_at row
        ∧ res = Ok (ClaimResult_AlreadyClaimed t (l_agent_id row) None (l_expires_at row), db)
  end.

Lemma try_claim_post clk t a dur reason db :
  claim_post clk t a dur reason db (lease_try_claim clk t a dur reason db).
Proof.
  unfold claim_post.
  destruct (claimable db (clk 0%nat) t a) eqn:Hc.
  - destruct (try_claim_grant clk t a dur reason db Hc) as (k & db0 & -> & Hl & He & Ha).
    destruct (agent_exists db a).
    + destruct (grant_claim_ok clk k t a dur reason (next_epoch db t) db0 He)
        as (lease & db' & -> & Hlease & Hl' & Ha').
      exists lease, db'. by rewrite Hl', Ha', Hl, Ha.
    + by apply grant_claim_fk.
  - unfold claimable, lease_try_claim in *. destruct (db_task_leases db !! t) as [row|]; [|done].
    exists row. apply orb_false_iff in Hc as [Hlive Htake].
    apply negb_false_iff in Hlive. rewrite Hlive.
    assert ((if negb (String.eqb (l_agent_id row) a)
             then parent_is db a (l_agent_id row) else false) = false) as ->
      by (by destruct (String.eqb _ _)).
    bool_to_prop. done.
Qed.

(** A claim is exact.  It is granted when the lease is free for the agent
    (no lease, not active, run out, or held by the agent's parent) and the
    agent is registered: the caller gets a fresh lease at the next epoch, that
    lease is the task's row, no other lease changes, the agent's counter goes
    up and that of a parent taken over from goes down.  An unregistered agent
    gets the foreign-key error.  In every other case the answer names the live
    holder and its expiry and nothing changes, also when the holder asks. *)
Theorem try_claim_spec clk t a dur reason db :
  claim_post clk t a dur reason db (lease_try_claim clk t a dur reason db).
Proof. apply try_claim_post. Qed.

(** *** Releases *)

Lemma by_task_key t k r : by_task t k r = true → k = t.
Proof. apply String.eqb_eq. Qed.

Lemma exact_lease_key t a e k r : exact_lease t a e k r = true → k = t.
Proof. unfold exact_lease. intros H. by bool_to_prop. Qed.

Lemma update_leases_none P f db :
  (∀ k r, db_task_leases db !! k = Some r → P k r = false) → update_leases P f db = db.
Proof.
  intros Hno. unfold update_leases. destruct db; simpl in *.
  unfold update; simpl. f_equal. by apply sql_update_none.
Qed.

Lemma update_leases_one t P f db :
  (∀ k r, P k r = true → k = t) →
  update_leases P f db =
    match db_task_leases db !! t with
    | Some r => if P t r then db <| db_task_leases ::= <[t := f r]> |> else db
    | None => db
    end.
Proof.
  intros Hk. unfold update_leases, update. simpl. rewrite (sql_update_one t) by done.
  destruct db; simpl. destruct (_ !! t) as [r|]; [|done]. by destruct (P t r).
Qed.

(** What the fenced release promises of its result *)
Definition fenced_release_post (t a : string) (e : Z) (db : Db) (res : result (bool * Db)) : Prop :=
  match db_task_leases db !! t with
  | Some row =>
      if exact_lease t a e t row
      then ∃ db', res = Ok (true, db')
             ∧ db_task_leases db' = <[t := set_status "released" row]> (db_task_leases db)
             ∧ db_agents db' = alter (decr_active_tasks 1) a (db_agents db)
      else res = Ok (false, db)
  | None => res = Ok (false, db)
  end.

Lemma release_if_owner_epoch_post clk t a e reason db :
  fenced_release_post t a e db (lease_release_lease_if_owner_epoch clk t a e reason db).
Proof.
  unfold fenced_release_post, lease_release_lease_if_owner_epoch.
  rewrite (sql_count_one t) by apply exact_lease_key.
  destruct (db_task_leases db !! t) as [row|] eqn:Hrow; [destruct (exact_lease t a e t row) eqn:HP|];
    simpl.
  - eexists. split_and!; [done| |done]. rewrite (update_leases_one t) by apply exact_lease_key.
    by rewrite Hrow, HP.
  - rewrite (update_leases_one t) by apply exact_lease_key. by rewrite Hrow, HP.
  - rewrite (update_leases_one t) by apply exact_lease_key. by rewrite Hrow.
Qed.

(** The fenced release acts on one exact generation of a lease.  When the
    task's active lease belongs to the agent at that epoch, it is released,
    the agent's counter goes down by one and the answer is true; otherwise the
    answer is false and the database is untouched. *)
Theorem release_if_owner_epoch_spec clk t a e reason db :
  fenced_release_post t a e db (lease_release_lease_if_owner_epoch clk t a e reason db).
Proof. apply release_if_owner_epoch_post. Qed.

(** A history entry without its reason *)
Definition erase_reason (h : HistoryRow) : HistoryRow := h <| h_reason := None |>.
Definition erase_reasons (db : Db) : Db := db <| db_history ::= map erase_reason |>.

Lemma erase_log_reason now t a ev e details prev r1 r2 db :
  erase_reasons (log_lease_event now t a ev e details prev r1 db)
  = erase_reasons (log_lease_event now t a ev e details prev r2 db).
Proof.
  unfold erase_reasons, log_lease_event. cbv zeta. generalize (db_history_seq db + 1). intros id.
  generalize (db <| db_history_seq := id |>). intros d. destruct d. unfold update. simpl.
  by rewrite !map_app.
Qed.

(** The provided method of the store trait agrees with the SQLite override
    on every lease whose recorded epoch is a non-negative 64-bit integer: same
    answer, and the same database up to the [reason] that only the override
    writes to the history. *)
Theorem release_if_owner_epoch_default_equiv clk t a e reason db :
  0 ≤ e < 2 ^ 63 →
  (∀ row, db_task_leases db !! t = Some row → 0 ≤ l_epoch row < 2 ^ 63) →
  (λ r, (r.1, erase_reasons r.2)) <$> release_lease_if_owner_epoch_default clk t a e db
  = (λ r, (r.1, erase_reasons r.2)) <$> lease_release_lease_if_owner_epoch clk t a e reason db.
Proof.
  intros He Hrow. pose proof (release_if_owner_epoch_post clk t a e reason db) as Hspec.
  unfold fenced_release_post in Hspec.
  unfold release_lease_if_owner_epoch_default, lease_get_lease, lease_release_lease,
    active_lease_info.
  destruct (db_task_leases db !! t) as [row|] eqn:Ht; [|by rewrite Hspec].
  specialize (Hrow row eq_refl). simpl.
  assert (exact_lease t a e t row =
    lease_active row && (String.eqb (l_agent_id row) a && (l_epoch row =? e))) as Hexact.
  { unfold exact_lease. rewrite String.eqb_refl, as_i64_small by done. simpl.
    rewrite andb_assoc. f_equal. by rewrite andb_comm. }
  assert ((tl_epoch (lease_from_row t row) =? e) = (l_epoch row =? e)) as Hep.
  { simpl. rewrite Z.max_r, as_u64_small by lia. done. }
  rewrite Hexact in Hspec.
  destruct (lease_active row) eqn:Hact; simpl in *; [|by rewrite Hspec].
  rewrite Hep. destruct (String.eqb (l_agent_id row) a) eqn:Ha; simpl in *; [|by rewrite Hspec].
  destruct (l_epoch row =? e) eqn:Hee; simpl in *; [|by rewrite Hspec].
  clear Hspec. unfold lease_release_lease_if_owner_epoch.
  rewrite (sql_count_one t), Ht, Hexact by apply exact_lease_key. simpl.
  apply String.eqb_eq in Ha. apply Z.eqb_eq in Hee.
  rewrite (update_leases_one t (by_task t)), (update_leases_one t (exact_lease t a e)), Ht, Hexact
    by (apply by_task_key || apply exact_lease_key).
  unfold by_task. rewrite String.eqb_refl.
  replace (as_u64 (l_epoch row)) with e by (rewrite Hee, as_u64_small; lia).
  unfold fmap, result_fmap. cbn [mbind result_bind fst snd]. do 2 f_equal.
  apply erase_log_reason.
Qed.

(** *** Frames: what the bookkeeping steps leave alone *)

(** The log only appends to the history. *)
Lemma log_each_frame clk k agent_of ev reason rows db :
  db_task_leases (log_each clk k agent_of ev reason rows db) = db_task_leases db
  ∧ db_agents (log_each clk k agent_of ev reason rows db) = db_agents db
  ∧ db_worktree_leases (log_each clk k agent_of ev reason rows db) = db_worktree_leases db
  ∧ db_tasks (log_each clk k agent_of ev reason rows db) = db_tasks db.
Proof.
  revert k db. induction rows as [|[t r] rows IH]; intros k db; simpl; [done|].
  destruct (IH (S k) (log_lease_event (clk k) t (agent_of r) ev (as_u64 (l_epoch r))
                        None None reason db)) as (-> & -> & -> & ->). done.
Qed.

Lemma log_each_history clk k agent_of ev reason rows db :
  ∃ new, db_history (log_each clk k agent_of ev reason rows db) = db_history db ++ new
    ∧ length new = length rows
    ∧ ∀ i h, new !! i = Some h → ∃ t r, rows !! i = Some (t, r) ∧ h_task_id h = t
        ∧ h_agent_id h = agent_of r ∧ h_event_type h = ev ∧ h_reason h = reason
        ∧ h_epoch h = as_i64 (as_u64 (l_epoch r)).
Proof.
  revert k db. induction rows as [|[t r] rows IH]; intros k db; simpl.
  { exists []. split_and!; [by rewrite app_nil_r|done|done]. }
  match goal with
  | |- context [log_each _ _ _ _ _ rows ?d] => destruct (IH (S k) d) as (new & -> & Hlen & Hnew)
  end.
  eexists. split_and!; [simpl; by rewrite <-app_assoc|simpl; by f_equal|].
  intros [|i] h; simpl; [|by apply Hnew]. intros [= <-]. eauto 10.
Qed.

(** *** Expiry *)

(** The number of selected leases an agent holds *)
Definition held_count (a : string) (rows : list (string * LeaseRow)) : nat :=
  length (filter (λ kr, l_agent_id kr.2 = a) rows).

Lemma agent_counts_lookup rows a :
  agent_counts rows !! a =
    if (held_count a rows =? 0)%nat then None else Some (Z.of_nat (held_count a rows)).
Proof.
  unfold held_count. induction rows as [|[k r] rows IH]; simpl; [done|].
  destruct (decide (l_agent_id r = a)) as [<-|Hne].
  - rewrite lookup_partial_alter_eq, IH, filter_cons_True by done. simpl.
    destruct (length _); simpl; [done|]. f_equal. lia.
  - rewrite lookup_partial_alter_ne, filter_cons_False by done. done.
Qed.

Lemma decrement_list_lookup (l : list (string * Z)) db a :
  NoDup l.*1 →
  db_agents (foldr (λ kn, update_agent kn.1 (decr_active_tasks kn.2)) db l) !! a
  = match list_to_map (M := gmap string Z) l !! a with
    | Some n => decr_active_tasks n <$> db_agents db !! a
    | None => db_agents db !! a
    end.
Proof.
  induction l as [|[b n] l IH]; intros Hnd; [done|]. cbn [foldr fst snd].
  apply NoDup_cons in Hnd as [Hb Hnd]. rewrite db_agents_update_agent. rewrite list_to_map_cons.
  destruct (decide (b = a)) as [->|Hne].
  - rewrite lookup_alter_eq, lookup_insert_eq, IH by done.
    by rewrite (not_elem_of_list_to_map_1 l a Hb).
  - by rewrite lookup_alter_ne, lookup_insert_ne, IH by done.
Qed.

Lemma decrement_counted_lookup counts db a :
  db_agents (decrement_counted counts db) !! a
  = match counts !! a with
    | Some n => decr_active_tasks n <$> db_agents db !! a
    | None => db_agents db !! a
    end.
Proof.
  unfold decrement_counted. rewrite decrement_list_lookup by apply NoDup_fst_map_to_list.
  by rewrite list_to_map_to_list.
Qed.

Lemma decrement_list_leases (l : list (string * Z)) db :
  db_task_leases (foldr (λ kn, update_agent kn.1 (decr_active_tasks kn.2)) db l) = db_task_leases db.
Proof. induction l as [|[b n] l IH]; simpl; [done|]. by rewrite <-IH. Qed.

(** One batched decrement is as many single ones. *)
Lemma decr_active_tasks_iter n r :
  Nat.iter (S n) (decr_active_tasks 1) r = decr_active_tasks (Z.of_nat (S n)) r.
Proof.
  induction n as [|n IH]; [done|]. rewrite Nat.iter_succ, IH. destruct r.
  unfold decr_active_tasks, update. simpl. f_equal. lia.
Qed.

(** What reclaiming promises of its result *)
Definition reclaim_post (now : Z) (db : Db) (res : result (nat * Db)) : Prop :=
  ∃ db', res
           = Ok (sql_count (λ _ r, lease_overdue now r) (db_task_leases db), db')
    ∧ (∀ t, db_task_leases db' !! t =
         (λ r, if lease_overdue now r then set_status "expired" r else r)
           <$> db_task_leases db !! t)
    ∧ (∀ a, db_agents db' !! a =
         Nat.iter (held_count a (sql_select (λ _ r, lease_overdue now r)
                                   (db_task_leases db)))
           (decr_active_tasks 1) <$> db_agents db !! a)
    ∧ length (db_history db') = (length (db_history db)
         + sql_count (λ _ r, lease_overdue now r) (db_task_leases db))%nat.

Lemma reclaim_expired_post clk db :
  reclaim_post (clk 0%nat) db (lease_reclaim_expired_leases clk db).
Proof.
  unfold reclaim_post, lease_reclaim_expired_leases. eexists. split_and!; [done| | |].
  - intros t. rewrite (proj1 (log_each_frame _ _ _ _ _ _ _)).
    unfold decrement_counted. rewrite decrement_list_leases.
    unfold update_leases. simpl. by rewrite lookup_sql_update.
  - intros a. rewrite (proj1 (proj2 (log_each_frame _ _ _ _ _ _ _))).
    rewrite decrement_counted_lookup, agent_counts_lookup. unfold update_leases. simpl.
    destruct (held_count a _) as [|n]; simpl; [by rewrite option_fmap_id|].
    destruct (db_agents db !! a); simpl; [|done]. by rewrite <-(decr_active_tasks_iter n).
  - match goal with
    | |- context [log_each ?c ?k ?f ?e ?r ?rows ?d] =>
        destruct (log_each_history c k f e r rows d) as (new & -> & Hlen & _)
    end.
    rewrite length_app, Hlen. unfold sql_count. f_equal.
    unfold decrement_counted. generalize (map_to_list (agent_counts
      (sql_select (λ _ r, lease_overdue (clk 0%nat) r) (db_task_leases db)))).
    intros l. induction l as [|[b n] l IH]; simpl; [done|]. by rewrite <-IH.
Qed.

(** Reclaiming expires exactly the active leases whose time is up, and
    reports their number.  Each holder's counter ends where decrementing it
    once per reclaimed lease would leave it, although the code writes one
    aggregated decrement per agent; other agents and leases are unchanged. *)
Theorem reclaim_spec clk db :
  reclaim_post (clk 0%nat) db (lease_reclaim_expired_leases clk db).
Proof. apply reclaim_expired_post. Qed.

(** *** Renewal *)

Lemma elem_of_renewable a db tl :
  tl ∈ renewable_task_leases a db ↔
  ∃ t r, tl = lease_from_row t r ∧ db_task_leases db !! t = Some r
         ∧ renewable_row db a t r = true ∧ assigned_to db a t = true.
Proof.
  unfold renewable_task_leases, leases_of_rows. rewrite list_elem_of_fmap. split.
  - intros ([t r] & -> & [Ha Hin]%list_elem_of_filter). apply elem_of_sql_select in Hin as [??].
    eauto 10.
  - intros (t & r & -> & Hr & Hok & Ha). exists (t, r). split; [done|].
    apply list_elem_of_filter. split; [done|]. by apply elem_of_sql_select.
Qed.

Definition renewable (db : Db) (task_id agent_id : string) : bool :=
  match db_task_leases db !! task_id with
  | Some r => renewable_row db agent_id task_id r && assigned_to db agent_id task_id
  | None => false
  end.

Lemma find_renewable t a db :
  snd <$> list_find (λ l, tl_task_id l = t) (renewable_task_leases a db) =
    if renewable db t a then lease_from_row t <$> db_task_leases db !! t else None.
Proof.
  unfold renewable. destruct (list_find _ _) as [[i tl]|] eqn:Hf; simpl.
  - apply list_find_Some in Hf as (Hl & Ht & _).
    apply list_elem_of_lookup_2, elem_of_renewable in Hl as (t' & r & -> & Hr & Hok & Ha).
    simpl in Ht. subst t'. by rewrite Hr, Hok, Ha.
  - destruct (db_task_leases db !! t) as [r|] eqn:Hr; [|done].
    destruct (renewable_row db a t r && assigned_to db a t) eqn:Hok; [|done].
    apply andb_true_iff in Hok as [Hok Ha]. apply list_find_None in Hf.
    rewrite Forall_forall in Hf. exfalso. apply (Hf (lease_from_row t r)); [|done].
    apply elem_of_renewable. eauto 10.
Qed.

(** What a renewal promises of its result *)
Definition renew_post (now : Z) (t a : string) (dur : Z) (db : Db) (res : result (unit * Db)) : Prop :=
  match db_task_leases db !! t with
  | Some row =>
      if renewable db t a
      then ∃ db', res = Ok (tt, db')
             ∧ db_task_leases db' = <[t := renew_row (now + duration_seconds dur) now row]>
                                      (db_task_leases db)
             ∧ db_agents db' = db_agents db
      else ∃ msg, res = Err (NotFound msg)
  | None => ∃ msg, res = Err (NotFound msg)
  end.

Lemma renew_lease_post clk t a dur db :
  (∀ row, db_task_leases db !! t = Some row → 0 ≤ l_epoch row < 2 ^ 63) →
  renew_post (clk 0%nat) t a dur db (lease_renew_lease clk t a dur db).
Proof.
  intros Hep. unfold renew_post, lease_renew_lease. rewrite find_renewable.
  destruct (db_task_leases db !! t) as [row|] eqn:Hrow.
  2:{ unfold renewable. rewrite Hrow. simpl. by eauto. }
  destruct (renewable db t a) eqn:Hok; simpl; [|by eauto].
  specialize (Hep row eq_refl). eexists. split_and!; [done| |done].
  rewrite (update_leases_one t) by apply exact_lease_key. rewrite Hrow.
  assert (exact_lease t a (as_u64 (Z.max 0 (l_epoch row))) t row = true) as ->; [|done].
  unfold renewable in Hok. rewrite Hrow in Hok. unfold renewable_row in Hok.
  apply andb_true_iff in Hok as [Hok _].
  repeat (apply andb_true_iff in Hok as [Hok ?]). unfold exact_lease.
  rewrite String.eqb_refl, Hok, Z.max_r, as_u64_small, as_i64_small by lia. simpl.
  apply andb_true_iff. split; [done|]. lia.
Qed.

(** A renewal extends exactly the caller's own running lease: it succeeds
    when the lease is active and the caller's, the caller is live, the task is
    in progress and its assignee resolves to the caller; then expiry, renewal
    time and count of that row change and nothing else of it (holder, epoch).
    In every other case it fails with NotFound and changes nothing. *)
Theorem renew_lease_spec clk t a dur db :
  (∀ row, db_task_leases db !! t = Some row → 0 ≤ l_epoch row < 2 ^ 63) →
  renew_post (clk 0%nat) t a dur db (lease_renew_lease clk t a dur db).
Proof. apply renew_lease_post. Qed.
