(* ===== verification/WorktreeLeases.v ===== *)
(** * Worktree leases ([crates/cas-store/src/agent_store/ops_worktree.rs])

    The exclusive, expiring claims of agents on worktrees, and the guard
    [can_agent_work_on_epic] that follows from them.  A query for one row
    ([query_row]) takes the first row of the selection. *)

From S2P Require Import Prelude Enums TaskTypes Db Leases LeaseStore.

(** ** Operations *)

(** [worktree_lease_from_row] *)
Definition worktree_lease_from_row (worktree_id : string) (r : WorktreeLeaseRow) : WorktreeLease :=
  {| wl_worktree_id := worktree_id; wl_agent_id := w_agent_id r;
     wl_status := unwrap_or (LeaseStatus_from_str (w_status r)) LeaseStatus_Active;
     wl_acquired_at := w_acquired_at r; wl_expires_at := w_expires_at r;
     wl_renewed_at := w_renewed_at r;
     wl_renewal_count := Z.max 0 (w_renewal_count r) mod 2 ^ 32 |}.

Definition worktree_active (r : WorktreeLeaseRow) : bool := String.eqb (w_status r) "active".

Definition by_worktree (worktree_id : string) (k : string) (r : WorktreeLeaseRow) : bool :=
  String.eqb k worktree_id.

(** [SET expires_at = ?, renewed_at = ?, renewal_count = renewal_count + 1] *)
Definition renew_worktree_row (expires_at now : Z) (r : WorktreeLeaseRow) : WorktreeLeaseRow :=
  r <| w_expires_at := expires_at |> <| w_renewed_at := now |>
    <| w_renewal_count ::= Z.add 1 |>.

Definition set_worktree_lease_status (s : string) (r : WorktreeLeaseRow) : WorktreeLeaseRow :=
  r <| w_status := s |>.

Definition worktree_claim_row (agent_id : string) (now expires_at : Z) : WorktreeLeaseRow :=
  {| w_agent_id := agent_id; w_status := "active"; w_acquired_at := now;
     w_expires_at := expires_at; w_renewed_at := now; w_renewal_count := 0 |}.

Definition worktree_try_claim_worktree (clk : Clock) (worktree_id agent_id : string)
    (duration_secs : Z) (db : Db) : result (WorktreeClaimResult * Db) :=
  let now := clk 0%nat in
  let expires_at := now + duration_seconds duration_secs in
  let lease renewal_count :=
    {| wl_worktree_id := worktree_id; wl_agent_id := agent_id; wl_status := LeaseStatus_Active;
       wl_acquired_at := now; wl_expires_at := expires_at; wl_renewed_at := now;
       wl_renewal_count := renewal_count |} in
  (* the UPDATE of a dead lease and the INSERT of a new one leave the same row *)
  let grab :=
    db ← put_worktree_lease worktree_id (worktree_claim_row agent_id now expires_at) db;
    Ok (WorktreeClaimResult_Success (lease 0), db) in
  match db_worktree_leases db !! worktree_id with
  | Some row =>
      if worktree_active row && (now <? w_expires_at row)
      then
        if String.eqb (w_agent_id row) agent_id
        then
          let db := update_worktree_leases (by_worktree worktree_id)
                      (renew_worktree_row expires_at now) db in
          Ok (WorktreeClaimResult_Success (lease 1), db)
        else Ok (WorktreeClaimResult_AlreadyClaimed worktree_id (w_agent_id row)
                   (w_expires_at row), db)
      else grab
  | None => grab
  end.

Definition worktree_release_worktree_lease (worktree_id agent_id : string) (db : Db)
    : result (unit * Db) :=
  let owner :=
    r ← db_worktree_leases db !! worktree_id;
    if worktree_active r then Some (w_agent_id r) else None in
  match owner with
  | Some owner_id =>
      if String.eqb owner_id agent_id
      then Ok (tt, update_worktree_leases (by_worktree worktree_id)
                     (set_worktree_lease_status "released") db)
      else Err (Parse ("Worktree " +:+ worktree_id +:+ " is not owned by agent " +:+ agent_id))
  | None => Err (NotFound ("No active lease found for worktree " +:+ worktree_id))
  end.

(** [worktree_id = ? AND agent_id = ? AND status = 'active'] *)
Definition owned_worktree (worktree_id agent_id : string) (k : string) (r : WorktreeLeaseRow)
    : bool :=
  String.eqb k worktree_id && String.eqb (w_agent_id r) agent_id && worktree_active r.

Definition worktree_renew_worktree_lease (clk : Clock) (worktree_id agent_id : string)
    (duration_secs : Z) (db : Db) : result (unit * Db) :=
  let now := clk 0%nat in
  let expires_at := now + duration_seconds duration_secs in
  let rows := sql_count (owned_worktree worktree_id agent_id) (db_worktree_leases db) in
  let db := update_worktree_leases (owned_worktree worktree_id agent_id)
              (renew_worktree_row expires_at now) db in
  if (rows =? 0)%nat
  then Err (NotFound ("No active lease found for worktree " +:+ worktree_id
                      +:+ " owned by " +:+ agent_id))
  else Ok (tt, db).

Definition worktree_get_worktree_lease (worktree_id : string) (db : Db) : option WorktreeLease :=
  r ← db_worktree_leases db !! worktree_id;
  if worktree_active r then Some (worktree_lease_from_row worktree_id r) else None.

(** [w.epic_id = ? AND w.status = 'active'] *)
Definition active_worktree_of (epic_id : string) (r : WorktreeRow) : bool :=
  bool_decide (wt_epic_id r = Some epic_id) && String.eqb (wt_status r) "active".

Definition worktree_get_worktree_lease_for_epic (epic_id : string) (db : Db)
    : option WorktreeLease :=
  kr ← head (sql_select
    (λ k r, worktree_active r
            && match db_worktrees db !! k with
               | Some w => active_worktree_of epic_id w
               | None => false
               end) (db_worktree_leases db));
  Some (worktree_lease_from_row kr.1 kr.2).

Definition worktree_leases_of_rows (rows : list (string * WorktreeLeaseRow)) : list WorktreeLease :=
  (λ kr, worktree_lease_from_row kr.1 kr.2) <$> rows.

Definition worktree_list_agent_worktree_leases (agent_id : string) (db : Db) : list WorktreeLease :=
  worktree_leases_of_rows
    (order_by (le_of (desc (λ kr, w_acquired_at kr.2)))
       (sql_select (λ _ r, String.eqb (w_agent_id r) agent_id && worktree_active r)
          (db_worktree_leases db))).

Definition worktree_list_active_worktree_leases (db : Db) : list WorktreeLease :=
  worktree_leases_of_rows
    (order_by (le_of (asc (λ kr, w_expires_at kr.2)))
       (sql_select (λ _ r, worktree_active r) (db_worktree_leases db))).

(** [status = 'active' AND expires_at < now] *)
Definition worktree_overdue (now : Z) (r : WorktreeLeaseRow) : bool :=
  worktree_active r && (w_expires_at r <? now).

Definition worktree_reclaim_expired_worktree_leases (clk : Clock) (db : Db) : result (nat * Db) :=
  let now := clk 0%nat in
  Ok (sql_count (λ _ r, worktree_overdue now r) (db_worktree_leases db),
      update_worktree_leases (λ _ r, worktree_overdue now r)
        (set_worktree_lease_status "expired") db).

Definition worktree_can_agent_work_on_epic (clk : Clock) (agent_id epic_id : string) (db : Db)
    : bool :=
  match head (sql_select (λ _ w, active_worktree_of epic_id w) (db_worktrees db)) with
  | None => true
  | Some (wt_id, _) =>
      let lease_info :=
        r ← db_worktree_leases db !! wt_id; if worktree_active r then Some r else None in
      match lease_info with
      | None => true
      | Some r =>
          if w_expires_at r <=? clk 0%nat then true else String.eqb (w_agent_id r) agent_id
      end
  end.

(** ** Lemmas *)

Lemma by_worktree_key wt k r : by_worktree wt k r = true → k = wt.
Proof. apply String.eqb_eq. Qed.

Lemma owned_worktree_key wt a k r : owned_worktree wt a k r = true → k = wt.
Proof. unfold owned_worktree. intros H. by bool_to_prop. Qed.

Lemma update_worktree_leases_one wt P f db :
  (∀ k r, P k r = true → k = wt) →
  db_worktree_leases (update_worktree_leases P f db) =
    match db_worktree_leases db !! wt with
    | Some r => if P wt r then <[wt := f r]> (db_worktree_leases db) else db_worktree_leases db
    | None => db_worktree_leases db
    end.
Proof. intros Hk. unfold update_worktree_leases. simpl. by apply sql_update_one. Qed.

(** The lease of a worktree in force at an instant *)
Definition worktree_holder (db : Db) (now : Z) (worktree_id : string) : option string :=
  r ← db_worktree_leases db !! worktree_id;
  if worktree_active r && (now <? w_expires_at r) then Some (w_agent_id r) else None.

(** A worktree claim is exclusive and renewing.  Held by another agent, it
    answers with that holder and changes nothing; held by the caller, it only
    extends the row (acquisition time kept, count one up) although the lease it
    returns carries a new acquisition time and count 1; held by nobody, the
    registered caller gets a fresh row, an unregistered one the foreign-key
    error. *)
Theorem try_claim_worktree_spec clk wt a dur db :
  let now := clk 0%nat in
  let expires_at := now + duration_seconds dur in
  match worktree_holder db now wt with
  | Some h =>
      if String.eqb h a
      then ∃ row db', db_worktree_leases db !! wt = Some row
             ∧ worktree_try_claim_worktree clk wt a dur db
               = Ok (WorktreeClaimResult_Success
                       (WorktreeLease_new now wt a dur <| wl_renewal_count := 1 |>), db')
             ∧ db_worktree_leases db' =
                 <[wt := renew_worktree_row expires_at now row]> (db_worktree_leases db)
      else ∃ row, db_worktree_leases db !! wt = Some row ∧ w_agent_id row = h
             ∧ worktree_try_claim_worktree clk wt a dur db
               = Ok (WorktreeClaimResult_AlreadyClaimed wt h (w_expires_at row), db)
  | None =>
      if agent_exists db a
      then ∃ db', worktree_try_claim_worktree clk wt a dur db
               = Ok (WorktreeClaimResult_Success (WorktreeLease_new now wt a dur), db')
             ∧ db_worktree_leases db' =
                 <[wt := worktree_claim_row a now expires_at]> (db_worktree_leases db)
      else worktree_try_claim_worktree clk wt a dur db = Err fk_error
  end.
Proof.
  intros now expires_at. unfold worktree_holder, worktree_try_claim_worktree.
  assert (match agent_exists db a with
    | true => ∃ db',
        (db ← put_worktree_lease wt (worktree_claim_row a now expires_at) db;
         Ok (WorktreeClaimResult_Success (WorktreeLease_new now wt a dur), db)) =
          Ok (E := StoreError) (WorktreeClaimResult_Success (WorktreeLease_new now wt a dur), db')
        ∧ db_worktree_leases db' =
            <[wt := worktree_claim_row a now expires_at]> (db_worktree_leases db)
    | false =>
        (db ← put_worktree_lease wt (worktree_claim_row a now expires_at) db;
         Ok (WorktreeClaimResult_Success (WorktreeLease_new now wt a dur), db)) = Err fk_error
    end) as Hgrab.
  { unfold put_worktree_lease, check_fk. simpl. destruct (agent_exists db a); simpl; eauto. }
  fold now expires_at.
  destruct (db_worktree_leases db !! wt) as [row|] eqn:Hrow; simpl; [|exact Hgrab].
  destruct (worktree_active row && (now <? w_expires_at row)); simpl; [|exact Hgrab].
  destruct (String.eqb (w_agent_id row) a); [|by eauto].
  eexists row, _. split_and!; [done..|].
  rewrite (update_worktree_leases_one wt) by apply by_worktree_key.
  unfold by_worktree. by rewrite Hrow, String.eqb_refl.
Qed.

(** An agent may work on an epic exactly when no other agent holds, at that
    instant, the lease of the epic's active worktree.  The query reads one row,
    so the epic has at most one active worktree. *)
Theorem can_agent_work_on_epic_spec clk a epic db :
  (∀ k1 k2 w1 w2, db_worktrees db !! k1 = Some w1 → db_worktrees db !! k2 = Some w2 →
     active_worktree_of epic w1 = true → active_worktree_of epic w2 = true → k1 = k2) →
  worktree_can_agent_work_on_epic clk a epic db = true ↔
  ∀ k w h, db_worktrees db !! k = Some w → active_worktree_of epic w = true →
    worktree_holder db (clk 0%nat) k = Some h → h = a.
Proof.
  intros Huniq. unfold worktree_can_agent_work_on_epic, worktree_holder.
  destruct (sql_select _ _) as [|[k w] l] eqn:Hsel; simpl.
  - split; [|done]. intros _ k w h Hk Hw. exfalso.
    assert ((k, w) ∈ sql_select (λ _ w, active_worktree_of epic w) (db_worktrees db)) as Hin
      by (by apply elem_of_sql_select).
    rewrite Hsel in Hin. by apply elem_of_nil in Hin.
  - assert ((k, w) ∈ sql_select (λ _ w, active_worktree_of epic w) (db_worktrees db))
      as [Hk Hw]%elem_of_sql_select by (rewrite Hsel; left).
    transitivity (∀ h, (r ← db_worktree_leases db !! k;
      if worktree_active r && (clk 0%nat <? w_expires_at r) then Some (w_agent_id r) else None)
        = Some h → h = a);
      [|split; [intros HP k' w' h Hk' Hw'; rewrite (Huniq k' k w' w) by done; apply HP|by eauto]].
    destruct (db_worktree_leases db !! k) as [r|]; simpl; [|naive_solver].
    destruct (worktree_active r); simpl; [|naive_solver].
    destruct (Z.leb_spec (w_expires_at r) (clk 0%nat)), (Z.ltb_spec (clk 0%nat) (w_expires_at r));
      try lia; [naive_solver|]. rewrite String.eqb_eq. naive_solver.
Qed.
