(* ===== verification/SupervisorQueue.v ===== *)
(** * The supervisor queue ([crates/cas-store/src/supervisor_queue_store.rs])

    Notifications of the Director to a supervisor.  A row without a transition
    key is pulled by [poll]; a row with one is an outbox row, whose prompt a
    relay injects and then stamps.  The last section is the driver of bounded
    retention ([retention.rs]). *)

From S2P Require Import Prelude Logs Enums Db.

(** ** Priorities and severities *)
Inductive NotificationPriority :=
  | NotificationPriority_Critical | NotificationPriority_High | NotificationPriority_Normal.
#[export] Instance NotificationPriority_eq_dec : EqDecision NotificationPriority.
Proof. solve_decision. Defined.
Definition NotificationPriority_from_u8 (value : Z) : NotificationPriority :=
  match value with
  | 0 => NotificationPriority_Critical
  | 1 => NotificationPriority_High
  | _ => NotificationPriority_Normal
  end.
Definition NotificationPriority_to_i32 (p : NotificationPriority) : Z :=
  match p with
  | NotificationPriority_Critical => 0
  | NotificationPriority_High => 1
  | NotificationPriority_Normal => 2
  end.

Inductive AlarmClass := AlarmClass_Blocker | AlarmClass_Action | AlarmClass_Info.
Definition AlarmClass_wakes_idle (c : AlarmClass) : bool :=
  match c with AlarmClass_Blocker | AlarmClass_Action => true | AlarmClass_Info => false end.

Record SupervisorNotification := mkSupervisorNotification {
  sn_id : Z;
  sn_supervisor_id : string;
  sn_event_type : string;
  sn_payload : string;
  sn_priority : NotificationPriority;
  sn_created_at : Z;
  sn_processed_at : option Z;
  sn_transition_key : option string;
  sn_prompt_delivered_at : option Z;
}.

(** [notification_from_row]; the priority is read as a u8. *)
Definition notification_from_row (r : SupervisorRow) : result SupervisorNotification :=
  if (0 <=? sq_priority r) && (sq_priority r <? 256)
  then Ok (mkSupervisorNotification (sq_id r) (sq_supervisor_id r) (sq_event_type r) (sq_payload r)
             (NotificationPriority_from_u8 (sq_priority r)) (sq_created_at r) (sq_processed_at r)
             (sq_transition_key r) (sq_prompt_delivered_at r))
  else Err (Database ("Integer " +:+ show_z (sq_priority r) +:+ " out of range at index 4")).

Inductive NotifyIdempotentResult := Created (id : Z) | AlreadyExists (id : Z) (prompt_delivered : bool).

Definition mark_processed_row (now : Z) (r : SupervisorRow) : SupervisorRow :=
  r <| sq_processed_at := Some now |>.
#[export] Instance SupervisorRow_queue : Queue SupervisorRow := {|
  q_processed := sq_processed_at;
  q_mark := mark_processed_row;
  q_mark_id := λ _ _, eq_refl;
  q_mark_processed := λ _ _, eq_refl |}.

Section supervisor_queue.
Context {host : Host}.
Implicit Types (db : Db) (q : Log SupervisorRow) (r : SupervisorRow).

(** ** Notifying *)
Definition notification_row (supervisor_id event_type payload : string) (priority : NotificationPriority)
    (now : Z) (transition_key : option string) (id : Z) : SupervisorRow :=
  mkSupervisorRow id supervisor_id event_type payload (NotificationPriority_to_i32 priority) now
    None transition_key None.

Definition notify (clk : Clock) (supervisor_id event_type payload : string)
    (priority : NotificationPriority) db : result (Z * Db) :=
  '(id, q) ← log_insert (notification_row supervisor_id event_type payload priority (clk 0%nat) None)
               (db_supervisor_queue db);
  Ok (id, db <| db_supervisor_queue := q |>).

Definition has_key (key : string) r : bool := bool_decide (sq_transition_key r = Some key).

(** INSERT OR IGNORE under the unique index on [transition_key]: the id of the
    new row, or none when a row has the key *)
Definition insert_or_ignore (mk : option string → Z → SupervisorRow) (key : string) q
    : result (option Z * Log SupervisorRow) :=
  '(id, q') ← log_insert (mk (Some key)) q;
  Ok (if existsb (has_key key) (log_rows q) then (None, q) else (Some id, q')).

Definition existing_transition (key : string) q : result NotifyIdempotentResult :=
  match head (log_select (has_key key) q) with
  | Some r => Ok (AlreadyExists (sq_id r) (negb (is_none (sq_prompt_delivered_at r))))
  | None => Err (Database "Query returned no rows")
  end.

Definition record_transition (mk : option string → Z → SupervisorRow) (key : string) q
    : result (NotifyIdempotentResult * Log SupervisorRow) :=
  '(inserted, q) ← insert_or_ignore mk key q;
  answer ← match inserted with Some id => Ok (Created id) | None => existing_transition key q end;
  Ok (answer, q).

Definition notify_idempotent (clk : Clock) (supervisor_id event_type payload : string)
    (priority : NotificationPriority) (transition_key : string) db
    : result (NotifyIdempotentResult * Db) :=
  '(answer, q) ← record_transition (notification_row supervisor_id event_type payload priority (clk 0%nat))
                   transition_key (db_supervisor_queue db);
  Ok (answer, db <| db_supervisor_queue := q |>).

(** ** Folding members into one relay *)

(** A member not injected yet, whose key starts with [member] *)
Definition folded_member (folded_event_type member : string) r : bool :=
  String.eqb (sq_event_type r) folded_event_type && is_none (sq_prompt_delivered_at r)
  && match sq_transition_key r with Some key => starts_with member key | None => false end.

Definition fold_others (folded_event_type member supervisor_id : string) q : list string :=
  remove_dups (sq_supervisor_id <$>
    log_select (λ r, folded_member folded_event_type member r
                     && negb (String.eqb (sq_supervisor_id r) supervisor_id)) q).

Definition copy_key (transition_key other : string) : string := transition_key +:+ ":" +:+ other.

(** The copy of the relay for one other recipient *)
Definition insert_copy (event_type payload : string) (priority : NotificationPriority) (now : Z)
    (transition_key other : string) q : result (Log SupervisorRow) :=
  payload ← ok_or (sqlite_json_set "fold_copy_for" other payload) (Database "malformed JSON");
  snd <$> insert_or_ignore (notification_row other event_type payload priority now)
            (copy_key transition_key other) q.

(** A loop that stops at the first error *)
Fixpoint try_fold {A S} (f : A → S → result S) (l : list A) (s : S) : result S :=
  match l with [] => Ok s | a :: l => s ← f a s; try_fold f l s end.

Definition stamp_row (now : Z) r : SupervisorRow :=
  r <| sq_prompt_delivered_at ::= λ o, coalesce o (Some now) |>
    <| sq_processed_at ::= λ o, coalesce o (Some now) |>.

Definition stamp_members (folded_event_type : string) (now : Z) (prefixes : list string) q
    : Log SupervisorRow :=
  foldl (λ q prefix, log_update (folded_member folded_event_type (prefix +:+ ":")) (stamp_row now) q)
    q prefixes.

Definition copy_fold (supervisor_id event_type payload : string) (priority : NotificationPriority)
    (now : Z) (transition_key folded_event_type : string) (prefixes : list string) q
    : result (Log SupervisorRow) :=
  try_fold (λ prefix q,
      try_fold (insert_copy event_type payload priority now transition_key)
        (fold_others folded_event_type (prefix +:+ ":") supervisor_id q) q) prefixes q.

Definition notify_idempotent_folding (clk : Clock) (supervisor_id event_type payload : string)
    (priority : NotificationPriority) (transition_key folded_event_type : string)
    (folded_key_prefixes : list string) db : result (NotifyIdempotentResult * Db) :=
  let now := clk 0%nat in
  '(answer, q) ← record_transition (notification_row supervisor_id event_type payload priority now)
                   transition_key (db_supervisor_queue db);
  q ← copy_fold supervisor_id event_type payload priority now transition_key folded_event_type
        folded_key_prefixes q;
  Ok (answer, db <| db_supervisor_queue := stamp_members folded_event_type now folded_key_prefixes q |>).

(** ** The outbox *)
Definition mark_prompt_delivered (clk : Clock) (notification_id : Z) db : result (unit * Db) :=
  Ok (tt, db <| db_supervisor_queue ::=
        log_update (λ r, by_id notification_id r && is_none (sq_prompt_delivered_at r))
          (λ r, r <| sq_prompt_delivered_at := Some (clk 0%nat) |>) |>).

Definition read_one (o : option SupervisorRow) : result (option SupervisorNotification) :=
  match o with Some r => Some <$> notification_from_row r | None => Ok None end.
Definition get_by_transition_key (key : string) db : result (option SupervisorNotification) :=
  read_one (head (log_select (has_key key) (db_supervisor_queue db))).
Definition get_notification (notification_id : Z) db : result (option SupervisorNotification) :=
  read_one (log_get notification_id (db_supervisor_queue db)).

Definition lifecycle_outbox r : bool :=
  String.eqb (sq_event_type r) "task_lifecycle" && negb (is_none (sq_transition_key r))
  && is_none (sq_prompt_delivered_at r).
Definition list_pending_lifecycle_outbox (limit : Z) db : result (list SupervisorNotification) :=
  mapM notification_from_row
    (sql_limit (as_i64 limit) (order_by (le_of (asc sq_id))
       (log_select lifecycle_outbox (db_supervisor_queue db)))).

Definition by_priority : SupervisorRow → SupervisorRow → comparison :=
  then_by (asc sq_priority) (asc sq_created_at).
Definition prompt_outbox (supervisor_id event_type : string) r : bool :=
  String.eqb (sq_supervisor_id r) supervisor_id && String.eqb (sq_event_type r) event_type
  && is_none (sq_processed_at r) && is_none (sq_prompt_delivered_at r).
Definition list_pending_prompt_outbox (supervisor_id event_type : string) (limit : Z) db
    : result (list SupervisorNotification) :=
  mapM notification_from_row
    (sql_limit (as_i64 limit) (order_by (le_of (then_by by_priority (asc sq_id)))
       (log_select (prompt_outbox supervisor_id event_type) (db_supervisor_queue db)))).
Definition list_pending_prompt_outbox_between (supervisor_id event_type : string)
    (created_after created_before : Z) (limit : Z) db : result (list SupervisorNotification) :=
  mapM notification_from_row
    (sql_limit (as_i64 limit) (order_by (le_of (then_by by_priority (asc sq_id)))
       (log_select (λ r, prompt_outbox supervisor_id event_type r
                         && (julianday created_after <=? julianday (sq_created_at r))
                         && (julianday (sq_created_at r) <? julianday created_before))
          (db_supervisor_queue db)))).

(** ** Pulling *)
Definition addressed_to (supervisor_id : string) r : bool :=
  String.eqb (sq_supervisor_id r) supervisor_id.

(** [poll] is a SELECT and an UPDATE, each its own transaction. *)
Definition poll_read (supervisor_id : string) (limit : Z) db : result (list SupervisorNotification) :=
  mapM notification_from_row
    (poll_select (addressed_to supervisor_id) by_priority (as_i64 limit) (db_supervisor_queue db)).
Definition poll_write (now : Z) (notifications : list SupervisorNotification) db : Db :=
  match notifications with
  | [] => db
  | _ => db <| db_supervisor_queue ::= poll_mark now (sn_id <$> notifications) |>
  end.
Definition poll_notifications (clk : Clock) (supervisor_id : string) (limit : Z) db
    : result (list SupervisorNotification * Db) :=
  notifications ← poll_read supervisor_id limit db;
  Ok (notifications, poll_write (clk 0%nat) notifications db).

Definition peek (supervisor_id : string) (limit : Z) db : result (list SupervisorNotification) :=
  poll_read supervisor_id limit db.

Definition pending_row r : bool := is_none (sq_processed_at r).
Definition ack (clk : Clock) (notification_id : Z) db : result (unit * Db) :=
  let mine r := by_id notification_id r && pending_row r in
  if (log_count mine (db_supervisor_queue db) =? 0)%nat
  then Err (NotFound ("Notification not found or already processed: " +:+ show_z notification_id))
  else Ok (tt, db <| db_supervisor_queue ::=
                 log_update mine (mark_processed_row (clk 0%nat)) |>).

Definition pending_count (supervisor_id : string) db : nat :=
  log_count (λ r, addressed_to supervisor_id r && pending_row r) (db_supervisor_queue db).
Definition list_pending (supervisor_id : string) db : result (list SupervisorNotification) :=
  mapM notification_from_row (order_by (le_of by_priority)
    (log_select (λ r, addressed_to supervisor_id r && pending_row r) (db_supervisor_queue db))).

(** ** History *)
Definition event_history_since (event_type : string) (since : Z) db
    : result (list SupervisorNotification) :=
  mapM notification_from_row
    (order_by (le_of (then_by (asc (λ r, julianday (sq_created_at r))) (asc sq_id)))
       (log_select (λ r, String.eqb (sq_event_type r) event_type
                         && (julianday since <=? julianday (sq_created_at r)))
          (db_supervisor_queue db))).

Definition list_for_session_until (factory_session : string) (supervisor_ids : list string)
    (until : option Z) (limit : Z) db : list SupervisorNotification :=
  if limit =? 0 then []
  else
    let concerns r :=
      bool_decide (sq_supervisor_id r ∈ supervisor_ids)
      || bool_decide (sqlite_json_extract "factory_session" (sq_payload r)
                      = Some (SqlText factory_session)) in
    let before r := match until with
                    | Some at_ => julianday (sq_created_at r) <=? julianday at_
                    | None => true
                    end in
    omap (λ r, result_ok (notification_from_row r))
      (sql_limit (as_i64 limit)
         (order_by (le_of (then_by (desc (λ r, julianday (sq_created_at r))) (desc sq_id)))
            (log_select (λ r, concerns r && before r) (db_supervisor_queue db)))).

(** ** Retention *)
Definition delete_rows (P : SupervisorRow → bool) db : result (nat * Db) :=
  Ok (log_count P (db_supervisor_queue db), db <| db_supervisor_queue ::= log_delete P |>).

Definition clear (supervisor_id : string) db : result (nat * Db) :=
  delete_rows (addressed_to supervisor_id) db.
Definition cleanup_old (clk : Clock) (older_than_secs : Z) db : result (nat * Db) :=
  let cutoff := clk 0%nat - duration_seconds older_than_secs in
  delete_rows (λ r, match sq_processed_at r with Some at_ => at_ <? cutoff | None => false end) db.

(** The prompt of a fired reminder is in the prompt queue. *)
Definition reminder_delivered r db : bool :=
  match sqlite_json_extract "reminder_id" (sq_payload r) with
  | Some id => existsb (λ p, bool_decide (pq_dedupe_key p = Some ("reminder-fired:" +:+ sql_text id)))
                 (log_rows (db_prompts db))
  | None => false
  end.
(** The session that the row names has no registered agent but stopped ones. *)
Definition ended_attention r db : bool :=
  match sqlite_json_extract "factory_session" (sq_payload r) with
  | Some v =>
      let session := sql_text v in
      negb (String.eqb session "")
      && negb (sql_exists (λ _ a, bool_decide (a_factory_session a = Some session)
                                  && negb (String.eqb (a_status a) "shutdown")) (db_agents db))
  | None => false
  end.
(** [has_agents] and [has_prompt_queue]: those tables exist. *)
Definition finished_row (has_agents has_prompt_queue : bool) db r : bool :=
  match sq_transition_key r with
  | None =>
      negb (pending_row r)
      || String.eqb (sq_event_type r) "reminder_fired" && has_prompt_queue && reminder_delivered r db
  | Some key =>
      negb (is_none (sq_prompt_delivered_at r))
      && (negb (like_prefix "worker-attention:" key) || has_agents && ended_attention r db)
      && negb (like_prefix "integration:" key)
  end.

Definition RETENTION_MAX_BATCH : Z := 1000.
(** [usize::clamp_batch] *)
Definition clamp_batch (lo hi z : Z) : Z := Z.max lo (Z.min hi z).

Definition prune_victims (has_agents has_prompt_queue : bool) (cutoff batch : Z) db : list Z :=
  sq_id <$> sql_limit batch (order_by (le_of (asc sq_id))
    (log_select (λ r, (sq_created_at r <? cutoff) && finished_row has_agents has_prompt_queue db r)
       (db_supervisor_queue db))).
Definition prune_finished_batch (has_agents has_prompt_queue : bool) (clk : Clock)
    (older_than_secs batch : Z) db : result (nat * Db) :=
  if older_than_secs <=? 0 then Err (Other "prune_finished_batch requires a positive window")
  else
    let batch := clamp_batch 1 RETENTION_MAX_BATCH batch in
    let cutoff := clk 0%nat - duration_seconds older_than_secs in
    delete_rows (among (prune_victims has_agents has_prompt_queue cutoff batch db)) db.
End supervisor_queue.

(** ** The retention driver ([retention.rs], [run_retention_batches])

    A batch that committed stays committed when a later one fails, so the run
    returns the state beside its result.  [budget] is the number of batches still
    allowed; the pauses between batches are not modelled. *)
Record RetentionReport := mkRetentionReport {
  rr_affected : nat;
  rr_batches : nat;
  rr_largest_batch : nat;
  rr_complete : bool;
}.

Section retention.
Context {S : Type} (step : Z → S → result (nat * S)).

Fixpoint retention_loop (budget : nat) (batch : Z) (report : RetentionReport) (s : S)
    : result RetentionReport * S :=
  match budget with
  | O => (Ok (mkRetentionReport (rr_affected report) (rr_batches report) (rr_largest_batch report) false), s)
  | Datatypes.S budget =>
      match step batch s with
      | Err e => (Err e, s)
      | Ok (affected, s) =>
          if (affected =? 0)%nat then (Ok report, s)
          else
            let report := mkRetentionReport (rr_affected report + affected) (rr_batches report + 1)
                            (Nat.max (rr_largest_batch report) affected) (rr_complete report) in
            if Z.of_nat affected <? batch then (Ok report, s)
            else retention_loop budget batch report s
      end
  end.

Definition run_retention_batches (batch_size : Z) (max_batches : nat) (s : S)
    : result RetentionReport * S :=
  retention_loop max_batches (clamp_batch 1 RETENTION_MAX_BATCH batch_size)
    (mkRetentionReport 0 0 0 true) s.
End retention.
