(* ===== verification/PromptTypes.v ===== *)
(** * Vocabularies of the prompt queue
      ([crates/cas-store/src/prompt_queue_store.rs])

    Delivery stages and pending reasons, the receipts of a recipient, the origin
    of a row, the answers of the queue, and a queued prompt as the store returns
    it. *)

From S2P Require Import Prelude Logs Enums VerifierText Db SupervisorQueue.

(** ** Limits *)
Definition PROMPT_RETRY_MAX_ATTEMPTS : Z := 120.
Definition PROMPT_RETRY_MAX_AGE_SECS : Z := 15 * 60.
Definition PROMPT_RETRY_BASE_DELAY_MS : Z := 250.
Definition PROMPT_RETRY_MAX_DELAY_MS : Z := 5000.
Definition PROMPT_QUEUE_STALE_TTL_SECS : Z := 24 * 60 * 60.
Definition HOOK_SURFACE_BUDGET_CHARS : Z := 5000.
Definition HOOK_SURFACE_ROW_OVERHEAD_CHARS : Z := 400.
Definition NOTICE_DIGEST_KIND : string := "notice_digest".

Definition hook_surface_cost (prompt : string) : Z :=
  Z.of_nat (length (chars (trim prompt))) + HOOK_SURFACE_ROW_OVERHEAD_CHARS.
Definition fits_hook_surface (prompt : string) : bool :=
  hook_surface_cost prompt <=? HOOK_SURFACE_BUDGET_CHARS.

(** ** Stages *)
Inductive DeliveryStage :=
  | DeliveryStage_Enqueued | DeliveryStage_Selected | DeliveryStage_Gated
  | DeliveryStage_Dropped | DeliveryStage_Suppressed | DeliveryStage_Abandoned
  | DeliveryStage_PartiallyDelivered | DeliveryStage_Delivered
  | DeliveryStage_AssumedSeen | DeliveryStage_Confirmed.
#[export] Instance DeliveryStage_eq_dec : EqDecision DeliveryStage.
Proof. solve_decision. Defined.

Definition DeliveryStage_rank (s : DeliveryStage) : Z :=
  match s with
  | DeliveryStage_Enqueued => 0
  | DeliveryStage_Selected => 1
  | DeliveryStage_Gated => 2
  | DeliveryStage_Dropped | DeliveryStage_Suppressed | DeliveryStage_Abandoned
  | DeliveryStage_PartiallyDelivered | DeliveryStage_Delivered => 3
  | DeliveryStage_AssumedSeen => 4
  | DeliveryStage_Confirmed => 5
  end.
Definition DeliveryStage_as_str (s : DeliveryStage) : string :=
  match s with
  | DeliveryStage_Enqueued => "enqueued"
  | DeliveryStage_Selected => "selected"
  | DeliveryStage_Gated => "gated"
  | DeliveryStage_Dropped => "dropped"
  | DeliveryStage_Suppressed => "suppressed"
  | DeliveryStage_Abandoned => "abandoned"
  | DeliveryStage_PartiallyDelivered => "partially_delivered"
  | DeliveryStage_Delivered => "delivered"
  | DeliveryStage_AssumedSeen => "assumed_seen"
  | DeliveryStage_Confirmed => "confirmed"
  end.
Definition DeliveryStage_parse (s : string) : option DeliveryStage :=
  lookup_text s
    [("enqueued", DeliveryStage_Enqueued); ("selected", DeliveryStage_Selected);
     ("gated", DeliveryStage_Gated); ("dropped", DeliveryStage_Dropped);
     ("suppressed", DeliveryStage_Suppressed); ("abandoned", DeliveryStage_Abandoned);
     ("partially_delivered", DeliveryStage_PartiallyDelivered);
     ("delivered", DeliveryStage_Delivered); ("assumed_seen", DeliveryStage_AssumedSeen);
     ("confirmed", DeliveryStage_Confirmed)].
Definition DeliveryStage_is_terminal_non_delivery (s : DeliveryStage) : bool :=
  match s with
  | DeliveryStage_Dropped | DeliveryStage_Suppressed | DeliveryStage_Abandoned => true
  | _ => false
  end.
Definition DeliveryStage_can_transition_to (self to : DeliveryStage) : bool :=
  bool_decide (self = to) || (DeliveryStage_rank self <? DeliveryStage_rank to)
  || bool_decide (self = DeliveryStage_PartiallyDelivered) && bool_decide (to = DeliveryStage_Delivered).

(** ** Reasons *)
Inductive PendingReason :=
  | PendingReason_SessionIneligible | PendingReason_TargetUnavailable | PendingReason_GatedNotReady
  | PendingReason_AdapterRetryable | PendingReason_AwaitingDelivery | PendingReason_AwaitingAck
  | PendingReason_UndeliveredAfterWakeDeclines | PendingReason_AwaitingBusyRecipient
  | PendingReason_DroppedDeadSource | PendingReason_SuppressedIdle | PendingReason_SupersededStale
  | PendingReason_ShutdownCancelled | PendingReason_AbandonedUnknownTarget
  | PendingReason_RecipientEndedUnread | PendingReason_UndeliveredLifecycleRelay
  | PendingReason_PartialBroadcast | PendingReason_NoIntendedRecipients.
#[export] Instance PendingReason_eq_dec : EqDecision PendingReason.
Proof. solve_decision. Defined.

Definition PendingReason_as_str (r : PendingReason) : string :=
  match r with
  | PendingReason_SessionIneligible => "session_ineligible"
  | PendingReason_TargetUnavailable => "target_unavailable"
  | PendingReason_GatedNotReady => "gated_not_ready"
  | PendingReason_AdapterRetryable => "adapter_retryable"
  | PendingReason_AwaitingDelivery => "awaiting_delivery"
  | PendingReason_AwaitingAck => "awaiting_ack"
  | PendingReason_UndeliveredAfterWakeDeclines => "undelivered_after_wake_declines"
  | PendingReason_AwaitingBusyRecipient => "awaiting_busy_recipient"
  | PendingReason_DroppedDeadSource => "dropped_dead_source"
  | PendingReason_SuppressedIdle => "suppressed_idle"
  | PendingReason_SupersededStale => "superseded_stale"
  | PendingReason_ShutdownCancelled => "shutdown_cancelled"
  | PendingReason_AbandonedUnknownTarget => "abandoned_unknown_target"
  | PendingReason_RecipientEndedUnread => "recipient_ended_unread"
  | PendingReason_UndeliveredLifecycleRelay => "undelivered_lifecycle_relay"
  | PendingReason_PartialBroadcast => "partial_broadcast"
  | PendingReason_NoIntendedRecipients => "no_intended_recipients"
  end.
Definition PendingReason_parse (s : string) : option PendingReason :=
  lookup_text s
    [("session_ineligible", PendingReason_SessionIneligible);
     ("target_unavailable", PendingReason_TargetUnavailable);
     ("gated_not_ready", PendingReason_GatedNotReady);
     ("adapter_retryable", PendingReason_AdapterRetryable);
     ("awaiting_delivery", PendingReason_AwaitingDelivery);
     ("awaiting_ack", PendingReason_AwaitingAck);
     ("undelivered_after_wake_declines", PendingReason_UndeliveredAfterWakeDeclines);
     ("awaiting_busy_recipient", PendingReason_AwaitingBusyRecipient);
     ("dropped_dead_source", PendingReason_DroppedDeadSource);
     ("suppressed_idle", PendingReason_SuppressedIdle);
     ("superseded_stale", PendingReason_SupersededStale);
     ("shutdown_cancelled", PendingReason_ShutdownCancelled);
     ("abandoned_unknown_target", PendingReason_AbandonedUnknownTarget);
     ("recipient_ended_unread", PendingReason_RecipientEndedUnread);
     ("undelivered_lifecycle_relay", PendingReason_UndeliveredLifecycleRelay);
     ("partial_broadcast", PendingReason_PartialBroadcast);
     ("no_intended_recipients", PendingReason_NoIntendedRecipients);
     ("behind_queue_head", PendingReason_AwaitingDelivery)].
Definition PendingReason_implied_stage (r : PendingReason) : DeliveryStage :=
  match r with
  | PendingReason_GatedNotReady | PendingReason_TargetUnavailable
  | PendingReason_AwaitingBusyRecipient => DeliveryStage_Gated
  | PendingReason_DroppedDeadSource => DeliveryStage_Dropped
  | PendingReason_SuppressedIdle | PendingReason_SupersededStale
  | PendingReason_ShutdownCancelled => DeliveryStage_Suppressed
  | PendingReason_AbandonedUnknownTarget | PendingReason_RecipientEndedUnread
  | PendingReason_UndeliveredLifecycleRelay | PendingReason_UndeliveredAfterWakeDeclines =>
      DeliveryStage_Abandoned
  | PendingReason_PartialBroadcast => DeliveryStage_PartiallyDelivered
  | PendingReason_NoIntendedRecipients | PendingReason_AdapterRetryable
  | PendingReason_AwaitingDelivery | PendingReason_SessionIneligible
  | PendingReason_AwaitingAck => DeliveryStage_Selected
  end.
Definition PendingReason_counts_as_delivery_attempt (r : PendingReason) : bool :=
  match r with
  | PendingReason_AdapterRetryable | PendingReason_TargetUnavailable => true
  | _ => false
  end.

(** ** Receipts *)
Inductive SurfacingSource :=
  | SurfacingSource_InboxPoll | SurfacingSource_HookSurfaced | SurfacingSource_TransportDelivered
  | SurfacingSource_TransportClaimed | SurfacingSource_ObservedWake.
#[export] Instance SurfacingSource_eq_dec : EqDecision SurfacingSource.
Proof. solve_decision. Defined.
Definition SurfacingSource_is_surfaced (s : SurfacingSource) : bool :=
  match s with
  | SurfacingSource_InboxPoll | SurfacingSource_HookSurfaced | SurfacingSource_ObservedWake => true
  | SurfacingSource_TransportDelivered | SurfacingSource_TransportClaimed => false
  end.
Definition SurfacingSource_as_str (s : SurfacingSource) : string :=
  match s with
  | SurfacingSource_InboxPoll => "inbox_poll"
  | SurfacingSource_HookSurfaced => "hook_surfaced"
  | SurfacingSource_TransportDelivered => "transport_delivered"
  | SurfacingSource_TransportClaimed => "transport_claimed"
  | SurfacingSource_ObservedWake => "observed_wake"
  end.
Definition SurfacingSource_parse (s : string) : option SurfacingSource :=
  lookup_text s
    [("inbox_poll", SurfacingSource_InboxPoll); ("hook_surfaced", SurfacingSource_HookSurfaced);
     ("transport_delivered", SurfacingSource_TransportDelivered);
     ("transport_claimed", SurfacingSource_TransportClaimed);
     ("observed_wake", SurfacingSource_ObservedWake)].

Inductive WakeAttempt := WakeAttempt_NotAttempted | WakeAttempt_Fired | WakeAttempt_Failed.
#[export] Instance WakeAttempt_eq_dec : EqDecision WakeAttempt.
Proof. solve_decision. Defined.
Definition WakeAttempt_as_str (w : WakeAttempt) : string :=
  match w with
  | WakeAttempt_NotAttempted => "nudge_not_attempted"
  | WakeAttempt_Fired => "nudge_fired"
  | WakeAttempt_Failed => "nudge_failed"
  end.
Definition WakeAttempt_parse (s : string) : option WakeAttempt :=
  lookup_text s
    [("nudge_not_attempted", WakeAttempt_NotAttempted); ("nudge_fired", WakeAttempt_Fired);
     ("nudge_failed", WakeAttempt_Failed)].
Definition WakeAttempt_from_column (raw : option string) : WakeAttempt :=
  default WakeAttempt_NotAttempted (raw ≫= WakeAttempt_parse).

Inductive ConfirmationSource :=
  | ConfirmationSource_Unconfirmed | ConfirmationSource_ExplicitAck
  | ConfirmationSource_InferredFromReply | ConfirmationSource_HookSurfaced
  | ConfirmationSource_Unknown.
Definition ConfirmationSource_from_column (raw : option string) (has_ack : bool) : ConfirmationSource :=
  if negb has_ack then ConfirmationSource_Unconfirmed
  else default ConfirmationSource_Unknown (raw ≫= λ s, lookup_text s
    [("explicit_ack", ConfirmationSource_ExplicitAck);
     ("inferred_from_reply", ConfirmationSource_InferredFromReply);
     ("hook_surfaced", ConfirmationSource_HookSurfaced)]).
Definition ConfirmationSource_is_recipient_claim (c : ConfirmationSource) : bool :=
  match c with ConfirmationSource_ExplicitAck | ConfirmationSource_HookSurfaced => true | _ => false end.

Definition reply_confirms_delivered_message (transport_delivered_at recipient_seen_at : option Z)
    (reply_enqueued_at : Z) : bool :=
  match transport_delivered_at with
  | None => false
  | Some delivered_at =>
      if reply_enqueued_at <? delivered_at then false
      else match recipient_seen_at with
           | None => false
           | Some seen_at => seen_at <=? reply_enqueued_at
           end
  end.

(** ** Origins *)
Inductive QueueOrigin :=
  | QueueOrigin_RegisteredAgent (agent_id : string)
  | QueueOrigin_Daemon
  | QueueOrigin_Unattributed
  | QueueOrigin_PairedDevice (device_id : string).
Definition QueueOrigin_kind_str (o : QueueOrigin) : string :=
  match o with
  | QueueOrigin_RegisteredAgent _ => "registered_agent"
  | QueueOrigin_Daemon => "daemon"
  | QueueOrigin_Unattributed => "unattributed"
  | QueueOrigin_PairedDevice _ => "paired_device"
  end.
Definition QueueOrigin_agent_id (o : QueueOrigin) : option string :=
  match o with
  | QueueOrigin_RegisteredAgent id | QueueOrigin_PairedDevice id => Some id
  | QueueOrigin_Daemon | QueueOrigin_Unattributed => None
  end.
Definition QueueOrigin_from_columns (agent_id kind : option string) : option QueueOrigin :=
  kind ← kind;
  f ← lookup_text kind
    [("registered_agent", QueueOrigin_RegisteredAgent <$> agent_id);
     ("daemon", Some QueueOrigin_Daemon); ("unattributed", Some QueueOrigin_Unattributed);
     ("paired_device", QueueOrigin_PairedDevice <$> agent_id)];
  f.
Definition QueueOrigin_is_attributed (o : QueueOrigin) : bool :=
  match o with QueueOrigin_Unattributed => false | _ => true end.

(** ** Answers *)
Inductive MessageStatus :=
  | MessageStatus_Pending | MessageStatus_Delivered | MessageStatus_Confirmed | MessageStatus_Undelivered.
Inductive PromptRetryDisposition :=
  | Scheduled (attempts retry_at : Z)
  | Abandoned (attempts : Z).

(** A queued prompt ([prompt_from_row]), without the operator's stamp and
    device, the kind and the attachments of Commander turns.  A priority that
    is not a u8 reads as 2, which is normal like every other one. *)
Record QueuedPrompt := mkQueuedPrompt {
  qd_id : Z;
  qd_source : string;
  qd_target : string;
  qd_prompt : string;
  qd_created_at : Z;
  qd_processed_at : option Z;
  qd_factory_session : option string;
  qd_summary : option string;
  qd_priority : NotificationPriority;
  qd_acked_at : option Z;
  qd_urgent : bool;
  qd_origin : option QueueOrigin;
  qd_reference_only : bool;
}.
#[export] Instance QueuedPrompt_eta : Eta QueuedPrompt := λ q,
  mkQueuedPrompt
    (qd_id q) (qd_source q) (qd_target q) (qd_prompt q) (qd_created_at q) (qd_processed_at q)
    (qd_factory_session q) (qd_summary q) (qd_priority q) (qd_acked_at q) (qd_urgent q) (qd_origin q)
    (qd_reference_only q).
Definition prompt_from_row (r : PromptRow) : QueuedPrompt :=
  mkQueuedPrompt (pq_id r) (pq_source r) (pq_target r) (pq_prompt r) (pq_created_at r)
    (pq_processed_at r) (pq_factory_session r) (pq_summary r)
    (NotificationPriority_from_u8 (pq_priority r)) (pq_acked_at r) (pq_urgent r)
    (QueueOrigin_from_columns (pq_origin_agent_id r) (pq_origin_kind r)) false.
