(* ===== verification/PromptLanes.v ===== *)
(** * Selection of prompts for delivery ([prompt_queue_store.rs],
      [peek_for_targets_on_conn] and [merge_two_lane_peeks])

    The daemon takes pending rows of its session and rows of no session.  Each
    lane is ordered by priority, then round-robin over the targets; the merge
    shares one window between the two lanes. *)

From S2P Require Import Prelude Logs Enums Db SupervisorQueue PromptTypes.

Definition qd_priority_u8 (p : QueuedPrompt) : Z := NotificationPriority_to_i32 (qd_priority p).

(** ** The merge *)
Definition fair_quota_same_priority (session legacy : list QueuedPrompt) (limit : nat) : list QueuedPrompt :=
  if (limit =? 0)%nat then []
  else match session, legacy with
  | [], _ => take limit legacy
  | _, [] => take limit session
  | _, _ =>
      let session_quota := ((limit + 1) / 2)%nat in
      let legacy_quota := (limit / 2)%nat in
      let s_take := Nat.min session_quota (length session) in
      let l_take := Nat.min legacy_quota (length legacy) in
      let '(s_take, l_take) :=
        if (s_take + l_take <? limit)%nat
        then
          let spare := (limit - (s_take + l_take))%nat in
          let s_take := (s_take + Nat.min (length session - s_take) spare)%nat in
          let spare := (limit - s_take - l_take)%nat in
          (s_take, l_take + Nat.min (length legacy - l_take) spare)%nat
        else (s_take, l_take) in
      order_by (le_of (asc qd_id)) (take s_take session ++ take l_take legacy)
  end.

(** The rows of one priority at the head of a lane, and the rest of it *)
Fixpoint take_band (priority : Z) (lane : list QueuedPrompt) : list QueuedPrompt * list QueuedPrompt :=
  match lane with
  | p :: rest =>
      if qd_priority_u8 p =? priority
      then let '(band, lane) := take_band priority rest in (p :: band, lane)
      else ([], lane)
  | [] => ([], [])
  end.

Definition next_priority (session legacy : list QueuedPrompt) : option Z :=
  match session, legacy with
  | s :: _, l :: _ => Some (Z.min (qd_priority_u8 s) (qd_priority_u8 l))
  | s :: _, [] => Some (qd_priority_u8 s)
  | [], l :: _ => Some (qd_priority_u8 l)
  | [], [] => None
  end.

(** The loop; every round takes a row off a lane, so the rows are fuel enough. *)
Fixpoint merge_bands (fuel : nat) (session legacy : list QueuedPrompt) (remaining : nat)
    : list QueuedPrompt :=
  match fuel with
  | O => []
  | S fuel =>
      if (remaining =? 0)%nat then []
      else match next_priority session legacy with
      | None => []
      | Some priority =>
          let '(s_band, session) := take_band priority session in
          let '(l_band, legacy) := take_band priority legacy in
          let band := fair_quota_same_priority s_band l_band remaining in
          band ++ merge_bands fuel session legacy (remaining - length band)
      end
  end.

Definition merge_two_lane_peeks (session legacy : list QueuedPrompt) (limit : nat) : list QueuedPrompt :=
  if (limit =? 0)%nat then []
  else match session, legacy with
  | [], _ => take limit legacy
  | _, [] => take limit session
  | _, _ => merge_bands (length session + length legacy) session legacy limit
  end.

(** ** The lanes *)
Section lanes.
Implicit Types (db : Db) (r : PromptRow).

(** [NOT_ALREADY_CONSUMED_SQL] *)
Definition not_already_consumed db r : bool :=
  String.eqb (pq_target r) "all_workers"
  || is_none (pq_acked_at r) && is_none (pt_seen (db_prompt_receipts db) !! (pq_id r, pq_target r)).

Definition digest_kind r : bool :=
  existsb (String.eqb (default "" (pq_kind r))) ["worker_peer_copy"; "supervisor_digest"].
(** [NOT_NOTICE_DIGEST_SQL] *)
Definition not_notice_digest r : bool :=
  let kind := default "" (pq_kind r) in
  negb (digest_kind r
        || String.eqb (default "" (pq_origin_kind r)) "daemon"
           && (String.eqb kind "notice_digest"
               || String.eqb (pq_source r) "delivery-watchdog" && String.eqb kind "recovery_reference")).

Definition deliverable (now stale_cutoff : Z) (targets : list string) db r : bool :=
  is_none (pq_processed_at r)
  && match pq_next_attempt_at r with None => true | Some at_ => at_ <=? now end
  && (stale_cutoff <=? pq_created_at r)
  && not_already_consumed db r && not_notice_digest r
  && existsb (String.eqb (pq_target r)) targets.

(** [ROW_NUMBER() OVER (PARTITION BY target, priority ORDER BY id)] *)
Definition target_rn (rows : list PromptRow) r : Z :=
  1 + Z.of_nat (length (List.filter (λ r', String.eqb (pq_target r') (pq_target r)
    && (pq_priority r' =? pq_priority r) && (pq_id r' <? pq_id r)) rows)).

(** [query_lane] of the statement *)
Definition query_lane (P : PromptRow → bool) (limit : Z) db : list QueuedPrompt :=
  let rows := log_select P (db_prompts db) in
  prompt_from_row <$> sql_limit limit
    (order_by (le_of (then_by (asc pq_priority) (then_by (asc (target_rn rows)) (asc pq_id)))) rows).

Definition peek_for_targets_on_conn (clk : Clock) (targets : list string) (factory_session : option string)
    (limit : nat) db : result (list QueuedPrompt) :=
  match targets with
  | [] => Err (Other "peek_for_targets requires at least one target; session-wide peeks are not supported")
  | _ =>
      if (limit =? 0)%nat then Ok []
      else
        let ok := deliverable (clk 0%nat) (clk 1%nat - duration_seconds PROMPT_QUEUE_STALE_TTL_SECS) targets db in
        let sql_limit := as_i64 (Z.of_nat limit) in
        match factory_session with
        | None => Ok (query_lane ok sql_limit db)
        | Some session =>
            Ok (merge_two_lane_peeks
                  (query_lane (λ r, ok r && bool_decide (pq_factory_session r = Some session)) sql_limit db)
                  (query_lane (λ r, ok r && is_none (pq_factory_session r)) sql_limit db) limit)
        end
  end.
Definition peek_for_targets := peek_for_targets_on_conn.
End lanes.
