(* ===== verification/SpawnQueue.v ===== *)
(** * The spawn queue and the backlogs of workers
      ([crates/cas-store/src/spawn_queue_store.rs], [worker_task_queue_store.rs])

    Requests to start, stop, respawn or recycle workers, the lifecycle that the
    daemon reports for each, the usage-limit episodes, and the ordered backlog
    of tasks that a named worker keeps across its lives. *)

From S2P Require Import Prelude Logs Enums Db.

(** ** Vocabularies *)
Inductive SpawnAction :=
  | SpawnAction_Spawn | SpawnAction_Shutdown | SpawnAction_Respawn | SpawnAction_Recycle.
#[export] Instance SpawnAction_eq_dec : EqDecision SpawnAction.
Proof. solve_decision. Defined.
Definition SpawnAction_as_str (a : SpawnAction) : string :=
  match a with
  | SpawnAction_Spawn => "spawn"
  | SpawnAction_Shutdown => "shutdown"
  | SpawnAction_Respawn => "respawn"
  | SpawnAction_Recycle => "recycle"
  end.
Definition SpawnAction_from_str (s : string) : option SpawnAction :=
  lookup_text (to_lowercase s)
    [("spawn", SpawnAction_Spawn); ("shutdown", SpawnAction_Shutdown);
     ("respawn", SpawnAction_Respawn); ("recycle", SpawnAction_Recycle)].

Inductive SpawnLifecycleState :=
  | SpawnLifecycleState_Queued | SpawnLifecycleState_Provisioning | SpawnLifecycleState_Launched
  | SpawnLifecycleState_Registered | SpawnLifecycleState_Failed | SpawnLifecycleState_Stopped.
#[export] Instance SpawnLifecycleState_eq_dec : EqDecision SpawnLifecycleState.
Proof. solve_decision. Defined.
Definition SpawnLifecycleState_as_str (s : SpawnLifecycleState) : string :=
  match s with
  | SpawnLifecycleState_Queued => "queued"
  | SpawnLifecycleState_Provisioning => "provisioning"
  | SpawnLifecycleState_Launched => "launched"
  | SpawnLifecycleState_Registered => "registered"
  | SpawnLifecycleState_Failed => "failed"
  | SpawnLifecycleState_Stopped => "stopped"
  end.
Definition SpawnLifecycleState_from_str (s : string) : option SpawnLifecycleState :=
  lookup_text (to_lowercase s)
    [("queued", SpawnLifecycleState_Queued); ("provisioning", SpawnLifecycleState_Provisioning);
     ("launched", SpawnLifecycleState_Launched); ("registered", SpawnLifecycleState_Registered);
     ("failed", SpawnLifecycleState_Failed); ("stopped", SpawnLifecycleState_Stopped)].
Definition SpawnLifecycleState_rank (s : SpawnLifecycleState) : Z :=
  match s with
  | SpawnLifecycleState_Queued => 0
  | SpawnLifecycleState_Provisioning => 1
  | SpawnLifecycleState_Launched => 2
  | SpawnLifecycleState_Registered => 3
  | SpawnLifecycleState_Failed | SpawnLifecycleState_Stopped => 4
  end.
Definition SpawnLifecycleState_is_terminal (s : SpawnLifecycleState) : bool :=
  match s with
  | SpawnLifecycleState_Registered | SpawnLifecycleState_Failed | SpawnLifecycleState_Stopped => true
  | _ => false
  end.

(** [from_stage_outcome]: what an audit line of the daemon says *)
Definition SpawnLifecycleState_from_stage_outcome (stage outcome : string) : option SpawnLifecycleState :=
  let failed := existsb (String.eqb outcome) ["failed"; "timeout"; "cancelled"; "stalled"; "error"] in
  let or_failed s := if failed then Some SpawnLifecycleState_Failed else Some s in
  if String.eqb stage "preassign" then None
  else if String.eqb stage "dequeue" then or_failed SpawnLifecycleState_Provisioning
  else if String.eqb stage "prepare" || String.eqb stage "provision"
  then or_failed SpawnLifecycleState_Provisioning
  else if String.eqb stage "launch" then or_failed SpawnLifecycleState_Launched
  else if String.eqb stage "register" then or_failed SpawnLifecycleState_Registered
  else if String.eqb stage "shutdown" then or_failed SpawnLifecycleState_Stopped
  else if failed then Some SpawnLifecycleState_Failed else None.

(** ** Requests *)
Record SpawnLifecycle := mkSpawnLifecycle {
  sl_id : Z;
  sl_worker_name : option string;
  sl_state : SpawnLifecycleState;
  sl_detail : option string;
  sl_requested_names : list string;
  sl_task_id : option string;
  sl_created_at : Z;
  sl_state_at : option Z;
}.

Record SpawnRequest := mkSpawnRequest {
  sp_id : Z;
  sp_action : SpawnAction;
  sp_count : option Z;
  sp_worker_names : list string;
  sp_force : bool;
  sp_isolate : bool;
  sp_worker_spec : option string;
  sp_factory_session : option string;
  sp_task_id : option string;
  sp_requester_config_dir : option string;
  sp_requester_secure_storage_dir : option string;
  sp_created_at : Z;
  sp_processed_at : option Z;
}.

Definition parse_worker_names (s : option string) : list string :=
  match s with
  | Some names => List.filter (λ n, negb (str_is_empty n)) (trim <$> split_char "," names)
  | None => []
  end.

Definition request_from_row (r : SpawnRow) : SpawnRequest :=
  mkSpawnRequest (sw_id r) (default SpawnAction_Spawn (SpawnAction_from_str (sw_action r))) (sw_count r)
    (parse_worker_names (sw_worker_names r)) (sw_force r) (sw_isolate r) (sw_worker_spec r)
    (sw_factory_session r) (sw_task_id r) (sw_requester_config_dir r)
    (sw_requester_secure_storage_dir r) (sw_created_at r) (sw_processed_at r).

Definition mark_request (now : Z) (r : SpawnRow) : SpawnRow := r <| sw_processed_at := Some now |>.
#[export] Instance SpawnRow_queue : Queue SpawnRow := {|
  q_processed := sw_processed_at;
  q_mark := mark_request;
  q_mark_id := λ _ _, eq_refl;
  q_mark_processed := λ _ _, eq_refl |}.

Abbreviation spawns db := (sp_queue (db_spawns db)).
Definition on_spawns (f : Log SpawnRow → Log SpawnRow) (db : Db) : Db :=
  db <| db_spawns ::= λ s, s <| sp_queue ::= f |> |>.

Definition join_names (names : list string) : option string :=
  match names with [] => None | _ => Some (String.concat "," names) end.

Definition enqueue (clk : Clock) (action : SpawnAction) (count : option Z) (worker_names : list string)
    (force isolate : bool) (spec_json factory_session task_id requester_config_dir
    requester_secure_storage_dir : option string) (task_ids : list string) (db : Db)
    : result (Z * Db) :=
  '(id, q) ← log_insert (λ id, mkSpawnRow id (SpawnAction_as_str action) count (join_names worker_names)
                  force isolate spec_json factory_session task_id requester_config_dir
                  requester_secure_storage_dir (clk 0%nat) None None None None None) (spawns db);
  let db := on_spawns (λ _, q) db in
  match task_ids with
  | [] => Ok (id, db)
  | _ =>
      match sp_tasks (db_spawns db) !! id with
      | Some _ => Err (Database "UNIQUE constraint failed: spawn_task_queues.request_id")
      | None => Ok (id, db <| db_spawns ::= λ s,
                          s <| sp_tasks ::= <[id := mkSpawnTasksRow task_ids None]> |> |>)
      end
  end.

Definition enqueue_spawn_with_task_queue (clk : Clock) (count : Z) (worker_names : list string)
    (isolate : bool) (spec_json factory_session task_id requester_config_dir
    requester_secure_storage_dir : option string) (task_ids : list string) (db : Db) : result (Z * Db) :=
  enqueue clk SpawnAction_Spawn (Some count) worker_names false isolate spec_json factory_session
    task_id requester_config_dir requester_secure_storage_dir task_ids db.
Definition enqueue_spawn_with_requester_account_dirs (clk : Clock) (count : Z) (worker_names : list string)
    (isolate : bool) (spec_json factory_session task_id requester_config_dir
    requester_secure_storage_dir : option string) (db : Db) : result (Z * Db) :=
  enqueue clk SpawnAction_Spawn (Some count) worker_names false isolate spec_json factory_session
    task_id requester_config_dir requester_secure_storage_dir [] db.
Definition enqueue_spawn_with_requester_config_dir (clk : Clock) (count : Z) (worker_names : list string)
    (isolate : bool) (spec_json factory_session task_id requester_config_dir : option string)
    (db : Db) : result (Z * Db) :=
  enqueue clk SpawnAction_Spawn (Some count) worker_names false isolate spec_json factory_session
    task_id requester_config_dir None [] db.
Definition enqueue_spawn (clk : Clock) (count : Z) (worker_names : list string) (isolate : bool)
    (spec_json factory_session task_id : option string) (db : Db) : result (Z * Db) :=
  enqueue clk SpawnAction_Spawn (Some count) worker_names false isolate spec_json factory_session
    task_id None None [] db.
Definition enqueue_shutdown (clk : Clock) (count : option Z) (worker_names : list string)
    (force : bool) (factory_session : option string) (db : Db) : result (Z * Db) :=
  enqueue clk SpawnAction_Shutdown count worker_names force false None factory_session None None None [] db.
Definition enqueue_scoped_shutdown (clk : Clock) (worker_name generation_json : string)
    (factory_session : option string) (db : Db) : result (Z * Db) :=
  enqueue clk SpawnAction_Shutdown None [worker_name] true false (Some generation_json) factory_session
    None None None [] db.
Definition enqueue_respawn (clk : Clock) (worker_names : list string) (factory_session : option string)
    (db : Db) : result (Z * Db) :=
  enqueue clk SpawnAction_Respawn None worker_names false false None factory_session None None None [] db.
Definition enqueue_recycle (clk : Clock) (worker_name : string) (spec_json factory_session : option string)
    (db : Db) : result (Z * Db) :=
  enqueue clk SpawnAction_Recycle None [worker_name] false true spec_json factory_session None None None [] db.

(** ** Usage-limit episodes *)
Definition record_limit_episode (episode detail : string) (db : Db)
    : result ((option Z * string) * Db) :=
  match sp_episodes (db_spawns db) !! episode with
  | Some e => Ok ((ep_request_id e, ep_detail e), db)
  | None => Ok ((None, detail),
      db <| db_spawns ::= λ s, s <| sp_episodes ::= <[episode := mkEpisodeRow detail None]> |> |>)
  end.
Definition limit_episode (episode : string) (db : Db) : option (option Z * string) :=
  (λ e, (ep_request_id e, ep_detail e)) <$> sp_episodes (db_spawns db) !! episode.

(** ** Polling *)
Definition session_matches (factory_session : string) (r : SpawnRow) : bool :=
  match sw_factory_session r with Some s => String.eqb s factory_session | None => true end.

(** [poll] is a SELECT and an UPDATE, each its own transaction. *)
Definition spawn_poll_read (factory_session : string) (limit : Z) (db : Db) : list SpawnRequest :=
  request_from_row <$>
    poll_select (session_matches factory_session) (asc sw_created_at) (as_i64 limit) (spawns db).
Definition spawn_poll_write (now : Z) (requests : list SpawnRequest) (db : Db) : Db :=
  match requests with [] => db | _ => on_spawns (poll_mark now (sp_id <$> requests)) db end.
Definition spawn_poll (clk : Clock) (factory_session : string) (limit : Z) (db : Db)
    : result (list SpawnRequest * Db) :=
  let requests := spawn_poll_read factory_session limit db in
  Ok (requests, spawn_poll_write (clk 0%nat) requests db).

Definition spawn_peek (limit : Z) (db : Db) : list SpawnRequest :=
  request_from_row <$> poll_select (λ _, true) (asc sw_created_at) (as_i64 limit) (spawns db).
Definition mark_processed (clk : Clock) (request_id : Z) (db : Db) : result (unit * Db) :=
  Ok (tt, on_spawns (log_update (by_id request_id) (mark_request (clk 0%nat))) db).
Definition spawn_pending_count (db : Db) : nat :=
  log_count (λ r, is_none (sw_processed_at r)) (spawns db).
Definition spawn_clear (db : Db) : result (nat * Db) :=
  Ok (length (log_rows (spawns db)), on_spawns (log_delete (λ _, true)) db).
Definition spawn_cleanup_old (clk : Clock) (older_than_secs : Z) (db : Db) : result (nat * Db) :=
  let cutoff := clk 0%nat - duration_seconds older_than_secs in
  let old r := match sw_processed_at r with Some at_ => at_ <? cutoff | None => false end in
  Ok (log_count old (spawns db), on_spawns (log_delete old) db).

(** ** Lifecycle *)

(** The CASE expression of the guard *)
Definition stored_rank (state : string) : Z :=
  default 0 (lookup_text state
    [("queued", 0); ("provisioning", 1); ("launched", 2); ("registered", 3); ("failed", 4); ("stopped", 4)]).
Definition may_advance (state : SpawnLifecycleState) (r : SpawnRow) : bool :=
  match sw_spawn_state r with
  | None => true
  | Some s => stored_rank s <? SpawnLifecycleState_rank state
  end.
Definition advance_row (now : Z) (state : SpawnLifecycleState) (worker_name detail : option string)
    (r : SpawnRow) : SpawnRow :=
  r <| sw_spawn_state := Some (SpawnLifecycleState_as_str state) |>
    <| sw_spawn_worker ::= λ o, coalesce o worker_name |>
    <| sw_spawn_detail ::= λ o, coalesce detail o |>
    <| sw_spawn_state_at := Some now |>.
Definition record_spawn_state (clk : Clock) (request_id : Z) (state : SpawnLifecycleState)
    (worker_name detail : option string) (db : Db) : result (unit * Db) :=
  Ok (tt, on_spawns (log_update (λ r, by_id request_id r && may_advance state r)
                       (advance_row (clk 0%nat) state worker_name detail)) db).

Definition lifecycle_from_row (r : SpawnRow) : SpawnLifecycle :=
  mkSpawnLifecycle (sw_id r) (sw_spawn_worker r)
    (default SpawnLifecycleState_Queued (sw_spawn_state r ≫= SpawnLifecycleState_from_str))
    (sw_spawn_detail r) (parse_worker_names (sw_worker_names r)) (sw_task_id r) (sw_created_at r)
    (sw_spawn_state_at r).
Definition recent_spawn_lifecycle (factory_session : string) (limit : Z) (db : Db) : list SpawnLifecycle :=
  lifecycle_from_row <$> sql_limit (as_i64 limit) (order_by (le_of (desc sw_id))
    (log_select (λ r, String.eqb (sw_action r) "spawn" && session_matches factory_session r) (spawns db))).

Definition has_pending_spawn (name : string) (factory_session : option string) (db : Db) : bool :=
  let open r :=
    existsb (String.eqb (sw_action r)) ["spawn"; "recycle"]
    && existsb (String.eqb (default "queued" (sw_spawn_state r))) ["queued"; "provisioning"; "launched"]
    && match factory_session with None => true | Some s => session_matches s r end in
  existsb (λ r, existsb (λ worker, eq_ignore_ascii_case worker name)
                  (parse_worker_names (sw_worker_names r)
                   ++ match sw_spawn_worker r with Some w => [w] | None => [] end))
    (log_select open (spawns db)).

(** ** Backlogs of workers ([worker_task_queue_store.rs]) *)
Definition WorkerTaskQueue_default : WorkerTaskQueue :=
  mkWorkerTaskQueue 0 None false [] None false 0 None None [].

Definition queue_get (session worker : string) (db : Db) : WorkerTaskQueue :=
  default WorkerTaskQueue_default (wq_state <$> sp_worker_queues (db_spawns db) !! (session, worker)).

Definition put_worker_queue (key : string * string) (row : WorkerQueueRow) (db : Db) : Db :=
  db <| db_spawns ::= λ s, s <| sp_worker_queues ::= <[key := row]> |> |>.

Definition int_conversion : StoreError := Other "out of range integral type conversion attempted".

(** [save]: the state that the caller holds afterwards, and the database *)
Definition queue_save (session worker : string) (state : WorkerTaskQueue) (db : Db)
    : result (WorkerTaskQueue * Db) :=
  let expected := tq_revision state in
  let key := (session, worker) in
  if 2 ^ 64 <=? expected + 1 then Err (Other "Worker queue revision overflow")
  else
    let next := state <| tq_revision := expected + 1 |> in
    if 2 ^ 63 <=? expected + 1 then Err int_conversion
    else
      let stored := sp_worker_queues (db_spawns db) !! key in
      let matches :=
        if expected =? 0 then is_none stored
        else match stored with Some r => wq_revision r =? expected | None => false end in
      if negb matches
      then Err (Other "Worker task queue changed; reload before replacing it")
      else Ok (next, put_worker_queue key (mkWorkerQueueRow (expected + 1) next) db).

Definition bind_spawn (request : Z) (session worker : string) (db : Db) : result (unit * Db) :=
  match sp_tasks (db_spawns db) !! request with
  | Some (mkSpawnTasksRow ids None) =>
      let key := (session, worker) in
      let revision := match sp_worker_queues (db_spawns db) !! key with
                      | Some r => wq_revision r + 1
                      | None => 1
                      end in
      if 2 ^ 63 <=? revision then Err (Database "Invalid column type Real at index: 0, name: revision")
      else if revision <? 0 then Err int_conversion
      else
        let state := WorkerTaskQueue_default <| tq_current_task := head ids |>
                       <| tq_pending := tail ids |> <| tq_revision := revision |> in
        Ok (tt, put_worker_queue key (mkWorkerQueueRow revision state) db
                  <| db_spawns ::= λ s, s <| sp_tasks ::= <[request := mkSpawnTasksRow ids (Some worker)]> |> |>)
  | _ => Ok (tt, db)
  end.
