(* ===== verification/Reminders.v ===== *)
(** * Reminders ([crates/cas-store/src/reminder_store.rs])

    One-shot reminders that fire at a time or on an event.  A worker hold
    suspends them and its release re-arms them; they end fired, cancelled or
    expired.  Also the text of a fired reminder, whose prefix the readers of the
    prompt queue parse. *)

From S2P Require Import Prelude Logs Enums TaskTypes VerifierText Db.

(** ** Vocabularies *)
Inductive ReminderTriggerType := ReminderTriggerType_Time | ReminderTriggerType_Event.
#[export] Instance ReminderTriggerType_eq_dec : EqDecision ReminderTriggerType.
Proof. solve_decision. Defined.
Definition ReminderTriggerType_to_string (t : ReminderTriggerType) : string :=
  match t with ReminderTriggerType_Time => "time" | ReminderTriggerType_Event => "event" end.
Definition ReminderTriggerType_from_str (s : string) : result ReminderTriggerType :=
  ok_or (lookup_text s [("time", ReminderTriggerType_Time); ("event", ReminderTriggerType_Event)])
    (Parse ("Unknown trigger type: " +:+ s)).

Inductive ReminderStatus :=
  | ReminderStatus_Pending | ReminderStatus_Fired | ReminderStatus_Cancelled
  | ReminderStatus_Expired | ReminderStatus_Suspended.
#[export] Instance ReminderStatus_eq_dec : EqDecision ReminderStatus.
Proof. solve_decision. Defined.
Definition ReminderStatus_to_string (s : ReminderStatus) : string :=
  match s with
  | ReminderStatus_Pending => "pending"
  | ReminderStatus_Fired => "fired"
  | ReminderStatus_Cancelled => "cancelled"
  | ReminderStatus_Expired => "expired"
  | ReminderStatus_Suspended => "suspended"
  end.
Definition ReminderStatus_from_str (s : string) : result ReminderStatus :=
  ok_or (lookup_text s
    [("pending", ReminderStatus_Pending); ("fired", ReminderStatus_Fired);
     ("cancelled", ReminderStatus_Cancelled); ("expired", ReminderStatus_Expired);
     ("suspended", ReminderStatus_Suspended)])
    (Parse ("Unknown reminder status: " +:+ s)).

Record Reminder := mkReminder {
  re_id : Z;
  re_owner_id : string;
  re_target_id : string;
  re_message : string;
  re_trigger_type : ReminderTriggerType;
  re_trigger_at : option Z;
  re_trigger_event : option string;
  re_trigger_filter : option json;
  re_status : ReminderStatus;
  re_ttl_secs : Z;
  re_created_at : Z;
  re_fired_at : option Z;
  re_cancelled_at : option Z;
  re_fired_event : option json;
  re_session_id : option string;
  re_origin_session_id : option string;
  re_cross_session : bool;
  re_task_id : option string;
}.

Section reminders.
Context {host : Host}.
Implicit Types (db : Db) (r : ReminderRow).

(** ** The text of a delivery *)
Definition REMINDER_DELIVERY_PREFIX : string := "Reminder #".

Definition format_reminder_delivery (id : Z) (message : string) (event_context : option string) : string :=
  match event_context with
  | Some event => REMINDER_DELIVERY_PREFIX +:+ show_z id +:+ ": " +:+ message
                  +:+ " (triggered by: " +:+ event +:+ ")"
  | None => REMINDER_DELIVERY_PREFIX +:+ show_z id +:+ ": " +:+ message
  end.

(** [chrono::TimeDelta::num_minutes] *)
Definition num_minutes (d : Z) : Z := Z.quot d (60 * NANOS_PER_SEC).
Definition line_feed : string := String "010" EmptyString.

Definition format_reminder_delivery_with_provenance (now : Z) (reminder : Reminder)
    (event_context task_status : option string) : string :=
  let age_minutes := Z.max 0 (num_minutes (now - re_created_at reminder)) in
  let task_context :=
    match re_task_id reminder, task_status with
    | Some task_id, Some status => "task " +:+ task_id +:+ " (" +:+ status +:+ ")"
    | Some task_id, None => "task " +:+ task_id +:+ " (missing)"
    | None, _ => "no task context"
    end in
  format_reminder_delivery (re_id reminder) (re_message reminder) event_context
  +:+ line_feed +:+ "Provenance: issued " +:+ show_z age_minutes +:+ " min ago under " +:+ task_context +:+ ".".

(** The sign before the words is U+26A0. *)
Definition format_cross_session_reminder_delivery (now : Z) (reminder : Reminder)
    (event_context task_status : option string) : string :=
  format_reminder_delivery_with_provenance now reminder event_context task_status
  +:+ line_feed +:+ line_feed +:+ "⚠ Cross-session reminder" +:+ line_feed +:+ "Origin session: "
  +:+ default "unknown legacy session" (re_origin_session_id reminder) +:+ line_feed
  +:+ "Created at: " +:+ to_rfc3339 (re_created_at reminder).

Definition is_ascii_digit (c : ascii) : bool :=
  let n := N_of_ascii c in ((48 <=? n) && (n <=? 57))%N.
(** The leading digits of a text, and what follows them *)
Fixpoint take_digits (s : string) : string * string :=
  match s with
  | String c s' =>
      if is_ascii_digit c then let '(digits, rest) := take_digits s' in (String c digits, rest)
      else (EmptyString, s)
  | EmptyString => (EmptyString, EmptyString)
  end.
Definition parse_reminder_delivery_id (prompt : string) : option Z :=
  rest ← strip_prefix REMINDER_DELIVERY_PREFIX (trim_start prompt);
  let '(digits, tail) := take_digits rest in
  if str_is_empty digits || negb (starts_with ":" tail) then None
  else n ← parse_digits 0 digits; if n <? 2 ^ 63 then Some n else None.

(** ** Rows *)
Definition reminder_from_row r : Reminder :=
  mkReminder (rm_id r) (rm_supervisor_id r) (default (rm_supervisor_id r) (rm_target_id r)) (rm_message r)
    (unwrap_or (ReminderTriggerType_from_str (rm_trigger_type r)) ReminderTriggerType_Time)
    (rm_trigger_at r) (rm_trigger_event r) (rm_trigger_filter r ≫= json_parse)
    (unwrap_or (ReminderStatus_from_str (rm_status r)) ReminderStatus_Pending)
    (rm_ttl_secs r) (rm_created_at r) (rm_fired_at r) (rm_cancelled_at r)
    (rm_fired_event r ≫= json_parse) (trimmed_nonempty (rm_session_id r))
    (trimmed_nonempty (rm_origin_session_id r)) (rm_cross_session r) (rm_task_id r).

Definition update_reminders (P : ReminderRow → bool) (f : ReminderRow → ReminderRow) db : nat * Db :=
  (log_count P (db_reminders db), db <| db_reminders ::= log_update P f |>).

(** ** Creation *)
Definition create_with_scope (clk : Clock) (owner_id : string) (target_id : option string)
    (message : string) (trigger_type : ReminderTriggerType) (trigger_at : option Z)
    (trigger_event : option string) (trigger_filter : option json) (ttl_secs : Z)
    (session_id origin_session_id : option string) (cross_session : bool) (task_id : option string)
    db : result (Z * Db) :=
  '(id, l) ← log_insert (λ id, mkReminderRow id owner_id message
                (ReminderTriggerType_to_string trigger_type) trigger_at trigger_event
                (json_text <$> trigger_filter) "pending" ttl_secs (clk 0%nat) None None
                (Some (default owner_id target_id)) None (trimmed_nonempty session_id)
                (trimmed_nonempty origin_session_id) cross_session (trimmed_nonempty task_id) None)
              (db_reminders db);
  Ok (id, db <| db_reminders := l |>).

Definition create_reminder (clk : Clock) (owner_id : string) (target_id : option string)
    (message : string) (trigger_type : ReminderTriggerType) (trigger_at : option Z)
    (trigger_event : option string) (trigger_filter : option json) (ttl_secs : Z)
    (session_id : option string) db : result (Z * Db) :=
  create_with_scope clk owner_id target_id message trigger_type trigger_at trigger_event trigger_filter
    ttl_secs session_id None false None db.

(** ** Lists *)
Definition has_status (status : string) r : bool := String.eqb (rm_status r) status.
Definition by_creation : ReminderRow → ReminderRow → comparison := asc rm_created_at.
Definition list_reminders (P : ReminderRow → bool) (c : ReminderRow → ReminderRow → comparison) db
    : list Reminder :=
  reminder_from_row <$> order_by (le_of c) (log_select P (db_reminders db)).

Definition list_pending_reminders (owner_id : string) db : list Reminder :=
  list_reminders (λ r, String.eqb (rm_supervisor_id r) owner_id && has_status "pending" r) by_creation db.
Definition list_pending_for_target (target_id : string) db : list Reminder :=
  list_reminders (λ r, bool_decide (rm_target_id r = Some target_id) && has_status "pending" r) by_creation db.
Definition list_all_pending db : list Reminder := list_reminders (has_status "pending") by_creation db.
Definition list_recently_fired (clk : Clock) (within_secs : Z) db : list Reminder :=
  let cutoff := clk 0%nat - duration_seconds within_secs in
  list_reminders (λ r, has_status "fired" r
                       && match rm_fired_at r with Some t => cutoff <=? t | None => false end)
    (desc (λ r, default 0 (rm_fired_at r))) db.
Definition list_recently_ended_at (agent_id : string) (within_secs now : Z) db : list Reminder :=
  let cutoff := now - duration_seconds within_secs in
  let touched r := Z.max (julianday (rm_created_at r))
                     (Z.max (default 0 (julianday <$> rm_cancelled_at r))
                            (default 0 (julianday <$> rm_trigger_at r))) in
  list_reminders (λ r, (has_status "expired" r || has_status "cancelled" r)
                       && (String.eqb (rm_supervisor_id r) agent_id || bool_decide (rm_target_id r = Some agent_id))
                       && (julianday cutoff <=? touched r)) (desc rm_id) db.
Definition list_recently_ended (clk : Clock) (agent_id : string) (within_secs : Z) db : list Reminder :=
  list_recently_ended_at agent_id within_secs (clk 0%nat) db.
Definition list_suspended (agent_id : option string) db : list Reminder :=
  list_reminders (λ r, has_status "suspended" r
                       && match agent_id with
                          | None => true
                          | Some a => String.eqb (rm_supervisor_id r) a || bool_decide (rm_target_id r = Some a)
                          end) by_creation db.

(** ** Triggers *)
Definition due_time (now : Z) r : bool :=
  String.eqb (rm_trigger_type r) "time" && has_status "pending" r
  && match rm_trigger_at r with Some t => t <=? now | None => false end.
Definition get_due_time_reminders (clk : Clock) db : list Reminder :=
  list_reminders (due_time (clk 0%nat)) (asc (λ r, default 0 (rm_trigger_at r))) db.
Definition waits_for (status event_type : string) r : bool :=
  String.eqb (rm_trigger_type r) "event" && has_status status r
  && bool_decide (rm_trigger_event r = Some event_type).
Definition get_event_reminders (event_type : string) db : list Reminder :=
  list_reminders (waits_for "pending" event_type) by_creation db.
Definition get_suspended_event_reminders (event_type : string) db : list Reminder :=
  list_reminders (λ r, waits_for "suspended" event_type r && is_none (rm_fired_event r)) by_creation db.

(** ** Endings *)
Definition fire_row (now : Z) (event : option string) r : ReminderRow :=
  r <| rm_status := "fired" |> <| rm_fired_at := Some now |> <| rm_fired_event := event |>.
Definition mark_fired (clk : Clock) (id : Z) (fired_event : option json) db : result (unit * Db) :=
  let '(rows, db) := update_reminders (λ r, by_id id r && has_status "pending" r)
                       (fire_row (clk 0%nat) (json_text <$> fired_event)) db in
  if (rows =? 0)%nat then Err (NotFound ("Reminder not found or not pending: " +:+ show_z id))
  else Ok (tt, db).

Definition reminder_live r : bool := has_status "pending" r || has_status "suspended" r.
Definition cancel_row (now : Z) r : ReminderRow :=
  r <| rm_status := "cancelled" |> <| rm_cancelled_at := Some now |>.
Definition cancel_reminder (clk : Clock) (id : Z) (owner_id : string) db : result (unit * Db) :=
  let '(rows, db) := update_reminders
                       (λ r, by_id id r && String.eqb (rm_supervisor_id r) owner_id && reminder_live r)
                       (cancel_row (clk 0%nat)) db in
  if (rows =? 0)%nat
  then Err (NotFound ("Reminder not found, not pending, or not owned by this agent: " +:+ show_z id))
  else Ok (tt, db).
Definition cancel_pending_for_origin_session (clk : Clock) (origin_session_id : string) db : result (nat * Db) :=
  Ok (update_reminders (λ r, reminder_live r && bool_decide (rm_origin_session_id r = Some origin_session_id)
                             && negb (rm_cross_session r)) (cancel_row (clk 0%nat)) db).
Definition cancel_pending_for_task (clk : Clock) (task_id : string) db : result (nat * Db) :=
  Ok (update_reminders (λ r, reminder_live r && bool_decide (rm_task_id r = Some task_id)
                             && negb (rm_cross_session r)) (cancel_row (clk 0%nat)) db).

(** SQLite's datetime(): whole seconds, of a text rounded to milliseconds and
    of the clock *)
Definition datetime_of_text (t : Z) : Z := julianday t / 1000.
Definition datetime_now (now : Z) : Z := now / NANOS_PER_SEC.
Definition expire_row r : ReminderRow := r <| rm_status := "expired" |>.
Definition ttl_start r : Z :=
  match rm_trigger_at r with
  | Some t => if String.eqb (rm_trigger_type r) "time" then t else rm_created_at r
  | None => rm_created_at r
  end.
Definition stale_reminder (now : Z) r : bool :=
  has_status "pending" r && (0 <? rm_ttl_secs r)
  && (datetime_of_text (ttl_start r) + rm_ttl_secs r <? datetime_now now).
Definition expire_stale (clk : Clock) db : result (nat * Db) :=
  Ok (update_reminders (stale_reminder (clk 0%nat)) expire_row db).
Definition expire_reminder (id : Z) db : result (bool * Db) :=
  let '(rows, db) := update_reminders (λ r, by_id id r && has_status "pending" r) expire_row db in
  Ok ((0 <? rows)%nat, db).
Definition prune_reminders (clk : Clock) (older_than_days : Z) db : result (nat * Db) :=
  let cutoff := clk 0%nat - duration_days older_than_days in
  let old r := negb (reminder_live r) && (rm_created_at r <? cutoff) in
  Ok (log_count old (db_reminders db), db <| db_reminders ::= log_delete old |>).

(** ** Holds *)
Definition reminder_targets (agent : string) r : bool :=
  bool_decide (rm_target_id r = Some agent)
  || is_none (rm_target_id r) && String.eqb (rm_supervisor_id r) agent.
Definition suspend_row (now : Z) r : ReminderRow :=
  r <| rm_status := "suspended" |> <| rm_suspended_at := Some now |>.
Definition suspend_pending_for_target (clk : Clock) (target_id : string) db : result (nat * Db) :=
  Ok (update_reminders (λ r, has_status "pending" r && reminder_targets target_id r) (suspend_row (clk 0%nat)) db).

Definition catch_suspended_event (id : Z) (event : json) db : result (bool * Db) :=
  let '(rows, db) := update_reminders
                       (λ r, by_id id r && has_status "suspended" r && is_none (rm_fired_event r))
                       (λ r, r <| rm_fired_event := Some (json_text event) |>) db in
  Ok ((0 <? rows)%nat, db).

(** What release makes of a suspended row.  The loop reads the suspended rows
    and updates each by its id, in one transaction. *)
Definition resume_row (now : Z) r : ReminderRow :=
  let due_during_hold := match rm_trigger_at r with Some at_ => at_ <=? now | None => false end in
  let held := match rm_suspended_at r with Some at_ => Z.max 0 (now - at_) | None => 0 end in
  let resumed := r <| rm_status := "pending" |> <| rm_suspended_at := None |> in
  if negb (is_none (rm_fired_event r)) || String.eqb (rm_trigger_type r) "time" && due_during_hold
  then resumed <| rm_trigger_type := "time" |> <| rm_trigger_at := Some now |>
  else if String.eqb (rm_trigger_type r) "event"
  then resumed <| rm_created_at := rm_created_at r + held |>
  else resumed.
Definition resume_suspended_for_target (clk : Clock) (target_id : string) db : result (nat * Db) :=
  Ok (update_reminders (λ r, has_status "suspended" r && reminder_targets target_id r) (resume_row (clk 0%nat)) db).

(** ** Expiry within a budget ([expire_stale_bounded])

    [conn_free]: the process's connection could be locked at once; [remaining]:
    what is left of the thread's wait budget; [busy budget]: the statement,
    waiting at most [budget] for other writers, finds the database busy. *)
Inductive ReminderExpiryOutcome := Expired (rows : nat) | DeferredBusy.
Definition expire_stale_bounded (conn_free : bool) (remaining : option Z) (busy : Z → bool)
    (clk : Clock) (busy_budget : Z) db : result (ReminderExpiryOutcome * Db) :=
  if negb conn_free then Ok (DeferredBusy, db)
  else
    let budget := match remaining with Some left_ => Z.min busy_budget left_ | None => busy_budget end in
    if (budget =? 0) && negb (is_none remaining) then Ok (DeferredBusy, db)
    else if busy budget then Ok (DeferredBusy, db)
    else '(n, db) ← expire_stale clk db; Ok (Expired n, db).
End reminders.
