(* ===== verification/PromptNotices.v ===== *)
(** * Notices of abandoned prompts ([prompt_queue_store.rs])

    When a prompt is abandoned, its sender is told in the same transaction:
    by a recovery notice with the whole message, or by a notice that folds into
    the sender's episode of the hour.  The notices of a sweep over many rows
    ([notify_bulk_abandoned_senders_in_tx]) are not modelled. *)

From S2P Require Import Prelude Logs Enums VerifierText Db SupervisorQueue PromptTypes Reminders.

(** ** Texts *)

(** [str::replacen(from, to, 1)] *)
Fixpoint replacen_one (from to s : string) : string :=
  match strip_prefix from s with
  | Some rest => to +:+ rest
  | None => match s with
            | String c s => String c (replacen_one from to s)
            | EmptyString => EmptyString
            end
  end.
(** [str::trim_start_matches] *)
Fixpoint trim_prefixes (fuel : nat) (p s : string) : string :=
  match fuel with
  | O => s
  | S fuel => match strip_prefix p s with Some rest => trim_prefixes fuel p rest | None => s end
  end.
Definition trim_start_matches (p s : string) : string := trim_prefixes (String.length s) p s.
(** [str::rsplit_once] *)
Fixpoint rsplit_once (sep : ascii) (s : string) : option (string * string) :=
  match s with
  | EmptyString => None
  | String c s' =>
      match rsplit_once sep s' with
      | Some (head, last) => Some (String c head, last)
      | None => if Ascii.eqb c sep then Some (EmptyString, s') else None
      end
  end.

Definition U64_MAX : Z := 2 ^ 64 - 1.
Definition ABANDONMENT_EPISODE_SECS : Z := 3600.
Definition ABANDONMENT_MORE_SUFFIX : string := " more abandoned this hour; see `message_status` for each.".

Definition is_operator_target (target : string) : bool :=
  eq_ignore_ascii_case target "operator" || starts_with "commander:" target.

(** The hour of [now], as an instant *)
Definition abandonment_window_start (now : Z) : Z :=
  let timestamp := now / NANOS_PER_SEC in
  duration_seconds (timestamp - timestamp mod ABANDONMENT_EPISODE_SECS).

Definition abandonment_update_notice (notice : string) : string :=
  "Update since the last Commander abandonment notice this hour: " +:+ notice +:+ line_feed
  +:+ "Further Commander abandonments this hour are recorded on each message (`message_status`) without another notice.".

Definition more_trailer (count : Z) : string := line_feed +:+ "+" +:+ show_z count +:+ ABANDONMENT_MORE_SUFFIX.

Definition fold_abandonment_line (prompt notice : string) (message_count : Z) : string :=
  let '(body, more) :=
    match rsplit_once "010" prompt with
    | Some (head, last) =>
        if starts_with "+" last && ends_with ABANDONMENT_MORE_SUFFIX last
        then (head, default 0 (parse_u64 (String.substring 1
                (String.length last - String.length ABANDONMENT_MORE_SUFFIX - 1) last)))
        else (prompt, 0)
    | None => (prompt, 0)
    end in
  let with_line := body +:+ line_feed +:+ "Also: " +:+ notice in
  if (more =? 0) && fits_hook_surface (with_line +:+ more_trailer U64_MAX) then with_line
  else body +:+ more_trailer (Z.min U64_MAX (more + message_count)).

(** ** Rows *)
Section notices.
Implicit Types (db : Db) (r : PromptRow).

(** INSERT of the columns the store names; the others are NULL or 0. *)
Definition fresh_prompt_row (source target prompt : string) (created_at : Z)
    (factory_session summary : option string) (priority : Z) (urgent : bool)
    (origin_agent_id origin_kind kind dedupe_key : option string) (id : Z) : PromptRow :=
  mkPromptRow id source target prompt created_at None factory_session summary priority None None urgent
    origin_agent_id origin_kind kind dedupe_key None None None None None None None None None
    0 None None None None None None 0 None None None false None None None None None None None None.

(** INSERT OR IGNORE under the unique index on [dedupe_key] *)
Definition has_dedupe_key (key : string) r : bool := bool_decide (pq_dedupe_key r = Some key).
Definition insert_notice (sender notice : string) (now : Z) (session summary : option string)
    (dedupe_key : string) (kind : option string) db : result Db :=
  '(_, q) ← log_insert (fresh_prompt_row "delivery-watchdog" sender notice now session summary 1 false
                None (Some "daemon") kind (Some dedupe_key)) (db_prompts db);
  Ok (if existsb (has_dedupe_key dedupe_key) (log_rows (db_prompts db)) then db
      else db <| db_prompts := q |>).

(** ** Whom to tell *)
Definition agent_live (a : AgentRow) : bool := status_live (a_status a).

(** [abandonment_recipient_in_tx]; without an agents table no agent is found. *)
Definition abandonment_recipient_in_tx (sender_id : option string) (stored_name : string)
    (stored_session : option string) db : string * option string * bool :=
  match (id ← sender_id; a ← db_agents db !! id; if agent_live a then Some a else None) with
  | Some a => (a_name a, a_factory_session a, false)
  | None =>
      let same (kr : string * AgentRow) :=
        String.eqb (a_name kr.2) stored_name && bool_decide (a_factory_session kr.2 = stored_session) in
      let candidates := sql_select (λ k a, agent_live a
                          && (same (k, a) || String.eqb (a_role a) "supervisor")) (db_agents db) in
      match head (order_by (le_of (then_by (desc (λ kr, Z.b2z (same kr)))
                    (then_by (desc (λ kr, a_last_heartbeat kr.2)) (by_text fst)))) candidates) with
      | Some (_, a) => (a_name a, a_factory_session a, true)
      | None => ("supervisor", None, true)
      end
  end.

(** [has_agents]: the agents table exists. *)
Definition abandonment_is_digest_in_tx (has_agents : bool) (notice_recipient target : string) db : bool :=
  if is_operator_target target || eq_ignore_ascii_case target "supervisor"
     || eq_ignore_ascii_case target "all_workers" || negb has_agents
  then false
  else (String.eqb notice_recipient "supervisor"
        || sql_exists (λ _ a, String.eqb (a_name a) notice_recipient && String.eqb (a_role a) "supervisor")
             (db_agents db))
       && negb (sql_exists (λ _ a, eq_ignore_ascii_case (a_name a) target && agent_live a) (db_agents db)).

Record AbandonedSenderNotice := mkAbandonedSenderNotice {
  an_sender : string;
  an_session : option string;
  an_prompt_id : Z;
  an_target : string;
  an_reason : string;
  an_recovery_content : option string;
}.

Definition notifiable r : bool :=
  bool_decide (pq_highest_stage r = Some "abandoned")
  && negb (String.eqb (pq_source r) "delivery-watchdog")
  && match pq_dedupe_key r with Some key => negb (like_prefix "commander-mirror:" key) | None => true end.

Definition abandoned_sender_notice_in_tx (prompt_id : Z) db : option AbandonedSenderNotice :=
  r ← log_get prompt_id (db_prompts db);
  if negb (notifiable r) then None
  else
    let operator := is_operator_target (pq_target r) in
    let by_agent := bool_decide (pq_origin_kind r = Some "registered_agent") in
    let declined := 0 <? pq_wake_gate_declines r in
    let reason := if operator then "no Commander device received it before it expired"
                  else default (default "undeliverable" (pq_last_pending_reason r)) (pq_last_pending_detail r) in
    let '(sender, session, inherited) :=
      if by_agent then abandonment_recipient_in_tx (pq_origin_agent_id r) (pq_source r) (pq_factory_session r) db
      else (pq_source r, pq_factory_session r, false) in
    let reason :=
      if declined && negb operator
      then reason +:+ "; wake gate declined " +:+ show_z (pq_wake_gate_declines r) +:+ " times: "
           +:+ default "no wake-gate detail recorded" (pq_wake_attempt_detail r)
      else reason in
    let content := "Original source: " +:+ pq_source r +:+ line_feed +:+ "Summary: "
                   +:+ default "(none)" (pq_summary r) +:+ line_feed +:+ "Original message:" +:+ line_feed
                   +:+ pq_prompt r in
    Some (mkAbandonedSenderNotice sender session prompt_id (pq_target r) reason
            (if by_agent && negb operator && (inherited || declined) then Some content else None)).

(** ** Notices *)
Definition insert_abandonment_recovery_in_tx (now : Z) (notice : AbandonedSenderNotice) (content : string)
    db : result Db :=
  let body := "Message " +:+ show_z (an_prompt_id notice) +:+ " to " +:+ an_target notice
              +:+ " was abandoned as undeliverable: " +:+ an_reason notice +:+ line_feed +:+ content in
  insert_notice (an_sender notice) body now (an_session notice)
    (Some ("Undelivered message " +:+ show_z (an_prompt_id notice) +:+ " to " +:+ an_target notice))
    ("delivery-abandoned-recovery:" +:+ show_z (an_prompt_id notice)) None db.

(** No recipient has been handed the notice. *)
Definition notice_unread db r : bool :=
  is_none (pq_processed_at r) && is_none (pq_transport_delivered_at r)
  && is_none (pq_assumed_seen_at r) && is_none (pq_acked_at r)
  && negb (sql_exists (λ k _, k.1 =? pq_id r) (pt_seen (db_prompt_receipts db))).

Definition in_episode (sender : string) (session : option string) (window_start : Z) (class_pattern : string)
    r : bool :=
  String.eqb (pq_source r) "delivery-watchdog" && String.eqb (pq_target r) sender
  && bool_decide (pq_factory_session r = session) && (window_start <=? pq_created_at r)
  && match pq_dedupe_key r with Some key => like_prefix class_pattern key | None => false end.

Definition insert_abandonment_body_in_tx (now : Z) (sender : string) (session : option string)
    (notice summary dedupe_key : string) (operator digest : bool) (message_count : Z) db : result Db :=
  let '(class_key, update_prefix) :=
    if operator then (replacen_one "delivery-abandoned:" "delivery-abandoned-operator:" dedupe_key,
                      "delivery-abandoned-operator-update:")
    else if digest then (replacen_one "delivery-abandoned:" "delivery-abandoned-ended:" dedupe_key, "")
    else (dedupe_key, "") in
  let class_pattern := if operator then "delivery-abandoned-operator"
                       else if digest then "delivery-abandoned-ended:" else "delivery-abandoned:" in
  let kind := if digest then Some NOTICE_DIGEST_KIND else None in
  let episode := order_by (le_of (desc pq_id))
    (log_select (in_episode sender session (abandonment_window_start now) class_pattern) (db_prompts db)) in
  match head episode with
  | Some latest =>
      if notice_unread db latest
      then Ok (db <| db_prompts ::= log_update (by_id (pq_id latest)) (λ r,
                 r <| pq_prompt := fold_abandonment_line (pq_prompt latest) notice message_count |>
                   <| pq_summary := Some "Messages abandoned (episode continues)" |>) |>)
      else if negb operator
      then insert_notice sender notice now session (Some summary) class_key kind db
      else if existsb (λ r, starts_with update_prefix (default "" (pq_dedupe_key r))) episode
      then Ok db
      else insert_notice sender (abandonment_update_notice notice) now session (Some ("Update: " +:+ summary))
             (update_prefix +:+ trim_start_matches "delivery-abandoned-operator:" class_key) kind db
  | None => insert_notice sender notice now session (Some summary) class_key kind db
  end.

Definition insert_abandonment_notice_in_tx (has_agents : bool) (now : Z) (sender : string)
    (session : option string) (message_id recipient reason : string) db : result Db :=
  let notice := "Message " +:+ message_id +:+ " to " +:+ recipient
                +:+ " was abandoned as undeliverable: " +:+ reason in
  let operator := is_operator_target recipient in
  let digest := negb operator && abandonment_is_digest_in_tx has_agents sender recipient db in
  insert_abandonment_body_in_tx now sender session notice
    ("Message " +:+ message_id +:+ " to " +:+ recipient +:+ " abandoned")
    ("delivery-abandoned:" +:+ message_id) operator digest 1 db.

Definition notify_abandoned_sender_in_tx (has_agents : bool) (now : Z) (prompt_id : Z) db : result Db :=
  match abandoned_sender_notice_in_tx prompt_id db with
  | None => Ok db
  | Some notice =>
      match an_recovery_content notice with
      | Some content => insert_abandonment_recovery_in_tx now notice content db
      | None => insert_abandonment_notice_in_tx has_agents now (an_sender notice) (an_session notice)
                  (show_z prompt_id) (an_target notice) (an_reason notice) db
      end
  end.

Definition notify_peer_send_abandoned (has_agents : bool) (clk : Clock) (sender_agent_id sender_name : string)
    (sender_session : option string) (outbox_id : Z) (recipient reason : string) db : result (unit * Db) :=
  let '(sender, session, _) := abandonment_recipient_in_tx (Some sender_agent_id) sender_name sender_session db in
  let reason := reason +:+ line_feed +:+ "Original sender: " +:+ sender_name +:+ " (session "
                +:+ default "none" sender_session +:+ ")" in
  db ← insert_abandonment_notice_in_tx has_agents (clk 0%nat) sender session
         ("peer-outbox:" +:+ show_z outbox_id) recipient reason db;
  Ok (tt, db).
End notices.
