(* ===== verification/PromptQueue.v ===== *)
(** * The prompt queue ([crates/cas-store/src/prompt_queue_store.rs],
      [prompt_queue_store/recipient_delivery.rs])

    What happens to a queued prompt: its delivery stage, retries, the claims
    and receipts of its recipient, acknowledgement, cancellation, retention.  A
    method that opens one immediate transaction is one step; [poll_all],
    [poll_for_target_with_session] and [ack_delivered_for_recipient] are a SELECT
    and an UPDATE of their own, and [ack] is two statements.  Writing a prompt is in
    [PromptEnqueue], the inbox drains are in [PromptDrain], the operator's turns in
    [OperatorLanes].  Handing a pending row to another recipient, the sweeps that
    notify in bulk and the reports are not modelled, nor is what
    [communication_slo.rs] measures beyond the number of times a body was shown. *)

From S2P Require Import Prelude Logs Enums VerifierText Db SupervisorQueue PromptTypes PromptLanes Reminders PromptNotices.

Section prompt_queue.
Context (has_agents : bool).
Implicit Types (db : Db) (r : PromptRow).

Definition update_prompts (P : PromptRow → bool) (f : PromptRow → PromptRow) db : Db :=
  db <| db_prompts ::= log_update P f |>.
Definition on_seen (f : gmap (Z * string) SeenRow → gmap (Z * string) SeenRow) db : Db :=
  db <| db_prompt_receipts ::= λ t, t <| pt_seen ::= f |> |>.
Definition seen_of (prompt_id : Z) (recipient : string) db : option SeenRow :=
  pt_seen (db_prompt_receipts db) !! (prompt_id, recipient).
Definition from_source (s : SurfacingSource) (seen : SeenRow) : bool :=
  bool_decide (rs_source seen = Some (SurfacingSource_as_str s)).

(** ** Stages *)
Definition read_highest_stage (prompt_id : Z) db : result DeliveryStage :=
  match log_get prompt_id (db_prompts db) ≫= pq_highest_stage with
  | None => Ok DeliveryStage_Enqueued
  | Some s => ok_or (DeliveryStage_parse s)
      (Parse ("prompt_queue id=" +:+ show_z prompt_id +:+ ": corrupt/unknown highest_stage: " +:+ s))
  end.

Definition resolve_stage_transition (current proposed : DeliveryStage) (prompt_id : Z)
    : result DeliveryStage :=
  if bool_decide (current = proposed) then Ok current
  else if DeliveryStage_rank current <? DeliveryStage_rank proposed then Ok proposed
  else if bool_decide (current = DeliveryStage_PartiallyDelivered)
          && bool_decide (proposed = DeliveryStage_Delivered) then Ok proposed
  else if DeliveryStage_rank proposed <? DeliveryStage_rank current then Ok current
  else Err (Other ("prompt_queue id=" +:+ show_z prompt_id +:+ ": illegal stage transition "
                   +:+ DeliveryStage_as_str current +:+ " → " +:+ DeliveryStage_as_str proposed)).

Record AtomicStampOpts := mkAtomicStampOpts {
  ao_reason : option PendingReason;
  ao_detail : option string;
  ao_set_processed : bool;
  ao_broadcast : option (Z * Z * Z);
}.
Definition AtomicStampOpts_reason (reason : PendingReason) (detail : option string) : AtomicStampOpts :=
  mkAtomicStampOpts (Some reason) detail false None.
Definition AtomicStampOpts_detail (detail : string) : AtomicStampOpts :=
  mkAtomicStampOpts None (Some detail) false None.
Definition AtomicStampOpts_clear_reason : AtomicStampOpts := mkAtomicStampOpts None None false None.

Definition holds (reason : option PendingReason) : bool :=
  match reason with
  | Some PendingReason_GatedNotReady | Some PendingReason_AwaitingBusyRecipient => true
  | _ => false
  end.

(** The UPDATE of a stamp *)
Definition stage_row (now : Z) (current next : DeliveryStage) (opts : AtomicStampOpts) r : PromptRow :=
  let stamp_transport := bool_decide (next = DeliveryStage_Delivered) in
  let stamp_processed := ao_set_processed opts || stamp_transport
    || DeliveryStage_is_terminal_non_delivery next
    || bool_decide (next = DeliveryStage_PartiallyDelivered) in
  let holding_detail := option_filter (λ detail, negb (str_is_empty (trim detail))
      && negb (bool_decide (current = DeliveryStage_Confirmed))
      && negb (DeliveryStage_is_terminal_non_delivery current)
      && holds (ao_reason opts)) (ao_detail opts) in
  let counts (f : Z * Z * Z → Z) := f <$> ao_broadcast opts in
  r <| pq_highest_stage := Some (DeliveryStage_as_str next) |>
    <| pq_selected_at ::= λ o, coalesce o (Some now) |>
    <| pq_transport_delivered_at ::= λ o, if stamp_transport then coalesce o (Some now) else o |>
    <| pq_processed_at ::= λ o, if stamp_processed then coalesce o (Some now) else o |>
    <| pq_last_pending_reason := PendingReason_as_str <$> ao_reason opts |>
    <| pq_last_pending_detail := ao_detail opts |>
    <| pq_holding_detail ::= λ o, coalesce holding_detail o |>
    <| pq_broadcast_attempted ::= λ o, coalesce (counts (λ c, c.1.1)) o |>
    <| pq_broadcast_succeeded ::= λ o, coalesce (counts (λ c, c.1.2)) o |>
    <| pq_broadcast_failed ::= λ o, coalesce (counts snd) o |>.

(** The recipient's record of a delivery: INSERT OR IGNORE .. SELECT *)
Definition record_transport (now prompt_id : Z) db : Db :=
  match log_get prompt_id (db_prompts db) with
  | Some r =>
      if String.eqb (pq_target r) "all_workers" then db
      else db <| db_prompt_receipts ::= λ t, t <| pt_transport ::= λ m,
             match m !! (prompt_id, pq_target r) with
             | Some _ => m
             | None => <[(prompt_id, pq_target r) := mkTransportRow now (pq_recipient_device_id r)]> m
             end |> |>
  | None => db
  end.

(** Mail that an explicit shutdown cancelled *)
Definition shutdown_cancelled (prompt_id : Z) (current proposed : DeliveryStage) db : bool :=
  bool_decide (current = DeliveryStage_Suppressed) && negb (bool_decide (proposed = DeliveryStage_Confirmed))
  && bool_decide ((log_get prompt_id (db_prompts db) ≫= pq_last_pending_reason)
                  = Some (PendingReason_as_str PendingReason_ShutdownCancelled)).

Definition atomic_stage_stamp_in_tx (now prompt_id : Z) (proposed : DeliveryStage) (opts : AtomicStampOpts)
    db : result Db :=
  current ← read_highest_stage prompt_id db;
  if shutdown_cancelled prompt_id current proposed db then Ok db
  else
    next ← resolve_stage_transition current proposed prompt_id;
    let db := update_prompts (by_id prompt_id) (stage_row now current next opts) db in
    let db := if bool_decide (next = DeliveryStage_Delivered) then record_transport now prompt_id db else db in
    if bool_decide (next = DeliveryStage_Abandoned)
    then notify_abandoned_sender_in_tx has_agents now prompt_id db
    else Ok db.

Definition atomic_stage_stamp (clk : Clock) (prompt_id : Z) (proposed : DeliveryStage)
    (opts : AtomicStampOpts) db : result (unit * Db) :=
  db ← atomic_stage_stamp_in_tx (clk 0%nat) prompt_id proposed opts db; Ok (tt, db).

Definition settled_opts (reason : option PendingReason) (detail : option string) : AtomicStampOpts :=
  mkAtomicStampOpts reason detail true None.

Definition record_selected (clk : Clock) (prompt_id : Z) db :=
  atomic_stage_stamp clk prompt_id DeliveryStage_Selected AtomicStampOpts_clear_reason db.
Definition mark_transport_delivered (clk : Clock) (prompt_id : Z) db :=
  atomic_stage_stamp clk prompt_id DeliveryStage_Delivered (settled_opts None None) db.
Definition mark_dropped (clk : Clock) (prompt_id : Z) (detail : option string) db :=
  atomic_stage_stamp clk prompt_id DeliveryStage_Dropped
    (settled_opts (Some PendingReason_DroppedDeadSource) detail) db.
Definition mark_suppressed (clk : Clock) (prompt_id : Z) (detail : option string) db :=
  atomic_stage_stamp clk prompt_id DeliveryStage_Suppressed
    (settled_opts (Some PendingReason_SuppressedIdle) detail) db.
Definition mark_superseded (clk : Clock) (prompt_id : Z) (detail : string) db :=
  atomic_stage_stamp clk prompt_id DeliveryStage_Suppressed
    (settled_opts (Some PendingReason_SupersededStale) (Some detail)) db.
Definition mark_abandoned (clk : Clock) (prompt_id : Z) (detail : option string) db :=
  atomic_stage_stamp clk prompt_id DeliveryStage_Abandoned
    (settled_opts (Some PendingReason_AbandonedUnknownTarget) detail) db.
Definition mark_undelivered_lifecycle_relay (clk : Clock) (prompt_id : Z) (detail : option string) db :=
  atomic_stage_stamp clk prompt_id DeliveryStage_Abandoned
    (settled_opts (Some PendingReason_UndeliveredLifecycleRelay) detail) db.
Definition mark_undelivered_after_wake_declines (clk : Clock) (prompt_id : Z) (detail : option string) db :=
  atomic_stage_stamp clk prompt_id DeliveryStage_Abandoned
    (settled_opts (Some PendingReason_UndeliveredAfterWakeDeclines) detail) db.

Definition mark_broadcast_outcome (clk : Clock) (prompt_id attempted succeeded failed : Z)
    (detail : option string) db : result (unit * Db) :=
  if attempted =? 0 then
    atomic_stage_stamp clk prompt_id DeliveryStage_Selected
      (mkAtomicStampOpts (Some PendingReason_NoIntendedRecipients)
         (coalesce detail (Some "all_workers broadcast: zero intended recipients")) false (Some (0, 0, 0))) db
  else if succeeded =? attempted then
    atomic_stage_stamp clk prompt_id DeliveryStage_Delivered
      (mkAtomicStampOpts None None true (Some (attempted, succeeded, failed))) db
  else if succeeded =? 0 then
    atomic_stage_stamp clk prompt_id DeliveryStage_Selected
      (mkAtomicStampOpts (Some PendingReason_AdapterRetryable)
         (coalesce detail (Some "all_workers broadcast: zero successes")) false (Some (attempted, 0, failed))) db
  else
    atomic_stage_stamp clk prompt_id DeliveryStage_PartiallyDelivered
      (mkAtomicStampOpts (Some PendingReason_PartialBroadcast)
         (Some (default "all_workers partial delivery" detail +:+ ": attempted=" +:+ show_z attempted
                +:+ " succeeded=" +:+ show_z succeeded +:+ " failed=" +:+ show_z failed))
         true (Some (attempted, succeeded, failed))) db.

(** [delivery_attempts + 1] in SQL *)
Definition count_attempt (now : Z) r : PromptRow :=
  r <| pq_delivery_attempts ::= Z.add 1 |>
    <| pq_first_attempt_at ::= λ o, coalesce o (Some now) |>.
Definition record_pending_reason (clk : Clock) (prompt_id : Z) (reason : PendingReason)
    (detail : option string) db : result (unit * Db) :=
  db ← atomic_stage_stamp_in_tx (clk 0%nat) prompt_id (PendingReason_implied_stage reason)
         (AtomicStampOpts_reason reason detail) db;
  Ok (tt, if PendingReason_counts_as_delivery_attempt reason
          then update_prompts (by_id prompt_id) (count_attempt (clk 1%nat)) db else db).

(** ** Retries *)
Definition U32_MAX : Z := 2 ^ 32 - 1.
Definition retry_delay_ms (attempts : Z) : Z :=
  let exponent := Z.min (Z.max 0 (attempts - 1)) 20 in
  Z.min (PROMPT_RETRY_BASE_DELAY_MS * 2 ^ exponent) PROMPT_RETRY_MAX_DELAY_MS.
Definition retry_row (attempts first_attempt_at : Z) (next_attempt_at : option Z) r : PromptRow :=
  r <| pq_delivery_attempts := attempts |>
    <| pq_first_attempt_at ::= λ o, coalesce o (Some first_attempt_at) |>
    <| pq_next_attempt_at := next_attempt_at |>.

Definition pending_prompt (prompt_id : Z) db : option PromptRow :=
  head (log_select (λ r, by_id prompt_id r && is_none (pq_processed_at r)) (db_prompts db)).

Definition record_retry (clk : Clock) (prompt_id : Z) (reason : PendingReason) (detail : option string)
    db : result (PromptRetryDisposition * Db) :=
  match pending_prompt prompt_id db with
  | None => Ok (Abandoned 0, db)
  | Some r =>
      if negb ((0 <=? pq_delivery_attempts r) && (pq_delivery_attempts r <=? U32_MAX))
      then Err (Database ("Integer " +:+ show_z (pq_delivery_attempts r) +:+ " out of range at index 1"))
      else
        let now := clk 0%nat in
        let attempts := Z.min (pq_delivery_attempts r + 1) U32_MAX in
        let first_attempt_at := default now (pq_first_attempt_at r) in
        let age_secs := Z.max 0 (num_seconds (now - first_attempt_at)) in
        if (PROMPT_RETRY_MAX_ATTEMPTS <=? attempts) || (PROMPT_RETRY_MAX_AGE_SECS <=? age_secs)
        then
          db ← atomic_stage_stamp_in_tx (clk 1%nat) prompt_id DeliveryStage_Abandoned
                 (settled_opts (Some PendingReason_AbandonedUnknownTarget)
                    (Some (default "delivery retry exhausted" detail +:+ "; delivery abandoned after "
                           +:+ show_z attempts +:+ " failed attempts / " +:+ show_z age_secs +:+ "s age"))) db;
          Ok (Abandoned attempts, update_prompts (by_id prompt_id) (retry_row attempts first_attempt_at None) db)
        else
          let retry_at := now + retry_delay_ms attempts * 1000000 in
          db ← atomic_stage_stamp_in_tx (clk 1%nat) prompt_id (PendingReason_implied_stage reason)
                 (AtomicStampOpts_reason reason detail) db;
          Ok (Scheduled attempts retry_at,
              update_prompts (by_id prompt_id) (retry_row attempts first_attempt_at (Some retry_at)) db)
  end.

(** ** Parking and cancelling *)
Definition park_for_busy_recipient (clk : Clock) (prompt_id : Z) (detail : option string) (recheck_at : Z)
    db : result (unit * Db) :=
  match log_select (λ r, by_id prompt_id r && is_none (pq_processed_at r) && is_none (pq_acked_at r))
          (db_prompts db) with
  | [] => Ok (tt, db)
  | r :: _ =>
      db ← atomic_stage_stamp_in_tx (clk 0%nat) prompt_id
             (PendingReason_implied_stage PendingReason_AwaitingBusyRecipient)
             (AtomicStampOpts_reason PendingReason_AwaitingBusyRecipient detail) db;
      let db := update_prompts (by_id prompt_id) (λ r, r <| pq_next_attempt_at := Some recheck_at |>) db in
      Ok (tt, on_seen (sql_delete (λ k seen, (k.1 =? prompt_id)
                 && from_source SurfacingSource_TransportClaimed seen
                 && is_none (rs_teams_body_fallback_at seen)
                 && String.eqb k.2 (pq_target r))) db)
  end.

(** The body has not entered the recipient's turn. *)
Definition unread_by_target db r : bool :=
  match seen_of (pq_id r) (pq_target r) db with
  | Some seen => String.eqb (default "inbox_poll" (rs_source seen)) "transport_delivered"
  | None => true
  end.
(** [SHUTDOWN_UNREAD_IDS_SQL] *)
Definition shutdown_unread (recipient : string) (factory_session : option string) db r : bool :=
  String.eqb (pq_target r) recipient
  && (is_none (pq_factory_session r)
      || negb (is_none factory_session) && bool_decide (pq_factory_session r = factory_session))
  && is_none (pq_acked_at r)
  && negb (existsb (String.eqb (default "enqueued" (pq_highest_stage r)))
             ["confirmed"; "dropped"; "suppressed"; "abandoned"])
  && unread_by_target db r.

Definition cancel_mail_row (now : Z) (detail : string) r : PromptRow :=
  r <| pq_highest_stage := Some "suppressed" |>
    <| pq_processed_at ::= λ o, coalesce o (Some now) |>
    <| pq_last_pending_reason := Some (PendingReason_as_str PendingReason_ShutdownCancelled) |>
    <| pq_last_pending_detail := Some detail |>.

Definition cancel_unread_for_shutdown (clk : Clock) (recipient : string) (factory_session : option string)
    (detail : string) db : result (nat * Db) :=
  if str_is_empty (trim recipient) || String.eqb recipient "all_workers" || str_is_empty (trim detail)
  then Err (Other "shutdown cancellation requires a direct recipient and a reason")
  else
    let ids := pq_id <$> log_select (shutdown_unread recipient factory_session db) (db_prompts db) in
    db ← try_fold (λ id db, _ ← read_highest_stage id db;
                     Ok (update_prompts (by_id id) (cancel_mail_row (clk 0%nat) detail) db)) ids db;
    Ok (length ids, db).
(** ** Claims and receipts *)

(** [transport_claim_token]: [last] is the last token of this process *)
Definition transport_claim_token (now last : Z) : Z := Z.max now (Z.min (2 ^ 63 - 1) (last + 1)).

Definition deliverable_stage r : bool :=
  negb (existsb (λ s, bool_decide (pq_highest_stage r = Some s)) ["dropped"; "suppressed"; "abandoned"]).
(** The row that the SELECT of the claim finds *)
Definition claimable_for (prompt_id : Z) (recipient : string) db r : bool :=
  let broadcast := String.eqb (pq_target r) "all_workers" in
  by_id prompt_id r && (String.eqb (pq_target r) recipient || broadcast)
  && (broadcast || is_none (pq_acked_at r) || negb (bool_decide (pq_acked_via r = Some "explicit_ack")))
  && deliverable_stage r
  && is_none (pt_acks (db_prompt_receipts db) !! (prompt_id, recipient)).

(** A claim: the token of the new claim, and the process's last token.  A claim's
    [seen_at] is its token. *)
Definition claim_recipient_transport_token (clk : Clock) (last prompt_id : Z) (recipient : string) db
    : result (option Z * Z * Db) :=
  if str_is_empty (trim recipient) then Err (Other "transport claim requires a recipient")
  else
    let token := transport_claim_token (clk 0%nat) last in
    let free := match seen_of prompt_id recipient db with
                | None => true
                | Some seen => from_source SurfacingSource_TransportDelivered seen
                end in
    if negb (existsb (claimable_for prompt_id recipient db) (log_rows (db_prompts db))) || negb free
    then Ok (None, token, db)
    else
      let claim o := Some match o with
        | None => mkSeenRow token (Some "transport_claimed") None None None
        | Some seen => seen <| rs_seen_at := token |> <| rs_source := Some "transport_claimed" |>
        end in
      Ok (Some token, token,
          update_prompts (by_id prompt_id)
            (λ r, r <| pq_deferred_inbox_at := None |> <| pq_deferred_inbox_bytes := None |>)
            (on_seen (partial_alter claim (prompt_id, recipient)) db)).
Definition claim_recipient_transport (clk : Clock) (last prompt_id : Z) (recipient : string) db
    : result (bool * Z * Db) :=
  '(token, last, db) ← claim_recipient_transport_token clk last prompt_id recipient db;
  Ok (negb (is_none token), last, db).

(** A claim whose body was not handed over *)
Definition open_claim (seen : SeenRow) : bool :=
  from_source SurfacingSource_TransportClaimed seen && is_none (rs_teams_body_fallback_at seen).

Definition release_recipient_transport_claim (prompt_id : Z) (recipient : string) (token : Z) db
    : result (bool * Db) :=
  match seen_of prompt_id recipient db with
  | Some seen =>
      if open_claim seen && (rs_seen_at seen =? token)
      then Ok (true, on_seen (delete (prompt_id, recipient)) db) else Ok (false, db)
  | None => Ok (false, db)
  end.
Definition release_recipient_transport (prompt_id : Z) (recipient : string) db : result (unit * Db) :=
  Ok (tt, on_seen (sql_delete (λ k seen, bool_decide (k = (prompt_id, recipient)) && open_claim seen)) db).

Definition release_orphaned_transport_claims (factory_session : string) db : result (nat * Db) :=
  let waiting r := is_none (pq_processed_at r) && is_none (pq_transport_delivered_at r)
    && is_none (pq_deferred_inbox_at r) && bool_decide (pq_factory_session r = Some factory_session) in
  let orphaned (k : Z * string) (seen : SeenRow) :=
    open_claim seen && is_none (rs_delivered_at seen)
    && existsb (λ r, (pq_id r =? k.1) && waiting r) (log_rows (db_prompts db)) in
  Ok (sql_count orphaned (pt_seen (db_prompt_receipts db)), on_seen (sql_delete orphaned) db).

(** INSERT .. ON CONFLICT DO UPDATE .. WHERE: whether a receipt was written *)
Definition upsert_seen (may_replace : SeenRow → bool) (now prompt_id : Z) (recipient source : string) db
    : bool * Db :=
  match seen_of prompt_id recipient db with
  | None => (true, on_seen (<[(prompt_id, recipient) := mkSeenRow now (Some source) None None None]>) db)
  | Some seen =>
      if may_replace seen
      then (true, on_seen (<[(prompt_id, recipient) :=
                     seen <| rs_seen_at := now |> <| rs_source := Some source |>]>) db)
      else (false, db)
  end.

(** [communication_slo::observe_body] *)
Definition observe_body (prompt_id : Z) (recipient : string) db : Db :=
  db <| db_prompt_receipts ::= λ t, t <| pt_observed ::=
    partial_alter (λ o, Some (default 0 o + 1)) (prompt_id, recipient) |> |>.

Definition record_recipient_surfaced (clk : Clock) (prompt_id : Z) (recipient : string)
    (source : SurfacingSource) db : result (unit * Db) :=
  if str_is_empty (trim recipient) then Ok (tt, db)
  else
    let may_replace seen :=
      from_source SurfacingSource_TransportDelivered seen
        && negb (bool_decide (source = SurfacingSource_TransportDelivered))
      || from_source SurfacingSource_TransportClaimed seen
         && (bool_decide (source = SurfacingSource_HookSurfaced)
             || bool_decide (source = SurfacingSource_InboxPoll)) in
    let '(changed, db) := upsert_seen may_replace (clk 0%nat) prompt_id recipient (SurfacingSource_as_str source) db in
    Ok (tt, if changed && SurfacingSource_is_surfaced source then observe_body prompt_id recipient db else db).

Definition queued_prompt (prompt_id : Z) db : option QueuedPrompt :=
  prompt_from_row <$> log_get prompt_id (db_prompts db).

#[local] Instance QueueOrigin_eq_dec : EqDecision QueueOrigin.
Proof. solve_decision. Defined.
Definition record_transcript_consumed (clk : Clock) (expected : QueuedPrompt) db : result (bool * Db) :=
  match queued_prompt (qd_id expected) db with
  | None => Ok (false, db)
  | Some current =>
      if String.eqb (qd_target current) "all_workers"
         || negb (String.eqb (qd_target current) (qd_target expected))
         || negb (String.eqb (qd_source current) (qd_source expected))
         || negb (String.eqb (qd_prompt current) (qd_prompt expected))
         || negb (qd_created_at current =? qd_created_at expected)
         || negb (opt_eqb (qd_factory_session current) (qd_factory_session expected))
         || negb (bool_decide (qd_origin current = qd_origin expected))
         || negb (is_none (qd_acked_at current))
      then Ok (false, db)
      else
        let '(changed, db) := upsert_seen (λ seen, from_source SurfacingSource_TransportDelivered seen
                                                   || from_source SurfacingSource_TransportClaimed seen)
                                (clk 0%nat) (qd_id expected) (qd_target expected) "observed_wake" db in
        Ok (changed, if changed then observe_body (qd_id expected) (qd_target expected) db else db)
  end.

Definition record_recipient_transport_delivered (clk : Clock) (prompt_id : Z) (recipient : string) db
    : result (unit * Db) :=
  if str_is_empty (trim recipient) then Ok (tt, db)
  else
    '(_, db) ← record_recipient_surfaced clk prompt_id recipient SurfacingSource_TransportClaimed db;
    Ok (tt, on_seen (sql_update (λ k seen, bool_decide (k = (prompt_id, recipient))
                        && from_source SurfacingSource_TransportClaimed seen)
                      (λ seen, seen <| rs_delivered_at ::= λ o, coalesce o (Some (clk 1%nat)) |>)) db).

Definition recipient_handed_off (prompt_id : Z) (recipient : string) db : bool :=
  match seen_of prompt_id recipient db with
  | Some seen => negb (from_source SurfacingSource_TransportClaimed seen)
                 || negb (is_none (rs_delivered_at seen)) || negb (is_none (rs_teams_body_fallback_at seen))
  | None => false
  end.

Definition claim_teams_body_fallback (clk : Clock) (prompt_id : Z) (recipient : string) db
    : result (bool * Db) :=
  match seen_of prompt_id recipient db with
  | Some seen =>
      if is_none (rs_teams_body_fallback_at seen)
         && (from_source SurfacingSource_TransportClaimed seen || from_source SurfacingSource_TransportDelivered seen)
         && is_none (pt_acks (db_prompt_receipts db) !! (prompt_id, recipient))
         && existsb (λ r, by_id prompt_id r && (String.eqb (pq_target r) "all_workers" || is_none (pq_acked_at r)))
              (log_rows (db_prompts db))
      then Ok (true, on_seen (<[(prompt_id, recipient) :=
                        seen <| rs_teams_body_fallback_at := Some (clk 0%nat) |>]>) db)
      else Ok (false, db)
  | None => Ok (false, db)
  end.
Definition release_teams_body_fallback (prompt_id : Z) (recipient : string) db : result (unit * Db) :=
  Ok (tt, on_seen (sql_update_key (prompt_id, recipient)
                     (λ seen, seen <| rs_teams_body_fallback_at := None |>)) db).
Definition teams_body_fallback_claimed (prompt_id : Z) (recipient : string) db : bool :=
  match seen_of prompt_id recipient db with
  | Some seen => negb (is_none (rs_teams_body_fallback_at seen))
  | None => false
  end.

(** ** Wakes *)
Definition record_wake_attempt (clk : Clock) (prompt_id : Z) (attempt : WakeAttempt) (detail : option string)
    db : result (unit * Db) :=
  let may r := negb (bool_decide (attempt = WakeAttempt_NotAttempted))
    || String.eqb (default "nudge_not_attempted" (pq_wake_attempt r)) "nudge_not_attempted" in
  Ok (tt, update_prompts (λ r, by_id prompt_id r && may r) (λ r,
        r <| pq_wake_attempt := Some (WakeAttempt_as_str attempt) |>
          <| pq_wake_attempt_at := Some (clk 0%nat) |> <| pq_wake_attempt_detail := detail |>) db).

Definition record_wake_gate_decline (clk : Clock) (prompt_id : Z) (detail : string) db : result (Z * Db) :=
  let db := update_prompts (λ r, by_id prompt_id r && is_none (pq_acked_at r) && is_none (pq_processed_at r))
    (λ r, r <| pq_wake_gate_declines ::= Z.add 1 |>
            <| pq_wake_attempt := Some "nudge_not_attempted" |>
            <| pq_wake_attempt_at := Some (clk 0%nat) |> <| pq_wake_attempt_detail := Some detail |>
            <| pq_holding_detail ::= λ o, coalesce (if str_is_empty (trim detail) then None else Some detail) o |>)
    db in
  let declines := default 0 (pq_wake_gate_declines <$> log_get prompt_id (db_prompts db)) in
  Ok (if (0 <=? declines) && (declines <=? U32_MAX) then declines else U32_MAX, db).

Definition record_deferred_inbox (clk : Clock) (prompt_id pane_bytes : Z) db : result (unit * Db) :=
  Ok (tt, update_prompts (λ r, by_id prompt_id r && is_none (pq_processed_at r)) (λ r,
        r <| pq_deferred_inbox_at ::= λ o, coalesce o (Some (clk 0%nat)) |>
          <| pq_deferred_inbox_bytes ::= λ o, coalesce o (Some (Z.min pane_bytes (2 ^ 63 - 1))) |>) db).

(** ** Polling and selecting *)
Definition by_urgency : PromptRow → PromptRow → comparison := then_by (asc pq_priority) (asc pq_id).
Definition mark_polled (now : Z) (prompts : list QueuedPrompt) db : Db :=
  match prompts with
  | [] => db
  | _ => update_prompts (among (qd_id <$> prompts)) (λ r,
           r <| pq_processed_at := Some now |> <| pq_last_pending_reason := None |>
             <| pq_last_pending_detail := None |>) db
  end.
Definition pending_prompts (P : PromptRow → bool) (limit : Z) db : list QueuedPrompt :=
  prompt_from_row <$> sql_limit (as_i64 limit) (order_by (le_of by_urgency)
    (log_select (λ r, is_none (pq_processed_at r) && P r) (db_prompts db))).

Definition peek_all (limit : Z) db : list QueuedPrompt := pending_prompts (λ _, true) limit db.
Definition poll_all (clk : Clock) (limit : Z) db : result (list QueuedPrompt * Db) :=
  let prompts := peek_all limit db in Ok (prompts, mark_polled (clk 0%nat) prompts db).
Definition poll_for_target_with_session (clk : Clock) (target : string) (factory_session : option string)
    (limit : Z) db : result (list QueuedPrompt * Db) :=
  let addressed r := String.eqb (pq_target r) target || String.eqb (pq_target r) "all_workers" in
  let mine r := match factory_session with
                | Some session => addressed r && (is_none (pq_factory_session r)
                                    || bool_decide (pq_factory_session r = Some session))
                | None => addressed r
                end in
  let prompts := pending_prompts mine limit db in
  Ok (prompts, mark_polled (clk 0%nat) prompts db).

Definition select_for_targets (clk : Clock) (targets : list string) (factory_session : option string)
    (limit : nat) db : result (list QueuedPrompt * Db) :=
  peeked ← peek_for_targets_on_conn clk targets factory_session limit db;
  '(selected, db, _) ← try_fold (λ row '(selected, db, i),
       db ← atomic_stage_stamp_in_tx (clk i) (qd_id row) DeliveryStage_Selected AtomicStampOpts_clear_reason db;
       Ok (match queued_prompt (qd_id row) db with
           | Some prompt => selected ++ [prompt]
           | None => selected
           end, db, S i)) peeked ([], db, 2%nat);
  Ok (selected, db).

Definition mark_prompt_processed (clk : Clock) (prompt_id : Z) db : result (unit * Db) :=
  Ok (tt, update_prompts (by_id prompt_id) (λ r, r <| pq_processed_at := Some (clk 0%nat) |>) db).

(** ** Acknowledgement *)
Definition acked_row (now : Z) r : PromptRow :=
  r <| pq_acked_at := Some now |> <| pq_acked_via := Some "explicit_ack" |>.
(** The stamp's transaction and its error are ignored. *)
Definition confirm_stage (now prompt_id : Z) db : Db :=
  match atomic_stage_stamp_in_tx now prompt_id DeliveryStage_Confirmed AtomicStampOpts_clear_reason db with
  | Ok db => db
  | Err _ => db
  end.
Definition ack_prompt (clk : Clock) (prompt_id : Z) db : result (unit * Db) :=
  Ok (tt, update_prompts (λ r, by_id prompt_id r && is_none (pq_acked_at r)) (acked_row (clk 0%nat))
            (confirm_stage (clk 1%nat) prompt_id db)).
Definition ack_by_dedupe_key (clk : Clock) (dedupe_key : string) db : result (option Z * Db) :=
  match head (log_select (has_dedupe_key dedupe_key) (db_prompts db)) with
  | None => Ok (None, db)
  | Some r => '(_, db) ← ack_prompt clk (pq_id r) db; Ok (Some (pq_id r), db)
  end.

Definition settle_ack (now : Z) (reply_prompt_id : option Z) (o : option AckRow) : option AckRow :=
  let disposition := if is_none reply_prompt_id then "acknowledged" else "answered" in
  Some match o with
    | None => mkAckRow now disposition reply_prompt_id
    | Some a => a <| ra_disposition := if is_none (ra_reply_prompt_id a) then disposition else "answered" |>
                  <| ra_reply_prompt_id := coalesce reply_prompt_id (ra_reply_prompt_id a) |>
    end.

(** [settle_recipient_message]; the stamp's error is ignored. *)
Definition acknowledge_for_recipients (clk : Clock) (prompt_id : Z) (recipients : list string)
    (reply_prompt_id : option Z) db : result (unit * Db) :=
  if match recipients with [] => true | _ => false end
  then Err (Other "message acknowledgement requires a recipient")
  else
    row ← ok_or (queued_prompt prompt_id db) (Other "message does not exist");
    let broadcast := String.eqb (qd_target row) "all_workers" in
    if negb broadcast && negb (existsb (String.eqb (qd_target row)) recipients)
    then Err (Other "message is not addressed to this recipient")
    else
      _ ← match reply_prompt_id with
          | None => Ok tt
          | Some reply_id =>
              reply ← ok_or (queued_prompt reply_id db) (Other "reply has not been durably queued");
              if existsb (String.eqb (qd_source reply)) recipients then Ok tt
              else Err (Other "reply endpoints do not match message")
          end;
      let now := clk 0%nat in
      let db := db <| db_prompt_receipts ::= λ t, t <| pt_acks ::= λ acks,
                  foldl (λ acks recipient,
                      partial_alter (settle_ack now reply_prompt_id) (prompt_id, recipient) acks)
                    acks recipients |> |> in
      if broadcast then Ok (tt, db)
      else Ok (tt, confirm_stage (clk 1%nat) prompt_id
             (update_prompts (by_id prompt_id) (λ r,
                r <| pq_acked_at ::= λ o, coalesce o (Some now) |> <| pq_acked_via := Some "explicit_ack" |>) db)).

(** [ack_delivered_for_recipient] reads the messages that a later reply may
    have seen, and then updates them by their ids, without a transaction. *)
Definition delivered_unacked (recipient_aliases sender_aliases : list string) (factory_session : option string)
    r : bool :=
  is_none (pq_acked_at r) && negb (is_none (pq_transport_delivered_at r))
  && negb (existsb (String.eqb (default "enqueued" (pq_highest_stage r)))
             ["dropped"; "suppressed"; "abandoned"])
  && existsb (String.eqb (pq_target r)) recipient_aliases
  && existsb (String.eqb (pq_source r)) sender_aliases
  && (is_none (pq_factory_session r)
      || negb (is_none factory_session) && bool_decide (pq_factory_session r = factory_session)).
Definition confirmable_ids (recipient_aliases sender_aliases : list string) (factory_session : option string)
    (reply_enqueued_at : Z) db : list Z :=
  pq_id <$> log_select (λ r,
    delivered_unacked recipient_aliases sender_aliases factory_session r
    && reply_confirms_delivered_message (pq_transport_delivered_at r)
         (rs_seen_at <$> seen_of (pq_id r) (pq_target r) db) reply_enqueued_at) (db_prompts db).
Definition assume_seen (now : Z) (ids : list Z) db : nat * Db :=
  let P r := among ids r && is_none (pq_acked_at r) && is_none (pq_assumed_seen_at r) in
  (log_count P (db_prompts db),
   update_prompts P (λ r,
     r <| pq_assumed_seen_at := Some now |> <| pq_highest_stage := Some "assumed_seen" |>
       <| pq_last_pending_reason := Some "awaiting_ack" |>
       <| pq_last_pending_detail :=
            Some "later recipient activity observed; not confirmation of this message" |>) db).
Definition ack_delivered_for_recipient (clk : Clock) (recipient_aliases sender_aliases : list string)
    (factory_session : option string) (reply_enqueued_at : Z) db : result (nat * Db) :=
  match recipient_aliases, sender_aliases with
  | [], _ | _, [] => Ok (0%nat, db)
  | _, _ => Ok (assume_seen (clk 0%nat)
                  (confirmable_ids recipient_aliases sender_aliases factory_session reply_enqueued_at db) db)
  end.

Definition settle_polled_rows (recipients : list string) (settled : list (Z * string)) db
    : result (unit * Db) :=
  Ok (tt, on_seen (λ seen, foldl (λ seen (s : Z * string), foldl (λ seen recipient,
            sql_update (λ k e, bool_decide (k = (s.1, recipient)) && from_source SurfacingSource_InboxPoll e)
              (λ e, e <| rs_poll_settled := Some s.2 |>) seen) seen recipients) seen settled) db).

Definition rewrite_pending (prompt_id : Z) (prompt : string) (summary : option string) db
    : result (bool * Db) :=
  let P r := by_id prompt_id r && is_none (pq_processed_at r) && is_none (pq_acked_at r)
    && match pq_highest_stage r with None => true | Some s => existsb (String.eqb s) ["queued"; "selected"] end in
  Ok ((0 <? log_count P (db_prompts db))%nat,
      update_prompts P (λ r, r <| pq_prompt := prompt |> <| pq_summary := summary |>) db).

Definition message_status (prompt_id : Z) db : option MessageStatus :=
  (λ r, if bool_decide (pq_highest_stage r = Some (DeliveryStage_as_str DeliveryStage_Abandoned))
        then MessageStatus_Undelivered
        else match pq_acked_at r, pq_processed_at r with
             | Some _, _ => MessageStatus_Confirmed
             | None, Some _ => MessageStatus_Delivered
             | None, None => MessageStatus_Pending
             end) <$> log_get prompt_id (db_prompts db).

Definition unacked (clk : Clock) (timeout_secs limit : Z) db : list QueuedPrompt :=
  let cutoff := clk 0%nat - duration_seconds timeout_secs in
  prompt_from_row <$> sql_limit (as_i64 limit) (order_by (le_of by_urgency)
    (log_select (λ r, match pq_processed_at r with Some at_ => at_ <? cutoff | None => false end
                      && is_none (pq_acked_at r)) (db_prompts db))).
Definition prompt_pending_count (db : Db) : nat :=
  log_count (λ r, is_none (pq_processed_at r)) (db_prompts db).

(** ** Aged rows *)

(** [settle_aged_rows_in_tx]: each of the rows gets its terminal state; the ids
    of those that were abandoned are returned. *)
Definition surfaced_to_target db r : bool :=
  negb (is_none (pq_acked_at r))
  || match seen_of (pq_id r) (pq_target r) db with
     | Some seen => existsb (λ s, bool_decide (rs_source seen = Some s))
                      ["hook_surfaced"; "inbox_poll"; "observed_wake"]
     | None => false
     end.
Definition existed_in_session db r : bool :=
  negb (is_none (seen_of (pq_id r) (pq_target r) db))
  || sql_exists (λ k _, k.1 =? pq_id r) (pt_transport (db_prompt_receipts db))
  || has_agents && sql_exists (λ _ a, String.eqb (a_name a) (pq_target r)
                     && negb (is_none (a_factory_session a))
                     && bool_decide (a_factory_session a = pq_factory_session r)) (db_agents db).
Definition abandon_aged_row (now : Z) (reason : PendingReason) (detail : string) r : PromptRow :=
  r <| pq_processed_at ::= λ o, coalesce o (Some now) |>
    <| pq_highest_stage := Some "abandoned" |>
    <| pq_last_pending_reason := Some (PendingReason_as_str reason) |>
    <| pq_last_pending_detail := Some detail |>
    <| pq_next_attempt_at := None |>.
Definition settle_aged_row (clk : Clock) (now : Z) (existed_detail unresolved_detail : string) (id : Z)
    (s : list Z * Db * nat) : result (list Z * Db * nat) :=
  let '(abandoned, db, i) := s in
  match log_get id (db_prompts db) with
  | None => Ok s
  | Some r =>
      if surfaced_to_target db r
      then
        db ← atomic_stage_stamp_in_tx (clk i) id DeliveryStage_Delivered
               (AtomicStampOpts_detail "surfaced to the recipient before the queue gave up on it") db;
        Ok (abandoned, db, S i)
      else
        let '(reason, detail) := if existed_in_session db r
                                 then (PendingReason_RecipientEndedUnread, existed_detail)
                                 else (PendingReason_AbandonedUnknownTarget, unresolved_detail) in
        Ok (abandoned ++ [id],
            update_prompts (λ r, by_id id r && is_none (pq_processed_at r)) (abandon_aged_row now reason detail) db,
            i)
  end.
Definition settle_aged_rows_in_tx (clk : Clock) (ids : list Z) (now : Z)
    (existed_detail unresolved_detail : string) db : result (list Z * Db) :=
  '(abandoned, db, _) ← try_fold (settle_aged_row clk now existed_detail unresolved_detail) ids ([], db, 0%nat);
  Ok (abandoned, db).

(** ** Keys and digests *)
(** char(1114111), as UTF-8 *)
Definition MAX_CHAR : string := String "244" (String "143" (String "191" (String "191" EmptyString))).
(** [key >= prefix AND key < prefix || char(1114111)], byte by byte *)
Definition in_key_range (prefix key : string) : bool :=
  negb (bool_decide (String.compare key prefix = Lt))
  && bool_decide (String.compare key (prefix +:+ MAX_CHAR) = Lt).
Definition received_by (target : string) db r : bool :=
  negb (is_none (pq_processed_at r)) || negb (is_none (pq_transport_delivered_at r))
  || negb (is_none (pq_acked_at r)) || recipient_handed_off (pq_id r) target db.
Definition release_received_dedupe_keys (target factory_session key_prefix : string) db : result (nat * Db) :=
  let P r := String.eqb (pq_target r) target && bool_decide (pq_factory_session r = Some factory_session)
    && match pq_dedupe_key r with Some key => in_key_range key_prefix key | None => false end
    && received_by target db r in
  Ok (log_count P (db_prompts db), update_prompts P (λ r, r <| pq_dedupe_key := None |>) db).

Definition release_stranded_supervisor_digest (prompt_id : Z) db : result (bool * Db) :=
  let P r := by_id prompt_id r && bool_decide (pq_kind r = Some "supervisor_digest")
    && bool_decide (pq_origin_kind r = Some "registered_agent")
    && is_none (pq_processed_at r) && is_none (pq_transport_delivered_at r) && is_none (pq_acked_at r)
    && negb (sql_exists (λ k _, k.1 =? pq_id r) (pt_seen (db_prompt_receipts db))) in
  Ok ((0 <? log_count P (db_prompts db))%nat, update_prompts P (λ r, r <| pq_kind := None |>) db).

(** ** Retention *)

(** DELETE FROM prompt_queue with the trigger that prunes the acknowledgements *)
Definition delete_prompts (P : PromptRow → bool) db : Db :=
  let gone id := existsb (λ r, (pq_id r =? id) && P r) (log_rows (db_prompts db)) in
  db <| db_prompts ::= log_delete P |>
     <| db_prompt_receipts ::= λ t, t <| pt_acks ::= sql_delete (λ k _, gone k.1) |>
                                      <| pt_observed ::= sql_delete (λ k _, gone k.1) |> |>.
Definition in_outbox db (prompt_id : Z) : bool :=
  existsb (λ o, (ob_prompt_id o =? prompt_id) && is_none (ob_retained_at o)) (pt_outbox (db_prompt_receipts db)).

(** CAST(text AS INTEGER): the longest integer prefix, saturating at 64 bits *)
Definition is_sql_space (c : ascii) : bool :=
  let n := N_of_ascii c in ((n =? 32) || (9 <=? n) && (n <=? 13))%N.
Fixpoint trim_spaces (s : string) : string :=
  match s with
  | String c rest => if is_sql_space c then trim_spaces rest else s
  | EmptyString => s
  end.
Definition cast_integer (s : string) : Z :=
  let s := trim_spaces s in
  let magnitude t := default 0 (parse_digits 0 (take_digits t).1) in
  let value := match s with
               | String "-" rest => - magnitude rest
               | String "+" rest => magnitude rest
               | _ => magnitude s
               end in
  Z.max (- 2 ^ 63) (Z.min (2 ^ 63 - 1) value).
(** substr(key, instr(key, ':') + 1): the whole key when it has no colon *)
Definition key_suffix (key : string) : string :=
  match split_once ":" key with
  | Some (_, rest) => rest
  | None => key
  end.

(** The notification whose relay this key is was delivered or is gone.
    [has_delivery_marker]: the column [prompt_delivered_at] exists. *)
Definition outbox_released (has_supervisor_queue has_delivery_marker : bool) db (key : string) : bool :=
  negb has_supervisor_queue
  || negb (existsb (λ s, (sq_id s =? cast_integer (key_suffix key))
                         && (negb has_delivery_marker || is_none (sq_prompt_delivered_at s)))
             (log_rows (db_supervisor_queue db))).

Definition prunable_prompt (has_supervisor_queue has_delivery_marker : bool) (cutoff : Z) db r : bool :=
  match pq_processed_at r with Some at_ => at_ <? cutoff | None => false end
  && match pq_dedupe_key r with
     | None => true
     | Some key =>
         (like_prefix "lifecycle-outbox:" key || like_prefix "worker-died-outbox:" key
          || like_prefix "worker-attention-outbox:" key)
         && outbox_released has_supervisor_queue has_delivery_marker db key
     end
  && negb (in_outbox db (pq_id r)).

Definition prompt_prune_victims (has_supervisor_queue has_delivery_marker : bool) (cutoff batch : Z) db
    : list Z :=
  pq_id <$> sql_limit batch (order_by (le_of (asc pq_id))
    (log_select (prunable_prompt has_supervisor_queue has_delivery_marker cutoff db) (db_prompts db))).
Definition delete_prompt_trace (id : Z) db : Db :=
  let db := delete_prompts (by_id id) db in
  db <| db_prompt_receipts ::= λ t, t <| pt_seen ::= sql_delete (λ k _, k.1 =? id) |>
                                      <| pt_transport ::= sql_delete (λ k _, k.1 =? id) |> |>.
Definition prune_terminal_batch (has_supervisor_queue has_delivery_marker : bool) (clk : Clock)
    (older_than_secs batch : Z) db : result (nat * Db) :=
  if older_than_secs <=? 0 then Err (Other "prune_terminal_batch requires a positive window")
  else
    let batch := clamp_batch 1 RETENTION_MAX_BATCH batch in
    let cutoff := clk 0%nat - duration_seconds older_than_secs in
    let ids := prompt_prune_victims has_supervisor_queue has_delivery_marker cutoff batch db in
    let prune (s : nat * Db) id :=
      ((s.1 + log_count (by_id id) (db_prompts s.2))%nat, delete_prompt_trace id s.2) in
    Ok (foldl prune (0%nat, db) ids).

(** [prune_terminal_older_than]: batches until one is not full; batch [i] reads
    the clock at [i].  [fuel] bounds the batches. *)
Record PromptRetentionSweep := mkPromptRetentionSweep {
  ps_pruned : nat;
  ps_retained_episode_rows : nat;
}.
Fixpoint prune_terminal_loop (has_supervisor_queue has_delivery_marker : bool) (fuel i : nat) (clk : Clock)
    (older_than_secs : Z) (pruned : nat) db : option (result (nat * nat * Db)) :=
  match fuel with
  | O => None
  | S fuel =>
      match prune_terminal_batch has_supervisor_queue has_delivery_marker (λ _, clk i) older_than_secs
              RETENTION_MAX_BATCH db with
      | Err e => Some (Err e)
      | Ok (deleted, db) =>
          let pruned := (pruned + deleted)%nat in
          if Z.of_nat deleted <? RETENTION_MAX_BATCH then Some (Ok (pruned, S i, db))
          else prune_terminal_loop has_supervisor_queue has_delivery_marker fuel (S i) clk older_than_secs pruned db
      end
  end.
Definition prune_terminal_older_than (has_supervisor_queue has_delivery_marker : bool) (fuel : nat) (clk : Clock)
    (older_than_secs : Z) db : option (result (PromptRetentionSweep * Db)) :=
  if older_than_secs <=? 0
  then Some (Err (Other "prune_terminal_older_than requires a positive window"))
  else
    run ← prune_terminal_loop has_supervisor_queue has_delivery_marker fuel 0 clk older_than_secs 0 db;
    Some ('(pruned, i, db) ← run;
          let cutoff := clk i - duration_seconds older_than_secs in
          let retained r := match pq_processed_at r with Some at_ => at_ <? cutoff | None => false end
            && negb (is_none (pq_dedupe_key r)) in
          Ok (mkPromptRetentionSweep pruned (log_count retained (db_prompts db)), db)).

Definition cleanup_old_prompts (clk : Clock) (older_than_secs : Z) db : result (nat * Db) :=
  let cutoff := clk 0%nat - duration_seconds older_than_secs in
  let old r :=
    match pq_processed_at r with Some at_ => at_ <? cutoff | None => false end
    && match pq_dedupe_key r with None => true | Some key => negb (like_prefix "ci-red-run:" key) end
    && negb (in_outbox db (pq_id r)) in
  let deleted := delete_prompts old db in
  Ok (log_count old (db_prompts db),
      on_seen (sql_delete (λ k _, negb (existsb (λ r, pq_id r =? k.1) (log_rows (db_prompts deleted))))) deleted).
(** A trigger deletes the cloud row of a deleted event. *)
Definition purge_outbox db : Db :=
  let events := pt_outbox (db_prompt_receipts db) in
  db <| db_operator ::= λ t, t <| op_cloud ::=
         List.filter (λ c, negb (existsb (λ o, String.eqb (ob_event_id o) (cl_event_id c)) events)) |> |>
     <| db_prompt_receipts ::= λ t, t <| pt_outbox := [] |> |>.
Definition clear_prompts db : result (nat * Db) :=
  let db := purge_outbox db in
  let cleared := delete_prompts (λ _, true) db in
  Ok (length (log_rows (db_prompts db)), on_seen (λ _, ∅) cleared).
End prompt_queue.
