(* ===== verification/PromptDrain.v ===== *)
(** * Inbox drains ([prompt_queue_store.rs], [drain_unseen_for_recipient_budgeted];
      [prompt_queue_store/recipient_delivery.rs], [project_hold.rs])

    How mail reaches its recipient: the rows a drain may take, relays that
    expired on the way, full bodies and references, the budget of a hook, the
    receipts.  The probe outside the transaction repeats its SELECT and only
    decides whether the write lock is taken; a drain is one step.  The project
    hold is a file, read before and inside the transaction: [hold]. *)

From S2P Require Import Prelude Logs Enums TaskTypes VerifierText Db Envelopes SupervisorQueue PromptTypes PromptLanes Reminders PromptNotices PromptQueue.

(** ** Project hold *)
Definition ACTION_RELAYS : list (string * string) :=
  let q := String quote_mark EmptyString in
  [("<task-lifecycle ", "new=" +:+ q +:+ "awaiting_merge" +:+ q);
   ("<task-lifecycle ", "transition=" +:+ q +:+ "task_ready" +:+ q);
   ("<worker-attention ", "kind=" +:+ q +:+ "supervisor_stalled" +:+ q);
   ("<worker-attention ", "kind=" +:+ q +:+ "merged_close_blocked" +:+ q);
   ("", "<cas-merge-request>"); ("", "<cas-director-ready>"); ("<delivery-pr-merged ", "")].
Definition is_action_relay (prompt : string) : bool :=
  existsb (λ rule : string * string, starts_with rule.1 prompt && str_contains rule.2 prompt) ACTION_RELAYS.

(** ** Eligibility *)
Inductive TransportEligibility :=
  | TransportEligibility_Any
  | TransportEligibility_NoneRecorded
  | TransportEligibility_After (at_ : Z)
  | TransportEligibility_WakeNamed
  | TransportEligibility_PolledBefore (at_ : Z)
  | TransportEligibility_NamedRead
  | TransportEligibility_NoticeDigest.

Definition is_named_read (t : TransportEligibility) : bool :=
  match t with TransportEligibility_NamedRead => true | _ => false end.
Definition is_wake_named (t : TransportEligibility) : bool :=
  match t with TransportEligibility_WakeNamed => true | _ => false end.
Definition takes_claim (t : TransportEligibility) : bool :=
  match t with
  | TransportEligibility_WakeNamed | TransportEligibility_NamedRead
  | TransportEligibility_After _ | TransportEligibility_NoneRecorded => true
  | _ => false
  end.
Definition resurfaces_poll (t : TransportEligibility) : bool :=
  match t with TransportEligibility_PolledBefore _ => true | _ => false end.

#[export] Instance SurfacingSource_eq_dec : EqDecision SurfacingSource.
Proof. solve_decision. Defined.

Section drain.
Context `{Host} (has_agents has_outbox_index : bool).
Implicit Types (db : Db) (r : PromptRow) (seen : SeenRow) (clk : Clock).

Definition broadcast r : bool := String.eqb (pq_target r) "all_workers".
Definition in_row_session r (session : option string) : bool :=
  match pq_factory_session r with None => true | Some s => opt_eqb session (Some s) end.
Definition is_row_supervisor db r (name : string) : bool :=
  String.eqb name "supervisor"
  || has_agents && sql_exists (λ _ a, String.eqb (a_name a) name && String.eqb (a_role a) "supervisor"
                                      && in_row_session r (a_factory_session a)) (db_agents db).
Definition registered_after db r (recipient : string) : bool :=
  sql_exists (λ _ a, String.eqb (a_name a) recipient && in_row_session r (a_factory_session a)
                     && (julianday (pq_created_at r) <? julianday (a_registered_at a))) (db_agents db).
Definition superseded db r : bool :=
  match pq_supersede_key r with
  | None => false
  | Some key =>
      existsb (λ newer, broadcast newer && opt_eqb (pq_supersede_key newer) (Some key)
                        && (pq_id r <? pq_id newer)
                        && String.eqb (default "" (pq_factory_session newer)) (default "" (pq_factory_session r))
                        && deliverable_stage newer) (log_rows (db_prompts db))
  end.
(** [broadcast_audience_sql] *)
Definition broadcast_audience (recipient : string) db r : bool :=
  negb (broadcast r)
  || negb (String.eqb (pq_source r) recipient)
     && negb (is_row_supervisor db r recipient && is_row_supervisor db r (pq_source r))
     && (negb has_agents || pq_sticky r || negb (registered_after db r recipient))
     && negb (superseded db r).

(** [held_teams_claim_sql!] *)
Definition held_teams_claim r seen : bool :=
  from_source SurfacingSource_TransportClaimed seen && is_none (pq_transport_delivered_at r)
  && negb (is_none (pq_deferred_inbox_at r)) && negb (pq_urgent r).
(** The receipt clause of a drain *)
Definition receipt_eligible (transport : TransportEligibility) (o : option SeenRow) r : bool :=
  let unclaimed := match o with
                   | None => true
                   | Some seen => from_source SurfacingSource_TransportDelivered seen
                   end in
  let held := match o with Some seen => held_teams_claim r seen | None => false end in
  match transport with
  | TransportEligibility_Any => unclaimed
  | TransportEligibility_NoneRecorded | TransportEligibility_NoticeDigest =>
      is_none o && is_none (pq_transport_delivered_at r) || held
  | TransportEligibility_After at_ =>
      unclaimed && match pq_transport_delivered_at r with
                   | None => true
                   | Some t => julianday at_ <? julianday t
                   end || held
  | TransportEligibility_WakeNamed =>
      unclaimed || match o with Some seen => from_source SurfacingSource_TransportClaimed seen | None => false end
  | TransportEligibility_PolledBefore at_ =>
      match o with
      | None => false
      | Some seen =>
          from_source SurfacingSource_InboxPoll seen && (julianday (rs_seen_at seen) <? julianday at_)
          && negb (broadcast r) && is_none (pq_acked_at r) && is_none (pq_assumed_seen_at r)
          && is_none (rs_poll_settled seen)
      end
  | TransportEligibility_NamedRead =>
      match o with
      | None => true
      | Some seen => existsb (λ s, opt_eqb (rs_source seen) (Some s))
                       ["transport_delivered"; "transport_claimed"; "inbox_poll"; "hook_surfaced"; "observed_wake"]
      end
  end.

(** [UNSURFACED_UNLESS_EXPLICIT_ACK_SQL] *)
Definition not_explicitly_acked r : bool :=
  broadcast r || is_none (pq_acked_at r) || negb (opt_eqb (pq_acked_via r) (Some "explicit_ack")).
Definition acknowledged_by (recipient : string) db r : bool :=
  negb (is_none (pt_acks (db_prompt_receipts db) !! (pq_id r, recipient))).
(** [NOT_RECOVERY_REFERENCE_Q_SQL], negated *)
Definition recovery_reference r : bool :=
  opt_eqb (pq_origin_kind r) (Some "daemon") && String.eqb (pq_source r) "delivery-watchdog"
  && opt_eqb (pq_kind r) (Some "recovery_reference").
(** [ONLY_NOTICE_DIGEST_Q_SQL] *)
Definition notice_digest r : bool :=
  digest_kind r
  || opt_eqb (pq_origin_kind r) (Some "daemon") && opt_eqb (pq_kind r) (Some NOTICE_DIGEST_KIND).
Definition daemon_nudge r : bool :=
  opt_eqb (pq_origin_kind r) (Some "daemon") && opt_eqb (pq_kind r) (Some "worker_stall_nudge").
(** An abandoned row that the stale sweep retains *)
Definition stale_retained r : bool :=
  opt_eqb (pq_highest_stage r) (Some "abandoned")
  && match pq_last_pending_detail r with
     | Some d => str_contains "(cas-d047)" (to_ascii_lowercase d)
     | None => false
     end.
Definition drainable_stage (named_read : bool) r : bool := deliverable_stage r || named_read && stale_retained r.
(** A Teams body fallback that carries the row *)
Definition body_carried (recipient : string) db r : bool :=
  sql_exists (λ (k : Z * string) seen, (k.1 =? pq_id r) && negb (is_none (rs_teams_body_fallback_at seen))
                      && (negb (broadcast r) || String.eqb k.2 recipient)) (pt_seen (db_prompt_receipts db)).
Definition addressed (recipient : string) r : bool := String.eqb (pq_target r) recipient || broadcast r.
Definition recipient_session (factory_session : option string) r : bool :=
  is_none (pq_factory_session r)
  || match factory_session with Some s => opt_eqb (pq_factory_session r) (Some s) | None => false end.

(** What a drain asks for *)
Record Drain := mkDrain {
  dr_recipient : string;
  dr_factory_session : option string;
  dr_source : SurfacingSource;
  dr_source_filter : option (list string);
  dr_transport : TransportEligibility;
  dr_only_ids : list Z;
  dr_budget : option Z;
}.
Implicit Types (d : Drain).

Definition normalized_sources d : list string :=
  List.filter (λ s, negb (str_is_empty s))
    ((λ s, to_ascii_lowercase (trim s)) <$> default [] (dr_source_filter d)).
Definition hook_drain d : bool := bool_decide (dr_source d = SurfacingSource_HookSurfaced).
(** A hook that renders bodies *)
Definition renders d : bool :=
  hook_drain d && negb (is_wake_named (dr_transport d) && is_none (dr_budget d)).
Definition drainable (held : bool) (stale_cutoff : Z) d db r : bool :=
  let named_read := is_named_read (dr_transport d) in
  receipt_eligible (dr_transport d) (seen_of (pq_id r) (dr_recipient d) db) r
  && (named_read || not_explicitly_acked r && negb (acknowledged_by (dr_recipient d) db r))
  && (named_read || (stale_cutoff <=? pq_created_at r))
  && drainable_stage named_read r
  && (named_read || negb (recovery_reference r))
  && negb (hook_drain d && daemon_nudge r)
  && match dr_transport d with
     | TransportEligibility_NoticeDigest => notice_digest r
     | _ => negb (hook_drain d && notice_digest r)
     end
  && negb (held && is_action_relay (pq_prompt r))
  && addressed (dr_recipient d) r
  && broadcast_audience (dr_recipient d) db r
  && negb (renders d && body_carried (dr_recipient d) db r)
  && match normalized_sources d with
     | [] => true
     | sources => existsb (String.eqb (to_ascii_lowercase (pq_source r))) sources
     end
  && match dr_only_ids d with [] => true | ids => existsb (Z.eqb (pq_id r)) ids end
  && recipient_session (dr_factory_session d) r.

(** [INBOX_POLL_ORDER_SQL] *)
Definition inbox_poll_order : PromptRow → PromptRow → comparison :=
  then_by (asc (λ r, if is_none (pq_processed_at r) then 0 else 1))
    (then_by (asc pq_priority)
      (then_by (asc (λ r, if is_none (pq_processed_at r) then pq_id r else 0))
        (then_by (desc (λ r, default 0 (pq_processed_at r))) (desc pq_id)))).
Definition drain_order d : PromptRow → PromptRow → comparison :=
  if bool_decide (dr_source d = SurfacingSource_InboxPoll) then inbox_poll_order else by_urgency.
Definition drain_rows (held : bool) (stale_cutoff : Z) (limit : nat) d db : list PromptRow :=
  sql_limit (Z.min (2 ^ 63 - 1) (Z.of_nat limit))
    (order_by (le_of (drain_order d)) (log_select (drainable held stale_cutoff d db) (db_prompts db))).

(** ** Relays that expired *)
Definition terminal_task (t : Task) : bool :=
  bool_decide (t_status t = TaskStatus_Closed) || bool_decide (t_status t = TaskStatus_Cancelled).
Definition terminal_relay_task_status (task_id : string) db : option TaskStatus :=
  t ← db_tasks db !! task_id; if terminal_task t then Some (t_status t) else None.
(** The one task of a branch, when it is terminal *)
Definition terminal_ci_branch_task (branch : string) db : option (string * TaskStatus) :=
  match sql_select (λ _ t, opt_eqb (t_branch t) (Some branch)
                           || opt_eqb (td_parked_branch (t_deliverables t)) (Some branch)) (db_tasks db) with
  | [(id, t)] => if terminal_task t then Some (id, t_status t) else None
  | _ => None
  end.

Definition json_str (key : string) (v : json) : option string := json_as_str (json_get key v).
Definition task_lifecycle_row (r : SupervisorRow) : bool :=
  String.eqb (sq_event_type r) "task_lifecycle" && negb (is_none (sq_transition_key r)).
(** A later occurrence of the task in the outbox: the first in the order of the
    index on [transition_key] *)
Definition newer_lifecycle_occurrence (prompt : QueuedPrompt) (envelope : LifecycleEnvelope) db : option Z :=
  text ← option_or_else (strip_prefix "lifecycle:" (qd_source prompt))
                        (strip_prefix "lifecycle-wake:" (qd_source prompt));
  notification_id ← parse_i64 text;
  old ← head (log_select (λ r : SupervisorRow, by_id notification_id r && task_lifecycle_row r) (db_supervisor_queue db));
  old_key ← sq_transition_key old;
  old_payload ← json_parse (sq_payload old);
  occurrence_id ← json_str "occurrence_id" old_payload;
  let prefix := le_task_id envelope +:+ ":" in
  let session := qd_factory_session prompt in
  if negb (opt_eqb (json_str "task_id" old_payload) (Some (le_task_id envelope)))
     || negb (opt_eqb (json_str "new_status" old_payload) (Some (TaskStatus_to_string (le_new_status envelope))))
     || negb (opt_eqb (json_str "factory_session" old_payload) session)
     || negb (opt_eqb (json_str "transition" old_payload) (le_transition envelope))
     || negb (opt_eqb (json_str "transition_key" old_payload) (Some old_key))
     || negb (bool_decide (parse_from_rfc3339 occurrence_id = Some (le_occurrence envelope)))
     || negb (starts_with prefix old_key)
  then None
  else
    let newer (r : SupervisorRow) :=
      match sq_transition_key r with
      | None => false
      | Some key =>
          negb (bool_decide (String.compare key prefix = Lt))
          && bool_decide (String.compare key (le_task_id envelope +:+ ";") = Lt)
      end
      && (notification_id <? sq_id r) && String.eqb (sq_supervisor_id r) (sq_supervisor_id old)
      && String.eqb (sq_event_type r) "task_lifecycle"
      && bool_decide (sqlite_json_extract "task_id" (sq_payload r) = Some (SqlText (le_task_id envelope)))
      && bool_decide (sqlite_json_extract "factory_session" (sq_payload r) = SqlText <$> session)
      && match sqlite_json_extract "occurrence_id" (sq_payload r) with
         | Some v => negb (bool_decide (v = SqlText occurrence_id))
         | None => false
         end in
    sq_id <$> head (order_by (le_of (then_by (by_text (λ r : SupervisorRow, default "" (sq_transition_key r))) (asc sq_id)))
                      (log_select newer (db_supervisor_queue db))).

Definition terminal_detail (task_id : string) (status : TaskStatus) : string :=
  "relay for " +:+ task_id +:+ " superseded by terminal task state " +:+ TaskStatus_to_string status
  +:+ " at recipient drain".
Definition is_lifecycle_source (source : string) : bool :=
  starts_with "lifecycle-wake:" source || starts_with "lifecycle:" source.

(** [supervisor_relay_expiry_reason], arm by arm *)
Definition dispatch_expiry_reason (now : Z) (prompt : QueuedPrompt) db : option string :=
  envelope ← parse_verification_dispatch_envelope (qd_prompt prompt);
  match terminal_relay_task_status (ve_task_id envelope) db with
  | Some status => Some (terminal_detail (ve_task_id envelope) status)
  | None =>
      deadline ← parse_from_rfc3339 (ve_deadline envelope);
      if deadline <=? now
      then Some ("verification dispatch " +:+ ve_dispatch_id envelope +:+ " deadline " +:+ ve_deadline envelope
                 +:+ " passed at recipient drain")
      else None
  end.
Definition lifecycle_expiry_reason (prompt : QueuedPrompt) (envelope : LifecycleEnvelope) db : option string :=
  t ← db_tasks db !! le_task_id envelope;
  if negb (bool_decide (t_status t = le_new_status envelope))
  then Some ("relay for " +:+ le_task_id envelope +:+ " superseded by later task state "
             +:+ TaskStatus_to_string (t_status t) +:+ " at recipient drain")
  else if negb has_outbox_index then None
  else
    newer_id ← newer_lifecycle_occurrence prompt envelope db;
    Some ("relay for " +:+ le_task_id envelope +:+ " superseded by newer lifecycle occurrence "
          +:+ show_z newer_id +:+ " at recipient drain").
(** A snapshot: the terminal task it is about, and its kind *)
Definition snapshot_of (prompt : QueuedPrompt) db : option (option (string * TaskStatus) * string) :=
  let by_task task_id := status ← terminal_relay_task_status task_id db; Some (task_id, status) in
  if starts_with "lifecycle-wake:ci-red-run:" (qd_source prompt)
  then
    envelope ← parse_ci_red_run_envelope (qd_prompt prompt);
    Some (match ci_task_id envelope with
          | Some task_id => by_task task_id
          | None => terminal_ci_branch_task (ci_branch envelope) db
          end, "CI red-run")
  else if starts_with "lifecycle-wake:worker-attention:" (qd_source prompt)
  then
    envelope ← parse_worker_attention_envelope (qd_prompt prompt);
    Some (wa_task_id envelope ≫= by_task, "worker-attention")
  else None.
Definition supervisor_relay_expiry_reason (now : Z) (prompt : QueuedPrompt) db : option string :=
  if starts_with "verification-dispatch:" (qd_source prompt) then dispatch_expiry_reason now prompt db
  else if negb (is_lifecycle_source (qd_source prompt)) then None
  else
    match parse_lifecycle_envelope (qd_prompt prompt) with
    | Some envelope => lifecycle_expiry_reason prompt envelope db
    | None =>
        match snapshot_of prompt db with
        | Some (Some (task_id, status), _) => Some (terminal_detail task_id status)
        | Some (None, kind) =>
            if qd_created_at prompt <=? now - duration_seconds 3600
            then Some (kind +:+ " snapshot older than 1 hour at recipient drain (queued "
                       +:+ display_time (qd_created_at prompt) +:+ ")")
            else None
        | None => None
        end
    end.

Definition LIFECYCLE_DELIVERY_WINDOW_SECS : Z := 9 * 60.
Definition ELLIPSIS : string := String "226" (String "128" (String "166" EmptyString)).
(** [split_whitespace] *)
Fixpoint words (word l : list N) : list (list N) :=
  let done := match word with [] => [] | _ => [rev word] end in
  match l with
  | [] => done
  | c :: l => if char_is_whitespace c then done ++ words [] l else words (c :: word) l
  end.
(** The detail of a hold, on one line and cut at 160 characters *)
Definition bounded_cause (detail : string) : string :=
  let text := chars (String.concat " " (utf8 <$> words [] (chars detail))) in
  utf8 (take 160 text) +:+ (if (160 <? length text)%nat then ELLIPSIS else EmptyString).
Definition delayed_summary (now : Z) (prompt : QueuedPrompt) db : QueuedPrompt :=
  let age_secs := Z.max 0 (num_seconds (now - qd_created_at prompt)) in
  if is_lifecycle_source (qd_source prompt) && negb (is_none (parse_lifecycle_envelope (qd_prompt prompt)))
     && (LIFECYCLE_DELIVERY_WINDOW_SECS <=? age_secs)
  then
    let cause := match log_get (qd_id prompt) (db_prompts db) ≫= pq_holding_detail with
                 | Some detail => "held: " +:+ bounded_cause detail
                 | None => "cause unrecorded"
                 end in
    prompt <| qd_summary := Some (default "task lifecycle" (qd_summary prompt)
                +:+ " [delayed " +:+ show_z (age_secs / 60) +:+ "m; " +:+ cause +:+ "]") |>
  else prompt.

(** A relay that expired is suppressed and acknowledged, with no receipt. *)
Definition ack_expired_row (now : Z) (acked_via : string) r : PromptRow :=
  r <| pq_acked_via := if is_none (pq_acked_at r) then Some acked_via else pq_acked_via r |>
    <| pq_acked_at ::= λ o, coalesce o (Some now) |>.
Definition expire_relay (now stamp : Z) (prompt : QueuedPrompt) (detail : string) db : result Db :=
  current ← read_highest_stage (qd_id prompt) db;
  let stage := if DeliveryStage_rank DeliveryStage_Suppressed <=? DeliveryStage_rank current
               then current else DeliveryStage_Suppressed in
  db ← atomic_stage_stamp_in_tx has_agents stamp (qd_id prompt) stage
         (settled_opts (Some PendingReason_SupersededStale) (Some detail)) db;
  let acked_via := if is_none (parse_lifecycle_envelope (qd_prompt prompt))
                   then "relay_expired" else "terminal_task_reconciled" in
  Ok (update_prompts (by_id (qd_id prompt)) (ack_expired_row now acked_via) db).

(** The prompts still current.  [stamps] are the readings of the clock by the
    stage stamps. *)
Fixpoint expire_relays (now : Z) (stamps : Clock) (prompts : list QueuedPrompt) db
    : result (list QueuedPrompt * Db) :=
  match prompts with
  | [] => Ok ([], db)
  | prompt :: rest =>
      match supervisor_relay_expiry_reason now prompt db with
      | Some detail =>
          db ← expire_relay now (stamps 0%nat) prompt detail db;
          expire_relays now (λ i, stamps (S i)) rest db
      | None =>
          let prompt := delayed_summary now prompt db in
          '(current, db) ← expire_relays now (λ i, stamps (S i)) rest db;
          Ok (prompt :: current, db)
      end
  end.
Definition is_relay_source (source : string) : bool :=
  is_lifecycle_source source || starts_with "verification-dispatch:" source.
Definition expire_supervisor_relays_in_tx (now : Z) (stamps : Clock) (prompts : list QueuedPrompt) db
    : result (list QueuedPrompt * Db) :=
  if existsb (λ prompt, is_relay_source (qd_source prompt)) prompts
  then expire_relays now stamps prompts db else Ok (prompts, db).

(** ** Bodies and references *)
Inductive RecipientDelivery :=
  | Full (row : QueuedPrompt)
  | Reference (row : QueuedPrompt)
  | Settled (row : QueuedPrompt).
Definition is_full (delivery : RecipientDelivery) : bool :=
  match delivery with Full _ => true | _ => false end.
Definition into_prompt (delivery : RecipientDelivery) : QueuedPrompt :=
  match delivery with Full row | Reference row | Settled row => row end.

Definition needs_full_recovery (row : QueuedPrompt) : bool :=
  qd_urgent row
  || match qd_priority row with NotificationPriority_Critical => true | _ => false end
  || starts_with "verification-dispatch:" (qd_source row)
  || starts_with "lifecycle-wake:ci-red-run:" (qd_source row)
  || starts_with "lifecycle-wake:worker-attention:" (qd_source row)
  || str_contains "<cas-blocker " (qd_prompt row)
  || str_contains "<cas-merge-request>" (qd_prompt row)
  || match parse_lifecycle_envelope (qd_prompt row) with
     | Some event => existsb (λ t, opt_eqb (le_transition event) (Some t))
                       ["task_blocked"; "task_awaiting_merge"; "task_close_rejected"]
     | None => false
     end.
(** A receipt that proves that the body was read *)
Definition body_seen seen : bool :=
  existsb (λ s, opt_eqb (rs_source seen) (Some s)) ["inbox_poll"; "hook_surfaced"; "observed_wake"].
Definition reference_to (status : string) (row : QueuedPrompt) : QueuedPrompt :=
  let text := "Message " +:+ show_z (qd_id row) +:+ ": " +:+ status in
  row <| qd_reference_only := true |> <| qd_prompt := text +:+ "." |> <| qd_summary := Some text |>.
Definition recipient_delivery_on_conn (row : QueuedPrompt) (recipient : string) (named_read : bool) db
    : RecipientDelivery :=
  let terminal := ra_disposition <$> pt_acks (db_prompt_receipts db) !! (qd_id row, recipient) in
  let legacy_ack := match log_get (qd_id row) (db_prompts db) with
                    | Some r => negb (is_none (pq_acked_at r)) && opt_eqb (pq_acked_via r) (Some "explicit_ack")
                    | None => false
                    end in
  let terminal := option_or_else terminal
    (if negb (String.eqb (qd_target row) "all_workers") && legacy_ack then Some "acknowledged" else None) in
  let seen := match seen_of (qd_id row) recipient db with Some seen => body_seen seen | None => false end in
  match terminal with
  | Some status => Settled (reference_to status row)
  | None =>
      if needs_full_recovery row || negb seen || named_read then Full row
      else Reference (reference_to "already surfaced; not acknowledged" row)
  end.
Definition recipient_delivery (prompt_id : Z) (recipient : string) db : option RecipientDelivery :=
  row ← queued_prompt prompt_id db;
  if negb (String.eqb (qd_target row) recipient) && negb (String.eqb (qd_target row) "all_workers") then None
  else Some (recipient_delivery_on_conn row recipient false db).

(** The card of an abandoned message, with the message in it *)
Definition recovery_original (card : PromptRow) db : option PromptRow :=
  key ← pq_dedupe_key card;
  let original := cast_integer (drop_bytes (String.length "delivery-abandoned-recovery:") key) in
  r ← log_get original (db_prompts db);
  if String.eqb key ("delivery-abandoned-recovery:" +:+ show_z (pq_id r))
     && opt_eqb (pq_highest_stage r) (Some "abandoned")
  then Some r else None.
Definition hydrate_recovery_reference_in_tx (prompt : QueuedPrompt) db : QueuedPrompt :=
  match log_get (qd_id prompt) (db_prompts db) with
  | Some card =>
      if negb (recovery_reference card) then prompt
      else
        prompt <| qd_prompt :=
          match recovery_original card db with
          | Some r =>
              let reason := default "undeliverable"
                (option_or_else (pq_last_pending_detail r) (pq_last_pending_reason r)) in
              let declines := pq_wake_gate_declines r in
              let reason := if 0 <? declines
                then reason +:+ "; wake gate declined " +:+ show_z declines +:+ " times: "
                     +:+ default "no wake-gate detail recorded" (pq_wake_attempt_detail r)
                else reason in
              "Message " +:+ show_z (pq_id r) +:+ " to " +:+ pq_target r +:+ " was abandoned as undeliverable: "
              +:+ reason +:+ line_feed +:+ "Original source: " +:+ pq_source r +:+ line_feed +:+ "Summary: "
              +:+ default "(none)" (pq_summary r) +:+ line_feed +:+ "Original message:" +:+ line_feed +:+ pq_prompt r
          | None => "The original for recovery reference " +:+ show_z (qd_id prompt) +:+ " is no longer retained."
          end |>
  | None => prompt
  end.

(** ** The drain *)
Definition DRAIN_DELIVERED_DETAIL : string := "consumed by recipient inbox poll".
Definition HOOK_SURFACED_CONFIRMED_DETAIL : string :=
  "acked by turn-start hook surfacing into the recipient's prompt".

(** What fits a budget is kept whole; the rest, with its cost, stays unread. *)
Fixpoint fit_budget (left : Z) (prompts : list QueuedPrompt) : list QueuedPrompt * list (Z * Z) :=
  match prompts with
  | [] => ([], [])
  | prompt :: rest =>
      let cost := hook_surface_cost (qd_prompt prompt) in
      if cost <=? left
      then let '(kept, over) := fit_budget (left - cost) rest in (prompt :: kept, over)
      else let '(kept, over) := fit_budget left rest in (kept, (qd_id prompt, cost) :: over)
  end.
Definition within_budget (budget : option Z) (prompts : list QueuedPrompt) : list QueuedPrompt * list (Z * Z) :=
  match budget with None => (prompts, []) | Some budget => fit_budget budget prompts end.

(** What the drain's receipt may replace *)
Definition drain_replaces (transport : TransportEligibility) seen : bool :=
  from_source SurfacingSource_TransportDelivered seen
  || takes_claim transport && from_source SurfacingSource_TransportClaimed seen
  || resurfaces_poll transport && from_source SurfacingSource_InboxPoll seen.
Definition receipt_prompt (seen_at : Z) d (prompt : QueuedPrompt) db : Db :=
  if qd_reference_only prompt then db
  else observe_body (qd_id prompt) (dr_recipient d)
         (upsert_seen (drain_replaces (dr_transport d)) seen_at (qd_id prompt) (dr_recipient d)
            (SurfacingSource_as_str (dr_source d)) db).2.
Definition hook_acked_row (seen_at : Z) r : PromptRow :=
  r <| pq_acked_at := Some seen_at |> <| pq_acked_via := Some "hook_surfaced" |>.
Definition hook_ack (seen_at : Z) (prompt : QueuedPrompt) db : Db :=
  if String.eqb (qd_target prompt) "all_workers" || qd_reference_only prompt then db
  else update_prompts (λ r, by_id (qd_id prompt) r && is_none (pq_acked_at r)) (hook_acked_row seen_at) db.
(** A stamp that fails changes nothing and is only logged. *)
Definition stamp_drained (delivered confirmed : Z) d (prompt : QueuedPrompt) db : Db :=
  if qd_reference_only prompt
  then on_seen (sql_update (λ k seen, bool_decide (k = (qd_id prompt, dr_recipient d))
                                      && from_source SurfacingSource_InboxPoll seen)
                  (λ seen, seen <| rs_poll_settled := Some "repeat reference rendered" |>)) db
  else if String.eqb (qd_target prompt) "all_workers" then db
  else
    match atomic_stage_stamp_in_tx has_agents delivered (qd_id prompt) DeliveryStage_Delivered
            (AtomicStampOpts_reason PendingReason_AwaitingAck (Some DRAIN_DELIVERED_DETAIL)) db with
    | Err _ => db
    | Ok db =>
        if hook_drain d
        then unwrap_or (atomic_stage_stamp_in_tx has_agents confirmed (qd_id prompt) DeliveryStage_Confirmed
                          (AtomicStampOpts_detail HOOK_SURFACED_CONFIRMED_DETAIL) db) db
        else db
    end.
Fixpoint stamp_all_drained (stamps : Clock) d (prompts : list QueuedPrompt) db : Db :=
  match prompts with
  | [] => db
  | prompt :: rest =>
      stamp_all_drained (λ i, stamps (S (S i))) d rest (stamp_drained (stamps 0%nat) (stamps 1%nat) d prompt db)
  end.
(** The writes of a drain that hands over these prompts *)
Definition record_drained (clk : Clock) d (prompts : list QueuedPrompt) db : Db :=
  let seen_at := clk 0%nat in
  let db := foldl (λ db prompt, receipt_prompt seen_at d prompt db) db prompts in
  let db := if hook_drain d then foldl (λ db prompt, hook_ack seen_at prompt db) db prompts else db in
  stamp_all_drained (λ i, clk (S i)) d prompts db.

(** What the transaction shows of its rows *)
Definition present_rows (hold : bool) d (prompts : list QueuedPrompt) db : list QueuedPrompt :=
  let named_read := is_named_read (dr_transport d) in
  let prompts := if hold then List.filter (λ row, negb (is_action_relay (qd_prompt row))) prompts else prompts in
  let prompts := if named_read then (λ prompt, hydrate_recovery_reference_in_tx prompt db) <$> prompts else prompts in
  (λ prompt, into_prompt (recipient_delivery_on_conn prompt (dr_recipient d) named_read db)) <$> prompts.

(** [hold i]: whether the project is held at the i-th reading *)
Definition drain_unseen_for_recipient_budgeted (clk : Clock) (hold : nat → bool) (limit : nat) d db
    : result (list QueuedPrompt * list (Z * Z) * Db) :=
  if str_is_empty (trim (dr_recipient d)) then Err (Other "poll_unseen_for_recipient requires a recipient")
  else if (limit =? 0)%nat then Ok ([], [], db)
  else if negb (is_none (dr_source_filter d)) && bool_decide (normalized_sources d = []) then Ok ([], [], db)
  else if (is_wake_named (dr_transport d) || is_named_read (dr_transport d))
          && bool_decide (dr_only_ids d = []) then Ok ([], [], db)
  else
    let stale_cutoff := clk 0%nat - duration_seconds PROMPT_QUEUE_STALE_TTL_SECS in
    let rows := drain_rows (hold 0%nat) stale_cutoff limit d db in
    match rows with
    | [] => Ok ([], [], db)
    | _ =>
        let n := length rows in
        '(prompts, db) ← expire_supervisor_relays_in_tx (clk 1%nat) (λ i, clk (2 + i)%nat)
                           (prompt_from_row <$> rows) db;
        let prompts := present_rows (hold 1%nat) d prompts db in
        let '(prompts, over_budget) := within_budget (dr_budget d) prompts in
        Ok (prompts, over_budget, record_drained (λ i, clk (2 + n + i)%nat) d prompts db)
    end.
Definition drain_unseen_for_recipient (clk : Clock) (hold : nat → bool) (recipient : string)
    (factory_session : option string) (limit : nat) (source : SurfacingSource)
    (source_filter : option (list string)) (transport : TransportEligibility) (only_ids : list Z) db
    : result (list QueuedPrompt * Db) :=
  '(rows, _, db) ← drain_unseen_for_recipient_budgeted clk hold limit
    (mkDrain recipient factory_session source source_filter transport only_ids None) db;
  Ok (rows, db).

Definition poll_unseen_for_recipient clk hold recipient factory_session limit db :=
  drain_unseen_for_recipient clk hold recipient factory_session limit SurfacingSource_InboxPoll None
    TransportEligibility_Any [] db.
Definition surface_unseen_for_recipient clk hold recipient factory_session limit db :=
  drain_unseen_for_recipient clk hold recipient factory_session limit SurfacingSource_HookSurfaced None
    TransportEligibility_Any [] db.
Definition surface_unseen_for_recipient_without_transport_delivery clk hold recipient factory_session limit db :=
  drain_unseen_for_recipient clk hold recipient factory_session limit SurfacingSource_HookSurfaced None
    TransportEligibility_NoneRecorded [] db.
Definition surface_unseen_for_recipient_delivered_after clk hold recipient factory_session limit turn_started_at db :=
  drain_unseen_for_recipient clk hold recipient factory_session limit SurfacingSource_HookSurfaced None
    (TransportEligibility_After turn_started_at) [] db.
Definition poll_named_for_recipient clk hold recipient factory_session (ids : list Z) db :=
  drain_unseen_for_recipient clk hold recipient factory_session (length ids) SurfacingSource_InboxPoll None
    TransportEligibility_NamedRead ids db.
Definition surface_wake_named_for_recipient clk hold recipient factory_session (ids : list Z) db :=
  drain_unseen_for_recipient clk hold recipient factory_session (length ids) SurfacingSource_HookSurfaced None
    TransportEligibility_WakeNamed ids db.
Definition surface_unseen_from_sources_for_recipient clk hold recipient factory_session (sources : list string)
    limit db :=
  drain_unseen_for_recipient clk hold recipient factory_session limit SurfacingSource_HookSurfaced (Some sources)
    TransportEligibility_Any [] db.

Inductive HookDrain :=
  | HookDrain_Unseen
  | HookDrain_WithoutTransport
  | HookDrain_DeliveredAfter (at_ : Z)
  | HookDrain_WakeNamed (ids : list Z)
  | HookDrain_PolledBefore (at_ : Z)
  | HookDrain_NoticeDigest.
Record BudgetedSurface := mkBudgetedSurface { bs_rows : list QueuedPrompt; bs_over_budget : list (Z * Z) }.
Definition surface_for_recipient_within_budget (clk : Clock) (hold : nat → bool) (recipient : string)
    (factory_session : option string) (drain : HookDrain) (limit : nat) (budget_chars : Z) db
    : result (BudgetedSurface * Db) :=
  let '(transport, ids, limit) :=
    match drain with
    | HookDrain_Unseen => (TransportEligibility_Any, [], limit)
    | HookDrain_WithoutTransport => (TransportEligibility_NoneRecorded, [], limit)
    | HookDrain_DeliveredAfter at_ => (TransportEligibility_After at_, [], limit)
    | HookDrain_WakeNamed ids => (TransportEligibility_WakeNamed, ids, Nat.min limit (length ids))
    | HookDrain_PolledBefore at_ => (TransportEligibility_PolledBefore at_, [], limit)
    | HookDrain_NoticeDigest => (TransportEligibility_NoticeDigest, [], limit)
    end in
  let budget := match drain with HookDrain_NoticeDigest => None | _ => Some budget_chars end in
  '(rows, over_budget, db) ← drain_unseen_for_recipient_budgeted clk hold limit
    (mkDrain recipient factory_session SurfacingSource_HookSurfaced None transport ids budget) db;
  Ok (mkBudgetedSurface rows over_budget, db).

(** ** Looking at an inbox *)
(** [unseen_for_recipient_predicate] *)
Definition unseen_for_recipient (stale_cutoff : Z) (recipient : string) (factory_session : option string) db r : bool :=
  match seen_of (pq_id r) recipient db with
  | None => true
  | Some seen => from_source SurfacingSource_TransportDelivered seen
  end
  && not_explicitly_acked r && negb (recovery_reference r)
  && (stale_cutoff <=? pq_created_at r) && deliverable_stage r
  && addressed recipient r && broadcast_audience recipient db r
  && recipient_session factory_session r.
Definition unseen_for_recipient_summary (clk : Clock) (recipient : string) (factory_session : option string) db
    : nat * option Z :=
  if str_is_empty (trim recipient) then (0%nat, None)
  else
    let rows := log_select (unseen_for_recipient (clk 0%nat - duration_seconds PROMPT_QUEUE_STALE_TTL_SECS)
                              recipient factory_session db) (db_prompts db) in
    let oldest := pq_created_at <$> head (order_by (le_of (asc pq_created_at)) rows) in
    (length rows, (λ created, Z.max 0 (num_seconds (clk 1%nat - created))) <$> oldest).
Definition count_unseen_for_recipient clk recipient factory_session db : nat :=
  (unseen_for_recipient_summary clk recipient factory_session db).1.
Definition oldest_unseen_age_secs_for_recipient clk recipient factory_session db : option Z :=
  (unseen_for_recipient_summary clk recipient factory_session db).2.
Definition peek_unseen_for_recipient (clk : Clock) (recipient : string) (factory_session : option string)
    (limit : nat) db : list QueuedPrompt :=
  if str_is_empty (trim recipient) || (limit =? 0)%nat then []
  else
    prompt_from_row <$> sql_limit (as_i64 (Z.of_nat limit)) (order_by (le_of (asc pq_id))
      (log_select (unseen_for_recipient (clk 0%nat - duration_seconds PROMPT_QUEUE_STALE_TTL_SECS)
                     recipient factory_session db) (db_prompts db))).
Definition recipient_receipt (prompt_id : Z) (recipient : string) db : option SurfacingSource :=
  seen ← seen_of prompt_id recipient db; source ← rs_source seen; SurfacingSource_parse source.

(** SQL's trim of blanks, tabs and line ends *)
Definition is_sql_blank (c : ascii) : bool := existsb (Ascii.eqb c) [" "%char; "009"%char; "010"%char; "013"%char].
Fixpoint ltrim_blanks (s : string) : string :=
  match s with
  | String c s' => if is_sql_blank c then ltrim_blanks s' else s
  | EmptyString => EmptyString
  end.
Definition trim_blanks (s : string) : string := String.rev (ltrim_blanks (String.rev (ltrim_blanks s))).
Definition fallback_candidate (factory_session : string) (recipients : list string) (after before : Z) db r
    (recipient : string) seen : bool :=
  opt_eqb (pq_factory_session r) (Some factory_session) && existsb (String.eqb recipient) recipients
  && (String.eqb recipient (pq_target r) || broadcast r) && negb (pq_urgent r)
  && (broadcast r || is_none (pq_acked_at r)) && negb (acknowledged_by recipient db r)
  && is_none (rs_teams_body_fallback_at seen) && deliverable_stage r
  && (from_source SurfacingSource_TransportClaimed seen || from_source SurfacingSource_TransportDelivered seen)
  && (Z.of_nat (length (chars (trim_blanks (pq_prompt r)))) + HOOK_SURFACE_ROW_OVERHEAD_CHARS
      <=? HOOK_SURFACE_BUDGET_CHARS)
  && (julianday after <=? julianday (rs_seen_at seen)) && (julianday (rs_seen_at seen) <=? julianday before).
Definition teams_pointer_fallback_candidates (factory_session : string) (recipients : list string)
    (handed_off_after handed_off_before : Z) (limit : nat) db : list (QueuedPrompt * string) :=
  if bool_decide (recipients = []) || (limit =? 0)%nat then []
  else
    let joined := r ← log_rows (db_prompts db);
      (λ kv : Z * string * SeenRow, (r, kv.1.2)) <$>
        sql_select (λ (k : Z * string) seen, (k.1 =? pq_id r)
          && fallback_candidate factory_session recipients handed_off_after handed_off_before db r k.2 seen)
          (pt_seen (db_prompt_receipts db)) in
    (λ c : PromptRow * string, (prompt_from_row c.1, c.2)) <$>
      sql_limit (Z.min (2 ^ 63 - 1) (Z.of_nat limit))
        (order_by (le_of (then_by (asc (λ c : PromptRow * string, pq_id c.1)) (by_text snd))) joined).

(** ** Policy of a row *)
Definition stamp_recipient_device (prompt_id : Z) (device_id : string) db : result (unit * Db) :=
  let device_id := trim device_id in
  if str_is_empty device_id then Err (Other "operator reply recipient device id cannot be empty")
  else
    let mine r := by_id prompt_id r && String.eqb (to_ascii_lowercase (pq_target r)) "operator" in
    if (log_count mine (db_prompts db) =? 0)%nat
    then Err (Other ("prompt_queue id=" +:+ show_z prompt_id +:+ " is not an operator reply row"))
    else Ok (tt, update_prompts mine (λ r, r <| pq_recipient_device_id := Some device_id |>) db).
(** The older broadcasts of the key that are still pending *)
Definition older_broadcasts (prompt_id : Z) (key : string) db : list Z :=
  match log_get prompt_id (db_prompts db) with
  | None => []
  | Some current =>
      pq_id <$> order_by (le_of (asc pq_id))
        (log_select (λ older, broadcast older && opt_eqb (pq_supersede_key older) (Some key)
           && (pq_id older <? pq_id current) && is_none (pq_processed_at older)
           && String.eqb (default "" (pq_factory_session older)) (default "" (pq_factory_session current)))
           (db_prompts db))
  end.
Fixpoint suppress_all (stamps : Clock) (detail : string) (ids : list Z) db : result Db :=
  match ids with
  | [] => Ok db
  | id :: ids =>
      db ← atomic_stage_stamp_in_tx has_agents (stamps 0%nat) id DeliveryStage_Suppressed
             (AtomicStampOpts_reason PendingReason_SupersededStale (Some detail)) db;
      suppress_all (λ i, stamps (S i)) detail ids db
  end.
Definition stamp_broadcast_policy (clk : Clock) (prompt_id : Z) (supersede_key : option string) (sticky : bool) db
    : result (list Z * Db) :=
  let supersede_key := trimmed_nonempty supersede_key in
  let mine r := by_id prompt_id r && broadcast r in
  if (log_count mine (db_prompts db) =? 0)%nat
  then Err (Other ("prompt_queue id=" +:+ show_z prompt_id +:+ " is not an all_workers broadcast"))
  else
    let db := update_prompts mine (λ r, r <| pq_supersede_key := supersede_key |> <| pq_sticky := sticky |>) db in
    match supersede_key with
    | None => Ok ([], db)
    | Some key =>
        let older := older_broadcasts prompt_id key db in
        let detail := "superseded by broadcast " +:+ show_z prompt_id +:+ " (supersede_key=" +:+ key +:+ ")" in
        db ← suppress_all clk detail older db; Ok (older, db)
    end.
End drain.
