(* ===== verification/OperatorLanes.v ===== *)
(** * Operator turns and their delivery lanes
      ([prompt_queue_store/operator_delivery.rs], [prompt_queue_store/operator_cloud.rs])

    A turn of the operator is a prompt with an immutable event in the local
    outbox and, while a feed is bound, a row in the cloud outbox.  Drains claim
    events under leases; cloud rows are sealed, uploaded and settled; offline
    commands are admitted with the turn they carry.  [rand] identities are
    arguments. *)

From S2P Require Import Prelude Logs Enums TaskTypes Db SupervisorQueue PromptTypes PromptNotices PromptQueue.

(** ** Turns *)
Record OperatorStamp := mkOperatorStamp {
  os_operator : string;
  os_device_id : string;
  os_device_label : string;
  os_scopes : list string;
  os_verified : bool;
}.
Definition OperatorStamp_origin (stamp : OperatorStamp) : QueueOrigin :=
  if os_verified stamp && negb (str_is_empty (os_device_id stamp))
  then QueueOrigin_PairedDevice (os_device_id stamp) else QueueOrigin_Unattributed.

Record ArtifactRef := mkArtifactRef {
  ar_artifact_id : string;
  ar_name : string;
  ar_mime : string;
  ar_size_bytes : Z;
  ar_sha256 : string;
}.
Record OperatorTurnMetadata := mkOperatorTurnMetadata {
  om_summary : option string;
  om_priority : option NotificationPriority;
  om_urgent : bool;
  om_attribution : option json;
  om_origin : option QueueOrigin;
  om_operator : option OperatorStamp;
  om_recipient_device_id : option string;
  om_kind : option string;
  om_attachments : list ArtifactRef;
  om_dedupe_key : option string;
  om_occurred_at : option Z;
  om_acknowledge_prompt_id : option Z;
  om_cloud_history_event_id : option string;
}.
#[export] Instance OperatorTurnMetadata_eta : Eta OperatorTurnMetadata := λ r,
  mkOperatorTurnMetadata
    (om_summary r) (om_priority r) (om_urgent r) (om_attribution r) (om_origin r) (om_operator r)
    (om_recipient_device_id r) (om_kind r) (om_attachments r) (om_dedupe_key r) (om_occurred_at r)
    (om_acknowledge_prompt_id r) (om_cloud_history_event_id r).
Definition OperatorTurnMetadata_default : OperatorTurnMetadata :=
  mkOperatorTurnMetadata None None false None None None None None [] None None None None.
Record OperatorTurn := mkOperatorTurn {
  ot_source : string;
  ot_target : string;
  ot_prompt : string;
  ot_factory_session : option string;
  ot_metadata : OperatorTurnMetadata;
}.
Inductive EnqueueOutcome :=
  | EnqueueOutcome_Created (id : Z)
  | EnqueueOutcome_SuppressedDuplicate (id : Z).
Definition EnqueueOutcome_id (o : EnqueueOutcome) : Z :=
  match o with EnqueueOutcome_Created id | EnqueueOutcome_SuppressedDuplicate id => id end.

Definition names_operator (target : string) : bool := eq_ignore_ascii_case (trim target) "operator".
Definition require_operator_session (target : string) (factory_session : option string) : result unit :=
  if names_operator target
     && match factory_session with None => true | Some session => str_is_empty (trim session) end
  then Err (Other "a Commander turn (target='operator') must name the factory session it belongs to")
  else Ok tt.

(** ** JSON texts of the events

    A derived serializer writes the fields of a struct in their order;
    [serde_json::Value] keeps the keys of an object sorted. *)
Definition ArtifactRef_json (a : ArtifactRef) : json :=
  JObject [("artifact_id", JString (ar_artifact_id a)); ("name", JString (ar_name a)); ("mime", JString (ar_mime a));
           ("size_bytes", JInt (ar_size_bytes a)); ("sha256", JString (ar_sha256 a))].
Definition ArtifactRef_value (a : ArtifactRef) : json :=
  JObject [("artifact_id", JString (ar_artifact_id a)); ("mime", JString (ar_mime a)); ("name", JString (ar_name a));
           ("sha256", JString (ar_sha256 a)); ("size_bytes", JInt (ar_size_bytes a))].
Definition QueueOrigin_json (o : QueueOrigin) : json :=
  match o with
  | QueueOrigin_RegisteredAgent id => JObject [("agent_id", JString id); ("kind", JString "registered_agent")]
  | QueueOrigin_Daemon => JObject [("kind", JString "daemon")]
  | QueueOrigin_Unattributed => JObject [("kind", JString "unattributed")]
  | QueueOrigin_PairedDevice id => JObject [("device_id", JString id); ("kind", JString "paired_device")]
  end.
Definition scopes_json (stamp : OperatorStamp) : json := JArray (JString <$> os_scopes stamp).
Definition OperatorStamp_json (stamp : OperatorStamp) : json :=
  JObject [("device_id", JString (os_device_id stamp)); ("device_label", JString (os_device_label stamp));
           ("operator", JString (os_operator stamp)); ("scopes", scopes_json stamp);
           ("verified", JBool (os_verified stamp))].

(** ** Base64url *)
Definition base64url_symbol (n : Z) : ascii :=
  ascii_of_N (Z.to_N (if n <? 26 then 65 + n else if n <? 52 then 71 + n else if n <? 62 then n - 4
                      else if n =? 62 then 45 else 95)).
Definition base64url_chunk (n : Z) (symbols : nat) : string :=
  foldr (λ index s, String (base64url_symbol (Z.land (Z.shiftr n (18 - 6 * Z.of_nat index)) 63)) s)
    EmptyString (seq 0 symbols).
Fixpoint base64url (bytes : list Z) : string :=
  match bytes with
  | a :: b :: c :: rest =>
      base64url_chunk (Z.lor (Z.lor (Z.shiftl a 16) (Z.shiftl b 8)) c) 4 +:+ base64url rest
  | [a; b] => base64url_chunk (Z.lor (Z.shiftl a 16) (Z.shiftl b 8)) 3
  | [a] => base64url_chunk (Z.shiftl a 16) 2
  | [] => EmptyString
  end.
(** The bytes of a hexadecimal text *)
Definition hex_value (c : ascii) : Z :=
  let n := Z.of_N (N_of_ascii c) in if n <? 58 then n - 48 else n - 87.
Fixpoint hex_bytes (s : string) : list Z :=
  match s with
  | String a (String b rest) => 16 * hex_value a + hex_value b :: hex_bytes rest
  | _ => []
  end.
Definition is_routing_char (c : ascii) : bool :=
  let n := Z.of_N (N_of_ascii c) in
  (48 <=? n) && (n <=? 57) || (65 <=? n) && (n <=? 90) || (97 <=? n) && (n <=? 122)
  || existsb (Ascii.eqb c) ["."%char; "_"%char; ":"%char; "@"%char; "/"%char; "-"%char].
Definition is_routing_id (value : string) : bool :=
  (1 <=? String.length value)%nat && (String.length value <=? 200)%nat
  && forallb is_routing_char (String.list_ascii_of_string value).

Definition PROMPT_DUPLICATE_WINDOW_SECS : Z := 30.

Section lanes.
Context `{Host} (has_agents : bool).
Implicit Types (db : Db) (r : PromptRow) (clk : Clock) (o : OutboxRow) (c : CloudRow).

Definition session_routing_id (factory_session : string) : string :=
  "s_" +:+ base64url (hex_bytes (sha256_hex factory_session)).

(** ** Recording a turn *)
Definition prompt_of_key (key : string) db : option Z :=
  pq_id <$> head (log_select (has_dedupe_key key) (db_prompts db)).
(** A recent identical report that was delivered and is not confirmed *)
Definition delivered_duplicate (source target prompt : string) (factory_session : option string) (cutoff : Z) db
    : option Z :=
  let same r :=
    String.eqb (pq_source r) source && String.eqb (pq_target r) target && String.eqb (pq_prompt r) prompt
    && opt_eqb (pq_factory_session r) factory_session && negb (pq_urgent r) && is_none (pq_acked_at r)
    && negb (opt_eqb (pq_highest_stage r) (Some "confirmed"))
    && match pq_transport_delivered_at r with Some at_ => cutoff <=? at_ | None => false end in
  pq_id <$> head (order_by (le_of (then_by (desc (λ r, default 0 (pq_transport_delivered_at r))) (desc pq_id)))
                    (log_select same (db_prompts db))).

Definition operator_turn_row (turn : OperatorTurn) (now : Z) (id : Z) : PromptRow :=
  let metadata := ot_metadata turn in
  let operator := om_operator metadata in
  let origin := match operator with Some stamp => Some (OperatorStamp_origin stamp) | None => om_origin metadata end in
  fresh_prompt_row (ot_source turn) (ot_target turn) (ot_prompt turn) now (ot_factory_session turn)
    (om_summary metadata) (NotificationPriority_to_i32 (default NotificationPriority_Normal (om_priority metadata)))
    (om_urgent metadata) (origin ≫= QueueOrigin_agent_id) (QueueOrigin_kind_str <$> origin)
    (om_kind metadata) (om_dedupe_key metadata) id
    <| pq_attribution_json := json_text <$> om_attribution metadata |>
    <| pq_operator_label := os_operator <$> operator |>
    <| pq_operator_device_id := os_device_id <$> operator |>
    <| pq_operator_device_label := os_device_label <$> operator |>
    <| pq_operator_scopes := (λ stamp, json_text (scopes_json stamp)) <$> operator |>
    <| pq_operator_verified := os_verified <$> operator |>
    <| pq_recipient_device_id := om_recipient_device_id metadata |>
    <| pq_attachments := Some (json_text (JArray (ArtifactRef_json <$> om_attachments metadata))) |>.

(** The turn gets an event *)
Definition has_event (turn : OperatorTurn) : bool :=
  is_none (om_cloud_history_event_id (ot_metadata turn))
  && (names_operator (ot_target turn)
      || String.eqb (ot_source turn) "terminal" && String.eqb (ot_target turn) "terminal-history"
      || match om_operator (ot_metadata turn) with Some stamp => os_verified stamp | None => false end).
Definition event_snapshot (turn : OperatorTurn) (event_id : string) (now id : Z) : json :=
  let metadata := ot_metadata turn in
  let operator := om_operator metadata in
  let origin := match operator with Some stamp => Some (OperatorStamp_origin stamp) | None => om_origin metadata end in
  JObject [("acknowledge_prompt_id", opt_int (om_acknowledge_prompt_id metadata));
           ("attachments", JArray (ArtifactRef_value <$> om_attachments metadata));
           ("attribution", default JNull (om_attribution metadata));
           ("created_at", JString (to_rfc3339 now)); ("event_id", JString event_id);
           ("factory_session", opt_string (ot_factory_session turn)); ("kind", opt_string (om_kind metadata));
           ("operator", default JNull (OperatorStamp_json <$> operator));
           ("origin", default JNull (QueueOrigin_json <$> origin));
           ("priority", JInt (NotificationPriority_to_i32 (default NotificationPriority_Normal (om_priority metadata))));
           ("prompt", JString (ot_prompt turn)); ("prompt_id", JInt id);
           ("recipient_device_id", opt_string (om_recipient_device_id metadata)); ("schema_version", JInt 1);
           ("source", JString (ot_source turn)); ("summary", opt_string (om_summary metadata));
           ("target", JString (ot_target turn)); ("urgent", JBool (om_urgent metadata))].

Definition insert_outbox_row o db : result Db :=
  let rows := pt_outbox (db_prompt_receipts db) in
  if existsb (λ o', String.eqb (ob_event_id o') (ob_event_id o)) rows
  then Err (Database "UNIQUE constraint failed: operator_delivery_outbox.event_id")
  else if existsb (λ o', ob_prompt_id o' =? ob_prompt_id o) rows
  then Err (Database "UNIQUE constraint failed: operator_delivery_outbox.prompt_id")
  else Ok (db <| db_prompt_receipts ::= λ t, t <| pt_outbox := rows ++ [o] |> |>).
(** The audience of the project, while it is bound *)
Definition active_binding db : option FeedBindingRow :=
  b ← op_binding (db_operator db); if is_none (fb_detached_at b) then Some b else None.
Definition fresh_cloud_row (event_id : string) (b : FeedBindingRow) (session : string) (created_at : Z) : CloudRow :=
  mkCloudRow event_id (fb_account_id b) (fb_machine_id b) (fb_hub_id b) (fb_project_id b)
    (session_routing_id session) created_at None None None None 0 0 0 None None None None None None.
Definition insert_cloud_outbox_row (event_id : string) (factory_session : option string) (created_at : Z) db
    : result Db :=
  match active_binding db, factory_session with
  | Some b, Some session =>
      let rows := op_cloud (db_operator db) in
      if existsb (λ c, String.eqb (cl_event_id c) event_id) rows
      then Err (Database "UNIQUE constraint failed: operator_cloud_outbox.event_id")
      else Ok (db <| db_operator ::= λ t, t <| op_cloud := rows ++ [fresh_cloud_row event_id b session created_at] |> |>)
  | _, _ => Ok db
  end.
Definition record_turn_event (turn : OperatorTurn) (event_id : string) (now id : Z) db : result Db :=
  if has_event turn
  then
    db ← insert_outbox_row (mkOutboxRow event_id id (ot_factory_session turn)
           (json_text (event_snapshot turn event_id now id)) now 0 0 None None None None) db;
    insert_cloud_outbox_row event_id (ot_factory_session turn) now db
  else Ok db.
(** The reply confirms the message it answers. *)
Definition confirm_answered (stamp now : Z) (ack_id : option Z) db : result Db :=
  match ack_id with
  | None => Ok db
  | Some id =>
      db ← (if existsb (by_id id) (log_rows (db_prompts db))
            then atomic_stage_stamp_in_tx has_agents stamp id DeliveryStage_Confirmed AtomicStampOpts_clear_reason db
            else Ok db);
      Ok (update_prompts (λ r, by_id id r && is_none (pq_acked_at r)) (acked_row now) db)
  end.

Definition insert_complete_operator_turn (clk : Clock) (turn : OperatorTurn) (event_id : string) db
    : result (EnqueueOutcome * Db) :=
  let metadata := ot_metadata turn in
  let now := default (clk 0%nat) (om_occurred_at metadata) in
  let existing :=
    match om_dedupe_key metadata with
    | Some key => prompt_of_key key db
    | None =>
        if negb (om_urgent metadata) && negb (String.eqb (ot_source turn) "supervisor")
        then delivered_duplicate (ot_source turn) (ot_target turn) (ot_prompt turn) (ot_factory_session turn)
               (now - duration_seconds PROMPT_DUPLICATE_WINDOW_SECS) db
        else None
    end in
  match existing with
  | Some id => Ok (EnqueueOutcome_SuppressedDuplicate id, db)
  | None =>
      '(id, q) ← log_insert (operator_turn_row turn now) (db_prompts db);
      db ← record_turn_event turn event_id now id (db <| db_prompts := q |>);
      db ← confirm_answered (clk 1%nat) now (om_acknowledge_prompt_id metadata) db;
      Ok (EnqueueOutcome_Created id, db)
  end.

Definition blank (o : option string) : bool := match o with Some s => str_is_empty (trim s) | None => false end.
Definition record_complete_operator_turn (clk : Clock) (turn : OperatorTurn) (event_id : string) db
    : result (EnqueueOutcome * Db) :=
  _ ← require_operator_session (ot_target turn) (ot_factory_session turn);
  let metadata := ot_metadata turn in
  if blank (om_recipient_device_id metadata) || blank (om_kind metadata) || blank (om_dedupe_key metadata)
  then Err (Other "operator turn metadata cannot contain empty identifiers")
  else insert_complete_operator_turn clk turn event_id db.
Definition record_operator_turn (clk : Clock) (turn : OperatorTurn) (event_id : string) db
    : result (EnqueueOutcome * Db) :=
  if negb (names_operator (ot_target turn)) && is_none (om_operator (ot_metadata turn))
  then Err (Other "operator recording requires an operator recipient or authenticated operator stamp")
  else record_complete_operator_turn clk turn event_id db.
Definition enqueue_operator_message (clk : Clock) (event_id source target prompt : string)
    (factory_session summary : option string) (priority : option NotificationPriority) (urgent : bool)
    (attribution : option json) (operator : OperatorStamp) db : result (EnqueueOutcome * Db) :=
  record_operator_turn clk
    (mkOperatorTurn source target prompt factory_session
       (OperatorTurnMetadata_default <| om_summary := summary |> <| om_priority := priority |>
          <| om_urgent := urgent |> <| om_attribution := attribution |> <| om_operator := Some operator |>))
    event_id db.

(** ** The local outbox *)
Record OperatorDeliveryEvent := mkOperatorDeliveryEvent {
  ev_event_id : string;
  ev_prompt_id : Z;
  ev_factory_session : option string;
  ev_audience_state : string;
  ev_payload_snapshot : string;
  ev_created_at : Z;
}.
Definition operator_event_from_row o : OperatorDeliveryEvent :=
  mkOperatorDeliveryEvent (ob_event_id o) (ob_prompt_id o) (ob_factory_session o) "unenrolled"
    (ob_payload_snapshot o) (ob_created_at o).
Record OperatorDeliveryClaim := mkOperatorDeliveryClaim {
  dc_event : OperatorDeliveryEvent;
  dc_lease_token : string;
  dc_lease_until : Z;
}.
Record OperatorRelayReceipt := mkOperatorRelayReceipt { rr_event_id : string; rr_receipt_id : string }.
Record OperatorDrainLimits := mkOperatorDrainLimits {
  dl_max_events : Z;
  dl_max_payload_bytes : Z;
  dl_lease_seconds : Z;
}.
Definition OperatorDrainLimits_default : OperatorDrainLimits := mkOperatorDrainLimits 100 (1024 * 1024) 30.
Definition contained (low high z : Z) : bool := (low <=? z) && (z <=? high).
Definition OperatorDrainLimits_validate (limits : OperatorDrainLimits) : result unit :=
  if negb (contained 1 100 (dl_max_events limits)) || negb (contained 1 (1024 * 1024) (dl_max_payload_bytes limits))
     || negb (contained 1 120 (dl_lease_seconds limits))
  then Err (Other "operator drain limits exceed the bounded batch/lease policy")
  else Ok tt.

(** [DateTime::timestamp_millis] *)
Definition timestamp_millis (t : Z) : Z := t / 1000000.
(** [DateTime::<Utc>::MAX_UTC], the last instant chrono represents *)
Definition MAX_UTC : Z := 8210266876800 * 10 ^ 9 - 1.
Definition checked_add (t d : Z) : option Z := if t + d <=? MAX_UTC then Some (t + d) else None.

Definition update_outbox (P : OutboxRow → bool) (f : OutboxRow → OutboxRow) db : Db :=
  db <| db_prompt_receipts ::= λ t, t <| pt_outbox ::= λ l, (λ o, if P o then f o else o) <$> l |> |>.
Definition outbox_count (P : OutboxRow → bool) db : nat :=
  length (List.filter P (pt_outbox (db_prompt_receipts db))).
Definition outbox_due (now_ms : Z) o : bool :=
  is_none (ob_retained_at o) && (ob_retry_at_ms o <=? now_ms)
  && match ob_lease_until_ms o with None => true | Some until => until <=? now_ms end.
Definition due_events (now_ms limit : Z) db : list OutboxRow :=
  sql_limit limit (order_by (le_of (then_by (asc ob_created_at) (by_text ob_event_id)))
    (List.filter (outbox_due now_ms) (pt_outbox (db_prompt_receipts db)))).
Definition has_event_id (event_id : string) o : bool := String.eqb (ob_event_id o) event_id.
Definition lease_outbox_row (token : string) (until_ms : Z) o : OutboxRow :=
  o <| ob_lease_token := Some token |> <| ob_lease_until_ms := Some until_ms |> <| ob_attempts ::= λ n, n + 1 |>.

(** The events that fit, in their order; [rand i] is the i-th token drawn. *)
Fixpoint claim_events (rand : nat → string) (until max_bytes : Z) (first : bool) (left : Z)
    (candidates : list OutboxRow) db : result (list OperatorDeliveryClaim * Db) :=
  match candidates with
  | [] => Ok ([], db)
  | o :: rest =>
      let length := Z.of_nat (String.length (ob_payload_snapshot o)) in
      if (max_bytes <? length) && first
      then Err (Other "operator event exceeds the drain byte budget; event remains pending")
      else if left <? length then Ok ([], db)
      else
        let token := rand 0%nat in
        let db := update_outbox (has_event_id (ob_event_id o)) (lease_outbox_row token (timestamp_millis until)) db in
        '(claims, db) ← claim_events (λ i, rand (S i)) until max_bytes false (left - length) rest db;
        Ok (mkOperatorDeliveryClaim (operator_event_from_row o) token until :: claims, db)
  end.
Definition claim_operator_delivery (now : Z) (limits : OperatorDrainLimits) (rand : nat → string) db
    : result (list OperatorDeliveryClaim * Db) :=
  _ ← OperatorDrainLimits_validate limits;
  match checked_add now (duration_seconds (dl_lease_seconds limits)) with
  | None => Err (Other "operator lease exceeds timestamp range")
  | Some until =>
      claim_events rand until (dl_max_payload_bytes limits) true (dl_max_payload_bytes limits)
        (due_events (timestamp_millis now) (dl_max_events limits) db) db
  end.
Definition receipt_json (receipt : OperatorRelayReceipt) : json :=
  JObject [("event_id", JString (rr_event_id receipt)); ("receipt_id", JString (rr_receipt_id receipt))].
(** The row is leased by this token, at this time. *)
Definition leased_by (event_id token : string) (now_ms : Z) o : bool :=
  has_event_id event_id o && opt_eqb (ob_lease_token o) (Some token)
  && match ob_lease_until_ms o with Some until => now_ms <? until | None => false end.
Definition settle_outbox_row o : OutboxRow := o <| ob_lease_token := None |> <| ob_lease_until_ms := None |>.
Definition retain_operator_delivery (claim : OperatorDeliveryClaim) (receipt : OperatorRelayReceipt) (now : Z) db
    : result (bool * Db) :=
  if negb (String.eqb (rr_event_id receipt) (ev_event_id (dc_event claim)))
     || str_is_empty (trim (rr_receipt_id receipt))
  then Err (Other "operator storage receipt does not match the claimed event")
  else
    let settled o :=
      leased_by (ev_event_id (dc_event claim)) (dc_lease_token claim) (timestamp_millis now) o
      && is_none (ob_retained_at o)
      && String.eqb (ob_payload_snapshot o) (ev_payload_snapshot (dc_event claim)) in
    Ok ((0 <? outbox_count settled db)%nat,
        update_outbox settled (λ o, settle_outbox_row o <| ob_relay_receipt := Some (json_text (receipt_json receipt)) |>
                                      <| ob_retained_at := Some now |>) db).
Definition backoff_seconds (attempts : Z) : Z := Z.min (2 ^ Z.min (Z.max 0 (attempts - 1)) 6) 60.
Definition retry_operator_delivery (claim : OperatorDeliveryClaim) (now : Z) db : result (bool * Db) :=
  let event_id := ev_event_id (dc_event claim) in
  match head (List.filter (λ o, leased_by event_id (dc_lease_token claim) (timestamp_millis now) o && is_none (ob_retained_at o))
                (pt_outbox (db_prompt_receipts db))) with
  | None => Ok (false, db)
  | Some o =>
      match checked_add now (duration_seconds (backoff_seconds (ob_attempts o))) with
      | None => Err (Other "operator retry exceeds timestamp range")
      | Some retry_at =>
          Ok (true, update_outbox (λ o, has_event_id event_id o && opt_eqb (ob_lease_token o) (Some (dc_lease_token claim)))
                      (λ o, settle_outbox_row o <| ob_retry_at_ms := timestamp_millis retry_at |>) db)
      end
  end.

Record OperatorDrainReport := mkOperatorDrainReport {
  rp_claimed : nat;
  rp_retained : nat;
  rp_retry_scheduled : nat;
  rp_fenced : nat;
}.
#[export] Instance OperatorDrainReport_eta : Eta OperatorDrainReport := λ r : OperatorDrainReport,
  mkOperatorDrainReport (rp_claimed r) (rp_retained r) (rp_retry_scheduled r) (rp_fenced r).
(** One claim: [answer] is what the transport returned, [None] for an error. *)
Definition settle_delivery (clk : Clock) (answer : option OperatorRelayReceipt) (claim : OperatorDeliveryClaim)
    (report : OperatorDrainReport) db : result (OperatorDrainReport * Db) :=
  let retry :=
    '(scheduled, db) ← retry_operator_delivery claim (clk 0%nat) db;
    Ok (if scheduled : bool then report <| rp_retry_scheduled ::= S |> else report <| rp_fenced ::= S |>, db) in
  match answer with
  | Some receipt =>
      if String.eqb (rr_event_id receipt) (ev_event_id (dc_event claim))
         && negb (str_is_empty (trim (rr_receipt_id receipt)))
      then
        '(retained, db) ← retain_operator_delivery claim receipt (clk 0%nat) db;
        Ok (if retained : bool then report <| rp_retained ::= S |> else report <| rp_fenced ::= S |>, db)
      else retry
  | None => retry
  end.
Fixpoint settle_deliveries (clk : Clock) (transport : OperatorDeliveryEvent → option OperatorRelayReceipt)
    (claims : list OperatorDeliveryClaim) (report : OperatorDrainReport) db : result (OperatorDrainReport * Db) :=
  match claims with
  | [] => Ok (report, db)
  | claim :: rest =>
      '(report, db) ← settle_delivery clk (transport (dc_event claim)) claim report db;
      settle_deliveries (λ i, clk (S i)) transport rest report db
  end.
Definition drain_operator_delivery (transport : OperatorDeliveryEvent → option OperatorRelayReceipt)
    (limits : OperatorDrainLimits) (clk : Clock) (rand : nat → string) db : result (OperatorDrainReport * Db) :=
  '(claims, db) ← claim_operator_delivery (clk 0%nat) limits rand db;
  settle_deliveries (λ i, clk (S i)) transport claims (mkOperatorDrainReport (length claims) 0 0 0) db.
Definition operator_delivery_event (prompt_id : Z) db : option OperatorDeliveryEvent :=
  operator_event_from_row <$> head (List.filter (λ o, ob_prompt_id o =? prompt_id) (pt_outbox (db_prompt_receipts db))).

(** ** The audience *)
Record OperatorFeedBinding := mkOperatorFeedBinding {
  ofb_account_id : string;
  ofb_machine_id : string;
  ofb_hub_id : string;
  ofb_project_id : string;
  ofb_bound_at : string;
}.
Definition binding_from_row (b : FeedBindingRow) : OperatorFeedBinding :=
  mkOperatorFeedBinding (fb_account_id b) (fb_machine_id b) (fb_hub_id b) (fb_project_id b) (fb_bound_at b).
Definition same_audience (b : FeedBindingRow) (binding : OperatorFeedBinding) : bool :=
  String.eqb (fb_account_id b) (ofb_account_id binding) && String.eqb (fb_machine_id b) (ofb_machine_id binding)
  && String.eqb (fb_hub_id b) (ofb_hub_id binding) && String.eqb (fb_project_id b) (ofb_project_id binding).
Definition bind_operator_feed (binding : OperatorFeedBinding) db : result (OperatorFeedBinding * Db) :=
  if negb (forallb is_routing_id [ofb_account_id binding; ofb_machine_id binding; ofb_hub_id binding; ofb_project_id binding])
  then Err (Other "operator feed binding needs opaque routing IDs (A-Z a-z 0-9 . _ : @ / -)")
  else
    match active_binding db with
    | Some b =>
        if same_audience b binding then Ok (binding_from_row b, db)
        else Err (Other "this project is bound to another operator audience; detach it first")
    | None =>
        Ok (binding, db <| db_operator ::= λ t, t <| op_binding := Some (mkFeedBindingRow (ofb_account_id binding)
              (ofb_machine_id binding) (ofb_hub_id binding) (ofb_project_id binding) (ofb_bound_at binding) None) |> |>)
    end.
Definition detach_operator_feed (now : Z) db : result (bool * Db) :=
  Ok (negb (is_none (active_binding db)),
      db <| db_operator ::= λ t, t <| op_binding ::= fmap (λ b,
        if is_none (fb_detached_at b) then b <| fb_detached_at := Some now |> else b) |> |>).
Definition operator_feed_binding db : option OperatorFeedBinding := binding_from_row <$> active_binding db.

(** ** The cloud outbox *)
Record OperatorSealedBytes := mkOperatorSealedBytes {
  sb_feed_generation : string;
  sb_key_epoch : string;
  sb_ciphertext : string;
  sb_digest : string;
}.
Record OperatorCloudClaim := mkOperatorCloudClaim {
  cc_event_id : string;
  cc_account_id : string;
  cc_hub_id : string;
  cc_project_id : string;
  cc_session_id : string;
  cc_payload_snapshot : string;
  cc_factory_session : option string;
  cc_sealed : option OperatorSealedBytes;
  cc_lease_token : string;
  cc_attempts : Z;
}.
Inductive OperatorCloudSettlement :=
  | OperatorCloudSettlement_Receipt (kind sequence : string)
  | OperatorCloudSettlement_Retry
  | OperatorCloudSettlement_Reseal
  | OperatorCloudSettlement_Park (reason : string).
Definition RECEIPT_KINDS : list string := ["stored"; "duplicate"; "expired"].

Definition update_cloud (P : CloudRow → bool) (f : CloudRow → CloudRow) db : Db :=
  db <| db_operator ::= λ t, t <| op_cloud ::= λ l, (λ c, if P c then f c else c) <$> l |> |>.
Definition cloud_count (P : CloudRow → bool) db : nat := length (List.filter P (op_cloud (db_operator db))).
Definition cloud_pending c : bool := is_none (cl_receipt_kind c) && is_none (cl_parked_reason c).
Definition cloud_due (machine_id : string) (now_ms : Z) c : bool :=
  String.eqb (cl_machine_id c) machine_id && cloud_pending c && (cl_retry_at_ms c <=? now_ms)
  && match cl_lease_until_ms c with None => true | Some until => until <=? now_ms end.
Definition event_of c db : option OutboxRow :=
  head (List.filter (has_event_id (cl_event_id c)) (pt_outbox (db_prompt_receipts db))).
(** The sealed bytes of a row; the columns are NULL together. *)
Definition sealed_of c : option OperatorSealedBytes :=
  ciphertext ← cl_ciphertext c;
  Some (mkOperatorSealedBytes (default "" (cl_feed_generation c)) (default "" (cl_key_epoch c)) ciphertext
          (default "" (cl_digest c))).
Definition due_cloud (machine_id : string) (now_ms limit : Z) db : list (CloudRow * OutboxRow) :=
  sql_limit limit (order_by (le_of (then_by (asc (λ p : CloudRow * OutboxRow, cl_created_at p.1)) (by_text (λ p : CloudRow * OutboxRow, cl_event_id p.1))))
    (omap (λ c, o ← event_of c db; Some (c, o)) (List.filter (cloud_due machine_id now_ms) (op_cloud (db_operator db))))).
Definition has_cloud_id (event_id : string) c : bool := String.eqb (cl_event_id c) event_id.
Definition lease_cloud_row (token : string) (until_ms : Z) c : CloudRow :=
  c <| cl_lease_token := Some token |> <| cl_lease_until_ms := Some until_ms |> <| cl_attempts ::= λ n, n + 1 |>.
Definition cloud_claim (token : string) (p : CloudRow * OutboxRow) : OperatorCloudClaim :=
  mkOperatorCloudClaim (cl_event_id p.1) (cl_account_id p.1) (cl_hub_id p.1) (cl_project_id p.1) (cl_session_id p.1)
    (ob_payload_snapshot p.2) (ob_factory_session p.2) (sealed_of p.1) token (cl_attempts p.1 + 1).
Fixpoint claim_cloud (rand : nat → string) (until_ms : Z) (rows : list (CloudRow * OutboxRow)) db
    : list OperatorCloudClaim * Db :=
  match rows with
  | [] => ([], db)
  | p :: rest =>
      let token := rand 0%nat in
      let '(claims, db) := claim_cloud (λ i, rand (S i)) until_ms rest
                             (update_cloud (has_cloud_id (cl_event_id p.1)) (lease_cloud_row token until_ms) db) in
      (cloud_claim token p :: claims, db)
  end.
Definition claim_operator_cloud (machine_id : string) (now max_events lease_seconds : Z) (rand : nat → string) db
    : result (list OperatorCloudClaim * Db) :=
  if negb (contained 1 100 max_events) || negb (contained 1 120 lease_seconds)
  then Err (Other "operator cloud claim exceeds the bounded batch/lease policy")
  else Ok (claim_cloud rand (timestamp_millis now + lease_seconds * 1000) (due_cloud machine_id (timestamp_millis now) max_events db) db).

(** The row is leased to this claim, at this time. *)
Definition cloud_leased (claim : OperatorCloudClaim) (now_ms : Z) c : bool :=
  has_cloud_id (cc_event_id claim) c && opt_eqb (cl_lease_token c) (Some (cc_lease_token claim))
  && match cl_lease_until_ms c with Some until => now_ms <? until | None => false end.
Definition seal_cloud_row (sealed : OperatorSealedBytes) c : CloudRow :=
  c <| cl_feed_generation := Some (sb_feed_generation sealed) |> <| cl_key_epoch := Some (sb_key_epoch sealed) |>
    <| cl_ciphertext := Some (sb_ciphertext sealed) |> <| cl_digest := Some (sb_digest sealed) |>
    <| cl_seal_count ::= λ n, n + 1 |>.
Definition seal_operator_cloud (claim : OperatorCloudClaim) (sealed : OperatorSealedBytes) (now : Z) db
    : result (bool * Db) :=
  let unsealed c := cloud_leased claim (timestamp_millis now) c && is_none (cl_ciphertext c) && is_none (cl_receipt_kind c) in
  Ok ((0 <? cloud_count unsealed db)%nat, update_cloud unsealed (seal_cloud_row sealed) db).

Definition release_cloud_row c : CloudRow := c <| cl_lease_token := None |> <| cl_lease_until_ms := None |>.
Definition receipt_cloud_row (kind sequence : string) (now : Z) c : CloudRow :=
  release_cloud_row c <| cl_receipt_kind := Some kind |> <| cl_sequence := Some sequence |> <| cl_receipt_at := Some now |>.
Definition reseal_cloud_row c : CloudRow :=
  release_cloud_row c <| cl_feed_generation := None |> <| cl_key_epoch := None |> <| cl_ciphertext := None |>
    <| cl_digest := None |> <| cl_retry_at_ms := 0 |>.
(** The exclusive or of the bytes of an event id *)
Definition event_jitter (event_id : string) : Z :=
  foldl (λ a (ch : ascii), Z.lxor a (Z.of_N (N_of_ascii ch))) 0 (String.list_ascii_of_string event_id) mod 1000.
Definition settle_operator_cloud (claim : OperatorCloudClaim) (settlement : OperatorCloudSettlement) (now : Z) db
    : result (bool * Db) :=
  let now_ms := timestamp_millis now in
  let leased := cloud_leased claim now_ms in
  let settle P f := Ok ((0 <? cloud_count P db)%nat, update_cloud P f db) in
  match settlement with
  | OperatorCloudSettlement_Receipt kind sequence =>
      let P c := leased c && negb (is_none (cl_ciphertext c)) && is_none (cl_receipt_kind c) in
      if (0 <? cloud_count P db)%nat && negb (existsb (String.eqb kind) RECEIPT_KINDS)
      then Err (Database "CHECK constraint failed: receipt_kind IN ('stored', 'duplicate', 'expired')")
      else settle P (receipt_cloud_row kind sequence now)
  | OperatorCloudSettlement_Retry =>
      settle leased (λ c, release_cloud_row c
        <| cl_retry_at_ms := now_ms + backoff_seconds (cc_attempts claim) * 1000 + event_jitter (cc_event_id claim) |>)
  | OperatorCloudSettlement_Reseal => settle (λ c, leased c && is_none (cl_receipt_kind c)) reseal_cloud_row
  | OperatorCloudSettlement_Park reason =>
      settle (λ c, leased c && is_none (cl_receipt_kind c)) (λ c, release_cloud_row c <| cl_parked_reason := Some reason |>)
  end.

Record OperatorCloudBacklog := mkOperatorCloudBacklog {
  bk_pending : nat;
  bk_parked : nat;
  bk_delivered : nat;
  bk_oldest_pending_at : option Z;
}.
Definition operator_cloud_backlog db : OperatorCloudBacklog :=
  mkOperatorCloudBacklog (cloud_count cloud_pending db) (cloud_count (λ c, negb (is_none (cl_parked_reason c))) db)
    (cloud_count (λ c, negb (is_none (cl_receipt_kind c))) db)
    (cl_created_at <$> head (order_by (le_of (asc cl_created_at)) (List.filter cloud_pending (op_cloud (db_operator db))))).

(** ** Offline commands *)
Record OperatorCommandAdmission := mkOperatorCommandAdmission {
  oc_command_id : string;
  oc_machine_digest : string;
  oc_history_event_id : string;
  oc_device_id : string;
  oc_device_label : string;
  oc_factory_session : string;
  oc_body : string;
}.
Inductive AdmissionOutcome :=
  | AdmissionOutcome_Admitted (prompt_id : Z) (receipt_id : string)
  | AdmissionOutcome_Existing (prompt_id : Z) (receipt_id : string) (receipt_sent : bool)
  | AdmissionOutcome_Conflict.
Definition admission_turn (a : OperatorCommandAdmission) : OperatorTurn :=
  mkOperatorTurn ("commander:" +:+ oc_device_id a) "supervisor" (oc_body a) (Some (oc_factory_session a))
    (OperatorTurnMetadata_default
       <| om_attribution := Some (JObject [("command_id", JString (oc_command_id a));
            ("history_event_id", JString (oc_history_event_id a)); ("via", JString "operator_inbox_command")]) |>
       <| om_operator := Some (mkOperatorStamp "operator" (oc_device_id a) (oc_device_label a) ["message:send"] true) |>
       <| om_kind := Some "operator_message" |>
       <| om_dedupe_key := Some ("operator-command:" +:+ oc_command_id a) |>
       <| om_cloud_history_event_id := Some (oc_history_event_id a) |>).
(** [rand]: the receipt id, and the event id of the turn *)
Definition admit_operator_command (clk : Clock) (rand : nat → string) (a : OperatorCommandAdmission) db
    : result (AdmissionOutcome * Db) :=
  if str_is_empty (trim (oc_body a)) || str_is_empty (trim (oc_factory_session a))
  then Err (Other "an offline command needs a body and a session")
  else
    match op_admissions (db_operator db) !! oc_command_id a with
    | Some existing =>
        Ok (if String.eqb (ad_machine_digest existing) (oc_machine_digest a)
            then AdmissionOutcome_Existing (ad_prompt_id existing) (ad_receipt_id existing)
                   (negb (is_none (ad_receipt_sent_at existing)))
            else AdmissionOutcome_Conflict, db)
    | None =>
        '(outcome, db) ← insert_complete_operator_turn clk (admission_turn a) (rand 1%nat) db;
        match outcome with
        | EnqueueOutcome_SuppressedDuplicate _ => Err (Other "offline command was suppressed as a duplicate prompt")
        | EnqueueOutcome_Created id =>
            let receipt_id := rand 0%nat in
            let row := mkAdmissionRow (oc_machine_digest a) (oc_history_event_id a) (oc_device_id a) id (clk 2%nat)
                         receipt_id None in
            if sql_exists (λ _ (r : AdmissionRow), ad_prompt_id r =? id) (op_admissions (db_operator db))
            then Err (Database "UNIQUE constraint failed: operator_command_admissions.prompt_id")
            else if sql_exists (λ _ (r : AdmissionRow), String.eqb (ad_receipt_id r) receipt_id) (op_admissions (db_operator db))
            then Err (Database "UNIQUE constraint failed: operator_command_admissions.receipt_id")
            else Ok (AdmissionOutcome_Admitted id receipt_id,
                     db <| db_operator ::= λ t, t <| op_admissions ::= insert (oc_command_id a) row |> |>)
        end
    end.
Definition mark_command_receipt_sent (command_id : string) (now : Z) db : result (bool * Db) :=
  let unsent (k : string) (r : AdmissionRow) := String.eqb k command_id && is_none (ad_receipt_sent_at r) in
  Ok ((0 <? sql_count unsent (op_admissions (db_operator db)))%nat,
      db <| db_operator ::= λ t, t <| op_admissions ::=
        sql_update unsent (λ r : AdmissionRow, r <| ad_receipt_sent_at := Some now |>) |> |>).
Definition command_history_event (prompt_id : Z) db : option string :=
  (λ kr : string * AdmissionRow, ad_history_event_id kr.2)
    <$> head (sql_select (λ _ (r : AdmissionRow), ad_prompt_id r =? prompt_id) (op_admissions (db_operator db))).
End lanes.
