(* ===== verification/PromptEnqueue.v ===== *)
(** * Writing prompts ([prompt_queue_store.rs])

    The operations that put a message into the queue: the plain enqueue with its
    suppression of exact resends, the keyed one, the worker's action message that
    folds the older ones it supersedes, the peer message with its copy, the stall
    nudge and the terminal's turns.  [supervisor_delivery_kind] decides whether a
    message wakes its recipient or waits in the digest of the next turn. *)

From S2P Require Import Prelude Logs Enums TaskTypes VerifierText Db NoteMarkers Envelopes SupervisorQueue PromptTypes PromptNotices PromptQueue PromptDrain OperatorLanes.

(** ** Text *)
(** [str::rsplit_once(p)] *)
Definition rsplit_text (p s : string) : option (string * string) :=
  '(after, before) ← split_text (String.rev p) (String.rev s); Some (String.rev before, String.rev after).
(** [str::replace(from, to)] for a nonempty [from] *)
Fixpoint replace_text_fuel (fuel : nat) (from to s : string) : string :=
  match fuel, split_text from s with
  | S fuel, Some (before, after) => before +:+ to +:+ replace_text_fuel fuel from to after
  | _, _ => s
  end.
Definition replace_text (from to s : string) : string := replace_text_fuel (String.length s) from to s.
Definition in_quotes (s : string) : string := String quote_mark (s +:+ String quote_mark EmptyString).

Definition QUIET_MESSAGE_MARKER : string := "<cas-message-quiet/>".
Definition strip_quiet (rest : string) : option string :=
  (λ rest, default rest (strip_prefix nl rest)) <$> strip_prefix QUIET_MESSAGE_MARKER rest.
Definition split_quiet_marker (text : string) : bool * string :=
  match strip_quiet text with
  | Some rest => (true, rest)
  | None =>
      match (if starts_with "[CAS reply:" text
             then '(head, rest) ← split_once newline text; rest ← strip_quiet rest; Some (head, rest) else None) with
      | Some (head, rest) => (true, head +:+ nl +:+ rest)
      | None => (false, text)
      end
  end.

Definition is_hex_digit (c : ascii) : bool :=
  let n := Z.of_N (N_of_ascii c) in (48 <=? n) && (n <=? 57) || (65 <=? n) && (n <=? 70) || (97 <=? n) && (n <=? 102).
Definition is_tip_mark (c : ascii) : bool := existsb (Ascii.eqb c) [";"%char; ","%char; "."%char].
Definition all_hex (s : string) : bool := forallb is_hex_digit (String.list_ascii_of_string s).
Definition is_full_sha (head : string) : bool := (String.length head =? 40)%nat && all_hex head.
Definition tip_of_line (line : string) : option string :=
  rest ← strip_prefix "tip:" (trim line); word ← head (words [] (chars rest));
  let sha := trim_end_matches is_tip_mark (utf8 word) in
  if (7 <=? String.length sha)%nat && (String.length sha <=? 40)%nat && all_hex sha
  then Some (to_ascii_lowercase sha) else None.
Definition reported_tip (prompt : string) : option string := head (omap tip_of_line (lines prompt)).

(** ** What wakes a supervisor *)
Definition DIGEST : string := "supervisor_digest".
Definition tag_attribute (tag name : string) : option string :=
  '(inner, _) ← split_text ">" tag;
  '(_, value) ← split_text (name +:+ "=" +:+ String quote_mark EmptyString) inner;
  Some (default value (fst <$> split_once quote_mark value)).

(** [has_agents], [has_tasks]: the tables exist. *)
Section enqueue.
Context `{Host} (has_agents has_tasks : bool).
Implicit Types (db : Db) (r : PromptRow) (clk : Clock).

Definition is_daemon (origin : option QueueOrigin) : bool :=
  match origin with Some QueueOrigin_Daemon => true | _ => false end.
Definition passive_worker_notice (target prompt : string) (session : option string) (origin : option QueueOrigin) db : bool :=
  has_agents && is_daemon origin && (split_quiet_marker prompt).1
  && sql_exists (λ id a, String.eqb (a_role a) "worker" && opt_eqb (a_factory_session a) session
       && (String.eqb (a_name a) target || String.eqb id target) && agent_live a) (db_agents db).
Definition live_supervisor (target : string) (session : option string) db : option string :=
  if has_agents
  then fst <$> head (order_by (le_of (by_text fst)) (sql_select (λ _ a, String.eqb (a_role a) "supervisor"
         && opt_eqb (a_factory_session a) session && (String.eqb (a_name a) target || String.eqb target "supervisor")
         && agent_live a) (db_agents db)))
  else if String.eqb target "supervisor" then Some target else None.
Definition routine (source prompt : string) (daemon : bool) : bool :=
  (split_quiet_marker prompt).1
  || daemon && (starts_with "lifecycle:" source
       || starts_with "lifecycle-wake:worker-attention:" source
          && existsb (λ kind, starts_with ("<worker-attention kind=" +:+ in_quotes kind +:+ " ") prompt)
               ["worker_idle"; "verification_dispatch_expired"]).
(** The (task, head) a JSON object at the end of the text names *)
Definition json_boundary (head_key : string) (event : json) : option (string * string) :=
  task ← json_as_str (json_get "task_id" event); tip ← json_as_str (json_get head_key event); Some (task, tip).
Definition trailing_json (opening closing prompt : string) : option json :=
  '(_, text) ← rsplit_text opening prompt; text ← strip_suffix closing text; json_parse text.
Definition daemon_boundary (prompt : string) : option (string * string) :=
  match (event ← trailing_json (nlnl +:+ "<cas-director-ready>") "</cas-director-ready>" prompt;
         json_boundary "factory_tip" event) with
  | Some boundary => Some boundary
  | None =>
      event ← parse_lifecycle_envelope prompt;
      if bool_decide (le_transition event = Some "task_awaiting_merge")
      then tip ← le_branch_tip event; Some (le_task_id event, tip) else None
  end.
(** The one parked delivery of the worker, when the ready reports its tip *)
Definition parked_boundary (prompt worker agent_id : string) (task_id : option string) db : option (string * string) :=
  match take 2 (sql_select (λ id t, bool_decide (t_assignee t ∈ [Some worker; Some agent_id])
            && bool_decide (t_status t = TaskStatus_AwaitingMerge)
            && match task_id with None => true | Some k => String.eqb id k end) (db_tasks db)) with
  | [(id, t)] =>
      tip ← td_factory_branch_anchor (t_deliverables t);
      reported ← reported_tip prompt;
      if is_full_sha tip && starts_with reported (to_ascii_lowercase tip) then Some (id, tip) else None
  | _ => None
  end.
Definition worker_boundary (prompt worker agent_id : string) db : option (string * string) :=
  match trailing_json "<cas-merge-request>" "</cas-merge-request>" prompt with
  | Some event =>
      if bool_decide (json_get "source_freshness_unavailable" event = JNull)
      then json_boundary "branch_tip" event else None
  | None =>
      if ends_with "</cas-worker-action>" prompt
      then
        '(_, tag) ← rsplit_text "<cas-worker-action " prompt;
        if opt_eqb (tag_attribute tag "kind") (Some "ready") && opt_eqb (tag_attribute tag "worker") (Some worker) && has_tasks
        then parked_boundary prompt worker agent_id (tag_attribute tag "task_id") db else None
      else None
  end.
Definition already_merged (task tip : string) db : bool :=
  has_tasks && sql_exists (λ id t, String.eqb id task
    && bool_decide (t_status t ∈ [TaskStatus_AwaitingMerge; TaskStatus_Closed])
    && opt_eqb (td_factory_branch_anchor (t_deliverables t)) (Some tip)
    && negb (str_is_empty (default "" (td_green_merge_commit (t_deliverables t))))
    && negb (td_merge_conflicted (t_deliverables t))) (db_tasks db).
Definition merge_episode (supervisor task tip : string) : string :=
  "merge_ready:" +:+ json_text (JArray [JString supervisor; JString task; JString tip]).
Definition stage_not_in (stages : list string) r : bool :=
  negb (existsb (String.eqb (default "enqueued" (pq_highest_stage r))) stages).
Definition announces (session : option string) (episode : string) r : bool :=
  opt_eqb (pq_factory_session r) session && opt_eqb (pq_kind r) (Some episode)
  && stage_not_in ["dropped"; "suppressed"; "abandoned"] r.
Definition boundary_kind (supervisor : string) (session : option string) (boundary : option (string * string)) db
    : option string :=
  '(task, tip) ← boundary;
  if str_is_empty task || negb (is_full_sha tip) then None
  else if already_merged task tip db then Some DIGEST
  else
    let episode := merge_episode supervisor task tip in
    Some (if existsb (announces session episode) (log_rows (db_prompts db)) then DIGEST else episode).
Definition supervisor_delivery_kind (source target prompt : string) (session : option string) (urgent : bool)
    (origin : option QueueOrigin) db : option string :=
  let stamped := match origin with Some QueueOrigin_Daemon | Some (QueueOrigin_RegisteredAgent _) => true | _ => false end in
  if urgent || is_operator_target target || negb stamped then None
  else if passive_worker_notice target prompt session origin db then Some NOTICE_DIGEST_KIND
  else
    supervisor ← live_supervisor target session db;
    let daemon := is_daemon origin in
    if routine source prompt daemon then Some DIGEST
    else if str_contains "<cas-blocker " prompt then None
    else
      match origin with
      | Some QueueOrigin_Daemon => boundary_kind supervisor session (daemon_boundary prompt) db
      | Some (QueueOrigin_RegisteredAgent agent_id) =>
          worker ← (if has_agents
                    then a ← db_agents db !! agent_id;
                         if String.eqb (a_role a) "worker" && opt_eqb (a_factory_session a) session
                         then Some (a_name a) else None
                    else None);
          boundary_kind supervisor session (worker_boundary prompt worker agent_id db) db
      | _ => None
      end.

(** ** Plain messages *)
Definition WORKER_PEER_MESSAGE_BURST_LIMIT : Z := 5.
Definition WORKER_PEER_MESSAGE_BURST_WINDOW_SECS : Z := 60.
Definition PEER_COPY_KIND : string := "worker_peer_copy".
Definition priority_or_normal (priority : option NotificationPriority) : Z :=
  NotificationPriority_to_i32 (default NotificationPriority_Normal priority).
(** INSERT of a message of [origin] *)
Definition message_row (source target prompt : string) (now : Z) (factory_session summary : option string)
    (priority : option NotificationPriority) (urgent : bool) (origin : option QueueOrigin)
    (kind dedupe_key : option string) : Z → PromptRow :=
  fresh_prompt_row source target prompt now factory_session summary (priority_or_normal priority) urgent
    (origin ≫= QueueOrigin_agent_id) (QueueOrigin_kind_str <$> origin) kind dedupe_key.
Definition insert_prompt (mk : Z → PromptRow) db : result (Z * Db) :=
  '(id, q) ← log_insert mk (db_prompts db); Ok (id, db <| db_prompts := q |>).
(** An exact resend of a report that was delivered just now *)
Definition resend_of (source target prompt : string) (factory_session : option string) (urgent : bool) (now : Z) db
    : option Z :=
  if negb urgent && negb (String.eqb source "supervisor")
  then delivered_duplicate source target prompt factory_session (now - duration_seconds PROMPT_DUPLICATE_WINDOW_SECS) db
  else None.

(** [event_id]: the identity that a turn to the operator draws *)
Definition enqueue_attributed_urgent_with_outcome (clk : Clock) (event_id source target prompt : string)
    (factory_session summary : option string) (priority : option NotificationPriority) (urgent : bool)
    (attribution : option json) (origin : option QueueOrigin) db : result (EnqueueOutcome * Db) :=
  _ ← require_operator_session target factory_session;
  if names_operator target
  then record_operator_turn has_agents clk
         (mkOperatorTurn source target prompt factory_session
            (OperatorTurnMetadata_default <| om_summary := summary |> <| om_priority := priority |>
               <| om_urgent := urgent |> <| om_attribution := attribution |> <| om_origin := origin |>)) event_id db
  else
    let now := clk 0%nat in
    match resend_of source target prompt factory_session urgent now db with
    | Some id => Ok (EnqueueOutcome_SuppressedDuplicate id, db)
    | None =>
        let kind := supervisor_delivery_kind source target prompt factory_session urgent origin db in
        '(id, db) ← insert_prompt (λ id, message_row source target prompt now factory_session summary priority urgent
                      origin kind None id <| pq_attribution_json := json_text <$> attribution |>) db;
        Ok (EnqueueOutcome_Created id, db)
    end.
Definition enqueue_urgent_with_outcome clk event_id source target prompt factory_session summary priority urgent origin db :=
  enqueue_attributed_urgent_with_outcome clk event_id source target prompt factory_session summary priority urgent None origin db.
Definition enqueue_urgent clk event_id source target prompt factory_session summary priority urgent db : result (Z * Db) :=
  '(outcome, db) ← enqueue_urgent_with_outcome clk event_id source target prompt factory_session summary priority urgent None db;
  Ok (EnqueueOutcome_id outcome, db).
Definition enqueue_full clk event_id source target prompt factory_session summary priority db :=
  enqueue_urgent clk event_id source target prompt factory_session summary priority false db.
Definition enqueue_with_summary clk event_id source target prompt factory_session summary db :=
  enqueue_full clk event_id source target prompt factory_session summary None db.
Definition enqueue_with_session clk event_id source target prompt (factory_session : string) db :=
  enqueue_full clk event_id source target prompt (Some factory_session) None None db.
Definition enqueue_prompt clk event_id source target prompt db :=
  enqueue_full clk event_id source target prompt None None None db.

(** ** Keyed messages *)
Inductive EnqueueIdempotentResult :=
  | EnqueueIdempotentResult_Created (id : Z)
  | EnqueueIdempotentResult_AlreadyExists (id : Z).
Definition idempotent_of (outcome : EnqueueOutcome) : EnqueueIdempotentResult :=
  match outcome with
  | EnqueueOutcome_Created id => EnqueueIdempotentResult_Created id
  | EnqueueOutcome_SuppressedDuplicate id => EnqueueIdempotentResult_AlreadyExists id
  end.
Definition enqueue_idempotent_urgent (clk : Clock) (event_id source target prompt : string)
    (factory_session summary : option string) (priority : option NotificationPriority) (urgent : bool)
    (dedupe_key : string) (origin : option QueueOrigin) db : result (EnqueueIdempotentResult * Db) :=
  _ ← require_operator_session target factory_session;
  if names_operator target
  then
    '(outcome, db) ← record_operator_turn has_agents clk
         (mkOperatorTurn source target prompt factory_session
            (OperatorTurnMetadata_default <| om_summary := summary |> <| om_priority := priority |>
               <| om_urgent := urgent |> <| om_origin := origin |> <| om_dedupe_key := Some dedupe_key |>)) event_id db;
    Ok (idempotent_of outcome, db)
  else
    let kind := supervisor_delivery_kind source target prompt factory_session urgent origin db in
    match prompt_of_key dedupe_key db with
    | Some id => Ok (EnqueueIdempotentResult_AlreadyExists id, db)
    | None =>
        '(id, db) ← insert_prompt (message_row source target prompt (clk 0%nat) factory_session summary priority urgent
                      origin kind (Some dedupe_key)) db;
        Ok (EnqueueIdempotentResult_Created id, db)
    end.
Definition enqueue_idempotent clk event_id source target prompt factory_session summary priority dedupe_key origin db :=
  enqueue_idempotent_urgent clk event_id source target prompt factory_session summary priority false dedupe_key origin db.

(** Each stamp reads the clock. *)
Fixpoint stamp_each (stamps : Clock) (stage : DeliveryStage) (opts : AtomicStampOpts) (ids : list Z) db : result Db :=
  match ids with
  | [] => Ok db
  | id :: ids =>
      db ← atomic_stage_stamp_in_tx has_agents (stamps 0%nat) id stage opts db;
      stamp_each (λ i, stamps (S i)) stage opts ids db
  end.
Definition supersede (stamps : Clock) (detail : string) (ids : list Z) db : result Db :=
  stamp_each stamps DeliveryStage_Suppressed (settled_opts (Some PendingReason_SupersededStale) (Some detail)) ids db.

(** ** Stall nudges *)
Definition older_nudge (target factory_session summary : string) db r : bool :=
  String.eqb (pq_source r) "director" && opt_eqb (pq_origin_kind r) (Some "daemon") && String.eqb (pq_target r) target
  && opt_eqb (pq_factory_session r) (Some factory_session) && opt_eqb (pq_summary r) (Some summary)
  && opt_eqb (pq_kind r) (Some "worker_stall_nudge")
  && match pq_dedupe_key r with Some key => like_prefix "worker-attention:" key | None => false end
  && (pq_priority r =? NotificationPriority_to_i32 NotificationPriority_Normal) && negb (pq_urgent r)
  && is_none (pq_processed_at r) && is_none (pq_transport_delivered_at r) && is_none (pq_acked_at r)
  && negb (sql_exists (λ k _, k.1 =? pq_id r) (pt_seen (db_prompt_receipts db))).
Definition enqueue_worker_stall_nudge (clk : Clock) (target prompt factory_session task_id dedupe_key : string) db
    : result (EnqueueIdempotentResult * Db) :=
  match prompt_of_key dedupe_key db with
  | Some id => Ok (EnqueueIdempotentResult_AlreadyExists id, db)
  | None =>
      let summary := "Worker stall nudge: " +:+ task_id in
      let older := pq_id <$> log_select (older_nudge target factory_session summary db) (db_prompts db) in
      db ← supersede clk "newer worker stall nudge superseded this undelivered episode" older db;
      '(id, db) ← insert_prompt (message_row "director" target prompt (clk (length older)) (Some factory_session)
                    (Some summary) None false (Some QueueOrigin_Daemon) (Some "worker_stall_nudge") (Some dedupe_key)) db;
      Ok (EnqueueIdempotentResult_Created id, db)
  end.

(** ** Messages between workers *)
Record WorkerPeerMessageEnqueue := mkWorkerPeerMessageEnqueue { wp_recipient_id : Z; wp_supervisor_copy_id : Z }.
Definition recent_peer_messages (source recipient factory_session : string) (cutoff : Z) db : nat :=
  log_count (λ r, String.eqb (pq_source r) source && String.eqb (pq_target r) recipient
    && opt_eqb (pq_factory_session r) (Some factory_session) && (cutoff <=? pq_created_at r)) (db_prompts db).
Definition enqueue_worker_peer_with_supervisor_copy (clk : Clock)
    (source recipient supervisor prompt supervisor_copy factory_session : string) (summary : option string)
    (priority : option NotificationPriority) (urgent : bool) (origin : option QueueOrigin) db
    : result (WorkerPeerMessageEnqueue * Db) :=
  let now := clk 0%nat in
  let cutoff := now - duration_seconds WORKER_PEER_MESSAGE_BURST_WINDOW_SECS in
  if WORKER_PEER_MESSAGE_BURST_LIMIT <=? Z.of_nat (recent_peer_messages source recipient factory_session cutoff db)
  then Err (Other ("worker peer message rate limit: at most " +:+ show_z WORKER_PEER_MESSAGE_BURST_LIMIT
                   +:+ " messages per minute to one peer"))
  else
    '(copy_id, db) ← insert_prompt (message_row source supervisor supervisor_copy now (Some factory_session) summary
                       priority false origin (Some PEER_COPY_KIND) None) db;
    '(id, db) ← insert_prompt (message_row source recipient prompt now (Some factory_session) summary
                  priority urgent origin None None) db;
    Ok (mkWorkerPeerMessageEnqueue id copy_id, db).

(** ** A worker's action message

    One pending wake per worker: the new message carries the text of the pending
    ones and suppresses them. *)
Definition FOLD_END : string := "--- end of earlier undelivered messages ---".
Definition PARSER_DELIMITER : string := nlnl +:+ FOLD_END.
Definition ESCAPED_DELIMITER : string := nlnl +:+ "\" +:+ FOLD_END.
Definition fold_boundary : string := nlnl +:+ FOLD_END +:+ nlnl.
Definition WORKER_ACTION_FOLD_CAP_BYTES : Z := 8000.
Definition escape_delimiter (text : string) : string := replace_text PARSER_DELIMITER ESCAPED_DELIMITER text.
(** The text before the last action envelope *)
Definition body_of (text : string) : string :=
  trim (match rsplit_text "<cas-worker-action" text with Some (before, _) => before | None => text end).
Definition pending_action (factory_session origin_agent_id : string) r : bool :=
  opt_eqb (pq_factory_session r) (Some factory_session) && opt_eqb (pq_origin_agent_id r) (Some origin_agent_id)
  && is_none (pq_processed_at r) && is_none (pq_transport_delivered_at r)
  && match pq_kind r with None => true | Some kind => String.eqb kind DIGEST end
  && stage_not_in ["confirmed"; "dropped"; "suppressed"; "abandoned"] r.
Definition escaped_name (worker_name : string) : string :=
  String.string_of_list_ascii (List.filter (λ c, negb (existsb (Ascii.eqb c)
    [quote_mark; "<"%char; ">"%char; newline; carriage_return])) (String.list_ascii_of_string worker_name)).
Definition action_of (worker : string) r : bool :=
  (is_none (pq_kind r) || (split_quiet_marker (pq_prompt r)).1)
  && ends_with "</cas-worker-action>" (pq_prompt r)
  && existsb (λ kind, str_contains ("<cas-worker-action kind=" +:+ in_quotes kind +:+ " worker=" +:+ in_quotes worker) (pq_prompt r))
       ["status"; "ready"].
Definition action_candidates (factory_session origin_agent_id worker : string) db : list PromptRow :=
  List.filter (action_of worker)
    (order_by (le_of (asc pq_id)) (log_select (pending_action factory_session origin_agent_id) (db_prompts db))).

(** A pending message as the blocks it folded earlier and its own text *)
Definition message_parts (text : string) : option string * string :=
  let body := body_of text in
  match split_text PARSER_DELIMITER body with
  | Some (earlier, own) => (Some (trim earlier), trim own)
  | None => (None, body)
  end.
Definition message_label r : string :=
  match option_filter (λ summary, negb (str_is_empty (trim summary))) (pq_summary r) with
  | Some summary => " (" +:+ escape_delimiter (trim summary) +:+ ")"
  | None => EmptyString
  end.
Definition message_pieces (new_body : string) r : list string :=
  let '(earlier, own) := message_parts (split_quiet_marker (pq_prompt r)).2 in
  option_list earlier ++
  (if negb (str_is_empty own) && negb (String.eqb own new_body)
   then ["Earlier message #" +:+ show_z (pq_id r) +:+ message_label r
         +:+ ", not yet delivered when this one was sent:" +:+ nl +:+ own]
   else []).
Record MessageFold := mkMessageFold {
  mf_blocks : list string;
  mf_all_quiet : bool;
  mf_length : Z;
  mf_superseded : list Z;
}.
Definition bytes (s : string) : Z := Z.of_nat (String.length s).
Definition added_bytes (pieces : list string) : Z := foldr (λ piece n, bytes piece + 2 + n) 0 pieces.
Definition fold_message (new_body : string) (fold : MessageFold) r : MessageFold :=
  let pieces := message_pieces new_body r in
  let added := added_bytes pieces in
  if negb (bool_decide (pieces = [])) && (WORKER_ACTION_FOLD_CAP_BYTES <? mf_length fold + added) then fold
  else mkMessageFold (mf_blocks fold ++ pieces) (mf_all_quiet fold && (split_quiet_marker (pq_prompt r)).1)
         (mf_length fold + added) (mf_superseded fold ++ [pq_id r]).
Definition fold_messages (stored : string) (candidates : list PromptRow) : MessageFold :=
  let '(quiet, text) := split_quiet_marker stored in
  foldl (fold_message (body_of text))
    (mkMessageFold [] quiet (bytes text + bytes fold_boundary
       + if quiet then bytes QUIET_MESSAGE_MARKER + 1 else 0) []) candidates.
Definition folded_prompt (stored : string) (fold : MessageFold) : string :=
  let '(quiet, text) := split_quiet_marker stored in
  match mf_blocks fold with
  | [] => if quiet && negb (mf_all_quiet fold) then text else stored
  | blocks =>
      let folded := String.concat nlnl blocks +:+ fold_boundary +:+ text in
      if mf_all_quiet fold then QUIET_MESSAGE_MARKER +:+ nl +:+ folded else folded
  end.
Definition enqueue_worker_action_with_outcome (clk : Clock) (source target prompt worker_name factory_session : string)
    (summary : option string) (priority : option NotificationPriority) (urgent : bool) (origin : QueueOrigin) db
    : result (EnqueueOutcome * Db) :=
  _ ← require_operator_session target (Some factory_session);
  if names_operator target then Err (Other "worker action cannot be sent to the operator")
  else
    match origin with
    | QueueOrigin_RegisteredAgent agent_id =>
        let now := clk 0%nat in
        let stored := escape_delimiter prompt in
        match resend_of source target stored (Some factory_session) urgent now db with
        | Some id => Ok (EnqueueOutcome_SuppressedDuplicate id, db)
        | None =>
            let candidates := action_candidates factory_session agent_id (escaped_name worker_name) db in
            '(id, db) ← insert_prompt (message_row source target prompt now (Some factory_session) summary priority
                          urgent (Some origin) None None) db;
            let fold := fold_messages stored candidates in
            let text := folded_prompt stored fold in
            let kind := supervisor_delivery_kind source target text (Some factory_session) urgent (Some origin) db in
            let db := update_prompts (by_id id) (λ r, r <| pq_prompt := text |> <| pq_kind := kind |>) db in
            let detail := "newer worker action message " +:+ show_z id
                            +:+ " superseded this pending wake and carries its body" in
            db ← supersede (λ i, clk (S i)) detail (mf_superseded fold) db;
            Ok (EnqueueOutcome_Created id, db)
        end
    | _ => Err (Other "worker action requires a registered-agent origin")
    end.

(** ** Input typed at the supervisor's terminal *)
Definition processed_when_created (id : Z) db : Db :=
  update_prompts (by_id id) (λ r, r <| pq_processed_at := Some (pq_created_at r) |>) db.
Definition terminal_turn (prompt factory_session : string) (metadata : OperatorTurnMetadata) : OperatorTurn :=
  mkOperatorTurn "terminal" "terminal-history" prompt (Some factory_session) metadata.
Definition record_terminal_operator_turn (clk : Clock) (event_id factory_session prompt : string) db
    : result (Z * Db) :=
  _ ← require_operator_session "operator" (Some factory_session);
  '(outcome, db) ← insert_complete_operator_turn has_agents clk
                     (terminal_turn prompt factory_session OperatorTurnMetadata_default) event_id db;
  let id := EnqueueOutcome_id outcome in
  Ok (id, processed_when_created id db).
Definition unbound_terminal_row (factory_session prompt : string) (at_ : Z) r : bool :=
  opt_eqb (pq_factory_session r) (Some factory_session) && String.eqb (pq_source r) "terminal"
  && String.eqb (pq_target r) "terminal-history" && is_none (pq_dedupe_key r) && String.eqb (pq_prompt r) (trim prompt)
  && (julianday (at_ - duration_seconds 120) <=? julianday (pq_created_at r))
  && (julianday (pq_created_at r) <=? julianday (at_ + duration_seconds 120)).
Definition record_terminal_transcript_turn (clk : Clock)
    (event_id factory_session harness_session turn_id prompt : string) (at_ : Z) db : result (Z * Db) :=
  _ ← require_operator_session "operator" (Some factory_session);
  let key := "terminal-input:" +:+ json_text (JArray [JString factory_session; JString harness_session; JString turn_id]) in
  match prompt_of_key key db with
  | Some id => Ok (id, db)
  | None =>
      let distance r := Z.abs (julianday (pq_created_at r) - julianday at_) in
      match head (order_by (le_of (then_by (asc distance) (asc pq_id)))
                    (log_select (unbound_terminal_row factory_session prompt at_) (db_prompts db))) with
      | Some r => Ok (pq_id r, update_prompts (by_id (pq_id r)) (λ r, r <| pq_dedupe_key := Some key |>) db)
      | None =>
          '(outcome, db) ← insert_complete_operator_turn has_agents clk
             (terminal_turn (trim prompt) factory_session
                (OperatorTurnMetadata_default <| om_dedupe_key := Some key |> <| om_occurred_at := Some at_ |>)) event_id db;
          let id := EnqueueOutcome_id outcome in
          Ok (id, processed_when_created id db)
      end
  end.
End enqueue.
