(* ===== verification/PromptLaneSpec.v ===== *)
(** * What the selection of prompts promises

    [bands]: the window is filled priority by priority, each priority sharing
    what is left of it between the lanes.  The merge computes that, and so no
    target's oldest prompt waits behind the backlog of another. *)

From S2P Require Import Prelude Logs Enums Db SupervisorQueue PromptTypes PromptLanes.

Abbreviation prio := qd_priority_u8.
Definition band (p : Z) (lane : list QueuedPrompt) : list QueuedPrompt :=
  List.filter (λ q, prio q =? p) lane.
Fixpoint bands (priorities : list Z) (session legacy : list QueuedPrompt) (n : nat) : list QueuedPrompt :=
  match priorities with
  | [] => []
  | p :: ps =>
      let share := fair_quota_same_priority (band p session) (band p legacy) n in
      share ++ bands ps session legacy (n - length share)
  end.
Abbreviation lane_sorted := (StronglySorted (λ a b, prio a ≤ prio b)).

(** ** Sharing a priority *)
Lemma fair_quota_spec s l n :
  ∃ a b, fair_quota_same_priority s l n ≡ₚ take a s ++ take b l
    ∧ (a ≤ length s ∧ b ≤ length l ∧ Nat.min ((n + 1) / 2) (length s) ≤ a
       ∧ Nat.min (n / 2) (length l) ≤ b ∧ a + b = Nat.min n (length s + length l))%nat.
Proof.
  unfold fair_quota_same_priority. assert (n = n / 2 + (n + 1) / 2)%nat as Hn.
  { pose proof (Nat.Div0.div_mod n 2). pose proof (Nat.Div0.div_mod (n + 1) 2).
    pose proof (Nat.mod_upper_bound n 2 ltac:(done)). pose proof (Nat.mod_upper_bound (n + 1) 2 ltac:(done)). lia. }
  assert (n / 2 ≤ (n + 1) / 2)%nat by (apply Nat.Div0.div_le_mono; lia).
  remember (n / 2)%nat as h eqn:Eh. remember ((n + 1) / 2)%nat as k eqn:Ek. clear Eh Ek.
  destruct (Nat.eqb_spec n 0) as [->|Hn0].
  { exists 0%nat, 0%nat. split; [done|]. lia. }
  destruct s as [|x s]; [|destruct l as [|y l]].
  - exists 0%nat, (Nat.min n (length l)). split; [cbn [take app]|cbn [length]; lia]. destruct (Nat.le_ge_cases n (length l)); [by rewrite Nat.min_l|].
    rewrite Nat.min_r by done. by rewrite (take_ge l n), (take_ge l (length l)).
  - exists (Nat.min n (length (x :: s))), 0%nat. cbn [take]. rewrite app_nil_r. split; [|cbn [length]; lia].
    set (l := x :: s). destruct (Nat.le_ge_cases n (length l)); [by rewrite Nat.min_l|].
    rewrite Nat.min_r by done. by rewrite (take_ge l n), (take_ge l (length l)).
  - set (s' := x :: s). set (l' := y :: l).
    destruct (_ <? _)%nat eqn:Hlt; [apply Nat.ltb_lt in Hlt|apply Nat.ltb_ge in Hlt];
      eexists _, _; (split; [apply order_by_perm|lia]).
Qed.

Lemma fair_quota_length s l n :
  length (fair_quota_same_priority s l n) = Nat.min n (length s + length l).
Proof.
  destruct (fair_quota_spec s l n) as (a & b & -> & ?). rewrite length_app, !length_take. lia.
Qed.
Lemma fair_quota_0 s l : fair_quota_same_priority s l 0 = [].
Proof. done. Qed.
Lemma fair_quota_one l n : fair_quota_same_priority [] l n = take n l.
Proof. unfold fair_quota_same_priority. by destruct n, l. Qed.
Lemma fair_quota_other s n : fair_quota_same_priority s [] n = take n s.
Proof. unfold fair_quota_same_priority. by destruct n, s. Qed.

(** ** The merge *)
Lemma band_nil p l : (∀ q, q ∈ l → prio q ≠ p) → band p l = [].
Proof.
  intros H. unfold band. induction l as [|q l IH]; [done|]. cbn.
  destruct (Z.eqb_spec (prio q) p); [by exfalso; eapply H; [left|]|].
  apply IH. intros r Hr. apply H. by right.
Qed.
Lemma band_rest p p' l :
  p ≠ p' → band p' (List.filter (λ q, negb (prio q =? p)) l) = band p' l.
Proof.
  intros Hne. unfold band. induction l as [|q l IH]; [done|]. cbn.
  destruct (Z.eqb_spec (prio q) p); cbn; [|by destruct (_ =? _); rewrite IH].
  destruct (Z.eqb_spec (prio q) p'); [congruence|done].
Qed.

Lemma take_band_spec p l :
  lane_sorted l → (∀ q, q ∈ l → p ≤ prio q) →
  take_band p l = (band p l, List.filter (λ q, negb (prio q =? p)) l).
Proof.
  induction 1 as [|q l Hl IH Hq]; intros Hp; [done|]. cbn.
  destruct (Z.eqb_spec (prio q) p) as [Heq|Hne]; cbn.
  - rewrite IH; [done|]. intros r Hr. apply Hp. by right.
  - rewrite Forall_forall in Hq. assert (p < prio q) by (specialize (Hp q (list_elem_of_here _ _)); lia).
    change (List.filter _ l) with (band p l) at 1. rewrite band_nil.
    2: { intros r Hr. specialize (Hq r Hr). lia. }
    f_equal. f_equal. symmetry. apply forallb_filter_id, forallb_forall. intros r Hr%list_elem_of_In.
    specialize (Hq r Hr). apply negb_true_iff, Z.eqb_neq. lia.
Qed.

Lemma bands_0 ps s l : bands ps s l 0 = [].
Proof. induction ps; [done|]. cbn. by rewrite IHps. Qed.
Lemma bands_rest p ps s l n :
  p ∉ ps → bands ps (List.filter (λ q, negb (prio q =? p)) s) (List.filter (λ q, negb (prio q =? p)) l) n
           = bands ps s l n.
Proof.
  revert n. induction ps as [|p' ps IH]; intros n; [done|]. rewrite not_elem_of_cons. intros [Hne Hin].
  cbn. rewrite !band_rest by done. by rewrite IH.
Qed.

Lemma filter_sorted p l : lane_sorted l → lane_sorted (List.filter p l).
Proof.
  induction 1 as [|q l Hl IH Hq]; cbn; [constructor|]. destruct (p q); [|done].
  constructor; [done|]. rewrite Forall_forall in *. intros r Hr%list_elem_of_In%filter_In.
  destruct Hr as [Hr _]. by apply Hq, list_elem_of_In.
Qed.
Lemma filter_shorter {A} (p : A → bool) q l : q ∈ l → p q = false → (length (List.filter p l) < length l)%nat.
Proof.
  induction l as [|x l IH]; [by intros ?%elem_of_nil|]. rewrite elem_of_cons. cbn.
  pose proof (filter_length_le p l). intros [->|Hq] Hp; [rewrite Hp; lia|].
  specialize (IH Hq Hp). destruct (p x); cbn; lia.
Qed.

Lemma next_priority_least s l p :
  lane_sorted s → lane_sorted l → next_priority s l = Some p →
  (∀ q, q ∈ s ++ l → p ≤ prio q) ∧ ∃ q, q ∈ s ++ l ∧ prio q = p.
Proof.
  intros Hs Hl Hp. assert (∀ x k, lane_sorted (x :: k) → ∀ q, q ∈ x :: k → prio x ≤ prio q) as Hhd.
  { intros x k [_ Hx]%StronglySorted_inv q [->|Hq]%elem_of_cons; [done|]. rewrite Forall_forall in Hx. by apply Hx. }
  setoid_rewrite elem_of_app. destruct s as [|x s], l as [|y l]; cbn in Hp; simplify_eq; split.
  - intros q [?%elem_of_nil|Hq]; [done|by eapply Hhd].
  - exists y. split; [right; left|done].
  - intros q [Hq|?%elem_of_nil]; [by eapply Hhd|done].
  - exists x. split; [left; left|done].
  - intros q [Hq|Hq]; [specialize (Hhd _ _ Hs q Hq)|specialize (Hhd _ _ Hl q Hq)]; lia.
  - destruct (Z.min_spec (prio x) (prio y)) as [[_ ->]|[_ ->]];
      [exists x; split; [left; left|done]|exists y; split; [right; left|done]].
Qed.

Lemma next_priority_none s l : next_priority s l = None → s = [] ∧ l = [].
Proof. by destruct s, l. Qed.

Lemma merge_bands_spec ps fuel s l n :
  StronglySorted Z.lt ps → lane_sorted s → lane_sorted l → (∀ q, q ∈ s ++ l → prio q ∈ ps) →
  (length s + length l ≤ fuel)%nat → merge_bands fuel s l n = bands ps s l n.
Proof.
  intros Hps. revert fuel s l n. induction Hps as [|p ps Hps IH Hp]; intros fuel s l n Hs Hl Hin Hfuel.
  - assert (next_priority s l = None) as Hn.
    { destruct (next_priority s l) eqn:Hn; [|done]. apply next_priority_least in Hn as [_ (q & Hq & _)]; [|done..].
      by apply Hin, elem_of_nil in Hq. }
    destruct fuel; cbn; [done|]. destruct (_ =? _)%nat; [done|]. by rewrite Hn.
  - assert (p ∉ ps) as Hnp by (rewrite Forall_forall in Hp; intros Hpp; specialize (Hp p Hpp); lia).
    destruct (next_priority s l) as [p0|] eqn:Hn.
    2: { apply next_priority_none in Hn as [-> ->]. cbn. rewrite fair_quota_one, take_nil. cbn.
         rewrite Nat.sub_0_r, <-(IH fuel [] [] n); [|constructor|constructor|by intros q ?%elem_of_nil|cbn; lia]. destruct fuel; [done|]. cbn. by destruct (_ =? _)%nat. }
    apply next_priority_least in Hn as Hleast; [|done..]. destruct Hleast as [Hle (q0 & Hq0 & Hp0)].
    destruct (decide (p0 = p)) as [->|Hne].
    + destruct fuel as [|fuel].
      { destruct s, l; try (cbn in Hfuel; lia). by apply elem_of_nil in Hq0. }
      cbn [merge_bands bands]. destruct (Nat.eqb_spec n 0) as [->|_].
      { by rewrite fair_quota_0, bands_0. }
      rewrite Hn, (take_band_spec p s), (take_band_spec p l); [|done| |done|].
      2,3: intros q Hq; apply Hle, elem_of_app; tauto.
      f_equal. rewrite <-(bands_rest p ps s l) by done. apply IH; [by apply filter_sorted..| |].
      * intros q [Hq|Hq]%elem_of_app; apply list_elem_of_In, filter_In in Hq as [Hq%list_elem_of_In Hqp];
          apply negb_true_iff, Z.eqb_neq in Hqp.
        -- assert (prio q ∈ p :: ps) as [|]%elem_of_cons by (apply Hin, elem_of_app; by left); done.
        -- assert (prio q ∈ p :: ps) as [|]%elem_of_cons by (apply Hin, elem_of_app; by right); done.
      * pose proof (filter_length_le (λ q, negb (prio q =? p)) s).
        pose proof (filter_length_le (λ q, negb (prio q =? p)) l).
        assert (negb (prio q0 =? p) = false) as Hf by (apply negb_false_iff, Z.eqb_eq; done).
        apply elem_of_app in Hq0 as [Hq0|Hq0];
          [pose proof (filter_shorter (λ q, negb (prio q =? p)) q0 s Hq0 Hf)
          |pose proof (filter_shorter (λ q, negb (prio q =? p)) q0 l Hq0 Hf)]; lia.
    + assert (∀ q, q ∈ s ++ l → prio q ≠ p) as Hno.
      { intros q Hq Hqp. rewrite Forall_forall in Hp.
        assert (p0 ∈ p :: ps) as [|Hin0]%elem_of_cons by (rewrite <-Hp0; by apply Hin); [done|].
        specialize (Hp p0 Hin0). specialize (Hle q Hq). lia. }
      cbn [bands]. rewrite !band_nil.
      2,3: intros q Hq; apply Hno, elem_of_app; tauto.
      rewrite fair_quota_one, take_nil. cbn. rewrite Nat.sub_0_r. apply IH; [done..| |done].
      intros q Hq. assert (prio q ∈ p :: ps) as [|]%elem_of_cons by (by apply Hin); [|done]. by exfalso; eapply Hno.
Qed.

Lemma bands_one_lane ps l n :
  StronglySorted Z.lt ps → lane_sorted l → (∀ q, q ∈ l → prio q ∈ ps) →
  bands ps [] l n = take n l ∧ bands ps l [] n = take n l.
Proof.
  intros Hps. revert l n. induction Hps as [|p ps Hps IH Hp]; intros l n Hl Hin.
  - destruct l as [|q l]; [by rewrite take_nil|]. exfalso. eapply elem_of_nil, Hin. left.
  - assert (p ∉ ps) as Hnp by (rewrite Forall_forall in Hp; intros Hpp; specialize (Hp p Hpp); lia).
    set (rest := List.filter (λ q, negb (prio q =? p)) l).
    assert (l = band p l ++ rest) as Heq.
    { unfold rest. assert (∀ q, q ∈ l → p ≤ prio q) as Hle.
      { intros q [->|Hq]%Hin%elem_of_cons; [done|]. rewrite Forall_forall in Hp. by apply Z.lt_le_incl, Hp. }
      clear -Hl Hle. induction Hl as [|q l Hl IH Hq]; [done|]. cbn.
      destruct (Z.eqb_spec (prio q) p) as [Hqp|Hqp]; cbn.
      - f_equal. apply IH. intros r Hr. apply Hle. by right.
      - rewrite Forall_forall in Hq. assert (p < prio q) by (specialize (Hle q (list_elem_of_here _ _)); lia).
        change (List.filter (λ q, prio q =? p) l) with (band p l). rewrite band_nil.
        2: { intros r Hr. specialize (Hq r Hr). lia. }
        cbn. f_equal. symmetry. apply forallb_filter_id, forallb_forall. intros r Hr%list_elem_of_In.
        specialize (Hq r Hr). apply negb_true_iff, Z.eqb_neq. lia. }
    destruct (IH rest (n - length (take n (band p l)))%nat) as [H1 H2].
    { by apply filter_sorted. }
    { intros q (Hq & Hqp)%list_elem_of_In%filter_In. apply negb_true_iff, Z.eqb_neq in Hqp.
      assert (prio q ∈ p :: ps) as [|]%elem_of_cons by (apply Hin; by apply list_elem_of_In); done. }
    cbn [bands]. change (band p []) with (@nil QueuedPrompt). rewrite fair_quota_one, fair_quota_other.
    pose proof (bands_rest p ps [] l (n - length (take n (band p l))) Hnp) as R1.
    pose proof (bands_rest p ps l [] (n - length (take n (band p l))) Hnp) as R2. cbn in R1, R2.
    rewrite <-R1, <-R2. fold rest. rewrite H1, H2. split; rewrite Heq at 3; rewrite take_app; do 2 f_equal;
      rewrite length_take; lia.
Qed.

Definition PRIORITIES : list Z := [0; 1; 2].
Lemma prio_known q : prio q ∈ PRIORITIES.
Proof. unfold qd_priority_u8, PRIORITIES. destruct (qd_priority q); cbn; set_solver. Qed.
Lemma PRIORITIES_sorted : StronglySorted Z.lt PRIORITIES.
Proof. repeat constructor. Qed.

Lemma merge_is_bands s l n :
  lane_sorted s → lane_sorted l → merge_two_lane_peeks s l n = bands PRIORITIES s l n.
Proof.
  intros Hs Hl. unfold merge_two_lane_peeks. destruct (Nat.eqb_spec n 0) as [->|Hn]; [by rewrite bands_0|].
  pose proof PRIORITIES_sorted as HP. destruct s as [|x s]; [|destruct l as [|y l]].
  - symmetry. apply bands_one_lane; [done..|]. intros q _. apply prio_known.
  - symmetry. apply bands_one_lane; [done..|]. intros q _. apply prio_known.
  - apply merge_bands_spec; [done..| |done]. intros q _. apply prio_known.
Qed.

(** ** Fairness *)
Lemma band_same p l : (∀ q, q ∈ l → prio q = p) → band p l = l.
Proof.
  intros H. apply forallb_filter_id, forallb_forall. intros q Hq%list_elem_of_In. by apply Z.eqb_eq, H.
Qed.
Lemma band_from p k1 q k2 :
  prio q = p → band p (k1 ++ q :: k2) = band p k1 ++ q :: band p k2.
Proof.
  intros Hq. unfold band. rewrite List.filter_app. f_equal. cbn. by rewrite Hq, Z.eqb_refl.
Qed.
Lemma elem_of_band p q l : q ∈ band p l ↔ q ∈ l ∧ prio q = p.
Proof. unfold band. by rewrite !list_elem_of_In, filter_In, Z.eqb_eq. Qed.
Lemma elem_of_share p s l n q : q ∈ fair_quota_same_priority (band p s) (band p l) n → prio q = p.
Proof.
  destruct (fair_quota_spec (band p s) (band p l) n) as (a & b & -> & _).
  rewrite elem_of_app. by intros [[_ Hq]%subseteq_take%elem_of_band|[_ Hq]%subseteq_take%elem_of_band].
Qed.
Lemma elem_of_bands ps s l n q : q ∈ bands ps s l n → prio q ∈ ps.
Proof.
  revert n. induction ps as [|p ps IH]; intros n; [by intros ?%elem_of_nil|]. cbn [bands].
  rewrite elem_of_app, elem_of_cons. intros [Hq%elem_of_share|Hq%IH]; auto.
Qed.
Lemma bands_sorted ps s l n : StronglySorted Z.lt ps → lane_sorted (bands ps s l n).
Proof.
  intros Hps. revert n. induction Hps as [|p ps Hps IH Hp]; intros n; cbn [bands]; [constructor|].
  rewrite Forall_forall in Hp. apply StronglySorted_app_2; [| |apply IH].
  - intros x y Hx%elem_of_share Hy%elem_of_bands. specialize (Hp _ Hy). lia.
  - assert (∀ q, q ∈ fair_quota_same_priority (band p s) (band p l) n → prio q = p) as Hsame
      by (intros q; apply elem_of_share).
    induction (fair_quota_same_priority (band p s) (band p l) n) as [|q k IHk]; constructor.
    + apply IHk. intros r Hr. apply Hsame. by right.
    + apply Forall_forall. intros r Hr. rewrite (Hsame q), (Hsame r); [done|by right|by left].
Qed.
Lemma band_bands p ps s l n :
  p ∉ ps → band p (bands ps s l n) = [].
Proof. intros Hp. apply band_nil. intros q Hq%elem_of_bands <-. done. Qed.

(** The rows before those of priority [p] *)
Definition ahead (p : Z) (rows : list QueuedPrompt) : nat := length (List.filter (λ q, prio q <? p) rows).
Definition band_count (p : Z) (s l : list QueuedPrompt) : nat := (length (band p s) + length (band p l))%nat.

Fixpoint window (ps : list Z) (p : Z) (s l : list QueuedPrompt) (n : nat) : nat :=
  match ps with
  | [] => n
  | p' :: ps => if p' =? p then n else window ps p s l (n - band_count p' s l)
  end.
Lemma bands_band ps p s l n :
  NoDup ps → p ∈ ps →
  band p (bands ps s l n) = fair_quota_same_priority (band p s) (band p l) (window ps p s l n).
Proof.
  intros Hnd. revert n. induction Hnd as [|p' ps Hin Hnd IH]; intros n; [by intros ?%elem_of_nil|].
  cbn [bands window]. unfold band at 1. rewrite List.filter_app.
  change (List.filter (λ q, prio q =? p)) with (band p).
  destruct (Z.eqb_spec p' p) as [->|Hne].
  - intros _. rewrite band_bands, app_nil_r by done. apply band_same. intros q. apply elem_of_share.
  - intros [->|Hp]%elem_of_cons; [done|]. rewrite band_nil.
    2: { intros q ->%elem_of_share. congruence. }
    cbn. rewrite IH by done. f_equal. unfold band_count. rewrite fair_quota_length.
    revert Hp. clear. intros _. f_equal. lia.
Qed.

Lemma ahead_next p rows : ahead (p + 1) rows = (ahead p rows + length (band p rows))%nat.
Proof.
  unfold ahead, band. induction rows as [|q rows IH]; [done|]. cbn.
  destruct (Z.ltb_spec (prio q) (p + 1)), (Z.ltb_spec (prio q) p), (Z.eqb_spec (prio q) p); cbn; lia.
Qed.
Lemma window_ahead p s l n :
  p ∈ PRIORITIES → window PRIORITIES p s l n = (n - ahead p (s ++ l))%nat.
Proof.
  assert (∀ q, 0 ≤ prio q) as Hpos by (intros q; unfold qd_priority_u8; destruct (qd_priority q); done).
  assert (ahead 0 (s ++ l) = 0%nat) as H0.
  { unfold ahead. rewrite (filter_ext _ (λ _, false)); [by induction (s ++ l)|].
    intros q. apply Z.ltb_ge, Hpos. }
  assert (∀ p, ahead (p + 1) (s ++ l) = (ahead p (s ++ l) + band_count p s l)%nat) as Hstep.
  { intros p'. rewrite ahead_next. unfold band_count, band. by rewrite List.filter_app, length_app. }
  pose proof (Hstep 0) as H1. pose proof (Hstep 1) as H2. cbn [Z.add Pos.add] in H1, H2.
  unfold PRIORITIES. rewrite !elem_of_cons, elem_of_nil. intros [->|[->|[->|[]]]]; cbn [window Z.eqb Pos.eqb];
    change (0 + 1) with 1 in *; change (1 + 1) with 2 in *; rewrite ?H2, ?H1, ?H0; lia.
Qed.

Lemma merge_shares session legacy n p :
  lane_sorted session → lane_sorted legacy → p ∈ PRIORITIES →
  let out := merge_two_lane_peeks session legacy n in
  let s := band p session in
  let l := band p legacy in
  let room := (n - ahead p (session ++ legacy))%nat in
  lane_sorted out
  ∧ ∃ a b, band p out ≡ₚ take a s ++ take b l
      ∧ (a + b = Nat.min room (length s + length l) ∧ a ≤ length s ∧ b ≤ length l
         ∧ Nat.min ((room + 1) / 2) (length s) ≤ a ∧ Nat.min (room / 2) (length l) ≤ b)%nat.
Proof.
  intros Hs Hl Hp out s l room. unfold out. rewrite merge_is_bands by done. split.
  - apply bands_sorted, PRIORITIES_sorted.
  - rewrite bands_band; [|by repeat constructor; set_solver|done]. rewrite window_ahead by done.
    destruct (fair_quota_spec s l room) as (a & b & H & ?). exists a, b. split; [done|lia].
Qed.

(** C34: The window is shared fairly.  The merge of two lanes is sorted by
    priority; each priority gets what the more urgent rows left of the window,
    is given oldest-first rows of both lanes until that is used up or the rows
    are, and neither lane can push the other below its half. *)
Theorem two_lane_merge_is_fair session legacy n p :
  lane_sorted session → lane_sorted legacy → p ∈ PRIORITIES →
  let out := merge_two_lane_peeks session legacy n in
  let s := band p session in
  let l := band p legacy in
  let room := (n - ahead p (session ++ legacy))%nat in
  lane_sorted out
  ∧ ∃ a b, band p out ≡ₚ take a s ++ take b l
      ∧ (a + b = Nat.min room (length s + length l) ∧ a ≤ length s ∧ b ≤ length l
         ∧ Nat.min ((room + 1) / 2) (length s) ≤ a ∧ Nat.min (room / 2) (length l) ≤ b)%nat.
Proof. apply merge_shares. Qed.

(** ** No target waits behind another's backlog *)
Section lanes.
Implicit Types (db : Db) (r : PromptRow).

Definition priorities_known db : Prop := ∀ r, r ∈ log_rows (db_prompts db) → 0 ≤ pq_priority r ≤ 2.

Abbreviation lane_order rows :=
  (then_by (asc pq_priority) (then_by (asc (target_rn rows)) (asc pq_id))).
Abbreviation lane_rows P db :=
  (order_by (le_of (lane_order (log_select P (db_prompts db)))) (log_select P (db_prompts db))).

Lemma prio_of_row db r :
  priorities_known db → r ∈ log_rows (db_prompts db) → prio (prompt_from_row r) = pq_priority r.
Proof.
  intros Hk Hr. specialize (Hk r Hr). unfold qd_priority_u8. cbn.
  assert (pq_priority r = 0 ∨ pq_priority r = 1 ∨ pq_priority r = 2) as [-> | [-> | ->]] by lia; done.
Qed.

Lemma lane_rows_sorted P db : StronglySorted (rel_of (le_of (lane_order (log_select P (db_prompts db))))) (lane_rows P db).
Proof.
  set (c := lane_order (log_select P (db_prompts db))).
  pose proof (then_by_order _ _ (asc_order pq_priority)
    (then_by_order _ _ (asc_order (target_rn (log_select P (db_prompts db)))) (asc_order pq_id))) as Hc.
  fold c in Hc. apply Sorted_StronglySorted; [intros x y z; apply (le_of_trans c)|].
  apply order_by_sorted, (le_of_total c so_opp).
Qed.

Lemma lane_is_sorted P n db : priorities_known db → lane_sorted (query_lane P n db).
Proof.
  intros Hk. unfold query_lane. assert (∀ l, (∀ r, r ∈ l → r ∈ log_rows (db_prompts db)) →
    StronglySorted (rel_of (le_of (lane_order (log_select P (db_prompts db))))) l →
    lane_sorted (prompt_from_row <$> l)) as Hmap.
  { intros l Hl. induction 1 as [|r l Hs IH Hr]; cbn; constructor.
    - apply IH. intros x Hx. apply Hl. by right.
    - rewrite Forall_fmap, Forall_forall in *. intros x Hx. cbn.
      rewrite !(prio_of_row db) by (done || (apply Hl; by (left || right))).
      specialize (Hr x Hx). unfold rel_of, le_of, then_by, asc in Hr.
      destruct (Z.compare_spec (pq_priority r) (pq_priority x)); [lia..|done]. }
  apply Hmap.
  - intros r Hr%elem_of_sql_limit%elem_of_order_by%elem_of_log_select. apply Hr.
  - pose proof (lane_rows_sorted P db) as Hs. unfold sql_limit. destruct (n <? 0); [done|].
    rewrite <-(take_drop (Z.to_nat n) (lane_rows P db)) in Hs. by apply StronglySorted_app_1_l in Hs.
Qed.

Definition oldest_of_target (P : PromptRow → bool) db r : Prop :=
  ∀ r', r' ∈ log_rows (db_prompts db) → P r' = true → pq_target r' = pq_target r →
    pq_priority r' = pq_priority r → pq_id r ≤ pq_id r'.

Lemma target_rn_pos rows r : 1 ≤ target_rn rows r.
Proof. unfold target_rn. lia. Qed.
Lemma target_rn_first P db r :
  target_rn (log_select P (db_prompts db)) r = 1 ↔ oldest_of_target P db r.
Proof.
  unfold target_rn, oldest_of_target. split.
  - intros H r' Hr' HP Ht Hp. apply Z.le_ngt. intros Hlt.
    assert (r' ∈ List.filter (λ x, String.eqb (pq_target x) (pq_target r)
      && (pq_priority x =? pq_priority r) && (pq_id x <? pq_id r)) (log_select P (db_prompts db))) as Hin.
    { apply list_elem_of_In, filter_In. split; [by apply list_elem_of_In, elem_of_log_select|].
      rewrite Ht, Hp, String.eqb_refl, Z.eqb_refl. by apply Z.ltb_lt. }
    destruct (List.filter _ _); [by apply elem_of_nil in Hin|]. cbn in H. lia.
  - intros H. destruct (List.filter _ _) as [|r' l] eqn:Hf; [done|].
    assert (r' ∈ r' :: l) as Hin by left. rewrite <-Hf in Hin.
    apply list_elem_of_In, filter_In in Hin as [Hin%list_elem_of_In%elem_of_log_select Hc]. bool_to_prop.
    destruct Hin as [Hin HP]. specialize (H r' Hin HP ltac:(done) ltac:(done)). lia.
Qed.

(** A first row of a priority is preceded by rows of more urgent priorities and
    by first rows of other targets. *)
Lemma first_row_is_early P targets db r :
  log_wf (db_prompts db) → (∀ x, P x = true → pq_target x ∈ targets) →
  r ∈ log_rows (db_prompts db) → P r = true → oldest_of_target P db r →
  ∃ l1 l2, lane_rows P db = l1 ++ r :: l2
    ∧ (length (List.filter (λ x, (pq_priority x =? pq_priority r)%Z) l1) < length targets)%nat
    ∧ ∀ x, x ∈ l1 → pq_priority x ≤ pq_priority r.
Proof.
  intros Hwf Htg Hr HP Hold.
  assert (r ∈ lane_rows P db) as (l1 & l2 & Hl)%list_elem_of_split
    by (by apply elem_of_order_by, elem_of_log_select).
  pose proof (lane_rows_sorted P db) as Hs. rewrite Hl in Hs.
  assert (NoDup (lane_rows P db)) as Hnd by (rewrite order_by_perm; by apply log_select_NoDup).
  assert (∀ x, x ∈ l1 → x ∈ log_rows (db_prompts db) ∧ P x = true ∧ x ≠ r ∧ pq_priority x ≤ pq_priority r
            ∧ (pq_priority x = pq_priority r → oldest_of_target P db x)) as Hbefore.
  { intros x Hx. assert (x ∈ lane_rows P db) as Hin by (rewrite Hl; apply elem_of_app; by left).
    apply elem_of_order_by, elem_of_log_select in Hin as [Hin HPx].
    pose proof (StronglySorted_app_1_elem_of _ _ _ x r Hs Hx ltac:(left)) as Hle.
    assert (x ≠ r) as Hne.
    { intros ->. rewrite Hl in Hnd. apply NoDup_app in Hnd as (_ & Hd & _). eapply Hd; [exact Hx|left]. }
    unfold rel_of, le_of, then_by, asc in Hle.
    apply target_rn_first in Hold. pose proof (target_rn_pos (log_select P (db_prompts db)) x).
    destruct (Z.compare_spec (pq_priority x) (pq_priority r)); [|split_and!; (done || lia)|done].
    destruct (Z.compare_spec (target_rn (log_select P (db_prompts db)) x)
                (target_rn (log_select P (db_prompts db)) r)); [|lia|done].
    split_and!; [done..|lia|]. intros _. apply target_rn_first. lia. }
  exists l1, l2. split; [done|]. split; [|intros x Hx; apply (Hbefore x Hx)].
  set (k := List.filter (λ x, pq_priority x =? pq_priority r) l1).
  assert (∀ x, x ∈ k → x ∈ l1 ∧ pq_priority x = pq_priority r) as Hk.
  { intros x. unfold k. by rewrite !list_elem_of_In, filter_In, Z.eqb_eq. }
  assert (NoDup k) as Hndk.
  { rewrite Hl in Hnd. apply NoDup_app in Hnd as (Hnd1 & _ & _). by eapply sublist_NoDup, filter_bool_sublist. }
  assert (NoDup (pq_target <$> r :: k)) as Hnt.
  { cbn. constructor.
    - intros (x & Ht & Hx)%list_elem_of_fmap. destruct (Hk x Hx) as [Hx1 Hp].
      destruct (Hbefore x Hx1) as (Hin & HPx & Hne & _ & Hox). specialize (Hox Hp).
      apply Hne. apply (log_wf_unique (db_prompts db)); [done..|]. unfold row_id, PromptRow_id.
      specialize (Hold x Hin HPx ltac:(done) Hp). specialize (Hox r Hr HP ltac:(done) ltac:(done)). lia.
    - apply NoDup_fmap_2_strong; [|done]. intros x y [Hx Hp]%Hk [Hy Hpy]%Hk Ht.
      destruct (Hbefore x Hx) as (Hin & HPx & _ & _ & Hox). destruct (Hbefore y Hy) as (Hiny & HPy & _ & _ & Hoy).
      apply (log_wf_unique (db_prompts db)); [done..|]. unfold row_id, PromptRow_id.
      specialize (Hox Hp y Hiny HPy ltac:(done) ltac:(lia)). specialize (Hoy Hpy x Hin HPx ltac:(done) ltac:(lia)). lia. }
  assert (length (pq_target <$> r :: k) ≤ length targets)%nat as Hle.
  { apply submseteq_length, NoDup_submseteq; [done|]. intros t (x & -> & Hx)%list_elem_of_fmap.
    apply elem_of_cons in Hx as [->|[Hx _]%Hk]; [by apply Htg|]. apply Htg, (Hbefore x Hx). }
  rewrite length_fmap in Hle. cbn in Hle. lia.
Qed.
(** The rows that satisfy [P] and are more urgent than [r] *)
Definition more_urgent (P : PromptRow → bool) db r : nat :=
  log_count (λ x, P x && (pq_priority x <? pq_priority r)) (db_prompts db).
Lemma filter_perm_length {A} (p : A → bool) (l k : list A) :
  l ≡ₚ k → length (List.filter p l) = length (List.filter p k).
Proof. induction 1 as [|x l k _ IH|x y l|l k j _ IH1 _ IH2]; cbn; [done|..]; repeat destruct (p _); cbn; lia. Qed.
Lemma urgent_in_lane P db r :
  length (List.filter (λ x, pq_priority x <? pq_priority r) (lane_rows P db)) = more_urgent P db r.
Proof.
  unfold more_urgent, log_count, log_select. rewrite <-filter_filter_count.
  apply filter_perm_length, order_by_perm.
Qed.
Lemma lane_split P n db l1 r l2 :
  (length l1 < n)%nat → Z.of_nat n < 2 ^ 63 → lane_rows P db = l1 ++ r :: l2 →
  query_lane P (as_i64 (Z.of_nat n)) db
  = (prompt_from_row <$> l1) ++ prompt_from_row r :: (prompt_from_row <$> take (n - length l1 - 1) l2).
Proof.
  intros Hlt Hn Hl. unfold query_lane. rewrite as_i64_small by lia. rewrite Hl. unfold sql_limit.
  destruct (Z.ltb_spec (Z.of_nat n) 0); [lia|]. rewrite Nat2Z.id, take_app_ge by lia.
  rewrite fmap_app. f_equal. destruct (n - length l1)%nat eqn:E; [lia|]. cbn. do 3 f_equal. lia.
Qed.

Lemma early_in_share {A} (l1 l2 : list A) x a :
  (length l1 < a)%nat → x ∈ take a (l1 ++ x :: l2).
Proof.
  intros Ha. rewrite take_app_ge by lia. apply elem_of_app. right.
  destruct (a - length l1)%nat eqn:E; [lia|]. left.
Qed.

Lemma ahead_none p rows : (∀ q, q ∈ rows → p ≤ prio q) → ahead p rows = 0%nat.
Proof.
  intros H. unfold ahead. induction rows as [|q rows IH]; [done|]. cbn.
  pose proof (H q (list_elem_of_here _ _)). destruct (Z.ltb_spec (prio q) p); [lia|].
  apply IH. intros x Hx. apply H. by right.
Qed.

Lemma query_lane_rows P n db q :
  q ∈ query_lane P n db → ∃ x, q = prompt_from_row x ∧ x ∈ log_rows (db_prompts db) ∧ P x = true.
Proof.
  unfold query_lane. intros (x & -> & Hx%elem_of_sql_limit%elem_of_order_by%elem_of_log_select)%list_elem_of_fmap.
  by exists x.
Qed.

(** What the daemon of a session may select *)
Definition eligible (clk : Clock) (targets : list string) (session : string) db r : bool :=
  deliverable (clk 0%nat) (clk 1%nat - duration_seconds PROMPT_QUEUE_STALE_TTL_SECS) targets db r
  && (bool_decide (pq_factory_session r = Some session) || is_none (pq_factory_session r)).

Lemma deliverable_target now cutoff targets db r :
  deliverable now cutoff targets db r = true → pq_target r ∈ targets.
Proof.
  unfold deliverable. intros [_ (t & Ht & ->%String.eqb_eq)%existsb_exists]%andb_true_iff.
  by apply list_elem_of_In.
Qed.

(** The oldest prompt of its target and priority, and what precedes it in its lane *)
Lemma first_in_lane P targets n db r :
  log_wf (db_prompts db) → priorities_known db → (more_urgent P db r + length targets ≤ n)%nat → Z.of_nat n < 2 ^ 63 →
  (∀ x, P x = true → pq_target x ∈ targets) → r ∈ log_rows (db_prompts db) → P r = true →
  oldest_of_target P db r →
  ∃ k1 k2, query_lane P (as_i64 (Z.of_nat n)) db = k1 ++ prompt_from_row r :: k2
    ∧ (length (band (prio (prompt_from_row r)) k1) < length targets)%nat.
Proof.
  intros Hwf Hk Hn Hn63 Htg Hr HPr Hfirst.
  destruct (first_row_is_early P targets db r) as (l1 & l2 & Hl & Hlen & Hle); try done.
  assert (∀ x, x ∈ l1 → x ∈ log_rows (db_prompts db)) as Hin.
  { intros x Hx. assert (x ∈ lane_rows P db) as Hin by (rewrite Hl; apply elem_of_app; by left).
    by apply elem_of_order_by, elem_of_log_select in Hin as [? _]. }
  assert (length (List.filter (λ x, (pq_priority x <? pq_priority r)%Z) l1) ≤ more_urgent P db r)%nat as Hurg.
  { rewrite <-urgent_in_lane. apply filter_sublist_length. rewrite Hl. by apply sublist_inserts_r. }
  pose proof (filter_le_split pq_priority pq_priority (pq_priority r) l1 Hle) as Hsplit.
  rewrite (lane_split _ _ _ l1 r l2) by (done || lia). eexists _, _. split; [done|].
  rewrite (prio_of_row db) by done. eapply Nat.le_lt_trans; [|exact Hlen]. unfold band. clear -Hin Hk.
  induction l1 as [|x l1 IH]; [done|]. cbn. rewrite (prio_of_row db) by (done || (apply Hin; by left)).
  specialize (IH ltac:(intros; apply Hin; by right)). destruct (_ =? _); cbn; lia.
Qed.
Lemma ahead_in_lane P n db r :
  priorities_known db → r ∈ log_rows (db_prompts db) →
  (ahead (prio (prompt_from_row r)) (query_lane P n db) ≤ more_urgent P db r)%nat.
Proof.
  intros Hk Hr. rewrite <-urgent_in_lane. unfold ahead, query_lane. rewrite (prio_of_row db) by done.
  assert (∀ l, (∀ x, x ∈ l → x ∈ log_rows (db_prompts db)) →
    length (List.filter (λ q, prio q <? pq_priority r) (prompt_from_row <$> l))
    = length (List.filter (λ x, pq_priority x <? pq_priority r) l)) as Hmap.
  { induction l as [|x l IH]; intros Hl; [done|]. cbn. rewrite (prio_of_row db) by (done || (apply Hl; by left)).
    specialize (IH ltac:(intros; apply Hl; by right)). destruct (_ <? _); cbn; lia. }
  rewrite Hmap.
  - apply filter_sublist_length. unfold sql_limit. destruct (n <? 0); [done|]. apply sublist_take.
  - intros x Hx%elem_of_sql_limit%elem_of_order_by%elem_of_log_select. apply Hx.
Qed.
Lemma ahead_app p l k : ahead p (l ++ k) = (ahead p l + ahead p k)%nat.
Proof. unfold ahead. by rewrite List.filter_app, length_app. Qed.

(** C13: Only more urgent prompts come before the first of a target.  However many
    prompts of the same or a less urgent priority wait for this or other targets,
    a selection holds the oldest deliverable prompt of each target at a priority,
    when the window has two places for every target the daemon watches besides
    those that the deliverable prompts of more urgent priorities take.  In
    particular two places per target are enough for the most urgent priority. *)
Theorem peek_reaches_every_target clk targets session n db r :
  log_wf (db_prompts db) → priorities_known db →
  (more_urgent (eligible clk targets session db) db r + 2 * length targets ≤ n)%nat → Z.of_nat n < 2 ^ 63 →
  r ∈ log_rows (db_prompts db) → eligible clk targets session db r = true →
  (∀ x, x ∈ log_rows (db_prompts db) → eligible clk targets session db x = true →
     pq_target x = pq_target r → pq_priority x = pq_priority r → pq_id r ≤ pq_id x) →
  ∃ out, peek_for_targets clk targets (Some session) n db = Ok out ∧ prompt_from_row r ∈ out.
Proof.
  intros Hwf Hk Hn Hn63 Hr He Hfirst.
  set (ok := deliverable (clk 0%nat) (clk 1%nat - duration_seconds PROMPT_QUEUE_STALE_TTL_SECS) targets db).
  set (PS := λ x, ok x && bool_decide (pq_factory_session x = Some session)).
  set (PL := λ x, ok x && is_none (pq_factory_session x)).
  assert (∀ x, PS x = true ∨ PL x = true → pq_target x ∈ targets ∧ eligible clk targets session db x = true) as Hlane.
  { unfold eligible. fold ok. intros x [[Hok Hs]%andb_true_iff|[Hok Hs]%andb_true_iff]; (split; [by eapply deliverable_target|]);
      rewrite Hok, Hs; by rewrite ?orb_true_r. }
  assert (more_urgent PS db r + more_urgent PL db r ≤ more_urgent (eligible clk targets session db) db r)%nat as Hsum.
  { apply count_disjoint.
    - intros x [Hx Hlt]%andb_true_iff. destruct (Hlane x (or_introl Hx)) as [_ ->]. rewrite Hlt. split; [done|].
      unfold PS in Hx. unfold PL. apply andb_true_iff in Hx as [_ ->%bool_decide_eq_true]. cbn. by rewrite andb_false_r.
    - intros x [Hx Hlt]%andb_true_iff. destruct (Hlane x (or_intror Hx)) as [_ ->]. by rewrite Hlt. }
  unfold eligible in He. fold ok in He. assert (0 < length targets)%nat as Ht0.
  { apply andb_true_iff in He as [Hok%deliverable_target _]. destruct targets; [by apply elem_of_nil in Hok|cbn; lia]. }
  set (S := query_lane PS (as_i64 (Z.of_nat n)) db). set (L := query_lane PL (as_i64 (Z.of_nat n)) db).
  exists (merge_two_lane_peeks S L n). split.
  { unfold peek_for_targets, peek_for_targets_on_conn. destruct targets; [cbn in Ht0; lia|].
    by destruct (Nat.eqb_spec n 0); [lia|]. }
  assert (∀ P, (∀ x, P x = true → PS x = true ∨ PL x = true) → (more_urgent P db r ≤ n - 2 * length targets)%nat → P r = true →
    ∃ k1 k2, query_lane P (as_i64 (Z.of_nat n)) db = k1 ++ prompt_from_row r :: k2
      ∧ (length (band (prio (prompt_from_row r)) k1) < length targets)%nat) as Hearly.
  { intros P HP Hu HPr. apply first_in_lane; try done; [lia|intros x Hx; apply Hlane; auto|].
    intros x Hx HPx. apply Hfirst; [done|]. apply Hlane. auto. }
  set (p := prio (prompt_from_row r)).
  destruct (merge_shares S L n p) as (_ & a & b & Hout & Hab & Ha & Hb & Has & Hbl); [by apply lane_is_sorted..|apply prio_known|].
  assert (ahead p (S ++ L) ≤ n - 2 * length targets)%nat as Hahead.
  { rewrite ahead_app. pose proof (ahead_in_lane PS (as_i64 (Z.of_nat n)) db r Hk Hr) as H1.
    pose proof (ahead_in_lane PL (as_i64 (Z.of_nat n)) db r Hk Hr) as H2.
    fold p S in H1. fold p L in H2. lia. }
  set (room := (n - ahead p (S ++ L))%nat) in *. assert (2 * length targets ≤ room)%nat as Hroom by lia. clearbody room.
  assert (length targets ≤ room / 2 ∧ room / 2 ≤ (room + 1) / 2)%nat as [Hhalf Hhalf'].
  { split; [apply Nat.div_le_lower_bound; lia|apply Nat.Div0.div_le_mono; lia]. }
  generalize dependent (room / 2)%nat. generalize dependent ((room + 1) / 2)%nat. intros hs Has hl Hbl Hhalf Hhalf'.
  assert (prompt_from_row r ∈ band p (merge_two_lane_peeks S L n)) as [? _]%elem_of_band; [|done].
  rewrite Hout, elem_of_app.
  apply andb_true_iff in He as [Hok [Hs|Hs]%orb_true_iff].
  - left. destruct (Hearly PS) as (k1 & k2 & Hq & Hlen); [auto|lia|unfold PS; by rewrite Hok, Hs|].
    unfold S in *. rewrite Hq in *. rewrite (band_from p) in * by done. apply early_in_share.
    rewrite length_app in Has. cbn in Has. fold p in Hlen. lia.
  - right. destruct (Hearly PL) as (k1 & k2 & Hq & Hlen); [auto|lia|unfold PL; by rewrite Hok, Hs|].
    unfold L in *. rewrite Hq in *. rewrite (band_from p) in * by done. apply early_in_share.
    rewrite length_app in Hbl. cbn in Hbl. fold p in Hlen. lia.
Qed.
End lanes.
