(* ===== verification/SupervisorQueueSpec.v ===== *)
(** * What the supervisor queue promises

    Rows change only by being stamped ([notification_le]); a transition key is
    recorded once ([keys_unique]); [sq_step] is one operation of any process on
    the queue, where [poll] is the two statements it is.  The theorems: replays
    of a transition, delivery by polling, folding, pruning, and the retention
    driver. *)

From S2P Require Import Prelude Texts Logs Enums Db SupervisorQueue.

(** ** How a row changes *)
Definition notification_le (r r' : SupervisorRow) : Prop :=
  sq_supervisor_id r' = sq_supervisor_id r ∧ sq_event_type r' = sq_event_type r
  ∧ sq_payload r' = sq_payload r ∧ sq_priority r' = sq_priority r
  ∧ sq_created_at r' = sq_created_at r ∧ sq_transition_key r' = sq_transition_key r
  ∧ (is_Some (sq_processed_at r) → is_Some (sq_processed_at r'))
  ∧ (∀ t, sq_prompt_delivered_at r = Some t → sq_prompt_delivered_at r' = Some t).
#[export] Instance notification_le_preorder : PreOrder notification_le.
Proof. unfold notification_le. split; [done|]. intros x y z ?? . destruct_and!. split_and!; [congruence..|auto|auto]. Qed.

Definition keys_unique (q : Log SupervisorRow) : Prop :=
  ∀ r r' key, r ∈ log_rows q → r' ∈ log_rows q →
    sq_transition_key r = Some key → sq_transition_key r' = Some key → r = r'.

Definition queue_step (q q' : Log SupervisorRow) : Prop :=
  log_step notification_le q q' ∧ (keys_unique q → keys_unique q').
#[export] Instance queue_step_preorder : PreOrder queue_step.
Proof.
  split; [by split|]. intros a b d [? Hab] [? Hbd]. split; [by etrans|auto].
Qed.

Lemma queue_step_update P f q :
  (∀ r, sq_id (f r) = sq_id r ∧ sq_transition_key (f r) = sq_transition_key r) →
  (∀ r, P r = true → notification_le r (f r)) → queue_step q (log_update P f q).
Proof.
  intros Hf HP. split; [apply (log_step_update notification_le); [apply Hf|done]|].
  intros Hk r r' key (r0 & Hr & ->)%elem_of_log_update (r0' & Hr' & ->)%elem_of_log_update H H'.
  rewrite (Hk r0 r0' key); [done..| |].
  - destruct (P r0); [by rewrite (proj2 (Hf r0)) in H|done].
  - destruct (P r0'); [by rewrite (proj2 (Hf r0')) in H'|done].
Qed.
Lemma queue_step_delete P q : queue_step q (log_delete P q).
Proof.
  split; [apply (log_step_delete notification_le)|].
  intros Hk r r' key [Hr _]%elem_of_log_delete [Hr' _]%elem_of_log_delete. by apply Hk.
Qed.

(** A maker of rows: [notification_row] applied up to its time *)
Definition makes_rows (mk : option string → Z → SupervisorRow) : Prop :=
  ∀ k id, sq_id (mk k id) = id ∧ sq_transition_key (mk k id) = k.
Lemma notification_row_makes sid ev p pr now : makes_rows (notification_row sid ev p pr now).
Proof. done. Qed.
#[export] Hint Resolve notification_row_makes : core.

Lemma has_key_true key r : has_key key r = true ↔ sq_transition_key r = Some key.
Proof. apply bool_decide_eq_true. Qed.
Lemma has_key_none key q :
  existsb (has_key key) (log_rows q) = false ↔
  ∀ r, r ∈ log_rows q → sq_transition_key r ≠ Some key.
Proof.
  rewrite <-not_true_iff_false, existsb_exists. setoid_rewrite has_key_true.
  setoid_rewrite <-list_elem_of_In. naive_solver.
Qed.

(** The row is new when the key was, and no row goes. *)
Lemma insert_or_ignore_spec mk key q o q' :
  makes_rows mk → insert_or_ignore mk key q = Ok (o, q') →
  queue_step q q'
  ∧ match o with
    | Some id => (∀ r, r ∈ log_rows q → sq_transition_key r ≠ Some key)
                 ∧ id = log_seq q + 1 ∧ log_rows q' = log_rows q ++ [mk (Some key) id]
    | None => q' = q ∧ ∃ r, r ∈ log_rows q ∧ sq_transition_key r = Some key
    end.
Proof.
  intros Hmk H. unfold insert_or_ignore in H. apply bind_Ok in H as ([id q1] & Hins & H).
  destruct (existsb _ _) eqn:Hex; injection H as <- <-.
  - split; [done|]. split; [done|]. apply existsb_exists in Hex as (r & Hr & Hk%has_key_true).
    exists r. by rewrite list_elem_of_In.
  - rewrite has_key_none in Hex.
    assert (log_step notification_le q q1) as Hstep.
    { eapply (log_step_insert notification_le); [|exact Hins]. intros z. apply Hmk. }
    apply log_insert_Ok in Hins as (-> & _ & Hrows). split; [split; [done|]|done].
    intros Hk r r' k. rewrite Hrows. rewrite !elem_of_app, !list_elem_of_singleton.
    intros [Hr| ->] [Hr'| ->] Hkr Hkr'; [by eapply Hk| | |done];
      rewrite (proj2 (Hmk _ _)) in *; simplify_eq; exfalso; by eapply Hex.
Qed.

Lemma insert_or_ignore_keeps mk key q o q' :
  makes_rows mk → insert_or_ignore mk key q = Ok (o, q') →
  (∀ r, r ∈ log_rows q → r ∈ log_rows q')
  ∧ (∃ r, r ∈ log_rows q' ∧ sq_transition_key r = Some key)
  ∧ (∀ r, r ∈ log_rows q' → r ∈ log_rows q ∨ r = mk (Some key) (sq_id r)).
Proof.
  intros Hmk [_ H]%insert_or_ignore_spec; [|done]. destruct o as [id|].
  - destruct H as (_ & _ & Hrows). rewrite Hrows. split_and!.
    + intros r Hr. apply elem_of_app. by left.
    + exists (mk (Some key) id). rewrite elem_of_app, list_elem_of_singleton. split; [by right|apply Hmk].
    + intros r [Hr | ->%list_elem_of_singleton]%elem_of_app; [by left|right].
      by rewrite (proj1 (Hmk _ _)).
  - destruct H as [-> Hr]. split_and!; [done..|]. by left.
Qed.

(** ** The operations as steps *)
Section steps.
Context {host : Host}.
Abbreviation queue := db_supervisor_queue.

Lemma record_transition_step mk key q a q' :
  makes_rows mk → record_transition mk key q = Ok (a, q') → queue_step q q'.
Proof.
  intros Hmk H. unfold record_transition in H. apply bind_Ok in H as ([o q1] & Hins & H).
  apply bind_Ok in H as (a' & _ & [= _ <-]). by apply insert_or_ignore_spec in Hins as [].
Qed.

Lemma try_fold_ind {A S} (f : A → S → result S) (P : relation S) `{!PreOrder P} l s s' :
  (∀ a s s', a ∈ l → f a s = Ok s' → P s s') → try_fold f l s = Ok s' → P s s'.
Proof.
  revert s. induction l as [|a l IH]; cbn; intros s Hf H; [by injection H as ->|].
  apply bind_Ok in H as (s1 & H1 & H). etrans; [eapply Hf, H1; left|].
  eapply IH; [|done]. intros b t t' Hb. apply Hf. by right.
Qed.

Lemma insert_copy_Ok ev p pr now key other q q' :
  insert_copy ev p pr now key other q = Ok q' →
  ∃ p' o, sqlite_json_set "fold_copy_for" other p = Some p'
    ∧ insert_or_ignore (notification_row other ev p' pr now) (copy_key key other) q = Ok (o, q').
Proof.
  unfold insert_copy. intros H. apply bind_Ok in H as (p' & Hp & H). exists p'.
  destruct (sqlite_json_set _ _ _) as [p''|]; [injection Hp as ->|done].
  destruct (insert_or_ignore _ _ _) as [[o q1]|] eqn:Hins; [|done]. injection H as ->. by exists o.
Qed.

Lemma copy_fold_step sid ev p pr now key fev prefixes q q' :
  copy_fold sid ev p pr now key fev prefixes q = Ok q' → queue_step q q'.
Proof.
  apply (try_fold_ind _ queue_step). intros prefix s s' _. apply (try_fold_ind _ queue_step).
  intros other t t' _ (p' & o & _ & Hins)%insert_copy_Ok. by apply insert_or_ignore_spec in Hins as [].
Qed.

Lemma stamp_row_le now r : notification_le r (stamp_row now r).
Proof.
  unfold notification_le, stamp_row. cbn. split_and!; [done..| |].
  - intros [t ->]. by exists t.
  - by intros t ->.
Qed.
Lemma mark_processed_le now r : notification_le r (mark_processed_row now r).
Proof. unfold notification_le. cbn. split_and!; done. Qed.

Lemma stamp_members_step fev now prefixes q : queue_step q (stamp_members fev now prefixes q).
Proof.
  unfold stamp_members. revert q. induction prefixes as [|prefix l IH]; cbn; intros q; [done|].
  etrans; [|apply IH]. apply queue_step_update; [done|]. intros r _. apply stamp_row_le.
Qed.

(** One operation of some process.  A poll reads and then writes: the write
    names what some earlier read returned. *)
Inductive sq_step (db : Db) : Db → Prop :=
  | sq_notify clk sid ev p pr id db' : notify clk sid ev p pr db = Ok (id, db') → sq_step db db'
  | sq_notify_idempotent clk sid ev p pr key a db' :
      notify_idempotent clk sid ev p pr key db = Ok (a, db') → sq_step db db'
  | sq_notify_folding clk sid ev p pr key fev prefixes a db' :
      notify_idempotent_folding clk sid ev p pr key fev prefixes db = Ok (a, db') → sq_step db db'
  | sq_mark_delivered clk id db' : mark_prompt_delivered clk id db = Ok (tt, db') → sq_step db db'
  | sq_poll_write now ns : sq_step db (poll_write now ns db)
  | sq_ack clk id db' : ack clk id db = Ok (tt, db') → sq_step db db'
  | sq_clear sid n db' : clear sid db = Ok (n, db') → sq_step db db'
  | sq_cleanup clk secs n db' : cleanup_old clk secs db = Ok (n, db') → sq_step db db'
  | sq_prune ha hp clk secs batch n db' :
      prune_finished_batch ha hp clk secs batch db = Ok (n, db') → sq_step db db'
  | sq_elsewhere db' : queue db' = queue db → sq_step db db'.

Lemma delete_rows_step P db n db' :
  delete_rows P db = Ok (n, db') → queue db' = log_delete P (queue db).
Proof. by intros [= _ <-]. Qed.

Lemma sq_step_queue db db' : sq_step db db' → queue_step (queue db) (queue db').
Proof.
  intros Hs. destruct Hs as [clk sid ev p pr id db' H|clk sid ev p pr key a db' H
    |clk sid ev p pr key fev prefixes a db' H|clk id db' H|now ns|clk id db' H|sid n db' H
    |clk secs n db' H|ha hp clk secs batch n db' H|db' H].
  - unfold notify in H. apply bind_Ok in H as ([id' q] & Hins & [= _ <-]). cbn. split.
    + eapply (log_step_insert notification_le); [|exact Hins]. done.
    + apply log_insert_Ok in Hins as (_ & _ & Hrows). intros Hk r r' k. rewrite Hrows.
      rewrite !elem_of_app, !list_elem_of_singleton.
      intros [Hr | ->] [Hr' | ->] Hkr Hkr'; [by eapply Hk|done..].
  - unfold notify_idempotent in H. apply bind_Ok in H as ([a' q] & Hrec & [= _ <-]). cbn.
    by eapply record_transition_step.
  - unfold notify_idempotent_folding in H. apply bind_Ok in H as ([a' q] & Hrec & H).
    apply bind_Ok in H as (q1 & Hcopy & [= _ <-]). cbn.
    etrans; [by eapply record_transition_step|]. etrans; [by eapply copy_fold_step|].
    apply stamp_members_step.
  - injection H as <-. cbn. apply queue_step_update; [done|]. intros r HP. bool_to_prop.
    unfold notification_le. cbn. split_and!; [done..|]. intros t Ht. by rewrite Ht in *.
  - unfold poll_write. destruct ns as [|n ns]; [done|]. cbn -[poll_mark].
    apply queue_step_update; [done|]. intros r _. apply mark_processed_le.
  - unfold ack in H. destruct (_ =? _)%nat; [done|]. injection H as <-. cbn.
    apply queue_step_update; [done|]. intros r _. apply mark_processed_le.
  - apply delete_rows_step in H as ->. apply queue_step_delete.
  - apply delete_rows_step in H as ->. apply queue_step_delete.
  - unfold prune_finished_batch in H. destruct (_ <=? 0); [done|].
    apply delete_rows_step in H as ->. apply queue_step_delete.
  - by rewrite H.
Qed.

Lemma sq_steps_queue db db' : rtc sq_step db db' → queue_step (queue db) (queue db').
Proof. induction 1; [done|]. etrans; [by apply sq_step_queue|done]. Qed.

(** ** Transitions *)
Definition answer_id (a : NotifyIdempotentResult) : Z :=
  match a with Created id => id | AlreadyExists id _ => id end.
Definition answer_delivered (a : NotifyIdempotentResult) : bool :=
  match a with Created _ => false | AlreadyExists _ d => d end.

Lemma existing_transition_Ok key q a :
  existing_transition key q = Ok a →
  ∃ r, r ∈ log_rows q ∧ sq_transition_key r = Some key
       ∧ a = AlreadyExists (sq_id r) (negb (is_none (sq_prompt_delivered_at r))).
Proof.
  unfold existing_transition. intros H. destruct (head _) as [r|] eqn:Hh; [|done]. injection H as <-.
  apply head_Some_elem_of, elem_of_log_select in Hh as [Hr Hk%has_key_true]. by exists r.
Qed.

(** The answer names the row of the key, and says whether it was delivered. *)
Lemma record_transition_spec mk key q a q' :
  makes_rows mk → (∀ id, sq_prompt_delivered_at (mk (Some key) id) = None) →
  record_transition mk key q = Ok (a, q') →
  (∃ r, r ∈ log_rows q' ∧ sq_id r = answer_id a ∧ sq_transition_key r = Some key
        ∧ answer_delivered a = negb (is_none (sq_prompt_delivered_at r))
        ∧ ∀ id, a = Created id → r = mk (Some key) id)
  ∧ ((∃ r, r ∈ log_rows q ∧ sq_transition_key r = Some key) →
     q' = q ∧ a = AlreadyExists (answer_id a) (answer_delivered a)).
Proof.
  intros Hmk Hnew H. unfold record_transition in H. apply bind_Ok in H as ([o q1] & Hins & H).
  apply bind_Ok in H as (a' & Ha & [= -> <-]).
  apply insert_or_ignore_spec in Hins as [_ Hins]; [|done]. destruct o as [id|].
  - injection Ha as <-. destruct Hins as (Hfresh & -> & Hrows). split.
    + exists (mk (Some key) (log_seq q + 1)). rewrite Hrows, elem_of_app, list_elem_of_singleton, Hnew.
      split_and!; [by right|apply Hmk|apply Hmk|done|by intros ? [= <-]].
    + intros (r & Hr & Hk). by apply Hfresh in Hr.
  - destruct Hins as [-> _]. apply existing_transition_Ok in Ha as (r & Hr & Hk & ->). split; [by exists r|done].
Qed.

Lemma notify_idempotent_Ok clk sid ev p pr key db a db' :
  notify_idempotent clk sid ev p pr key db = Ok (a, db') →
  record_transition (notification_row sid ev p pr (clk 0%nat)) key (queue db) = Ok (a, queue db')
  ∧ db' = db <| db_supervisor_queue := queue db' |>.
Proof. intros H. unfold notify_idempotent in H. by apply bind_Ok in H as ([a' q] & Hrec & [= <- <-]). Qed.

(** Marking a row delivered is permanent: the row carries the stamp as long as
    it exists. *)
Lemma marked_stays_delivered clk id db db1 db2 r :
  log_wf (queue db) → id ≤ log_seq (queue db) →
  mark_prompt_delivered clk id db = Ok (tt, db1) → rtc sq_step db1 db2 →
  r ∈ log_rows (queue db2) → sq_id r = id → is_Some (sq_prompt_delivered_at r).
Proof.
  intros Hwf Hle Hm Hsteps Hr Hid.
  pose proof (sq_step_queue _ _ (sq_mark_delivered _ clk id db1 Hm)) as [Hs1 _].
  destruct (Hs1 Hwf) as [Hwf1 [Hseq _]]. destruct (sq_steps_queue _ _ Hsteps) as [Hs _].
  destruct (Hs Hwf1) as [_ [_ Horig]].
  destruct (Horig r Hr) as [Hnew|(r1 & Hr1 & Hid1 & Hle1)].
  { exfalso. unfold row_id, SupervisorRow_id in Hnew. lia. }
  assert (is_Some (sq_prompt_delivered_at r1)) as [t Ht].
  { injection Hm as <-. apply elem_of_log_update in Hr1 as (r0 & _ & ->). revert Hid1.
    unfold by_id, row_id, SupervisorRow_id. destruct (Z.eqb_spec (sq_id r0) id); cbn.
    - destruct (sq_prompt_delivered_at r0) eqn:Hd; cbn; [rewrite Hd|]; by eexists.
    - intros ?. congruence. }
  destruct Hle1 as (_ & _ & _ & _ & _ & _ & _ & Hdel). by rewrite (Hdel t Ht).
Qed.

(** C27: A transition is recorded once.  While its row exists, every replay, by
    any process and with any content, names that row and changes nothing; the
    row keeps the content of the call that created it.  The replay says that the
    prompt was delivered exactly when the row carries a delivery stamp, which it
    does from the moment anyone marked it delivered, and when the first answer
    already said so. *)
Theorem transition_recorded_once clk clk' sid sid' ev ev' p p' pr pr' key db0 a0 db1 db2 a2 db3 :
  log_wf (queue db0) → keys_unique (queue db0) →
  notify_idempotent clk sid ev p pr key db0 = Ok (a0, db1) →
  rtc sq_step db1 db2 → answer_id a0 ∈ sq_id <$> log_rows (queue db2) →
  notify_idempotent clk' sid' ev' p' pr' key db2 = Ok (a2, db3) →
  db3 = db2
  ∧ ∃ r, r ∈ log_rows (queue db2) ∧ sq_id r = answer_id a0 ∧ sq_transition_key r = Some key
      ∧ a2 = AlreadyExists (sq_id r) (match sq_prompt_delivered_at r with Some _ => true | None => false end)
      ∧ (∀ id, a0 = Created id →
           sq_supervisor_id r = sid ∧ sq_event_type r = ev ∧ sq_payload r = p
           ∧ sq_priority r = NotificationPriority_to_i32 pr ∧ sq_created_at r = clk 0%nat)
      ∧ (∀ clkm dbm dbm', rtc sq_step db1 dbm → mark_prompt_delivered clkm (answer_id a0) dbm = Ok (tt, dbm') →
           rtc sq_step dbm' db2 → is_Some (sq_prompt_delivered_at r))
      ∧ (answer_delivered a0 = true → is_Some (sq_prompt_delivered_at r)).
Proof.
  intros Hwf Hun [H0 _]%notify_idempotent_Ok Hsteps (r2 & Hid2 & Hr2)%list_elem_of_fmap H2.
  apply notify_idempotent_Ok in H2 as [H2 ->].
  pose proof (record_transition_step _ _ _ _ _ (notification_row_makes _ _ _ _ _) H0) as [Hs0 Hu0].
  destruct (Hs0 Hwf) as [Hwf1 _]. specialize (Hu0 Hun).
  apply record_transition_spec in H0 as [(r1 & Hr1 & Hid1 & Hk1 & Hd1 & Hnew) _]; [|done..].
  destruct (sq_steps_queue db1 db2 Hsteps) as [Hs Hu]. destruct (Hs Hwf1) as [_ Hev].
  assert (notification_le r1 r2) as (H1 & H3 & H4 & H5 & H6 & Hkey & _ & Hdel).
  { apply (evolves_origin notification_le (queue db1) (queue db2)); [done..|].
    unfold row_id, SupervisorRow_id. congruence. }
  rewrite Hk1 in Hkey.
  apply record_transition_spec in H2 as [(r3 & Hr3 & Hid3 & Hk3 & Hd3 & _) Hsame]; [|done..].
  destruct Hsame as [Hq Ha]; [by exists r2|]. rewrite Hq in *.
  assert (r3 = r2) as -> by (by apply (Hu Hu0 r3 r2 key)).
  split; [by destruct db2|]. exists r2. split_and!; try done.
  - rewrite Ha, <-Hid3, Hd3. by destruct (sq_prompt_delivered_at r2).
  - intros id ->%Hnew. by rewrite H1, H3, H4, H5, H6.
  - intros clkm dbm dbm' Hm1 Hm Hm2. destruct (sq_steps_queue _ _ Hm1) as [Hsm _].
    destruct (Hsm Hwf1) as [Hwfm [Hseq _]].
    eapply (marked_stays_delivered clkm (answer_id a0) dbm dbm'); try done.
    destruct Hwf1 as [_ Hb]. rewrite Forall_forall in Hb. specialize (Hb r1 Hr1).
    unfold row_id, SupervisorRow_id in Hb. lia.
  - intros Ha0. rewrite Hd1 in Ha0. destruct (sq_prompt_delivered_at r1) as [t|] eqn:Hd; [|done].
    by rewrite (Hdel t eq_refl).
Qed.

(** ** Polling *)
Lemma notification_from_row_Ok r n :
  notification_from_row r = Ok n →
  sn_id n = sq_id r ∧ sn_supervisor_id n = sq_supervisor_id r ∧ sn_payload n = sq_payload r.
Proof. unfold notification_from_row. destruct (_ && _); [|done]. by intros [= <-]. Qed.

Lemma mapM_result_Forall2 {A B} (f : A → result B) l k :
  mapM f l = Ok k → Forall2 (λ a b, f a = Ok b) l k.
Proof.
  revert k. induction l as [|a l IH]; cbn; intros k H; [injection H as <-; constructor|].
  apply bind_Ok in H as (b & Hb & H). apply bind_Ok in H as (k' & Hk & H). injection H as <-.
  constructor; auto.
Qed.

Lemma poll_read_ids sid limit db ns :
  poll_read sid limit db = Ok ns →
  sn_id <$> ns = sq_id <$> poll_select (addressed_to sid) by_priority (as_i64 limit) (queue db).
Proof.
  intros H%mapM_result_Forall2. induction H as [|r n l k Hr _ IH]; cbn; [done|].
  rewrite IH. apply notification_from_row_Ok in Hr as [-> _]. done.
Qed.

Lemma poll_write_queue now ns db :
  queue (poll_write now ns db) = poll_mark now (sn_id <$> ns) (queue db).
Proof.
  destruct ns; [|done]. cbn. unfold poll_mark, log_update. cbn.
  rewrite list_fmap_id. by destruct (queue db).
Qed.

(** What a poll returned is never returned by a later poll, of
    any consumer, whatever operations came in between. *)
Theorem poll_never_repeats clk clk' sid sid' limit limit' db ns db1 db2 ns' db3 :
  log_wf (queue db) →
  poll_notifications clk sid limit db = Ok (ns, db1) → rtc sq_step db1 db2 → poll_notifications clk' sid' limit' db2 = Ok (ns', db3) →
  ∀ n n', n ∈ ns → n' ∈ ns' → sn_id n ≠ sn_id n'.
Proof.
  intros Hwf H1 Hsteps H2 n n' Hn Hn' Heq. unfold poll_notifications in H1, H2.
  apply bind_Ok in H1 as (ns1 & Hread & [= -> <-]). apply bind_Ok in H2 as (ns2 & Hread' & [= -> _]).
  pose proof (sq_steps_queue _ _ Hsteps) as [Hs _]. rewrite poll_write_queue in Hs.
  destruct Hs as [_ Hev]; [by apply log_wf_update; [apply q_mark_id|]|].
  apply (list_elem_of_fmap_2 sn_id) in Hn as Hids, Hn'.
  rewrite (poll_read_ids _ _ _ _ Hread') in Hn'. apply list_elem_of_fmap in Hn' as (r & Hr & Hin).
  eapply (marked_is_not_polled notification_le); [|exact Hwf|exact Hev|exact Hin| |].
  - intros x y Hxy. apply Hxy.
  - unfold row_id, SupervisorRow_id. congruence.
  - rewrite (poll_read_ids _ _ _ _ Hread) in Hids.
    apply list_elem_of_fmap in Hids as (r0 & Hr0 & (Hin0 & _)%elem_of_poll).
    apply list_elem_of_fmap. exists r0. unfold row_id, SupervisorRow_id. split; [congruence|done].
Qed.

(** ** Folding *)
Lemma try_fold_reaches {A S} (f : A → S → result S) (I Q : S → Prop) a l s s' :
  (∀ b s s', I s → f b s = Ok s' → I s') → (∀ b s s', Q s → f b s = Ok s' → Q s') →
  (∀ s s', I s → f a s = Ok s' → Q s') → I s → a ∈ l → try_fold f l s = Ok s' → Q s'.
Proof.
  intros HI HQ Ha. revert s. induction l as [|b l IH]; cbn; intros s Hs Hin H; [by apply elem_of_nil in Hin|].
  apply bind_Ok in H as (s1 & H1 & H). apply elem_of_cons in Hin as [->|Hin].
  - assert (Q s1) as Hq by eauto. clear -HQ Hq H. revert s1 Hq H.
    induction l as [|c l IH]; cbn; intros s1 Hq H; [by injection H as <-|].
    apply bind_Ok in H as (s2 & H2 & H). eauto.
  - eauto.
Qed.

(** Copying only adds rows: copies of the relay, each under its recipient's key. *)
Definition is_copy (ev p key : string) (r : SupervisorRow) : Prop :=
  sq_event_type r = ev ∧ sq_prompt_delivered_at r = None
  ∧ sq_transition_key r = Some (copy_key key (sq_supervisor_id r))
  ∧ sqlite_json_set "fold_copy_for" (sq_supervisor_id r) p = Some (sq_payload r).
Definition adds_copies (ev p key : string) (q q' : Log SupervisorRow) : Prop :=
  (∀ r, r ∈ log_rows q → r ∈ log_rows q')
  ∧ (∀ r, r ∈ log_rows q' → r ∈ log_rows q ∨ is_copy ev p key r).
#[export] Instance adds_copies_preorder ev p key : PreOrder (adds_copies ev p key).
Proof.
  split; [split; auto|]. intros a b d [Hab Hba] [Hbd Hdb]. split; [auto|].
  intros r [Hr|Hr]%Hdb; [by apply Hba|by right].
Qed.

Lemma insert_copy_adds ev p pr now key other q q' :
  insert_copy ev p pr now key other q = Ok q' →
  adds_copies ev p key q q' ∧ ∃ r, r ∈ log_rows q' ∧ sq_transition_key r = Some (copy_key key other).
Proof.
  intros (p' & o & Hp & (Hkeep & Hex & Hnew)%insert_or_ignore_keeps)%insert_copy_Ok; [|done].
  split; [|done]. split; [done|]. intros r [Hr| ->]%Hnew; [by left|by right].
Qed.
Lemma copy_fold_adds sid ev p pr now key fev prefixes q q' :
  copy_fold sid ev p pr now key fev prefixes q = Ok q' → adds_copies ev p key q q'.
Proof.
  apply (try_fold_ind _ (adds_copies ev p key)). intros prefix s s' _.
  apply (try_fold_ind _ (adds_copies ev p key)). intros other t t' _ Hc. by apply insert_copy_adds in Hc as [].
Qed.

Lemma copy_fold_reaches sid ev p pr now key fev prefixes q q' r prefix :
  copy_fold sid ev p pr now key fev prefixes q = Ok q' →
  r ∈ log_rows q → prefix ∈ prefixes → folded_member fev (prefix +:+ ":") r = true →
  sq_supervisor_id r ≠ sid →
  ∃ c, c ∈ log_rows q' ∧ sq_transition_key c = Some (copy_key key (sq_supervisor_id r)).
Proof.
  intros H Hr Hin Hm Hne.
  set (Q q := ∃ c, c ∈ log_rows q ∧ sq_transition_key c = Some (copy_key key (sq_supervisor_id r))).
  assert (∀ s s', adds_copies ev p key s s' → Q s → Q s') as HQ.
  { intros s s' [Hk _] (c & Hc & Hkey). exists c. auto. }
  eapply (try_fold_reaches _ (λ q, r ∈ log_rows q) Q prefix); [| | |exact Hr|done|exact H]; cbn beta.
  - intros b s s' Hs Hf. apply (try_fold_ind _ (adds_copies ev p key)) in Hf as [Hk _]; [auto|].
    intros other t t' _ Hc. by apply insert_copy_adds in Hc as [].
  - intros b s s' Hs Hf. eapply HQ; [|done]. eapply (try_fold_ind _ (adds_copies ev p key)), Hf.
    intros other t t' _ Hc. by apply insert_copy_adds in Hc as [].
  - intros s s' Hs Hf. eapply (try_fold_reaches _ (λ _, True) Q (sq_supervisor_id r)); [done| | |done| |exact Hf].
    + intros b t t' Ht Hc. apply insert_copy_adds in Hc as [Hc _]. by eapply HQ.
    + intros t t' _ Hc. by apply insert_copy_adds in Hc as [_ Hc].
    + unfold fold_others. apply elem_of_remove_dups, list_elem_of_fmap. exists r. split; [done|].
      apply elem_of_log_select. split; [done|]. rewrite Hm. cbn. by apply negb_true_iff, String.eqb_neq.
Qed.

Lemma log_update_keeps P f (q : Log SupervisorRow) r :
  r ∈ log_rows q → P r = false → r ∈ log_rows (log_update P f q).
Proof. intros Hr HP. apply elem_of_log_update. exists r. by rewrite HP. Qed.

Lemma stamp_members_keeps fev now prefixes q r :
  r ∈ log_rows q → (sq_event_type r ≠ fev ∨ is_Some (sq_prompt_delivered_at r)) →
  r ∈ log_rows (stamp_members fev now prefixes q).
Proof.
  intros Hr Hnot. unfold stamp_members. revert q Hr.
  induction prefixes as [|prefix l IH]; cbn; intros q Hr; [done|]. apply IH, log_update_keeps; [done|].
  unfold folded_member. destruct Hnot as [Hev%String.eqb_neq|[t ->]]; [by rewrite Hev|].
  cbn. by rewrite andb_false_r.
Qed.

Lemma stamp_members_stamps fev now prefixes q r prefix :
  r ∈ log_rows q → prefix ∈ prefixes → folded_member fev (prefix +:+ ":") r = true →
  stamp_row now r ∈ log_rows (stamp_members fev now prefixes q).
Proof.
  intros Hr Hin Hm. unfold stamp_members. revert q Hr.
  induction prefixes as [|p l IH]; intros q Hr; [by apply elem_of_nil in Hin|]. cbn.
  destruct (folded_member fev (p +:+ ":") r) eqn:Hp.
  - apply (stamp_members_keeps fev now l).
    + apply elem_of_log_update. exists r. by rewrite Hp.
    + right. unfold stamp_row. cbn. destruct (sq_prompt_delivered_at r); by eexists.
  - apply elem_of_cons in Hin as [->|Hin]; [congruence|]. apply IH; [done|]. by apply log_update_keeps.
Qed.

Lemma stamp_members_image fev now prefixes q r :
  r ∈ log_rows q →
  ∃ r', r' ∈ log_rows (stamp_members fev now prefixes q) ∧ sq_transition_key r' = sq_transition_key r.
Proof.
  unfold stamp_members. revert q r. induction prefixes as [|p l IH]; cbn; intros q r Hr; [by exists r|].
  destruct (folded_member fev (p +:+ ":") r) eqn:Hp.
  - destruct (IH (log_update (folded_member fev (p +:+ ":")) (stamp_row now) q) (stamp_row now r)) as (r' & Hr' & Hk).
    + apply elem_of_log_update. exists r. by rewrite Hp.
    + by exists r'.
  - apply IH. by apply log_update_keeps.
Qed.

Lemma copy_key_inj key a b : copy_key key a = copy_key key b → a = b.
Proof. unfold copy_key. by intros H%(inj (String.append key))%(inj (String.append _)). Qed.
Lemma copy_key_ne key a : copy_key key a ≠ key.
Proof.
  unfold copy_key. induction key as [|x key IH]; [done|].
  change (String x (key +:+ ":" +:+ a) ≠ String x key). intros [= H]. done.
Qed.

(** The key under which a fold alerts one recipient *)
Definition alert_key (key sid recipient : string) : string :=
  if String.eqb recipient sid then key else copy_key key recipient.

(** The payload of that row: the relay's own, or the one that names the recipient *)
Definition alert_payload (p sid recipient payload : string) : Prop :=
  if String.eqb recipient sid then payload = p
  else sqlite_json_set "fold_copy_for" recipient p = Some payload.
Definition fold_alerts (ev p key sid recipient : string) (q q' : Log SupervisorRow) : Prop :=
  ∃ c, c ∈ log_rows q'
    ∧ sq_transition_key c = Some (alert_key key sid recipient)
    ∧ ((∀ r, r ∈ log_rows q → sq_transition_key r ≠ Some (alert_key key sid recipient)) →
       sq_supervisor_id c = recipient ∧ sq_event_type c = ev ∧ sq_prompt_delivered_at c = None
       ∧ alert_payload p sid recipient (sq_payload c)).

Lemma copy_fold_alerts sid ev p pr now key fev prefixes q a q1 q2 r prefix :
  record_transition (notification_row sid ev p pr now) key q = Ok (a, q1) →
  copy_fold sid ev p pr now key fev prefixes q1 = Ok q2 →
  r ∈ log_rows q → prefix ∈ prefixes → folded_member fev (prefix +:+ ":") r = true →
  fold_alerts ev p key sid (sq_supervisor_id r) q q2.
Proof.
  intros Hrec Hcopy Hr Hin Hm. unfold record_transition in Hrec.
  apply bind_Ok in Hrec as ([o q1'] & Hins & Hrec). apply bind_Ok in Hrec as (a' & _ & [= _ ->]).
  apply insert_or_ignore_keeps in Hins as (Hkeep & (c0 & Hc0 & Hk0) & Hnew); [|done].
  pose proof (copy_fold_adds _ _ _ _ _ _ _ _ _ _ Hcopy) as [Hkeep2 Hnew2].
  unfold fold_alerts, alert_key, alert_payload. destruct (String.eqb_spec (sq_supervisor_id r) sid) as [Heq|Hne].
  - exists c0. split_and!; [auto|done|]. intros Hfresh.
    destruct (Hnew c0 Hc0) as [Hold|Hc]; [by apply Hfresh in Hold|]. rewrite Hc. by rewrite Heq.
  - destruct (copy_fold_reaches _ _ _ _ _ _ _ _ _ _ r prefix Hcopy) as (c & Hc & Hkc); [auto..|].
    exists c. split_and!; [done..|]. intros Hfresh.
    destruct (Hnew2 c Hc) as [[Hold|Hc']%Hnew|(Hev & Hdel & Hk & Hp)].
    + by apply Hfresh in Hold.
    + rewrite Hc' in Hkc. injection Hkc as Hkc. by apply eq_sym, copy_key_ne in Hkc.
    + rewrite Hkc in Hk. injection Hk as Hk%copy_key_inj. rewrite <-Hk in Hp |- *. done.
Qed.

(** The members of the folded groups: undelivered rows of the folded type whose
    key is a group's prefix, a colon and the rest. *)
Definition group_member (fev : string) (prefixes : list string) (r : SupervisorRow) : Prop :=
  sq_event_type r = fev ∧ sq_prompt_delivered_at r = None
  ∧ ∃ prefix rest, prefix ∈ prefixes ∧ sq_transition_key r = Some (prefix +:+ ":" +:+ rest).
Lemma folded_member_true fev prefixes r :
  group_member fev prefixes r ↔
  ∃ prefix, prefix ∈ prefixes ∧ folded_member fev (prefix +:+ ":") r = true.
Proof.
  unfold group_member, folded_member. split.
  - intros (<- & -> & prefix & rest & Hin & ->). exists prefix. split; [done|].
    rewrite String.eqb_refl. cbn [is_none andb]. apply starts_with_true. exists rest. by rewrite string_app_assoc.
  - intros (prefix & Hin & Hm). bool_to_prop.
    destruct (sq_prompt_delivered_at r); [done|]. destruct (sq_transition_key r) as [k|]; [|done].
    split_and!; [done..|]. match goal with H : starts_with _ _ = true |- _ => apply starts_with_true in H as [rest ->] end.
    exists prefix, rest. by rewrite string_app_assoc.
Qed.
Lemma stamp_members_spares fev now prefixes q r :
  r ∈ log_rows q → ¬ group_member fev prefixes r → r ∈ log_rows (stamp_members fev now prefixes q).
Proof.
  intros Hr Hnot. unfold stamp_members.
  assert (∀ p, p ∈ prefixes → folded_member fev (p +:+ ":") r = false) as Hall.
  { intros p Hp. apply not_true_is_false. intros Hm. apply Hnot, folded_member_true. by exists p. }
  clear Hnot. revert q Hr. induction prefixes as [|p l IH]; cbn; intros q Hr; [done|].
  apply IH; [intros; apply Hall; by right|]. apply log_update_keeps; [done|]. apply Hall. by left.
Qed.

(** The members a fold stamps: delivered now, and processed unless they were *)
Definition folded_away (now : Z) (r : SupervisorRow) : SupervisorRow :=
  r <| sq_prompt_delivered_at := Some now |> <| sq_processed_at := Some (default now (sq_processed_at r)) |>.

(** C14: A fold loses no alert.  It settles exactly the members of the groups
    that wait for delivery, and leaves every other row as it was; the recipient
    of every member it settles has a row of the fold, the relay itself or a copy
    of it with its payload: a new one, which names the recipient and waits for its
    prompt, unless a row with that key was recorded before. *)
Theorem fold_loses_no_alert clk sid ev p pr key fev prefixes db a db' r :
  notify_idempotent_folding clk sid ev p pr key fev prefixes db = Ok (a, db') →
  ev ≠ fev → r ∈ log_rows (queue db) →
  (¬ group_member fev prefixes r ∧ r ∈ log_rows (queue db'))
  ∨ group_member fev prefixes r
    ∧ folded_away (clk 0%nat) r ∈ log_rows (queue db')
    ∧ ∃ c, c ∈ log_rows (queue db')
        ∧ sq_transition_key c = Some (alert_key key sid (sq_supervisor_id r))
        ∧ ((∀ r', r' ∈ log_rows (queue db) →
              sq_transition_key r' ≠ Some (alert_key key sid (sq_supervisor_id r))) →
           sq_supervisor_id c = sq_supervisor_id r ∧ sq_event_type c = ev
           ∧ sq_prompt_delivered_at c = None ∧ alert_payload p sid (sq_supervisor_id r) (sq_payload c)).
Proof.
  intros H Hev Hr. unfold notify_idempotent_folding in H.
  apply bind_Ok in H as ([a' q1] & Hrec & H). apply bind_Ok in H as (q2 & Hcopy & [= _ <-]). cbn.
  pose proof (copy_fold_adds _ _ _ _ _ _ _ _ _ _ Hcopy) as [Hkeep2 Hnew2].
  pose proof Hrec as Hrec1. unfold record_transition in Hrec1.
  apply bind_Ok in Hrec1 as ([o q1'] & Hins & Hrec1).
  apply bind_Ok in Hrec1 as (a'' & _ & [= _ ->]).
  apply insert_or_ignore_keeps in Hins as (Hkeep & _ & _); [|done].
  destruct (existsb (λ prefix, folded_member fev (prefix +:+ ":") r) prefixes) eqn:Hex.
  - right. apply existsb_exists in Hex as (prefix & Hin%list_elem_of_In & Hm).
    destruct (copy_fold_alerts _ _ _ _ _ _ _ _ _ _ _ _ _ _ Hrec Hcopy Hr Hin Hm) as (c & Hc & Hkey & Hfresh).
    assert (group_member fev prefixes r) as Hg by (apply folded_member_true; by exists prefix).
    split; [done|]. split.
    { destruct Hg as (_ & Hd & _).
      replace (folded_away (clk 0%nat) r) with (stamp_row (clk 0%nat) r)
        by (unfold folded_away, stamp_row; cbn; destruct r; cbn in *; rewrite Hd; by destruct sq_processed_at).
      eapply stamp_members_stamps; [by apply Hkeep2, Hkeep|done..]. }
    destruct (decide (sq_event_type c = fev)) as [Hf|Hf].
    + destruct (stamp_members_image fev (clk 0%nat) prefixes q2 c Hc) as (c' & Hc' & Hk').
      exists c'. split_and!; [done|congruence|]. intros Hf0. apply Hfresh in Hf0 as (_ & Hev' & _). congruence.
    + exists c. split_and!; [by apply stamp_members_keeps; [|left]|done|done].
  - left. assert (¬ group_member fev prefixes r) as Hg.
    { intros (prefix & Hin & Hm)%folded_member_true.
      assert (existsb (λ prefix, folded_member fev (prefix +:+ ":") r) prefixes = true); [|congruence].
      apply existsb_exists. exists prefix. split; [by apply list_elem_of_In|done]. }
    split; [done|]. apply stamp_members_spares; auto.
Qed.

(** ** Pruning *)

(** A row that a prune with cutoff [cutoff] may delete *)
Definition prunable (has_agents has_prompt_queue : bool) (cutoff : Z) (db : Db) (r : SupervisorRow) : bool :=
  (sq_created_at r <? cutoff) && finished_row has_agents has_prompt_queue db r.

Lemma filter_filter_implied {A} (p q : A → bool) l :
  (∀ x, x ∈ l → p x = true → q x = true) → List.filter p (List.filter q l) = List.filter p l.
Proof.
  induction l as [|x l IH]; cbn; intros Hpq; [done|].
  assert (∀ y, y ∈ l → p y = true → q y = true) as Hl by (intros y Hy; apply Hpq; by right).
  specialize (Hpq x (list_elem_of_here _ _)). destruct (q x); cbn; rewrite IH by done; [done|].
  destruct (p x); [by specialize (Hpq eq_refl)|done].
Qed.
Lemma filter_split {A} (p : A → bool) l :
  (length (List.filter p l) + length (List.filter (λ x, negb (p x)) l) = length l)%nat.
Proof. induction l as [|x l IH]; cbn; [done|]. destruct (p x); cbn; lia. Qed.

(** One batch at a cutoff: it deletes prunable rows only, and all of them when
    it is short. *)
Lemma prune_batch ha hp clk secs batch db n db' :
  1 ≤ batch ≤ RETENTION_MAX_BATCH →
  prune_finished_batch ha hp clk secs batch db = Ok (n, db') →
  let P := prunable ha hp (clk 0%nat - duration_seconds secs) db in
  ∃ Q, queue db' = log_delete Q (queue db) ∧ (∀ r, prunable ha hp (clk 0%nat - duration_seconds secs) db' r = P r)
    ∧ n = log_count Q (queue db)
    ∧ (log_wf (queue db) →
       (∀ r, r ∈ log_rows (queue db) → Q r = true → P r = true)
       ∧ (n ≤ Z.to_nat batch)%nat
       ∧ (Z.of_nat n < batch → ∀ r, r ∈ log_rows (queue db) → P r = true → Q r = true)).
Proof.
  intros Hbatch H P. unfold prune_finished_batch in H. destruct (secs <=? 0); [done|].
  injection H as <- <-. cbn -[log_delete].
  assert (clamp_batch 1 RETENTION_MAX_BATCH batch = batch) as -> by (unfold clamp_batch; lia).
  set (ids := prune_victims _ _ _ _ _). exists (among ids). split; [done|]. split; [done|].
  split; [done|]. intros Hwf.
  assert (∀ r, r ∈ log_rows (queue db) → among ids r = true → P r = true) as Hsub.
  { intros r Hr Ha%among_true. unfold ids, prune_victims in Ha.
    apply list_elem_of_fmap in Ha as (r' & Hid & Hr'%elem_of_sql_limit%elem_of_order_by%elem_of_log_select).
    destruct Hr' as [Hr' HP]. by rewrite (log_wf_unique (queue db) r r'). }
  set (sel := order_by (le_of (asc sq_id)) (log_select P (queue db))).
  assert (ids = sq_id <$> take (Z.to_nat batch) sel) as Hids.
  { unfold ids, prune_victims, sql_limit. destruct (Z.ltb_spec batch 0); [lia|done]. }
  assert (NoDup sel) as Hnd.
  { unfold sel. rewrite order_by_perm. by apply log_select_NoDup. }
  assert (length (log_select (among ids) (queue db)) = length (take (Z.to_nat batch) sel)) as Hlen.
  { apply Permutation_length, NoDup_Permutation.
    - by apply log_select_NoDup.
    - eapply sublist_NoDup; [exact Hnd|apply sublist_take].
    - intros r. rewrite elem_of_log_select, among_true, Hids. split.
      + intros [Hr (r' & Hid & Hr')%list_elem_of_fmap]. assert (r = r') as ->; [|done].
        apply (log_wf_unique (queue db)); [done..| |done].
        by apply subseteq_take, elem_of_order_by, elem_of_log_select in Hr' as [? _].
      + intros Hr. split; [|by apply list_elem_of_fmap; exists r].
        apply subseteq_take, elem_of_order_by, elem_of_log_select in Hr. apply Hr. }
  split_and!; [done| |].
  - unfold log_count. rewrite Hlen, length_take. lia.
  - unfold log_count. rewrite Hlen, length_take. intros Hshort r Hr HP.
    apply among_true. rewrite Hids, take_ge by lia. apply list_elem_of_fmap. exists r. split; [done|].
    by apply elem_of_order_by, elem_of_log_select.
Qed.

(** The step the daemon hands to the driver; every batch reads the clock. *)
Definition prune_run (ha hp : bool) (clk : Clock) (secs : Z) (batch : Z) (s : Db * nat)
    : result (nat * (Db * nat)) :=
  '(n, db) ← prune_finished_batch ha hp (λ i, clk (s.2 + i)%nat) secs batch s.1;
  Ok (n, (db, S s.2)).

Definition pruned_at ha hp (cutoff : Z) (db : Db) : list SupervisorRow :=
  List.filter (λ r, negb (prunable ha hp cutoff db r)) (log_rows (queue db)).

Lemma prunable_mono ha hp c c' db r :
  c ≤ c' → prunable ha hp c db r = true → prunable ha hp c' db r = true.
Proof. unfold prunable. rewrite !andb_true_iff, !Z.ltb_lt. intros Hc [H1 H2]. split; [lia|done]. Qed.

(** A batch leaves what every later prune leaves. *)
Lemma prune_batch_pruned ha hp clk secs batch db n db' c :
  1 ≤ batch ≤ RETENTION_MAX_BATCH → log_wf (queue db) → clk 0%nat - duration_seconds secs ≤ c →
  prune_finished_batch ha hp clk secs batch db = Ok (n, db') →
  log_wf (queue db') ∧ pruned_at ha hp c db' = pruned_at ha hp c db
  ∧ (n + length (log_rows (queue db')) = length (log_rows (queue db)))%nat
  ∧ (n ≤ Z.to_nat batch)%nat
  ∧ (Z.of_nat n < batch →
     log_rows (queue db') = pruned_at ha hp (clk 0%nat - duration_seconds secs) db).
Proof.
  intros Hb Hwf Hc H. assert (∀ r, prunable ha hp c db' r = prunable ha hp c db r) as Hsame.
  { unfold prune_finished_batch in H. destruct (secs <=? 0); [done|]. by injection H as _ <-. }
  apply prune_batch in H as (Q & Hq & _ & -> & Hspec); [|done]. destruct (Hspec Hwf) as (Hsub & Hle & Hall).
  rewrite Hq. split_and!; [by apply log_wf_delete| | |done|].
  - unfold pruned_at. rewrite Hq. cbn. rewrite (filter_ext _ _ (λ r, f_equal negb (Hsame r))).
    apply filter_filter_implied. intros r Hr HP. apply negb_true_iff in HP.
    destruct (Q r) eqn:HQ; [|done]. apply Hsub in HQ; [|done]. eapply prunable_mono in HQ; [|exact Hc]. congruence.
  - apply filter_split.
  - intros Hshort. apply filter_ext_in. intros r Hr%list_elem_of_In. f_equal.
    destruct (prunable _ _ _ _ r) eqn:HP; [by apply Hall|]. apply not_true_iff_false. intros HQ%Hsub; [|done]. congruence.
Qed.

Lemma retention_loop_prune ha hp clk secs batch budget rep db k :
  0 < secs → (∀ i j, (i ≤ j)%nat → clk i ≤ clk j) → 1 ≤ batch ≤ RETENTION_MAX_BATCH →
  log_wf (queue db) → rr_complete rep = true →
  ∃ rep' db' k',
    retention_loop (prune_run ha hp clk secs) budget batch rep (db, k) = (Ok rep', (db', k'))
    ∧ (rr_affected rep' + length (log_rows (queue db'))
       = rr_affected rep + length (log_rows (queue db)))%nat
    ∧ if rr_complete rep'
      then ∃ i, (k ≤ i)%nat ∧ log_rows (queue db') = pruned_at ha hp (clk i - duration_seconds secs) db
      else rr_affected rep' = (rr_affected rep + budget * Z.to_nat batch)%nat.
Proof.
  intros Hsecs Hclk Hb. revert rep db k. induction budget as [|budget IH]; intros rep db k Hwf Hrep; cbn.
  { eexists _, db, k. split; [done|]. cbn. split; [done|lia]. }
  unfold prune_run at 1. cbn.
  destruct (prune_finished_batch _ _ _ _ _ _) as [[n db1]|e] eqn:Hp; cbn.
  2: { unfold prune_finished_batch in Hp. destruct (Z.leb_spec secs 0); [lia|done]. }
  pose proof (λ c Hc, prune_batch_pruned ha hp _ secs batch db n db1 c Hb Hwf Hc Hp) as Hspec.
  cbn beta in Hspec. rewrite Nat.add_0_r in Hspec.
  destruct (Hspec _ (Z.le_refl _)) as (Hwf1 & _ & Hlen & Hle & Hshort).
  destruct (n =? 0)%nat eqn:Hn.
  { apply Nat.eqb_eq in Hn as ->. eexists _, db1, (S k). rewrite Hrep. split_and!; [done|lia|].
    exists k. split; [done|]. apply Hshort. lia. }
  destruct (Z.ltb_spec (Z.of_nat n) batch) as [Hlt|Hge].
  { eexists _, db1, (S k). rewrite Hrep. split_and!; [done|cbn; lia|]. exists k. split; [done|]. by apply Hshort. }
  edestruct (IH (mkRetentionReport (rr_affected rep + n) (rr_batches rep + 1)
                   (Nat.max (rr_largest_batch rep) n) (rr_complete rep)) db1 (S k))
    as (rep' & db' & k' & Hrun & Hcount & Hend); [done..|].
  exists rep', db', k'. cbn in Hcount, Hend. split_and!; [done|lia|].
  destruct (rr_complete rep'); [|lia]. destruct Hend as (i & Hi & ->). exists i. split; [lia|].
  apply Hspec. specialize (Hclk k i ltac:(lia)). lia.
Qed.

(** Bounded retention equals one unbounded DELETE.  A run of the
    driver over the supervisor queue never fails; the rows it reports are the
    rows that are gone; when it reports completion, the queue is what a single
    DELETE of every prunable row would have left at some reading of the clock
    during the run; and when it does not, it used its whole budget of full
    batches. *)
Theorem retention_equals_one_delete ha hp clk secs batch_size max_batches db :
  0 < secs → (∀ i j, (i ≤ j)%nat → clk i ≤ clk j) → log_wf (queue db) →
  ∃ rep db' k,
    run_retention_batches (prune_run ha hp clk secs) batch_size max_batches (db, 0%nat)
      = (Ok rep, (db', k))
    ∧ (rr_affected rep + length (log_rows (queue db')) = length (log_rows (queue db)))%nat
    ∧ if rr_complete rep
      then ∃ i, log_rows (queue db')
                = List.filter (λ r, negb (prunable ha hp (clk i - duration_seconds secs) db r))
                    (log_rows (queue db))
      else rr_affected rep = (max_batches * Z.to_nat (clamp_batch 1 RETENTION_MAX_BATCH batch_size))%nat.
Proof.
  intros Hsecs Hclk Hwf. unfold run_retention_batches.
  destruct (retention_loop_prune ha hp clk secs (clamp_batch 1 RETENTION_MAX_BATCH batch_size) max_batches
              (mkRetentionReport 0 0 0 true) db 0) as (rep & db' & k & Hrun & Hn & Hend);
    [done..|unfold clamp_batch, RETENTION_MAX_BATCH; lia|done|done|].
  exists rep, db', k. split_and!; [done|done|]. cbn in Hend.
  destruct (rr_complete rep); [|done]. destruct Hend as (i & _ & Hi). by exists i.
Qed.

(** Pruning takes nothing that still has to reach its reader: a row it may
    delete was pulled, or its prompt was delivered, or its reminder has a row of
    the prompt queue. *)
Lemma prunable_was_delivered ha hp cutoff db r :
  prunable ha hp cutoff db r = true →
  match sq_transition_key r with
  | Some _ => is_Some (sq_prompt_delivered_at r)
  | None => is_Some (sq_processed_at r)
            ∨ ∃ id p, sqlite_json_extract "reminder_id" (sq_payload r) = Some id
                ∧ p ∈ log_rows (db_prompts db)
                ∧ pq_dedupe_key p = Some ("reminder-fired:" +:+ sql_text id)
  end.
Proof.
  unfold prunable, finished_row, pending_row. intros [_ H]%andb_true_iff.
  destruct (sq_transition_key r) as [key|].
  - bool_to_prop. by destruct (sq_prompt_delivered_at r).
  - apply orb_true_iff in H as [H|H]; [left; by destruct (sq_processed_at r)|right].
    apply andb_true_iff in H as [_ H]. unfold reminder_delivered in H.
    destruct (sqlite_json_extract _ _) as [id|]; [|done].
    apply existsb_exists in H as (p & Hp%list_elem_of_In & Hk%bool_decide_eq_true). by exists id, p.
Qed.
End steps.
