(* ===== verification/PromptQueueSpec.v ===== *)
(** * What the prompt queue promises

    [prompt_le] is how a row may change, [recorded] what a settled row has;
    [receipt_le] is how a receipt may change while nothing releases it.
    [prompt_step] and [handling_step] are what an operation does in these terms, and
    every operation of the queue is shown to be one. *)

From S2P Require Import Prelude Logs Enums Db SupervisorQueue SupervisorQueueSpec PromptTypes PromptLanes PromptNotices PromptQueue.

(** ** Rows *)
Implicit Types (db : Db) (r : PromptRow).
#[local] Arguments DeliveryStage_parse : simpl never.

Definition row_stage r : option DeliveryStage :=
  match pq_highest_stage r with None => Some DeliveryStage_Enqueued | Some s => DeliveryStage_parse s end.
Definition row_rank r : Z := default 0 (DeliveryStage_rank <$> row_stage r).
Abbreviation settled r := (3 ≤ row_rank r).

(** Mail that was suppressed, or that its recipient acknowledged *)
Definition withdrawn r : Prop :=
  is_Some (pq_processed_at r)
  ∧ (pq_acked_at r = None ∧ pq_highest_stage r = Some "suppressed"
     ∨ is_Some (pq_acked_at r) ∧ pq_acked_via r = Some "explicit_ack").

Definition prompt_le r r' : Prop :=
  pq_target r' = pq_target r ∧ (pq_dedupe_key r' = pq_dedupe_key r ∨ pq_dedupe_key r' = None)
  ∧ (is_Some (pq_processed_at r) → is_Some (pq_processed_at r'))
  ∧ (∀ t, pq_transport_delivered_at r = Some t → pq_transport_delivered_at r' = Some t)
  ∧ (is_Some (pq_acked_at r) → is_Some (pq_acked_at r'))
  ∧ pq_delivery_attempts r ≤ pq_delivery_attempts r'
  ∧ (settled r → settled r') ∧ (withdrawn r → withdrawn r').
#[export] Instance prompt_le_preorder : PreOrder prompt_le.
Proof.
  split.
  - intros r. unfold prompt_le. split_and!; auto. lia.
  - intros a b d Hab Hbd. unfold prompt_le in *. destruct_and!. split_and!; [congruence|destruct_or?; (left; congruence) || (right; congruence)|auto|auto|auto|lia|auto|auto].
Qed.

(** What a settled row has: it is processed; a delivered one has the instant of
    its delivery and, when it is addressed to one recipient, the recipient's own
    record. *)
Definition recorded (transport : gmap (Z * string) TransportRow) r : Prop :=
  (row_rank r = 3 → is_Some (pq_processed_at r))
  ∧ (row_stage r = Some DeliveryStage_Delivered →
     is_Some (pq_transport_delivered_at r)
     ∧ (pq_target r ≠ "all_workers" → is_Some (transport !! (pq_id r, pq_target r)))).
Abbreviation transports db := (pt_transport (db_prompt_receipts db)).
Definition all_recorded db : Prop := ∀ r, r ∈ log_rows (db_prompts db) → recorded (transports db) r.

Definition prompt_step db db' : Prop :=
  log_wf (db_prompts db) →
  log_wf (db_prompts db') ∧ log_evolves prompt_le (db_prompts db) (db_prompts db')
  ∧ (all_recorded db → all_recorded db').
#[export] Instance prompt_step_preorder : PreOrder prompt_step.
Proof.
  split; [intros a Hwf; by split_and!|]. intros a b d Hab Hbd Hwf. destruct (Hab Hwf) as (Hwb & Hb & Hrb).
  destruct (Hbd Hwb) as (Hwd & Hd & Hrd). split_and!; [done|by etrans|auto].
Qed.

Definition same_prompts db db' : Prop :=
  db_prompts db' = db_prompts db ∧ transports db' = transports db.
Lemma prompt_step_same db db' : same_prompts db db' → prompt_step db db'.
Proof.
  intros [Hp Ht] Hwf. unfold all_recorded. rewrite Hp, Ht. by split_and!.
Qed.

(** An update of rows, each of which moves on *)
Definition row_step r r' : Prop :=
  pq_id r' = pq_id r ∧ prompt_le r r' ∧ ∀ t, recorded t r → recorded t r'.
Lemma recorded_mono t t' r : t ⊆ t' → recorded t r → recorded t' r.
Proof.
  intros Ht [H1 H2]. split; [done|]. intros Hs. destruct (H2 Hs) as [? H3]. split; [done|].
  intros Hne. destruct (H3 Hne) as [x Hx]. exists x. by eapply lookup_weaken.
Qed.
Lemma prompt_step_rows P f db db' :
  db_prompts db' = log_update P f (db_prompts db) → transports db ⊆ transports db' →
  (∀ r, pq_id (f r) = pq_id r) →
  (log_wf (db_prompts db) → ∀ r, r ∈ log_rows (db_prompts db) → P r = true →
     prompt_le r (f r) ∧ (recorded (transports db) r → recorded (transports db') (f r))) →
  prompt_step db db'.
Proof.
  intros Hdb Ht Hf HP Hwf. unfold all_recorded. rewrite Hdb. split_and!; [by apply log_wf_update| |].
  - split; [done|]. intros r' (r & Hr & ->)%elem_of_log_update. right. exists r.
    destruct (P r) eqn:HPr; [|done]. split_and!; [done|symmetry; apply Hf|by apply HP].
  - intros Hrec r' (r & Hr & ->)%elem_of_log_update.
    destruct (P r) eqn:HPr; [apply HP; auto|]. eapply recorded_mono, Hrec; done.
Qed.
Lemma prompt_step_update P f db :
  (∀ r, pq_id (f r) = pq_id r) →
  (log_wf (db_prompts db) → ∀ r, r ∈ log_rows (db_prompts db) → P r = true → row_step r (f r)) →
  prompt_step db (update_prompts P f db).
Proof.
  intros Hf HP. apply (prompt_step_rows P f); [done..|]. intros Hwf r Hr HPr.
  destruct (HP Hwf r Hr HPr) as (_ & Hle & Hrec). split; [done|apply Hrec].
Qed.

(** Rows that keep their stage, target and reason *)
Lemma row_step_quiet r r' :
  pq_id r' = pq_id r → pq_target r' = pq_target r →
  pq_dedupe_key r' = pq_dedupe_key r ∨ pq_dedupe_key r' = None →
  (is_Some (pq_processed_at r) → is_Some (pq_processed_at r')) →
  pq_transport_delivered_at r' = pq_transport_delivered_at r →
  pq_highest_stage r' = pq_highest_stage r → pq_delivery_attempts r ≤ pq_delivery_attempts r' →
  (is_Some (pq_acked_at r) → is_Some (pq_acked_at r')) → (withdrawn r → withdrawn r') → row_step r r'.
Proof.
  intros Hid Ht Hk Hp Htd Hs Ha Hack Hc.
  assert (row_stage r' = row_stage r) as Hst by (unfold row_stage; by rewrite Hs).
  assert (row_rank r' = row_rank r) as Hrk by (unfold row_rank; by rewrite Hst).
  split_and!; [done| |].
  - unfold prompt_le. rewrite Hrk, Htd. split_and!; auto.
  - intros t [H1 H2]. unfold recorded. rewrite Hrk, Hst, Htd, Hid, Ht. auto.
Qed.
(** [withdrawn] when acknowledgement and stage stay *)
Lemma withdrawn_quiet r r' :
  (is_Some (pq_processed_at r) → is_Some (pq_processed_at r')) →
  pq_acked_at r' = pq_acked_at r → pq_acked_via r' = pq_acked_via r →
  pq_highest_stage r' = pq_highest_stage r → withdrawn r → withdrawn r'.
Proof. intros Hp Ha Hv Hs [H1 H2]. unfold withdrawn. rewrite Ha, Hv, Hs. auto. Qed.
Ltac quiet := apply row_step_quiet; try done; try (by left); try (by apply withdrawn_quiet).

(** ** Stamps *)
Lemma parse_as_str st : DeliveryStage_parse (DeliveryStage_as_str st) = Some st.
Proof. by destruct st. Qed.

Lemma resolve_spec current proposed id next :
  resolve_stage_transition current proposed id = Ok next →
  DeliveryStage_rank current ≤ DeliveryStage_rank next ∧ (next = current ∨ next = proposed).
Proof.
  unfold resolve_stage_transition. intros H. repeat split_match; inv_ok; bool_to_prop; subst; auto with lia.
Qed.

(** The stage that a stamp reads is the row's. *)
Lemma read_stage_row id db r current :
  log_wf (db_prompts db) → r ∈ log_rows (db_prompts db) → pq_id r = id →
  read_highest_stage id db = Ok current → row_stage r = Some current.
Proof.
  intros Hwf Hr Hid. unfold read_highest_stage. rewrite (log_get_intro id _ r) by done. cbn.
  unfold row_stage. destruct (pq_highest_stage r) as [s|]; cbn; [|congruence].
  destruct (DeliveryStage_parse s); cbn; congruence.
Qed.

Section stage_row.
Context (now : Z) (current next : DeliveryStage) (opts : AtomicStampOpts) (r : PromptRow).
Abbreviation r' := (stage_row now current next opts r).

Lemma stage_row_stage : row_stage r' = Some next.
Proof. apply parse_as_str. Qed.
Lemma stage_row_rank : row_rank r' = DeliveryStage_rank next.
Proof. unfold row_rank. by rewrite stage_row_stage. Qed.
Lemma stage_row_processed : is_Some (pq_processed_at r) → is_Some (pq_processed_at r').
Proof. intros [t Ht]. unfold stage_row. cbn. rewrite Ht. by case_match. Qed.
Lemma stage_row_settles : DeliveryStage_rank next = 3 → is_Some (pq_processed_at r').
Proof.
  intros Hn. unfold stage_row. cbn.
  assert (bool_decide (next = DeliveryStage_Delivered) || DeliveryStage_is_terminal_non_delivery next
          || bool_decide (next = DeliveryStage_PartiallyDelivered) = true) as Hb by (by destruct next).
  destruct (ao_set_processed opts); cbn; [|rewrite Hb]; by destruct (pq_processed_at r).
Qed.
Lemma stage_row_pending :
  pq_processed_at r = None → ao_set_processed opts = false → DeliveryStage_rank next ≠ 3 →
  pq_processed_at r' = None.
Proof. intros Hp Ho Hn. unfold stage_row. cbn. rewrite Hp, Ho. by destruct next. Qed.
Lemma stage_row_transport t :
  pq_transport_delivered_at r = Some t → pq_transport_delivered_at r' = Some t.
Proof. intros Ht. unfold stage_row. cbn. rewrite Ht. by case_match. Qed.
Lemma stage_row_delivered : next = DeliveryStage_Delivered → is_Some (pq_transport_delivered_at r').
Proof. intros ->. unfold stage_row. cbn. by destruct (pq_transport_delivered_at r). Qed.

Lemma stage_row_le :
  row_stage r = Some current → DeliveryStage_rank current ≤ DeliveryStage_rank next →
  (withdrawn r → is_Some (pq_acked_at r) ∨ next = DeliveryStage_Suppressed) → prompt_le r r'.
Proof.
  intros Hst Hrank Hc. split_and!; try done; try (by left).
  - apply stage_row_processed.
  - apply stage_row_transport.
  - rewrite stage_row_rank. unfold row_rank at 1. rewrite Hst. cbn. lia.
  - intros Hr. split; [apply stage_row_processed, Hr|].
    destruct Hr as [? [[Hn Hs]|?]]; [|by right]. left. split; [done|].
    destruct Hc as [Hc| ->]; [by split; [done|left]|rewrite Hn in Hc; by destruct Hc|done].
Qed.
Lemma stage_row_recorded t :
  (next = DeliveryStage_Delivered → pq_target r ≠ "all_workers" → is_Some (t !! (pq_id r, pq_target r))) →
  recorded t r'.
Proof.
  intros Ht. split; [rewrite stage_row_rank; apply stage_row_settles|].
  rewrite stage_row_stage. intros [= Hn]. split; [by apply stage_row_delivered|apply Ht, Hn].
Qed.
End stage_row.

(** ** Stamps and notices on the tables *)
Lemma record_transport_spec now id db :
  let db' := record_transport now id db in
  db_prompts db' = db_prompts db ∧ transports db ⊆ transports db'
  ∧ pt_seen (db_prompt_receipts db') = pt_seen (db_prompt_receipts db)
  ∧ ∀ r, log_get id (db_prompts db) = Some r → pq_target r ≠ "all_workers" →
      is_Some (transports db' !! (id, pq_target r)).
Proof.
  cbn zeta. unfold record_transport. destruct (log_get id (db_prompts db)) as [r|] eqn:Hg; [|by split_and!].
  destruct (String.eqb_spec (pq_target r) "all_workers") as [Ht|Ht].
  { split_and!; [done..|]. by intros ? [= <-]. }
  cbn. destruct (pt_transport (db_prompt_receipts db) !! (id, pq_target r)) as [x|] eqn:Hx.
  - split_and!; [done..|]. intros ? [= <-] _. by rewrite Hx.
  - split_and!; [done|by apply insert_subseteq|done|]. intros ? [= <-] _. by rewrite lookup_insert_eq.
Qed.

(** What a statement keeps: the receipts, and of every row what [E] says *)
Abbreviation receipts db := (pt_seen (db_prompt_receipts db)).
Definition frame (E : relation PromptRow) db db' : Prop :=
  receipts db' = receipts db ∧ log_step E (db_prompts db) (db_prompts db').
#[export] Instance frame_preorder E `{!PreOrder E} : PreOrder (frame E).
Proof.
  split; [by split|]. intros a b d [H1 H2] [H3 H4]. split; [congruence|by etrans].
Qed.
Lemma frame_mono (E F : relation PromptRow) db db' :
  (∀ r r', E r r' → F r r') → frame E db db' → frame F db db'.
Proof. intros H [? ?]. split; [done|by eapply log_step_mono]. Qed.
Definition same_attempts r r' : Prop := pq_delivery_attempts r' = pq_delivery_attempts r.
#[export] Instance same_attempts_preorder : PreOrder same_attempts.
Proof. split; [done|]. unfold same_attempts. intros a b d ??. congruence. Qed.
Abbreviation stamp_frame := (frame same_attempts).
(** A notice changes text only. *)
Definition same_but_text r r' : Prop := ∃ p s, r' = r <| pq_prompt := p |> <| pq_summary := s |>.
#[export] Instance same_but_text_preorder : PreOrder same_but_text.
Proof.
  split; [intros r; exists (pq_prompt r), (pq_summary r); by destruct r|].
  intros a b d (? & ? & ->) (p & s & ->). by exists p, s.
Qed.
Abbreviation notice_frame := (frame same_but_text).
Lemma notice_stamp_frame db db' : notice_frame db db' → stamp_frame db db'.
Proof. apply frame_mono. by intros r r' (? & ? & ->). Qed.

Lemma insert_notice_spec sender notice now session summary key kind db db' :
  insert_notice sender notice now session summary key kind db = Ok db' →
  prompt_step db db' ∧ notice_frame db db'.
Proof.
  unfold insert_notice. intros H. apply bind_Ok in H as ([id q] & Hins & [= <-]).
  destruct (existsb _ _); [done|].
  split; [|split; [done|by apply (log_step_insert same_but_text) in Hins]]. intros Hwf.
  edestruct (log_step_insert prompt_le) as [Hw Hev]; [|exact Hins|exact Hwf|]; [done|].
  split_and!; [done..|]. intros Hrec r. cbn. apply log_insert_Ok in Hins as (_ & _ & ->).
  intros [Hr | ->%list_elem_of_singleton]%elem_of_app; [by apply Hrec|done].
Qed.

Lemma fold_notice_step id text summary db :
  let db' := db <| db_prompts ::= log_update (by_id id) (λ r, r <| pq_prompt := text |> <| pq_summary := summary |>) |> in
  prompt_step db db' ∧ notice_frame db db'.
Proof.
  split; [|split; [done|apply (log_step_update same_but_text); [done|]; intros r _; by eexists _, _]].
  apply prompt_step_update; [done|]. intros _ r _ _. quiet.
Qed.

Lemma abandonment_body_spec now sender session notice summary key operator digest n db db' :
  insert_abandonment_body_in_tx now sender session notice summary key operator digest n db = Ok db' →
  prompt_step db db' ∧ notice_frame db db'.
Proof.
  unfold insert_abandonment_body_in_tx. intros H. destruct (if operator then _ else _) as [class_key prefix].
  destruct (head _) as [latest|]; [|by eapply insert_notice_spec].
  destruct (notice_unread db latest); [injection H as <-; apply fold_notice_step|].
  destruct (negb operator); [by eapply insert_notice_spec|].
  destruct (existsb _ _); [by injection H as <-|by eapply insert_notice_spec].
Qed.

Section stamps.
Context (has_agents : bool).

Lemma notify_abandoned_spec now id db db' :
  notify_abandoned_sender_in_tx has_agents now id db = Ok db' → prompt_step db db' ∧ notice_frame db db'.
Proof.
  unfold notify_abandoned_sender_in_tx. destruct (abandoned_sender_notice_in_tx _ _) as [notice|]; [|by intros [= <-]].
  destruct (an_recovery_content notice); [apply insert_notice_spec|apply abandonment_body_spec].
Qed.
Lemma notify_peer_send_abandoned_spec clk agent name session outbox recipient reason db x db' :
  notify_peer_send_abandoned has_agents clk agent name session outbox recipient reason db = Ok (x, db') →
  prompt_step db db' ∧ notice_frame db db'.
Proof.
  unfold notify_peer_send_abandoned. destruct (abandonment_recipient_in_tx _ _ _ _) as [[? ?] ?].
  intros (db1 & H & [= _ <-])%bind_Ok. by eapply abandonment_body_spec.
Qed.

(** The stage that a stamp may propose: one short of [AssumedSeen], the row's own,
    or any one when the row is acknowledged *)
Definition acked_id (id : Z) db : Prop :=
  ∀ r, r ∈ log_rows (db_prompts db) → pq_id r = id → is_Some (pq_acked_at r).
Definition may_propose (id : Z) (proposed : DeliveryStage) db : Prop :=
  (DeliveryStage_rank proposed <=? 3) = true ∨ read_highest_stage id db = Ok proposed ∨ acked_id id db.
(** Rows of other ids keep all but their text. *)
Definition elsewhere (id : Z) r r' : Prop := pq_id r' = pq_id r ∧ (pq_id r = id ∨ same_but_text r r').
#[export] Instance elsewhere_preorder id : PreOrder (elsewhere id).
Proof.
  split; [intros r; split; [done|by right]|]. intros a b d [Hi Ha] [Hi' Hb]. split; [congruence|].
  destruct Ha as [?|Ha]; [by left|]. destruct Hb as [?|Hb]; [left; congruence|right; by etrans].
Qed.
Lemma text_elsewhere id r r' : same_but_text r r' → elsewhere id r r'.
Proof. intros H. split; [by destruct H as (? & ? & ->)|by right]. Qed.

Lemma update_elsewhere id f db :
  (∀ r, pq_id (f r) = pq_id r) → frame (elsewhere id) db (update_prompts (by_id id) f db).
Proof.
  intros Hf. split; [done|]. apply log_step_update; [by apply elsewhere_preorder|done|]. intros r Hr%Z.eqb_eq. split; [done|by left].
Qed.

(** The write of a stamp, before the notice of an abandoned row *)
Lemma stamp_write_spec now id current next opts db :
  let db1 := update_prompts (by_id id) (stage_row now current next opts) db in
  let db2 := if bool_decide (next = DeliveryStage_Delivered) then record_transport now id db1 else db1 in
  (∀ r, r ∈ log_rows (db_prompts db) → pq_id r = id → log_wf (db_prompts db) →
     row_stage r = Some current ∧ (withdrawn r → is_Some (pq_acked_at r) ∨ next = DeliveryStage_Suppressed)) →
  DeliveryStage_rank current ≤ DeliveryStage_rank next →
  db_prompts db2 = db_prompts db1 ∧ prompt_step db db2 ∧ stamp_frame db db2 ∧ frame (elsewhere id) db db2.
Proof.
  cbn zeta. intros Hrows Hrank. set (db1 := update_prompts _ _ db).
  set (db2 := if bool_decide _ then _ else _).
  assert (db_prompts db2 = db_prompts db1) as Hp2.
  { unfold db2. destruct (bool_decide (next = DeliveryStage_Delivered)); [apply record_transport_spec|done]. }
  pose proof (record_transport_spec now id db1) as (_ & Htt & Hts & Htr).
  assert (receipts db2 = receipts db) as Hr2.
  { unfold db2. destruct (bool_decide (next = DeliveryStage_Delivered)); [exact Hts|done]. }
  split_and!; [done| | |].
  - apply (prompt_step_rows (by_id id) (stage_row now current next opts)); [exact Hp2|..|done|].
    + unfold db2. by destruct (bool_decide (next = DeliveryStage_Delivered)).
    + intros Hwf r Hr Hid%Z.eqb_eq. destruct (Hrows r Hr Hid Hwf) as [Hst Hw]. split; [by apply stage_row_le|].
      intros _. apply stage_row_recorded. intros -> Ht. unfold db2. rewrite bool_decide_true by done.
      assert (log_get id (db_prompts db1) = Some (stage_row now current DeliveryStage_Delivered opts r)) as Hg.
      { apply log_get_intro; [by apply log_wf_update| |done]. apply elem_of_log_update. exists r.
        split; [done|]. unfold by_id. by rewrite (proj2 (Z.eqb_eq _ _) Hid). }
      specialize (Htr _ Hg Ht). unfold row_id, PromptRow_id in Hid. by rewrite Hid.
  - split; [done|]. rewrite Hp2. by apply (log_step_update same_attempts).
  - split; [done|]. rewrite Hp2. by apply (update_elsewhere id (stage_row now current next opts) db).
Qed.

(** A stamp is a step that keeps the receipts. *)
Lemma stamp_spec_at now id proposed opts db db' :
  may_propose id proposed db →
  atomic_stage_stamp_in_tx has_agents now id proposed opts db = Ok db' →
  prompt_step db db' ∧ stamp_frame db db' ∧ frame (elsewhere id) db db'.
Proof.
  intros Hp. unfold atomic_stage_stamp_in_tx. intros (current & Hcur & H)%bind_Ok.
  destruct (shutdown_cancelled id current proposed db) eqn:Hsc; [by injection H as <-|].
  apply bind_Ok in H as (next & Hres & H). pose proof (resolve_spec _ _ _ _ Hres) as [Hrank Hnext].
  destruct (stamp_write_spec now id current next opts db) as (Hp2 & Hs2 & Hf2 & He2); [|done|].
  { intros r Hr Hid Hwf. pose proof (read_stage_row id db r current Hwf Hr Hid Hcur) as Hst. split; [done|].
    intros [_ [[_ Hsup]|[Ha _]]]; [|by left].
    unfold row_stage in Hst. rewrite Hsup in Hst.
    assert (Some DeliveryStage_Suppressed = Some current) as [= <-] by exact Hst.
    destruct Hnext as [->|Hnp]; [by right|]. subst next.
    destruct Hp as [Hp|[Hp|Hp]]; [right; by destruct proposed|right; congruence|left; by apply (Hp r)]. }
  set (db2 := if bool_decide (next = DeliveryStage_Delivered) then _ else _) in *.
  destruct (bool_decide (next = DeliveryStage_Abandoned)); [|by injection H as <-].
  apply notify_abandoned_spec in H as [Hs Hr]. split_and!; [by etrans|..].
  - etrans; [done|by apply notice_stamp_frame].
  - etrans; [done|]. eapply frame_mono, Hr. apply text_elsewhere.
Qed.
Lemma stamp_spec now id proposed opts db db' :
  (DeliveryStage_rank proposed <=? 3) = true →
  atomic_stage_stamp_in_tx has_agents now id proposed opts db = Ok db' →
  prompt_step db db' ∧ stamp_frame db db'.
Proof. intros Hp H. destruct (stamp_spec_at now id proposed opts db db') as (? & ? & _); [by left|done..]. Qed.

(** The rows after a stamp of a row that is not terminal; a notice may follow. *)
Lemma stamp_rows now id proposed opts db db' r :
  log_wf (db_prompts db) → r ∈ log_rows (db_prompts db) → pq_id r = id → row_rank r ≠ 3 →
  atomic_stage_stamp_in_tx has_agents now id proposed opts db = Ok db' →
  ∃ current next db1, row_stage r = Some current ∧ (next = current ∨ next = proposed)
    ∧ db_prompts db1 = log_update (by_id id) (stage_row now current next opts) (db_prompts db)
    ∧ (if bool_decide (next = DeliveryStage_Abandoned)
       then prompt_step db1 db' ∧ stamp_frame db1 db' else db' = db1).
Proof.
  intros Hwf Hr Hid Hrank. unfold atomic_stage_stamp_in_tx. intros (current & Hcur & H)%bind_Ok.
  pose proof (read_stage_row id db r current Hwf Hr Hid Hcur) as Hst.
  destruct (shutdown_cancelled id current proposed db) eqn:Hsc.
  { exfalso. unfold shutdown_cancelled in Hsc. bool_to_prop. subst current. unfold row_rank in Hrank.
    by rewrite Hst in Hrank. }
  apply bind_Ok in H as (next & [_ Hnext]%resolve_spec & H).
  set (db1 := update_prompts (by_id id) (stage_row now current next opts) db) in *.
  exists current, next, (if bool_decide (next = DeliveryStage_Delivered) then record_transport now id db1 else db1).
  split_and!; [done|done| |].
  - destruct (bool_decide (next = DeliveryStage_Delivered)); [apply (record_transport_spec now id db1)|done].
  - destruct (bool_decide (next = DeliveryStage_Abandoned)); [|by injection H as <-].
    apply notify_abandoned_spec in H as [? ?]. split; [done|by apply notice_stamp_frame].
Qed.
End stamps.

(** ** Receipts *)
Abbreviation claimable s := (rs_source s = Some "transport_delivered").
Definition receipt_le (s s' : SeenRow) : Prop :=
  ¬ claimable s →
  ¬ claimable s' ∧ (rs_source s' = Some "transport_claimed" →
                    rs_source s = Some "transport_claimed" ∧ rs_seen_at s' = rs_seen_at s).
#[export] Instance receipt_le_preorder : PreOrder receipt_le.
Proof.
  split; [by intros s Hs|]. intros a b d Hab Hbd Ha. destruct (Hab Ha) as [Hb Hab'].
  destruct (Hbd Hb) as [Hd Hbd']. split; [done|]. intros Hs. destruct (Hbd' Hs) as [Hs' Ht].
  destruct (Hab' Hs') as [Hs'' Ht']. split; [done|congruence].
Qed.
Definition receipts_le (seen seen' : gmap (Z * string) SeenRow) : Prop :=
  ∀ k s, seen !! k = Some s → ∃ s', seen' !! k = Some s' ∧ receipt_le s s'.
#[export] Instance receipts_le_preorder : PreOrder receipts_le.
Proof.
  split; [intros seen k s Hs; by exists s|]. intros a b d Ha Hb k s Hs.
  destruct (Ha k s Hs) as (s1 & Hs1 & Hle1). destruct (Hb k s1 Hs1) as (s2 & Hs2 & Hle2).
  exists s2. split; [done|by etrans].
Qed.
Abbreviation receipts_kept db db' := (receipts_le (receipts db) (receipts db')).
Lemma receipts_kept_same db db' : receipts db' = receipts db → receipts_kept db db'.
Proof. by intros ->. Qed.

Definition handling_step db db' : Prop := prompt_step db db' ∧ receipts_kept db db'.
#[export] Instance handling_step_preorder : PreOrder handling_step.
Proof.
  split; [by split|]. intros a b d [Hab Ha] [Hbd Hb]. split; by etrans.
Qed.
Lemma handling_frame db db' : prompt_step db db' ∧ stamp_frame db db' → handling_step db db'.
Proof. intros (? & ? & _). split; [done|by apply receipts_kept_same]. Qed.
Lemma notify_peer_send_abandoned_step has_agents clk agent name session outbox recipient reason db x db' :
  notify_peer_send_abandoned has_agents clk agent name session outbox recipient reason db = Ok (x, db') →
  handling_step db db'.
Proof.
  intros [? ?]%notify_peer_send_abandoned_spec. apply handling_frame. split; [done|by apply notice_stamp_frame].
Qed.
Lemma handling_same db db' : prompt_step db db' ∧ receipts db' = receipts db → handling_step db db'.
Proof. intros [? ?]. split; [done|by apply receipts_kept_same]. Qed.
Lemma handling_update P f db : prompt_step db (update_prompts P f db) → handling_step db (update_prompts P f db).
Proof. intros H. by apply handling_same. Qed.
Lemma handling_seen f db : receipts_le (receipts db) (f (receipts db)) → handling_step db (on_seen f db).
Proof. intros H. split; [by apply prompt_step_same|done]. Qed.

Lemma from_source_true src s : from_source src s = true ↔ rs_source s = Some (SurfacingSource_as_str src).
Proof. apply bool_decide_eq_true. Qed.

Lemma handling_insert k s db :
  (∀ s0, receipts db !! k = Some s0 → receipt_le s0 s) → handling_step db (on_seen (<[k := s]>) db).
Proof.
  intros H. apply handling_seen. intros k' s' Hs'. destruct (decide (k' = k)) as [->|].
  - exists s. rewrite lookup_insert_eq. auto.
  - exists s'. by rewrite lookup_insert_ne.
Qed.
Lemma receipts_le_update P f seen :
  (∀ k s, P k s = true → receipt_le s (f s)) → receipts_le seen (sql_update P f seen).
Proof.
  intros H k s Hs. rewrite lookup_sql_update, Hs. cbn.
  eexists. split; [done|]. destruct (P k s) eqn:HP; [by eapply H|done].
Qed.
Lemma handling_upsert may now id recipient source db :
  (∀ s, ¬ claimable s → may s = true → source ≠ "transport_delivered" ∧ source ≠ "transport_claimed") →
  handling_step db (upsert_seen may now id recipient source db).2.
Proof.
  intros H. unfold upsert_seen, seen_of. destruct (receipts db !! (id, recipient)) as [s|] eqn:Hs.
  - destruct (may s) eqn:Hm; [|done]. cbn [snd]. apply handling_insert. rewrite Hs. intros ? [= <-] Hc.
    destruct (H s Hc Hm) as [H1 H2]. cbn. split; [congruence|]. intros [= ?]. done.
  - cbn [snd]. apply handling_insert. by rewrite Hs.
Qed.

(** ** Acknowledgement *)
Lemma log_update_twice (P Q : PromptRow → bool) f g (l : Log PromptRow) :
  (∀ r, P (f r) = P r) →
  log_update (λ r, P r && Q r) g (log_update P f l)
  = log_update P (λ r, if Q (f r) then g (f r) else f r) l.
Proof.
  intros Hf. unfold log_update. cbn. f_equal. rewrite <-list_fmap_compose. apply list_fmap_ext.
  intros i r _. cbn. destruct (P r) eqn:HP; [by rewrite Hf, HP|by rewrite HP].
Qed.

Section acks.
Context (has_agents : bool).

Lemma confirm_cases now id db :
  confirm_stage has_agents now id db = db
  ∨ ∃ current, read_highest_stage id db = Ok current
      ∧ confirm_stage has_agents now id db
        = update_prompts (by_id id) (stage_row now current DeliveryStage_Confirmed AtomicStampOpts_clear_reason) db.
Proof.
  unfold confirm_stage, atomic_stage_stamp_in_tx. destruct (read_highest_stage id db) as [current|]; [|by left].
  right. exists current. split; [done|]. cbn. unfold shutdown_cancelled.
  rewrite (bool_decide_true (DeliveryStage_Confirmed = _)), andb_false_r by done.
  assert (resolve_stage_transition current DeliveryStage_Confirmed id = Ok DeliveryStage_Confirmed) as ->
    by (by destruct current). done.
Qed.

Lemma confirmed_row_le now current r :
  row_stage r = Some current → (withdrawn r → is_Some (pq_acked_at r)) →
  prompt_le r (stage_row now current DeliveryStage_Confirmed AtomicStampOpts_clear_reason r).
Proof. intros Hs Hc. apply stage_row_le; [done|by destruct current|by left; auto]. Qed.
Lemma confirmed_row_recorded t now current r :
  recorded t (stage_row now current DeliveryStage_Confirmed AtomicStampOpts_clear_reason r).
Proof. by apply stage_row_recorded. Qed.

Lemma acked_row_withdrawn now r : is_Some (pq_processed_at r) → withdrawn (acked_row now r).
Proof. intros Hp. split; [done|by right]. Qed.
Lemma acked_row_step now r : row_step r (acked_row now r).
Proof. apply row_step_quiet; try done; try (by left). intros [Hp _]. by apply acked_row_withdrawn. Qed.

Lemma confirm_step now id db :
  (log_wf (db_prompts db) → ∀ r, r ∈ log_rows (db_prompts db) → pq_id r = id → is_Some (pq_acked_at r)) →
  handling_step db (confirm_stage has_agents now id db).
Proof.
  intros Hack. destruct (confirm_cases now id db) as [->|(current & Hcur & ->)]; [done|].
  apply handling_update, prompt_step_update; [done|]. intros Hwf r Hr Hid. unfold by_id in Hid. bool_to_prop.
  split_and!; [done| |].
  - apply confirmed_row_le; [by eapply read_stage_row|]. intros _. by apply Hack.
  - intros t _. apply confirmed_row_recorded.
Qed.

Lemma ack_prompt_step clk id db x db' :
  ack_prompt has_agents clk id db = Ok (x, db') → handling_step db db'.
Proof.
  intros [= _ <-]. destruct (confirm_cases (clk 1%nat) id db) as [->|(current & Hcur & ->)].
  { apply handling_update, prompt_step_update; [done|]. intros _ r _ _. apply acked_row_step. }
  apply handling_same. split; [|done].
  eapply (prompt_step_rows (by_id id));
    [by apply (log_update_twice (by_id id) (λ r, is_none (pq_acked_at r)))|done|by intros r; cbn beta; destruct (is_none _)|].
  intros Hwf r Hr Hid. unfold by_id in Hid. bool_to_prop.
  pose proof (read_stage_row id db r current Hwf Hr Hid Hcur) as Hst.
  cbn beta. set (r1 := stage_row _ _ _ _ r). assert (recorded (transports db) r1) as Hr1 by apply confirmed_row_recorded.
  destruct (is_none (pq_acked_at r1)) eqn:Hn.
  - destruct (acked_row_step (clk 0%nat) r1) as (_ & Hle & Hrec). split; [|intros _; by apply Hrec].
    unfold prompt_le in *. destruct_and! Hle.
    split_and!; try done; try (by left); try (by intros ?; apply stage_row_processed); try (by apply stage_row_transport).
    intros [Hp _]. apply acked_row_withdrawn, (stage_row_processed _ _ _ _ r Hp).
  - split; [|done]. apply confirmed_row_le; [done|]. intros _.
    change (pq_acked_at r1) with (pq_acked_at r) in Hn. by destruct (pq_acked_at r).
Qed.

Lemma ack_by_dedupe_key_step clk key db x db' :
  ack_by_dedupe_key has_agents clk key db = Ok (x, db') → handling_step db db'.
Proof.
  unfold ack_by_dedupe_key. destruct (head _); [|by intros [= _ <-]].
  intros ([u db1] & H & [= _ <-])%bind_Ok. by eapply ack_prompt_step.
Qed.

Lemma acknowledge_step clk id recipients reply db x db' :
  acknowledge_for_recipients has_agents clk id recipients reply db = Ok (x, db') → handling_step db db'.
Proof.
  unfold acknowledge_for_recipients. intros H. case_match; [done|].
  apply bind_Ok in H as (row & _ & H). case_match; [done|]. apply bind_Ok in H as (u & _ & H).
  set (db1 := db <| db_prompt_receipts ::= _ |>) in H.
  assert (handling_step db db1) as Hacks by (apply handling_same; split; [by apply prompt_step_same|done]).
  destruct (String.eqb _ "all_workers"); [by injection H as _ <-|]. injection H as _ <-.
  etrans; [exact Hacks|]. set (f := λ r, _ : PromptRow). set (db2 := update_prompts (by_id id) f db1).
  assert (∀ r, is_Some (pq_acked_at (f r))) as Hack by (intros r; unfold f; cbn; by destruct (pq_acked_at r)).
  etrans; [apply (handling_update (by_id id) f), prompt_step_update; [done|]|].
  - intros _ r _ _. unfold f. apply row_step_quiet; try done; try (by left); [intros _; apply Hack|].
    intros [Hp _]. split; [done|]. right. split; [apply Hack|done].
  - apply confirm_step. intros _ r (r0 & _ & ->)%elem_of_log_update Hid.
    destruct (by_id id r0) eqn:E; [apply Hack|]. unfold by_id in E. bool_to_prop. done.
Qed.
End acks.

(** ** The operations *)
Lemma pending_prompt_spec id db r :
  pending_prompt id db = Some r → r ∈ log_rows (db_prompts db) ∧ pq_id r = id ∧ pq_processed_at r = None.
Proof.
  unfold pending_prompt. intros H. assert (r ∈ log_select (λ r, by_id id r && is_none (pq_processed_at r))
    (db_prompts db)) as [Hr Hc]%elem_of_log_select.
  { destruct (log_select _ _); [done|]. injection H as ->. by left. }
  unfold by_id in Hc. bool_to_prop. by destruct (pq_processed_at r).
Qed.
Lemma pending_prompt_intro id db r :
  log_wf (db_prompts db) → r ∈ log_rows (db_prompts db) → pq_id r = id → pq_processed_at r = None →
  pending_prompt id db = Some r.
Proof.
  intros Hwf Hr Hid Hp. destruct (pending_prompt id db) as [r'|] eqn:Hq.
  - apply pending_prompt_spec in Hq as (Hr' & Hid' & _). f_equal.
    apply (log_wf_unique (db_prompts db)); [done..|]. unfold row_id, PromptRow_id. congruence.
  - exfalso. unfold pending_prompt in Hq.
    assert (r ∈ log_select (λ r, by_id id r && is_none (pq_processed_at r)) (db_prompts db)) as Hin.
    { apply elem_of_log_select. split; [done|]. unfold by_id, row_id, PromptRow_id.
      by rewrite Hp, Hid, Z.eqb_refl. }
    destruct (log_select _ _); [by apply elem_of_nil in Hin|done].
Qed.

Section operations.
Context (has_agents : bool).

Lemma stamp_handling now id proposed opts db db' :
  (DeliveryStage_rank proposed <=? 3) = true →
  atomic_stage_stamp_in_tx has_agents now id proposed opts db = Ok db' → handling_step db db'.
Proof. intros ? H. eapply handling_frame, stamp_spec; done. Qed.
Lemma atomic_stage_stamp_step clk id proposed opts db x db' :
  (DeliveryStage_rank proposed <=? 3) = true →
  atomic_stage_stamp has_agents clk id proposed opts db = Ok (x, db') → handling_step db db'.
Proof. intros ? (db1 & H & [= _ <-])%bind_Ok. by eapply stamp_handling. Qed.
Lemma mark_broadcast_outcome_step clk id attempted succeeded failed detail db x db' :
  mark_broadcast_outcome has_agents clk id attempted succeeded failed detail db = Ok (x, db') → handling_step db db'.
Proof.
  unfold mark_broadcast_outcome. destruct (_ =? 0); [by apply atomic_stage_stamp_step|].
  destruct (_ =? _); [by apply atomic_stage_stamp_step|].
  destruct (_ =? 0); by apply atomic_stage_stamp_step.
Qed.

Lemma implied_rank reason : (DeliveryStage_rank (PendingReason_implied_stage reason) <=? 3) = true.
Proof. by destruct reason. Qed.

Lemma record_pending_reason_step clk id reason detail db x db' :
  record_pending_reason has_agents clk id reason detail db = Ok (x, db') → handling_step db db'.
Proof.
  intros (db1 & H & [= _ <-])%bind_Ok. etrans; [eapply stamp_handling, H; apply implied_rank|].
  destruct (PendingReason_counts_as_delivery_attempt reason); [|done].
  apply handling_update, prompt_step_update; [done|]. intros _ r _ _.
  apply row_step_quiet; try done; try (by left); try (by apply withdrawn_quiet). cbn. lia.
Qed.

Lemma retry_rows_step now id proposed opts db db1 r attempts first next_at :
  (DeliveryStage_rank proposed <=? 3) = true →
  atomic_stage_stamp_in_tx has_agents now id proposed opts db = Ok db1 →
  pending_prompt id db = Some r → pq_delivery_attempts r ≤ attempts →
  handling_step db (update_prompts (by_id id) (retry_row attempts first next_at) db1).
Proof.
  intros Hp Hst (Hr & Hid & _)%pending_prompt_spec Ha.
  pose proof (stamp_handling _ _ _ _ _ _ Hp Hst) as [Hstep Hrec].
  destruct (stamp_spec has_agents _ _ _ _ _ _ Hp Hst) as (_ & _ & Hsame). split; [|by etrans; [exact Hrec|]].
  intros Hwf. revert Hwf. change (prompt_step db (update_prompts (by_id id) (retry_row attempts first next_at) db1)).
  intros Hwf. destruct (Hsame Hwf) as [Hwf1 Hev]. destruct (Hstep Hwf) as (_ & Hev1 & Hall).
  destruct (prompt_step_update (by_id id) (retry_row attempts first next_at) db1) as (Hwf2 & Hev2 & Hall2); [done| |done|].
  - intros _ r1 Hr1 Hid1. unfold by_id in Hid1. bool_to_prop.
    assert (same_attempts r r1) as Hsa.
    { apply (evolves_origin same_attempts (db_prompts db) (db_prompts db1)); [done..|].
      unfold row_id, PromptRow_id in *. congruence. }
    apply row_step_quiet; try done; try (by left); try (by apply withdrawn_quiet). cbn. rewrite Hsa. lia.
  - split_and!; [done|by etrans|auto].
Qed.

Lemma record_retry_step clk id reason detail db x db' :
  record_retry has_agents clk id reason detail db = Ok (x, db') → handling_step db db'.
Proof.
  unfold record_retry. destruct (pending_prompt id db) as [r|] eqn:Hr; [|by intros [= _ <-]].
  destruct (negb _) eqn:Hrange; [done|]. bool_to_prop.
  destruct (_ || _); intros (db1 & Hst & [= _ <-])%bind_Ok; (eapply retry_rows_step; [|exact Hst|exact Hr|unfold U32_MAX in *; lia]).
  - done.
  - apply implied_rank.
Qed.

Lemma select_for_targets_step clk targets session limit db x db' :
  select_for_targets has_agents clk targets session limit db = Ok (x, db') → handling_step db db'.
Proof.
  intros (peeked & _ & H)%bind_Ok. apply bind_Ok in H as ([[sel db1] i] & H & [= _ <-]).
  set (E := λ s s' : list QueuedPrompt * Db * nat, handling_step s.1.2 s'.1.2).
  assert (PreOrder E) by (split; [by intros s|intros a b d; unfold E; by etrans]).
  refine (try_fold_ind _ E _ _ _ _ H). intros row [[sel0 db0] i0] s' _ (db2 & Hst & [= <-])%bind_Ok.
  unfold E. cbn [fst snd]. by eapply stamp_handling, Hst.
Qed.

Lemma cancel_unread_step clk recipient session detail db x db' :
  cancel_unread_for_shutdown clk recipient session detail db = Ok (x, db') → handling_step db db'.
Proof.
  unfold cancel_unread_for_shutdown. destruct (_ || _); [done|]. intros (db1 & H & [= _ <-])%bind_Ok.
  refine (try_fold_ind _ handling_step _ _ _ _ H). intros id s s' _ (st & _ & [= <-])%bind_Ok.
  apply handling_update, prompt_step_update; [done|]. intros _ r _ _. split_and!; [done| |].
  - split_and!; try done; try (by left); [by intros [t Ht]; cbn; rewrite Ht|].
    intros [[t Ht] [[Ha _]|Ha]]; (split; [by cbn; rewrite Ht|]); [by left|by right].
  - intros t _. split; [intros _; cbn; by destruct (pq_processed_at r)|]. done.
Qed.
End operations.

(** Updates that leave stage, processing and acknowledgement alone *)
Lemma handling_quiet P f db :
  (∀ r, row_step r (f r)) → handling_step db (update_prompts P f db).
Proof. intros H. apply handling_update, prompt_step_update; [apply H|auto]. Qed.

(** The UPDATE of a poll, whatever happened since its SELECT *)
Lemma mark_polled_step now prompts db : handling_step db (mark_polled now prompts db).
Proof.
  unfold mark_polled. destruct prompts as [|q rest]; [done|]. apply handling_quiet. intros r.
  apply row_step_quiet; try done; try (by left). by apply withdrawn_quiet.
Qed.
Lemma mark_prompt_processed_step clk id db x db' :
  mark_prompt_processed clk id db = Ok (x, db') → handling_step db db'.
Proof.
  intros [= _ <-]. apply handling_quiet. intros r. apply row_step_quiet; try done; try (by left). by apply withdrawn_quiet.
Qed.
Lemma rewrite_pending_step id prompt summary db x db' :
  rewrite_pending id prompt summary db = Ok (x, db') → handling_step db db'.
Proof. intros [= _ <-]. apply handling_quiet. intros r. quiet. Qed.
Lemma release_received_dedupe_keys_step target session prefix db x db' :
  release_received_dedupe_keys target session prefix db = Ok (x, db') → handling_step db db'.
Proof. intros [= _ <-]. apply handling_quiet. intros r. quiet. by right. Qed.
Lemma release_stranded_supervisor_digest_step id db x db' :
  release_stranded_supervisor_digest id db = Ok (x, db') → handling_step db db'.
Proof. intros [= _ <-]. apply handling_quiet. intros r. quiet. Qed.
Lemma record_wake_attempt_step clk id attempt detail db x db' :
  record_wake_attempt clk id attempt detail db = Ok (x, db') → handling_step db db'.
Proof. intros [= _ <-]. apply handling_quiet. intros r. quiet. Qed.
Lemma record_wake_gate_decline_step clk id detail db x db' :
  record_wake_gate_decline clk id detail db = Ok (x, db') → handling_step db db'.
Proof. intros [= _ <-]. apply handling_quiet. intros r. quiet. Qed.
Lemma record_deferred_inbox_step clk id bytes db x db' :
  record_deferred_inbox clk id bytes db = Ok (x, db') → handling_step db db'.
Proof. intros [= _ <-]. apply handling_quiet. intros r. quiet. Qed.

Lemma observe_body_step id recipient db : handling_step db (observe_body id recipient db).
Proof. split; [by apply prompt_step_same|by apply receipts_kept_same]. Qed.
(** A receipt and the observation it is counted by *)
Lemma observed_upsert_step may now id recipient source (count : bool → bool) db :
  (∀ s, ¬ claimable s → may s = true → source ≠ "transport_delivered" ∧ source ≠ "transport_claimed") →
  let '(changed, db1) := upsert_seen may now id recipient source db in
  handling_step db (if count changed then observe_body id recipient db1 else db1).
Proof.
  intros H. pose proof (handling_upsert may now id recipient source db H) as Hs.
  destruct (upsert_seen _ _ _ _ _ db) as [changed db1]. cbn [snd] in Hs.
  destruct (count changed); [|done]. etrans; [exact Hs|apply observe_body_step].
Qed.
Lemma record_recipient_surfaced_step clk id recipient source db x db' :
  record_recipient_surfaced clk id recipient source db = Ok (x, db') → handling_step db db'.
Proof.
  unfold record_recipient_surfaced. destruct (str_is_empty _); [by intros [= _ <-]|]. intros H.
  match type of H with context [upsert_seen ?may ?now ?id ?rec ?src db] =>
    pose proof (observed_upsert_step may now id rec src (λ c, c && SurfacingSource_is_surfaced source) db) as Hs end.
  destruct (upsert_seen _ _ _ _ _ db) as [changed db1]. injection H as _ <-. apply Hs.
  intros s Hc [H|H]%orb_true_iff; apply andb_true_iff in H as [H1%from_source_true H2]; [done|].
  by apply orb_true_iff in H2 as [->%bool_decide_eq_true| ->%bool_decide_eq_true].
Qed.
Lemma record_transcript_consumed_step clk expected db x db' :
  record_transcript_consumed clk expected db = Ok (x, db') → handling_step db db'.
Proof.
  unfold record_transcript_consumed. destruct (queued_prompt _ _); [|by intros [= _ <-]].
  destruct (_ || _); [by intros [= _ <-]|]. intros H.
  match type of H with context [upsert_seen ?may ?now ?id ?rec ?src db] =>
    pose proof (observed_upsert_step may now id rec src (λ c, c) db) as Hs end.
  destruct (upsert_seen _ _ _ _ _ db) as [changed db1]. injection H as _ <-. by apply Hs.
Qed.
Lemma record_recipient_transport_delivered_step clk id recipient db x db' :
  record_recipient_transport_delivered clk id recipient db = Ok (x, db') → handling_step db db'.
Proof.
  unfold record_recipient_transport_delivered. destruct (str_is_empty _); [by intros [= _ <-]|].
  intros ([u db1] & H & [= _ <-])%bind_Ok. etrans; [eapply record_recipient_surfaced_step, H|].
  apply handling_seen, receipts_le_update. intros k s _ Hs. cbn. auto.
Qed.
Lemma claim_teams_body_fallback_step clk id recipient db x db' :
  claim_teams_body_fallback clk id recipient db = Ok (x, db') → handling_step db db'.
Proof.
  unfold claim_teams_body_fallback. destruct (seen_of id recipient db) as [s|] eqn:Hs; [|by intros [= _ <-]].
  destruct (_ && _); intros [= _ <-]; [|done]. apply handling_insert. unfold seen_of in Hs. rewrite Hs.
  intros ? [= <-] Hc. cbn. auto.
Qed.
Lemma release_teams_body_fallback_step id recipient db x db' :
  release_teams_body_fallback id recipient db = Ok (x, db') → handling_step db db'.
Proof.
  intros [= _ <-]. apply handling_seen. intros k s Hs. unfold sql_update_key.
  destruct (decide (k = (id, recipient))) as [->|]; [|exists s; by rewrite lookup_alter_ne].
  rewrite lookup_alter_eq, Hs. eexists. split; [done|]. intros Hc. cbn. auto.
Qed.
Lemma foldl_le {A S} (E : relation S) `{!PreOrder E} (f : S → A → S) l s :
  (∀ a s, E s (f s a)) → E s (foldl f s l).
Proof.
  intros Hf. revert s. induction l as [|a l IH]; intros s; cbn; [done|]. etrans; [apply Hf|apply IH].
Qed.
Lemma settle_polled_rows_step recipients rows db x db' :
  settle_polled_rows recipients rows db = Ok (x, db') → handling_step db db'.
Proof.
  intros [= _ <-]. apply handling_seen. apply (foldl_le receipts_le). intros row seen.
  apply (foldl_le receipts_le). intros recipient seen'. apply receipts_le_update. intros k s _ Hs. cbn. auto.
Qed.

(** The claim of a recipient's copy *)
Lemma claim_token_cases clk last id recipient db o last' db' :
  claim_recipient_transport_token clk last id recipient db = Ok (o, last', db') →
  last' = transport_claim_token (clk 0%nat) last
  ∧ match o with
    | None => db' = db
    | Some token =>
        token = last' ∧ (∀ s, seen_of id recipient db = Some s → claimable s)
        ∧ existsb (claimable_for id recipient db) (log_rows (db_prompts db)) = true
        ∧ (∃ s, seen_of id recipient db' = Some s ∧ rs_source s = Some "transport_claimed" ∧ rs_seen_at s = token)
        ∧ handling_step db db'
    end.
Proof.
  unfold claim_recipient_transport_token. destruct (str_is_empty _); [done|].
  destruct (negb (existsb _ _) || negb _) eqn:Hc; intros [= <- <- <-]; [done|]. bool_to_prop.
  split; [done|]. split_and!; [done| |done| |].
  - intros s Hs. rewrite Hs in *. by apply (from_source_true SurfacingSource_TransportDelivered).
  - unfold seen_of, on_seen, update_prompts. cbn. rewrite lookup_partial_alter_eq. eexists. split; [done|].
    by destruct (_ !! _).
  - etrans; [|apply handling_quiet; intros r; quiet]. apply handling_seen. intros k s Hs.
    destruct (decide (k = (id, recipient))) as [->|]; [|exists s; by rewrite lookup_partial_alter_ne].
    rewrite lookup_partial_alter_eq. eexists. split; [done|]. intros Hn. exfalso. apply Hn.
    unfold seen_of in *. rewrite Hs in *. by apply (from_source_true SurfacingSource_TransportDelivered).
Qed.

(** ** Releases and retention *)
Lemma on_seen_step f db : prompt_step db (on_seen f db).
Proof. by apply prompt_step_same. Qed.

Lemma prompt_step_delete P db db' :
  db_prompts db' = log_delete P (db_prompts db) →
  (∀ r, P r = false → transports db' !! (pq_id r, pq_target r) = transports db !! (pq_id r, pq_target r)) →
  prompt_step db db'.
Proof.
  intros Hp Ht Hwf. unfold all_recorded. rewrite Hp.
  destruct (log_step_delete prompt_le P (db_prompts db) Hwf) as [Hw Hev]. split_and!; [done..|].
  intros Hrec r [Hr HP]%elem_of_log_delete. destruct (Hrec r Hr) as [H1 H2]. split; [done|].
  by rewrite (Ht r HP).
Qed.
Lemma delete_prompt_trace_step id db : prompt_step db (delete_prompt_trace id db).
Proof.
  apply (prompt_step_delete (by_id id)); [done|]. intros r Hr. unfold by_id in Hr. bool_to_prop. cbn.
  rewrite lookup_sql_delete. destruct (pt_transport _ !! _); cbn; [|done].
  change (pq_id r ≠ id) in Hr. by rewrite (proj2 (Z.eqb_neq _ _) Hr).
Qed.

Section releases.
Context (has_agents : bool).

Lemma park_step clk id detail recheck_at db x db' :
  park_for_busy_recipient has_agents clk id detail recheck_at db = Ok (x, db') → prompt_step db db'.
Proof.
  unfold park_for_busy_recipient. destruct (log_select _ _) as [|r rest]; [by intros [= _ <-]|].
  intros (db1 & Hst & [= _ <-])%bind_Ok. apply stamp_handling in Hst as [Hst _]; [|done].
  etrans; [exact Hst|]. etrans; [|apply on_seen_step]. apply prompt_step_update; [done|]. intros _ r1 _ _. quiet.
Qed.
Lemma release_claim_step id recipient token db x db' :
  release_recipient_transport_claim id recipient token db = Ok (x, db') → prompt_step db db'.
Proof.
  unfold release_recipient_transport_claim. destruct (seen_of _ _ _); [|by intros [= _ <-]].
  destruct (_ && _); intros [= _ <-]; [apply on_seen_step|done].
Qed.

(** ** Aged rows *)
Lemma abandon_aged_step now reason detail id db :
  prompt_step db (update_prompts (λ r, by_id id r && is_none (pq_processed_at r))
                    (abandon_aged_row now reason detail) db).
Proof.
  apply prompt_step_update; [done|]. intros _ r _ Hc. bool_to_prop. split_and!; [done| |].
  - split_and!; try done; try (by left); [by intros [t Ht]; cbn; rewrite Ht|].
    intros [[t Ht] _]. by rewrite Ht in *.
  - intros t _. split; [intros _; cbn; by destruct (pq_processed_at r)|done].
Qed.
Lemma settle_aged_rows_step clk ids now existed unresolved db x db' :
  settle_aged_rows_in_tx has_agents clk ids now existed unresolved db = Ok (x, db') → prompt_step db db'.
Proof.
  unfold settle_aged_rows_in_tx. intros ([[ab db1] i] & H & [= _ <-])%bind_Ok.
  set (E := λ s s' : list Z * Db * nat, prompt_step s.1.2 s'.1.2).
  assert (PreOrder E) by (split; [by intros s|intros a b d; unfold E; by etrans]).
  refine (try_fold_ind _ E _ _ _ _ H). intros id [[ab0 db0] i0] s' _. unfold settle_aged_row.
  destruct (log_get id (db_prompts db0)) as [r|]; [|by intros [= <-]].
  destruct (surfaced_to_target db0 r).
  - intros (db2 & Hst & [= <-])%bind_Ok. unfold E. cbn [fst snd]. apply stamp_handling in Hst as [? _]; done.
  - destruct (if existed_in_session has_agents db0 r then _ else _) as [reason detail]. intros [= <-].
    apply abandon_aged_step.
Qed.
End releases.

Lemma prune_terminal_batch_step hs hd clk older batch db x db' :
  prune_terminal_batch hs hd clk older batch db = Ok (x, db') → prompt_step db db'.
Proof.
  unfold prune_terminal_batch. destruct (older <=? 0); [done|]. intros [= H].
  set (f := λ (s : nat * Db) id, _) in H. set (ids := prompt_prune_victims _ _ _ _ _) in H.
  assert (PreOrder (λ s s' : nat * Db, prompt_step s.2 s'.2)) by (split; [by intros s|intros a b d; by etrans]).
  pose proof (foldl_le (λ s s' : nat * Db, prompt_step s.2 s'.2) f ids (0%nat, db)) as Hf. rewrite H in Hf.
  apply Hf. intros id [n db0]. apply delete_prompt_trace_step.
Qed.
Lemma cleanup_old_prompts_step clk older db x db' :
  cleanup_old_prompts clk older db = Ok (x, db') → prompt_step db db'.
Proof. intros [= _ <-]. etrans; [|apply on_seen_step]. by eapply prompt_step_delete. Qed.
Lemma clear_prompts_step db x db' : clear_prompts db = Ok (x, db') → prompt_step db db'.
Proof. intros [= _ <-]. etrans; [|apply on_seen_step]. by eapply (prompt_step_delete (λ _, true)). Qed.
