(* ===== verification/PromptDrainSpec.v ===== *)
(** * What the inbox drains promise

    A drain is a step that keeps the receipts of every recipient.  What a drain
    hands over in full is receipted, so that no later drain and no selection of
    the daemon hands it over again; every row it selects is handed over, left
    unread or expired; a budget is kept; the status of an inbox is what a poll
    would take, up to broadcasts that the recipient acknowledged unread. *)

From S2P Require Import Prelude Logs Enums TaskTypes VerifierText Db Envelopes SupervisorQueue SupervisorQueueSpec PromptTypes PromptLanes PromptNotices PromptQueue PromptQueueSpec PromptDrain.

Implicit Types (db : Db) (r : PromptRow) (clk : Clock) (d : Drain).

(** The sources a drain writes *)
Definition drain_source (s : SurfacingSource) : Prop :=
  s = SurfacingSource_InboxPoll ∨ s = SurfacingSource_HookSurfaced.
(** A receipt that no drain and no daemon takes over *)
Definition read_receipt (o : option SeenRow) : Prop :=
  ∃ s, o = Some s ∧ ¬ claimable s ∧ rs_source s ≠ Some "transport_claimed".

Lemma read_receipt_kept seen seen' k :
  receipts_le seen seen' → read_receipt (seen !! k) → read_receipt (seen' !! k).
Proof.
  intros Hle (s & Hs & Hc & Hn). destruct (Hle k s Hs) as (s' & Hs' & Hss). exists s'. split; [done|].
  destruct (Hss Hc) as [Hc' Hcl]. split; [done|]. intros Ht. by apply Hn, Hcl.
Qed.

(** ** Statements of the drain *)
Section statements.
Context `{Host} (has_agents has_outbox_index : bool).

Lemma receipt_prompt_step seen_at d q db :
  drain_source (dr_source d) →
  db_prompts (receipt_prompt seen_at d q db) = db_prompts db
  ∧ handling_step db (receipt_prompt seen_at d q db).
Proof.
  intros Hd. unfold receipt_prompt. destruct (qd_reference_only q); [done|]. split.
  { unfold observe_body, upsert_seen. cbn. by repeat case_match. }
  etrans; [|apply observe_body_step]. apply handling_upsert. intros s _ _. by destruct Hd as [-> | ->].
Qed.
Lemma receipts_step seen_at d qs db :
  drain_source (dr_source d) →
  let db' := foldl (λ db q, receipt_prompt seen_at d q db) db qs in
  db_prompts db' = db_prompts db ∧ handling_step db db'.
Proof.
  intros Hd. revert db. induction qs as [|q qs IH]; intros db; [done|]. cbn.
  destruct (receipt_prompt_step seen_at d q db Hd) as [Hp Hs]. destruct (IH (receipt_prompt seen_at d q db)) as [Hp' Hs'].
  split; [congruence|by etrans].
Qed.

(** Rows that a drain may acknowledge: the stage is not that of withdrawn mail. *)
Definition unsuppressed (id : Z) db : Prop :=
  ∀ r, r ∈ log_rows (db_prompts db) → pq_id r = id → pq_highest_stage r ≠ Some "suppressed".
Lemma hook_ack_step seen_at q db :
  unsuppressed (qd_id q) db → handling_step db (hook_ack seen_at q db).
Proof.
  intros Hu. unfold hook_ack. destruct (_ || _); [done|]. apply handling_update, prompt_step_update; [done|].
  intros Hwf r Hr [Hid%Z.eqb_eq Ha]%andb_true_iff. apply row_step_quiet; try done; try (by left).
  intros [_ [[_ Hs]|[[t Ht] _]]]; [by destruct (Hu r Hr Hid)|]. by rewrite Ht in Ha.
Qed.
Lemma hook_ack_unsuppressed seen_at q db id : unsuppressed id db → unsuppressed id (hook_ack seen_at q db).
Proof.
  intros Hu. unfold hook_ack. destruct (_ || _); [done|]. intros r (r0 & Hr0 & ->)%elem_of_log_update.
  destruct (_ && _); intros Hid; by apply (Hu r0).
Qed.
Lemma hook_acks_step seen_at qs db :
  Forall (λ q, unsuppressed (qd_id q) db) qs →
  handling_step db (foldl (λ db q, hook_ack seen_at q db) db qs).
Proof.
  revert db. induction qs as [|q qs IH]; intros db; [done|]. intros [Hq Hqs]%Forall_cons. cbn.
  etrans; [by apply hook_ack_step|]. apply IH. eapply Forall_impl; [done|].
  intros q' Hq'. by apply hook_ack_unsuppressed.
Qed.

(** Rows of an id that are acknowledged stay so. *)
Definition acked_known (id : Z) db : Prop := id ≤ log_seq (db_prompts db) ∧ acked_id id db.
Lemma acked_known_step id db db' :
  log_wf (db_prompts db) → prompt_step db db' → acked_known id db → acked_known id db'.
Proof.
  intros Hwf Hs [Hid Ha]. destruct (Hs Hwf) as (_ & [Hseq Hev] & _). split; [lia|]. intros r' Hr' <-.
  destruct (Hev r' Hr') as [Hnew|(r & Hr & Hri & Hle)]; [unfold row_id, PromptRow_id in Hnew; lia|].
  destruct Hle as (_ & _ & _ & _ & Hack & _). by apply Hack, (Ha r).
Qed.

Lemma hook_ack_acked seen_at q db id : acked_id id db → acked_id id (hook_ack seen_at q db).
Proof.
  intros Ha. unfold hook_ack. destruct (_ || _); [done|]. intros r (r0 & Hr0 & ->)%elem_of_log_update.
  destruct (_ && _); [done|]. by apply Ha.
Qed.
Lemma hook_acks_acked seen_at qs db q :
  q ∈ qs → qd_reference_only q = false → qd_target q ≠ "all_workers" →
  acked_id (qd_id q) (foldl (λ db q, hook_ack seen_at q db) db qs).
Proof.
  intros Hq Hr Ht%String.eqb_neq. revert db. induction Hq as [q qs|q q' qs Hq IH]; intros db; cbn; [|by apply IH].
  assert (acked_id (qd_id q) (hook_ack seen_at q db)) as Ha.
  { unfold hook_ack. rewrite Hr, Ht. intros r (r0 & Hr0 & ->)%elem_of_log_update. unfold by_id.
    destruct (Z.eqb_spec (row_id r0) (qd_id q)) as [|Hne]; cbn; [|done].
    destruct (pq_acked_at r0) eqn:Ha; cbn; intros _; rewrite ?Ha; done. }
  revert Ha. generalize (hook_ack seen_at q db). clear. induction qs as [|q' qs IH]; intros db Ha; cbn; [done|].
  by apply IH, hook_ack_acked.
Qed.
Lemma hook_acks_seq seen_at qs db :
  log_seq (db_prompts (foldl (λ db q, hook_ack seen_at q db) db qs)) = log_seq (db_prompts db).
Proof.
  revert db. induction qs as [|q qs IH]; intros db; cbn; [done|]. rewrite IH. unfold hook_ack. by destruct (_ || _).
Qed.

(** ** Stamps of what was handed over *)
Lemma stamp_receipts now id proposed opts db db' :
  atomic_stage_stamp_in_tx has_agents now id proposed opts db = Ok db' → receipts db' = receipts db.
Proof.
  unfold atomic_stage_stamp_in_tx. intros (current & _ & H')%bind_Ok.
  destruct (shutdown_cancelled id current proposed db); [by injection H' as <-|].
  apply bind_Ok in H' as (next & _ & H').
  set (db1 := update_prompts (by_id id) (stage_row now current next opts) db) in *.
  assert (receipts (if bool_decide (next = DeliveryStage_Delivered) then record_transport now id db1 else db1)
          = receipts db) as Hr.
  { destruct (bool_decide (next = DeliveryStage_Delivered)); [apply (record_transport_spec now id db1)|done]. }
  destruct (bool_decide (next = DeliveryStage_Abandoned)); [|by injection H' as <-].
  apply notify_abandoned_spec in H' as [_ [-> _]]. done.
Qed.
Lemma poll_settled_kept P seen :
  receipts_le seen (sql_update P (λ s, s <| rs_poll_settled := Some "repeat reference rendered" |>) seen).
Proof. apply receipts_le_update. intros k s _ Hs. cbn. auto. Qed.

Lemma stamp_drained_kept t1 t2 d q db : receipts_kept db (stamp_drained has_agents t1 t2 d q db).
Proof.
  unfold stamp_drained. destruct (qd_reference_only q); [apply poll_settled_kept|].
  destruct (String.eqb _ _); [done|].
  destruct (atomic_stage_stamp_in_tx has_agents t1 _ _ _ db) as [db1|] eqn:H1; [|done].
  apply stamp_receipts in H1. destruct (hook_drain d); [|by apply receipts_kept_same].
  apply receipts_kept_same. rewrite <-H1.
  destruct (atomic_stage_stamp_in_tx has_agents t2 _ _ _ db1) as [db2|] eqn:H2; [|done]. by apply stamp_receipts in H2.
Qed.
(** What a hook drain acknowledged before it stamps *)
Definition stamps_after_ack d db q : Prop :=
  hook_drain d = true → qd_reference_only q = false → qd_target q ≠ "all_workers" → acked_known (qd_id q) db.
Lemma stamp_drained_step t1 t2 d q db :
  log_wf (db_prompts db) → stamps_after_ack d db q → prompt_step db (stamp_drained has_agents t1 t2 d q db).
Proof.
  intros Hwf Hq. unfold stamp_drained. destruct (qd_reference_only q) eqn:Href; [by apply prompt_step_same|].
  destruct (String.eqb_spec (qd_target q) "all_workers") as [|Ht]; [done|].
  destruct (atomic_stage_stamp_in_tx has_agents t1 _ _ _ db) as [db1|] eqn:H1; [|done].
  apply stamp_spec in H1 as [H1 _]; [|done]. destruct (hook_drain d) eqn:Hd; [|done].
  destruct (atomic_stage_stamp_in_tx has_agents t2 _ _ _ db1) as [db2|] eqn:H2; [|done]. cbn.
  etrans; [exact H1|]. eapply stamp_spec_at, H2. right; right.
  by apply (acked_known_step (qd_id q) db db1 Hwf H1 (Hq Hd Href Ht)).
Qed.
Lemma stamp_all_drained_kept stamps d qs db : receipts_kept db (stamp_all_drained has_agents stamps d qs db).
Proof.
  revert stamps db. induction qs as [|q qs IH]; intros stamps db; cbn; [done|].
  etrans; [apply stamp_drained_kept|apply IH].
Qed.
Lemma stamp_all_drained_step stamps d qs db :
  log_wf (db_prompts db) → Forall (stamps_after_ack d db) qs → prompt_step db (stamp_all_drained has_agents stamps d qs db).
Proof.
  revert stamps db. induction qs as [|q qs IH]; intros stamps db Hwf; [done|]. intros [Hq Hqs]%Forall_cons. cbn.
  pose proof (stamp_drained_step (stamps 0%nat) (stamps 1%nat) d q db Hwf Hq) as Hs.
  etrans; [exact Hs|]. apply IH; [apply Hs, Hwf|]. eapply Forall_impl; [exact Hqs|].
  intros q' Hq' H1 H2 H3. eapply acked_known_step; [exact Hwf|exact Hs|by apply Hq'].
Qed.

(** The writes of a drain *)
Lemma record_drained_kept clk d qs db :
  drain_source (dr_source d) → receipts_kept db (record_drained has_agents clk d qs db).
Proof.
  intros Hd. unfold record_drained. etrans; [|apply stamp_all_drained_kept].
  pose proof (receipts_step (clk 0%nat) d qs db Hd) as [_ [_ Hk]]. etrans; [exact Hk|].
  set (db1 := foldl _ db qs). destruct (hook_drain d); [|done]. apply receipts_kept_same.
  generalize db1. clear. induction qs as [|q qs IH]; intros db; cbn; [done|]. rewrite IH.
  unfold hook_ack. by destruct (_ || _).
Qed.
Definition unsuppressed_known (id : Z) db : Prop := id ≤ log_seq (db_prompts db) ∧ unsuppressed id db.
Lemma record_drained_step clk d qs db :
  drain_source (dr_source d) → log_wf (db_prompts db) → Forall (λ q, unsuppressed_known (qd_id q) db) qs →
  prompt_step db (record_drained has_agents clk d qs db).
Proof.
  intros Hd Hwf Hqs. unfold record_drained.
  pose proof (receipts_step (clk 0%nat) d qs db Hd) as [Hp [Hs _]].
  set (db1 := foldl _ db qs) in *. etrans; [exact Hs|].
  assert (log_wf (db_prompts db1)) as Hwf1 by (by rewrite Hp).
  destruct (hook_drain d) eqn:Hhook.
  - destruct (hook_acks_step (clk 0%nat) qs db1) as [Hs2 _].
    { eapply Forall_impl; [exact Hqs|]. intros q [_ Hq]. unfold unsuppressed. by rewrite Hp. }
    etrans; [exact Hs2|]. apply stamp_all_drained_step; [apply Hs2, Hwf1|]. apply Forall_forall.
    intros q Hq _ Href Ht. split; [|by apply hook_acks_acked]. rewrite hook_acks_seq, Hp.
    rewrite Forall_forall in Hqs. by apply Hqs.
  - apply stamp_all_drained_step; [done|]. apply Forall_forall. intros q _ Hh. by rewrite Hhook in Hh.
Qed.

(** ** Expired relays *)
Lemma ack_expired_le now via r0 r1 :
  prompt_le r0 r1 → (withdrawn r0 → is_Some (pq_acked_at r0)) → prompt_le r0 (ack_expired_row now via r1).
Proof.
  intros (Ht & Hk & Hp & Htd & Ha & Hn & Hset & Hw) H0. split_and!; try done.
  - intros Hr. destruct (Ha Hr) as [t Hta]. unfold ack_expired_row. cbn. by rewrite Hta.
  - intros Hr. destruct (Ha (H0 Hr)) as [t Hta]. destruct (Hw Hr) as [Hp1 [[Hn1 _]|[_ Hv]]]; [congruence|].
    split; [exact Hp1|right]. unfold ack_expired_row. cbn. by rewrite Hta.
Qed.

Lemma unsuppressed_elsewhere id id' db db' :
  log_wf (db_prompts db) → frame (elsewhere id) db db' → id' ≠ id →
  unsuppressed_known id' db → unsuppressed_known id' db'.
Proof.
  intros Hwf [_ Hst] Hne [Hid Hu]. destruct (Hst Hwf) as [_ [Hseq Hev]]. split; [lia|]. intros r' Hr' <-.
  destruct (Hev r' Hr') as [Hnew|(r & Hr & Hri & [_ [Heq|(? & ? & ->)]])].
  - unfold row_id, PromptRow_id in Hnew. lia.
  - unfold row_id, PromptRow_id in Hri. congruence.
  - by apply (Hu r).
Qed.

(** Every row of an id is settled and acknowledged. *)
Definition retired (id : Z) db : Prop :=
  id ≤ log_seq (db_prompts db)
  ∧ ∀ r, r ∈ log_rows (db_prompts db) → pq_id r = id → is_Some (pq_acked_at r) ∧ 3 ≤ row_rank r.
Lemma retired_step id db db' : log_wf (db_prompts db) → prompt_step db db' → retired id db → retired id db'.
Proof.
  intros Hwf Hs [Hid Ha]. destruct (Hs Hwf) as (_ & [Hseq Hev] & _). split; [lia|]. intros r' Hr' <-.
  destruct (Hev r' Hr') as [Hnew|(r & Hr & Hri & Hle)]; [unfold row_id, PromptRow_id in Hnew; lia|].
  destruct Hle as (_ & _ & _ & _ & Hack & _ & Hset & _). destruct (Ha r Hr Hri). auto.
Qed.

Lemma resolve_rank current proposed id next :
  resolve_stage_transition current proposed id = Ok next → DeliveryStage_rank proposed ≤ DeliveryStage_rank next.
Proof.
  unfold resolve_stage_transition. intros Hr. repeat split_match; inv_ok; bool_to_prop; subst; cbn; lia.
Qed.
Lemma text_rank r r' : same_but_text r r' → row_rank r' = row_rank r.
Proof. by intros (? & ? & ->). Qed.
(** A stamp of a settled stage settles the row. *)
Lemma stamp_settles now id proposed opts db db' :
  log_wf (db_prompts db) → id ≤ log_seq (db_prompts db) → 3 ≤ DeliveryStage_rank proposed →
  atomic_stage_stamp_in_tx has_agents now id proposed opts db = Ok db' →
  ∀ r, r ∈ log_rows (db_prompts db') → pq_id r = id → 3 ≤ row_rank r.
Proof.
  intros Hwf Hid Hrank. unfold atomic_stage_stamp_in_tx. intros (current & Hcur & H')%bind_Ok.
  destruct (shutdown_cancelled id current proposed db) eqn:Hsc.
  { injection H' as <-. intros r Hr Hri. unfold shutdown_cancelled in Hsc. bool_to_prop. subst current.
    unfold row_rank. rewrite (read_stage_row id db r DeliveryStage_Suppressed) by done. cbn. lia. }
  apply bind_Ok in H' as (next & Hres & H'). apply resolve_rank in Hres as Hn.
  set (db1 := update_prompts (by_id id) (stage_row now current next opts) db) in *.
  set (db2 := if bool_decide (next = DeliveryStage_Delivered) then record_transport now id db1 else db1) in *.
  assert (db_prompts db2 = db_prompts db1) as Hp2.
  { unfold db2. destruct (bool_decide (next = DeliveryStage_Delivered)); [apply record_transport_spec|done]. }
  assert (∀ r, r ∈ log_rows (db_prompts db2) → pq_id r = id → 3 ≤ row_rank r) as Hr2.
  { rewrite Hp2. intros r (r0 & Hr0 & ->)%elem_of_log_update. unfold by_id.
    destruct (Z.eqb_spec (row_id r0) id) as [|Hne]; [|done]. intros _. rewrite stage_row_rank. lia. }
  destruct (bool_decide (next = DeliveryStage_Abandoned)); [|by injection H' as <-].
  apply notify_abandoned_spec in H' as [_ [_ Hst]]. destruct Hst as [_ [Hseq Hev]].
  { rewrite Hp2. by apply log_wf_update. }
  intros r' Hr' Hri'. destruct (Hev r' Hr') as [Hnew|(r & Hr & Hri & Ht)].
  - rewrite Hp2 in Hnew. unfold row_id, PromptRow_id in Hnew. cbn in Hnew. lia.
  - rewrite (text_rank _ _ Ht). apply Hr2; [done|]. unfold row_id, PromptRow_id in Hri. congruence.
Qed.

Lemma expire_relay_spec now stamp q detail db db' :
  log_wf (db_prompts db) → unsuppressed_known (qd_id q) db →
  expire_relay has_agents now stamp q detail db = Ok db' →
  prompt_step db db' ∧ frame (elsewhere (qd_id q)) db db' ∧ retired (qd_id q) db'.
Proof.
  intros Hwf [Hid Hu]. unfold expire_relay. intros (current & Hcur & H')%bind_Ok.
  apply bind_Ok in H' as (db1 & Hst & [= <-]).
  set (stage := if _ <=? _ then current else DeliveryStage_Suppressed) in *.
  assert (3 ≤ DeliveryStage_rank stage ∧ may_propose (qd_id q) stage db) as [Hrank Hp].
  { unfold stage. destruct (Z.leb_spec (DeliveryStage_rank DeliveryStage_Suppressed) (DeliveryStage_rank current)) as [Hl|Hl].
    - split; [done|by right; left].
    - split; [cbn; lia|by left]. }
  pose proof (stamp_settles _ _ _ _ _ _ Hwf Hid Hrank Hst) as Hset.
  apply stamp_spec_at in Hst as (Hs & _ & Hf); [|done].
  set (via := if is_none _ then _ else _) in *. clear Hcur Hp.
  destruct (Hs Hwf) as (Hwf1 & Hev & Hrec). split_and!.
  - intros _. split_and!; [by apply log_wf_update| |].
    + destruct Hev as [Hseq Hev]. split; [exact Hseq|]. intros r2 (r1 & Hr1 & ->)%elem_of_log_update.
      destruct (Hev r1 Hr1) as [Hnew|(r0 & Hr0 & Hri & Hle)]; [left; by destruct (by_id _ r1)|].
      right. exists r0. destruct (by_id (qd_id q) r1) eqn:Hby; [|done]. split_and!; [done..|].
      apply ack_expired_le; [done|]. intros [_ [[_ Hsup]|[? _]]]; [|done]. apply Z.eqb_eq in Hby.
      destruct (Hu r0 Hr0); [unfold row_id, PromptRow_id in *; congruence|done].
    + intros Hall r2 (r1 & Hr1 & ->)%elem_of_log_update. specialize (Hrec Hall r1 Hr1). by destruct (by_id _ r1).
  - etrans; [exact Hf|]. by apply update_elsewhere.
  - destruct Hev as [Hseq _]. split; [cbn; lia|]. intros r2 (r1 & Hr1 & ->)%elem_of_log_update.
    unfold by_id. destruct (Z.eqb_spec (row_id r1) (qd_id q)) as [Heq|Hne]; [|done]. intros _. split.
    + unfold ack_expired_row. cbn. by destruct (pq_acked_at r1).
    + by apply (Hset r1).
Qed.

(** A stamp writes no task, no notification and no operator lane, and drops no row. *)
Definition ids_kept db db' : Prop :=
  ∀ r, r ∈ log_rows (db_prompts db) → ∃ r', r' ∈ log_rows (db_prompts db') ∧ pq_id r' = pq_id r.
Definition same_lanes db db' : Prop :=
  pt_outbox (db_prompt_receipts db') = pt_outbox (db_prompt_receipts db) ∧ db_operator db' = db_operator db.
Definition same_sources db db' : Prop :=
  db_tasks db' = db_tasks db ∧ db_supervisor_queue db' = db_supervisor_queue db ∧ same_lanes db db' ∧ ids_kept db db'.
#[export] Instance same_sources_preorder : PreOrder same_sources.
Proof.
  split; [intros db; split_and!; [done..|]; intros r Hr; by exists r|].
  intros a b d (H1 & H2 & [H7 H8] & H3) (H4 & H5 & [H9 H10] & H6). split_and!; [congruence..|split; congruence|].
  intros r Hr. destruct (H3 r Hr) as (r1 & Hr1 & ?). destruct (H6 r1 Hr1) as (r2 & ? & ?). exists r2. split; [done|congruence].
Qed.
Lemma update_sources P f db : (∀ r, pq_id (f r) = pq_id r) → same_sources db (update_prompts P f db).
Proof.
  intros Hf. split_and!; [done..|]. intros r Hr. exists (if P r then f r else r). split; [|destruct (P r); [apply Hf|done]].
  apply elem_of_log_update. by exists r.
Qed.
Lemma insert_notice_sources sender notice now session summary key kind db db' :
  insert_notice sender notice now session summary key kind db = Ok db' → same_sources db db'.
Proof.
  unfold insert_notice. intros H'. apply bind_Ok in H' as ([id q] & Hins & [= <-]). destruct (existsb _ _); [done|].
  split_and!; [done..|]. apply log_insert_Ok in Hins as (_ & _ & Hrows). intros r Hr. exists r. cbn.
  rewrite Hrows. split; [|done]. apply elem_of_app. by left.
Qed.
Lemma abandonment_body_sources now sender session notice summary key operator digest n db db' :
  insert_abandonment_body_in_tx now sender session notice summary key operator digest n db = Ok db' → same_sources db db'.
Proof.
  unfold insert_abandonment_body_in_tx. intros H'. destruct (if operator then _ else _) as [class_key prefix].
  destruct (head _) as [latest|]; [|by eapply insert_notice_sources].
  destruct (notice_unread db latest); [injection H' as <-; by apply update_sources|].
  destruct (negb operator); [by eapply insert_notice_sources|].
  destruct (existsb _ _); [by injection H' as <-|by eapply insert_notice_sources].
Qed.
Lemma notify_sources now id db db' :
  notify_abandoned_sender_in_tx has_agents now id db = Ok db' → same_sources db db'.
Proof.
  unfold notify_abandoned_sender_in_tx. destruct (abandoned_sender_notice_in_tx _ _) as [notice|]; [|by intros [= <-]].
  destruct (an_recovery_content notice); [apply insert_notice_sources|apply abandonment_body_sources].
Qed.
Lemma stamp_sources now id proposed opts db db' :
  atomic_stage_stamp_in_tx has_agents now id proposed opts db = Ok db' → same_sources db db'.
Proof.
  unfold atomic_stage_stamp_in_tx. intros (current & _ & H')%bind_Ok.
  destruct (shutdown_cancelled id current proposed db); [by injection H' as <-|].
  apply bind_Ok in H' as (next & _ & H').
  set (db1 := update_prompts (by_id id) (stage_row now current next opts) db) in *.
  assert (same_sources db (if bool_decide (next = DeliveryStage_Delivered) then record_transport now id db1 else db1)) as Hs.
  { assert (same_sources db db1) as H1 by (by apply update_sources).
    destruct (bool_decide (next = DeliveryStage_Delivered)); [|done]. etrans; [exact H1|]. unfold record_transport.
    destruct (log_get id _); [|done]. destruct (String.eqb _ _); [done|]. split_and!; [done..|]. intros r Hr. by exists r. }
  destruct (bool_decide (next = DeliveryStage_Abandoned)); [|by injection H' as <-].
  etrans; [exact Hs|by eapply notify_sources].
Qed.
Lemma expire_relay_sources now stamp q detail db db' :
  expire_relay has_agents now stamp q detail db = Ok db' → same_sources db db'.
Proof.
  unfold expire_relay. intros (st & _ & H')%bind_Ok. apply bind_Ok in H' as (db0 & H0%stamp_sources & [= <-]).
  etrans; [exact H0|]. by apply update_sources.
Qed.
Lemma reason_sources now q db db' :
  same_sources db db' →
  supervisor_relay_expiry_reason has_outbox_index now q db' = supervisor_relay_expiry_reason has_outbox_index now q db.
Proof.
  intros (Ht & Hq & _). unfold supervisor_relay_expiry_reason, dispatch_expiry_reason, lifecycle_expiry_reason, snapshot_of,
    terminal_ci_branch_task, terminal_relay_task_status, newer_lifecycle_occurrence. by rewrite Ht, Hq.
Qed.

Definition expired now q db : Prop := is_Some (supervisor_relay_expiry_reason has_outbox_index now q db).
Record expired_split (now : Z) (ps cur : list QueuedPrompt) db db' : Prop := {
  es_step : prompt_step db db';
  es_receipts : receipts db' = receipts db;
  es_sources : same_sources db db';
  es_open id : unsuppressed_known id db → id ∉ qd_id <$> ps ∨ id ∈ qd_id <$> cur → unsuppressed_known id db';
  es_ids : qd_id <$> cur `sublist_of` qd_id <$> ps;
  es_from q : q ∈ cur → ∃ p s, p ∈ ps ∧ q = p <| qd_summary := s |>;
  es_all p : p ∈ ps → expired now p db ∧ retired (qd_id p) db' ∨ ∃ s, p <| qd_summary := s |> ∈ cur;
}.
Lemma delayed_mail now q db : ∃ s, delayed_summary now q db = q <| qd_summary := s |>.
Proof. unfold delayed_summary. destruct (_ && _); [by eexists|]. exists (qd_summary q). by destruct q. Qed.

Lemma expire_relays_spec now stamps ps db cur db' :
  log_wf (db_prompts db) → NoDup (qd_id <$> ps) → Forall (λ q, unsuppressed_known (qd_id q) db) ps →
  expire_relays has_agents has_outbox_index now stamps ps db = Ok (cur, db') → expired_split now ps cur db db'.
Proof.
  revert stamps db cur. induction ps as [|p ps IH]; intros stamps db cur Hwf Hnd Hps Hex; cbn in *.
  { injection Hex as <- <-. split; try done; intros q Hq; by apply elem_of_nil in Hq. }
  apply NoDup_cons in Hnd as [Hp Hnd]. apply Forall_cons in Hps as [Hpu Hps].
  destruct (supervisor_relay_expiry_reason _ now p db) as [detail|] eqn:Hr.
  - apply bind_Ok in Hex as (db1 & H1 & Hex).
    pose proof (expire_relay_sources _ _ _ _ _ _ H1) as Hsrc.
    destruct (expire_relay_spec _ _ _ _ _ _ Hwf Hpu H1) as (Hs1 & Hf1 & Hret).
    assert (∀ id, id ≠ qd_id p → unsuppressed_known id db → unsuppressed_known id db1) as Hopen.
    { intros id Hne. by apply (unsuppressed_elsewhere (qd_id p)). }
    apply IH in Hex as [Hs Hrc Hso Ho Hids Hfrom Hall]; [|apply Hs1, Hwf|done|].
    2: { apply Forall_forall. intros q Hq. rewrite Forall_forall in Hps. apply Hopen; [|by apply Hps].
         intros Heq. apply Hp. rewrite <-Heq. by apply list_elem_of_fmap_2. }
    split.
    + by etrans.
    + rewrite Hrc. apply Hf1.
    + by etrans.
    + intros id Hid Hin. assert (id ≠ qd_id p) as Hne.
      { intros ->. destruct Hin as [Hn|Hn]; [apply Hn; left|]. by eapply Hp, elem_of_sublist. }
      apply Ho; [by apply Hopen|]. destruct Hin as [Hn|Hn]; [left|by right]. intros ?. apply Hn. by right.
    + by constructor.
    + intros q Hq. destruct (Hfrom q Hq) as (p' & s & Hp' & ->). exists p', s. split; [by right|done].
    + intros q [->|Hq]%elem_of_cons.
      * left. split; [by eexists|]. eapply retired_step, Hret; [apply Hs1, Hwf|done].
      * destruct (Hall q Hq) as [[Hexp Hr']|?]; [left|by right]. split; [|done]. unfold expired in *.
        by rewrite (reason_sources now q db db1 Hsrc) in Hexp.
  - apply bind_Ok in Hex as ([rest db1] & Hex & [= <- <-]).
    apply IH in Hex as [Hs Hrc Hso Ho Hids Hfrom Hall]; [|done..].
    destruct (delayed_mail now p db) as [s Hd]. rewrite Hd. split; [done|done|done|..].
    + intros id Hid Hin. apply Ho; [done|]. destruct Hin as [Hn|Hn]; [left; intros ?; apply Hn; by right|].
      cbn in Hn. apply elem_of_cons in Hn as [->|Hn]; [by left|by right].
    + cbn. by constructor.
    + intros q [->|Hq]%elem_of_cons; [exists p, s; split; [left|done]|].
      destruct (Hfrom q Hq) as (p' & s' & Hp' & ->). exists p', s'. split; [by right|done].
    + intros q [->|Hq]%elem_of_cons; [right; exists s; left|].
      destruct (Hall q Hq) as [?|[s' Hs']]; [by left|right; exists s'; by right].
Qed.
Lemma expire_supervisor_relays_spec now stamps ps db cur db' :
  log_wf (db_prompts db) → NoDup (qd_id <$> ps) → Forall (λ q, unsuppressed_known (qd_id q) db) ps →
  expire_supervisor_relays_in_tx has_agents has_outbox_index now stamps ps db = Ok (cur, db') →
  expired_split now ps cur db db'.
Proof.
  intros Hwf Hnd Hps. unfold expire_supervisor_relays_in_tx. destruct (existsb _ ps); [by apply expire_relays_spec|].
  intros [= <- <-]. split; [done|done|done|by auto|done|..].
  - intros q Hq. exists q, (qd_summary q). split; [done|]. by destruct q.
  - intros p Hp. right. exists (qd_summary p). by destruct p.
Qed.

(** ** The rows of a drain *)
Lemma elem_of_drain_rows held cutoff n d db r :
  r ∈ drain_rows has_agents held cutoff n d db →
  r ∈ log_rows (db_prompts db) ∧ drainable has_agents held cutoff d db r = true.
Proof. intros [Hr Hd]%elem_of_sql_limit%elem_of_order_by%elem_of_log_select. done. Qed.
Lemma drain_rows_ids held cutoff n d db :
  log_wf (db_prompts db) → NoDup (pq_id <$> drain_rows has_agents held cutoff n d db).
Proof.
  intros Hwf. apply NoDup_fmap_2_strong.
  - intros r r' Hr Hr' Hid. apply elem_of_drain_rows in Hr as [Hr _], Hr' as [Hr' _].
    by apply (log_wf_unique (db_prompts db)).
  - unfold drain_rows, sql_limit. assert (NoDup (order_by (le_of (drain_order d))
      (log_select (drainable has_agents held cutoff d db) (db_prompts db)))) as Hnd.
    { rewrite order_by_perm. by apply log_select_NoDup. }
    destruct (_ <? 0); [done|]. eapply sublist_NoDup; [exact Hnd|apply sublist_take].
Qed.
Lemma drainable_open held cutoff d db r :
  drainable has_agents held cutoff d db r = true → pq_highest_stage r ≠ Some "suppressed".
Proof.
  intros Hd Hs. unfold drainable in Hd. bool_to_prop.
  match goal with H' : drainable_stage _ r = true |- _ => revert H' end.
  unfold drainable_stage, deliverable_stage, stale_retained. rewrite Hs. cbn. by rewrite andb_false_r.
Qed.
Lemma drain_rows_open held cutoff n d db :
  log_wf (db_prompts db) →
  Forall (λ q, unsuppressed_known (qd_id q) db) (prompt_from_row <$> drain_rows has_agents held cutoff n d db).
Proof.
  intros Hwf. apply Forall_fmap, Forall_forall. intros r [Hr Hd]%elem_of_drain_rows. cbn. split.
  - destruct Hwf as [_ Hb]. rewrite Forall_forall in Hb. by apply Hb.
  - intros r' Hr' Hid. rewrite (log_wf_unique (db_prompts db) r' r) by done. by eapply drainable_open.
Qed.

(** ** What a drain shows *)
Lemma hydrate_mail q db : ∃ t, hydrate_recovery_reference_in_tx q db = q <| qd_prompt := t |>.
Proof.
  assert (∃ t, q = q <| qd_prompt := t |>) as Hq by (exists (qd_prompt q); by destruct q).
  unfold hydrate_recovery_reference_in_tx. destruct (log_get _ _) as [card|]; [|done].
  destruct (negb _); [done|by eexists].
Qed.
(** What is shown of a row: its mail in full, or a reference to it *)
Record shown (d : Drain) db (c q : QueuedPrompt) : Prop := {
  sh_id : qd_id q = qd_id c;
  sh_target : qd_target q = qd_target c;
  sh_full : qd_reference_only q = false →
    ∃ t, recipient_delivery_on_conn (c <| qd_prompt := t |>) (dr_recipient d) (is_named_read (dr_transport d)) db = Full q;
}.
Lemma present_rows_spec hold d cur db :
  ∃ kept, present_rows hold d cur db = (λ p : QueuedPrompt * QueuedPrompt, p.2) <$> kept
    ∧ (λ p : QueuedPrompt * QueuedPrompt, p.1) <$> kept
      = (if hold then List.filter (λ row, negb (is_action_relay (qd_prompt row))) cur else cur)
    ∧ Forall (λ p, shown d db p.1 p.2) kept.
Proof.
  set (cur' := if hold then _ else cur). set (named := is_named_read (dr_transport d)).
  set (f q := into_prompt (recipient_delivery_on_conn (if named then hydrate_recovery_reference_in_tx q db else q)
                             (dr_recipient d) named db)).
  exists ((λ c, (c, f c)) <$> cur'). split_and!.
  - unfold present_rows. fold cur' named. rewrite <-list_fmap_compose. unfold f.
    destruct named; [rewrite <-list_fmap_compose|]; by apply list_fmap_ext.
  - rewrite <-list_fmap_compose. apply list_fmap_id.
  - apply Forall_fmap, Forall_forall. intros c _. cbn. unfold f.
    assert (∃ t, (if named then hydrate_recovery_reference_in_tx c db else c) = c <| qd_prompt := t |>) as [t ->].
    { destruct named; [apply hydrate_mail|]. exists (qd_prompt c). by destruct c. }
    split; [| |intros Href; exists t; revert Href; fold named]; unfold recipient_delivery_on_conn;
      set (terminal := option_or_else _ _); destruct terminal as [status|]; cbn; try done;
      set (full := needs_full_recovery _ || _ || _); destruct full; done.
Qed.
Lemma fit_budget_sublist left qs : (fit_budget left qs).1 `sublist_of` qs.
Proof.
  revert left. induction qs as [|q qs IH]; intros left; cbn; [done|].
  destruct (_ <=? left).
  - specialize (IH (left - hook_surface_cost (qd_prompt q))). destruct (fit_budget _ qs). by constructor.
  - specialize (IH left). destruct (fit_budget left qs). by constructor.
Qed.
Lemma within_budget_sublist b qs : (within_budget b qs).1 `sublist_of` qs.
Proof. destruct b; [apply fit_budget_sublist|done]. Qed.

(** ** The parts of a drain *)
(** A drain that names something to look for *)
Definition asks (d : Drain) : bool :=
  (is_none (dr_source_filter d) || negb (bool_decide (normalized_sources d = [])))
  && negb ((is_wake_named (dr_transport d) || is_named_read (dr_transport d)) && bool_decide (dr_only_ids d = [])).

Record drained (hold : nat → bool) (limit : nat) (clk : Clock) (d : Drain)
    (out : list QueuedPrompt) (over : list (Z * Z)) db db' (rows : list PromptRow)
    (cur : list QueuedPrompt) (kept : list (QueuedPrompt * QueuedPrompt)) (db1 : Db) : Prop := {
  dn_rows : rows = drain_rows has_agents (hold 0%nat) (clk 0%nat - duration_seconds PROMPT_QUEUE_STALE_TTL_SECS)
                     limit d db;
  dn_expire : expire_supervisor_relays_in_tx has_agents has_outbox_index (clk 1%nat) (λ i, clk (2 + i)%nat)
                (prompt_from_row <$> rows) db = Ok (cur, db1);
  dn_kept : (λ p : QueuedPrompt * QueuedPrompt, p.1) <$> kept
    = (if hold 1%nat then List.filter (λ row, negb (is_action_relay (qd_prompt row))) cur else cur);
  dn_shown : Forall (λ p, shown d db1 p.1 p.2) kept;
  dn_budget : within_budget (dr_budget d) ((λ p : QueuedPrompt * QueuedPrompt, p.2) <$> kept) = (out, over);
  dn_write : db' = record_drained has_agents (λ i, clk (2 + length rows + i)%nat) d out db1;
}.
Lemma drain_parts clk hold limit d db out over db' :
  drain_unseen_for_recipient_budgeted has_agents has_outbox_index clk hold limit d db = Ok (out, over, db') →
  (out = [] ∧ over = [] ∧ db' = db
   ∧ (asks d = true → drain_rows has_agents (hold 0%nat)
                        (clk 0%nat - duration_seconds PROMPT_QUEUE_STALE_TTL_SECS) limit d db = []))
  ∨ ∃ rows cur kept db1, drained hold limit clk d out over db db' rows cur kept db1.
Proof.
  unfold drain_unseen_for_recipient_budgeted, asks. destruct (str_is_empty _); [done|].
  destruct (Nat.eqb_spec limit 0) as [->|_].
  { intros [= <- <- <-]. left. split_and!; [done..|]. intros _. unfold drain_rows, sql_limit. cbn. done. }
  destruct (negb (is_none (dr_source_filter d)) && bool_decide (normalized_sources d = [])) eqn:Hf.
  { intros [= <- <- <-]. left. split_and!; [done..|]. intros Ha. bool_to_prop.
    destruct (is_none (dr_source_filter d)); [done|]. rewrite bool_decide_true in H0 by done. done. }
  destruct ((is_wake_named (dr_transport d) || is_named_read (dr_transport d)) && bool_decide (dr_only_ids d = [])) eqn:Hi.
  { intros [= <- <- <-]. left. split_and!; [done..|]. by rewrite andb_false_r. }
  set (cutoff := clk 0%nat - duration_seconds PROMPT_QUEUE_STALE_TTL_SECS).
  set (rows := drain_rows has_agents (hold 0%nat) cutoff limit d db). cbn zeta. intros Hd.
  destruct rows as [|r0 rows0] eqn:Hrows; [injection Hd as <- <- <-; by left|]. rewrite <-Hrows in Hd. right.
  apply bind_Ok in Hd as ([cur db1] & Hex & Hd).
  destruct (present_rows_spec (hold 1%nat) d cur db1) as (kept & Hp & Hk & Hsh).
  exists rows, cur, kept, db1. destruct (within_budget _ _) as [o v] eqn:Hb. injection Hd as <- <- <-.
  split; [done|exact Hex|done|done|by rewrite <-Hp|done].
Qed.
Section drained_parts.
Context {hold : nat → bool} {limit : nat} {clk : Clock} {d : Drain}.
Context {out : list QueuedPrompt} {over : list (Z * Z)} {db db' : Db}.
Context {rows : list PromptRow} {cur : list QueuedPrompt} {kept : list (QueuedPrompt * QueuedPrompt)} {db1 : Db}.
Context (D : drained hold limit clk d out over db db' rows cur kept db1).

Lemma dn_split : log_wf (db_prompts db) → expired_split (clk 1%nat) (prompt_from_row <$> rows) cur db db1.
Proof.
  intros Hwf. pose proof (dn_rows _ _ _ _ _ _ _ _ _ _ _ _ D) as Hr.
  eapply expire_supervisor_relays_spec, (dn_expire _ _ _ _ _ _ _ _ _ _ _ _ D); [done| |subst; by apply drain_rows_open].
  rewrite <-list_fmap_compose, Hr. by apply drain_rows_ids.
Qed.
Lemma kept_cur c q : (c, q) ∈ kept → c ∈ cur.
Proof.
  intros Hk%(list_elem_of_fmap_2 fst). cbn in Hk. pose proof (dn_kept _ _ _ _ _ _ _ _ _ _ _ _ D) as Hc.
  change (fst <$> kept) with ((λ p : QueuedPrompt * QueuedPrompt, p.1) <$> kept) in Hk. rewrite Hc in Hk.
  destruct (hold 1%nat); [|done]. by apply list_elem_of_In, List.filter_In, proj1, list_elem_of_In in Hk.
Qed.
(** What was handed over, back to its row *)
Lemma out_row q :
  log_wf (db_prompts db) → q ∈ out →
  ∃ r c s, r ∈ rows ∧ c = prompt_from_row r <| qd_summary := s |> ∧ c ∈ cur ∧ shown d db1 c q.
Proof.
  intros Hwf Hq. pose proof (within_budget_sublist (dr_budget d) ((λ p : QueuedPrompt * QueuedPrompt, p.2) <$> kept)) as Hsub.
  rewrite (dn_budget _ _ _ _ _ _ _ _ _ _ _ _ D) in Hsub. eapply elem_of_sublist in Hq; [|exact Hsub].
  apply list_elem_of_fmap_1 in Hq as ([c q'] & -> & Hk). cbn. pose proof (kept_cur _ _ Hk) as Hc.
  pose proof (dn_shown _ _ _ _ _ _ _ _ _ _ _ _ D) as Hsh. rewrite Forall_forall in Hsh. specialize (Hsh _ Hk).
  destruct (es_from _ _ _ _ _ (dn_split Hwf) c Hc) as (p & s & Hp & ->).
  apply list_elem_of_fmap_1 in Hp as (r & -> & Hr). by exists r, (prompt_from_row r <| qd_summary := s |>), s.
Qed.
Lemma out_open : log_wf (db_prompts db) → Forall (λ q, unsuppressed_known (qd_id q) db1) out.
Proof.
  intros Hwf. apply Forall_forall. intros q Hq. destruct (out_row q Hwf Hq) as (r & c & s & Hr & Hc & Hcur & Hsh).
  apply (es_open _ _ _ _ _ (dn_split Hwf)).
  - pose proof (drain_rows_open (hold 0%nat) (clk 0%nat - duration_seconds PROMPT_QUEUE_STALE_TTL_SECS) limit d db Hwf) as Ho.
    rewrite <-(dn_rows _ _ _ _ _ _ _ _ _ _ _ _ D), Forall_fmap, Forall_forall in Ho.
    rewrite (sh_id _ _ _ _ Hsh), Hc. by apply (Ho r).
  - right. rewrite (sh_id _ _ _ _ Hsh). by apply list_elem_of_fmap_2.
Qed.
End drained_parts.

Lemma expire_relays_receipts now stamps ps db cur db' :
  expire_relays has_agents has_outbox_index now stamps ps db = Ok (cur, db') → receipts db' = receipts db.
Proof.
  revert stamps db cur db'. induction ps as [|p ps IH]; intros stamps db cur db' Hex; cbn in Hex; [by injection Hex as _ <-|].
  destruct (supervisor_relay_expiry_reason _ now p db) as [detail|].
  - apply bind_Ok in Hex as (db1 & H1 & Hex). rewrite (IH _ _ _ _ Hex). unfold expire_relay in H1.
    apply bind_Ok in H1 as (st & _ & H1). by apply bind_Ok in H1 as (db0 & H0%stamp_receipts & [= <-]).
  - apply bind_Ok in Hex as ([rest db1] & Hex & [= _ <-]). by apply IH in Hex.
Qed.
Lemma prompt_step_wf db db' : (log_wf (db_prompts db) → prompt_step db db') → prompt_step db db'.
Proof. intros Hs Hwf. by apply Hs. Qed.
(** A drain is a step that keeps the receipts. *)
Lemma drain_step clk hold limit d db x db' :
  drain_source (dr_source d) →
  drain_unseen_for_recipient_budgeted has_agents has_outbox_index clk hold limit d db = Ok (x, db') → handling_step db db'.
Proof.
  intros Hd Hdr. destruct x as [out over].
  destruct (drain_parts _ _ _ _ _ _ _ _ Hdr) as [(_ & _ & -> & _)|(rows & cur & kept & db1 & D)]; [done|].
  rewrite (dn_write _ _ _ _ _ _ _ _ _ _ _ _ D). split.
  - apply prompt_step_wf. intros Hwf. pose proof (es_step _ _ _ _ _ (dn_split D Hwf)) as Hs. etrans; [exact Hs|].
    apply record_drained_step; [done|apply Hs, Hwf|apply (out_open D Hwf)].
  - etrans; [|by apply record_drained_kept]. apply receipts_kept_same.
    pose proof (dn_expire _ _ _ _ _ _ _ _ _ _ _ _ D) as Hex. unfold expire_supervisor_relays_in_tx in Hex.
    destruct (existsb _ _); [by eapply expire_relays_receipts|by injection Hex as _ <-].
Qed.

(** ** The receipts of what was handed over *)
(** A receipt that a drain with this eligibility leaves read *)
Definition replaceable (transport : TransportEligibility) (o : option SeenRow) : Prop :=
  match o with None => True | Some s => drain_replaces transport s = true ∨ read_receipt o end.
Lemma eligible_replaceable transport o r :
  transport ≠ TransportEligibility_NoticeDigest → receipt_eligible transport o r = true → replaceable transport o.
Proof.
  intros Hne He. destruct o as [s|]; [|done]. unfold replaceable, drain_replaces.
  destruct (from_source SurfacingSource_TransportDelivered s) eqn:Htd; [by left|].
  destruct (from_source SurfacingSource_TransportClaimed s) eqn:Htc.
  - left. destruct transport; try done; cbn -[from_source] in He; [by rewrite Htd in He|].
    exfalso. bool_to_prop. match goal with H' : from_source SurfacingSource_InboxPoll s = true |- _ =>
      apply from_source_true in H'; apply from_source_true in Htc; by rewrite H' in Htc end.
  - right. exists s. split; [done|]. unfold from_source in *. bool_to_prop. done.
Qed.

Lemma receipt_prompt_at seen_at d q db :
  drain_source (dr_source d) → qd_reference_only q = false →
  replaceable (dr_transport d) (receipts db !! (qd_id q, dr_recipient d)) →
  read_receipt (receipts (receipt_prompt seen_at d q db) !! (qd_id q, dr_recipient d)).
Proof.
  intros Hd Hr Ho. unfold receipt_prompt. rewrite Hr. unfold observe_body, upsert_seen, seen_of. cbn.
  destruct (receipts db !! (qd_id q, dr_recipient d)) as [s|] eqn:Hs; cbn.
  - destruct (drain_replaces (dr_transport d) s) eqn:Hrep; cbn.
    + rewrite lookup_insert_eq. eexists. split; [done|]. by destruct Hd as [-> | ->].
    + destruct Ho as [Ho|Ho]; [congruence|]. by rewrite Hs.
  - rewrite lookup_insert_eq. eexists. split; [done|]. by destruct Hd as [-> | ->].
Qed.
Lemma receipt_prompt_other seen_at d q db k :
  k ≠ (qd_id q, dr_recipient d) → receipts (receipt_prompt seen_at d q db) !! k = receipts db !! k.
Proof.
  intros Hk. unfold receipt_prompt. destruct (qd_reference_only q); [done|].
  unfold observe_body, upsert_seen. cbn. destruct (seen_of _ _ _) as [s|]; cbn; [|by rewrite lookup_insert_ne].
  destruct (drain_replaces _ _); cbn; [by rewrite lookup_insert_ne|done].
Qed.
Lemma receipts_read seen_at d qs db q :
  drain_source (dr_source d) → q ∈ qs → qd_reference_only q = false →
  replaceable (dr_transport d) (receipts db !! (qd_id q, dr_recipient d)) →
  read_receipt (receipts (foldl (λ db q, receipt_prompt seen_at d q db) db qs) !! (qd_id q, dr_recipient d)).
Proof.
  intros Hd Hq Hr. revert db. induction Hq as [q qs|q q' qs Hq IH]; intros db Ho; cbn.
  - eapply read_receipt_kept; [apply (receipts_step _ _ _ _ Hd)|]. by apply receipt_prompt_at.
  - apply IH; [done|]. destruct (decide (qd_id q = qd_id q')) as [Heq|Hne].
    + destruct (qd_reference_only q') eqn:Hr'; [unfold receipt_prompt; by rewrite Hr'|].
      rewrite Heq in Ho |- *. pose proof (receipt_prompt_at seen_at d q' db Hd Hr' Ho) as Hread.
      unfold replaceable. destruct (receipts (receipt_prompt _ _ _ _) !! _); [by right|done].
    + rewrite receipt_prompt_other; [done|]. congruence.
Qed.

(** A body handed over has a receipt that stays. *)
Lemma full_is_read clk hold limit d db out over db' q :
  log_wf (db_prompts db) → drain_source (dr_source d) → dr_transport d ≠ TransportEligibility_NoticeDigest →
  drain_unseen_for_recipient_budgeted has_agents has_outbox_index clk hold limit d db = Ok (out, over, db') →
  q ∈ out → qd_reference_only q = false →
  read_receipt (receipts db' !! (qd_id q, dr_recipient d))
  ∧ ∃ r, r ∈ log_rows (db_prompts db) ∧ pq_id r = qd_id q ∧ pq_target r = qd_target q
      ∧ addressed (dr_recipient d) r = true.
Proof.
  intros Hwf Hd Hne Hdr Hq Href.
  destruct (drain_parts _ _ _ _ _ _ _ _ Hdr) as [(-> & _ & _ & _)|(rows & cur & kept & db1 & D)]; [by apply elem_of_nil in Hq|].
  destruct (out_row D q Hwf Hq) as (r & c & s & Hr & Hc & Hcur & [Hid Ht _]).
  rewrite (dn_rows _ _ _ _ _ _ _ _ _ _ _ _ D) in Hr. apply elem_of_drain_rows in Hr as [Hr Hok].
  unfold drainable in Hok. bool_to_prop. subst c. cbn in Hid, Ht. split; [|by exists r].
  rewrite (dn_write _ _ _ _ _ _ _ _ _ _ _ _ D). unfold record_drained.
  eapply read_receipt_kept; [apply stamp_all_drained_kept|].
  set (db2 := foldl _ db1 out). assert (read_receipt (receipts db2 !! (qd_id q, dr_recipient d))) as Hread.
  { apply receipts_read; [done..|]. rewrite (es_receipts _ _ _ _ _ (dn_split D Hwf)), Hid.
    eapply eligible_replaceable; [done|]. unfold seen_of in *. eassumption. }
  destruct (hook_drain d); [|done]. clearbody db2. clear -Hread. revert db2 Hread.
  generalize (qd_id q, dr_recipient d). intros k. induction out as [|q' qs IH]; intros db2 Hread; cbn; [done|].
  apply IH. unfold hook_ack. by destruct (_ || _).
Qed.

(** ** What a drain leaves *)
Lemma stamp_all_drained_other stamps d qs db k :
  (∀ q, q ∈ qs → k ≠ (qd_id q, dr_recipient d)) →
  receipts (stamp_all_drained has_agents stamps d qs db) !! k = receipts db !! k.
Proof.
  revert stamps db. induction qs as [|q qs IH]; intros stamps db Hk; cbn; [done|].
  rewrite IH by (intros q' Hq'; apply Hk; by right). unfold stamp_drained.
  destruct (qd_reference_only q).
  { cbn. rewrite lookup_sql_update. destruct (receipts db !! k) as [s|]; cbn; [|done].
    rewrite bool_decide_false by (apply Hk; left). done. }
  destruct (String.eqb _ _); [done|].
  destruct (atomic_stage_stamp_in_tx _ _ _ DeliveryStage_Delivered _ db) as [db1|] eqn:H1; [|done].
  apply stamp_receipts in H1. destruct (hook_drain d); [|by rewrite H1].
  destruct (atomic_stage_stamp_in_tx _ _ _ DeliveryStage_Confirmed _ db1) as [db2|] eqn:H2; cbn; [|by rewrite H1].
  apply stamp_receipts in H2. by rewrite H2, H1.
Qed.
Lemma record_drained_other clk d qs db k :
  (∀ q, q ∈ qs → k ≠ (qd_id q, dr_recipient d)) →
  receipts (record_drained has_agents clk d qs db) !! k = receipts db !! k.
Proof.
  intros Hk. unfold record_drained. rewrite stamp_all_drained_other by done.
  transitivity (receipts (foldl (λ db q, receipt_prompt (clk 0%nat) d q db) db qs) !! k).
  - destruct (hook_drain d); [|done]. generalize (foldl (λ db q, receipt_prompt (clk 0%nat) d q db) db qs). clear.
    induction qs as [|q qs IH]; intros db; cbn; [done|]. rewrite IH. unfold hook_ack. by destruct (_ || _).
  - revert db. induction qs as [|q qs IH]; intros db; cbn; [done|].
    rewrite IH by (intros q' Hq'; apply Hk; by right). apply receipt_prompt_other, Hk. left.
Qed.

#[local] Arguments hook_surface_cost : simpl never.
Fixpoint total_cost (qs : list QueuedPrompt) : Z :=
  match qs with [] => 0 | q :: qs => hook_surface_cost (qd_prompt q) + total_cost qs end.
Lemma hook_surface_cost_pos p : 0 ≤ hook_surface_cost p.
Proof. unfold hook_surface_cost, HOOK_SURFACE_ROW_OVERHEAD_CHARS. lia. Qed.
Lemma total_cost_pos qs : 0 ≤ total_cost qs.
Proof.
  induction qs as [|q qs IH]; cbn; [done|]. pose proof (hook_surface_cost_pos (qd_prompt q)). lia.
Qed.
Lemma fit_budget_spec left qs :
  0 ≤ left →
  total_cost (fit_budget left qs).1 ≤ left
  ∧ (∀ o, o ∈ (fit_budget left qs).2 → left < o.2 + total_cost (fit_budget left qs).1)
  ∧ ∀ q, q ∈ qs → q ∈ (fit_budget left qs).1 ∨ (qd_id q, hook_surface_cost (qd_prompt q)) ∈ (fit_budget left qs).2.
Proof.
  revert left. induction qs as [|q qs IH]; intros left Hl; cbn; [split_and!; [done|by intros ? ?%elem_of_nil..]|].
  destruct (Z.leb_spec (hook_surface_cost (qd_prompt q)) left) as [Hc|Hc].
  - destruct (IH (left - hook_surface_cost (qd_prompt q))) as (H1 & H2 & H3); [lia|].
    destruct (fit_budget _ qs) as [kept over]. cbn in *. split_and!; [lia| |].
    + intros o Ho%H2. lia.
    + intros q' [->|Hq']%elem_of_cons; [left; left|]. destruct (H3 q' Hq'); [left; by right|by right].
  - destruct (IH left) as (H1 & H2 & H3); [done|].
    destruct (fit_budget left qs) as [kept over]. cbn in *. split_and!; [done| |].
    + intros o [->|Ho%H2]%elem_of_cons; cbn [snd]; [pose proof (total_cost_pos kept); lia|done].
    + intros q' [->|Hq']%elem_of_cons; [right; left|]. destruct (H3 q' Hq'); [by left|right; by right].
Qed.

Lemma drained_has_row clk hold limit d db out over db' q :
  log_wf (db_prompts db) →
  drain_unseen_for_recipient_budgeted has_agents has_outbox_index clk hold limit d db = Ok (out, over, db') →
  q ∈ out → ∃ r, r ∈ log_rows (db_prompts db) ∧ pq_id r = qd_id q.
Proof.
  intros Hwf Hdr Hq.
  destruct (drain_parts _ _ _ _ _ _ _ _ Hdr) as [(-> & _ & _ & _)|(rows & cur & kept & db1 & D)]; [by apply elem_of_nil in Hq|].
  destruct (out_row D q Hwf Hq) as (r & c & s & Hr & -> & Hcur & [Hid _ _]).
  rewrite (dn_rows _ _ _ _ _ _ _ _ _ _ _ _ D) in Hr. apply elem_of_drain_rows in Hr as [Hr _].
  exists r. split; [done|]. by rewrite Hid.
Qed.
(** Withdrawn mail is shown as a reference at most. *)
Lemma withdrawn_not_drained clk hold limit d db out over db' q r :
  log_wf (db_prompts db) →
  drain_unseen_for_recipient_budgeted has_agents has_outbox_index clk hold limit d db = Ok (out, over, db') →
  q ∈ out → r ∈ log_rows (db_prompts db) → pq_id r = qd_id q → pq_target r ≠ "all_workers" → withdrawn r →
  qd_reference_only q = true.
Proof.
  intros Hwf Hdr Hq Hr Hid Ht Hw. destruct (qd_reference_only q) eqn:Href; [done|exfalso].
  destruct (drain_parts _ _ _ _ _ _ _ _ Hdr) as [(-> & _ & _ & _)|(rows & cur & kept & db1 & D)]; [by apply elem_of_nil in Hq|].
  destruct (out_row D q Hwf Hq) as (r' & c & s & Hr' & -> & Hcur & [Hidc Htc Hfull]).
  rewrite (dn_rows _ _ _ _ _ _ _ _ _ _ _ _ D) in Hr'. apply elem_of_drain_rows in Hr' as [Hr' Hok].
  cbn in Hidc. assert (r' = r) as ->.
  { apply (log_wf_unique (db_prompts db)); [done..|]. unfold row_id, PromptRow_id. congruence. }
  pose proof (drainable_open _ _ _ _ _ Hok) as Hopen. destruct Hw as [Hp [[_ Hs]|[Ha Hv]]]; [done|].
  destruct (is_named_read (dr_transport d)) eqn:Hnamed.
  2: { unfold drainable in Hok. rewrite Hnamed in Hok. cbn [orb] in Hok. bool_to_prop.
       match goal with H' : not_explicitly_acked r = true |- _ => revert H' end. unfold not_explicitly_acked, broadcast.
       rewrite (proj2 (String.eqb_neq _ _) Ht), Hv. destruct Ha as [? ->]. done. }
  destruct (Hfull Href) as [t Hf]. pose proof (dn_split D Hwf) as S.
  destruct (es_step _ _ _ _ _ S Hwf) as (Hwf1 & Hev & _).
  destruct (es_sources _ _ _ _ _ S) as (_ & _ & _ & Hkept). destruct (Hkept r Hr) as (r1 & Hr1 & Hid1).
  assert (prompt_le r r1) as Hle by (apply (evolves_origin prompt_le (db_prompts db) (db_prompts db1)); done).
  destruct Hle as (_ & _ & _ & _ & Hack & _ & _ & Hwd). destruct (Hack Ha) as [ta Hta].
  destruct (Hwd (conj Hp (or_intror (conj Ha Hv)))) as [_ [[Hn _]|[_ Hv1]]]; [congruence|].
  revert Hf. unfold recipient_delivery_on_conn. cbn.
  rewrite (log_get_intro (pq_id r) _ r1) by done. rewrite (proj2 (String.eqb_neq _ _) Ht), Hta, Hv1.
  by destruct (pt_acks _ !! _).
Qed.

(** C7: A drain loses no mail.  Every row it selects is handed over, as mail or as
    a reference, or it is a relay that expired, which is then settled and
    acknowledged, or an action relay that the project hold keeps back, or it did
    not fit what the budget had left and keeps the receipt it had. *)
Theorem drain_loses_no_mail clk hold limit d db out over db' r :
  log_wf (db_prompts db) → drain_source (dr_source d) → asks d = true → (∀ b, dr_budget d = Some b → 0 ≤ b) →
  drain_unseen_for_recipient_budgeted has_agents has_outbox_index clk hold limit d db = Ok (out, over, db') →
  r ∈ drain_rows has_agents (hold 0%nat) (clk 0%nat - duration_seconds PROMPT_QUEUE_STALE_TTL_SECS) limit d db →
  (∃ q, q ∈ out ∧ qd_id q = pq_id r)
  ∨ (expired (clk 1%nat) (prompt_from_row r) db ∧ retired (pq_id r) db')
  ∨ (hold 1%nat = true ∧ is_action_relay (pq_prompt r) = true)
  ∨ (∃ b cost, dr_budget d = Some b ∧ (pq_id r, cost) ∈ over ∧ total_cost out ≤ b < cost + total_cost out
       ∧ receipts db' !! (pq_id r, dr_recipient d) = receipts db !! (pq_id r, dr_recipient d)).
Proof.
  intros Hwf Hd Hasks Hb Hdr Hr.
  destruct (drain_parts _ _ _ _ _ _ _ _ Hdr) as [(_ & _ & _ & Hnone)|(rows & cur & kept & db1 & D)].
  { rewrite Hnone in Hr by done. by apply elem_of_nil in Hr. }
  pose proof (dn_split D Hwf) as S. pose proof (dn_rows _ _ _ _ _ _ _ _ _ _ _ _ D) as Hrows. rewrite <-Hrows in Hr.
  pose proof (es_step _ _ _ _ _ S Hwf) as (Hwf1 & _).
  pose proof (dn_write _ _ _ _ _ _ _ _ _ _ _ _ D) as ->.
  destruct (es_all _ _ _ _ _ S (prompt_from_row r)) as [[Hex Hret]|[s Hc]]; [by apply list_elem_of_fmap_2|..].
  { right; left. split; [done|]. eapply retired_step, Hret; [done|].
    apply record_drained_step; [done|done|by apply (out_open D)]. }
  set (c := prompt_from_row r <| qd_summary := s |>) in *.
  destruct (hold 1%nat && is_action_relay (pq_prompt r)) eqn:Hrelay; [right; right; left; by apply andb_true_iff in Hrelay|].
  assert (c ∈ (λ p : QueuedPrompt * QueuedPrompt, p.1) <$> kept) as Hck.
  { rewrite (dn_kept _ _ _ _ _ _ _ _ _ _ _ _ D). destruct (hold 1%nat); [|done].
    apply list_elem_of_In, List.filter_In. split; [by apply list_elem_of_In|]. cbn in Hrelay |- *. by rewrite Hrelay. }
  apply list_elem_of_fmap_1 in Hck as ([c' q] & Hcq & Hk). cbn in Hcq. subst c'.
  pose proof (dn_shown _ _ _ _ _ _ _ _ _ _ _ _ D) as Hsh. rewrite Forall_forall in Hsh.
  destruct (Hsh _ Hk) as [Hid _ _]. cbn in Hid.
  destruct (decide (pq_id r ∈ qd_id <$> out)) as [Hin|Hout].
  { left. apply list_elem_of_fmap_1 in Hin as (q' & Hq' & ?). by exists q'. }
  right; right; right. pose proof (dn_budget _ _ _ _ _ _ _ _ _ _ _ _ D) as Hbud.
  apply (list_elem_of_fmap_2 snd) in Hk. cbn in Hk.
  change (snd <$> kept) with ((λ p : QueuedPrompt * QueuedPrompt, p.2) <$> kept) in Hk.
  unfold within_budget in Hbud. destruct (dr_budget d) as [b|] eqn:Hbd.
  2: { injection Hbud as <- _. destruct Hout. rewrite <-Hid. by apply list_elem_of_fmap_2. }
  destruct (fit_budget_spec b ((λ p : QueuedPrompt * QueuedPrompt, p.2) <$> kept)) as (H1 & H2 & H3); [by apply Hb|].
  rewrite Hbud in H1, H2, H3. cbn [fst snd] in H1, H2, H3. destruct (H3 q Hk) as [Hq|Hq].
  { destruct Hout. rewrite <-Hid. by apply list_elem_of_fmap_2. }
  rewrite Hid in Hq. exists b, (hook_surface_cost (qd_prompt q)). split_and!; [done|done|done|by apply (H2 _ Hq)|].
  rewrite record_drained_other; [by rewrite (es_receipts _ _ _ _ _ S)|].
  intros q' Hq' Heq. apply Hout. assert (pq_id r = qd_id q') as -> by congruence. by apply list_elem_of_fmap_2.
Qed.

(** ** The status of an inbox *)
Definition next_poll (recipient : string) (factory_session : option string) : Drain :=
  mkDrain recipient factory_session SurfacingSource_InboxPoll None TransportEligibility_Any [] None.
Lemma unseen_is_drainable held cutoff recipient session db r :
  drainable has_agents held cutoff (next_poll recipient session) db r
  = unseen_for_recipient has_agents cutoff recipient session db r && negb (acknowledged_by recipient db r)
    && negb (held && is_action_relay (pq_prompt r)).
Proof.
  unfold drainable, unseen_for_recipient, drainable_stage, renders. cbn -[from_source not_explicitly_acked
    recovery_reference deliverable_stage addressed recipient_session broadcast_audience acknowledged_by Z.leb is_action_relay].
  set (m := held && is_action_relay (pq_prompt r)). set (a := acknowledged_by recipient db r). set (e := not_explicitly_acked r). set (f := recovery_reference r).
  set (g := deliverable_stage r). set (h := addressed recipient r). set (i := recipient_session session r).
  set (j := broadcast_audience has_agents recipient db r). set (k := cutoff <=? pq_created_at r).
  set (l := match seen_of _ _ _ with Some _ => _ | None => _ end). clearbody a e f g h i j k l m.
  by destruct a, e, f, g, h, i, j, k, l, m.
Qed.
Lemma length_filter_split {A} (P Q R : A → bool) (l : list A) :
  (∀ x, R x = P x && negb (Q x)) →
  length (List.filter P l) = (length (List.filter R l) + length (List.filter (λ x, P x && Q x) l))%nat.
Proof.
  intros HR. induction l as [|x l IH]; cbn; [done|]. rewrite HR. destruct (P x), (Q x); cbn; lia.
Qed.

(** C25: The status of an inbox.  Whether the project is held or not, the number of
    unseen messages is the number of rows that an unlimited poll would select, of
    the rows that the recipient acknowledged without reading, which no poll
    returns, and, under a hold, of the action relays that the hold keeps back; a
    peek shows all of them. *)
Theorem inbox_count_spec clk recipient session held db n :
  str_is_empty (trim recipient) = false →
  (count_unseen_for_recipient has_agents clk recipient session db ≤ n)%nat → (0 < n)%nat → Z.of_nat n < 2 ^ 63 →
  let cutoff := clk 0%nat - duration_seconds PROMPT_QUEUE_STALE_TTL_SECS in
  let unseen := unseen_for_recipient has_agents cutoff recipient session db in
  length (peek_unseen_for_recipient has_agents clk recipient session n db)
  = count_unseen_for_recipient has_agents clk recipient session db
  ∧ count_unseen_for_recipient has_agents clk recipient session db
    = (log_count (drainable has_agents held cutoff (next_poll recipient session) db) (db_prompts db)
       + log_count (λ r, unseen r && acknowledged_by recipient db r) (db_prompts db)
       + log_count (λ r, unseen r && negb (acknowledged_by recipient db r)
                         && (held && is_action_relay (pq_prompt r))) (db_prompts db))%nat.
Proof.
  intros Hr Hc Hn Hmax cutoff unseen.
  unfold count_unseen_for_recipient, unseen_for_recipient_summary, peek_unseen_for_recipient in *.
  rewrite Hr in *. cbn [fst orb] in *. fold cutoff in Hc |- *. split.
  - destruct (Nat.eqb_spec n 0) as [|_]; [lia|]. rewrite length_fmap. unfold sql_limit.
    rewrite as_i64_small by lia. destruct (Z.ltb_spec (Z.of_nat n) 0) as [|_]; [lia|].
    rewrite Nat2Z.id, length_take, order_by_perm. lia.
  - fold unseen. unfold log_count, log_select.
    rewrite (length_filter_split unseen (acknowledged_by recipient db)
               (λ r, unseen r && negb (acknowledged_by recipient db r))) by done.
    rewrite (length_filter_split (λ r, unseen r && negb (acknowledged_by recipient db r))
               (λ r, held && is_action_relay (pq_prompt r))
               (drainable has_agents held cutoff (next_poll recipient session) db))
      by (intros r; apply unseen_is_drainable).
    lia.
Qed.

(** ** Policy of a row *)
Lemma stamp_recipient_device_step id device db x db' :
  stamp_recipient_device id device db = Ok (x, db') → handling_step db db'.
Proof.
  unfold stamp_recipient_device. destruct (str_is_empty _); [done|]. destruct (_ =? _)%nat; [done|].
  intros [= _ <-]. apply handling_quiet. intros r. apply row_step_quiet; by (done || left).
Qed.
Lemma suppress_all_step stamps detail ids db db' :
  suppress_all has_agents stamps detail ids db = Ok db' → handling_step db db'.
Proof.
  revert stamps db. induction ids as [|id ids IH]; intros stamps db Hs; cbn in Hs; [by injection Hs as <-|].
  apply bind_Ok in Hs as (db1 & H1 & Hs). etrans; [|by eapply IH]. by eapply handling_frame, stamp_spec, H1.
Qed.
Lemma stamp_broadcast_policy_step clk id key sticky db x db' :
  stamp_broadcast_policy has_agents clk id key sticky db = Ok (x, db') → handling_step db db'.
Proof.
  unfold stamp_broadcast_policy. destruct (_ =? _)%nat; [done|].
  set (db1 := update_prompts _ _ db). assert (handling_step db db1) as H1.
  { apply handling_quiet. intros r. apply row_step_quiet; by (done || left). }
  destruct (trimmed_nonempty key); [|by intros [= _ <-]].
  intros (db2 & H2 & [= _ <-])%bind_Ok. etrans; [exact H1|by eapply suppress_all_step].
Qed.
End statements.
