(* ===== verification/LaneSpec.v ===== *)
(** * What the delivery lanes promise

    Both lanes lend an event to one drain at a time: they refine the machine
    [lease_step].  A lease excludes every other claim until it ends, a holder that
    lost its lease settles nothing, an event keeps its identity and payload, a
    receipt is final, and the bytes that are uploaded change only by a new seal.
    An offline command is admitted once. *)

From S2P Require Import Prelude Logs Enums Db SupervisorQueue PromptTypes PromptNotices PromptQueue PromptDrain OperatorLanes PromptQueueSpec PromptDrainSpec.

Implicit Types (db : Db) (e t : string) (o : OutboxRow) (c : CloudRow) (clk : Clock).
Abbreviation outbox db := (pt_outbox (db_prompt_receipts db)).
Abbreviation cloud db := (op_cloud (db_operator db)).

(** ** A row of a table with a key *)
Section keyed.
Context {R : Type} (key : R → string).
Implicit Types (l : list R).
Definition row_at e l : option R := head (List.filter (λ x, String.eqb (key x) e) l).
Lemma row_at_Some e l x : row_at e l = Some x → x ∈ l ∧ key x = e.
Proof.
  unfold row_at. intros Hx. assert (x ∈ List.filter (λ x, String.eqb (key x) e) l) as Hin.
  { destruct (List.filter _ l); [done|]. injection Hx as ->. left. }
  apply list_elem_of_In, List.filter_In in Hin as [? ?%String.eqb_eq]. split; [by apply list_elem_of_In|done].
Qed.
Lemma row_at_intro e l x : NoDup (key <$> l) → x ∈ l → key x = e → row_at e l = Some x.
Proof.
  unfold row_at. induction l as [|y l IH]; cbn; [by intros _ ?%elem_of_nil|]. intros [Hy Hnd]%NoDup_cons Hx Hk.
  destruct (String.eqb_spec (key y) e) as [He|He].
  - apply elem_of_cons in Hx as [->|Hx]; [done|]. destruct Hy. rewrite He, <-Hk. by apply list_elem_of_fmap_2.
  - apply elem_of_cons in Hx as [->|Hx]; [done|]. by apply IH.
Qed.
Lemma row_at_None e l x : row_at e l = None → x ∈ l → key x ≠ e.
Proof.
  unfold row_at. induction l as [|y l IH]; cbn; [by intros _ ?%elem_of_nil|].
  destruct (String.eqb_spec (key y) e) as [He|He]; [done|]. intros Hn [->|Hx]%elem_of_cons; auto.
Qed.
Lemma row_at_update e (P : R → bool) f l :
  (∀ x, key (f x) = key x) →
  row_at e ((λ x, if P x then f x else x) <$> l) = (λ x, if P x then f x else x) <$> row_at e l.
Proof.
  intros Hf. unfold row_at. induction l as [|y l IH]; cbn; [done|].
  replace (key (if P y then f y else y)) with (key y) by (by destruct (P y)).
  by destruct (String.eqb (key y) e).
Qed.
Lemma keys_update (P : R → bool) f l :
  (∀ x, key (f x) = key x) → key <$> ((λ x, if P x then f x else x) <$> l) = key <$> l.
Proof.
  intros Hf. rewrite <-list_fmap_compose. apply list_fmap_ext. intros i x _. cbn. by destruct (P x).
Qed.
Lemma row_at_app_other e l x : key x ≠ e → row_at e (l ++ [x]) = row_at e l.
Proof.
  intros Hx. unfold row_at. rewrite List.filter_app. cbn. rewrite (proj2 (String.eqb_neq _ _) Hx). by rewrite app_nil_r.
Qed.
Lemma row_at_filter e (P : R → bool) l :
  NoDup (key <$> l) → row_at e (List.filter P l) = row_at e l ∨ row_at e (List.filter P l) = None.
Proof.
  unfold row_at. induction l as [|y l IH]; cbn; [by left|]. intros [Hy Hnd]%NoDup_cons.
  destruct (String.eqb_spec (key y) e) as [He|He], (P y) eqn:HP; cbn; rewrite ?(proj2 (String.eqb_neq _ _) He); auto;
    [by rewrite He, String.eqb_refl; left|]. right.
  destruct (head (List.filter (λ x, String.eqb (key x) e) (List.filter P l))) as [x|] eqn:Hx; [|done].
  apply row_at_Some in Hx as [[Hx _]%list_elem_of_In%List.filter_In Hk]. destruct Hy. rewrite He, <-Hk.
  by apply list_elem_of_fmap_2, list_elem_of_In.
Qed.
Lemma update_none (P : R → bool) f l : (∀ x, x ∈ l → P x = false) → (λ x, if P x then f x else x) <$> l = l.
Proof.
  induction l as [|x l IH]; cbn; [done|]. intros HP. rewrite (HP x) by left. f_equal. apply IH. intros y Hy. apply HP. by right.
Qed.
End keyed.

Abbreviation event_at e db := (row_at ob_event_id e (outbox db)).
Abbreviation cloud_at e db := (row_at cl_event_id e (cloud db)).
(** PRIMARY KEY (event_id) of the two tables *)
Definition lane_keys db : Prop := NoDup (ob_event_id <$> outbox db) ∧ NoDup (cl_event_id <$> cloud db).

(** ** The abstract lease

    An event is gone, free, or held under a token until an instant in
    milliseconds. *)
Inductive Lane := Local | Cloud.
#[export] Instance Lane_eq_dec : EqDecision Lane.
Proof. solve_decision. Defined.
Inductive Lease := Gone | Free | Held (holder : option string) (until : Z).
Definition takeable (now_ms : Z) (l : Lease) : Prop :=
  match l with Gone => False | Free => True | Held _ until => until ≤ now_ms end.
(** What a step does to leases: a claim gives these events these tokens, a
    holder uses its lease of an event, or something else. *)
Inductive Label :=
  | Claim (lane : Lane) (now_ms until : Z) (taken : list (string * string))
  | Use (lane : Lane) (e t : string) (now_ms : Z)
  | Other.
Inductive lease_step (lane : Lane) (e : string) : Label → Lease → Lease → Prop :=
  | ls_claim now_ms until taken t l :
      (e, t) ∈ taken → (∀ t', (e, t') ∈ taken → t' = t) → takeable now_ms l →
      lease_step lane e (Claim lane now_ms until taken) l (Held (Some t) until)
  | ls_use t now_ms until : now_ms < until → lease_step lane e (Use lane e t now_ms) (Held (Some t) until) Free
  | ls_gone l : lease_step lane e Other l Gone
  | ls_stay label l :
      (∀ now_ms until taken t, label = Claim lane now_ms until taken → (e, t) ∉ taken) → lease_step lane e label l l.
Inductive lease_run (lane : Lane) (e : string) : list Label → Lease → Lease → Prop :=
  | lr_nil l : lease_run lane e [] l l
  | lr_cons label labels l l1 l2 :
      lease_step lane e label l l1 → lease_run lane e labels l1 l2 → lease_run lane e (label :: labels) l l2.

(** Labels that do not end a lease: claims before its end, uses by others *)
Definition undisturbed (lane : Lane) e t (until : Z) (label : Label) : Prop :=
  match label with
  | Claim lane' now_ms _ _ => lane' = lane → now_ms < until
  | Use lane' e' t' _ => (lane', e', t') ≠ (lane, e, t)
  | Other => True
  end.
Lemma held_run lane e t until labels l :
  lease_run lane e labels (Held (Some t) until) l → Forall (undisturbed lane e t until) labels →
  l = Held (Some t) until ∨ l = Gone.
Proof.
  assert (∀ s, lease_run lane e labels s l → s = Held (Some t) until ∨ s = Gone → Forall (undisturbed lane e t until) labels →
    l = Held (Some t) until ∨ l = Gone) as Hgen; [|intros Hr Hl; by eapply Hgen; [exact Hr|left|]].
  intros s. induction 1 as [s|label labels s s1 s2 Hs _ IH]; [done|]. intros Hst [Hu Hl]%Forall_cons. apply IH; [|done].
  destruct Hs as [now_ms u taken t' s Hin _ Htake|t' now_ms u Hn|s|label s _]; [|by destruct Hst as [[= -> ->]|]|by right|done].
  destruct Hst as [->| ->]; cbn in Htake, Hu; [|done]. specialize (Hu eq_refl). lia.
Qed.
(** Labels under which no claim draws a token for the event *)
Definition not_drawn (lane : Lane) e t (label : Label) : Prop :=
  match label with Claim lane' _ _ taken => lane' = lane → (e, t) ∉ taken | _ => True end.
Definition not_holder t (l : Lease) : Prop := match l with Held (Some t') _ => t' ≠ t | _ => True end.
Lemma fenced_run lane e t labels l l' :
  lease_run lane e labels l l' → Forall (not_drawn lane e t) labels → not_holder t l → not_holder t l'.
Proof.
  induction 1 as [l|label labels l l1 l2 Hs _ IH]; [done|]. intros [Hd Hl]%Forall_cons Hn. apply IH; [done|].
  destruct Hs as [now_ms u taken t' l Hin _ _|t' now_ms u _|l|label l _]; [|done..]. cbn in *.
  intros ->. by apply (Hd eq_refl).
Qed.

(** ** The lanes as lease machines *)
Definition lease_of (row : option (option string * option Z)) : Lease :=
  match row with
  | None => Gone
  | Some (_, None) => Free
  | Some (holder, Some until) => Held holder until
  end.
Definition view (lane : Lane) e db : Lease :=
  match lane with
  | Local => lease_of ((λ o, (ob_lease_token o, ob_lease_until_ms o)) <$> event_at e db)
  | Cloud => lease_of ((λ c, (cl_lease_token c, cl_lease_until_ms c)) <$> cloud_at e db)
  end.

Section lanes.
Context {host : Host} (has_agents : bool).

(** Operations that claim events, and that use a lease; the flag is the answer *)
Inductive Claims : Lane → Z → Z → list (string * string) → Db → Db → Prop :=
  | C_local now limits rand db claims db' :
      claim_operator_delivery now limits rand db = Ok (claims, db') →
      Claims Local (timestamp_millis now) (timestamp_millis (now + duration_seconds (dl_lease_seconds limits)))
        ((λ k, (ev_event_id (dc_event k), dc_lease_token k)) <$> claims) db db'
  | C_cloud machine_id now max_events lease_seconds rand db claims db' :
      claim_operator_cloud machine_id now max_events lease_seconds rand db = Ok (claims, db') →
      Claims Cloud (timestamp_millis now) (timestamp_millis now + lease_seconds * 1000)
        ((λ k, (cc_event_id k, cc_lease_token k)) <$> claims) db db'.
Inductive Uses : Lane → string → string → Z → bool → Db → Db → Prop :=
  | U_retain claim receipt now db ok db' :
      retain_operator_delivery claim receipt now db = Ok (ok, db') →
      Uses Local (ev_event_id (dc_event claim)) (dc_lease_token claim) (timestamp_millis now) ok db db'
  | U_retry claim now db ok db' :
      retry_operator_delivery claim now db = Ok (ok, db') →
      Uses Local (ev_event_id (dc_event claim)) (dc_lease_token claim) (timestamp_millis now) ok db db'
  | U_seal claim sealed now db ok db' :
      seal_operator_cloud claim sealed now db = Ok (ok, db') →
      Uses Cloud (cc_event_id claim) (cc_lease_token claim) (timestamp_millis now) ok db db'
  | U_settle claim settlement now db ok db' :
      settle_operator_cloud claim settlement now db = Ok (ok, db') →
      Uses Cloud (cc_event_id claim) (cc_lease_token claim) (timestamp_millis now) ok db db'.

(** Steps of the program as the event [e] sees them.  No later turn draws the
    identity [e], which is 128 random bits. *)
Inductive LaneStep (e : string) : Label → Db → Db → Prop :=
  | L_claim lane now_ms until taken db db' :
      Claims lane now_ms until taken db db' → LaneStep e (Claim lane now_ms until taken) db db'
  | L_use lane e' t now_ms ok db db' : Uses lane e' t now_ms ok db db' → LaneStep e (Use lane e' t now_ms) db db'
  | L_turn clk turn event_id db x db' :
      event_id ≠ e → insert_complete_operator_turn has_agents clk turn event_id db = Ok (x, db') →
      LaneStep e Other db db'
  | L_admit clk rand a db x db' :
      rand 1%nat ≠ e → admit_operator_command has_agents clk rand a db = Ok (x, db') → LaneStep e Other db db'
  | L_bind binding db x db' : bind_operator_feed binding db = Ok (x, db') → LaneStep e Other db db'
  | L_detach now db x db' : detach_operator_feed now db = Ok (x, db') → LaneStep e Other db db'
  | L_mark command_id now db x db' : mark_command_receipt_sent command_id now db = Ok (x, db') → LaneStep e Other db db'
  | L_clear db x db' : clear_prompts db = Ok (x, db') → LaneStep e Other db db'
  | L_elsewhere db db' : same_lanes db db' → LaneStep e Other db db'.
Inductive LaneRun (e : string) : list Label → Db → Db → Prop :=
  | Lr_nil db : LaneRun e [] db db
  | Lr_cons label labels db db1 db2 :
      LaneStep e label db db1 → LaneRun e labels db1 db2 → LaneRun e (label :: labels) db db2.
End lanes.

(** ** How the rows of an event change *)
Definition event_le o o' : Prop :=
  ob_event_id o' = ob_event_id o ∧ ob_prompt_id o' = ob_prompt_id o ∧ ob_factory_session o' = ob_factory_session o
  ∧ ob_payload_snapshot o' = ob_payload_snapshot o ∧ ob_created_at o' = ob_created_at o
  ∧ ob_attempts o ≤ ob_attempts o'
  ∧ (is_Some (ob_retained_at o) → ob_retained_at o' = ob_retained_at o ∧ ob_relay_receipt o' = ob_relay_receipt o).
#[export] Instance event_le_preorder : PreOrder event_le.
Proof.
  split; [intros o; by split_and!|]. intros o1 o2 o3 (? & ? & ? & ? & ? & ? & Hab) (? & ? & ? & ? & ? & ? & Hbc).
  split_and!; try congruence; [lia|]. intros Hr. destruct (Hab Hr) as [Hr1 Hc1]. destruct Hbc as [Hr2 Hc2]; [by rewrite Hr1|].
  split; congruence.
Qed.
Definition audience c := (cl_event_id c, cl_account_id c, cl_machine_id c, cl_hub_id c, cl_project_id c, cl_session_id c, cl_created_at c).
Definition sealed_bytes c := (cl_feed_generation c, cl_key_epoch c, cl_ciphertext c, cl_digest c).
Definition cloud_le c c' : Prop :=
  audience c' = audience c ∧ cl_seal_count c ≤ cl_seal_count c' ∧ cl_attempts c ≤ cl_attempts c'
  ∧ (is_Some (cl_ciphertext c') → cl_seal_count c' = cl_seal_count c → sealed_bytes c' = sealed_bytes c)
  ∧ (is_Some (cl_receipt_kind c) →
     cl_receipt_kind c' = cl_receipt_kind c ∧ cl_sequence c' = cl_sequence c ∧ cl_receipt_at c' = cl_receipt_at c
     ∧ sealed_bytes c' = sealed_bytes c).
#[export] Instance cloud_le_preorder : PreOrder cloud_le.
Proof.
  split; [intros c; by split_and!|]. intros c1 c2 c3 (Ha1 & Hs1 & Ht1 & Hb1 & Hr1) (Ha2 & Hs2 & Ht2 & Hb2 & Hr2).
  split_and!; [congruence|lia|lia| |].
  - intros Hc Hn. assert (cl_seal_count c3 = cl_seal_count c2 ∧ cl_seal_count c2 = cl_seal_count c1) as [H32 H21] by lia.
    specialize (Hb2 Hc H32). rewrite Hb2. apply Hb1; [|done]. unfold sealed_bytes in Hb2. congruence.
  - intros Hr. destruct (Hr1 Hr) as (? & ? & ? & ?). destruct Hr2 as (? & ? & ? & ?); [congruence|]. split_and!; congruence.
Qed.
(** What became of a row: it evolved or it is gone. *)
Definition evolved {R} (le : relation R) (old new : option R) : Prop :=
  match new with None => True | Some x' => ∃ x, old = Some x ∧ le x x' end.
Lemma evolved_refl {R} (le : relation R) `{!PreOrder le} x : evolved le x x.
Proof. destruct x as [x|]; [by exists x|done]. Qed.
Lemma evolved_trans {R} (le : relation R) `{!PreOrder le} a b d : evolved le a b → evolved le b d → evolved le a d.
Proof.
  unfold evolved. destruct d as [z|]; [|done]. intros H1 (y & -> & Hz). destruct H1 as (x & -> & Hx). exists x. split; [done|by etrans].
Qed.
Lemma evolved_update {R} (le : relation R) `{!PreOrder le} (P : R → bool) f old :
  (∀ x, P x = true → le x (f x)) → evolved le old ((λ x, if P x then f x else x) <$> old).
Proof. intros Hf. destruct old as [x|]; [|done]. exists x. split; [done|]. destruct (P x) eqn:HP; [by apply Hf|done]. Qed.

Definition lanes_evolve e db db' : Prop :=
  lane_keys db →
  lane_keys db' ∧ evolved event_le (event_at e db) (event_at e db') ∧ evolved cloud_le (cloud_at e db) (cloud_at e db').
#[export] Instance lanes_evolve_preorder e : PreOrder (lanes_evolve e).
Proof.
  split; [intros db Hk; split_and!; [done|apply (evolved_refl event_le)|apply (evolved_refl cloud_le)]|]. intros a b d Hab Hbd Hk.
  destruct (Hab Hk) as (Hkb & H1 & H2). destruct (Hbd Hkb) as (Hkd & H3 & H4).
  split_and!; [done|by eapply (evolved_trans event_le)|by eapply (evolved_trans cloud_le)].
Qed.
Lemma same_lanes_evolve e db db' : same_lanes db db' → lanes_evolve e db db'.
Proof.
  intros [Ho Hc] Hk. unfold lane_keys. rewrite Ho, Hc. split_and!; [apply Hk..|apply (evolved_refl event_le)|apply (evolved_refl cloud_le)].
Qed.

(** ** Updates *)
Lemma update_outbox_evolve e P f db :
  (∀ o, event_le o (f o)) → lanes_evolve e db (update_outbox P f db).
Proof.
  intros Hf [Hk1 Hk2]. assert (∀ o, ob_event_id (f o) = ob_event_id o) as Hid by (intros o; apply Hf).
  unfold lane_keys, update_outbox. cbn. rewrite keys_update, row_at_update by done.
  split_and!; [done..|by apply (evolved_update event_le)|apply (evolved_refl cloud_le)].
Qed.
Lemma update_cloud_evolve e P f db :
  (∀ c, P c = true → cloud_le c (f c)) → (∀ c, cl_event_id (f c) = cl_event_id c) →
  lanes_evolve e db (update_cloud P f db).
Proof.
  intros Hf Hid [Hk1 Hk2]. unfold lane_keys, update_cloud. cbn. rewrite keys_update, row_at_update by done.
  split_and!; [done..|apply (evolved_refl event_le)|by apply (evolved_update cloud_le)].
Qed.

(** ** Claims of the local lane *)
Section local.
Context {host : Host}.
Definition taken_local (claims : list OperatorDeliveryClaim) : list (string * string) :=
  (λ k, (ev_event_id (dc_event k), dc_lease_token k)) <$> claims.
(** [e] was given no token, or one, and then its row is leased. *)
Definition lent {R} e (taken : list (string * string)) (ids : list string) (lease : string → R → R) (old new : option R) : Prop :=
  (∀ t, (e, t) ∉ taken) ∧ new = old
  ∨ ∃ t, (e, t) ∈ taken ∧ (∀ t', (e, t') ∈ taken → t' = t) ∧ e ∈ ids ∧ new = lease t <$> old.
Lemma lent_cons {R} e i token taken ids (lease : string → R → R) old mid new :
  i ∉ ids → lent e taken ids lease mid new →
  mid = (if String.eqb i e then lease token <$> old else old) →
  lent e ((i, token) :: taken) (i :: ids) lease old new.
Proof.
  intros Hi Hl ->. destruct (String.eqb_spec i e) as [->|Hne].
  - right. destruct Hl as [[Hn ->]|(t & _ & _ & Hin & _)]; [|done]. exists token. split_and!; [left| |left|done].
    intros t' [[= ->]|Ht]%elem_of_cons; [done|]. by destruct (Hn t').
  - destruct Hl as [[Hn ->]|(t & Ht & Hu & Hin & ->)]; [left|right].
    + split; [|done]. intros t [[= -> ->]|Ht]%elem_of_cons; [done|by apply (Hn t)].
    + exists t. split_and!; [by right| |by right|done]. intros t' [[= -> ->]|Ht']%elem_of_cons; [done|auto].
Qed.

Lemma lease_event_le token until o : event_le o (lease_outbox_row token until o).
Proof. unfold lease_outbox_row. split_and!; cbn; try done; lia. Qed.
Lemma event_lease_at e i token until db :
  event_at e (update_outbox (has_event_id i) (lease_outbox_row token until) db)
  = (if String.eqb i e then lease_outbox_row token until <$> event_at e db else event_at e db).
Proof.
  unfold update_outbox. cbn. rewrite row_at_update by done. unfold has_event_id.
  destruct (event_at e db) as [o|] eqn:Ho; cbn; [|by destruct (String.eqb i e)].
  apply row_at_Some in Ho as [_ ->]. rewrite String.eqb_sym. by destruct (String.eqb i e).
Qed.
Lemma claim_events_spec e rand until max first left cands db claims db' :
  claim_events rand until max first left cands db = Ok (claims, db') → NoDup (ob_event_id <$> cands) →
  db_operator db' = db_operator db ∧ lanes_evolve e db db'
  ∧ lent e (taken_local claims) (ob_event_id <$> cands) (λ t, lease_outbox_row t (timestamp_millis until)) (event_at e db) (event_at e db').
Proof.
  revert rand first left db claims. induction cands as [|o cands IH]; intros rand first left db claims Hc Hnd; cbn in Hc.
  { injection Hc as <- <-. split_and!; [done..|left]. split; [|done]. by intros t ?%elem_of_nil. }
  destruct (_ && first); [done|]. destruct (left <? _).
  { injection Hc as <- <-. split_and!; [done..|left]. split; [|done]. by intros t ?%elem_of_nil. }
  apply NoDup_cons in Hnd as [Ho Hnd]. apply bind_Ok in Hc as ([claims' db2] & Hc & [= <- <-]).
  destruct (IH _ _ _ _ _ Hc Hnd) as (Hop & Hev & Hl). split_and!; [by rewrite Hop| |].
  - etrans; [|exact Hev]. apply update_outbox_evolve. intros o'. apply lease_event_le.
  - cbn. eapply lent_cons; [exact Ho|exact Hl|]. apply event_lease_at.
Qed.

Lemma due_events_spec now_ms limit db e :
  lane_keys db →
  NoDup (ob_event_id <$> due_events now_ms limit db)
  ∧ (e ∈ ob_event_id <$> due_events now_ms limit db → ∃ o, event_at e db = Some o ∧ outbox_due now_ms o = true).
Proof.
  intros [Hk _]. unfold due_events. split.
  - set (l := order_by _ _). assert (NoDup (ob_event_id <$> l)) as Hl.
    { unfold l. rewrite order_by_perm. eapply sublist_NoDup; [exact Hk|]. apply fmap_sublist.
      generalize (outbox db). intros rows. induction rows as [|o rows IH]; cbn; [done|]. destruct (outbox_due now_ms o); by constructor. }
    unfold sql_limit. destruct (limit <? 0); [done|]. eapply sublist_NoDup; [exact Hl|]. apply fmap_sublist, sublist_take.
  - intros (o & -> & Ho%elem_of_sql_limit%elem_of_order_by%list_elem_of_In)%list_elem_of_fmap_1.
    apply List.filter_In in Ho as [Ho Hd]. exists o. split; [|done]. by apply row_at_intro; [|apply list_elem_of_In|].
Qed.
End local.

(** ** Leases of the local lane *)
Section local_steps.
Context {host : Host}.
Lemma event_takeable now_ms o : outbox_due now_ms o = true → takeable now_ms (lease_of (Some (ob_lease_token o, ob_lease_until_ms o))).
Proof. unfold outbox_due. intros Hd. bool_to_prop. destruct (ob_lease_until_ms o); [by bool_to_prop|done]. Qed.

Lemma claim_delivery_spec e now limits rand db claims db' :
  lane_keys db → claim_operator_delivery now limits rand db = Ok (claims, db') →
  db_operator db' = db_operator db ∧ lanes_evolve e db db'
  ∧ lease_step Local e (Claim Local (timestamp_millis now) (timestamp_millis (now + duration_seconds (dl_lease_seconds limits))) (taken_local claims))
      (view Local e db) (view Local e db').
Proof.
  intros Hk. unfold claim_operator_delivery. intros (_ & _ & Hc)%bind_Ok. unfold checked_add in Hc.
  destruct (_ <=? MAX_UTC); [|done]. destruct (due_events_spec (timestamp_millis now) (dl_max_events limits) db e Hk) as [Hnd Hdue].
  destruct (claim_events_spec e _ _ _ _ _ _ _ _ _ Hc Hnd) as (Hop & Hev & Hl). split_and!; [done..|].
  destruct Hl as [[Hn Heq]|(t & Hin & Hu & Hid & Heq)].
  - cbn [view]. rewrite Heq. apply ls_stay. intros now_ms until taken t [= _ _ <-]. apply Hn.
  - destruct (Hdue Hid) as (o & Ho & Hd). cbn [view]. rewrite Heq, Ho. cbn. eapply ls_claim; [exact Hin|done|by apply event_takeable].
Qed.

(** A use of a lease of the local lane *)
Lemma use_local e e' t now_ms P f db :
  (∀ o, P o = true → has_event_id e' o && opt_eqb (ob_lease_token o) (Some t) = true) →
  (∀ o, event_at e' db = Some o → P o = true → ∃ until, ob_lease_until_ms o = Some until ∧ now_ms < until) →
  (∀ o, ob_event_id (f o) = ob_event_id o ∧ ob_lease_token (f o) = None ∧ ob_lease_until_ms (f o) = None) →
  lease_step Local e (Use Local e' t now_ms) (view Local e db) (view Local e (update_outbox P f db)).
Proof.
  intros HP Hu Hf. unfold view, update_outbox. cbn. rewrite row_at_update by apply Hf.
  destruct (event_at e db) as [o|] eqn:Ho; cbn; [|by apply ls_stay].
  destruct (P o) eqn:HPo; [|by apply ls_stay]. specialize (HP o HPo). bool_to_prop. unfold has_event_id in *. bool_to_prop.
  destruct (row_at_Some _ _ _ _ Ho) as [_ He]. assert (e' = e) as -> by congruence.
  destruct (Hu o Ho HPo) as (until & Hun & Hlt). destruct (Hf o) as (_ & -> & ->). unfold opt_eqb in *. bool_to_prop.
  match goal with Ht : ob_lease_token o = _ |- _ => rewrite Ht end. rewrite Hun. by apply ls_use.
Qed.
Lemma leased_by_until e t now_ms o :
  leased_by e t now_ms o = true →
  has_event_id e o && opt_eqb (ob_lease_token o) (Some t) = true ∧ ∃ until, ob_lease_until_ms o = Some until ∧ now_ms < until.
Proof.
  unfold leased_by. intros [Hb Hu]%andb_true_iff. split; [done|]. destruct (ob_lease_until_ms o) as [until|]; [|done].
  exists until. bool_to_prop. done.
Qed.
Lemma uses_local_spec e e' t now_ms ok db db' :
  lane_keys db → Uses Local e' t now_ms ok db db' →
  db_operator db' = db_operator db ∧ lanes_evolve e db db'
  ∧ lease_step Local e (Use Local e' t now_ms) (view Local e db) (view Local e db').
Proof.
  intros Hk Hu. inversion Hu as [claim receipt now ? ? ? Hr|claim now ? ? ? Hr| |]; subst.
  - unfold retain_operator_delivery in Hr. destruct (_ || _); [done|]. injection Hr as _ <-. split_and!; [done| |].
    + intros Hk'. set (P := λ o, _). destruct Hk' as [Hk1 Hk2].
      unfold lane_keys, update_outbox. cbn. rewrite keys_update, row_at_update by done. split_and!; [done..| |apply (evolved_refl cloud_le)].
      apply (evolved_update event_le). intros o HP. unfold P in HP. bool_to_prop. split_and!; cbn; try done.
      match goal with H : is_none (ob_retained_at o) = true |- _ => destruct (ob_retained_at o); [done|] end. by intros [? ?].
    + apply use_local; [| |done]; intros o.
      * intros [[Hl _]%andb_true_iff _]%andb_true_iff. by apply leased_by_until in Hl as [? _].
      * intros _ [[Hl _]%andb_true_iff _]%andb_true_iff. by apply leased_by_until in Hl as [_ ?].
  - unfold retry_operator_delivery in Hr. destruct (head _) as [o|] eqn:Ho.
    2: { injection Hr as _ <-. split_and!; [done..|by apply ls_stay]. }
    unfold checked_add in Hr. destruct (_ <=? MAX_UTC); [|done]. injection Hr as _ <-. split_and!; [done| |].
    + apply update_outbox_evolve. intros o'. by split_and!.
    + apply use_local; [by intros o'| |done]. intros o' Ho' _.
      assert (o ∈ List.filter (λ o, leased_by (ev_event_id (dc_event claim)) (dc_lease_token claim) (timestamp_millis now) o
        && is_none (ob_retained_at o)) (outbox db)) as Hin by (destruct (List.filter _ _); [done|injection Ho as ->; left]).
      apply list_elem_of_In, List.filter_In in Hin as [Hin [Hl _]%andb_true_iff].
      apply leased_by_until in Hl as [[Hid _]%andb_true_iff Hun]. assert (o' = o) as ->; [|done].
      assert (event_at (ev_event_id (dc_event claim)) db = Some o) as Heq; [|congruence].
      apply row_at_intro; [apply Hk|by apply list_elem_of_In|by apply String.eqb_eq].
Qed.
End local_steps.

(** ** The cloud lane *)
Section cloud_steps.
Context {host : Host}.
Definition taken_cloud (claims : list OperatorCloudClaim) : list (string * string) :=
  (λ k, (cc_event_id k, cc_lease_token k)) <$> claims.
Lemma cloud_lease_at e i token until db :
  cloud_at e (update_cloud (has_cloud_id i) (lease_cloud_row token until) db)
  = (if String.eqb i e then lease_cloud_row token until <$> cloud_at e db else cloud_at e db).
Proof.
  unfold update_cloud. cbn. rewrite row_at_update by done. unfold has_cloud_id.
  destruct (cloud_at e db) as [c|] eqn:Hc; cbn; [|by destruct (String.eqb i e)].
  apply row_at_Some in Hc as [_ ->]. rewrite String.eqb_sym. by destruct (String.eqb i e).
Qed.
Lemma claim_cloud_spec e rand until rows db claims db' :
  claim_cloud rand until rows db = (claims, db') → NoDup ((λ p : CloudRow * OutboxRow, cl_event_id p.1) <$> rows) →
  outbox db' = outbox db ∧ lanes_evolve e db db'
  ∧ lent e (taken_cloud claims) ((λ p : CloudRow * OutboxRow, cl_event_id p.1) <$> rows)
      (λ t, lease_cloud_row t until) (cloud_at e db) (cloud_at e db').
Proof.
  revert rand db claims. induction rows as [|p rows IH]; intros rand db claims Hc Hnd; cbn in Hc.
  { injection Hc as <- <-. split_and!; [done..|left]. split; [|done]. by intros t ?%elem_of_nil. }
  apply NoDup_cons in Hnd as [Hp Hnd]. destruct (claim_cloud _ _ rows _) as [claims' db2] eqn:H2. injection Hc as <- <-.
  destruct (IH _ _ _ H2 Hnd) as (Ho & Hev & Hl). split_and!; [by rewrite Ho| |].
  - etrans; [|exact Hev]. apply update_cloud_evolve; [|done]. intros c _. unfold lease_cloud_row. split_and!; cbn; try done; lia.
  - cbn. eapply lent_cons; [exact Hp|exact Hl|]. apply cloud_lease_at.
Qed.
Lemma due_cloud_spec machine_id now_ms limit db e :
  lane_keys db →
  NoDup ((λ p : CloudRow * OutboxRow, cl_event_id p.1) <$> due_cloud machine_id now_ms limit db)
  ∧ (e ∈ (λ p : CloudRow * OutboxRow, cl_event_id p.1) <$> due_cloud machine_id now_ms limit db →
     ∃ c, cloud_at e db = Some c ∧ cloud_due machine_id now_ms c = true).
Proof.
  intros [_ Hk]. unfold due_cloud.
  set (joined := omap _ _). set (l := order_by _ _). assert ((λ p : CloudRow * OutboxRow, cl_event_id p.1) <$> joined
    `sublist_of` cl_event_id <$> cloud db ∧ ∀ p, p ∈ joined → p.1 ∈ cloud db ∧ cloud_due machine_id now_ms p.1 = true) as [Hs Hin].
  { unfold joined. clear Hk. assert (∀ cs, (λ p : CloudRow * OutboxRow, cl_event_id p.1)
      <$> omap (λ c, o ← event_of c db; Some (c, o)) (List.filter (cloud_due machine_id now_ms) cs) `sublist_of` cl_event_id <$> cs) as Hsub.
    { induction cs as [|c cs IH]; cbn; [done|]. destruct (cloud_due machine_id now_ms c); cbn; [|by constructor].
      destruct (event_of c db); cbn; by constructor. }
    split; [apply Hsub|]. intros p (c & Hc%list_elem_of_In%List.filter_In & Hp)%list_elem_of_omap.
    destruct (event_of c db); [|done]. injection Hp as <-. by rewrite list_elem_of_In. }
  split.
  - assert (NoDup ((λ p : CloudRow * OutboxRow, cl_event_id p.1) <$> l)) as Hl.
    { unfold l. rewrite order_by_perm. by eapply sublist_NoDup. }
    unfold sql_limit. destruct (limit <? 0); [done|]. eapply sublist_NoDup; [exact Hl|]. apply fmap_sublist, sublist_take.
  - intros (p & -> & Hp%elem_of_sql_limit%elem_of_order_by)%list_elem_of_fmap_1. destruct (Hin p Hp) as [Hc Hd].
    exists p.1. split; [|done]. by apply row_at_intro.
Qed.
Lemma claim_operator_cloud_spec e machine_id now max_events lease_seconds rand db claims db' :
  lane_keys db → claim_operator_cloud machine_id now max_events lease_seconds rand db = Ok (claims, db') →
  outbox db' = outbox db ∧ lanes_evolve e db db'
  ∧ lease_step Cloud e (Claim Cloud (timestamp_millis now) (timestamp_millis now + lease_seconds * 1000) (taken_cloud claims))
      (view Cloud e db) (view Cloud e db').
Proof.
  intros Hk. unfold claim_operator_cloud. destruct (_ || _); [done|]. intros [= Hc].
  destruct (due_cloud_spec machine_id (timestamp_millis now) max_events db e Hk) as [Hnd Hdue].
  destruct (claim_cloud_spec e _ _ _ _ _ _ Hc Hnd) as (Ho & Hev & Hl). split_and!; [done..|].
  destruct Hl as [[Hn Heq]|(t & Hin & Hu & Hid & Heq)]; cbn [view].
  - rewrite Heq. apply ls_stay. intros now_ms until taken t [= _ _ <-]. apply Hn.
  - destruct (Hdue Hid) as (c & Hcl & Hd). rewrite Heq, Hcl. cbn. eapply ls_claim; [exact Hin|done|].
    unfold cloud_due in Hd. bool_to_prop. destruct (cl_lease_until_ms c); [by bool_to_prop|done].
Qed.

Lemma cloud_leased_until claim now_ms c :
  cloud_leased claim now_ms c = true →
  cl_event_id c = cc_event_id claim ∧ cl_lease_token c = Some (cc_lease_token claim)
  ∧ ∃ until, cl_lease_until_ms c = Some until ∧ now_ms < until.
Proof.
  unfold cloud_leased, has_cloud_id, opt_eqb. intros Hl. bool_to_prop. split_and!; [done..|].
  destruct (cl_lease_until_ms c) as [until|]; [|done]. exists until. by bool_to_prop.
Qed.
(** A settlement ends the lease, a seal keeps it. *)
Lemma use_cloud e claim now_ms P f db :
  (∀ c, P c = true → cloud_leased claim now_ms c = true) →
  (∀ c, cl_event_id (f c) = cl_event_id c) →
  (∀ c, cl_lease_token (f c) = None ∧ cl_lease_until_ms (f c) = None)
  ∨ (∀ c, cl_lease_token (f c) = cl_lease_token c ∧ cl_lease_until_ms (f c) = cl_lease_until_ms c) →
  lease_step Cloud e (Use Cloud (cc_event_id claim) (cc_lease_token claim) now_ms) (view Cloud e db)
    (view Cloud e (update_cloud P f db)).
Proof.
  intros HP Hid Hf. unfold view, update_cloud. cbn. rewrite row_at_update by done.
  destruct (cloud_at e db) as [c|] eqn:Hc; cbn; [|by apply ls_stay].
  destruct (P c) eqn:HPc; [|by apply ls_stay]. destruct (cloud_leased_until _ _ _ (HP c HPc)) as (Hev & Ht & until & Hu & Hlt).
  destruct (row_at_Some _ _ _ _ Hc) as [_ <-].
  destruct Hf as [Hf|Hf]; destruct (Hf c) as [-> ->]; [|by apply ls_stay]. rewrite Ht, Hu, Hev. by apply ls_use.
Qed.
Lemma uses_cloud_spec e e' t now_ms ok db db' :
  Uses Cloud e' t now_ms ok db db' →
  outbox db' = outbox db ∧ lanes_evolve e db db'
  ∧ lease_step Cloud e (Use Cloud e' t now_ms) (view Cloud e db) (view Cloud e db').
Proof.
  intros Hu. inversion Hu as [| |claim sealed now ? ? ? Hr|claim settlement now ? ? ? Hr]; subst.
  - injection Hr as _ <-. split_and!; [done| |].
    + apply update_cloud_evolve; [|done]. intros c HP. bool_to_prop.
      split_and!; cbn; try done; [lia|lia|]. intros [k Hk]. by rewrite Hk in *.
    + apply use_cloud; [|done|by right]. intros c [[? _]%andb_true_iff _]%andb_true_iff. done.
  - destruct settlement as [kind sequence| | |reason]; unfold settle_operator_cloud in Hr; [destruct (_ && _) in Hr; [done|]|..];
      injection Hr as _ <-; split_and!; try done;
      try (apply use_cloud; [|done|by left]; intros c Hc; bool_to_prop; done);
      (apply update_cloud_evolve; [|done]); intros c HP; bool_to_prop; split_and!; cbn; try done; try lia;
      try (by intros [? ?]); intros [k Hk]; by rewrite Hk in *.
Qed.
End cloud_steps.

(** ** Steps that leave an event alone *)
Definition stays e db db' : Prop :=
  lane_keys db → lane_keys db' ∧ event_at e db' = event_at e db ∧ cloud_at e db' = cloud_at e db.
#[export] Instance stays_preorder e : PreOrder (stays e).
Proof.
  split; [by intros db Hk|]. intros a b d Hab Hbd Hk. destruct (Hab Hk) as (Hkb & H1 & H2).
  destruct (Hbd Hkb) as (Hkd & H3 & H4). split_and!; [done|congruence..].
Qed.
Lemma same_lanes_stays e db db' : same_lanes db db' → stays e db db'.
Proof. intros [Ho Hc] Hk. unfold lane_keys. rewrite Ho, Hc. by split_and!; [apply Hk..| |]. Qed.
Lemma stays_evolve e db db' : stays e db db' → lanes_evolve e db db'.
Proof.
  intros Hs Hk. destruct (Hs Hk) as (Hk' & -> & ->).
  split_and!; [done|apply (evolved_refl event_le)|apply (evolved_refl cloud_le)].
Qed.
Lemma NoDup_key_app {R} (key : R → string) l x :
  NoDup (key <$> l) → existsb (λ y, String.eqb (key y) (key x)) l = false → NoDup (key <$> (l ++ [x])).
Proof.
  intros Hnd Hex. rewrite fmap_app, NoDup_app. split_and!; [done| |apply NoDup_singleton].
  intros k (y & -> & Hin)%list_elem_of_fmap_1 Hy%list_elem_of_singleton.
  assert (existsb (λ y, String.eqb (key y) (key x)) l = true) as Ht; [|congruence].
  apply existsb_exists. exists y. split; [by apply list_elem_of_In|]. by rewrite Hy, String.eqb_refl.
Qed.

Section turns.
Context {host : Host} (has_agents : bool).
Lemma record_turn_event_stays e turn event_id now id db db' :
  event_id ≠ e → record_turn_event turn event_id now id db = Ok db' → stays e db db'.
Proof.
  intros Hne. unfold record_turn_event. destruct (has_event turn); [|by intros [= <-]].
  intros (db1 & H1 & H2)%bind_Ok. transitivity db1.
  - unfold insert_outbox_row in H1. cbn in H1. destruct (existsb _ _) eqn:Hex in H1; [done|].
    destruct (existsb _ _) in H1; [done|]. injection H1 as <-. intros [Hk1 Hk2]. unfold lane_keys. cbn. rewrite row_at_app_other by done.
    split_and!; [|done..]. by apply (NoDup_key_app ob_event_id).
  - unfold insert_cloud_outbox_row in H2. cbn in H2. destruct (active_binding db1) as [b|]; [|by injection H2 as <-].
    destruct (ot_factory_session turn) as [session|]; [|by injection H2 as <-]. destruct (existsb _ _) eqn:Hex in H2; [done|].
    injection H2 as <-. intros [Hk1 Hk2]. unfold lane_keys. cbn. rewrite row_at_app_other by done.
    split_and!; [done| |done..]. by apply (NoDup_key_app cl_event_id).
Qed.
Lemma confirm_answered_lanes stamp now ack_id db db' :
  confirm_answered has_agents stamp now ack_id db = Ok db' → same_lanes db db'.
Proof.
  unfold confirm_answered. destruct ack_id as [id|]; [|by intros [= <-]]. intros (db1 & H1 & [= <-])%bind_Ok.
  assert (same_lanes db db1) as Hs; [|by destruct Hs].
  destruct (existsb _ _); [|by injection H1 as <-]. by apply stamp_sources in H1 as (_ & _ & ? & _).
Qed.
Lemma turn_stays e clk turn event_id db x db' :
  event_id ≠ e → insert_complete_operator_turn has_agents clk turn event_id db = Ok (x, db') → stays e db db'.
Proof.
  intros Hne. unfold insert_complete_operator_turn. destruct (match om_dedupe_key _ with Some _ => _ | None => _ end); [by intros [= _ <-]|].
  intros H0. apply bind_Ok in H0 as ([id q] & _ & H0). apply bind_Ok in H0 as (db1 & H1 & H0).
  apply bind_Ok in H0 as (db2 & H2 & [= _ <-]). transitivity db1; [|by eapply same_lanes_stays, confirm_answered_lanes].
  apply (record_turn_event_stays e) in H1; [|done]. exact H1.
Qed.
Lemma admit_stays e clk rand a db x db' :
  rand 1%nat ≠ e → admit_operator_command has_agents clk rand a db = Ok (x, db') → stays e db db'.
Proof.
  intros Hne. unfold admit_operator_command. destruct (_ || _); [done|].
  destruct (op_admissions _ !! _) as [existing|]; [by intros [= _ <-]|].
  intros ([outcome db1] & H1%(turn_stays e) & H2)%bind_Ok; [|done]. destruct outcome; [|done].
  destruct (sql_exists _ _); [done|]. destruct (sql_exists _ _); [done|]. injection H2 as _ <-. exact H1.
Qed.

(** ** Refinement *)
Lemma Claims_other lane lane' e now_ms until taken db db' :
  Claims lane' now_ms until taken db db' → lane' ≠ lane → lane_keys db → view lane e db' = view lane e db.
Proof.
  intros Hc Hl Hk. destruct Hc as [now limits rand db claims db' Hc|machine_id now n secs rand db claims db' Hc].
  - destruct (claim_delivery_spec e _ _ _ _ _ _ Hk Hc) as (Hop & _). destruct lane; [done|]. unfold view. by rewrite Hop.
  - destruct (claim_operator_cloud_spec e _ _ _ _ _ _ _ _ Hk Hc) as (Ho & _). destruct lane; [|done]. unfold view. by rewrite Ho.
Qed.
Lemma lane_step_refines lane e label db db' :
  lane_keys db → LaneStep has_agents e label db db' →
  lanes_evolve e db db' ∧ lease_step lane e label (view lane e db) (view lane e db').
Proof.
  intros Hk Hs. assert (stays e db db' → label = Other →
    lanes_evolve e db db' ∧ lease_step lane e label (view lane e db) (view lane e db')) as Hstay.
  { intros Hst ->. split; [by apply stays_evolve|]. destruct (Hst Hk) as (_ & Ho & Hc).
    assert (view lane e db' = view lane e db) as -> by (unfold view; destruct lane; by rewrite ?Ho, ?Hc). by apply ls_stay. }
  destruct Hs as [lane' now_ms until taken db db' Hc|lane' e' t now_ms ok db db' Hu|? ? ? ? ? ? Hne Ht|? ? ? ? ? ? Hne Ha
    |binding db x db' Hb|now db x db' [= _ <-]|? ? ? ? ? [= _ <-]|db x db' [= _ <-]|db db' Hl].
  - split.
    + destruct Hc as [? ? ? ? ? ? Hc|? ? ? ? ? ? ? ? Hc]; [eapply claim_delivery_spec in Hc|eapply claim_operator_cloud_spec in Hc]; by try apply Hc.
    + destruct (decide (lane' = lane)) as [->|Hne].
      * destruct Hc as [? ? ? ? ? ? Hc|? ? ? ? ? ? ? ? Hc].
        -- by destruct (claim_delivery_spec e _ _ _ _ _ _ Hk Hc) as (_ & _ & ?).
        -- by destruct (claim_operator_cloud_spec e _ _ _ _ _ _ _ _ Hk Hc) as (_ & _ & ?).
      * rewrite (Claims_other lane lane' e _ _ _ _ _ Hc Hne Hk). apply ls_stay. congruence.
  - destruct lane'.
    + destruct (uses_local_spec e _ _ _ _ _ _ Hk Hu) as (Hop & Hev & Hls). split; [done|]. destruct lane; [done|].
      unfold view. rewrite Hop. by apply ls_stay.
    + destruct (uses_cloud_spec e _ _ _ _ _ _ Hu) as (Ho & Hev & Hls). split; [done|]. destruct lane; [|done].
      unfold view. rewrite Ho. by apply ls_stay.
  - apply Hstay; [|done]. by eapply turn_stays.
  - apply Hstay; [|done]. by eapply admit_stays.
  - apply Hstay; [|done]. unfold bind_operator_feed in Hb. destruct (negb _); [done|].
    destruct (active_binding db) as [b|]; [destruct (same_audience b binding); [|done]|]; by injection Hb as _ <-.
  - by apply Hstay.
  - by apply Hstay.
  - split.
    + intros [Hk1 Hk2]. unfold lane_keys. cbn. split_and!; [apply NoDup_nil_2| |done|].
      * eapply sublist_NoDup; [exact Hk2|]. apply fmap_sublist. generalize (cloud db). intros cs.
        induction cs as [|c cs IH]; cbn; [done|]. destruct (negb _); by constructor.
      * destruct (row_at_filter cl_event_id e (λ c, negb (existsb (λ o, String.eqb (ob_event_id o) (cl_event_id c)) (outbox db))) (cloud db) Hk2)
          as [-> | ->]; [apply (evolved_refl cloud_le)|done].
    + destruct lane; [apply ls_gone|]. unfold view. cbn.
      destruct (row_at_filter cl_event_id e (λ c, negb (existsb (λ o, String.eqb (ob_event_id o) (cl_event_id c)) (outbox db))) (cloud db) (proj2 Hk))
        as [-> | ->]; [by apply ls_stay|apply ls_gone].
  - apply Hstay; [|done]. by apply same_lanes_stays.
Qed.
Lemma lane_run_refines lane e labels db db' :
  lane_keys db → LaneRun has_agents e labels db db' →
  lanes_evolve e db db' ∧ lease_run lane e labels (view lane e db) (view lane e db').
Proof.
  intros Hk. induction 1 as [db|label labels db db1 db2 Hs _ IH]; [by split; [|constructor]|].
  destruct (lane_step_refines lane _ _ _ _ Hk Hs) as [Hev Hl]. destruct (Hev Hk) as [Hk1 _].
  destruct (IH Hk1) as [Hev' Hl']. split; [by etrans|by econstructor].
Qed.
Lemma claims_spec lane e now_ms until taken db db' :
  lane_keys db → Claims lane now_ms until taken db db' →
  lanes_evolve e db db' ∧ lease_step lane e (Claim lane now_ms until taken) (view lane e db) (view lane e db').
Proof. intros Hk Hc. apply lane_step_refines; [done|by constructor]. Qed.
(** Who takes an event had no one before it, and holds it after. *)
Lemma claim_takes lane e now_ms until taken l l' t :
  lease_step lane e (Claim lane now_ms until taken) l l' → (e, t) ∈ taken →
  takeable now_ms l ∧ l' = Held (Some t) until.
Proof.
  intros Hs Hin. inversion Hs as [? ? ? t' ? _ Hu Ht| | |? ? Hn]; subst; [|by destruct (Hn _ _ _ t eq_refl)].
  by rewrite <-(Hu t Hin).
Qed.

(** A use by someone who does not hold the lease does nothing. *)
Lemma filter_none {R} (P : R → bool) l : (∀ x, x ∈ l → P x = false) → List.filter P l = [].
Proof.
  induction l as [|x l IH]; cbn; [done|]. intros HP. rewrite (HP x) by left. apply IH. intros y Hy. apply HP. by right.
Qed.
Lemma update_receipts_same f db : f (db_prompt_receipts db) = db_prompt_receipts db → db <| db_prompt_receipts ::= f |> = db.
Proof. destruct db. unfold update. cbn. by intros ->. Qed.
Lemma update_operator_same f db : f (db_operator db) = db_operator db → db <| db_operator ::= f |> = db.
Proof. destruct db. unfold update. cbn. by intros ->. Qed.
Lemma update_outbox_none P f db : (∀ o, o ∈ outbox db → P o = false) → update_outbox P f db = db.
Proof.
  intros HP. apply update_receipts_same. destruct (db_prompt_receipts db) as [s tr a l ob].
  exact (f_equal (λ l, mkPromptReceipts s tr a l ob) (update_none P f l HP)).
Qed.
Lemma update_cloud_none P f db : (∀ c, c ∈ cloud db → P c = false) → update_cloud P f db = db.
Proof.
  intros HP. apply update_operator_same. destruct (db_operator db) as [b l a].
  exact (f_equal (λ l, mkOperatorTables b l a) (update_none P f l HP)).
Qed.
Lemma not_holder_local e t now_ms db o :
  lane_keys db → not_holder t (view Local e db) → o ∈ outbox db → leased_by e t now_ms o = false.
Proof.
  intros [Hk _] Hn Ho. destruct (leased_by e t now_ms o) eqn:Hl; [|done]. exfalso.
  apply leased_by_until in Hl as [[Hid Ht]%andb_true_iff (until & Hu & _)]. unfold has_event_id, opt_eqb in *. bool_to_prop.
  assert (event_at e db = Some o) as Hat by (by apply row_at_intro).
  unfold view in Hn. rewrite Hat in Hn. cbn in Hn. rewrite Hu in Hn. cbn in Hn.
  destruct (ob_lease_token o); congruence.
Qed.
Lemma not_holder_cloud claim now_ms db c :
  lane_keys db → not_holder (cc_lease_token claim) (view Cloud (cc_event_id claim) db) → c ∈ cloud db →
  cloud_leased claim now_ms c = false.
Proof.
  intros [_ Hk] Hn Hc. destruct (cloud_leased claim now_ms c) eqn:Hl; [|done]. exfalso.
  apply cloud_leased_until in Hl as (Hid & Ht & until & Hu & _).
  assert (cloud_at (cc_event_id claim) db = Some c) as Hat by (by apply row_at_intro).
  unfold view in Hn. rewrite Hat in Hn. cbn in Hn. rewrite Ht, Hu in Hn. cbn in Hn. congruence.
Qed.
Lemma uses_fenced lane e t now_ms ok db db' :
  lane_keys db → not_holder t (view lane e db) → Uses lane e t now_ms ok db db' → ok = false ∧ db' = db.
Proof.
  intros Hk Hn Hu. destruct Hu as [claim receipt now db ok db' Hr|claim now db ok db' Hr|claim sealed now db ok db' Hr
    |claim settlement now db ok db' Hr].
  - assert (∀ o, o ∈ outbox db → leased_by (ev_event_id (dc_event claim)) (dc_lease_token claim) (timestamp_millis now) o = false) as Hno
      by (intros o; by apply not_holder_local).
    unfold retain_operator_delivery in Hr. destruct (negb _); [done|]. destruct (_ || _) in Hr; [done|]. cbn in Hr. injection Hr as <- <-.
    unfold outbox_count. rewrite filter_none, update_outbox_none; [done|..]; intros o Ho; by rewrite (Hno o Ho).
  - unfold retry_operator_delivery in Hr. rewrite filter_none in Hr; [by injection Hr as <- <-|].
    intros o Ho. by rewrite (not_holder_local _ _ _ _ _ Hk Hn Ho).
  - injection Hr as <- <-. unfold cloud_count.
    rewrite filter_none, update_cloud_none; [done|..]; intros c Hc; by rewrite (not_holder_cloud _ _ _ _ Hk Hn Hc).
  - assert (∀ P f, (∀ c, P c = true → cloud_leased claim (timestamp_millis now) c = true) →
      ((0 <? cloud_count P db)%nat, update_cloud P f db) = (false, db)) as Hnone.
    { intros P f HP. assert (∀ c, c ∈ cloud db → P c = false) as HPn.
      { intros c Hc. destruct (P c) eqn:HPc; [|done]. apply HP in HPc. by rewrite (not_holder_cloud _ _ _ _ Hk Hn Hc) in HPc. }
      unfold cloud_count. by rewrite filter_none, update_cloud_none. }
    destruct settlement; unfold settle_operator_cloud in Hr; [destruct (_ && _) in Hr; [done|]|..];
      rewrite Hnone in Hr; try (by injection Hr as <- <-); intros c Hc; bool_to_prop; done.
Qed.

(** ** Admissions *)
Definition admission_le (r r' : AdmissionRow) : Prop :=
  ad_machine_digest r' = ad_machine_digest r ∧ ad_prompt_id r' = ad_prompt_id r ∧ ad_receipt_id r' = ad_receipt_id r
  ∧ ad_history_event_id r' = ad_history_event_id r.
Abbreviation admissions db := (op_admissions (db_operator db)).
Definition admissions_kept db db' : Prop :=
  ∀ k r, admissions db !! k = Some r → ∃ r', admissions db' !! k = Some r' ∧ admission_le r r'.
#[export] Instance admissions_kept_preorder : PreOrder admissions_kept.
Proof.
  split; [intros db k r Hr; by exists r|]. intros a b d Hab Hbd k r Hr. destruct (Hab k r Hr) as (r1 & H1 & Hle1).
  destruct (Hbd k r1 H1) as (r2 & H2 & Hle2). exists r2. split; [done|]. unfold admission_le in *. intuition congruence.
Qed.
Lemma same_admissions_kept db db' : admissions db' = admissions db → admissions_kept db db'.
Proof. intros Ha k r Hr. exists r. by rewrite Ha. Qed.
Lemma claim_cloud_admissions rand until rows db claims db' :
  claim_cloud rand until rows db = (claims, db') → admissions db' = admissions db.
Proof.
  revert rand db claims. induction rows as [|p rows IH]; intros rand db claims Hc; cbn in Hc; [by injection Hc as _ <-|].
  destruct (claim_cloud _ _ rows _) as [claims' db2] eqn:H2. injection Hc as _ <-. apply IH in H2. exact H2.
Qed.
Lemma turn_admissions clk turn event_id db x db' :
  insert_complete_operator_turn has_agents clk turn event_id db = Ok (x, db') → admissions db' = admissions db.
Proof.
  unfold insert_complete_operator_turn. destruct (match om_dedupe_key _ with Some _ => _ | None => _ end); [by intros [= _ <-]|].
  intros H0. apply bind_Ok in H0 as ([id q] & _ & H0). apply bind_Ok in H0 as (db1 & H1 & H0).
  apply bind_Ok in H0 as (db2 & [_ H2]%confirm_answered_lanes & [= _ <-]). rewrite H2.
  unfold record_turn_event in H1. destruct (has_event turn); [|by injection H1 as <-].
  apply bind_Ok in H1 as (db3 & H3 & H1). unfold insert_outbox_row in H3. cbn in H3.
  destruct (existsb _ _) in H3; [done|]. destruct (existsb _ _) in H3; [done|]. injection H3 as <-.
  unfold insert_cloud_outbox_row in H1. cbn in H1. destruct (active_binding _) in H1; [|by injection H1 as <-].
  destruct (ot_factory_session turn); [|by injection H1 as <-]. destruct (existsb _ _) in H1; [done|]. by injection H1 as <-.
Qed.
Lemma admit_kept clk rand a db x db' :
  admit_operator_command has_agents clk rand a db = Ok (x, db') → admissions_kept db db'.
Proof.
  unfold admit_operator_command. destruct (_ || _); [done|].
  destruct (op_admissions _ !! _) as [existing|] eqn:Hn; [by intros [= _ <-]|].
  intros ([outcome db1] & H1%turn_admissions & H2)%bind_Ok. destruct outcome; [|done].
  destruct (sql_exists _ _); [done|]. destruct (sql_exists _ _); [done|]. injection H2 as _ <-.
  intros k r Hr. exists r. split; [|done]. cbn. rewrite H1. rewrite lookup_insert_ne; [done|]. intros <-. congruence.
Qed.
Lemma lane_step_admissions e label db db' :
  LaneStep has_agents e label db db' → lane_keys db → admissions_kept db db'.
Proof.
  intros Hs Hk. destruct Hs as [lane now_ms until taken db db' Hc|lane e' t now_ms ok db db' Hu|? ? ? ? ? ? _ Ht|? ? ? ? ? ? _ Ha
    |binding db x db' Hb|now db x db' [= _ <-]|command_id now db x db' [= _ <-]|db x db' [= _ <-]|db db' [_ Hl]].
  - apply same_admissions_kept. destruct Hc as [? ? ? ? ? ? Hc|? ? ? ? ? ? ? ? Hc].
    + destruct (claim_delivery_spec e _ _ _ _ _ _ Hk Hc) as [Hop _]. by rewrite Hop.
    + unfold claim_operator_cloud in Hc. destruct (_ || _) in Hc; [done|]. injection Hc as Hc. by eapply claim_cloud_admissions.
  - apply same_admissions_kept. destruct lane.
    + destruct (uses_local_spec e _ _ _ _ _ _ Hk Hu) as [Hop _]. by rewrite Hop.
    + inversion Hu as [| |claim sealed now ? ? ? Hr|claim settlement now ? ? ? Hr]; subst; [by injection Hr as _ <-|].
      destruct settlement; unfold settle_operator_cloud in Hr; [destruct (_ && _) in Hr; [done|]|..]; by injection Hr as _ <-.
  - by eapply same_admissions_kept, turn_admissions.
  - by eapply admit_kept.
  - apply same_admissions_kept. unfold bind_operator_feed in Hb. destruct (negb _); [done|].
    destruct (active_binding db) as [b|]; [destruct (same_audience b binding); [|done]|]; by injection Hb as _ <-.
  - by apply same_admissions_kept.
  - intros k r Hr. cbn. rewrite lookup_sql_update, Hr. cbn. destruct (_ && _); eexists; (split; [done|]); by split_and!.
  - by apply same_admissions_kept.
  - apply same_admissions_kept. by rewrite Hl.
Qed.
Lemma lane_run_admissions e labels db db' :
  LaneRun has_agents e labels db db' → lane_keys db → admissions_kept db db'.
Proof.
  induction 1 as [db|label labels db db1 db2 Hs _ IH]; intros Hk; [done|].
  destruct (lane_step_refines Local _ _ _ _ Hk Hs) as [Hev _]. destruct (Hev Hk) as [Hk1 _].
  etrans; [by eapply lane_step_admissions|by apply IH].
Qed.

(** ** The contract of the lanes *)
(** C9: A claim of either lane lends an event to one drain.  Once a drain has
    drawn an event, no other claim draws it before the lease ends, whatever
    steps happen in between: turns, other claims and settlements, admissions,
    bindings, a cleared queue.  Only the holder's own settlement frees it. *)
Theorem lane_lease_is_exclusive lane e t until labels now1 now2 until2 taken1 taken2 db db1 db2 db3 :
  lane_keys db →
  Claims lane now1 until taken1 db db1 → (e, t) ∈ taken1 →
  LaneRun has_agents e labels db1 db2 → Forall (undisturbed lane e t until) labels →
  Claims lane now2 until2 taken2 db2 db3 → now2 < until →
  ∀ t', (e, t') ∉ taken2.
Proof.
  intros Hk Hc1 Hin1 Hrun Hu Hc2 Hlt t' Hin2. destruct (claims_spec lane e _ _ _ _ _ Hk Hc1) as [Hev1 Hs1].
  destruct (claim_takes _ _ _ _ _ _ _ _ Hs1 Hin1) as [_ Hv1]. destruct (Hev1 Hk) as [Hk1 _].
  destruct (lane_run_refines lane _ _ _ _ Hk1 Hrun) as [Hev2 Hr]. destruct (Hev2 Hk1) as [Hk2 _].
  destruct (claims_spec lane e _ _ _ _ _ Hk2 Hc2) as [_ Hs2]. destruct (claim_takes _ _ _ _ _ _ _ _ Hs2 Hin2) as [Htake _].
  rewrite Hv1 in Hr. destruct (held_run _ _ _ _ _ _ Hr Hu) as [Hv|Hv]; rewrite Hv in Htake; cbn in Htake; [lia|done].
Qed.

(** C10: A drain that lost its lease can no longer touch the event: when another
    claim has drawn it, and no later claim draws the old token again, every
    retention, retry, seal or settlement under the old token answers [false] and
    leaves the whole database as it was. *)
Theorem stale_lease_is_fenced lane e t t' now until taken labels now' ok db db1 db2 db3 :
  lane_keys db →
  Claims lane now until taken db db1 → (e, t') ∈ taken → t' ≠ t →
  LaneRun has_agents e labels db1 db2 → Forall (not_drawn lane e t) labels →
  Uses lane e t now' ok db2 db3 →
  ok = false ∧ db3 = db2.
Proof.
  intros Hk Hc Hin Hne Hrun Hd Hu. destruct (claims_spec lane e _ _ _ _ _ Hk Hc) as [Hev1 Hs1].
  destruct (claim_takes _ _ _ _ _ _ _ _ Hs1 Hin) as [_ Hv1]. destruct (Hev1 Hk) as [Hk1 _].
  destruct (lane_run_refines lane _ _ _ _ Hk1 Hrun) as [Hev2 Hr]. destruct (Hev2 Hk1) as [Hk2 _].
  apply (uses_fenced lane e t now'); [done| |done]. by eapply fenced_run; [exact Hr|..]; rewrite ?Hv1.
Qed.

(** C12: Whatever runs, an event keeps its identity, prompt, session, payload and
    time, and its attempts only grow; once a store has retained it, its receipt is
    final.  Its row in the cloud outbox keeps its audience; the ciphertext that is
    uploaded is the one sealed first until a new seal is counted, so a retry sends
    the same bytes; a receipt of the hub is final with the bytes it is for. *)
Theorem operator_event_is_immutable e labels db db' :
  lane_keys db → LaneRun has_agents e labels db db' →
  lane_keys db'
  ∧ evolved event_le (event_at e db) (event_at e db')
  ∧ evolved cloud_le (cloud_at e db) (cloud_at e db').
Proof. intros Hk Hrun. by apply (lane_run_refines Local _ _ _ _ Hk Hrun). Qed.

(** The answer names this admission. *)
Definition admitted_as (out : AdmissionOutcome) (prompt_id : Z) (receipt_id : string) : Prop :=
  match out with
  | AdmissionOutcome_Admitted p r | AdmissionOutcome_Existing p r _ => p = prompt_id ∧ r = receipt_id
  | AdmissionOutcome_Conflict => False
  end.
Lemma admitted_row clk rand a db out prompt_id receipt_id db' :
  admit_operator_command has_agents clk rand a db = Ok (out, db') → admitted_as out prompt_id receipt_id →
  ∃ r, admissions db' !! oc_command_id a = Some r
    ∧ ad_machine_digest r = oc_machine_digest a ∧ ad_prompt_id r = prompt_id ∧ ad_receipt_id r = receipt_id.
Proof.
  unfold admit_operator_command. destruct (_ || _); [done|]. destruct (op_admissions _ !! _) as [existing|] eqn:He.
  - destruct (String.eqb_spec (ad_machine_digest existing) (oc_machine_digest a)) as [Hd|Hd]; intros [= <- <-]; [|done].
    intros [<- <-]. by exists existing.
  - intros ([outcome db1] & _ & H2)%bind_Ok. destruct outcome; [|done].
    destruct (sql_exists _ _); [done|]. destruct (sql_exists _ _); [done|]. injection H2 as <- <-. intros [<- <-].
    eexists. split; [by cbn; rewrite lookup_insert_eq|done].
Qed.

(** C11: An offline command is admitted once.  After a command got its prompt and
    receipt, every later admission of the same command id, whatever ran between,
    writes nothing: it answers that prompt and receipt when the command's digest
    is the same, and a conflict when it is not. *)
Theorem command_admitted_once clk clk' rand rand' a a' e labels out prompt_id receipt_id db db1 db2 :
  lane_keys db1 →
  admit_operator_command has_agents clk rand a db = Ok (out, db1) → admitted_as out prompt_id receipt_id →
  LaneRun has_agents e labels db1 db2 →
  oc_command_id a' = oc_command_id a →
  blank (Some (oc_body a')) || blank (Some (oc_factory_session a')) = false →
  ∃ sent, admit_operator_command has_agents clk' rand' a' db2
    = Ok (if String.eqb (oc_machine_digest a) (oc_machine_digest a')
          then AdmissionOutcome_Existing prompt_id receipt_id sent else AdmissionOutcome_Conflict, db2).
Proof.
  intros Hk Ha Hout Hrun Hid Hb. destruct (admitted_row _ _ _ _ _ _ _ _ Ha Hout) as (r & Hr & Hd & Hp & Hrc).
  destruct (lane_run_admissions _ _ _ _ Hrun Hk _ _ Hr) as (r' & Hr' & Hd' & Hp' & Hrc' & _).
  exists (negb (is_none (ad_receipt_sent_at r'))). unfold admit_operator_command. cbn in Hb. rewrite Hb, Hid, Hr'.
  by rewrite Hd', Hd, Hp', Hp, Hrc', Hrc.
Qed.
End turns.
