(* ===== verification/PromptWrites.v ===== *)
(** * Writing prompts as steps

    [Writes] are the operations of [PromptEnqueue] and [OperatorLanes] that put a
    prompt into the queue.  Each of them is a [handling_step]: rows move on, receipts
    are kept, and settled rows keep what they have. *)

From S2P Require Import Prelude Logs Enums Db SupervisorQueue PromptTypes PromptNotices PromptQueue PromptDrain OperatorLanes PromptEnqueue PromptQueueSpec PromptDrainSpec.

Implicit Types (db : Db) (r : PromptRow) (clk : Clock).

Lemma write_step mk id q db :
  (∀ z, pq_id (mk z) = z ∧ pq_processed_at (mk z) = None ∧ row_rank (mk z) = 0) →
  log_insert mk (db_prompts db) = Ok (id, q) → handling_step db (db <| db_prompts := q |>).
Proof.
  intros Hmk Hins. split; [|done]. intros Hwf.
  edestruct (log_step_insert prompt_le) as [Hw Hev]; [|exact Hins|exact Hwf|]; [apply Hmk|].
  split_and!; [done..|]. intros Hrec r. apply log_insert_Ok in Hins as (-> & _ & Hrows).
  unfold update. cbn. rewrite Hrows. intros [Hr | ->%list_elem_of_singleton]%elem_of_app; [by apply Hrec|].
  destruct (Hmk (log_seq (db_prompts db) + 1)) as (_ & _ & Hrank). split; [lia|].
  unfold row_rank. intros Hs. unfold row_rank in Hrank. rewrite Hs in Hrank. by cbn in Hrank.
Qed.

Section writes.
Context {host : Host} (has_agents : bool).

Inductive Writes : Db → Db → Prop :=
  | W_message has_tasks clk event_id source target prompt session summary priority urgent attribution origin db x db' :
      enqueue_attributed_urgent_with_outcome has_agents has_tasks clk event_id source target prompt session summary priority
        urgent attribution origin db = Ok (x, db') → Writes db db'
  | W_keyed has_tasks clk event_id source target prompt session summary priority urgent key origin db x db' :
      enqueue_idempotent_urgent has_agents has_tasks clk event_id source target prompt session summary priority urgent key
        origin db = Ok (x, db') → Writes db db'
  | W_nudge clk target prompt session task_id key db x db' :
      enqueue_worker_stall_nudge has_agents clk target prompt session task_id key db = Ok (x, db') → Writes db db'
  | W_peer clk source recipient supervisor prompt copy session summary priority urgent origin db x db' :
      enqueue_worker_peer_with_supervisor_copy clk source recipient supervisor prompt copy session summary priority urgent
        origin db = Ok (x, db') → Writes db db'
  | W_action has_tasks clk source target prompt worker session summary priority urgent origin db x db' :
      enqueue_worker_action_with_outcome has_agents has_tasks clk source target prompt worker session summary priority urgent
        origin db = Ok (x, db') → Writes db db'
  | W_terminal clk event_id session prompt db x db' :
      record_terminal_operator_turn has_agents clk event_id session prompt db = Ok (x, db') → Writes db db'
  | W_turn clk turn event_id db x db' :
      record_complete_operator_turn has_agents clk turn event_id db = Ok (x, db') → Writes db db'
  | W_command clk rand a db x db' :
      admit_operator_command has_agents clk rand a db = Ok (x, db') → Writes db db'.

(** ** Pieces *)
(** A row that is pending and unsettled *)
Definition unsettled_row (mk : Z → PromptRow) : Prop :=
  ∀ z, pq_id (mk z) = z ∧ pq_processed_at (mk z) = None ∧ row_rank (mk z) = 0.
Lemma insert_prompt_step mk id db db' :
  unsettled_row mk → insert_prompt mk db = Ok (id, db') → handling_step db db'.
Proof.
  intros Hmk. unfold insert_prompt. intros ([id1 q] & Hins & [= _ <-])%bind_Ok. by eapply write_step.
Qed.
(** The tables of the lanes are none of the queue's. *)
Definition same_queue db db' : Prop := same_prompts db db' ∧ receipts db' = receipts db.
Lemma same_queue_step db db' : same_queue db db' → handling_step db db'.
Proof. intros [Hs Hr]. apply handling_same. split; [by apply prompt_step_same|done]. Qed.
Lemma record_turn_event_step turn event_id now id db db' :
  record_turn_event turn event_id now id db = Ok db' → handling_step db db'.
Proof.
  unfold record_turn_event. destruct (has_event turn); [|by intros [= <-]]. intros (db1 & H1 & H2)%bind_Ok.
  transitivity db1; apply same_queue_step.
  - unfold insert_outbox_row in H1. cbn in H1. destruct (existsb _ _) in H1; [done|]. destruct (existsb _ _) in H1; [done|].
    by injection H1 as <-.
  - unfold insert_cloud_outbox_row in H2. destruct (active_binding db1); [|by injection H2 as <-].
    destruct (ot_factory_session turn); [|by injection H2 as <-]. destruct (existsb _ _) in H2; [done|]. by injection H2 as <-.
Qed.
Lemma confirm_answered_step stamp now ack_id db db' :
  confirm_answered has_agents stamp now ack_id db = Ok db' → handling_step db db'.
Proof.
  unfold confirm_answered. destruct ack_id as [id|]; [|by intros [= <-]]. intros (db1 & H1 & [= <-])%bind_Ok.
  destruct (existsb _ _).
  - apply (ack_prompt_step has_agents (λ i, match i with O => now | _ => stamp end) id db ()).
    unfold ack_prompt, confirm_stage. cbn beta match. by rewrite H1.
  - injection H1 as <-. apply handling_update, prompt_step_update; [done|]. intros _ r _ _. apply acked_row_step.
Qed.
Lemma turn_step clk turn event_id db x db' :
  insert_complete_operator_turn has_agents clk turn event_id db = Ok (x, db') → handling_step db db'.
Proof.
  unfold insert_complete_operator_turn. destruct (match om_dedupe_key _ with Some _ => _ | None => _ end); [by intros [= _ <-]|].
  intros H0. apply bind_Ok in H0 as ([id q] & Hins & H0). apply bind_Ok in H0 as (db1 & H1 & H0).
  apply bind_Ok in H0 as (db2 & H2 & [= _ <-]). transitivity (db <| db_prompts := q |>).
  - eapply write_step; [|exact Hins]. by intros z.
  - etrans; [by eapply record_turn_event_step|by eapply confirm_answered_step].
Qed.
Lemma record_turn_step clk turn event_id db x db' :
  record_complete_operator_turn has_agents clk turn event_id db = Ok (x, db') → handling_step db db'.
Proof.
  unfold record_complete_operator_turn. intros (_ & _ & H)%bind_Ok. destruct (_ || _) in H; [done|]. by eapply turn_step.
Qed.
Lemma operator_turn_step clk turn event_id db x db' :
  record_operator_turn has_agents clk turn event_id db = Ok (x, db') → handling_step db db'.
Proof. unfold record_operator_turn. destruct (_ && _); [done|]. apply record_turn_step. Qed.
Lemma supersede_step stamps detail ids db db' :
  supersede has_agents stamps detail ids db = Ok db' → handling_step db db'.
Proof.
  unfold supersede. revert stamps db. induction ids as [|id ids IH]; intros stamps db Hs; cbn in Hs; [by injection Hs as <-|].
  apply bind_Ok in Hs as (db1 & H1 & Hs). etrans; [|by eapply IH]. by eapply handling_frame, stamp_spec, H1.
Qed.

(** ** The operations *)
Lemma message_step has_tasks clk event_id source target prompt session summary priority urgent attribution origin db x db' :
  enqueue_attributed_urgent_with_outcome has_agents has_tasks clk event_id source target prompt session summary priority
    urgent attribution origin db = Ok (x, db') → handling_step db db'.
Proof.
  unfold enqueue_attributed_urgent_with_outcome. intros (_ & _ & H)%bind_Ok. destruct (names_operator target).
  { by eapply operator_turn_step. }
  destruct (resend_of _ _ _ _ _ _ _); [by injection H as _ <-|]. apply bind_Ok in H as ([id db1] & H & [= _ <-]).
  by eapply insert_prompt_step, H.
Qed.
Lemma keyed_step has_tasks clk event_id source target prompt session summary priority urgent key origin db x db' :
  enqueue_idempotent_urgent has_agents has_tasks clk event_id source target prompt session summary priority urgent key
    origin db = Ok (x, db') → handling_step db db'.
Proof.
  unfold enqueue_idempotent_urgent. intros (_ & _ & H)%bind_Ok. destruct (names_operator target).
  { apply bind_Ok in H as ([o db1] & H & [= _ <-]). by eapply operator_turn_step. }
  destruct (prompt_of_key key db); [by injection H as _ <-|]. apply bind_Ok in H as ([id db1] & H & [= _ <-]).
  by eapply insert_prompt_step, H.
Qed.
Lemma nudge_step clk target prompt session task_id key db x db' :
  enqueue_worker_stall_nudge has_agents clk target prompt session task_id key db = Ok (x, db') → handling_step db db'.
Proof.
  unfold enqueue_worker_stall_nudge. destruct (prompt_of_key key db); [by intros [= _ <-]|].
  intros (db1 & H1 & H)%bind_Ok. apply bind_Ok in H as ([id db2] & H2 & [= _ <-]).
  etrans; [by eapply supersede_step|by eapply insert_prompt_step, H2].
Qed.
Lemma peer_step clk source recipient supervisor prompt copy session summary priority urgent origin db x db' :
  enqueue_worker_peer_with_supervisor_copy clk source recipient supervisor prompt copy session summary priority urgent
    origin db = Ok (x, db') → handling_step db db'.
Proof.
  unfold enqueue_worker_peer_with_supervisor_copy. destruct (_ <=? _); [done|].
  intros ([id1 db1] & H1 & H)%bind_Ok. apply bind_Ok in H as ([id2 db2] & H2 & [= _ <-]).
  etrans; [by eapply insert_prompt_step, H1|by eapply insert_prompt_step, H2].
Qed.
Lemma action_step has_tasks clk source target prompt worker session summary priority urgent origin db x db' :
  enqueue_worker_action_with_outcome has_agents has_tasks clk source target prompt worker session summary priority urgent
    origin db = Ok (x, db') → handling_step db db'.
Proof.
  unfold enqueue_worker_action_with_outcome. intros (_ & _ & H)%bind_Ok. destruct (names_operator target); [done|].
  destruct origin; try done. destruct (resend_of _ _ _ _ _ _ _); [by injection H as _ <-|].
  apply bind_Ok in H as ([id db1] & H1 & H). apply bind_Ok in H as (db3 & H3 & [= _ <-]).
  etrans; [by eapply insert_prompt_step, H1|]. etrans; [|by eapply supersede_step].
  apply handling_quiet. intros r. quiet.
Qed.
Lemma terminal_step clk event_id session prompt db x db' :
  record_terminal_operator_turn has_agents clk event_id session prompt db = Ok (x, db') → handling_step db db'.
Proof.
  unfold record_terminal_operator_turn. intros (_ & _ & H)%bind_Ok. apply bind_Ok in H as ([o db1] & H1 & [= _ <-]).
  etrans; [by eapply turn_step|]. apply handling_quiet. intros r. quiet.
Qed.
Lemma command_step clk rand a db x db' :
  admit_operator_command has_agents clk rand a db = Ok (x, db') → handling_step db db'.
Proof.
  unfold admit_operator_command. destruct (_ || _); [done|]. destruct (op_admissions _ !! _); [by intros [= _ <-]|].
  intros ([outcome db1] & H1 & H)%bind_Ok. destruct outcome; [|done].
  destruct (sql_exists _ _); [done|]. destruct (sql_exists _ _); [done|]. injection H as _ <-.
  etrans; [by eapply turn_step|by apply same_queue_step].
Qed.
Lemma writes_step db db' : Writes db db' → handling_step db db'.
Proof.
  destruct 1; [by eapply message_step|by eapply keyed_step|by eapply nudge_step|by eapply peer_step|by eapply action_step
    |by eapply terminal_step|by eapply record_turn_step|by eapply command_step].
Qed.
End writes.
