(* ===== verification/PromptProtocol.v ===== *)
(** * Executions of the prompt queue

    [Handling]: one operation that keeps the receipts of the recipients.
    [PromptStep]: any operation modelled here, among them those that release
    receipts and retention; [Writes] are the operations that write prompts, and a
    writer that is not modelled is the insertion of a row that is pending and
    unsettled.  Some operations are statements that no transaction joins, and each
    statement that writes is a step: the UPDATE of a poll; the UPDATEs of
    [ack_delivered_for_recipient], which may hit any row of [stale] whatever
    happened to it since its SELECT; the stamp of an acknowledgement by id, which
    may be interrupted for rows of [stale], and its UPDATE.  [AckStep] keeps the
    acknowledgements that are under way beside the database.
    The operations that give a pending row to another recipient
    ([retarget_operator_rows_to_successor], [refresh_qa_rejection_targets]) and the
    binding of an old terminal row to the key of its turn
    ([record_terminal_transcript_turn]) are not steps.
    The theorems are about executions: what a delivered row leaves behind, what
    never goes back, withdrawn mail, claims and their tokens, retries. *)

From S2P Require Import Prelude Logs Enums Db Envelopes SupervisorQueue SupervisorQueueSpec PromptTypes PromptLanes PromptLaneSpec PromptNotices PromptQueue PromptDrain PromptQueueSpec PromptDrainSpec PromptWrites.

(** A row of [stale] may lose that it was withdrawn, and nothing else. *)
Definition kept_le (stale : Z → Prop) (r r' : PromptRow) : Prop :=
  pq_id r' = pq_id r
  ∧ pq_target r' = pq_target r ∧ (pq_dedupe_key r' = pq_dedupe_key r ∨ pq_dedupe_key r' = None)
  ∧ (is_Some (pq_processed_at r) → is_Some (pq_processed_at r'))
  ∧ (∀ t, pq_transport_delivered_at r = Some t → pq_transport_delivered_at r' = Some t)
  ∧ (is_Some (pq_acked_at r) → is_Some (pq_acked_at r'))
  ∧ pq_delivery_attempts r ≤ pq_delivery_attempts r'
  ∧ (settled r → settled r') ∧ (¬ stale (pq_id r) → withdrawn r → withdrawn r').
#[export] Instance kept_le_preorder stale : PreOrder (kept_le stale).
Proof.
  split.
  - intros r. unfold kept_le. split_and!; auto. lia.
  - intros a b d Hab Hbd. unfold kept_le in *. destruct_and! Hab. destruct_and! Hbd.
    split_and!; [congruence|congruence|destruct_or?; (left; congruence) || (right; congruence)|auto|auto|auto|lia|auto|].
    intros Hs Hw. assert (pq_id b = pq_id a) as Hid by done. rewrite Hid in *. auto.
Qed.
Definition kept_step (stale : Z → Prop) (db db' : Db) : Prop :=
  log_wf (db_prompts db) →
  log_wf (db_prompts db') ∧ log_evolves (kept_le stale) (db_prompts db) (db_prompts db')
  ∧ (all_recorded db → all_recorded db').
#[export] Instance kept_step_preorder stale : PreOrder (kept_step stale).
Proof.
  split; [intros a Hwf; by split_and!|]. intros a b d Hab Hbd Hwf. destruct (Hab Hwf) as (Hwb & Hb & Hrb).
  destruct (Hbd Hwb) as (Hwd & Hd & Hrd). split_and!; [done|by etrans|auto].
Qed.
Lemma prompt_step_kept stale db db' : prompt_step db db' → kept_step stale db db'.
Proof.
  intros Hs Hwf. destruct (Hs Hwf) as (Hwf' & [Hseq Hev] & Hrec). split_and!; [done| |done]. split; [done|].
  intros r' Hr'. destruct (Hev r' Hr') as [Hnew|(r & Hr & Hid & Hle)]; [by left|right; exists r; split_and!; [done..|]].
  unfold prompt_le in Hle. destruct_and! Hle. split_and!; auto.
Qed.
Lemma kept_step_update stale P f db :
  (∀ r, pq_id (f r) = pq_id r) →
  (log_wf (db_prompts db) → ∀ r, r ∈ log_rows (db_prompts db) → P r = true →
     kept_le stale r (f r) ∧ ∀ t, recorded t r → recorded t (f r)) →
  kept_step stale db (update_prompts P f db).
Proof.
  intros Hf HP Hwf. split_and!; [by apply log_wf_update| |].
  - split; [done|]. intros r' (r & Hr & ->)%elem_of_log_update. right. exists r.
    destruct (P r) eqn:Hp; [|done]. split_and!; [done|symmetry; apply Hf|by apply HP].
  - intros Hrec r' (r & Hr & ->)%elem_of_log_update. destruct (P r) eqn:Hp; [|by apply Hrec].
    by apply HP; [..|apply Hrec].
Qed.
(** The UPDATE of a delayed acknowledgement *)
Lemma assume_step (stale : Z → Prop) now ids db :
  (∀ id, id ∈ ids → stale id) → kept_step stale db (assume_seen now ids db).2.
Proof.
  intros Hids. apply kept_step_update; [done|]. intros _ r Hr HP. bool_to_prop. split; [|done].
  unfold kept_le. split_and!; try done; try (by left). intros Hn _. destruct Hn. apply Hids.
  by match goal with H : among _ _ = true |- _ => apply among_true in H end.
Qed.
(** The first statement of an acknowledgement by id *)
Lemma confirm_kept (stale : Z → Prop) has_agents now id db :
  stale id → kept_step stale db (confirm_stage has_agents now id db).
Proof.
  intros Hst. destruct (confirm_cases has_agents now id db) as [->|(current & Hcur & ->)]; [done|].
  apply kept_step_update; [done|]. intros _ r Hr Hid%Z.eqb_eq. split; [|intros t _; apply confirmed_row_recorded].
  unfold kept_le. split_and!; try done; try (by left); try apply stage_row_processed; try apply stage_row_transport.
  intros []. unfold row_id, PromptRow_id in Hid. by rewrite Hid.
Qed.

Section executions.
Context {host : Host} (has_agents has_outbox_index : bool) (stale : Z → Prop).
Implicit Types (db : Db) (r : PromptRow) (clk : Clock).

Inductive Handling : Db → Db → Prop :=
  | H_select clk targets session n db x db' :
      select_for_targets has_agents clk targets session n db = Ok (x, db') → Handling db db'
  | H_selected clk id db x db' : record_selected has_agents clk id db = Ok (x, db') → Handling db db'
  | H_delivered clk id db x db' : mark_transport_delivered has_agents clk id db = Ok (x, db') → Handling db db'
  | H_dropped clk id detail db x db' : mark_dropped has_agents clk id detail db = Ok (x, db') → Handling db db'
  | H_suppressed clk id detail db x db' :
      mark_suppressed has_agents clk id detail db = Ok (x, db') → Handling db db'
  | H_superseded clk id detail db x db' :
      mark_superseded has_agents clk id detail db = Ok (x, db') → Handling db db'
  | H_abandoned clk id detail db x db' :
      mark_abandoned has_agents clk id detail db = Ok (x, db') → Handling db db'
  | H_relay clk id detail db x db' :
      mark_undelivered_lifecycle_relay has_agents clk id detail db = Ok (x, db') → Handling db db'
  | H_declined clk id detail db x db' :
      mark_undelivered_after_wake_declines has_agents clk id detail db = Ok (x, db') → Handling db db'
  | H_broadcast clk id attempted succeeded failed detail db x db' :
      mark_broadcast_outcome has_agents clk id attempted succeeded failed detail db = Ok (x, db') → Handling db db'
  | H_pending clk id reason detail db x db' :
      record_pending_reason has_agents clk id reason detail db = Ok (x, db') → Handling db db'
  | H_retry clk id reason detail db x db' :
      record_retry has_agents clk id reason detail db = Ok (x, db') → Handling db db'
  | H_cancel clk recipient session detail db x db' :
      cancel_unread_for_shutdown clk recipient session detail db = Ok (x, db') → Handling db db'
  | H_claim clk last id recipient db x db' :
      claim_recipient_transport_token clk last id recipient db = Ok (x, db') → Handling db db'
  | H_surfaced clk id recipient source db x db' :
      record_recipient_surfaced clk id recipient source db = Ok (x, db') → Handling db db'
  | H_consumed clk expected db x db' :
      record_transcript_consumed clk expected db = Ok (x, db') → Handling db db'
  | H_recipient_delivered clk id recipient db x db' :
      record_recipient_transport_delivered clk id recipient db = Ok (x, db') → Handling db db'
  | H_body clk id recipient db x db' :
      claim_teams_body_fallback clk id recipient db = Ok (x, db') → Handling db db'
  | H_body_released id recipient db x db' :
      release_teams_body_fallback id recipient db = Ok (x, db') → Handling db db'
  | H_wake clk id attempt detail db x db' :
      record_wake_attempt clk id attempt detail db = Ok (x, db') → Handling db db'
  | H_gate clk id detail db x db' :
      record_wake_gate_decline clk id detail db = Ok (x, db') → Handling db db'
  | H_deferred clk id bytes db x db' :
      record_deferred_inbox clk id bytes db = Ok (x, db') → Handling db db'
  | H_poll now prompts db : Handling db (mark_polled now prompts db)
  | H_processed clk id db x db' : mark_prompt_processed clk id db = Ok (x, db') → Handling db db'
  | H_ack clk id db x db' : ack_prompt has_agents clk id db = Ok (x, db') → Handling db db'
  | H_ack_key clk key db x db' : ack_by_dedupe_key has_agents clk key db = Ok (x, db') → Handling db db'
  | H_acknowledge clk id recipients reply db x db' :
      acknowledge_for_recipients has_agents clk id recipients reply db = Ok (x, db') → Handling db db'
  | H_assume now ids db :
      (∀ id, id ∈ ids → stale id) → Handling db (assume_seen now ids db).2
  | H_confirm now id db : stale id → Handling db (confirm_stage has_agents now id db)
  | H_acked now id db :
      Handling db (update_prompts (λ r, by_id id r && is_none (pq_acked_at r)) (acked_row now) db)
  | H_settle recipients rows db x db' : settle_polled_rows recipients rows db = Ok (x, db') → Handling db db'
  | H_rewrite id prompt summary db x db' : rewrite_pending id prompt summary db = Ok (x, db') → Handling db db'
  | H_release_keys target session prefix db x db' :
      release_received_dedupe_keys target session prefix db = Ok (x, db') → Handling db db'
  | H_release_digest id db x db' :
      release_stranded_supervisor_digest id db = Ok (x, db') → Handling db db'
  | H_peer_send clk agent name session outbox recipient reason db x db' :
      notify_peer_send_abandoned has_agents clk agent name session outbox recipient reason db = Ok (x, db') →
      Handling db db'
  | H_drain clk hold limit d db x db' :
      drain_source (dr_source d) →
      drain_unseen_for_recipient_budgeted has_agents has_outbox_index clk hold limit d db = Ok (x, db') → Handling db db'
  | H_device id device db x db' : stamp_recipient_device id device db = Ok (x, db') → Handling db db'
  | H_policy clk id key sticky db x db' :
      stamp_broadcast_policy has_agents clk id key sticky db = Ok (x, db') → Handling db db'
  | H_insert mk id q db :
      (∀ z, pq_id (mk z) = z ∧ pq_processed_at (mk z) = None ∧ row_rank (mk z) = 0) →
      log_insert mk (db_prompts db) = Ok (id, q) → Handling db (db <| db_prompts := q |>)
  | H_writes db db' : Writes has_agents db db' → Handling db db'.

Inductive PromptStep : Db → Db → Prop :=
  | P_handling db db' : Handling db db' → PromptStep db db'
  | P_park clk id detail recheck_at db x db' :
      park_for_busy_recipient has_agents clk id detail recheck_at db = Ok (x, db') → PromptStep db db'
  | P_release_claim id recipient token db x db' :
      release_recipient_transport_claim id recipient token db = Ok (x, db') → PromptStep db db'
  | P_release id recipient db x db' :
      release_recipient_transport id recipient db = Ok (x, db') → PromptStep db db'
  | P_orphaned session db x db' :
      release_orphaned_transport_claims session db = Ok (x, db') → PromptStep db db'
  | P_aged clk ids now existed unresolved db x db' :
      settle_aged_rows_in_tx has_agents clk ids now existed unresolved db = Ok (x, db') → PromptStep db db'
  | P_prune hs hd clk older batch db x db' :
      prune_terminal_batch hs hd clk older batch db = Ok (x, db') → PromptStep db db'
  | P_cleanup clk older db x db' : cleanup_old_prompts clk older db = Ok (x, db') → PromptStep db db'
  | P_clear db x db' : clear_prompts db = Ok (x, db') → PromptStep db db'.

Lemma claim_step clk last id recipient db x db' :
  claim_recipient_transport_token clk last id recipient db = Ok (x, db') → handling_step db db'.
Proof.
  destruct x as [o l]. intros [_ H]%claim_token_cases. destruct o; [apply H|by subst].
Qed.

Lemma handling_cases db db' :
  Handling db db' →
  handling_step db db'
  ∨ (∃ now ids, (∀ id, id ∈ ids → stale id) ∧ db' = (assume_seen now ids db).2)
  ∨ ∃ now id, stale id ∧ db' = confirm_stage has_agents now id db.
Proof.
  destruct 1; try (by right; left; eauto); try (by right; right; eauto); left; try (by eapply atomic_stage_stamp_step; [|eassumption]).
  - by eapply select_for_targets_step.
  - by eapply mark_broadcast_outcome_step.
  - by eapply record_pending_reason_step.
  - by eapply record_retry_step.
  - by eapply cancel_unread_step.
  - by eapply claim_step.
  - by eapply record_recipient_surfaced_step.
  - by eapply record_transcript_consumed_step.
  - by eapply record_recipient_transport_delivered_step.
  - by eapply claim_teams_body_fallback_step.
  - by eapply release_teams_body_fallback_step.
  - by eapply record_wake_attempt_step.
  - by eapply record_wake_gate_decline_step.
  - by eapply record_deferred_inbox_step.
  - apply mark_polled_step.
  - by eapply mark_prompt_processed_step.
  - by eapply ack_prompt_step.
  - by eapply ack_by_dedupe_key_step.
  - by eapply acknowledge_step.
  - apply handling_update, prompt_step_update; [done|]. intros _ r _ _. apply acked_row_step.
  - by eapply settle_polled_rows_step.
  - by eapply rewrite_pending_step.
  - by eapply release_received_dedupe_keys_step.
  - by eapply release_stranded_supervisor_digest_step.
  - by eapply notify_peer_send_abandoned_step.
  - by eapply drain_step.
  - by eapply stamp_recipient_device_step.
  - by eapply stamp_broadcast_policy_step.
  - by eapply write_step.
  - by eapply writes_step.
Qed.
Lemma handling_is_step db db' : Handling db db' → kept_step stale db db' ∧ receipts_kept db db'.
Proof.
  intros [[Hs Hk]|[(now & ids & Hids & ->)|(now & id & Hid & ->)]]%handling_cases.
  - by split; [apply prompt_step_kept|].
  - split; [by apply assume_step|by apply receipts_kept_same].
  - split; [by apply confirm_kept|]. destruct (confirm_cases has_agents now id db) as [->|(current & _ & ->)]; by apply receipts_kept_same.
Qed.
Lemma prompt_is_step db db' : PromptStep db db' → kept_step stale db db'.
Proof.
  destruct 1 as [db db' [H _]%handling_is_step|? ? ? ? ? ? ? H|? ? ? ? ? ? H|? ? ? ? ? [= _ <-]|? ? ? ? [= _ <-]
    |? ? ? ? ? ? ? ? H|? ? ? ? ? ? ? ? H|? ? ? ? ? H|? ? ? H]; [done|..]; apply prompt_step_kept.
  - by eapply park_step.
  - by eapply release_claim_step.
  - apply on_seen_step.
  - apply on_seen_step.
  - by eapply settle_aged_rows_step.
  - by eapply prune_terminal_batch_step.
  - by eapply cleanup_old_prompts_step.
  - by eapply clear_prompts_step.
Qed.
Lemma rtc_step {A} (P Q : relation A) `{!PreOrder Q} a b : (∀ x y, P x y → Q x y) → rtc P a b → Q a b.
Proof. intros H. induction 1 as [|x y z Hxy _ IH]; [done|]. etrans; [by apply H|done]. Qed.
Lemma prompt_run db db' : rtc PromptStep db db' → kept_step stale db db'.
Proof. apply rtc_step, prompt_is_step. apply _. Qed.
Lemma handling_run db db' : rtc Handling db db' → receipts_kept db db'.
Proof.
  induction 1 as [|x y z [_ Hxy]%handling_is_step _ IH]; [done|]. by etrans.
Qed.

(** ** What a delivered row leaves behind *)

(** C15: Whatever ran, a row whose stage is terminal is no longer pending,
    and a row that says it was delivered has the instant of its delivery and,
    when it is addressed to one recipient, that recipient's own record of it. *)
Theorem delivered_has_recipient_record db db' r :
  log_wf (db_prompts db) → all_recorded db → rtc PromptStep db db' → r ∈ log_rows (db_prompts db') →
  (row_rank r = 3 → is_Some (pq_processed_at r))
  ∧ (row_stage r = Some DeliveryStage_Delivered →
     is_Some (pq_transport_delivered_at r)
     ∧ (pq_target r ≠ "all_workers" →
        is_Some (pt_transport (db_prompt_receipts db') !! (pq_id r, pq_target r)))).
Proof. intros Hwf Hrec Hrun Hr. destruct (prompt_run _ _ Hrun Hwf) as (_ & _ & H). by apply H. Qed.

(** The row of an id, later *)
Lemma row_later db db' r r' :
  log_wf (db_prompts db) → rtc PromptStep db db' → r ∈ log_rows (db_prompts db) →
  r' ∈ log_rows (db_prompts db') → pq_id r' = pq_id r → kept_le stale r r'.
Proof.
  intros Hwf Hrun Hr Hr' Hid. destruct (prompt_run _ _ Hrun Hwf) as (_ & Hev & _).
  by apply (evolves_origin (kept_le stale) (db_prompts db) (db_prompts db')).
Qed.

(** Nothing goes back.  While a row exists it keeps its target and its
    key, once processed, delivered or acknowledged it stays so, with the first
    instant of its delivery, its attempts never fall, and a stage that reached a
    terminal one never falls below it. *)
Theorem prompt_progress_is_irreversible db db' r r' :
  log_wf (db_prompts db) → rtc PromptStep db db' → r ∈ log_rows (db_prompts db) →
  r' ∈ log_rows (db_prompts db') → pq_id r' = pq_id r →
  pq_target r' = pq_target r ∧ (pq_dedupe_key r' = pq_dedupe_key r ∨ pq_dedupe_key r' = None)
  ∧ (is_Some (pq_processed_at r) → is_Some (pq_processed_at r'))
  ∧ (∀ t, pq_transport_delivered_at r = Some t → pq_transport_delivered_at r' = Some t)
  ∧ (is_Some (pq_acked_at r) → is_Some (pq_acked_at r'))
  ∧ pq_delivery_attempts r ≤ pq_delivery_attempts r'
  ∧ (3 ≤ row_rank r → 3 ≤ row_rank r').
Proof. intros. destruct (row_later db db' r r') as (_ & ? & ? & ? & ? & ? & ? & ? & _); done. Qed.

(** ** Withdrawn mail *)
Lemma take_band_app p l : (take_band p l).1 ++ (take_band p l).2 = l.
Proof.
  induction l as [|q l IH]; cbn; [done|]. destruct (_ =? _); [|done].
  destruct (take_band p l) as [band rest]. cbn in *. by f_equal.
Qed.
Lemma elem_of_fair_quota q s l n : q ∈ fair_quota_same_priority s l n → q ∈ s ∨ q ∈ l.
Proof.
  destruct (fair_quota_spec s l n) as (a & b & -> & _). rewrite elem_of_app.
  intros [?%subseteq_take|?%subseteq_take]; auto.
Qed.
Lemma elem_of_merge_bands q fuel s l n : q ∈ merge_bands fuel s l n → q ∈ s ∨ q ∈ l.
Proof.
  revert s l n. induction fuel as [|fuel IH]; intros s l n; cbn; [by intros ?%elem_of_nil|].
  destruct (n =? 0)%nat; [by intros ?%elem_of_nil|].
  destruct (next_priority s l) as [p|]; [|by intros ?%elem_of_nil].
  pose proof (take_band_app p s) as Hs. pose proof (take_band_app p l) as Hl.
  destruct (take_band p s) as [sb s']. destruct (take_band p l) as [lb l']. cbn in Hs, Hl.
  subst s l. rewrite !elem_of_app. intros [[?|?]%elem_of_fair_quota|[?|?]%IH]; auto.
Qed.
Lemma elem_of_merge q s l n : q ∈ merge_two_lane_peeks s l n → q ∈ s ∨ q ∈ l.
Proof.
  unfold merge_two_lane_peeks. destruct (n =? 0)%nat; [by intros ?%elem_of_nil|].
  destruct s as [|x s]; [intros ?%subseteq_take; by right|].
  destruct l as [|y l]; [intros ?%subseteq_take; by left|]. apply elem_of_merge_bands.
Qed.
Lemma peeked_is_pending clk targets session n db out q :
  peek_for_targets clk targets session n db = Ok out → q ∈ out →
  ∃ r, q = prompt_from_row r ∧ r ∈ log_rows (db_prompts db) ∧ pq_processed_at r = None
    ∧ not_already_consumed db r = true.
Proof.
  unfold peek_for_targets, peek_for_targets_on_conn. intros H Hq.
  destruct targets as [|t ts]; [done|]. destruct (n =? 0)%nat; [injection H as <-; by apply elem_of_nil in Hq|].
  destruct session as [session|]; injection H as <-.
  1: apply elem_of_merge in Hq as [Hq|Hq].
  all: apply query_lane_rows in Hq as (r & -> & Hr & Hok); exists r; unfold deliverable in Hok; bool_to_prop;
    by destruct (pq_processed_at r).
Qed.

Lemma withdrawn_not_claimable id recipient db r :
  withdrawn r → pq_target r ≠ "all_workers" → claimable_for id recipient db r = false.
Proof.
  intros [_ Hw] Ht%String.eqb_neq. unfold claimable_for. rewrite Ht.
  destruct Hw as [[Ha Hs]|[[t Ha] Hv]].
  - unfold deliverable_stage. rewrite Hs. cbn. by rewrite !andb_false_r.
  - rewrite Ha, Hv. cbn. by rewrite !andb_false_r.
Qed.

Lemma cancel_fold clk detail ids db db' r :
  try_fold (λ id db, _ ← read_highest_stage id db;
                     Ok (update_prompts (by_id id) (cancel_mail_row (clk 0%nat) detail) db)) ids db = Ok db' →
  r ∈ log_rows (db_prompts db) → pq_acked_at r = None →
  ∃ r', r' ∈ log_rows (db_prompts db') ∧ pq_id r' = pq_id r ∧ pq_target r' = pq_target r
    ∧ (withdrawn r ∨ pq_id r ∈ ids → withdrawn r').
Proof.
  revert db r. induction ids as [|id ids IH]; cbn; intros db r H Hr Ha.
  { injection H as <-. exists r. split_and!; [done..|]. by intros [?|?%elem_of_nil]. }
  apply bind_Ok in H as (db1 & H1 & H). apply bind_Ok in H1 as (st & _ & [= <-]).
  assert (is_Some (pq_processed_at (cancel_mail_row (clk 0%nat) detail r))) as Hp
    by (cbn; by destruct (pq_processed_at r)).
  set (r1 := if by_id id r then cancel_mail_row (clk 0%nat) detail r else r).
  assert (pq_id r1 = pq_id r ∧ pq_target r1 = pq_target r ∧ pq_acked_at r1 = None
          ∧ (withdrawn r ∨ pq_id r = id → withdrawn r1)) as (Hid & Ht & Ha1 & Hw).
  { unfold r1, by_id. destruct (Z.eqb_spec (row_id r) id) as [Heq|Hne].
    - split_and!; [done..|]. intros _. split; [done|by left].
    - split_and!; [done..|]. by intros [?|?]. }
  destruct (IH _ r1 H) as (r' & Hr' & Hid' & Ht' & Hw'); [|done|].
  { apply elem_of_log_update. by exists r. }
  exists r'. split_and!; [done|congruence|congruence|]. intros Hc. apply Hw'. rewrite Hid, elem_of_cons in *.
  destruct Hc as [?|[?|?]]; [left; auto..|by right].
Qed.

Lemma cancelled_is_withdrawn clk recipient session detail db n db1 r :
  r ∈ log_rows (db_prompts db) → shutdown_unread recipient session db r = true →
  cancel_unread_for_shutdown clk recipient session detail db = Ok (n, db1) →
  recipient ≠ "all_workers"
  ∧ ∃ r1, r1 ∈ log_rows (db_prompts db1) ∧ pq_id r1 = pq_id r ∧ pq_target r1 = recipient ∧ withdrawn r1.
Proof.
  intros Hr Hu. unfold cancel_unread_for_shutdown.
  destruct (str_is_empty (trim recipient) || _ || _) eqn:Hguard; [done|]. bool_to_prop.
  intros (db2 & Hf & [= _ <-])%bind_Ok. split; [done|].
  assert (pq_target r = recipient ∧ pq_acked_at r = None) as [Ht Ha].
  { unfold shutdown_unread in Hu. bool_to_prop. by destruct (pq_acked_at r). }
  destruct (cancel_fold _ _ _ _ _ r Hf Hr Ha) as (r' & Hr' & Hid & Ht' & Hw).
  exists r'. split_and!; [done..|congruence|]. apply Hw. right.
  apply list_elem_of_fmap. exists r. split; [done|]. by apply elem_of_log_select.
Qed.

(** ** Claims *)
Lemma claim_token_bound now last : last < 2 ^ 63 - 1 → last < transport_claim_token now last.
Proof. unfold transport_claim_token. lia. Qed.

(** The receipt of a claim, after any handling *)
Lemma claim_later clk last id recipient db token last' db1 db2 :
  claim_recipient_transport_token clk last id recipient db = Ok (Some token, last', db1) →
  rtc Handling db1 db2 →
  ∃ s, seen_of id recipient db2 = Some s ∧ ¬ claimable s
    ∧ (rs_source s = Some "transport_claimed" → rs_seen_at s = token).
Proof.
  intros [_ (-> & _ & _ & (s & Hs & Hsrc & Hat) & _)]%claim_token_cases Hrun%handling_run.
  destruct (Hrun _ _ Hs) as (s' & Hs' & Hle). exists s'. split; [done|].
  destruct Hle as [Hc Ht]; [by rewrite Hsrc|]. split; [done|]. intros Hcl. destruct (Ht Hcl). congruence.
Qed.

(** C24: A claim excludes every other.  After a process claimed a recipient's
    copy, whatever is recorded about the message, no process claims it again
    until the claim is released. *)
Theorem claim_is_exclusive clk last id recipient db token last' db1 db2 clk' last2 o last2' db3 :
  claim_recipient_transport_token clk last id recipient db = Ok (Some token, last', db1) →
  rtc Handling db1 db2 →
  claim_recipient_transport_token clk' last2 id recipient db2 = Ok (o, last2', db3) →
  o = None ∧ db3 = db2.
Proof.
  intros Hc Hrun [_ H]%claim_token_cases. destruct (claim_later _ _ _ _ _ _ _ _ _ Hc Hrun) as (s & Hs & Hn & _).
  destruct o as [token'|]; [|done]. destruct H as (_ & Hfree & _). by apply Hfree in Hs.
Qed.

(** A token releases its own claim only.  When a claim was lost (its
    pane ended, its receipt was released) and the same process claimed the copy
    again, a release with the older token does nothing. *)
Theorem stale_claim_release_is_refused clk last id recipient db token last1 db1 clk' last2 db2 token' last2' db3 db4 :
  claim_recipient_transport_token clk last id recipient db = Ok (Some token, last1, db1) →
  last1 ≤ last2 → last2 < 2 ^ 63 - 1 →
  claim_recipient_transport_token clk' last2 id recipient db2 = Ok (Some token', last2', db3) →
  rtc Handling db3 db4 →
  token < token' ∧ release_recipient_transport_claim id recipient token db4 = Ok (false, db4).
Proof.
  intros [Hl1 (-> & _)]%claim_token_cases Hle Hmax Hc Hrun.
  destruct (claim_token_cases _ _ _ _ _ _ _ _ Hc) as [Hl2 (-> & _)].
  pose proof (claim_token_bound (clk' 0%nat) last2 Hmax). split; [lia|].
  destruct (claim_later _ _ _ _ _ _ _ _ _ Hc Hrun) as (s & Hs & _ & Ht).
  unfold release_recipient_transport_claim. rewrite Hs. destruct (open_claim s) eqn:Ho; [|done]. cbn.
  unfold open_claim in Ho. bool_to_prop. rewrite Ht by (by apply (from_source_true SurfacingSource_TransportClaimed)).
  by destruct (Z.eqb_spec last2' last1); [lia|].
Qed.

(** ** Retries *)
Lemma retry_scheduled clk id reason detail db k at_ db' :
  record_retry has_agents clk id reason detail db = Ok (Scheduled k at_, db') →
  ∃ r, pending_prompt id db = Some r ∧ k = pq_delivery_attempts r + 1 ∧ k < PROMPT_RETRY_MAX_ATTEMPTS
    ∧ ∀ r', r' ∈ log_rows (db_prompts db') → pq_id r' = id → pq_delivery_attempts r' = k.
Proof.
  unfold record_retry. destruct (pending_prompt id db) as [r|]; [|done]. destruct (negb _) eqn:Hrange; [done|].
  bool_to_prop. destruct (_ || _) eqn:Hlim; intros (db1 & _ & Hk)%bind_Ok; [done|]. injection Hk as <- _ <-.
  bool_to_prop. unfold PROMPT_RETRY_MAX_ATTEMPTS, U32_MAX in *. exists r.
  split_and!; [done|lia|lia|]. intros r' (r0 & _ & ->)%elem_of_log_update. unfold by_id.
  destruct (Z.eqb_spec (row_id r0) id) as [|Hne]; [done|]. by intros ?.
Qed.

(** [n] retries of a prompt were scheduled on the way from a state to another. *)
Inductive Retried (id : Z) : nat → Db → Db → Prop :=
  | R_start db : Retried id 0 db db
  | R_step n db db1 db2 : Retried id n db db1 → PromptStep db1 db2 → Retried id n db db2
  | R_retry n db db1 clk reason detail k at_ db2 :
      Retried id n db db1 → record_retry has_agents clk id reason detail db1 = Ok (Scheduled k at_, db2) →
      Retried id (S n) db db2.

Lemma retried_run id n db db' : Retried id n db db' → rtc PromptStep db db'.
Proof.
  induction 1; [done| |]; (eapply rtc_r; [done|]); [done|]. by eapply P_handling, H_retry.
Qed.

(** Retries end.  Whatever runs in between, a prompt is scheduled again
    at most as often as its budget of 120 attempts has left, and it is never
    scheduled once the budget is used up. *)
Theorem retry_budget id n db db' r :
  log_wf (db_prompts db) → r ∈ log_rows (db_prompts db) → pq_id r = id → Retried id n db db' →
  n = 0%nat ∨ pq_delivery_attempts r + Z.of_nat n < PROMPT_RETRY_MAX_ATTEMPTS.
Proof.
  intros Hwf Hr Hid Hrun. assert ((∀ r', r' ∈ log_rows (db_prompts db') → pq_id r' = id →
    pq_delivery_attempts r + Z.of_nat n ≤ pq_delivery_attempts r')
    ∧ (n = 0%nat ∨ pq_delivery_attempts r + Z.of_nat n < PROMPT_RETRY_MAX_ATTEMPTS)) as [_ ?]; [|done].
  induction Hrun as [db|n db db1 db2 Hrun IH Hstep|n db db1 clk reason detail k at_ db2 Hrun IH Hretry].
  - split; [|by left]. intros r' Hr' Hid'. 
    assert (r = r') as ->; [|lia].
    apply (log_wf_unique (db_prompts db)); [done..|unfold row_id, PromptRow_id; congruence].
  - destruct (IH Hwf Hr) as [Hrows Hn]. split; [|done]. intros r' Hr' Hid'.
    apply retried_run in Hrun. destruct (prompt_run _ _ Hrun Hwf) as (Hwf1 & [Hseq _] & _).
    destruct (prompt_is_step _ _ Hstep Hwf1) as (_ & [_ Hev] & _).
    destruct (Hev r' Hr') as [Hnew|(r1 & Hr1 & Hid1 & Hle)].
    + exfalso. destruct Hwf as [_ Hb]. rewrite Forall_forall in Hb. specialize (Hb r Hr).
      unfold row_id, PromptRow_id in *. lia.
    + unfold row_id, PromptRow_id in Hid1. specialize (Hrows r1 Hr1 ltac:(congruence)).
      destruct Hle as (_ & _ & _ & _ & _ & _ & Hle & _). lia.
  - destruct (IH Hwf Hr) as [Hrows _].
    destruct (retry_scheduled _ _ _ _ _ _ _ _ Hretry) as (r1 & Hp & Hk & Hlim & Hk').
    apply pending_prompt_spec in Hp as (Hr1 & Hid1 & _). specialize (Hrows r1 Hr1 Hid1). split; [|right; lia].
    intros r' Hr' Hid'. rewrite (Hk' r' Hr' Hid'). lia.
Qed.

Lemma retry_delay_bounds k : PROMPT_RETRY_BASE_DELAY_MS ≤ retry_delay_ms k ≤ PROMPT_RETRY_MAX_DELAY_MS.
Proof.
  unfold retry_delay_ms, PROMPT_RETRY_BASE_DELAY_MS, PROMPT_RETRY_MAX_DELAY_MS.
  pose proof (Z.pow_pos_nonneg 2 (Z.min (Z.max 0 (k - 1)) 20) ltac:(lia) ltac:(lia)). lia.
Qed.

Lemma by_id_true id r : pq_id r = id → by_id id r = true.
Proof. intros <-. apply Z.eqb_refl. Qed.

(** The row of an abandoned retry is processed. *)
Lemma retry_gives_up now id opts db db1 r attempts first :
  log_wf (db_prompts db) → pending_prompt id db = Some r → row_rank r ≠ 3 → ao_set_processed opts = true →
  atomic_stage_stamp_in_tx has_agents now id DeliveryStage_Abandoned opts db = Ok db1 →
  pending_prompt id (update_prompts (by_id id) (retry_row attempts first None) db1) = None.
Proof.
  intros Hwf (Hr & Hid & Hp)%pending_prompt_spec Hrank Hopts Hst.
  destruct (stamp_rows has_agents _ _ _ _ _ _ r Hwf Hr Hid Hrank Hst) as (current & next & db2 & _ & _ & Hrows & Hnext).
  assert (log_wf (db_prompts db2) ∧ log_evolves prompt_le (db_prompts db2) (db_prompts db1)) as [Hwf2 Hev].
  { assert (log_wf (db_prompts db2)) as Hwf2 by (rewrite Hrows; by apply log_wf_update). split; [done|].
    destruct (bool_decide (next = DeliveryStage_Abandoned)); [|by subst]. destruct Hnext as [Hstep _].
    apply (Hstep Hwf2). }
  destruct (pending_prompt id _) as [r'|] eqn:Hq; [exfalso|done].
  apply pending_prompt_spec in Hq as (Hr' & Hid' & Hp'). apply elem_of_log_update in Hr' as (r1 & Hr1 & ->).
  assert (pq_id r1 = id ∧ pq_processed_at r1 = None) as [Hid1 Hp1] by (by destruct (by_id id r1)).
  set (r2 := stage_row now current next opts r).
  assert (r2 ∈ log_rows (db_prompts db2)) as Hr2.
  { rewrite Hrows. apply elem_of_log_update. exists r. by rewrite by_id_true. }
  assert (prompt_le r2 r1) as (_ & _ & Hle & _).
  { apply (evolves_origin prompt_le (db_prompts db2) (db_prompts db1)); [done..|].
    unfold row_id, PromptRow_id. change (pq_id r2) with (pq_id r). congruence. }
  destruct Hle as [t Ht]; [|congruence]. unfold r2, stage_row. cbn. rewrite Hp, Hopts. done.
Qed.

(** C26: A failed delivery is answered.  With a reason that keeps the row
    pending, it is scheduled between 250 ms and 5 s later and stays pending with
    one attempt more, or, when attempts or age reach their limit, it is abandoned
    and no longer pending. *)
Theorem retry_answers clk id reason detail db d db' r :
  log_wf (db_prompts db) → all_recorded db → pending_prompt id db = Some r →
  DeliveryStage_rank (PendingReason_implied_stage reason) < 3 →
  record_retry has_agents clk id reason detail db = Ok (d, db') →
  let now := clk 0%nat in
  let first := default now (pq_first_attempt_at r) in
  let k := Z.min (pq_delivery_attempts r + 1) U32_MAX in
  match d with
  | Scheduled k' at_ =>
      k' = k ∧ k < PROMPT_RETRY_MAX_ATTEMPTS ∧ now + 250 * 1000000 ≤ at_ ≤ now + 5000 * 1000000
      ∧ ∃ r', pending_prompt id db' = Some r' ∧ pq_delivery_attempts r' = k
          ∧ pq_first_attempt_at r' = Some first ∧ pq_next_attempt_at r' = Some at_
  | Abandoned k' =>
      k' = k ∧ (PROMPT_RETRY_MAX_ATTEMPTS ≤ k ∨ PROMPT_RETRY_MAX_AGE_SECS ≤ num_seconds (now - first))
      ∧ pending_prompt id db' = None
  end.
Proof.
  intros Hwf Hrec Hq Hreason H now first k. unfold record_retry in H. rewrite Hq in H.
  destruct (negb _); [done|]. fold now first k in H.
  destruct (pending_prompt_spec _ _ _ Hq) as (Hr & Hid & Hp).
  assert (row_rank r ≠ 3) as Hrank by (intros Hr3; destruct (proj1 (Hrec r Hr) Hr3); congruence).
  destruct (_ || _) eqn:Hlim; apply bind_Ok in H as (db1 & Hst & H); injection H as <- <-.
  - split; [done|]. split; [apply orb_true_iff in Hlim as [Hl|Hl]; bool_to_prop; unfold PROMPT_RETRY_MAX_AGE_SECS in *; lia|].
    eapply (retry_gives_up _ _ _ _ _ r); [done..| |exact Hst]. done.
  - bool_to_prop. pose proof (retry_delay_bounds k) as Hd.
    unfold PROMPT_RETRY_BASE_DELAY_MS, PROMPT_RETRY_MAX_DELAY_MS in Hd. split_and!; [done|lia|lia|lia|].
    destruct (stamp_rows has_agents _ _ _ _ _ _ r Hwf Hr Hid Hrank Hst) as (current & next & db2 & Hcur & Hnext & Hrows & Hdb).
    assert (DeliveryStage_rank next ≠ 3) as Hn.
    { destruct Hnext as [->| ->]; [|lia]. unfold row_rank in Hrank. by rewrite Hcur in Hrank. }
    rewrite bool_decide_false in Hdb by (by intros ->). subst db2.
    set (opts := AtomicStampOpts_reason reason detail) in *. set (r1 := stage_row (clk 1%nat) current next opts r).
    assert (pq_processed_at r1 = None) as Hp1 by (by apply stage_row_pending).
    assert (r1 ∈ log_rows (db_prompts db1)) as Hr1.
    { rewrite Hrows, elem_of_log_update. exists r. by rewrite by_id_true. }
    assert (log_wf (db_prompts db1)) as Hwf1 by (rewrite Hrows; by apply log_wf_update).
    assert (pq_first_attempt_at r1 = pq_first_attempt_at r) as Hf1 by reflexivity.
    assert (pq_id r1 = id) as Hid1 by exact Hid.
    generalize dependent r1. intros r1 Hp1 Hr1 Hf1 Hid1.
    exists (retry_row k first (Some (now + retry_delay_ms k * 1000000)) r1). split; [apply pending_prompt_intro; [by apply log_wf_update| |exact Hid1|exact Hp1]|].
    + apply elem_of_log_update. exists r1. split; [exact Hr1|]. rewrite by_id_true; [reflexivity|exact Hid1].
    + split_and!; [reflexivity| |reflexivity]. unfold first. cbn. rewrite Hf1. by destruct (pq_first_attempt_at r).
Qed.
End executions.

(** ** Acknowledgements under way

    [ack_delivered_for_recipient] chooses messages with a SELECT and updates them
    one by one.  [AckStep] has the ids that were chosen and not yet updated beside
    the database: other operations run in between, and a call may fail.  [split]
    are the messages whose acknowledgement by id other operations may interrupt
    between its statements. *)
Section acknowledgements.
Context {host : Host} (has_agents has_outbox_index : bool) (split : Z → Prop).
Implicit Types (db : Db) (r : PromptRow) (clk : Clock) (under_way : list Z).

Inductive AckStep : list Z * Db → list Z * Db → Prop :=
  | A_step under_way db db' :
      PromptStep has_agents has_outbox_index split db db' → AckStep (under_way, db) (under_way, db')
  | A_select recipients senders session at_ under_way db :
      AckStep (under_way, db) (under_way ++ confirmable_ids recipients senders session at_ db, db)
  | A_update now before id after db :
      AckStep (before ++ id :: after, db) (before ++ after, (assume_seen now [id] db).2)
  | A_failed before id after db : AckStep (before ++ id :: after, db) (before ++ after, db).

(** The call as it is modelled is one of these runs. *)
Lemma assume_seen_cons now id ids db :
  (assume_seen now (id :: ids) db).2 = (assume_seen now ids (assume_seen now [id] db).2).2.
Proof.
  assert (∀ P f (db0 : Db), update_prompts P f db0 = db0 <| db_prompts := log_update P f (db_prompts db0) |>) as Hu by done.
  unfold assume_seen. cbn [snd]. rewrite !Hu. set (l := log_update _ _ _). set (l' := log_update _ _ (db_prompts (_ <| _ := _ |>))).
  assert (l = l') as ->; [|by destruct db]. unfold l, l', log_update. cbn. f_equal. rewrite <-list_fmap_compose.
  apply list_fmap_ext. intros _ r _. unfold compose. cbn.
  destruct (row_id r =? id); cbn; [|done].
  destruct (is_none (pq_acked_at r)) eqn:Ha; cbn; [|by rewrite Ha, !andb_false_r].
  destruct (is_none (pq_assumed_seen_at r)) eqn:Hs; cbn; [by rewrite !andb_false_r|by rewrite Hs, !andb_false_r].
Qed.
Lemma assume_seen_nil now db : (assume_seen now [] db).2 = db.
Proof.
  unfold assume_seen. cbn [snd]. set (f := λ r : PromptRow, _ <| _ := _ |>).
  assert (log_update (λ r, among [] r && is_none (pq_acked_at r) && is_none (pq_assumed_seen_at r)) f (db_prompts db)
    = db_prompts db) as Hl.
  { destruct (db_prompts db) as [rows seq]. unfold log_update. cbn. f_equal. apply list_fmap_id. }
  assert (∀ P (db0 : Db), update_prompts P f db0 = db0 <| db_prompts := log_update P f (db_prompts db0) |>) as Hu by done.
  rewrite Hu, Hl. by destruct db.
Qed.
Lemma updates_run now under_way ids db :
  rtc AckStep (under_way ++ ids, db) (under_way, (assume_seen now ids db).2).
Proof.
  revert db. induction ids as [|id ids IH]; intros db; [by rewrite app_nil_r, assume_seen_nil|].
  eapply rtc_l; [apply A_update|]. rewrite (assume_seen_cons now id ids). apply IH.
Qed.
Lemma ack_delivered_runs clk recipients senders session at_ under_way db x db' :
  ack_delivered_for_recipient clk recipients senders session at_ db = Ok (x, db') →
  rtc AckStep (under_way, db) (under_way, db').
Proof.
  unfold ack_delivered_for_recipient. intros H.
  destruct recipients as [|recipient recipients]; [by injection H as _ <-|].
  destruct senders as [|sender senders]; [by injection H as _ <-|].
  injection H as _ <-.
  eapply rtc_l; [apply (A_select (recipient :: recipients) (sender :: senders) session at_)|].
  exact (updates_run (clk 0%nat) _ _ _).
Qed.

(** A withdrawn message is not chosen. *)
Lemma withdrawn_not_chosen recipients senders session at_ db r :
  log_wf (db_prompts db) → r ∈ log_rows (db_prompts db) → withdrawn r →
  pq_id r ∉ confirmable_ids recipients senders session at_ db.
Proof.
  intros Hwf Hr [_ Hw] (r0 & Hid & [Hr0 Hc]%elem_of_log_select)%list_elem_of_fmap.
  assert (r = r0) as <- by (by apply (log_wf_unique (db_prompts db))). unfold delivered_unacked in Hc.
  destruct Hw as [[_ Hs]|[[t Ht] _]]; [rewrite Hs in Hc|rewrite Ht in Hc]; bool_to_prop; done.
Qed.

(** What a run of acknowledgements keeps of a withdrawn message *)
Definition stays_withdrawn (id : Z) (recipient : string) (s : list Z * Db) : Prop :=
  log_wf (db_prompts s.2) ∧ (id ∉ s.1) ∧ id ≤ log_seq (db_prompts s.2)
  ∧ ∀ r, r ∈ log_rows (db_prompts s.2) → pq_id r = id → withdrawn r ∧ pq_target r = recipient.
Lemma kept_stays_withdrawn stale id recipient under_way under_way' db db' :
  ¬ stale id → id ∉ under_way' → kept_step stale db db' →
  stays_withdrawn id recipient (under_way, db) → stays_withdrawn id recipient (under_way', db').
Proof.
  intros Hst Hu Hs (Hwf & _ & Hseq & Hw). cbn in *. destruct (Hs Hwf) as (Hwf' & [Hle Hev] & _).
  split_and!; [done|done|cbn; lia|]. intros r' Hr' Hid.
  destruct (Hev r' Hr') as [Hnew|(r & Hr & Hrid & Hk)]; [unfold row_id, PromptRow_id in Hnew; lia|].
  unfold row_id, PromptRow_id in Hrid. destruct (Hw r Hr) as [Hwr Ht]; [congruence|].
  unfold kept_le in Hk. destruct_and! Hk. split; [|congruence].
  match goal with H : (¬ stale _) → _ |- _ => apply H; [|done] end. by rewrite Hrid, Hid.
Qed.
Lemma ack_step_withdrawn id recipient s s' :
  ¬ split id → AckStep s s' → stays_withdrawn id recipient s → stays_withdrawn id recipient s'.
Proof.
  intros Hsplit Hs Hw. pose proof Hw as (Hwf & Hu & Hseq & Hrows).
  destruct Hs as [under_way db db' Hs|recipients senders session at_ under_way db|now before id' after db|before id' after db];
    cbn [fst snd] in *.
  - eapply kept_stays_withdrawn; [exact Hsplit|exact Hu|eapply prompt_is_step, Hs|exact Hw].
  - split_and!; [done| |done|done]. cbn. rewrite elem_of_app. intros [?|Hin]; [done|].
    apply list_elem_of_fmap in Hin as Hin'. destruct Hin' as (r & -> & [Hr _]%elem_of_log_select).
    destruct (Hrows r Hr eq_refl) as [Hwr _]. by eapply withdrawn_not_chosen.
  - rewrite elem_of_app, elem_of_cons in Hu. eapply (kept_stays_withdrawn (λ i, i = id')); [| | |exact Hw].
    + intros ->. apply Hu. auto.
    + rewrite elem_of_app. intros ?. apply Hu. tauto.
    + apply assume_step. by intros i ->%list_elem_of_singleton.
  - split_and!; try done. cbn. rewrite elem_of_app, elem_of_cons in *. tauto.
Qed.

(** C5: Cancelled mail is not handed over.  Once a shutdown cancelled the
    unread mail of a recipient, whatever runs afterwards, the daemon cannot
    claim such a message for that recipient again and never selects it, and no
    inbox poll, named read or hook shows more of it than a reference, provided that
    no acknowledgement by a later reply had chosen the message before the
    cancellation and updates it after, and that nothing runs between the two
    statements of an acknowledgement of the message itself. *)
Theorem cancelled_mail_is_never_handed_over clk recipient session detail db n under_way db1 under_way' db2 r :
  log_wf (db_prompts db) → r ∈ log_rows (db_prompts db) → shutdown_unread recipient session db r = true →
  cancel_unread_for_shutdown clk recipient session detail db = Ok (n, db1) →
  (pq_id r ∉ under_way) → ¬ split (pq_id r) → rtc AckStep (under_way, db1) (under_way', db2) →
  (∀ clk' last o last' db3,
     claim_recipient_transport_token clk' last (pq_id r) recipient db2 = Ok (o, last', db3) → o = None)
  ∧ (∀ clk' targets session' limit out q,
     peek_for_targets clk' targets session' limit db2 = Ok out → q ∈ out → qd_id q ≠ pq_id r)
  ∧ (∀ clk' hold limit d out over db3 q,
     drain_unseen_for_recipient_budgeted has_agents has_outbox_index clk' hold limit d db2 = Ok (out, over, db3) →
     q ∈ out → qd_id q = pq_id r → qd_reference_only q = true).
Proof.
  intros Hwf Hr Hu Hc Hno Hsplit Hrun. destruct (cancelled_is_withdrawn _ _ _ _ _ _ _ _ Hr Hu Hc) as (Hrec & r1 & Hr1 & Hid & Ht & Hw).
  assert (stays_withdrawn (pq_id r) recipient (under_way', db2)) as (Hwf2 & _ & _ & Hlater).
  { refine (rtc_ind_r (stays_withdrawn (pq_id r) recipient) _ _ _ _ Hrun);
      [|intros ? ? _ Hs; by apply ack_step_withdrawn, Hs].
    destruct (cancel_unread_step _ _ _ _ _ _ _ Hc) as [Hs _]. destruct (Hs Hwf) as (Hwf1 & _ & _).
    split_and!; [done|done| |].
    - cbn. rewrite <-Hid. destruct Hwf1 as [_ Hb]. rewrite Forall_forall in Hb. by apply (Hb r1).
    - cbn. intros r2 Hr2 Hid2. assert (r2 = r1) as ->; [|done].
      apply (log_wf_unique (db_prompts db1)); [done..|unfold row_id, PromptRow_id; congruence]. }
  cbn in Hwf2, Hlater. split_and!.
  - intros clk' last o last' db3 [_ H]%claim_token_cases. destruct o as [token|]; [|done]. exfalso.
    destruct H as (_ & _ & (r2 & Hr2%list_elem_of_In & Hcl)%existsb_exists & _).
    assert (pq_id r2 = pq_id r) as Hid2 by (unfold claimable_for, by_id in Hcl; bool_to_prop; done).
    destruct (Hlater r2 Hr2 Hid2) as [Hw2 Ht2].
    rewrite withdrawn_not_claimable in Hcl; [done|done|congruence].
  - intros clk' targets session' limit out q Hp Hq Hid2.
    destruct (peeked_is_pending _ _ _ _ _ _ _ Hp Hq) as (r2 & -> & Hr2 & Hnone & _).
    destruct (Hlater r2 Hr2 Hid2) as [[[t Hp2] _] _]. congruence.
  - intros clk' hold limit d out over db3 q Hd Hq Hid2.
    destruct (drained_has_row _ _ _ _ _ _ _ _ _ _ _ Hwf2 Hd Hq) as (r2 & Hr2 & Hid').
    destruct (Hlater r2 Hr2) as [Hw2 Ht2]; [congruence|].
    eapply (withdrawn_not_drained has_agents has_outbox_index); [done|exact Hd|done|exact Hr2|done|congruence|done].
Qed.
End acknowledgements.
