(* ===== verification/PromptEnqueueSpec.v ===== *)
(** * What writing a prompt promises

    The fold of a worker's action messages loses no text and stays within its
    bound; every writing operation is a run of steps of the prompt queue and of the
    delivery lanes, so the theorems about executions hold with them; a keyed message
    is written once. *)

From S2P Require Import Prelude Texts Logs Enums VerifierText Db NoteMarkers SupervisorQueue PromptTypes PromptNotices PromptQueue PromptDrain OperatorLanes PromptEnqueue PromptQueueSpec PromptDrainSpec LaneSpec PromptProtocol.

Implicit Types (db : Db) (r : PromptRow) (clk : Clock).

(** ** Texts *)
Lemma bytes_app s t : bytes (s +:+ t) = bytes s + bytes t.
Proof. unfold bytes. rewrite string_length_app. lia. Qed.
Lemma bytes_nonneg s : 0 ≤ bytes s.
Proof. unfold bytes. lia. Qed.
Lemma strip_prefix_bytes p s rest : strip_prefix p s = Some rest → bytes s = bytes p + bytes rest.
Proof.
  revert s. induction p as [|a p IH]; intros s; [by intros [= ->]|]. destruct s as [|b s]; [done|]. cbn.
  destruct (Ascii.eqb a b); [|done]. intros Hs%IH. unfold bytes in *. cbn. lia.
Qed.
Lemma split_once_bytes sep s before after :
  split_once sep s = Some (before, after) → bytes s = bytes before + 1 + bytes after.
Proof.
  revert before. induction s as [|x s IH]; intros before; [done|]. cbn.
  destruct (Ascii.eqb x sep); [intros [= <- ->]; unfold bytes; cbn; lia|].
  destruct (split_once sep s) as [[b1 a1]|] eqn:Hs; [|done]. intros [= <- <-]. specialize (IH b1 eq_refl).
  unfold bytes in *. cbn. lia.
Qed.
Lemma strip_quiet_bytes s rest : strip_quiet s = Some rest → bytes QUIET_MESSAGE_MARKER + bytes rest ≤ bytes s.
Proof.
  unfold strip_quiet. intros (s1 & Hs & ->)%fmap_Some. apply strip_prefix_bytes in Hs.
  assert (bytes (default s1 (strip_prefix nl s1)) ≤ bytes s1); [|lia].
  destruct (strip_prefix nl s1) as [s2|] eqn:H2; [|done].
  apply strip_prefix_bytes in H2. pose proof (bytes_nonneg nl). change (default s1 (Some s2)) with s2. lia.
Qed.
Lemma split_quiet_bytes s : bytes (split_quiet_marker s).2 ≤ bytes s.
Proof.
  unfold split_quiet_marker. destruct (strip_quiet s) as [rest|] eqn:Hq.
  { apply strip_quiet_bytes in Hq. pose proof (bytes_nonneg QUIET_MESSAGE_MARKER). cbn [snd]. lia. }
  destruct (starts_with _ s); [|cbn; lia]. destruct (split_once newline s) as [[front r1]|] eqn:Hs; [|cbn; lia].
  cbn [mbind option_bind]. destruct (strip_quiet r1) as [r2|] eqn:H2; [|cbn; lia]. cbn [mbind option_bind snd].
  apply split_once_bytes in Hs. apply strip_quiet_bytes in H2. rewrite !bytes_app.
  assert (bytes nl = 1) as -> by done. pose proof (bytes_nonneg QUIET_MESSAGE_MARKER). lia.
Qed.

(** ** The fold *)
Lemma added_app l1 l2 : added_bytes (l1 ++ l2) = added_bytes l1 + added_bytes l2.
Proof. induction l1 as [|x l1 IH]; cbn; [done|]. unfold added_bytes in *. lia. Qed.
Lemma concat_bytes l : l ≠ [] → bytes (String.concat nlnl l) + 2 = added_bytes l.
Proof.
  induction l as [|x l IH]; [done|]. intros _. destruct l as [|y l]; [unfold added_bytes; cbn [String.concat foldr]; lia|].
  change (String.concat nlnl (x :: y :: l)) with (x +:+ nlnl +:+ String.concat nlnl (y :: l)).
  rewrite !bytes_app. assert (bytes nlnl = 2) as -> by done.
  assert (bytes (String.concat nlnl (y :: l)) + 2 = added_bytes (y :: l)) as Hl by (by apply IH).
  change (added_bytes (x :: y :: l)) with (bytes x + 2 + added_bytes (y :: l)). lia.
Qed.
Definition within_cap (fold : MessageFold) : Prop :=
  mf_blocks fold = [] ∨ mf_length fold ≤ WORKER_ACTION_FOLD_CAP_BYTES.
Lemma fold_message_spec new_body fold r :
  let fold' := fold_message new_body fold r in
  (∃ new, mf_blocks fold' = mf_blocks fold ++ new ∧ mf_length fold' = mf_length fold + added_bytes new)
  ∧ (within_cap fold → within_cap fold')
  ∧ (fold' = fold ∨ mf_superseded fold' = mf_superseded fold ++ [pq_id r]
       ∧ ∀ p, p ∈ message_pieces new_body r → p ∈ mf_blocks fold')
  ∧ (mf_all_quiet fold' = true → mf_all_quiet fold = true).
Proof.
  cbn zeta. unfold fold_message. set (pieces := message_pieces new_body r).
  destruct (negb (bool_decide (pieces = [])) && _) eqn:Hskip.
  { split_and!; [exists []; rewrite app_nil_r; cbn; split; [done|lia]|done|by left|done]. }
  cbn. split_and!; [by exists pieces| |right; split; [done|]; intros p Hp; by apply elem_of_app; right|by intros [? _]%andb_true_iff].
  unfold within_cap. cbn. intros Hcap. apply andb_false_iff in Hskip as [Hn|Hlt].
  - apply negb_false_iff, bool_decide_eq_true in Hn. rewrite Hn. rewrite app_nil_r. cbn.
    destruct Hcap as [?|?]; [by left|right; lia].
  - right. lia.
Qed.
Lemma fold_all_spec new_body rows fold :
  let fold' := foldl (fold_message new_body) fold rows in
  (∃ new, mf_blocks fold' = mf_blocks fold ++ new ∧ mf_length fold' = mf_length fold + added_bytes new)
  ∧ (within_cap fold → within_cap fold')
  ∧ (∃ taken, taken `sublist_of` rows ∧ mf_superseded fold' = mf_superseded fold ++ (pq_id <$> taken)
       ∧ ∀ r p, r ∈ taken → p ∈ message_pieces new_body r → p ∈ mf_blocks fold')
  ∧ (mf_all_quiet fold' = true → mf_all_quiet fold = true).
Proof.
  revert fold. induction rows as [|r rows IH]; intros fold; cbn.
  { split_and!; [exists []; rewrite app_nil_r; cbn; split; [done|lia]|done| |done].
    exists []. split_and!; [constructor|by rewrite app_nil_r|by intros ? ? ?%elem_of_nil]. }
  destruct (fold_message_spec new_body fold r) as ((n1 & Hb1 & Hl1) & Hc1 & Ht1 & Hq1).
  destruct (IH (fold_message new_body fold r)) as ((n2 & Hb2 & Hl2) & Hc2 & (taken & Hs & Hi & Hp) & Hq2).
  split_and!; [|auto| |auto].
  - exists (n1 ++ n2). rewrite Hb2, Hb1, Hl2, Hl1, added_app, app_assoc. split; [done|lia].
  - destruct Ht1 as [Heq|[Hi1 Hp1]].
    + exists taken. rewrite Hi, Heq. split_and!; [by constructor|done|]. rewrite Heq in Hp. done.
    + exists (r :: taken). split_and!; [by constructor|rewrite Hi, Hi1; by rewrite <-app_assoc|].
      intros r' p [->|Hr']%elem_of_cons Hin; [|by eapply Hp]. rewrite Hb2. apply elem_of_app. left. by apply Hp1.
Qed.
Lemma folded_prompt_spec stored candidates :
  let out := folded_prompt stored (fold_messages stored candidates) in
  let text := (split_quiet_marker stored).2 in
  (out = stored ∨ carried_in text out)
  ∧ bytes out ≤ Z.max WORKER_ACTION_FOLD_CAP_BYTES (bytes stored)
  ∧ ∃ taken, taken `sublist_of` candidates ∧ mf_superseded (fold_messages stored candidates) = pq_id <$> taken
      ∧ ∀ r p, r ∈ taken → p ∈ message_pieces (body_of text) r → carried_in p out.
Proof.
  cbn zeta. unfold fold_messages, folded_prompt. pose proof (split_quiet_bytes stored) as Hqb.
  destruct (split_quiet_marker stored) as [quiet text]. cbn [snd] in *. set (start := mkMessageFold _ _ _ _).
  destruct (fold_all_spec (body_of text) candidates start) as ((new & Hb & Hl) & Hcap & (taken & Hs & Hi & Hp) & Hq).
  set (fold := foldl _ _ _) in *. cbn in Hb. rewrite Hb. destruct new as [|x new].
  - split_and!.
    + destruct (quiet && _); [right; apply carried_refl|by left].
    + destruct (quiet && _); lia.
    + exists taken. split_and!; [done|done|]. intros r p Hr Hin. specialize (Hp r p Hr Hin). rewrite Hb in Hp. by apply elem_of_nil in Hp.
  - set (blocks := x :: new) in *. assert (bytes (String.concat nlnl blocks) + 2 = added_bytes blocks) as Hc by (by apply concat_bytes).
    destruct (Hcap (or_introl eq_refl)) as [Hn|Hle]; [by rewrite Hb in Hn|]. rewrite Hb in Hp.
    set (folded := String.concat nlnl blocks +:+ fold_boundary +:+ text).
    assert (carried_in text (if mf_all_quiet fold then QUIET_MESSAGE_MARKER +:+ nl +:+ folded else folded)
      ∧ ∀ p, p ∈ blocks → carried_in p (if mf_all_quiet fold then QUIET_MESSAGE_MARKER +:+ nl +:+ folded else folded)) as [Ht Hbl].
    { assert (carried_in text folded ∧ ∀ p, p ∈ blocks → carried_in p folded) as [H1 H2].
      { unfold folded. split; [by apply carried_left, carried_left, carried_refl|]. intros p Hin.
        by apply carried_right, carried_concat. }
      destruct (mf_all_quiet fold); [|done]. split; [by apply carried_left, carried_left|]. intros p Hin. by apply carried_left, carried_left, H2. }
    split_and!; [by right| |exists taken; split_and!; [done..|]; intros r p Hr Hin; by eapply Hbl, Hp].
    unfold start in Hl. cbn [mf_length] in Hl. assert (bytes folded = bytes (String.concat nlnl blocks) + (bytes fold_boundary + bytes text)) as Hf
      by (unfold folded; by rewrite !bytes_app).
    pose proof (bytes_nonneg QUIET_MESSAGE_MARKER) as Hm. assert (bytes nl = 1) as Hnl by done.
    destruct (mf_all_quiet fold) eqn:Hall; rewrite ?bytes_app; [|destruct quiet; lia].
    destruct quiet; [lia|]. by specialize (Hq eq_refl).
Qed.

(** ** Stamps that supersede *)
Definition open_stage r : Prop := pq_highest_stage r ≠ Some "suppressed" ∧ pq_highest_stage r ≠ Some "abandoned".
Lemma parse_inv s st : DeliveryStage_parse s = Some st → s = DeliveryStage_as_str st.
Proof.
  unfold DeliveryStage_parse, lookup_text. intros Hs. repeat (cbn in Hs; match type of Hs with context [String.eqb ?a ?b] =>
    destruct (String.eqb_spec a b) as [->|]; [by injection Hs as <-|] end). done.
Qed.

Section supersede.
Context {host : Host} (has_agents has_outbox_index has_tasks : bool).

Lemma supersede_row now id detail db db' r :
  log_wf (db_prompts db) → r ∈ log_rows (db_prompts db) → pq_id r = id → open_stage r →
  atomic_stage_stamp_in_tx has_agents now id DeliveryStage_Suppressed
    (settled_opts (Some PendingReason_SupersededStale) (Some detail)) db = Ok db' →
  ∃ current next, db_prompts db' = log_update (by_id id)
    (stage_row now current next (settled_opts (Some PendingReason_SupersededStale) (Some detail))) (db_prompts db).
Proof.
  intros Hwf Hr Hid [Hns Hna]. unfold atomic_stage_stamp_in_tx. intros (current & Hcur & H)%bind_Ok.
  pose proof (read_stage_row id db r current Hwf Hr Hid Hcur) as Hst. unfold row_stage in Hst.
  assert (current ≠ DeliveryStage_Suppressed ∧ current ≠ DeliveryStage_Abandoned) as [Hcs Hca].
  { destruct (pq_highest_stage r) as [s|]; [|by injection Hst as <-]. apply parse_inv in Hst as ->.
    by split; intros ->. }
  assert (shutdown_cancelled id current DeliveryStage_Suppressed db = false) as Hsc.
  { unfold shutdown_cancelled. by rewrite bool_decide_eq_false_2. }
  rewrite Hsc in H. apply bind_Ok in H as (next & [_ Hnext]%resolve_spec & H).
  assert (next ≠ DeliveryStage_Abandoned) as Hn by (by destruct Hnext as [->| ->]).
  rewrite (bool_decide_eq_false_2 _ Hn) in H. injection H as <-. exists current, next.
  destruct (bool_decide (next = DeliveryStage_Delivered)); [|done].
  exact (proj1 (record_transport_spec now id _)).
Qed.
Lemma supersede_spec stamps detail ids db db' :
  log_wf (db_prompts db) → NoDup ids →
  (∀ id, id ∈ ids → ∃ r, r ∈ log_rows (db_prompts db) ∧ pq_id r = id ∧ open_stage r) →
  supersede has_agents stamps detail ids db = Ok db' →
  ∀ r, r ∈ log_rows (db_prompts db) →
    (pq_id r ∉ ids → r ∈ log_rows (db_prompts db'))
    ∧ (pq_id r ∈ ids → ∃ r', r' ∈ log_rows (db_prompts db') ∧ pq_id r' = pq_id r ∧ is_Some (pq_processed_at r')).
Proof.
  unfold supersede. revert stamps db. induction ids as [|id ids IH]; intros stamps db Hwf Hnd Hex Hs r Hr; cbn in Hs.
  { injection Hs as <-. split; [done|by intros ?%elem_of_nil]. }
  apply bind_Ok in Hs as (db1 & H1 & Hs). apply NoDup_cons in Hnd as [Hid Hnd].
  destruct (Hex id) as (o & Ho & Hoid & Hopen); [left|].
  destruct (supersede_row _ _ _ _ _ o Hwf Ho Hoid Hopen H1) as (current & next & Hdb1).
  assert (log_wf (db_prompts db1)) as Hwf1 by (rewrite Hdb1; by apply log_wf_update).
  assert (∀ x, x ∈ log_rows (db_prompts db) → pq_id x ≠ id → x ∈ log_rows (db_prompts db1)) as Hkeep.
  { intros x Hx Hne. rewrite Hdb1. apply elem_of_log_update. exists x. split; [done|].
    assert (by_id id x = false) as -> by (by apply Z.eqb_neq). done. }
  assert (∀ k, k ∈ ids → ∃ x, x ∈ log_rows (db_prompts db1) ∧ pq_id x = k ∧ open_stage x) as Hex1.
  { intros k Hk. destruct (Hex k) as (x & Hx & Hxk & Hxo); [by right|]. exists x. split; [|done]. apply Hkeep; [done|]. intros Heq. apply Hid. by rewrite <-Heq, Hxk. }
  specialize (IH _ db1 Hwf1 Hnd Hex1 Hs). destruct (decide (pq_id r = id)) as [Hrid|Hrid].
  - split; [intros Hn; destruct Hn; rewrite Hrid; left|]. intros _.
    assert (∃ r1, r1 ∈ log_rows (db_prompts db1) ∧ pq_id r1 = pq_id r ∧ is_Some (pq_processed_at r1)) as (r1 & Hr1 & Hid1 & Hp1).
    { eexists. rewrite Hdb1. split; [apply elem_of_log_update; exists r; split; [done|reflexivity]|].
      assert (by_id id r = true) as -> by (by apply Z.eqb_eq). split; [done|]. cbn. by destruct (pq_processed_at r). }
    destruct (IH r1 Hr1) as [Hk _]. exists r1. split_and!; [apply Hk; congruence|done..].
  - destruct (IH r (Hkeep r Hr Hrid)) as [Ha Hb]. split; [intros Hn; apply Ha; by intros ?; apply Hn; right|].
    intros [?|Hin]%elem_of_cons; [done|]. by apply Hb.
Qed.

(** ** The parts of a worker's message

    What a stored message says is read off its text: the quiet marker at its
    front, or after the line of a reply, is taken out; the text ends where the last
    action envelope begins; and what precedes the closing line of a fold was folded
    earlier. *)
Definition END_OF_FOLD : string := nlnl +:+ "--- end of earlier undelivered messages ---".
Definition ESCAPED_END : string := nlnl +:+ "\" +:+ "--- end of earlier undelivered messages ---".
Definition QUIET : string := "<cas-message-quiet/>".

(** Every closing line in the text is escaped, from left to right. *)
Inductive escaped : string → string → Prop :=
  | escaped_none s : ¬ carried_in END_OF_FOLD s → escaped s s
  | escaped_first s before after rest :
      first_at END_OF_FOLD s before after → escaped after rest → escaped s (before +:+ ESCAPED_END +:+ rest).

(** One line break that follows the marker goes with it. *)
Definition after_marker (after rest : string) : Prop :=
  after = nl +:+ rest ∨ rest = after ∧ ∀ x, after ≠ nl +:+ x.
Inductive unmarked : string → string → Prop :=
  | unmarked_front after rest : after_marker after rest → unmarked (QUIET +:+ after) rest
  | unmarked_reply reply after rest :
      ¬ carried_in nl ("[CAS reply:" +:+ reply) → after_marker after rest →
      unmarked (("[CAS reply:" +:+ reply) +:+ nl +:+ QUIET +:+ after) (("[CAS reply:" +:+ reply) +:+ nl +:+ rest)
  | unmarked_plain s :
      (∀ after, s ≠ QUIET +:+ after) →
      (∀ reply after, ¬ carried_in nl ("[CAS reply:" +:+ reply) → s ≠ ("[CAS reply:" +:+ reply) +:+ nl +:+ QUIET +:+ after) →
      unmarked s s.
Definition before_envelope (text body : string) : Prop :=
  (∃ raw rest, last_at "<cas-worker-action" text raw rest ∧ body = trim raw)
  ∨ ¬ carried_in "<cas-worker-action" text ∧ body = trim text.

(** A new message holds an old one: what that one had folded, and its own text
    under a heading with its id, unless that is empty or the new message's own. *)
Definition holds_message (new_body new_text : string) r : Prop :=
  ∃ text body own, unmarked (pq_prompt r) text ∧ before_envelope text body
    ∧ ((∃ before after, first_at END_OF_FOLD body before after
          ∧ carried_in (trim before) new_text ∧ own = trim after)
       ∨ ¬ carried_in END_OF_FOLD body ∧ own = body)
    ∧ (own = EmptyString ∨ own = new_body
       ∨ ∃ label, carried_in ("Earlier message #" +:+ show_z (pq_id r) +:+ label
            +:+ ", not yet delivered when this one was sent:" +:+ nl +:+ own) new_text).

Lemma replace_escapes s n : (String.length s ≤ n)%nat → escaped s (replace_text_fuel n PARSER_DELIMITER ESCAPED_DELIMITER s).
Proof.
  revert s. induction n as [|n IH]; intros s Hn.
  { destruct s; [|cbn in Hn; lia]. apply escaped_none. by intros ([] & ? & ?). }
  cbn [replace_text_fuel]. destruct (split_text PARSER_DELIMITER s) as [[before after]|] eqn:Hs.
  - apply split_text_Some in Hs as Hf. apply (escaped_first s before after); [done|]. apply IH.
    destruct Hf as [-> _]. rewrite !string_length_app in Hn. change (String.length PARSER_DELIMITER) with (String.length END_OF_FOLD) in Hn. vm_compute (String.length END_OF_FOLD) in Hn. lia.
  - apply escaped_none. by apply split_text_None in Hs.
Qed.
Lemma escape_escapes s : escaped s (escape_delimiter s).
Proof. by apply replace_escapes. Qed.
Lemma strip_quiet_after s : match strip_quiet s with
  | Some rest => ∃ after, s = QUIET +:+ after ∧ after_marker after rest
  | None => ∀ after, s ≠ QUIET +:+ after end.
Proof.
  unfold strip_quiet. destruct (strip_prefix QUIET_MESSAGE_MARKER s) as [after|] eqn:Hq; cbn [fmap option_fmap option_map].
  - apply strip_prefix_Some in Hq as ->. exists after. split; [done|]. unfold after_marker.
    destruct (strip_prefix nl after) as [rest|] eqn:Hn; cbn [default from_option id].
    + left. by apply strip_prefix_Some in Hn.
    + right. split; [done|]. intros x Hx%strip_prefix_Some. congruence.
  - intros after Ha%(strip_prefix_Some QUIET_MESSAGE_MARKER). congruence.
Qed.
Lemma split_once_newline s :
  match split_once newline s with
  | Some (before, after) => s = before +:+ nl +:+ after ∧ ¬ carried_in nl before
  | None => ¬ carried_in nl s end.
Proof.
  induction s as [|c s IH]; cbn [split_once]; [by intros ([] & ? & ?)|].
  destruct (Ascii.eqb_spec c newline) as [->|Hne].
  - split; [done|]. by intros ([] & ? & ?).
  - assert (∀ t, ¬ carried_in nl t → ¬ carried_in nl (String c t)) as Hcons.
    { intros t Ht ([|x a] & b & [= Hc Hab]); [congruence|]. apply Ht. by exists a, b. }
    destruct (split_once newline s) as [[before after]|]; cbn [mbind option_bind]; [|auto].
    destruct IH as [-> IH]. auto.
Qed.
Lemma newline_free_prefix p a b a' b' :
  p +:+ a = b +:+ nl +:+ b' → ¬ carried_in nl p → a' = b → ∃ x, a' = p +:+ x.
Proof.
  intros Heq Hp ->. revert b Heq. induction p as [|c p IH]; intros b Heq; [by exists b|].
  assert (¬ carried_in nl p) as Hp' by (intros (l & t & ->); apply Hp; by exists (String c l), t).
  destruct b as [|x b]; [injection Heq as -> _; destruct Hp; by exists EmptyString, p|].
  injection Heq as -> Heq. destruct (IH Hp' b Heq) as [y ->]. by exists y.
Qed.
Lemma first_line_unique a b x y :
  a +:+ nl +:+ x = b +:+ nl +:+ y → ¬ carried_in nl a → ¬ carried_in nl b → a = b ∧ x = y.
Proof.
  revert b. induction a as [|c a IH]; intros [|d b] H Ha Hb.
  - split; [done|]. by injection H.
  - injection H as Hh _. destruct Hb. rewrite <-Hh. by exists EmptyString, b.
  - injection H as Hh _. destruct Ha. rewrite Hh. by exists EmptyString, a.
  - injection H as -> H. destruct (IH b H) as [-> ->]; [| |done].
    + intros (l & t & ->). apply Ha. by exists (String d l), t.
    + intros (l & t & ->). apply Hb. by exists (String d l), t.
Qed.
Lemma split_quiet_unmarked s : unmarked s (split_quiet_marker s).2.
Proof.
  unfold split_quiet_marker. pose proof (strip_quiet_after s) as Hq.
  destruct (strip_quiet s) as [rest|]; [destruct Hq as (after & -> & Ha); by apply unmarked_front|].
  destruct (starts_with "[CAS reply:" s) eqn:Hstart.
  2: { cbn. apply unmarked_plain; [done|]. intros reply after _ ->. rewrite starts_with_false in Hstart.
       eapply Hstart. by rewrite string_app_assoc. }
  apply starts_with_true in Hstart as [tail Htail]. pose proof (split_once_newline s) as Hn.
  assert (¬ carried_in nl "[CAS reply:") as Hfree.
  { intros (a & b & Hab). assert (String.length a ≤ 11)%nat as Hlen
      by (apply (f_equal String.length) in Hab; rewrite string_length_app in Hab; cbn in Hab; lia).
    do 11 (destruct a as [|? a]; [discriminate Hab|injection Hab as _ Hab]). by destruct a. }
  destruct (split_once newline s) as [[reply_line after]|]; cbn [mbind option_bind].
  - destruct Hn as [Heq Hno]. pose proof (strip_quiet_after after) as Hq2.
    destruct (newline_free_prefix "[CAS reply:" tail reply_line reply_line after) as [reply ->]; [congruence|done|done|].
    destruct (strip_quiet after) as [rest|]; cbn [mbind option_bind snd].
    + destruct Hq2 as (after2 & -> & Ha). rewrite Heq. by apply unmarked_reply.
    + apply unmarked_plain; [done|]. intros reply2 after2 Hno2 Heq2. rewrite Heq in Heq2.
      assert (reply = reply2 ∧ after = QUIET +:+ after2) as [_ Hbad]; [|by apply (Hq2 after2)].
      destruct (first_line_unique _ _ _ _ Heq2 Hno Hno2) as [Hab ->]. split; [|done].
      by apply string_app_inj_length in Hab as [_ ->].
  - cbn. apply unmarked_plain; [done|]. intros reply after _ ->. apply Hn. by exists ("[CAS reply:" +:+ reply), (QUIET +:+ after).
Qed.
Lemma body_of_before_envelope text : before_envelope text (body_of text).
Proof.
  unfold before_envelope, body_of, rsplit_text.
  destruct (split_text (String.rev "<cas-worker-action") (String.rev text)) as [[after before]|] eqn:Hs; cbn [mbind option_bind].
  - left. apply split_text_Some in Hs. exists (String.rev before), (String.rev after). split; [|done].
    apply last_at_rev. by rewrite !string_rev_involutive.
  - right. split; [|done]. apply split_text_None in Hs. intros (a & b & ->). apply Hs.
    rewrite !string_rev_app, string_app_assoc. by exists (String.rev b), (String.rev a).
Qed.
Lemma pieces_hold new_body text r :
  (∀ p, p ∈ message_pieces new_body r → carried_in p text) → holds_message new_body text r.
Proof.
  unfold message_pieces, message_parts. set (old := (split_quiet_marker (pq_prompt r)).2). intros Hp.
  exists old, (body_of old). destruct (split_text PARSER_DELIMITER (body_of old)) as [[before after]|] eqn:Hs.
  - exists (trim after). split_and!; [apply split_quiet_unmarked|apply body_of_before_envelope| |].
    + left. exists before, after. split_and!; [by apply split_text_Some|apply Hp; left|done].
    + unfold str_is_empty in Hp. destruct (String.eqb_spec (trim after) EmptyString) as [|He]; [by left|].
      destruct (String.eqb_spec (trim after) new_body) as [|Hb]; [by right; left|]. right. right.
      exists (message_label r). apply Hp. cbn [negb andb]. apply elem_of_app. right. left.
  - exists (body_of old). split_and!; [apply split_quiet_unmarked|apply body_of_before_envelope| |].
    + right. split; [by apply split_text_None|done].
    + unfold str_is_empty in Hp. destruct (String.eqb_spec (body_of old) EmptyString) as [|He]; [by left|].
      destruct (String.eqb_spec (body_of old) new_body) as [|Hb]; [by right; left|]. right. right.
      exists (message_label r). apply Hp. cbn [negb andb]. apply elem_of_app. right. left.
Qed.

(** ** The fold of a worker's messages *)
Lemma log_wf_ids (l : Log PromptRow) : log_wf l → NoDup (pq_id <$> log_rows l).
Proof.
  intros [Hs _]. change (NoDup (row_id <$> log_rows l)). induction Hs as [|x xs _ IH Hx]; constructor; [|done].
  intros Hin. rewrite Forall_forall in Hx. specialize (Hx x Hin). lia.
Qed.
Lemma action_candidates_spec session agent worker db :
  log_wf (db_prompts db) →
  NoDup (pq_id <$> action_candidates session agent worker db)
  ∧ ∀ r, r ∈ action_candidates session agent worker db → r ∈ log_rows (db_prompts db) ∧ open_stage r.
Proof.
  intros Hwf. unfold action_candidates. set (pending := log_select _ _). split.
  - eapply sublist_NoDup; [|apply fmap_sublist, filter_bool_sublist]. rewrite order_by_perm.
    eapply sublist_NoDup; [|apply fmap_sublist, filter_bool_sublist]. by apply log_wf_ids.
  - intros r [Hr%list_elem_of_In%elem_of_order_by _]%list_elem_of_In%List.filter_In.
    apply list_elem_of_In, List.filter_In in Hr as [Hr Hp]. split; [by apply list_elem_of_In|].
    apply andb_true_iff in Hp as [_ Hs]. unfold open_stage. split; intros Heq; unfold stage_not_in in Hs; by rewrite Heq in Hs.
Qed.

(** C8: A worker's action message that supersedes pending ones loses none of their
    text.  The new row holds the message itself, with the closing lines of folds in
    it escaped, and is at most the fold's bound or the message long; every other
    row is as it was, or is settled and held: everything it had folded before
    stands in the new row, and its own text under a heading with its id, unless
    that is empty or the new message's own. *)
Theorem fold_loses_no_message clk source target prompt worker session summary priority urgent origin db id db' :
  log_wf (db_prompts db) →
  enqueue_worker_action_with_outcome has_agents has_tasks clk source target prompt worker session summary priority urgent
    origin db = Ok (EnqueueOutcome_Created id, db') →
  ∃ stored message new_body r,
    escaped prompt stored ∧ unmarked stored message ∧ before_envelope message new_body
    ∧ r ∈ log_rows (db_prompts db') ∧ pq_id r = id
    ∧ (pq_prompt r = stored ∨ carried_in message (pq_prompt r))
    ∧ Z.of_nat (String.length (pq_prompt r)) ≤ Z.max 8000 (Z.of_nat (String.length stored))
    ∧ ∀ o, o ∈ log_rows (db_prompts db) →
        o ∈ log_rows (db_prompts db')
        ∨ (∃ o', o' ∈ log_rows (db_prompts db') ∧ pq_id o' = pq_id o ∧ is_Some (pq_processed_at o'))
          ∧ holds_message new_body (pq_prompt r) o.
Proof.
  intros Hwf H. cbn zeta. unfold enqueue_worker_action_with_outcome in H. apply bind_Ok in H as (_ & _ & H).
  destruct (names_operator target); [done|]. destruct origin as [agent| | |]; try done.
  destruct (resend_of _ _ _ _ _ _ _); [done|]. apply bind_Ok in H as ([id1 db1] & Hins & H).
  unfold insert_prompt in Hins. apply bind_Ok in Hins as ([id2 q] & Hins & [= -> <-]).
  set (candidates := action_candidates session agent _ db) in *.
  destruct (action_candidates_spec session agent (escaped_name worker) db Hwf) as [Hnd Hc]. fold candidates in Hnd, Hc.
  destruct (folded_prompt_spec (escape_delimiter prompt) candidates) as (Hm & Hcap & taken & Hsub & Hsup & Hp).
  set (text := folded_prompt _ _) in *. rewrite Hsup in H.
  set (db2 := update_prompts _ _ _) in H. apply bind_Ok in H as (db3 & Hs & [= <- <-]).
  pose proof (log_insert_Ok _ _ _ _ Hins) as (Hid & _ & Hrows).
  assert (log_wf q) as Hwfq by (by eapply log_wf_insert; [exact Hwf| |exact Hins]).
  assert (∀ o, o ∈ log_rows (db_prompts db) → pq_id o ≠ id1) as Hold by (intros o Ho Heq; destruct Hwf as [_ Hb];
    rewrite Forall_forall in Hb; specialize (Hb o Ho); unfold row_id, PromptRow_id in Hb; lia).
  assert (∀ o, o ∈ log_rows (db_prompts db) → o ∈ log_rows (db_prompts db2)) as Hkeep.
  { intros o Ho. apply elem_of_log_update. exists o. split; [cbn; rewrite Hrows; apply elem_of_app; by left|].
    assert (by_id id1 o = false) as -> by (by apply Z.eqb_neq, Hold). done. }
  assert (∃ r, r ∈ log_rows (db_prompts db2) ∧ pq_id r = id1 ∧ pq_prompt r = text) as (r & Hr & Hrid & Hrt).
  { eexists. split; [apply elem_of_log_update; eexists; split; [cbn; rewrite Hrows; apply elem_of_app; right; left|reflexivity]|].
    match goal with |- context [by_id id1 ?x] => assert (by_id id1 x = true) as -> by (by apply Z.eqb_eq) end. done. }
  assert (∀ k, k ∈ pq_id <$> taken → ∃ o, o ∈ log_rows (db_prompts db2) ∧ pq_id o = k ∧ open_stage o) as Hex.
  { intros k (o & -> & Ho)%list_elem_of_fmap_1. destruct (Hc o) as [Hod Hop]; [by eapply elem_of_sublist|]. exists o. auto. }
  assert (NoDup (pq_id <$> taken)) as Hndt by (by eapply sublist_NoDup, fmap_sublist, Hsub).
  assert (log_wf (db_prompts db2)) as Hwf2 by (by apply log_wf_update).
  pose proof (supersede_spec _ _ _ _ _ Hwf2 Hndt Hex Hs) as Hspec.
  exists (escape_delimiter prompt), (split_quiet_marker (escape_delimiter prompt)).2,
    (body_of (split_quiet_marker (escape_delimiter prompt)).2), r. rewrite Hrt.
  split_and!; [apply escape_escapes|apply split_quiet_unmarked|apply body_of_before_envelope| |done..|].
  - apply (Hspec r Hr). intros (o & Ho & Hot)%list_elem_of_fmap_1. destruct (Hc o) as [Hod _]; [by eapply elem_of_sublist|].
    apply (Hold o Hod). congruence.
  - intros o Ho. destruct (Hspec o (Hkeep o Ho)) as [Ha Hb]. destruct (decide (pq_id o ∈ pq_id <$> taken)) as [Hin|Hin]; [right|left; auto].
    split; [by apply Hb|]. apply pieces_hold. intros p Hpp. apply (Hp o p); [|done].
    apply list_elem_of_fmap_1 in Hin as (o2 & Heq & Ho2). destruct (Hc o2) as [Ho2d _]; [by eapply elem_of_sublist|].
    assert (o = o2) as ->; [|done]. by eapply (log_wf_unique (db_prompts db)).
Qed.
End supersede.
