(* ===== verification/PromptInbox.v ===== *)
(** * Reading mail once

    A receipt that proves that a body was read outlives every operation of the
    queue but the deletion of its row, and ids are never given out again; so what
    a drain handed over is handed over a second time only to a read that names it or
    as a reminder. *)

From S2P Require Import Prelude Logs Enums Db Envelopes SupervisorQueue SupervisorQueueSpec PromptTypes PromptLanes PromptLaneSpec PromptNotices PromptQueue PromptDrain PromptQueueSpec PromptDrainSpec PromptProtocol.

Section inbox.
Context {host : Host} (has_agents has_outbox_index : bool) (stale : Z → Prop).
Implicit Types (db : Db) (r : PromptRow) (clk : Clock) (d : Drain) (k : Z * string).

(** The copy of a recipient was read, or the message is gone. *)
Definition gone (id : Z) db : Prop := ∀ r, r ∈ log_rows (db_prompts db) → pq_id r ≠ id.
Definition read_or_gone k db : Prop :=
  k.1 ≤ log_seq (db_prompts db) ∧ (read_receipt (receipts db !! k) ∨ gone k.1 db).

Lemma gone_step id db db' :
  log_wf (db_prompts db) → kept_step stale db db' → id ≤ log_seq (db_prompts db) → gone id db → gone id db'.
Proof.
  intros Hwf Hs Hid Hg r' Hr' <-. destruct (Hs Hwf) as (_ & [_ Hev] & _).
  destruct (Hev r' Hr') as [Hnew|(r & Hr & Hri & _)]; [unfold row_id, PromptRow_id in Hnew; lia|by apply (Hg r)].
Qed.
Lemma read_or_gone_step k db db' :
  log_wf (db_prompts db) → kept_step stale db db' →
  (read_receipt (receipts db !! k) → read_receipt (receipts db' !! k) ∨ gone k.1 db') →
  read_or_gone k db → read_or_gone k db'.
Proof.
  intros Hwf Hs Hk [Hid Hq]. destruct (Hs Hwf) as (_ & [Hseq _] & _). split; [lia|].
  destruct Hq as [Hq|Hq]; [auto|right; by eapply gone_step].
Qed.

(** Only receipts of open claims are deleted. *)
Lemma delete_claims_kept (P : Z * string → SeenRow → bool) (seen : gmap (Z * string) SeenRow) k :
  (∀ k s, P k s = true → rs_source s = Some "transport_claimed") →
  read_receipt (seen !! k) → read_receipt (sql_delete P seen !! k).
Proof.
  intros HP (s & Hs & Hc & Hn). exists s. split; [|done]. rewrite lookup_sql_delete, Hs. cbn.
  destruct (P k s) eqn:Hp; [by destruct (Hn (HP k s Hp))|done].
Qed.
Lemma open_claim_source s : open_claim s = true → rs_source s = Some "transport_claimed".
Proof. intros [H _]%andb_true_iff. by apply from_source_true in H. Qed.

Lemma settle_aged_receipts clk ids now existed unresolved db x db' :
  settle_aged_rows_in_tx has_agents clk ids now existed unresolved db = Ok (x, db') → receipts db' = receipts db.
Proof.
  unfold settle_aged_rows_in_tx. intros ([[ab db1] i] & H & [= _ <-])%bind_Ok.
  set (E := λ s s' : list Z * Db * nat, receipts s'.1.2 = receipts s.1.2).
  assert (PreOrder E) by (split; [by intros s|intros a b d; unfold E; congruence]).
  refine (try_fold_ind _ E _ _ _ _ H). intros id [[ab0 db0] i0] s' _. unfold settle_aged_row.
  destruct (log_get id (db_prompts db0)) as [r|]; [|by intros [= <-]].
  destruct (surfaced_to_target db0 r).
  - intros (db2 & Hst & [= <-])%bind_Ok. unfold E. cbn [fst snd]. by eapply stamp_receipts.
  - by destruct (if existed_in_session has_agents db0 r then _ else _) as [reason detail]; intros [= <-].
Qed.

Lemma trace_read_or_gone id k db :
  read_receipt (receipts db !! k) ∨ gone k.1 db →
  read_receipt (receipts (delete_prompt_trace id db) !! k) ∨ gone k.1 (delete_prompt_trace id db).
Proof.
  destruct (decide (id = k.1)) as [->|Hne].
  - intros _. right. intros r [_ Hr]%elem_of_log_delete Hid. unfold by_id, row_id, PromptRow_id in Hr.
    by rewrite Hid, Z.eqb_refl in Hr.
  - intros [(s & Hs & Hread)|Hg]; [left|right].
    + exists s. split; [|done]. cbn. rewrite lookup_sql_delete, Hs. cbn.
      by rewrite (proj2 (Z.eqb_neq _ _)) by congruence.
    + intros r [Hr _]%elem_of_log_delete. by apply Hg.
Qed.

Lemma prompt_step_reads k db db' :
  log_wf (db_prompts db) → PromptStep has_agents has_outbox_index stale db db' → read_or_gone k db → read_or_gone k db'.
Proof.
  intros Hwf Hstep. apply read_or_gone_step; [done|by apply prompt_is_step in Hstep|]. intros Hread.
  destruct Hstep as [db db' [_ H]%handling_is_step|clk id detail at_ db x db' H|id recipient token db x db' H
    |id recipient db x db' [= _ <-]|session db x db' [= _ <-]|clk ids now ex un db x db' H
    |hs hd clk older batch db x db' H|clk older db x db' [= _ <-]|db x db' [= _ <-]].
  - left. by eapply read_receipt_kept.
  - left. unfold park_for_busy_recipient in H. destruct (log_select _ _) as [|r rest]; [by injection H as _ <-|].
    apply bind_Ok in H as (db1 & Hst%stamp_receipts & [= _ <-]). cbn. rewrite Hst.
    apply delete_claims_kept; [|done]. intros k' s' Hp. bool_to_prop. by apply (from_source_true SurfacingSource_TransportClaimed).
  - left. unfold release_recipient_transport_claim, seen_of in H.
    destruct (receipts db !! (id, recipient)) as [s|] eqn:Hs; [|by injection H as _ <-].
    destruct (open_claim s && _) eqn:Ho; injection H as _ <-; [|done]. cbn. apply andb_true_iff in Ho as [Ho%open_claim_source _].
    destruct Hread as (s' & Hs' & Hc & Hn). exists s'. split; [|done]. rewrite lookup_delete_ne; [done|]. intros <-. congruence.
  - left. apply delete_claims_kept; [|done]. intros k' s' [_ Ho]%andb_true_iff. by apply open_claim_source.
  - left. apply delete_claims_kept; [|done]. intros k' s' Hp. bool_to_prop. by apply open_claim_source.
  - left. apply settle_aged_receipts in H. by rewrite H.
  - unfold prune_terminal_batch in H. destruct (older <=? 0); [done|]. injection H as H.
    set (f := λ (s : nat * Db) id, _) in H. set (ids := prompt_prune_victims _ _ _ _ _) in H.
    assert (read_receipt (receipts db !! k) ∨ gone k.1 db) as Hq by (by left). clear Hread Hwf. 
    clearbody ids. replace db' with (foldl f (0%nat, db) ids).2 by (by rewrite H). clear H. generalize 0%nat.
    induction ids as [|id ids IH] in db, Hq |- *; intros n; cbn [foldl]; [done|].
    by apply IH, trace_read_or_gone.
  - cbn. destruct Hread as (s & Hs & Hread). unfold on_seen. cbn. rewrite lookup_sql_delete, Hs. cbn.
    set (rows := List.filter _ (log_rows (db_prompts db))).
    destruct (existsb (λ r, pq_id r =? k.1) rows) eqn:Hex; cbn; [left; by exists s|right].
    intros r Hr Hid. assert (existsb (λ r, pq_id r =? k.1) rows = true) as Ht; [|congruence].
    apply existsb_exists. exists r. split; [by apply list_elem_of_In|]. by apply Z.eqb_eq.
  - right. intros r Hr. apply elem_of_log_delete in Hr as [_ Hr]. done.
Qed.
Lemma run_reads k db db' :
  log_wf (db_prompts db) → rtc (PromptStep has_agents has_outbox_index stale) db db' → read_or_gone k db → read_or_gone k db'.
Proof.
  intros Hwf Hrun. induction Hrun as [|db db1 db2 Hs _ IH]; [done|]. intros Hk.
  apply IH; [by eapply prompt_is_step|]. by eapply prompt_step_reads.
Qed.

(** ** The theorem *)
(** A drain that is neither a read by name nor the reminder of a polled message *)
Definition automatic (t : TransportEligibility) : bool := negb (is_named_read t) && negb (resurfaces_poll t).
Lemma read_not_eligible t o r : automatic t = true → read_receipt o → receipt_eligible t o r = false.
Proof.
  intros Ha (s & -> & Hc & Hn). assert (from_source SurfacingSource_TransportDelivered s = false) as Htd.
  { by apply bool_decide_eq_false. }
  assert (from_source SurfacingSource_TransportClaimed s = false) as Htc by (by apply bool_decide_eq_false).
  destruct t; try done; unfold receipt_eligible, held_teams_claim; cbn -[from_source]; by rewrite ?Htd, ?Htc.
Qed.
Lemma polled_before_reminded at_ o r :
  receipt_eligible (TransportEligibility_PolledBefore at_) o r = true →
  ∃ s, o = Some s ∧ rs_source s = Some "inbox_poll" ∧ julianday (rs_seen_at s) < julianday at_
    ∧ pq_target r ≠ "all_workers" ∧ pq_acked_at r = None ∧ pq_assumed_seen_at r = None ∧ rs_poll_settled s = None.
Proof.
  unfold receipt_eligible. destruct o as [s|]; [|done]. intros H. exists s. unfold from_source, broadcast in H. bool_to_prop.
  repeat match goal with H : is_none ?x = true |- _ => destruct x; [done|clear H] end. split_and!; done.
Qed.
Lemma drained_is_eligible clk hold limit d db out over db' q :
  log_wf (db_prompts db) →
  drain_unseen_for_recipient_budgeted has_agents has_outbox_index clk hold limit d db = Ok (out, over, db') →
  q ∈ out → ∃ r, r ∈ log_rows (db_prompts db) ∧ pq_id r = qd_id q
    ∧ receipt_eligible (dr_transport d) (receipts db !! (pq_id r, dr_recipient d)) r = true.
Proof.
  intros Hwf Hdr Hq.
  destruct (drain_parts _ _ _ _ _ _ _ _ _ _ Hdr) as [(-> & _ & _ & _)|(rows & cur & kept & db1 & D)]; [by apply elem_of_nil in Hq|].
  destruct (out_row _ _ D q Hwf Hq) as (r & c & s & Hr & -> & Hcur & [Hid _ _]).
  rewrite (dn_rows _ _ _ _ _ _ _ _ _ _ _ _ _ _ D) in Hr. apply elem_of_drain_rows in Hr as [Hr Hok].
  exists r. unfold drainable in Hok. bool_to_prop. by split_and!; [|rewrite Hid|].
Qed.
Lemma direct_recipient recipient r :
  addressed recipient r = true → pq_target r ≠ "all_workers" → pq_target r = recipient.
Proof. unfold addressed, broadcast. intros Ha Ht%String.eqb_neq. rewrite Ht, orb_false_r in Ha. by apply String.eqb_eq in Ha. Qed.

(** What the reminder of polled messages may show again: a direct message that a
    poll handed over before the instant of the reminder, that nobody acknowledged
    or is assumed to have seen, and whose reminder was not settled *)
Definition reminded (at_ : Z) (id : Z) (recipient : string) db : Prop :=
  ∃ r s, r ∈ log_rows (db_prompts db) ∧ pq_id r = id ∧ receipts db !! (id, recipient) = Some s
    ∧ rs_source s = Some "inbox_poll" ∧ julianday (rs_seen_at s) < julianday at_
    ∧ pq_target r ≠ "all_workers" ∧ pq_acked_at r = None ∧ pq_assumed_seen_at r = None
    ∧ rs_poll_settled s = None.

(** C6: Mail is handed over once.  When an inbox poll, a hook or a named read of a
    recipient, other than a listing of the notice digest, returned a message in
    full, then whatever runs afterwards, a message that is still there is not
    returned to that recipient by another poll or hook, the daemon cannot claim the
    recipient's copy, and when the message is addressed to that recipient alone
    the daemon does not select it.  Two kinds of drains may return it again: a read
    that names the message, and the hook that reminds of polled messages, which
    shows only a direct message that was polled before the reminder's instant and
    never acknowledged. *)
Theorem mail_is_handed_over_once clk hold limit d db out over db1 q db2 :
  log_wf (db_prompts db) → drain_source (dr_source d) → dr_transport d ≠ TransportEligibility_NoticeDigest →
  drain_unseen_for_recipient_budgeted has_agents has_outbox_index clk hold limit d db = Ok (out, over, db1) →
  q ∈ out → qd_reference_only q = false → rtc (PromptStep has_agents has_outbox_index stale) db1 db2 →
  (∀ clk' hold' limit' d' out' over' db3 q',
     dr_recipient d' = dr_recipient d →
     drain_unseen_for_recipient_budgeted has_agents has_outbox_index clk' hold' limit' d' db2 = Ok (out', over', db3) →
     q' ∈ out' → qd_id q' = qd_id q →
     dr_transport d' = TransportEligibility_NamedRead
     ∨ ∃ at_, dr_transport d' = TransportEligibility_PolledBefore at_ ∧ reminded at_ (qd_id q) (dr_recipient d) db2)
  ∧ (∀ clk' last o last' db3,
     claim_recipient_transport_token clk' last (qd_id q) (dr_recipient d) db2 = Ok (o, last', db3) → o = None)
  ∧ (qd_target q ≠ "all_workers" → ∀ clk' targets session limit' out' q',
     peek_for_targets clk' targets session limit' db2 = Ok out' → q' ∈ out' → qd_id q' ≠ qd_id q).
Proof.
  intros Hwf Hd Hne Hdr Hq Href Hrun.
  destruct (full_is_read _ _ _ _ _ _ _ _ _ _ _ Hwf Hd Hne Hdr Hq Href) as (Hread & r & Hr & Hid & Ht & Haddr).
  assert (log_wf (db_prompts db1) ∧ log_evolves (kept_le stale) (db_prompts db) (db_prompts db1)) as [Hwf1 Hev1].
  { destruct (drain_step _ _ _ _ _ _ _ _ _ Hd Hdr) as [Hs%(prompt_step_kept stale) _]. by destruct (Hs Hwf) as (? & ? & _). }
  destruct (prompt_run _ _ _ _ _ Hrun Hwf1) as (Hwf2 & Hev2 & _).
  assert (∀ r2, r2 ∈ log_rows (db_prompts db2) → pq_id r2 = qd_id q →
    read_receipt (receipts db2 !! (qd_id q, dr_recipient d))) as Hstill.
  { intros r2 Hr2 Hid2. destruct (run_reads (qd_id q, dr_recipient d) _ _ Hwf1 Hrun) as [_ [?|Hg]]; [|done|by destruct (Hg r2 Hr2)].
    split; [|by left]. destruct Hwf as [_ Hb]. rewrite Forall_forall in Hb. specialize (Hb r Hr).
    destruct Hev1 as [Hseq _]. unfold row_id, PromptRow_id in *. cbn. lia. }
  split_and!.
  - intros clk' hold' limit' d' out' over' db3 q' Hrec Hdr' Hq' Heq.
    destruct (drained_is_eligible _ _ _ _ _ _ _ _ _ Hwf2 Hdr' Hq') as (r2 & Hr2 & Hid2 & Hel).
    rewrite Hrec, Hid2, Heq in Hel.
    assert (read_receipt (receipts db2 !! (qd_id q, dr_recipient d))) as Hrd by (apply (Hstill r2); [done|congruence]).
    destruct (automatic (dr_transport d')) eqn:Hauto; [by rewrite read_not_eligible in Hel|].
    destruct (dr_transport d') as [| | | |at_| |]; try done; [right|by left]. exists at_. split; [done|].
    apply polled_before_reminded in Hel as (s & Hs & Hrest). exists r2, s. destruct_and! Hrest. split_and!; try done; congruence.
  - intros clk' last o last' db3 [_ H]%claim_token_cases. destruct o as [token|]; [|done]. exfalso.
    destruct H as (_ & Hfree & (r2 & Hr2%list_elem_of_In & Hcl)%existsb_exists & _).
    assert (pq_id r2 = qd_id q) as Hid2 by (unfold claimable_for, by_id in Hcl; bool_to_prop; done).
    destruct (Hstill r2 Hr2 Hid2) as (s & Hs & Hn & _). by apply Hn, Hfree.
  - intros Hdirect clk' targets session limit' out' q' Hp Hq' Heq.
    destruct (peeked_is_pending _ _ _ _ _ _ _ Hp Hq') as (r2 & -> & Hr2 & _ & Hfresh). cbn in Heq.
    assert (pq_target r2 = pq_target r) as Ht2.
    { assert (log_evolves (kept_le stale) (db_prompts db) (db_prompts db2)) as Hev by (by etrans).
      destruct (evolves_origin (kept_le stale) (db_prompts db) (db_prompts db2) r r2) as (_ & ? & _); try done.
      unfold row_id, PromptRow_id. congruence. }
    assert (pq_target r = dr_recipient d) as Hrec by (apply direct_recipient; [done|congruence]).
    destruct (Hstill r2 Hr2 Heq) as (s & Hs & _). revert Hfresh. unfold not_already_consumed.
    rewrite Ht2, (proj2 (String.eqb_neq _ _)), Heq, Hrec, Hs by congruence. by rewrite andb_false_r.
Qed.
End inbox.
