(* ===== verification/PromptRetentionSpec.v ===== *)
(** * What prompt retention promises

    A batch deletes the rows it selected, each with its receipts; the sweep runs
    batches until one is not full. *)

From S2P Require Import Prelude Logs Enums Db SupervisorQueue PromptTypes PromptNotices PromptQueue.

Implicit Types (db : Db) (r : PromptRow).
Abbreviation prompt_rows db := (log_rows (db_prompts db)).

Lemma log_delete_count {R} `{HasId R} (P : R → bool) (l : Log R) :
  (log_count P l + length (log_rows (log_delete P l)))%nat = length (log_rows l).
Proof.
  unfold log_count, log_select, log_delete. cbn. induction (log_rows l) as [|r rows IH]; cbn; [done|].
  destruct (P r); cbn; lia.
Qed.

(** What retention leaves alone *)
Definition same_references db db' : Prop :=
  db_supervisor_queue db' = db_supervisor_queue db
  ∧ pt_outbox (db_prompt_receipts db') = pt_outbox (db_prompt_receipts db).
Lemma prunable_same hs hd cutoff db db' r :
  same_references db db' → prunable_prompt hs hd cutoff db' r = prunable_prompt hs hd cutoff db r.
Proof.
  intros [Hq Ho]. unfold prunable_prompt, in_outbox, outbox_released. by rewrite Hq, Ho.
Qed.
(** A prompt without receipts *)
Definition untraced db (id : Z) : Prop :=
  ∀ recipient, pt_seen (db_prompt_receipts db) !! (id, recipient) = None
    ∧ pt_transport (db_prompt_receipts db) !! (id, recipient) = None
    ∧ pt_acks (db_prompt_receipts db) !! (id, recipient) = None.

Lemma delete_prompt_trace_rows id db r :
  r ∈ prompt_rows (delete_prompt_trace id db) ↔ r ∈ prompt_rows db ∧ pq_id r ≠ id.
Proof.
  change (prompt_rows (delete_prompt_trace id db)) with (log_rows (log_delete (by_id id) (db_prompts db))).
  rewrite elem_of_log_delete. unfold by_id. by rewrite Z.eqb_neq.
Qed.
Lemma delete_prompt_trace_untraced id id' db :
  id' = id ∧ id ∈ pq_id <$> prompt_rows db ∨ untraced db id' → untraced (delete_prompt_trace id db) id'.
Proof.
  intros Hu recipient. unfold delete_prompt_trace, delete_prompts. cbn. rewrite !lookup_sql_delete.
  destruct Hu as [[-> Hin]|Hu]; [|by destruct (Hu recipient) as (-> & -> & ->)]. cbn. rewrite Z.eqb_refl.
  assert (existsb (λ r, (pq_id r =? id) && by_id id r) (prompt_rows db) = true) as ->.
  { apply list_elem_of_fmap in Hin as (r & Hid & Hr). apply existsb_exists. exists r.
    split; [by apply list_elem_of_In|]. unfold by_id, row_id, PromptRow_id. by rewrite <-Hid, Z.eqb_refl. }
  split_and!; by destruct (_ !! _).
Qed.

Definition prune_one (s : nat * Db) (id : Z) : nat * Db :=
  ((s.1 + log_count (by_id id) (db_prompts s.2))%nat, delete_prompt_trace id s.2).

Lemma log_count_by_id id db : id ∈ pq_id <$> prompt_rows db → (1 ≤ log_count (by_id id) (db_prompts db))%nat.
Proof.
  intros (r & -> & Hr)%list_elem_of_fmap. assert (r ∈ log_select (by_id (pq_id r)) (db_prompts db)) as Hin.
  { apply elem_of_log_select. split; [done|apply Z.eqb_refl]. }
  unfold log_count. destruct (log_select _ _); [by apply elem_of_nil in Hin|cbn; lia].
Qed.

Lemma prune_fold ids n db :
  NoDup ids → (∀ id, id ∈ ids → id ∈ pq_id <$> prompt_rows db) →
  let s := foldl prune_one (n, db) ids in
  (s.1 + length (prompt_rows s.2) = n + length (prompt_rows db) ∧ n + length ids ≤ s.1)%nat
  ∧ (∀ r, r ∈ prompt_rows s.2 ↔ r ∈ prompt_rows db ∧ pq_id r ∉ ids)
  ∧ same_references db s.2
  ∧ ∀ id, id ∈ ids ∨ untraced db id → untraced s.2 id.
Proof.
  intros Hnd. revert n db. induction Hnd as [|id ids Hid Hnd IH]; intros n db Hin; cbn [foldl].
  { cbn. split_and!; [lia|lia| |done|]. 
    - intros r. split; [|tauto]. intros Hr. split; [done|by intros ?%elem_of_nil].
    - intros id [?%elem_of_nil|?]; done. }
  pose proof (log_count_by_id id db (Hin id (list_elem_of_here _ _))) as H1.
  pose proof (log_delete_count (by_id id) (db_prompts db)) as Hlen.
  set (db1 := delete_prompt_trace id db) in *.
  destruct (IH (n + log_count (by_id id) (db_prompts db))%nat db1) as ((Hs & Hc) & Hrows & Href & Hun).
  { intros id' Hid'. destruct (proj1 (list_elem_of_fmap _ _ _) (Hin id' (list_elem_of_further _ _ _ Hid'))) as (r & -> & Hr).
    apply list_elem_of_fmap. exists r. split; [done|]. apply delete_prompt_trace_rows. split; [done|]. intros Heq. by rewrite Heq in Hid'. }
  change (prune_one (n, db) id) with ((n + log_count (by_id id) (db_prompts db))%nat, db1).
  change (log_delete (by_id id) (db_prompts db)) with (db_prompts db1) in Hlen.
  cbn [length]. split_and!; [lia|lia| | |].
  - intros r. rewrite Hrows. unfold db1. rewrite delete_prompt_trace_rows, not_elem_of_cons. tauto.
  - done.
  - intros id' Hid'. apply Hun. destruct (decide (id' ∈ ids)) as [|Hn]; [by left|right].
    apply delete_prompt_trace_untraced. destruct Hid' as [[->|?]%elem_of_cons|?]; [left|done|by right].
    split; [done|]. apply Hin. left.
Qed.

Lemma sql_limit_short {A} (k : Z) (l : list A) : 0 ≤ k → Z.of_nat (length (sql_limit k l)) < k → sql_limit k l = l.
Proof.
  unfold sql_limit. intros Hk. destruct (Z.ltb_spec k 0); [lia|]. rewrite length_take. intros Hlen.
  apply take_ge. lia.
Qed.
Lemma NoDup_sql_limit {A} (k : Z) (l : list A) : NoDup l → NoDup (sql_limit k l).
Proof.
  unfold sql_limit. destruct (k <? 0); [done|]. intros Hl.
  rewrite <-(take_drop (Z.to_nat k) l) in Hl. by apply NoDup_app in Hl as [? _].
Qed.

Section batches.
Context (hs hd : bool) (older : Z).
Implicit Types (clk : Clock).
Definition batch_cutoff (at_ : Z) : Z := at_ - duration_seconds older.
Abbreviation prunable at_ db := (prunable_prompt hs hd (batch_cutoff at_) db).

(** The rows a batch selects *)
Abbreviation batch_rows at_ db :=
  (sql_limit RETENTION_MAX_BATCH (order_by (le_of (asc pq_id)) (log_select (prunable at_ db) (db_prompts db)))).
Lemma elem_of_batch_rows at_ db r :
  r ∈ batch_rows at_ db → r ∈ prompt_rows db ∧ prunable at_ db r = true.
Proof. by intros ?%elem_of_sql_limit%elem_of_order_by%elem_of_log_select. Qed.
Lemma batch_ids_NoDup at_ db : log_wf (db_prompts db) → NoDup (pq_id <$> batch_rows at_ db).
Proof.
  intros Hwf. apply NoDup_fmap_2_strong.
  - intros r r' [Hr _]%elem_of_batch_rows [Hr' _]%elem_of_batch_rows Hid.
    by apply (log_wf_unique (db_prompts db)).
  - apply NoDup_sql_limit. rewrite order_by_perm. by apply log_select_NoDup.
Qed.

(** What one batch does *)
Definition batch_done (at_ : Z) (n : nat) db db' : Prop :=
  (n + length (prompt_rows db') = length (prompt_rows db))%nat
  ∧ (∀ r, r ∈ prompt_rows db' → r ∈ prompt_rows db)
  ∧ (∀ r, r ∈ prompt_rows db → r ∈ prompt_rows db' ∨ prunable at_ db r = true ∧ untraced db' (pq_id r))
  ∧ same_references db db' ∧ (∀ id, untraced db id → untraced db' id) ∧ log_wf (db_prompts db')
  ∧ (Z.of_nat n < RETENTION_MAX_BATCH → ∀ r, r ∈ prompt_rows db' → prunable at_ db r = false).

Lemma prune_batch_spec clk db :
  0 < older → log_wf (db_prompts db) →
  ∃ n db', prune_terminal_batch hs hd clk older RETENTION_MAX_BATCH db = Ok (n, db')
    ∧ batch_done (clk 0%nat) n db db'.
Proof.
  intros Hold Hwf. unfold prune_terminal_batch. destruct (Z.leb_spec older 0); [lia|].
  change (clamp_batch 1 RETENTION_MAX_BATCH RETENTION_MAX_BATCH) with RETENTION_MAX_BATCH.
  set (ids := prompt_prune_victims _ _ _ _ _). change ids with (pq_id <$> batch_rows (clk 0%nat) db). clear ids.
  destruct (prune_fold (pq_id <$> batch_rows (clk 0%nat) db) 0 db) as ((Hlen & Hn) & Hrows & Href & Hun).
  { by apply batch_ids_NoDup. }
  { intros id (r & -> & [Hr _]%elem_of_batch_rows)%list_elem_of_fmap. apply list_elem_of_fmap. by exists r. }
  change (λ (s : nat * Db) id, _) with prune_one in *.
  destruct (foldl prune_one _ _) as [n db'] eqn:Hf. exists n, db'. split; [done|]. cbn [fst snd] in *.
  assert (∀ r, r ∈ prompt_rows db → pq_id r ∈ pq_id <$> batch_rows (clk 0%nat) db → r ∈ batch_rows (clk 0%nat) db) as Hback.
  { intros r Hr (r' & Hid & Hr')%list_elem_of_fmap. destruct (elem_of_batch_rows _ _ _ Hr') as [Hin _].
    by rewrite (log_wf_unique (db_prompts db) r r'). }
  split_and!; [lia|by intros r [? _]%Hrows| |done| | |].
  - intros r Hr. destruct (decide (pq_id r ∈ pq_id <$> batch_rows (clk 0%nat) db)) as [Hin|Hn'].
    + right. split; [by apply (elem_of_batch_rows _ _ _ (Hback r Hr Hin))|apply Hun; by left].
    + left. by apply Hrows.
  - intros id Hid. apply Hun. by right.
  - enough (log_wf (db_prompts (n, db').2)) by done. rewrite <-Hf. clear -Hwf.
    generalize (pq_id <$> batch_rows (clk 0%nat) db) as ids. intros ids. generalize 0%nat as k. revert Hwf. revert db.
    induction ids as [|id ids IH]; intros db Hwf k; cbn [foldl]; [done|]. apply IH. by apply log_wf_delete.
  - intros Hlt r [Hr Hnot]%Hrows. destruct (prunable (clk 0%nat) db r) eqn:HP; [exfalso|done]. apply Hnot.
    apply list_elem_of_fmap. exists r. split; [done|]. rewrite length_fmap in Hn.
    rewrite sql_limit_short by (unfold RETENTION_MAX_BATCH in *; lia).
    by apply elem_of_order_by, elem_of_log_select.
Qed.

Lemma prunable_later at_ at' db r : at_ ≤ at' → prunable at_ db r = true → prunable at' db r = true.
Proof.
  unfold prunable_prompt, batch_cutoff. intros Hle. destruct (pq_processed_at r) as [t|]; [|done].
  destruct (Z.ltb_spec t (at_ - duration_seconds older)); [|done].
  by rewrite (proj2 (Z.ltb_lt t (at' - duration_seconds older))) by lia.
Qed.

Lemma prune_loop_spec fuel i clk pruned db :
  0 < older → log_wf (db_prompts db) → (∀ i j, (i ≤ j)%nat → clk i ≤ clk j) →
  Z.of_nat (length (prompt_rows db)) < RETENTION_MAX_BATCH * Z.of_nat fuel →
  ∃ n j db', prune_terminal_loop hs hd fuel i clk older pruned db = Some (Ok ((pruned + n)%nat, S j, db'))
    ∧ (i ≤ j)%nat ∧ (n + length (prompt_rows db') = length (prompt_rows db))%nat
    ∧ (∀ r, r ∈ prompt_rows db' ↔ r ∈ prompt_rows db ∧ prunable (clk j) db r = false)
    ∧ (∀ r, r ∈ prompt_rows db → r ∈ prompt_rows db' ∨ untraced db' (pq_id r))
    ∧ ∀ id, untraced db id → untraced db' id.
Proof.
  intros Hold Hwf Hclk. revert i pruned db Hwf. unfold RETENTION_MAX_BATCH.
  induction fuel as [|fuel IH]; intros i pruned db Hwf Hlen; [lia|]. cbn [prune_terminal_loop].
  destruct (prune_batch_spec (λ _, clk i) db Hold Hwf) as (n & db1 & -> & Hc & Hsub & Hgone & Href & Hun & Hwf1 & Hlast).
  destruct (Z.ltb_spec (Z.of_nat n) RETENTION_MAX_BATCH) as [Hlt|Hge]; unfold RETENTION_MAX_BATCH in *.
  - exists n, i, db1. split_and!; [done..| | |done].
    + intros r. split; [intros Hr; split; [auto|]|intros [Hr HP]].
      * rewrite <-(prunable_same hs hd _ db db1) by done. rewrite (prunable_same hs hd _ db db1) by done. by apply Hlast.
      * destruct (Hgone r Hr) as [?|[HP' _]]; [done|congruence].
    + intros r Hr. destruct (Hgone r Hr) as [?|[_ ?]]; auto.
  - destruct (IH (S i) (pruned + n)%nat db1 Hwf1) as (m & j & db2 & -> & Hij & Hc2 & Hrows & Hgone2 & Hun2); [lia|].
    exists (n + m)%nat, j, db2. split_and!; [by rewrite Nat.add_assoc|lia|lia| | |auto].
    + intros r. rewrite Hrows, (prunable_same hs hd _ db db1 r Href). split; [intros [? ?]; auto|]. intros [Hr HP].
      split; [|done]. destruct (Hgone r Hr) as [?|[HP' _]]; [done|].
      rewrite (prunable_later (clk i) (clk j)) in HP; [done|apply Hclk; lia|done].
    + intros r Hr. destruct (Hgone r Hr) as [Hr1|[_ ?]]; [by apply Hgone2|right; auto].
Qed.
End batches.

(** C23: The sweep ends, and its batches amount to one DELETE.  With a batch
    for every thousand rows it returns; what is left are exactly the rows that
    the condition of the last batch spares: rows still pending or young, rows
    whose key still has a relay to suppress, rows on their way to a device.  A
    deleted row leaves no receipt behind. *)
Theorem prompt_sweep_equals_one_delete hs hd fuel clk older db :
  0 < older → log_wf (db_prompts db) → (∀ i j, (i ≤ j)%nat → clk i ≤ clk j) →
  Z.of_nat (length (prompt_rows db)) < RETENTION_MAX_BATCH * Z.of_nat fuel →
  ∃ sweep db' last, prune_terminal_older_than hs hd fuel clk older db = Some (Ok (sweep, db'))
    ∧ (ps_pruned sweep + length (prompt_rows db') = length (prompt_rows db))%nat
    ∧ (∀ r, r ∈ prompt_rows db' ↔
        r ∈ prompt_rows db ∧ prunable_prompt hs hd (clk last - duration_seconds older) db r = false)
    ∧ ∀ r, r ∈ prompt_rows db → r ∈ prompt_rows db' ∨ untraced db' (pq_id r).
Proof.
  intros Hold Hwf Hclk Hlen. unfold prune_terminal_older_than. destruct (Z.leb_spec older 0); [lia|].
  destruct (prune_loop_spec hs hd older fuel 0 clk 0 db Hold Hwf Hclk Hlen) as (n & j & db' & -> & _ & Hc & Hrows & Hgone & _).
  cbn. eexists _, db', j. split_and!; [done|done|done|done].
Qed.
