(* ===== verification/SpawnQueueSpec.v ===== *)
(** * What the spawn queue and the worker backlogs promise

    Requests evolve by [request_le]: the reported lifecycle only advances, the
    worker is named once, a processed request stays processed.  Backlogs are
    replaced by compare-and-swap on their revision. *)

From S2P Require Import Prelude Logs Enums Db SpawnQueue.

(** ** How a request changes *)
Definition state_rank (r : SpawnRow) : Z :=
  match sw_spawn_state r with Some s => stored_rank s | None => -1 end.
Definition request_le (r r' : SpawnRow) : Prop :=
  sw_action r' = sw_action r ∧ sw_worker_names r' = sw_worker_names r
  ∧ sw_factory_session r' = sw_factory_session r ∧ sw_task_id r' = sw_task_id r
  ∧ sw_worker_spec r' = sw_worker_spec r ∧ sw_created_at r' = sw_created_at r
  ∧ (is_Some (sw_processed_at r) → is_Some (sw_processed_at r'))
  ∧ (∀ w, sw_spawn_worker r = Some w → sw_spawn_worker r' = Some w)
  ∧ (sw_spawn_state r' = sw_spawn_state r ∨ state_rank r < state_rank r').
#[export] Instance request_le_preorder : PreOrder request_le.
Proof.
  unfold request_le, state_rank. split; [intros x; split_and!; by auto|]. intros x y z ??. destruct_and!.
  split_and!; [congruence..|auto|auto|].
  repeat match goal with H : _ ∨ _ |- _ => destruct H as [H|H]; try rewrite H in * end; auto with lia.
Qed.

Lemma stored_rank_as_str s : stored_rank (SpawnLifecycleState_as_str s) = SpawnLifecycleState_rank s.
Proof. by destruct s. Qed.
Lemma SpawnLifecycleState_round_trip s :
  SpawnLifecycleState_from_str (SpawnLifecycleState_as_str s) = Some s.
Proof. by destruct s. Qed.
Lemma SpawnAction_round_trip a : SpawnAction_from_str (SpawnAction_as_str a) = Some a.
Proof. by destruct a. Qed.
Lemma stored_rank_range s : 0 ≤ stored_rank s ≤ 4.
Proof. unfold stored_rank. cbn. repeat (destruct (String.eqb _ _); [cbn; lia|]). cbn. lia. Qed.

Lemma mark_request_le now r : request_le r (mark_request now r).
Proof. unfold request_le, state_rank. cbn. split_and!; try done. by left. Qed.
Lemma advance_row_le now state w d r :
  may_advance state r = true → request_le r (advance_row now state w d r).
Proof.
  unfold may_advance, request_le, state_rank. intros Hr. cbn -[stored_rank].
  split_and!; [done..| |].
  - intros w' Hw. by rewrite Hw.
  - right. rewrite stored_rank_as_str. destruct (sw_spawn_state r); [by bool_to_prop|].
    destruct state; cbn; lia.
Qed.

(** ** The operations as steps *)

(** A backlog row agrees with the revision in its state. *)
Definition backlogs_wf (db : Db) : Prop :=
  ∀ k r, sp_worker_queues (db_spawns db) !! k = Some r →
    wq_revision r = tq_revision (wq_state r) ∧ 1 ≤ wq_revision r < 2 ^ 63.
(** Backlogs are never deleted and their revisions grow. *)
Definition backlogs_grow (db db' : Db) : Prop :=
  ∀ k r, sp_worker_queues (db_spawns db) !! k = Some r →
    ∃ r', sp_worker_queues (db_spawns db') !! k = Some r' ∧ wq_revision r ≤ wq_revision r'.

(** One operation of some process; [sp_elsewhere] is one that leaves these
    tables alone. *)
Inductive spawn_step (db : Db) : Db → Prop :=
  | step_enqueue clk action count names force isolate spec session task dir secure tasks id db' :
      enqueue clk action count names force isolate spec session task dir secure tasks db = Ok (id, db') →
      spawn_step db db'
  | step_episode episode detail a db' :
      record_limit_episode episode detail db = Ok (a, db') → spawn_step db db'
  | step_poll_write now requests : spawn_step db (spawn_poll_write now requests db)
  | step_mark_processed clk id db' : mark_processed clk id db = Ok (tt, db') → spawn_step db db'
  | step_record clk id state w d db' : record_spawn_state clk id state w d db = Ok (tt, db') → spawn_step db db'
  | step_clear n db' : spawn_clear db = Ok (n, db') → spawn_step db db'
  | step_cleanup clk secs n db' : spawn_cleanup_old clk secs db = Ok (n, db') → spawn_step db db'
  | step_save session worker state state' db' :
      queue_save session worker state db = Ok (state', db') → spawn_step db db'
  | step_bind request session worker db' :
      bind_spawn request session worker db = Ok (tt, db') → spawn_step db db'
  | step_elsewhere db' : db_spawns db' = db_spawns db → spawn_step db db'.

Definition spawn_evolves (db db' : Db) : Prop :=
  log_step request_le (spawns db) (spawns db')
  ∧ (backlogs_wf db → backlogs_wf db' ∧ backlogs_grow db db').
#[export] Instance spawn_evolves_preorder : PreOrder spawn_evolves.
Proof.
  split.
  - intros db. split; [done|]. intros Hwf. split; [done|]. intros k r Hr. by exists r.
  - intros a b d [Hab Hab'] [Hbd Hbd']. split; [by etrans|]. intros Hwf.
    destruct (Hab' Hwf) as [Hwb Hgb]. destruct (Hbd' Hwb) as [Hwd Hgd]. split; [done|].
    intros k r (r1 & Hr1 & Hle1)%Hgb. destruct (Hgd k r1 Hr1) as (r2 & Hr2 & Hle2). exists r2. split; [done|lia].
Qed.

Lemma spawn_evolves_same_backlogs db db' :
  log_step request_le (spawns db) (spawns db') →
  sp_worker_queues (db_spawns db') = sp_worker_queues (db_spawns db) → spawn_evolves db db'.
Proof.
  intros Hl Hsame. split; [done|]. unfold backlogs_wf, backlogs_grow. rewrite Hsame.
  intros Hwf. split; [done|]. intros k r Hr. by exists r.
Qed.
Lemma spawn_evolves_put key row db db' :
  spawns db' = spawns db →
  sp_worker_queues (db_spawns db') = <[key := row]> (sp_worker_queues (db_spawns db)) →
  (∀ r, sp_worker_queues (db_spawns db) !! key = Some r → wq_revision r ≤ wq_revision row) →
  wq_revision row = tq_revision (wq_state row) → (backlogs_wf db → 1 ≤ wq_revision row < 2 ^ 63) →
  spawn_evolves db db'.
Proof.
  intros Hsame Hput Hle Hrev Hrange. split; [by rewrite Hsame|]. intros Hwf. split.
  - intros k r. rewrite Hput, lookup_insert_Some. intros [[<- <-]|[_ Hr]]; [auto|by eapply Hwf].
  - intros k r Hr. rewrite Hput. destruct (decide (k = key)) as [->|Hne].
    + exists row. rewrite lookup_insert_eq. auto.
    + exists r. by rewrite lookup_insert_ne.
Qed.

Lemma queue_save_Ok session worker state state' db db' :
  queue_save session worker state db = Ok (state', db') →
  let rev := tq_revision state + 1 in
  rev < 2 ^ 63 ∧ state' = state <| tq_revision := rev |>
  ∧ db' = put_worker_queue (session, worker) (mkWorkerQueueRow rev state') db
  ∧ match sp_worker_queues (db_spawns db) !! (session, worker) with
    | Some r => tq_revision state ≠ 0 ∧ wq_revision r = tq_revision state
    | None => tq_revision state = 0
    end.
Proof.
  unfold queue_save. destruct (Z.leb_spec (2 ^ 64) (tq_revision state + 1)); [done|].
  destruct (Z.leb_spec (2 ^ 63) (tq_revision state + 1)); [done|].
  destruct (negb _) eqn:Hm; [done|]. intros [= <- <-]. split_and!; [done..|].
  apply negb_false_iff in Hm. destruct (Z.eqb_spec (tq_revision state) 0);
    destruct (_ !! _); bool_to_prop; done.
Qed.

Lemma spawn_step_evolves db db' : spawn_step db db' → spawn_evolves db db'.
Proof.
  destruct 1 as [clk action count names force isolate spec session task dir secure tasks id db' H
    |episode detail a db' H|now requests|clk id db' H|clk id state w d db' H|n db' H|clk secs n db' H
    |session worker state state' db' H|request session worker db' H|db' H].
  - unfold enqueue in H. apply bind_Ok in H as ([id' q] & Hins & H).
    assert (spawns db' = q ∧ sp_worker_queues (db_spawns db') = sp_worker_queues (db_spawns db)) as [<- Hq].
    { destruct tasks; [by injection H as _ <-|]. destruct (_ !! _); [done|]. by injection H as _ <-. }
    apply spawn_evolves_same_backlogs; [|done]. by eapply (log_step_insert request_le); [|exact Hins].
  - unfold record_limit_episode in H. destruct (_ !! _); injection H as _ <-; [done|].
    by apply spawn_evolves_same_backlogs.
  - unfold spawn_poll_write. destruct requests; [done|]. apply spawn_evolves_same_backlogs; [|done].
    apply (log_step_update request_le); [done|]. intros r _. apply mark_request_le.
  - injection H as <-. apply spawn_evolves_same_backlogs; [|done].
    apply (log_step_update request_le); [done|]. intros r _. apply mark_request_le.
  - injection H as <-. apply spawn_evolves_same_backlogs; [|done].
    apply (log_step_update request_le); [done|]. intros r [_ Hr]%andb_true_iff. by apply advance_row_le.
  - injection H as _ <-. apply spawn_evolves_same_backlogs; [apply (log_step_delete request_le)|done].
  - injection H as _ <-. apply spawn_evolves_same_backlogs; [apply (log_step_delete request_le)|done].
  - apply queue_save_Ok in H as (Hlt & -> & -> & Hcur).
    apply (spawn_evolves_put (session, worker) (mkWorkerQueueRow (tq_revision state + 1)
             (state <| tq_revision := tq_revision state + 1 |>))); [done..| |done|]; cbn.
    + intros r Hr. rewrite Hr in Hcur. lia.
    + intros Hwf. destruct (_ !! _) as [r|] eqn:Hr; [apply Hwf in Hr; lia|lia].
  - unfold bind_spawn in H.
    destruct (sp_tasks _ !! _) as [[ids [b|]]|]; [by injection H as <-| |by injection H as <-].
    set (rev := match sp_worker_queues _ !! _ with Some r => _ | None => 1 end) in H.
    destruct (Z.leb_spec (2 ^ 63) rev); [done|]. destruct (Z.ltb_spec rev 0); [done|]. injection H as <-.
    eapply (spawn_evolves_put (session, worker)); [done..| |done|]; cbn; unfold rev in *.
    + intros r Hr. rewrite Hr. lia.
    + intros Hwf. destruct (sp_worker_queues _ !! _) as [r|] eqn:Hr; [apply Hwf in Hr; lia|lia].
  - apply spawn_evolves_same_backlogs; by rewrite H.
Qed.

Lemma spawn_steps_evolve db db' : rtc spawn_step db db' → spawn_evolves db db'.
Proof. induction 1; [done|]. etrans; [by apply spawn_step_evolves|done]. Qed.

(** ** The theorems *)

(** What the supervisor is told about a request never goes back.
    Along any execution the reported state of a request stays or moves to a
    higher rank, a state of the last rank is final, and the worker that a
    request was attributed to is never replaced. *)
Theorem spawn_lifecycle_is_monotone db db' r r' :
  log_wf (spawns db) → rtc spawn_step db db' →
  r ∈ log_rows (spawns db) → r' ∈ log_rows (spawns db') → sw_id r' = sw_id r →
  (sw_spawn_state r' = sw_spawn_state r ∨ state_rank r < state_rank r')
  ∧ (sw_spawn_state r = Some "failed" ∨ sw_spawn_state r = Some "stopped" →
     sw_spawn_state r' = sw_spawn_state r)
  ∧ (sw_spawn_state r = Some "registered" → SpawnLifecycleState_rank SpawnLifecycleState_Registered ≤ state_rank r')
  ∧ (∀ w, sw_spawn_worker r = Some w → sw_spawn_worker r' = Some w).
Proof.
  intros Hwf [Hl _]%spawn_steps_evolve Hr Hr' Hid. destruct (Hl Hwf) as [_ Hev].
  destruct (evolves_origin request_le (spawns db) (spawns db') r r') as (_ & _ & _ & _ & _ & _ & _ & Hw & Hst);
    [done..|].
  split_and!; [done| | |done].
  - intros Hf. destruct Hst as [|Hlt]; [done|]. exfalso. unfold state_rank in Hlt.
    assert (stored_rank (default "" (sw_spawn_state r)) = 4) as H4 by (by destruct Hf as [-> | ->]).
    destruct (sw_spawn_state r); cbn [default from_option id] in *; [|by destruct Hf].
    destruct (sw_spawn_state r') as [s'|]; [pose proof (stored_rank_range s'); lia|lia].
  - intros Hreg. unfold state_rank in *. rewrite Hreg in Hst. cbn in Hst. cbn.
    destruct Hst as [->|Hst]; [done|lia].
Qed.

(** What a poll of the spawn queue returned is never returned by a
    later poll, of any session, whatever operations came in between: no request
    is carried out twice by daemons that poll one after the other. *)
Theorem spawn_poll_never_repeats clk clk' session session' limit limit' db ns db1 db2 ns' db3 :
  log_wf (spawns db) →
  spawn_poll clk session limit db = Ok (ns, db1) → rtc spawn_step db1 db2 →
  spawn_poll clk' session' limit' db2 = Ok (ns', db3) →
  ∀ n n', n ∈ ns → n' ∈ ns' → sp_id n ≠ sp_id n'.
Proof.
  intros Hwf [= <- <-] [Hs _]%spawn_steps_evolve [= <- _] n n' Hn Hn' Heq.
  assert (spawns (spawn_poll_write (clk 0%nat) (spawn_poll_read session limit db) db)
          = poll_mark (clk 0%nat) (sp_id <$> spawn_poll_read session limit db) (spawns db)) as Hq.
  { destruct (spawn_poll_read session limit db); [|done]. unfold poll_mark, log_update. cbn.
    rewrite list_fmap_id. by destruct (spawns db). }
  rewrite Hq in Hs. destruct Hs as [_ Hev]; [by apply log_wf_update; [apply q_mark_id|]|].
  apply list_elem_of_fmap in Hn' as (r' & -> & Hr').
  eapply (marked_is_not_polled request_le); [|exact Hwf|exact Hev|exact Hr'| |].
  - intros x y Hxy. apply Hxy.
  - apply list_elem_of_fmap. by exists n.
  - apply list_elem_of_fmap in Hn as (r & -> & (Hr & _)%elem_of_poll).
    apply list_elem_of_fmap. exists r. split; [by symmetry|done].
Qed.

(** No backlog update is lost.  After a save of a worker's backlog,
    whatever operations follow, a save of any copy read before it is refused and
    changes nothing. *)
Theorem stale_save_is_refused session worker state state' db db1 db2 stale :
  backlogs_wf db → queue_save session worker state db = Ok (state', db1) → rtc spawn_step db1 db2 →
  0 ≤ tq_revision stale ≤ tq_revision state →
  queue_save session worker stale db2
  = Err (Other "Worker task queue changed; reload before replacing it").
Proof.
  intros Hwf H Hsteps [Hge Hle].
  destruct (spawn_step_evolves db db1) as [_ Hb]; [by eapply step_save|].
  destruct (Hb Hwf) as [Hwf1 _]. apply queue_save_Ok in H as (Hlt & -> & -> & _).
  apply spawn_steps_evolve in Hsteps as [_ Hb2]. destruct (Hb2 Hwf1) as [_ Hg].
  destruct (Hg (session, worker) (mkWorkerQueueRow (tq_revision state + 1)
    (state <| tq_revision := tq_revision state + 1 |>))) as (r & Hr & Hrev); [by apply lookup_insert_eq|].
  cbn in Hrev. unfold queue_save.
  destruct (Z.leb_spec (2 ^ 64) (tq_revision stale + 1)); [lia|].
  destruct (Z.leb_spec (2 ^ 63) (tq_revision stale + 1)); [lia|]. rewrite Hr.
  destruct (Z.eqb_spec (tq_revision stale) 0); [done|]. by destruct (Z.eqb_spec (wq_revision r) (tq_revision stale)); [lia|].
Qed.

(** A spawn request's backlog is bound once: the named worker gets
    exactly the requested tasks in their order, and binding the request again,
    to any worker and after any saves, changes nothing. *)
Theorem spawn_backlog_is_bound_once request session worker ids db db1 :
  backlogs_wf db → sp_tasks (db_spawns db) !! request = Some (mkSpawnTasksRow ids None) →
  bind_spawn request session worker db = Ok (tt, db1) →
  (let q := queue_get session worker db1 in
   match tq_current_task q with Some t => t :: tq_pending q | None => tq_pending q end = ids
   ∧ tq_starting q = false ∧ tq_dispatch_from q = None)
  ∧ backlogs_wf db1
  ∧ ∀ session' worker', bind_spawn request session' worker' db1 = Ok (tt, db1).
Proof.
  intros Hwf Hids H. assert (backlogs_wf db1) as Hwf1.
  { destruct (spawn_step_evolves db db1) as [_ Hb]; [by eapply step_bind|]. by apply Hb. }
  unfold bind_spawn in H. rewrite Hids in H. destruct (2 ^ 63 <=? _); [done|]. destruct (_ <? 0); [done|].
  injection H as H. split; [|split; [done|]].
  - unfold queue_get. rewrite <-H. cbn. rewrite lookup_insert_eq. cbn. by destruct ids.
  - intros session' worker'. unfold bind_spawn. rewrite <-H. cbn. by rewrite lookup_insert_eq.
Qed.
