(* ===== verification/ReminderSpec.v ===== *)
(** * What the reminders promise

    [reminder_le]: a reminder that ended never changes, and no reminder changes
    whom it is for or what it waits for.  [rm_step] is one operation on the
    table.  The theorems: a reminder ends once, a hold loses no wake, and a
    delivery is recognised by its text. *)

From S2P Require Import Prelude Logs Enums TaskTypes VerifierText Db Reminders.

(** ** How a reminder changes *)
Definition reminder_le (r r' : ReminderRow) : Prop :=
  r' = r
  ∨ reminder_live r = true ∧ rm_supervisor_id r' = rm_supervisor_id r ∧ rm_target_id r' = rm_target_id r
    ∧ rm_message r' = rm_message r ∧ rm_trigger_event r' = rm_trigger_event r
    ∧ rm_trigger_filter r' = rm_trigger_filter r ∧ rm_ttl_secs r' = rm_ttl_secs r
    ∧ rm_session_id r' = rm_session_id r ∧ rm_task_id r' = rm_task_id r.
#[export] Instance reminder_le_preorder : PreOrder reminder_le.
Proof.
  split; [by left|]. intros x y z [->|Hxy] [->|Hyz]; [by left|by right|by right|].
  right. destruct_and!. split_and!; congruence.
Qed.

Section spec.
Context {host : Host}.
Abbreviation reminders := db_reminders.

(** One operation of some process; [may_resume] restricts the agents whose
    holds are released *)
Inductive rm_step (may_resume : string → Prop) (db : Db) : Db → Prop :=
  | rm_create clk owner target msg ty at_ ev filter ttl session origin cross task id db' :
      create_with_scope clk owner target msg ty at_ ev filter ttl session origin cross task db = Ok (id, db') →
      rm_step may_resume db db'
  | rm_fire clk id ev db' : mark_fired clk id ev db = Ok (tt, db') → rm_step may_resume db db'
  | rm_cancel clk id owner db' : cancel_reminder clk id owner db = Ok (tt, db') → rm_step may_resume db db'
  | rm_cancel_session clk session n db' :
      cancel_pending_for_origin_session clk session db = Ok (n, db') → rm_step may_resume db db'
  | rm_cancel_task clk task n db' : cancel_pending_for_task clk task db = Ok (n, db') → rm_step may_resume db db'
  | rm_expire_stale clk n db' : expire_stale clk db = Ok (n, db') → rm_step may_resume db db'
  | rm_expire id b db' : expire_reminder id db = Ok (b, db') → rm_step may_resume db db'
  | rm_prune clk days n db' : prune_reminders clk days db = Ok (n, db') → rm_step may_resume db db'
  | rm_suspend clk target n db' : suspend_pending_for_target clk target db = Ok (n, db') → rm_step may_resume db db'
  | rm_catch id ev b db' : catch_suspended_event id ev db = Ok (b, db') → rm_step may_resume db db'
  | rm_resume clk target n db' :
      may_resume target → resume_suspended_for_target clk target db = Ok (n, db') → rm_step may_resume db db'
  | rm_elsewhere db' : reminders db' = reminders db → rm_step may_resume db db'.

Lemma update_reminders_step (P : ReminderRow → bool) f db n db' :
  update_reminders P f db = (n, db') →
  (∀ r, rm_id (f r) = rm_id r) → (∀ r, P r = true → reminder_le r (f r)) →
  log_step reminder_le (reminders db) (reminders db').
Proof. intros [= <- <-] Hid HP. by apply (log_step_update reminder_le). Qed.

Lemma pending_live r : has_status "pending" r = true → reminder_live r = true.
Proof. unfold reminder_live. by intros ->. Qed.
Lemma suspended_live r : has_status "suspended" r = true → reminder_live r = true.
Proof. unfold reminder_live. intros ->. apply orb_true_r. Qed.
#[local] Hint Resolve pending_live suspended_live : core.

(** A live row with new status and stamps *)
Ltac live_change :=
  intros r HP; right; cbv beta in HP; rewrite ?andb_true_iff in HP; destruct_and?;
  split; [by eauto | done].

Lemma resume_row_le now r : reminder_live r = true → reminder_le r (resume_row now r).
Proof. intros Hl. right. split; [done|]. unfold resume_row. destruct (_ || _); [done|]. by destruct (String.eqb _ _). Qed.
Lemma resume_row_pending now r : has_status "pending" (resume_row now r) = true.
Proof. unfold resume_row. destruct (_ || _); [done|]. by destruct (String.eqb (rm_trigger_type r) "event"). Qed.
Lemma resume_row_id now r : rm_id (resume_row now r) = rm_id r.
Proof. unfold resume_row. destruct (_ || _); [done|]. by destruct (String.eqb _ _). Qed.

Lemma rm_step_log may_resume db db' : rm_step may_resume db db' → log_step reminder_le (reminders db) (reminders db').
Proof.
  destruct 1 as [clk owner target msg ty at_ ev filter ttl session origin cross task id db' H
    |clk id ev db' H|clk id owner db' H|clk session n db' H|clk task n db' H|clk n db' H|id b db' H
    |clk days n db' H|clk target n db' H|id ev b db' H|clk target n db' _ H|db' H].
  - unfold create_with_scope in H. apply bind_Ok in H as ([id' l] & Hins & [= _ <-]).
    by eapply (log_step_insert reminder_le); [|exact Hins].
  - unfold mark_fired in H. destruct (update_reminders _ _ _) as [n db1] eqn:Hu.
    destruct (_ =? _)%nat; [done|]. injection H as <-.
    eapply update_reminders_step; [exact Hu|done|live_change].
  - unfold cancel_reminder in H. destruct (update_reminders _ _ _) as [n db1] eqn:Hu.
    destruct (_ =? _)%nat; [done|]. injection H as <-.
    eapply update_reminders_step; [exact Hu|done|live_change].
  - injection H as Hn Hd. eapply update_reminders_step; [by rewrite <-Hd|done|live_change].
  - injection H as Hn Hd. eapply update_reminders_step; [by rewrite <-Hd|done|live_change].
  - injection H as Hn Hd. eapply update_reminders_step; [by rewrite <-Hd|done|].
    unfold stale_reminder. live_change.
  - injection H as Hn Hd. eapply update_reminders_step; [by rewrite <-Hd|done|live_change].
  - injection H as _ <-. apply (log_step_delete reminder_le).
  - injection H as Hn Hd. eapply update_reminders_step; [by rewrite <-Hd|done|live_change].
  - injection H as Hn Hd. eapply update_reminders_step; [by rewrite <-Hd|done|live_change].
  - injection H as Hn Hd. eapply update_reminders_step; [by rewrite <-Hd|intros; apply resume_row_id|].
    intros r [Hr _]%andb_true_iff. by apply resume_row_le, suspended_live.
  - by rewrite H.
Qed.
Lemma rm_steps_log may_resume db db' :
  rtc (rm_step may_resume) db db' → log_step reminder_le (reminders db) (reminders db').
Proof. induction 1; [done|]. etrans; [by eapply rm_step_log|done]. Qed.

(** ** A reminder ends once *)
Lemma log_count_zero {R} (P : R → bool) (l : Log R) :
  (∀ r, r ∈ log_rows l → P r = false) → log_count P l = 0%nat.
Proof.
  intros HP. unfold log_count, log_select. destruct (List.filter P (log_rows l)) as [|r rs] eqn:Hf; [done|].
  assert (r ∈ log_select P l) as [Hr Ht]%elem_of_log_select by (unfold log_select; rewrite Hf; left).
  rewrite HP in Ht; done.
Qed.
Lemma ended_stays may_resume db db' r :
  log_wf (reminders db) → rtc (rm_step may_resume) db db' → r ∈ log_rows (reminders db) →
  reminder_live r = false → ∀ r', r' ∈ log_rows (reminders db') → rm_id r' = rm_id r → r' = r.
Proof.
  intros Hwf Hs Hr Hend r' Hr' Hid. destruct (rm_steps_log _ _ _ Hs Hwf) as [_ Hev].
  destruct (evolves_origin reminder_le (reminders db) (reminders db') r r') as [|[Hl _]]; [done..|congruence].
Qed.

(** C32: A reminder fires at most once, and never after it was cancelled
    or expired: once a reminder has ended, no later execution by any process
    can fire, cancel, expire or suspend it, and the row keeps the event and the
    instant of its end until it is pruned. *)
Theorem reminder_ends_once may_resume db db' r clk :
  log_wf (reminders db) → rtc (rm_step may_resume) db db' → r ∈ log_rows (reminders db) →
  reminder_live r = false →
  (∀ r', r' ∈ log_rows (reminders db') → rm_id r' = rm_id r → r' = r)
  ∧ (∀ ev, mark_fired clk (rm_id r) ev db'
           = Err (NotFound ("Reminder not found or not pending: " +:+ show_z (rm_id r))))
  ∧ (∀ owner, is_ok (cancel_reminder clk (rm_id r) owner db') = false)
  ∧ fst <$> expire_reminder (rm_id r) db' = Ok false.
Proof.
  intros Hwf Hs Hr Hend. pose proof (ended_stays _ _ _ _ Hwf Hs Hr Hend) as Hsame.
  assert (∀ Q, (∀ r, Q r = true → reminder_live r = true) →
    log_count (λ r', by_id (rm_id r) r' && Q r') (reminders db') = 0%nat) as Hzero.
  { intros Q HQ. apply log_count_zero. intros r' Hr'. apply not_true_iff_false. intros [Hid HQr]%andb_true_iff.
    apply Z.eqb_eq in Hid. rewrite (Hsame r') in HQr by done. apply HQ in HQr. congruence. }
  split_and!; [done| | |].
  - intros ev. unfold mark_fired, update_reminders. by rewrite Hzero by (intros; eauto).
  - intros owner. unfold cancel_reminder, update_reminders.
    assert (log_count (λ r', by_id (rm_id r) r' && String.eqb (rm_supervisor_id r') owner && reminder_live r')
              (reminders db') = 0%nat) as ->; [|done].
    rewrite <-(Hzero (λ r', String.eqb (rm_supervisor_id r') owner && reminder_live r'))
      by (intros r' [_ Hl]%andb_true_iff; done).
    unfold log_count, log_select. f_equal. apply filter_ext. intros r'. by rewrite andb_assoc.
  - unfold expire_reminder, update_reminders. by rewrite Hzero by (intros; eauto).
Qed.

(** ** A hold loses no wake *)
Section hold.
Context (target : string).

Definition hold_le (r r' : ReminderRow) : Prop :=
  reminder_le r r'
  ∧ (has_status "suspended" r = true → reminder_targets target r = true →
     r' = r ∨ (∃ e, rm_fired_event r = None ∧ r' = r <| rm_fired_event := Some e |>) ∨ reminder_live r' = false).
#[export] Instance hold_le_preorder : PreOrder hold_le.
Proof.
  split; [split; [done|by left]|]. intros x y z [Hxy Hx] [Hyz Hy]. split; [by etrans|]. intros Hs Ht.
  destruct (Hx Hs Ht) as [->|[(e & He & ->)|Hd]]; [by apply Hy| |].
  - destruct (Hy Hs Ht) as [->|[(e' & [=] & _)|Hd]]; [right; left; by exists e|by right; right].
  - right; right. destruct Hyz as [->|[Hl _]]; [done|congruence].
Qed.

Lemma status_neq a b r : has_status a r = true → has_status b r = true → a = b.
Proof. unfold has_status. rewrite !String.eqb_eq. congruence. Qed.

Lemma targets_unique a b r : reminder_targets a r = true → reminder_targets b r = true → a = b.
Proof.
  unfold reminder_targets. rewrite !orb_true_iff, !andb_true_iff, !bool_decide_eq_true, !String.eqb_eq.
  destruct (rm_target_id r); cbn; naive_solver.
Qed.

Lemma hold_pending (P : ReminderRow → bool) f :
  (∀ r, P r = true → has_status "pending" r = true) →
  (∀ r, P r = true → reminder_le r (f r)) → ∀ r, P r = true → hold_le r (f r).
Proof. intros HP Hf r Hr. split; [auto|]. intros Hs _. by apply HP, (status_neq _ _ _ Hs) in Hr. Qed.
Lemma hold_cancel (P : ReminderRow → bool) now :
  (∀ r, P r = true → reminder_live r = true) → ∀ r, P r = true → hold_le r (cancel_row now r).
Proof. intros HP r Hr. split; [right; split; [auto|done]|]. by right; right. Qed.

Lemma hold_update (P : ReminderRow → bool) f db n db' :
  update_reminders P f db = (n, db') →
  (∀ r, rm_id (f r) = rm_id r) → (∀ r, P r = true → hold_le r (f r)) →
  log_step hold_le (reminders db) (reminders db').
Proof. intros [= <- <-] Hid HP. by apply (log_step_update hold_le). Qed.

Ltac pending_only :=
  apply hold_pending;
  [intros r HP; unfold stale_reminder in HP; rewrite ?andb_true_iff in HP; by destruct_and?
  |unfold stale_reminder; live_change].

Lemma hold_step_log db db' :
  rm_step (λ t, t ≠ target) db db' → log_step hold_le (reminders db) (reminders db').
Proof.
  destruct 1 as [clk owner tg msg ty at_ ev filter ttl session origin cross task id db' H
    |clk id ev db' H|clk id owner db' H|clk session n db' H|clk task n db' H|clk n db' H|id b db' H
    |clk days n db' H|clk tg n db' H|id ev b db' H|clk tg n db' Hne H|db' H].
  - unfold create_with_scope in H. apply bind_Ok in H as ([id' l] & Hins & [= _ <-]).
    by eapply (log_step_insert hold_le); [|exact Hins].
  - unfold mark_fired in H. destruct (update_reminders _ _ _) as [n db1] eqn:Hu.
    destruct (_ =? _)%nat; [done|]. injection H as <-. eapply hold_update; [exact Hu|done|pending_only].
  - unfold cancel_reminder in H. destruct (update_reminders _ _ _) as [n db1] eqn:Hu.
    destruct (_ =? _)%nat; [done|]. injection H as <-. eapply hold_update; [exact Hu|done|].
    apply hold_cancel. by intros r [_ ?]%andb_true_iff.
  - injection H as Hn Hd. eapply hold_update; [by rewrite <-Hd|done|].
    apply hold_cancel. by intros r [[? _]%andb_true_iff _]%andb_true_iff.
  - injection H as Hn Hd. eapply hold_update; [by rewrite <-Hd|done|].
    apply hold_cancel. by intros r [[? _]%andb_true_iff _]%andb_true_iff.
  - injection H as Hn Hd. eapply hold_update; [by rewrite <-Hd|done|pending_only].
  - injection H as Hn Hd. eapply hold_update; [by rewrite <-Hd|done|pending_only].
  - injection H as _ <-. apply (log_step_delete hold_le).
  - injection H as Hn Hd. eapply hold_update; [by rewrite <-Hd|done|pending_only].
  - injection H as Hn Hd. eapply hold_update; [by rewrite <-Hd|done|].
    intros r [[_ Hs]%andb_true_iff Hnone]%andb_true_iff. split.
    + right. split; [by apply suspended_live|done].
    + intros _ _. right; left. exists (json_text ev). split; [by destruct (rm_fired_event r)|done].
  - injection H as Hn Hd. eapply hold_update; [by rewrite <-Hd|intros; apply resume_row_id|].
    intros r [Hs Ht]%andb_true_iff. split; [by apply resume_row_le, suspended_live|].
    intros _ Ht'. by eapply targets_unique in Ht; [|exact Ht'].
  - by rewrite H.
Qed.
Lemma hold_steps_log db db' :
  rtc (rm_step (λ t, t ≠ target)) db db' → log_step hold_le (reminders db) (reminders db').
Proof. induction 1; [done|]. etrans; [by eapply hold_step_log|done]. Qed.
End hold.

(** What the release makes of a row that the hold left *)
Definition wakes_now (now : Z) (r : ReminderRow) : Prop :=
  (∀ later, now ≤ later → due_time later r = true)
  ∧ (∀ later, later < now + duration_seconds (rm_ttl_secs r) → stale_reminder later r = false).

Lemma resumed_due now r :
  rm_fired_event r ≠ None ∨ rm_trigger_type r = "time" ∧ (∃ t, rm_trigger_at r = Some t ∧ t ≤ now) →
  wakes_now now (resume_row now r) ∧ rm_fired_event (resume_row now r) = rm_fired_event r.
Proof.
  intros Hdue. unfold resume_row.
  assert (negb (is_none (rm_fired_event r)) || String.eqb (rm_trigger_type r) "time"
          && match rm_trigger_at r with Some at_ => at_ <=? now | None => false end = true) as ->.
  { destruct Hdue as [He|(-> & t & -> & Ht)]; [by destruct (rm_fired_event r)|].
    apply orb_true_iff. right. by apply Z.leb_le. }
  split; [|done]. split.
  - intros later Hle. unfold due_time. cbn. by apply Z.leb_le.
  - intros later Hlt. unfold stale_reminder, ttl_start. cbn -[Z.mul Z.div] in *.
    destruct (Z.ltb_spec 0 (rm_ttl_secs r)); [|done]. apply Z.ltb_ge.
    unfold datetime_now, datetime_of_text, julianday, duration_seconds, NANOS_PER_SEC in *.
    rewrite Z.div_div by lia. change (1000000 * 1000) with 1000000000.
    assert (later / 1000000000 ≤ (now + rm_ttl_secs r * 1000000000) / 1000000000) as Hd
      by (apply Z.div_le_mono; lia).
    rewrite Z.div_add in Hd by lia.
    assert (now / 1000000000 ≤ (now + 500000) / 1000000000) by (apply Z.div_le_mono; lia). lia.
Qed.

(** C17: A hold is a pause.  A reminder that was pending when its worker was
    held, and that nobody cancelled before the release, is pending again; if its
    event or its time came during the hold it is due at once, carrying that event, with a fresh
    grace period; otherwise a time reminder is as it was, and an event reminder
    has the time to live that it had left. *)
Theorem hold_loses_no_wake target clk clk' n m db db1 db2 db3 r r2 :
  log_wf (reminders db) →
  suspend_pending_for_target clk target db = Ok (n, db1) →
  rtc (rm_step (λ t, t ≠ target)) db1 db2 →
  resume_suspended_for_target clk' target db2 = Ok (m, db3) →
  r ∈ log_rows (reminders db) → has_status "pending" r = true → reminder_targets target r = true →
  r2 ∈ log_rows (reminders db2) → rm_id r2 = rm_id r → reminder_live r2 = true →
  let now := clk' 0%nat in
  ∃ r3, r3 ∈ log_rows (reminders db3) ∧ rm_id r3 = rm_id r ∧ has_status "pending" r3 = true
    ∧ (rm_fired_event r2 ≠ None ∨ rm_trigger_type r = "time" ∧ (∃ t, rm_trigger_at r = Some t ∧ t ≤ now) →
       wakes_now now r3 ∧ rm_fired_event r3 = rm_fired_event r2)
    ∧ (rm_fired_event r2 = None → rm_trigger_type r = "time" →
       (∀ t, rm_trigger_at r = Some t → now < t) → r3 = r <| rm_suspended_at := None |>)
    ∧ (rm_fired_event r2 = None → rm_trigger_type r = "event" → clk 0%nat ≤ now →
       rm_trigger_type r3 = "event" ∧ rm_trigger_event r3 = rm_trigger_event r
       ∧ rm_ttl_secs r3 = rm_ttl_secs r ∧ now - rm_created_at r3 = clk 0%nat - rm_created_at r).
Proof.
  intros Hwf Hsus Hsteps Hres Hr Hpend Ht Hr2 Hid Hlive now.
  destruct (rm_step_log (λ _, True) db db1 ltac:(by eapply rm_suspend) Hwf) as [Hwf1 _].
  destruct (hold_steps_log target db1 db2 Hsteps Hwf1) as [_ Hev].
  assert (suspend_row (clk 0%nat) r ∈ log_rows (reminders db1)) as Hr1.
  { injection Hsus as _ <-. apply elem_of_log_update. exists r. cbv beta. by rewrite Hpend, Ht. }
  destruct (evolves_origin (hold_le target) (reminders db1) (reminders db2) (suspend_row (clk 0%nat) r) r2)
    as [_ Hheld]; [done..|].
  assert (has_status "suspended" r2 = true ∧ reminder_targets target r2 = true
          ∧ r2 = suspend_row (clk 0%nat) r <| rm_fired_event := rm_fired_event r2 |>) as (Hs2 & Ht2 & Heq).
  { destruct (Hheld eq_refl Ht) as [->|[(e & _ & ->)|Hd]]; [split_and!; [done..|by destruct r]|by split_and!|congruence]. }
  exists (resume_row now r2). split; [|split; [by rewrite resume_row_id|]].
  { injection Hres as _ <-. apply elem_of_log_update. exists r2. cbv beta. by rewrite Hs2, Ht2. }
  assert (rm_trigger_type r2 = rm_trigger_type r ∧ rm_trigger_at r2 = rm_trigger_at r) as [Hty Hat]
    by (by rewrite Heq).
  split_and!.
  - apply resume_row_pending.
  - rewrite <-Hty, <-Hat. apply resumed_due.
  - intros Hno Htime Hlater. unfold resume_row. rewrite Hno, Hty, Hat, Htime. cbn.
    assert (match rm_trigger_at r with Some at_ => at_ <=? now | None => false end = false) as ->.
    { destruct (rm_trigger_at r) as [t|]; [|done]. apply Z.leb_gt. by apply Hlater. }
    assert (rm_fired_event r = None) as Hno' by (destruct (Hheld eq_refl Ht) as [->|[(e & He & ->)|Hd]]; [done..|congruence]).
    cbn. rewrite Heq, Hno. apply String.eqb_eq in Hpend. destruct r; cbn in *. by subst.
  - intros Hno Hevt Hle. unfold resume_row. rewrite Hno, Hty, Hevt. cbn. rewrite Heq. cbn.
    split_and!; [done..|lia].
Qed.

(** ** The text of a delivery *)

(** Decimal digits: what [pretty] writes, [parse_digits] and [take_digits] read. *)
Fixpoint all_digits (s : string) : Prop :=
  match s with EmptyString => True | String c s => is_ascii_digit c = true ∧ all_digits s end.

Lemma pretty_N_char_digit x :
  (x < 10)%N →
  is_ascii_digit (pretty_N_char x) = true ∧ Z.of_N (N_of_ascii (pretty_N_char x)) = 48 + Z.of_N x.
Proof.
  intros Hx.
  assert (x = 0 ∨ x = 1 ∨ x = 2 ∨ x = 3 ∨ x = 4 ∨ x = 5 ∨ x = 6 ∨ x = 7 ∨ x = 8 ∨ x = 9)%N as Hc by lia.
  by repeat destruct Hc as [->|Hc]; [..|subst].
Qed.

Lemma parse_digits_go x s :
  parse_digits 0 (pretty_N_go x s) = parse_digits (Z.of_N x) s
  ∧ (all_digits s → all_digits (pretty_N_go x s)).
Proof.
  revert s. induction (N.lt_wf_0 x) as [x _ IH]. intros s.
  destruct (decide (x = 0)%N) as [->|Hx]; [done|].
  rewrite pretty_N_go_step by lia.
  assert (x / 10 < x)%N as Hlt by (apply N.div_lt; lia).
  destruct (IH _ Hlt (String (pretty_N_char (x mod 10)) s)) as [-> Hall].
  destruct (pretty_N_char_digit (x mod 10)) as [Hd Hv]; [by apply N.mod_lt|]. split.
  - cbn -[N_of_ascii pretty_N_char Z.mul Z.add]. rewrite Hv.
    pose proof (N.mod_lt x 10 ltac:(done)). pose proof (N.div_mod x 10 ltac:(done)). forget_div.
    destruct (Z.leb_spec 48 (48 + Z.of_N r)) as [_|]; [|lia].
    destruct (Z.leb_spec (48 + Z.of_N r) 57) as [_|]; [|lia]. cbn -[Z.mul Z.add]. f_equal. lia.
  - intros Hs. apply Hall. by split.
Qed.

Lemma show_z_digits z :
  0 ≤ z → parse_digits 0 (show_z z) = Some z ∧ all_digits (show_z z) ∧ str_is_empty (show_z z) = false.
Proof.
  intros Hz. destruct z as [|p|]; [done| |lia].
  assert (show_z (Z.pos p) = pretty_N_go (N.pos p) "") as Heq by done. rewrite Heq.
  destruct (parse_digits_go (N.pos p) "") as [Hp Hall]. split_and!; [done|by apply Hall|].
  destruct (pretty_N_go _ _); done.
Qed.

Lemma take_digits_app s t :
  all_digits s → take_digits (s +:+ String ":" t) = (s, String ":" t).
Proof.
  induction s as [|c s IH]; [done|]. intros [Hc Hs]. rewrite append_cons. cbn -[is_ascii_digit].
  by rewrite Hc, IH.
Qed.

Lemma parse_delivery_prefix id rest :
  0 ≤ id < 2 ^ 63 →
  parse_reminder_delivery_id (REMINDER_DELIVERY_PREFIX +:+ show_z id +:+ String ":" rest) = Some id.
Proof.
  intros Hid. destruct (show_z_digits id) as (Hp & Hall & Hne); [lia|].
  unfold parse_reminder_delivery_id.
  assert (∀ s, strip_prefix REMINDER_DELIVERY_PREFIX (trim_start (REMINDER_DELIVERY_PREFIX +:+ s)) = Some s)
    as -> by done.
  cbn -[take_digits parse_digits]. rewrite take_digits_app by done. rewrite Hne. cbn -[parse_digits].
  rewrite Hp. cbn. by destruct (Z.ltb_spec id (2 ^ 63)); [|lia].
Qed.

(** A fired reminder is recognised.  Whatever its message says, the
    prompt of a reminder, in each of the three forms the daemon sends, parses
    back to the reminder's id. *)
Theorem delivery_names_its_reminder now (reminder : Reminder) ctx status :
  0 ≤ re_id reminder < 2 ^ 63 →
  parse_reminder_delivery_id (format_reminder_delivery (re_id reminder) (re_message reminder) ctx)
    = Some (re_id reminder)
  ∧ parse_reminder_delivery_id (format_reminder_delivery_with_provenance now reminder ctx status)
    = Some (re_id reminder)
  ∧ parse_reminder_delivery_id (format_cross_session_reminder_delivery now reminder ctx status)
    = Some (re_id reminder).
Proof.
  intros Hid. unfold format_cross_session_reminder_delivery, format_reminder_delivery_with_provenance.
  unfold format_reminder_delivery.
  destruct ctx; rewrite ?append_assoc; split_and!; by apply parse_delivery_prefix.
Qed.
End spec.
