(* ===== verification/Continuity.v ===== *)
(** * Retirement evidence and supervisor handoff
      ([crates/cas-store/src/agent_store/continuity.rs])

    One row of [agent_session_ends] per incarnation of an agent (its id and
    registration time), written by [capture] before the registry row goes, and
    the claim of predecessors' rows by a restarted supervisor.  Also the
    release of QA review claims that every retirement performs
    ([release_qa_claims_for_agent_with_conn] of qa_pass_store.rs). *)

From S2P Require Import Prelude Logs Enums TaskTypes Db Leases LeaseStore Agents.

Section continuity.
Context {host : Host}.

(** ** Rows as JSON objects ([rows]) *)
Definition worker_json (ka : string * AgentRow) : json :=
  JObject [("id", JString ka.1); ("name", JString (a_name ka.2));
           ("status", JString (a_status ka.2)); ("pid", opt_int (a_pid ka.2));
           ("factory_session", opt_string (a_factory_session ka.2))].

Definition worker_rows (P : AgentRow → bool) (db : Db) : list json :=
  worker_json <$>
    order_by (le_of (by_text fst))
      (sql_select (λ _ a, String.eqb (a_role a) "worker" && P a) (db_agents db)).

Definition lease_json (kr : string * LeaseRow) : json :=
  JObject [("task_id", JString kr.1); ("agent_id", JString (l_agent_id kr.2));
           ("epoch", JInt (l_epoch kr.2));
           ("acquired_at", JString (to_rfc3339 (l_acquired_at kr.2)));
           ("expires_at", JString (to_rfc3339 (l_expires_at kr.2)))].

(** The [deliverables] column is the serialized value; the snapshot replaces
    that text by the JSON it parses to. *)
Definition task_json (kt : string * Task) : json :=
  let t := kt.2 in
  JObject [("id", JString kt.1); ("title", JString (t_title t));
           ("status", JString (TaskStatus_to_string (t_status t)));
           ("assignee", opt_string (t_assignee t));
           ("epic_verification_owner", opt_string (t_epic_verification_owner t));
           ("deliverables", deliverables_json (t_deliverables t));
           ("external_ref", opt_string (t_external_ref t)); ("notes", JString (t_notes t))].

Definition prompt_json (p : PromptRow) : json :=
  JObject [("id", JInt (pq_id p)); ("source", JString (pq_source p));
           ("target", JString (pq_target p)); ("prompt", JString (pq_prompt p))].

Definition supervisor_json (q : SupervisorRow) : json :=
  JObject [("id", JInt (sq_id q)); ("event_type", JString (sq_event_type q));
           ("payload", JString (sq_payload q))].

Definition reminder_json (r : ReminderRow) : json :=
  JObject [("id", JInt (rm_id r)); ("message", JString (rm_message r));
           ("trigger_type", JString (rm_trigger_type r));
           ("trigger_at", opt_string (to_rfc3339 <$> rm_trigger_at r));
           ("trigger_event", opt_string (rm_trigger_event r));
           ("trigger_filter", opt_string (rm_trigger_filter r))].

(** The texts under one key of a list of objects *)
Definition texts_at (key : string) (l : list json) : list string :=
  omap (λ v, json_as_str (json_get key v)) l.

(** ** The lane of a retiring supervisor *)

(** Evidence this incarnation had adopted from its predecessors *)
Definition inherited_rows (db : Db) (id : string) (epoch : Z) : list SessionEndRow :=
  snd <$> sql_select
    (λ _ r, bool_decide (s_claimed_by r = Some id) && bool_decide (s_claimed_epoch r = Some epoch)
            && negb (is_none (s_queued_at r)))
    (db_session_ends db).

Definition inherited_receipt (r : SessionEndRow) : json :=
  JObject [("inherited_handoff", JString (s_id r));
           ("predecessor", JString (se_agent_id (s_payload r)))].

Definition lane_workers (db : Db) (id : string) (epoch : Z) (session : option string)
    : list json :=
  let own := worker_rows (λ a, bool_decide (a_parent_id a = Some id)
               || negb (is_none session) && bool_decide (a_factory_session a = session)) db in
  let inherited := concat ((λ r, texts_at "id" (se_workers (s_payload r)))
                             <$> inherited_rows db id epoch) in
  let adopt (acc : list json) (worker : json) :=
    match json_as_str (json_get "id" worker) with
    | Some wid =>
        if bool_decide (wid ∈ inherited)
           && negb (existsb (λ w, bool_decide (json_get "id" w = json_get "id" worker)) acc)
        then acc ++ [worker] else acc
    | None => acc
    end in
  foldl adopt own (worker_rows (λ _, true) db).

Definition lane_tasks (db : Db) (id name : string) (epoch : Z) (workers : list json) : list json :=
  let owners := id :: name :: (texts_at "id" workers ++ texts_at "name" workers) in
  let inherited := concat ((λ r, texts_at "id" (se_tasks (s_payload r)))
                             <$> inherited_rows db id epoch) in
  let epics := snd <$> filter (λ p, p.1 = id) (elements (dom (db_working_epics db))) in
  let leases :=
    order_by (le_of (by_text fst))
      (sql_select (λ _ r, String.eqb (l_agent_id r) id && lease_active r) (db_task_leases db)) in
  let owned (o : option string) :=
    match o with Some s => bool_decide (s ∈ owners) | None => false end in
  let selected (k : string) (t : Task) :=
    negb (Task_is_terminal t)
    && (owned (t_assignee t) || owned (t_epic_verification_owner t)
        || bool_decide (k ∈ epics) || bool_decide (k ∈ inherited)
        || bool_decide (k ∈ leases.*1)) in
  (λ kt : string * Task,
     match snd <$> list_find (λ kr : string * LeaseRow, kr.1 = kt.1) leases with
     | Some kr => json_set "retired_lease" (lease_json kr) (task_json kt)
     | None => task_json kt
     end)
  <$> order_by (le_of (by_text fst)) (sql_select selected (db_tasks db)).

(** Open messages, notifications and reminders.  The queues keep their rows in
    the order of their ids. *)
Definition lane_pending (db : Db) (id name : string) (epoch : Z) : list json :=
  let open_prompt (p : PromptRow) :=
    is_none (pq_processed_at p)
    && existsb (λ s, String.eqb s (pq_target p) || String.eqb s (pq_source p)) [name; id] in
  let prompts := prompt_json <$> filter (λ p, open_prompt p = true) (log_rows (db_prompts db)) in
  let notices := supervisor_json <$>
    filter (λ q, sq_supervisor_id q = id ∧ sq_processed_at q = None)
      (log_rows (db_supervisor_queue db)) in
  let reminders := reminder_json <$>
    filter (λ r, rm_supervisor_id r = id
                 ∧ (rm_status r = "pending" ∨ rm_status r = "suspended"))
      (log_rows (db_reminders db)) in
  let pending := prompts ++ notices ++ reminders in
  let ask (reminder : json) : list json :=
    match (text ← json_as_str (json_get "trigger_filter" reminder);
           v ← json_parse text; json_as_i64 (json_get "operator_ask" v)) with
    | Some ask_id => prompt_json <$> filter (λ p, pq_id p = ask_id) (log_rows (db_prompts db))
    | None => []
    end in
  pending ++ concat (ask <$> pending) ++ (inherited_receipt <$> inherited_rows db id epoch).

(** ** Capture *)

(** [format!("{id}\0{epoch}")] *)
Definition session_end_key (id : string) (epoch : Z) : string :=
  id +:+ String "000" (to_rfc3339 epoch).

Definition session_end (db : Db) (id reason : string) (a : AgentRow) : SessionEnd :=
  let epoch := a_registered_at a in
  let supervisor := String.eqb (a_role a) "supervisor" in
  let workers :=
    if supervisor then lane_workers db id epoch (a_factory_session a) else [] in
  {| se_id := sha256_hex (session_end_key id epoch); se_agent_id := id; se_name := a_name a;
     se_reason := reason; se_registered_at := epoch;
     se_factory_session := a_factory_session a; se_pid := a_pid a; se_ppid := a_ppid a;
     se_pid_starttime := (v ← a_pid_starttime a; if 0 <=? v then Some v else None);
     se_parent_starttime := (s ← a_metadata a !! "ppid_starttime"; parse_u64 s);
     se_tasks := if supervisor then lane_tasks db id (a_name a) epoch workers else [];
     se_workers := workers;
     se_pending := if supervisor then lane_pending db id (a_name a) epoch else [] |}.

(** The primary key of [agent_session_ends] is the digest. *)
Definition insert_session_end (id : string) (epoch : Z) (row : SessionEndRow) (db : Db)
    : result Db :=
  if sql_exists (λ _ r, String.eqb (s_id r) (s_id row)) (db_session_ends db)
  then Err (Database "UNIQUE constraint failed: agent_session_ends.id")
  else Ok (db <| db_session_ends ::= <[(id, epoch) := row]> |>).

(** [capture]; [now] is the reading for [ended_at]. *)
Definition capture (now : Z) (id : string) (reason : option string) (db : Db) : result Db :=
  match db_agents db !! id with
  | None => Ok db
  | Some a =>
      let epoch := a_registered_at a in
      let reason := default "unknown" (trimmed_nonempty reason) in
      match db_session_ends db !! (id, epoch) with
      | Some _ =>
          if negb (String.eqb reason "unknown")
          then Ok (db <| db_session_ends ::=
                 sql_update_key (id, epoch)
                   (λ r, if String.eqb (s_reason r) "unknown" then r <| s_reason := reason |>
                         else r) |>)
          else Ok db
      | None =>
          let handoff := session_end db id reason a in
          insert_session_end id epoch
            {| s_id := se_id handoff; s_machine_id := a_machine_id a; s_role := a_role a;
               s_reason := reason; s_payload := handoff; s_ended_at := now;
               s_claimed_by := None; s_claimed_epoch := None; s_queued_at := None |} db
      end
  end.

Definition end_reason (id : string) (db : Db) : string :=
  default "unknown"
    ((λ kr, s_reason kr.2) <$>
       head (order_by (le_of (desc (λ kr, s_ended_at kr.2)))
               (sql_select (λ k _, String.eqb k.1 id) (db_session_ends db)))).

Definition decode (payload : SessionEnd) (reason : string) : SessionEnd :=
  payload <| se_reason := reason |>.

Definition record_session_end (clk : Clock) (id : string) (reason : option string) (db : Db)
    : result (unit * Db) :=
  db ← capture (clk 0%nat) id reason db; Ok (tt, db).

(** ** Handoff to a successor *)

(** The exact incarnation (id, registration time) is registered and live. *)
Definition incarnation_live (db : Db) (id : string) (epoch : Z) : bool :=
  match db_agents db !! id with
  | Some a => (a_registered_at a =? epoch) && status_live (a_status a)
  | None => false
  end.

(** The successor's own row, as the claim checks it *)
Definition successor_registered (db : Db) (s : Agent) : bool :=
  match db_agents db !! ag_id s with
  | Some a => (a_registered_at a =? ag_registered_at s)
              && bool_decide (a_machine_id a = ag_machine_id s)
              && String.eqb (a_role a) "supervisor" && status_live (a_status a)
  | None => false
  end.

Definition handoff_claimable (db : Db) (s : Agent) (k : string * Z) (r : SessionEndRow) : bool :=
  String.eqb (s_role r) "supervisor"
  && bool_decide (s_machine_id r = ag_machine_id s)
  && (k.2 <? ag_registered_at s)
  && is_none (s_queued_at r)
  && successor_registered db s
  && (is_none (s_claimed_by r)
      || bool_decide (s_claimed_by r = Some (ag_id s))
         && bool_decide (s_claimed_epoch r = Some (ag_registered_at s))
      || negb match s_claimed_by r, s_claimed_epoch r with
              | Some c, Some e => incarnation_live db c e
              | _, _ => false
              end)
  && negb (incarnation_live db k.1 k.2).

Definition claim_session_end (s : Agent) (r : SessionEndRow) : SessionEndRow :=
  r <| s_claimed_by := Some (ag_id s) |> <| s_claimed_epoch := Some (ag_registered_at s) |>.

Definition claim_supervisor_handoffs (s : Agent) (db : Db) : result (list SessionEnd * Db) :=
  if negb (bool_decide (ag_role s = AgentRole_Supervisor)) || negb (is_alive s)
     || is_none (ag_machine_id s)
  then Ok ([], db)
  else
    let candidates := order_by (le_of (asc (λ kr, s_ended_at kr.2)))
                        (sql_select (handoff_claimable db s) (db_session_ends db)) in
    Ok ((λ kr, decode (s_payload kr.2) (s_reason kr.2)) <$> candidates,
        foldl (λ db kr, db <| db_session_ends ::=
                 sql_update (λ _ r, String.eqb (s_id r) (s_id kr.2)) (claim_session_end s) |>)
          db candidates).

(** [claimed_by = ? AND claimed_epoch = ?] *)
Definition claimed_by_incarnation (s : Agent) (r : SessionEndRow) : bool :=
  bool_decide (s_claimed_by r = Some (ag_id s))
  && bool_decide (s_claimed_epoch r = Some (ag_registered_at s)).

Definition decode_rows (rows : list ((string * Z) * SessionEndRow)) : list SessionEnd :=
  (λ kr, decode (s_payload kr.2) (s_reason kr.2)) <$> rows.

Definition supervisor_handoffs_claimed_by (s : Agent) (db : Db) : list SessionEnd :=
  decode_rows
    (order_by (le_of (asc (λ kr, s_ended_at kr.2)))
       (sql_select (λ _ r, String.eqb (s_role r) "supervisor" && claimed_by_incarnation s r)
          (db_session_ends db))).

Definition mark_supervisor_handoff_queued (clk : Clock) (id : string) (s : Agent) (db : Db)
    : result (unit * Db) :=
  Ok (tt, db <| db_session_ends ::=
    sql_update (λ _ r, String.eqb (s_id r) id && claimed_by_incarnation s r)
      (λ r, r <| s_queued_at := Some (clk 0%nat) |>) |>).

Definition retired_workers_named (identity : string) (db : Db) : list SessionEnd :=
  decode_rows
    (order_by (le_of (desc (λ kr, s_ended_at kr.2)))
       (sql_select (λ k r, String.eqb (s_role r) "worker"
                           && (String.eqb k.1 identity
                               || String.eqb (se_name (s_payload r)) identity))
          (db_session_ends db))).

Definition session_end_recorded (agent_id : string) (db : Db) : bool :=
  match db_agents db !! agent_id with
  | Some a => negb (is_none (db_session_ends db !! (agent_id, a_registered_at a)))
  | None => false
  end.

Definition recent_session_ends (machine : string) (max : nat) (db : Db) : list SessionEnd :=
  decode_rows
    (limit max (order_by (le_of (desc (λ kr, s_ended_at kr.2)))
       (sql_select (λ _ r, String.eqb (s_role r) "supervisor"
                           && bool_decide (s_machine_id r = Some machine))
          (db_session_ends db)))).

(** ** QA claims of a retiring agent *)

(** A live agent other than [id] carries the retiring agent's name. *)
Definition replaced_by_name (db : Db) (id name : string) : bool :=
  sql_exists (λ k a, String.eqb (a_name a) name && negb (String.eqb k id)
                     && status_live (a_status a)) (db_agents db).

Definition qa_claim_of (db : Db) (id : string) (q : QaPassRow) : bool :=
  String.eqb (q_state q) "claimed"
  && (bool_decide (q_reviewer_agent_id q = Some id)
      || match db_agents db !! id with
         | Some a => bool_decide (q_reviewer_agent_id q = Some (a_name a))
                     && negb (replaced_by_name db id (a_name a))
         | None => false
         end).

Definition release_qa_claims_for_agent (id : string) (db : Db) : Db :=
  db <| db_qa_passes ::=
    sql_update (λ _ q, qa_claim_of db id q)
      (λ q, q <| q_reviewer_agent_id := None |> <| q_state := "pending" |>) |>.

(** ** Lemmas *)

(** The rows of [agent_session_ends] have distinct ids (its primary key). *)
Definition session_ids_unique (db : Db) : Prop :=
  ∀ k1 k2 r1 r2, db_session_ends db !! k1 = Some r1 → db_session_ends db !! k2 = Some r2 →
    s_id r1 = s_id r2 → k1 = k2.

(** What a capture may do to a recorded row: fill in an unknown reason *)
Definition reason_refined (r r' : SessionEndRow) : Prop :=
  r' = r ∨ (s_reason r = "unknown" ∧ ∃ reason, reason ≠ "unknown" ∧ r' = r <| s_reason := reason |>).

Lemma capture_agents now id reason db db' :
  capture now id reason db = Ok db' →
  db_agents db' = db_agents db ∧ db_task_leases db' = db_task_leases db
  ∧ db_worktree_leases db' = db_worktree_leases db ∧ db_tasks db' = db_tasks db
  ∧ db_history db' = db_history db ∧ db_qa_passes db' = db_qa_passes db.
Proof.
  unfold capture, insert_session_end. intros H.
  repeat (split_match; simplify_eq/=); done.
Qed.

(** Whether recording a new session end can fail: only when its digest is
    already the id of another row *)
Definition digest_fresh (db : Db) (id : string) : Prop :=
  ∀ a, db_agents db !! id = Some a → db_session_ends db !! (id, a_registered_at a) = None →
    ∀ k r, db_session_ends db !! k = Some r → s_id r ≠ sha256_hex (session_end_key id (a_registered_at a)).

Lemma capture_ok now id reason db : digest_fresh db id → ∃ db', capture now id reason db = Ok db'.
Proof.
  intros Hfresh. unfold capture, insert_session_end.
  destruct (db_agents db !! id) as [a|] eqn:Ha; [|by eauto].
  destruct (db_session_ends db !! (id, a_registered_at a)) eqn:Hs; [split_match; by eauto|].
  simpl. destruct (sql_exists _ _) eqn:Hex; [|by eauto].
  apply sql_exists_true in Hex as (k & r & Hr & Heq%String.eqb_eq). by edestruct (Hfresh a Ha Hs).
Qed.

(** Retirement evidence is kept: no later capture, of any agent and for
    any reason, changes a recorded session end except to replace an unknown
    reason by an observed one. *)
Theorem capture_keeps_evidence now id reason db db' k r :
  capture now id reason db = Ok db' → db_session_ends db !! k = Some r →
  ∃ r', db_session_ends db' !! k = Some r' ∧ reason_refined r r'.
Proof.
  unfold capture, insert_session_end, reason_refined. intros H Hk.
  destruct (db_agents db !! id) as [a|]; [|simplify_eq; by eauto].
  destruct (db_session_ends db !! (id, a_registered_at a)) as [r0|] eqn:H0.
  - destruct (String.eqb_spec (default "unknown" (trimmed_nonempty reason)) "unknown") as [Hu|Hu];
      simplify_eq/=; [by eauto|].
    unfold sql_update_key. destruct (decide (k = (id, a_registered_at a))) as [->|Hne].
    + simplify_eq. rewrite lookup_alter_eq, H0. simpl. eexists. split; [done|].
      destruct (String.eqb_spec (s_reason r0) "unknown"); [right; by eauto|by left].
    + rewrite lookup_alter_ne by done. by eauto.
  - destruct (sql_exists _ _); simplify_eq/=. rewrite lookup_insert_ne by congruence. by eauto.
Qed.

Lemma capture_recorded now id reason db db' a :
  capture now id reason db = Ok db' → db_agents db !! id = Some a →
  session_end_recorded id db' = true
  ∧ ∃ r, db_session_ends db' !! (id, a_registered_at a) = Some r
    ∧ s_reason r =
        match db_session_ends db !! (id, a_registered_at a) with
        | Some r0 => if String.eqb (s_reason r0) "unknown"
                     then default "unknown" (trimmed_nonempty reason) else s_reason r0
        | None => default "unknown" (trimmed_nonempty reason)
        end.
Proof.
  intros H Ha. pose proof (capture_agents _ _ _ _ _ H) as (Hag & _).
  unfold session_end_recorded. rewrite Hag, Ha.
  enough (∃ r, db_session_ends db' !! (id, a_registered_at a) = Some r ∧ s_reason r = _) as
    (r & -> & Hr) by (by eauto).
  revert H. unfold capture, insert_session_end. rewrite Ha.
  destruct (db_session_ends db !! (id, a_registered_at a)) as [r0|] eqn:H0.
  - destruct (String.eqb_spec (default "unknown" (trimmed_nonempty reason)) "unknown") as [Hu|Hu];
      intros; simplify_eq/=.
    + rewrite H0. eexists. split; [done|].
      destruct (String.eqb_spec (s_reason r0) "unknown"); congruence.
    + unfold sql_update_key. rewrite lookup_alter_eq, H0. eexists. split; [done|]. simpl.
      by destruct (String.eqb (s_reason r0) "unknown").
  - destruct (sql_exists _ _); intros; simplify_eq/=. rewrite lookup_insert_eq. by eauto.
Qed.

(** Capturing a registered agent records its incarnation: afterwards there
    is a session end for its id and registration time, and the reason given is
    the one kept unless an observed reason was there first. *)
Theorem capture_records now id reason db db' a :
  capture now id reason db = Ok db' → db_agents db !! id = Some a →
  session_end_recorded id db' = true
  ∧ ∃ r, db_session_ends db' !! (id, a_registered_at a) = Some r
    ∧ s_reason r =
        match db_session_ends db !! (id, a_registered_at a) with
        | Some r0 => if String.eqb (s_reason r0) "unknown"
                     then default "unknown" (trimmed_nonempty reason) else s_reason r0
        | None => default "unknown" (trimmed_nonempty reason)
        end.
Proof. apply capture_recorded. Qed.

(** *** Claims of predecessors *)

Lemma fold_claim_lookup s (l : list ((string * Z) * SessionEndRow)) db k :
  db_session_ends (foldl (λ db kr, db <| db_session_ends ::=
      sql_update (λ _ r, String.eqb (s_id r) (s_id kr.2)) (claim_session_end s) |>) db l) !! k
  = (λ r, if existsb (λ kr, String.eqb (s_id r) (s_id kr.2)) l then claim_session_end s r else r)
      <$> db_session_ends db !! k.
Proof.
  revert db. induction l as [|[k0 r0] l IH]; intros db; simpl; [by rewrite option_fmap_id|].
  rewrite IH. simpl. rewrite lookup_sql_update. destruct (db_session_ends db !! k) as [r|]; [|done].
  simpl. f_equal. destruct (String.eqb (s_id r) (s_id r0)); simpl; [|done].
  by destruct (existsb _ l).
Qed.

Lemma claim_lookup s db l db' k :
  session_ids_unique db → claim_supervisor_handoffs s db = Ok (l, db') →
  db_session_ends db' !! k = db_session_ends db !! k
  ∨ ∃ r, db_session_ends db !! k = Some r ∧ handoff_claimable db s k r = true
      ∧ db_session_ends db' !! k = Some (claim_session_end s r).
Proof.
  intros Huniq. unfold claim_supervisor_handoffs. destruct (_ || _); intros [= <- <-]; [by left|].
  rewrite fold_claim_lookup. destruct (db_session_ends db !! k) as [r|] eqn:Hk; [|by left]. simpl.
  destruct (existsb _ _) eqn:Hex; [|by left]. right. exists r. split; [done|].
  apply existsb_exists in Hex as ([k0 r0] & Hin & Heq%String.eqb_eq).
  apply list_elem_of_In, elem_of_order_by, elem_of_sql_select in Hin as [Hk0 Hc].
  assert (k = k0) as -> by eauto. by simplify_eq.
Qed.

Lemma claim_agents s db l db' :
  claim_supervisor_handoffs s db = Ok (l, db') → db_agents db' = db_agents db.
Proof.
  unfold claim_supervisor_handoffs. destruct (_ || _); intros [= _ <-]; [done|].
  generalize (order_by (le_of (asc (λ kr : (string * Z) * SessionEndRow, s_ended_at kr.2)))
                (sql_select (handoff_claimable db s) (db_session_ends db))).
  intros rows. revert db. induction rows as [|kr rows IH]; intros db; simpl; [done|]. by rewrite IH.
Qed.

Lemma claim_returns s db l db' :
  session_ids_unique db → claim_supervisor_handoffs s db = Ok (l, db') →
  ∀ e, e ∈ l → ∃ k r, db_session_ends db !! k = Some r ∧ handoff_claimable db s k r = true
    ∧ e = decode (s_payload r) (s_reason r)
    ∧ db_session_ends db' !! k = Some (claim_session_end s r).
Proof.
  intros Huniq Hc e He. pose proof Hc as Hc'. revert Hc'. unfold claim_supervisor_handoffs.
  destruct (_ || _) eqn:Hguard; intros [= <- _]; [by apply elem_of_nil in He|].
  apply list_elem_of_fmap in He as ([k r] & -> & Hin).
  apply elem_of_order_by, elem_of_sql_select in Hin as [Hk Hok].
  exists k, r. split_and!; [done..|].
  unfold claim_supervisor_handoffs in Hc. rewrite Hguard in Hc. injection Hc as <-.
  rewrite fold_claim_lookup, Hk. simpl. f_equal.
  assert (existsb (λ kr : (string * Z) * SessionEndRow, String.eqb (s_id r) (s_id kr.2))
    (order_by (le_of (asc (λ kr, s_ended_at kr.2)))
      (sql_select (handoff_claimable db s) (db_session_ends db))) = true) as ->; [|done].
  apply existsb_exists. exists (k, r). split; [|apply String.eqb_refl].
  by apply list_elem_of_In, elem_of_order_by, elem_of_sql_select.
Qed.

(** C38: A predecessor's handoff has one winner.  While the incarnation that
    claimed it stays registered and live, a later claim by any other
    incarnation leaves the row as it is, and returns only evidence that the
    later claimant then holds itself. *)
Theorem handoff_one_winner s1 s2 db l db' :
  session_ids_unique db →
  incarnation_live db (ag_id s1) (ag_registered_at s1) = true →
  (ag_id s2, ag_registered_at s2) ≠ (ag_id s1, ag_registered_at s1) →
  claim_supervisor_handoffs s2 db = Ok (l, db') →
  (∀ k r, db_session_ends db !! k = Some r → claimed_by_incarnation s1 r = true →
     db_session_ends db' !! k = Some r)
  ∧ (∀ e, e ∈ l → ∃ k r, db_session_ends db' !! k = Some r
       ∧ claimed_by_incarnation s2 r = true ∧ e = decode (s_payload r) (s_reason r)).
Proof.
  intros Huniq Hlive Hne Hc. split.
  - intros k r Hk Hown. destruct (claim_lookup s2 db l db' k Huniq Hc) as [->|(r' & Hk' & Hok & _)];
      [done|]. simplify_eq. exfalso. unfold handoff_claimable, claimed_by_incarnation in *.
    apply andb_true_iff in Hown as [Hcb Hce]. bool_to_prop.
    rewrite Hcb, Hce in *. simpl in *. rewrite Hlive in *. simpl in *.
    repeat match goal with H : _ && _ = true |- _ => apply andb_true_iff in H as [H ?] end.
    match goal with H : (_ || _) = true |- _ => rewrite orb_false_r in H; bool_to_prop end.
    congruence.
  - intros e He. destruct (claim_returns s2 db l db' Huniq Hc e He) as (k & r & Hk & Hok & -> & Hk').
    exists k, (claim_session_end s2 r). split_and!; [done| |done].
    unfold claimed_by_incarnation. simpl. by rewrite !bool_decide_eq_true_2.
Qed.

(** *** QA claims *)

(** Retiring an agent returns exactly its own claimed review rounds to
    the queue: those claimed under its id, and those claimed under its display
    name when no other live agent carries that name.  All other rounds are
    untouched. *)
Theorem release_qa_claims_spec id db p q :
  db_qa_passes db !! p = Some q →
  db_qa_passes (release_qa_claims_for_agent id db) !! p =
    Some (if qa_claim_of db id q
          then q <| q_reviewer_agent_id := None |> <| q_state := "pending" |> else q)
  ∧ (qa_claim_of db id q = true ↔
     q_state q = "claimed" ∧
     (q_reviewer_agent_id q = Some id ∨
      ∃ a, db_agents db !! id = Some a ∧ q_reviewer_agent_id q = Some (a_name a)
        ∧ ∀ k b, db_agents db !! k = Some b → a_name b = a_name a →
            status_live (a_status b) = true → k = id)).
Proof.
  intros Hp. split.
  { unfold release_qa_claims_for_agent. simpl. by rewrite lookup_sql_update, Hp. }
  unfold qa_claim_of. rewrite andb_true_iff, String.eqb_eq, orb_true_iff, bool_decide_eq_true.
  apply and_iff_compat_l, or_iff_compat_l. destruct (db_agents db !! id) as [a|] eqn:Ha.
  2:{ split; [done|]. by intros (? & [=] & _). }
  rewrite andb_true_iff, bool_decide_eq_true, negb_true_iff. unfold replaced_by_name.
  rewrite <-not_true_iff_false, sql_exists_true. split.
  - intros [Hr Hno]. exists a. split_and!; [done..|]. intros k b Hk Hn Hl.
    destruct (String.eqb_spec k id) as [|Hne]; [done|]. exfalso. apply Hno. exists k, b.
    rewrite Hn, Hl, String.eqb_refl. by destruct (String.eqb_spec k id).
  - intros (a' & [= <-] & Hr & Hall). split; [done|]. intros (k & b & Hk & Hb). bool_to_prop.
    repeat match goal with H : _ && _ = true |- _ => apply andb_true_iff in H as [H ?] end.
    bool_to_prop. naive_solver.
Qed.
End continuity.
