(* ===== verification/AgentStore.v ===== *)
(** * The agent registry ([crates/cas-store/src/agent_store/ops_agent.rs])

    Registration (with the reconciliation of a restarted factory supervisor),
    update, retirement, heartbeat, stale marking, revival and the queries.
    Retirement goes through [capture] and the QA release of [Continuity] and
    cascades to the leases of [LeaseStore] and [WorktreeLeases]. *)

From S2P Require Import Prelude Enums TaskTypes Db Leases LeaseStore WorktreeLeases Agents Continuity.

Section agent_store.
Context {host : Host}.

(** ** Rows *)

(** [agent_from_row]: an unknown status, role or type reads as the default,
    a negative counter or process id as zero. *)
Definition agent_from_row (id : string) (r : AgentRow) : Agent :=
  {| ag_id := id; ag_name := a_name r;
     ag_agent_type := unwrap_or (AgentType_from_str (a_agent_type r)) AgentType_Primary;
     ag_role := unwrap_or (AgentRole_from_str (a_role r)) AgentRole_Standard;
     ag_status := unwrap_or (AgentStatus_from_str (a_status r)) AgentStatus_Active;
     ag_pid := (λ n, Z.max 0 n mod 2 ^ 32) <$> a_pid r;
     ag_ppid := (λ n, Z.max 0 n mod 2 ^ 32) <$> a_ppid r;
     ag_cc_session_id := a_cc_session_id r; ag_factory_session := a_factory_session r;
     ag_parent_id := a_parent_id r; ag_machine_id := a_machine_id r;
     ag_registered_at := a_registered_at r; ag_last_heartbeat := a_last_heartbeat r;
     ag_active_tasks := Z.max 0 (a_active_tasks r) mod 2 ^ 32;
     ag_pid_starttime := (λ n, as_u64 (Z.max 0 n)) <$> a_pid_starttime r;
     ag_metadata := a_metadata r |}.

Definition set_agent_status (s : string) (a : AgentRow) : AgentRow := a <| a_status := s |>.

(** ** Restart of a factory supervisor *)

(** [id <> ?1 AND name = ?2 AND role = ?3 AND status IN ('active', 'idle')] *)
Definition prior_supervisor (agent : Agent) (k : string) (a : AgentRow) : bool :=
  negb (String.eqb k (ag_id agent)) && String.eqb (a_name a) (ag_name agent)
  && String.eqb (a_role a) (AgentRole_to_string (ag_role agent)) && status_live (a_status a).

Definition prior_sessions (agent : Agent) (db : Db) : list string :=
  remove_dups (omap (λ ka, a_factory_session ka.2)
                 (sql_select (prior_supervisor agent) (db_agents db))).

(** Live workers of a session move to the new one; their metadata keeps where
    they came from. *)
Definition worker_of_session (session : string) (a : AgentRow) : bool :=
  String.eqb (a_role a) "worker" && status_live (a_status a)
  && bool_decide (a_factory_session a = Some session).

Definition rehome_row (from to rehomed_at : string) (a : AgentRow) : AgentRow :=
  a <| a_factory_session := Some to |>
    <| a_metadata ::= λ m, <["factory_session_rehomed_at" := rehomed_at]>
                            (<["factory_session_rehomed_from" := from]> m) |>.

Definition rehome_workers (from to rehomed_at : string) (db : Db) : Db :=
  db <| db_agents ::= sql_update (λ _ a, worker_of_session from a)
                        (rehome_row from to rehomed_at) |>.

(** [capture] of each prior supervisor, one clock reading each *)
Fixpoint capture_all (clk : Clock) (k : nat) (ids : list string) (db : Db) : result Db :=
  match ids with
  | [] => Ok db
  | id :: rest =>
      db ← capture (clk k) id (Some "supervisor_restart") db; capture_all clk (S k) rest db
  end.

Definition reconcile_restarted_factory_supervisor (clk : Clock) (agent : Agent)
    (factory_session : option string) (db : Db) : result Db :=
  match ag_role agent, factory_session with
  | AgentRole_Supervisor, Some factory_session =>
      if str_is_empty factory_session then Ok db
      else
        let sessions := prior_sessions agent db in
        if bool_decide (sessions = []) then Ok db
        else
          let prior_ids := (sql_select (prior_supervisor agent) (db_agents db)).*1 in
          db ← capture_all clk 1 prior_ids db;
          let rehomed_at := to_rfc3339 (clk (S (length prior_ids))) in
          let db := foldl (λ db from, rehome_workers from factory_session rehomed_at db) db
                      (filter (λ s, s ≠ factory_session) sessions) in
          Ok (db <| db_agents ::= sql_update (prior_supervisor agent)
                                    (set_agent_status "shutdown") |>)
  | _, _ => Ok db
  end.

(** ** Registration *)

(** The INSERT, and ON CONFLICT(id) DO UPDATE *)
Definition registered_row (agent : Agent) (factory_session : option string)
    (old : option AgentRow) : AgentRow :=
  {| a_name := ag_name agent;
     a_agent_type := match old with
                     | Some o => a_agent_type o
                     | None => AgentType_to_string (ag_agent_type agent)
                     end;
     a_role := match old with
               | Some o => a_role o
               | None => AgentRole_to_string (ag_role agent)
               end;
     a_status := AgentStatus_to_string (ag_status agent);
     a_pid := ag_pid agent; a_ppid := ag_ppid agent;
     a_cc_session_id := coalesce (ag_cc_session_id agent) (o ← old; a_cc_session_id o);
     a_parent_id := ag_parent_id agent; a_machine_id := ag_machine_id agent;
     a_factory_session := coalesce factory_session (o ← old; a_factory_session o);
     a_registered_at :=
       match old with
       | Some o => if String.eqb (a_status o) "shutdown" && negb (is_none (ag_cc_session_id agent))
                   then ag_registered_at agent else a_registered_at o
       | None => ag_registered_at agent
       end;
     a_last_heartbeat := ag_last_heartbeat agent; a_active_tasks := ag_active_tasks agent;
     a_metadata := ag_metadata agent;
     a_startup_confirmed := match old with Some o => a_startup_confirmed o | None => false end;
     a_pid_starttime := as_i64 <$> ag_pid_starttime agent |}.

Definition register_agent_with_conn (clk : Clock) (agent : Agent) (db : Db) : result Db :=
  let factory_session := option_or_else (ag_factory_session agent) env_factory_session in
  let old := db_agents db !! ag_id agent in
  let existed := negb (is_none old) in
  let db := db <| db_agents ::= <[ag_id agent := registered_row agent factory_session old]> |> in
  db ← reconcile_restarted_factory_supervisor clk agent factory_session db;
  if negb existed
  then Ok (record_event (clk 0%nat) EventType_AgentRegistered EventEntityType_Agent (ag_id agent)
             ("Agent registered: " +:+ ag_name agent) None
             (Some (default (ag_id agent) (ag_cc_session_id agent))) db)
  else Ok db.

Definition agent_register (clk : Clock) (agent : Agent) (db : Db) : result (unit * Db) :=
  db ← register_agent_with_conn clk agent db; Ok (tt, db).

(** ** Reads and update *)
Definition agent_not_found (id : string) : StoreError := NotFound ("Agent not found: " +:+ id).

Definition agent_get (id : string) (db : Db) : result Agent :=
  ok_or (agent_from_row id <$> db_agents db !! id) (agent_not_found id).

Definition updated_row (agent : Agent) (o : AgentRow) : AgentRow :=
  {| a_name := ag_name agent; a_agent_type := AgentType_to_string (ag_agent_type agent);
     a_role := AgentRole_to_string (ag_role agent);
     a_status := AgentStatus_to_string (ag_status agent);
     a_pid := ag_pid agent; a_ppid := ag_ppid agent; a_cc_session_id := ag_cc_session_id agent;
     a_parent_id := ag_parent_id agent; a_machine_id := ag_machine_id agent;
     a_factory_session := coalesce (ag_factory_session agent) (a_factory_session o);
     a_registered_at := Z.max (a_registered_at o) (ag_registered_at agent);
     a_last_heartbeat := ag_last_heartbeat agent; a_active_tasks := ag_active_tasks agent;
     a_metadata := ag_metadata agent; a_startup_confirmed := a_startup_confirmed o;
     a_pid_starttime := as_i64 <$> ag_pid_starttime agent |}.

Definition agent_update (agent : Agent) (db : Db) : result (unit * Db) :=
  if agent_exists db (ag_id agent)
  then Ok (tt, update_agent (ag_id agent) (updated_row agent) db)
  else Err (agent_not_found (ag_id agent)).

(** ** Retirement *)

(** The routing identity kept in the retirement event *)
Definition identity_json (a : AgentRow) : json :=
  JObject [("name", JString (a_name a)); ("role", JString (a_role a));
           ("machine_id", opt_string (a_machine_id a));
           ("factory_session", opt_string (a_factory_session a));
           ("registered_at", JString (to_rfc3339 (a_registered_at a)))].

Definition agent_unregister (clk : Clock) (id : string) (db : Db) : result (unit * Db) :=
  db ← capture (clk 0%nat) id None db;
  let reason := end_reason id db in
  let identity := db_agents db !! id in
  let db := update_leases (λ _ r, String.eqb (l_agent_id r) id) (set_status "released") db in
  let db := release_qa_claims_for_agent id db in
  match identity with
  | None => Ok (tt, db)
  | Some a =>
      let db := delete_agent id db in
      let display_name := if str_is_empty (a_name a) then id else a_name a in
      Ok (tt, record_event (clk 1%nat) EventType_AgentShutdown EventEntityType_Agent id
                ("Agent unregistered: " +:+ display_name)
                (Some (JObject [("retired_agent", identity_json a);
                                ("end_reason", JString reason)])) None db)
  end.

(** ** Queries *)
Definition agents_of_rows (rows : list (string * AgentRow)) : list Agent :=
  (λ ka, agent_from_row ka.1 ka.2) <$> rows.

Definition agent_list (status : option AgentStatus) (db : Db) : list Agent :=
  agents_of_rows
    (order_by (le_of (desc (λ ka, a_registered_at ka.2)))
       (sql_select (λ _ a, match status with
                           | Some s => String.eqb (a_status a) (AgentStatus_to_string s)
                           | None => true
                           end) (db_agents db))).

Definition agent_list_stale (clk : Clock) (timeout_secs : Z) (db : Db) : list Agent :=
  let cutoff := clk 0%nat - duration_seconds timeout_secs in
  agents_of_rows
    (order_by (le_of (asc (λ ka, a_last_heartbeat ka.2)))
       (sql_select (λ _ a, status_live (a_status a) && (a_last_heartbeat a <? cutoff))
          (db_agents db))).

Definition agent_list_failed_startup (clk : Clock) (timeout_secs : Z) (db : Db) : list Agent :=
  let cutoff := clk 0%nat - duration_seconds timeout_secs in
  agents_of_rows
    (order_by (le_of (asc (λ ka, a_registered_at ka.2)))
       (sql_select (λ _ a, status_live (a_status a) && negb (a_startup_confirmed a)
                           && (a_registered_at a <? cutoff)) (db_agents db))).

(** [status IN ('active', 'idle', 'stale', 'dead', 'shutdown')] *)
Definition status_known (s : string) : bool :=
  existsb (String.eqb s) ["active"; "idle"; "stale"; "dead"; "shutdown"].

Definition newest_heartbeat (P : AgentRow → bool) (db : Db) : option Agent :=
  head (agents_of_rows
    (order_by (le_of (desc (λ ka, a_last_heartbeat ka.2)))
       (sql_select (λ _ a, P a) (db_agents db)))).

Definition agent_get_by_cc_pid (cc_pid : Z) (db : Db) : option Agent :=
  newest_heartbeat (λ a, bool_decide (a_ppid a = Some cc_pid) && status_known (a_status a)) db.

Definition agent_get_by_pid (pid : Z) (db : Db) : option Agent :=
  newest_heartbeat (λ a, bool_decide (a_pid a = Some pid) && status_known (a_status a)) db.

Definition agent_get_by_cc_session_id (cc_session_id : string) (db : Db) : option Agent :=
  head (agents_of_rows
    (order_by (le_of (then_by (desc (λ ka, a_last_heartbeat ka.2))
                              (desc (λ ka, a_registered_at ka.2))))
       (sql_select (λ _ a, bool_decide (a_cc_session_id a = Some cc_session_id))
          (db_agents db)))).

(** ** Heartbeat *)
Definition TASK_LEASE_HEARTBEAT_RENEWAL_SECS : Z := DEFAULT_LEASE_DURATION_SECS.

Definition heartbeat_row (now : Z) (a : AgentRow) : AgentRow :=
  a <| a_last_heartbeat := now |> <| a_status := "active" |> <| a_startup_confirmed := true |>.

Definition agent_heartbeat (clk : Clock) (id : string) (db : Db) : result (unit * Db) :=
  let now := clk 0%nat in
  match db_agents db !! id with
  | None => Err (agent_not_found id)
  | Some a =>
      let s := a_status a in
      if status_live s
      then
        let db := update_agent id (heartbeat_row now) db in
        let renewed_until := now + duration_seconds TASK_LEASE_HEARTBEAT_RENEWAL_SECS in
        let db := foldl (λ db lease,
                    update_leases (exact_lease (tl_task_id lease) id (tl_epoch lease))
                      (renew_row renewed_until now) db)
                    db (renewable_task_leases id db) in
        Ok (tt, update_worktree_leases
                  (λ _ r, String.eqb (w_agent_id r) id && worktree_active r)
                  (renew_worktree_row renewed_until now) db)
      else if String.eqb s "shutdown" || String.eqb s "stale"
      then Err (Other ("Agent " +:+ id +:+ " is " +:+ s +:+ " — heartbeat ignored"))
      else Err (Other ("Agent " +:+ id +:+ " has unexpected status '" +:+ s +:+ "'"))
  end.

(** ** Stale and revived agents *)
Definition agent_mark_stale (clk : Clock) (id : string) (db : Db) : result (unit * Db) :=
  let leases_to_revoke :=
    sql_select (λ _ r, String.eqb (l_agent_id r) id && lease_active r) (db_task_leases db) in
  let db := update_agent id (λ a, if negb (String.eqb (a_status a) "shutdown")
                                  then set_agent_status "stale" a else a) db in
  let db := update_leases (λ _ r, String.eqb (l_agent_id r) id && lease_active r)
              (set_status "revoked") db in
  let db := update_worktree_leases (λ _ r, String.eqb (w_agent_id r) id && worktree_active r)
              (set_worktree_lease_status "revoked") db in
  Ok (tt, log_each clk 0 (λ _, id) "revoked" (Some "agent_stale") leases_to_revoke db).

(** [status IN ('dead', 'shutdown', 'stale')] *)
Definition status_revivable (s : string) : bool :=
  String.eqb s "dead" || String.eqb s "shutdown" || String.eqb s "stale".

Definition agent_revive (clk : Clock) (id : string) (db : Db) : result (unit * Db) :=
  match db_agents db !! id with
  | Some a =>
      if status_revivable (a_status a)
      then Ok (tt, update_agent id (heartbeat_row (clk 0%nat)) db)
      else Err (NotFound ("Agent not found or already active: " +:+ id))
  | None => Err (NotFound ("Agent not found or already active: " +:+ id))
  end.

(** ** Lemmas *)

(** The epochs a database of this store holds: they start at 1 and no lease
    changes hands 2^63 times. *)
Definition epochs_ok (db : Db) : Prop :=
  ∀ t r, db_task_leases db !! t = Some r → 1 ≤ l_epoch r < 2 ^ 63 - 1.

Lemma renewable_tasks_NoDup id db : NoDup (tl_task_id <$> renewable_task_leases id db).
Proof.
  unfold renewable_task_leases, leases_of_rows. rewrite <-list_fmap_compose.
  eapply sublist_NoDup; [apply (NoDup_sql_select (renewable_row db id) (db_task_leases db))|].
  apply (fmap_sublist fst), sublist_filter.
Qed.

Lemma fold_renew_lookup id until now (l : list TaskLease) db t :
  NoDup (tl_task_id <$> l) →
  db_task_leases (foldl (λ db lease, update_leases (exact_lease (tl_task_id lease) id (tl_epoch lease))
                                       (renew_row until now) db) db l) !! t
  = match snd <$> list_find (λ l, tl_task_id l = t) l with
    | Some lease => (λ r, if exact_lease t id (tl_epoch lease) t r then renew_row until now r else r)
                      <$> db_task_leases db !! t
    | None => db_task_leases db !! t
    end.
Proof.
  revert db. induction l as [|lease l IH]; intros db; [done|].
  rewrite fmap_cons. intros [Hnot Hnd]%NoDup_cons. cbn [foldl]. rewrite IH by done.
  rewrite (update_leases_one (tl_task_id lease)) by apply exact_lease_key. simpl.
  destruct (decide (tl_task_id lease = t)) as [<-|Hne]; simpl.
  - assert (list_find (λ l, tl_task_id l = tl_task_id lease) l = None) as ->.
    { apply list_find_None, Forall_forall. intros l' Hin Heq. apply Hnot. rewrite <-Heq.
      apply list_elem_of_fmap. by eauto. }
    simpl. destruct (db_task_leases db !! tl_task_id lease) as [r|] eqn:Hr; simpl; [|by rewrite Hr].
    destruct (exact_lease _ _ _ _ r); simpl; [by rewrite lookup_insert_eq|by rewrite Hr].
  - assert (∀ f, db_task_leases
      match db_task_leases db !! tl_task_id lease with
      | Some r => if exact_lease (tl_task_id lease) id (tl_epoch lease) (tl_task_id lease) r
                  then db <| db_task_leases ::= <[tl_task_id lease := f r]> |> else db
      | None => db
      end !! t = db_task_leases db !! t) as Hframe.
    { intros f. destruct (db_task_leases db !! tl_task_id lease); [|done].
      destruct (exact_lease _ _ _ _ _); [|done]. simpl. by rewrite lookup_insert_ne. }
    rewrite Hframe. by destruct (list_find (λ l, tl_task_id l = t) l) as [[]|].
Qed.

Lemma fold_renew_frame id until now (l : list TaskLease) db :
  let db' := foldl (λ db lease, update_leases (exact_lease (tl_task_id lease) id (tl_epoch lease))
                                  (renew_row until now) db) db l in
  db_agents db' = db_agents db ∧ db_worktree_leases db' = db_worktree_leases db
  ∧ db_tasks db' = db_tasks db ∧ db_history db' = db_history db.
Proof.
  revert db. induction l as [|lease l IH]; intros db; simpl; [done|].
  destruct (IH (update_leases (exact_lease (tl_task_id lease) id (tl_epoch lease))
                 (renew_row until now) db)) as (-> & -> & -> & ->). done.
Qed.

(** What a heartbeat promises of its result *)
Definition heartbeat_post (now : Z) (id : string) (db : Db) (res : result (unit * Db)) : Prop :=
  let until := now + duration_seconds 600 in
  match db_agents db !! id with
  | Some a =>
      if status_live (a_status a)
      then ∃ db', res = Ok (tt, db')
        ∧ db_agents db' = <[id := heartbeat_row now a]> (db_agents db)
        ∧ (∀ t, db_task_leases db' !! t =
             (λ r, if renewable (update_agent id (heartbeat_row now) db) t id
                   then renew_row until now r else r) <$> db_task_leases db !! t)
        ∧ (∀ w, db_worktree_leases db' !! w =
             (λ r, if String.eqb (w_agent_id r) id && worktree_active r
                   then renew_worktree_row until now r else r) <$> db_worktree_leases db !! w)
      else ∃ msg, res = Err (Other msg)
  | None => res = Err (agent_not_found id)
  end.

Lemma agent_heartbeat_post clk id db :
  epochs_ok db → heartbeat_post (clk 0%nat) id db (agent_heartbeat clk id db).
Proof.
  intros Hep. unfold heartbeat_post, agent_heartbeat. cbv zeta.
  change TASK_LEASE_HEARTBEAT_RENEWAL_SECS with 600.
  set (now := clk 0%nat). set (until := now + duration_seconds 600).
  destruct (db_agents db !! id) as [a|] eqn:Ha; [|done].
  destruct (status_live (a_status a)) eqn:Hlive; [|destruct (_ || _); by eauto].
  pose proof (fold_renew_frame id until now
    (renewable_task_leases id (update_agent id (heartbeat_row now) db))
    (update_agent id (heartbeat_row now) db)) as (Hag & Hwt & _ & _).
  eexists. split; [done|]. split_and!.
  - unfold update_worktree_leases. simpl. rewrite Hag. simpl. unfold sql_update_key.
    apply map_eq. intros k. destruct (decide (k = id)) as [->|].
    + by rewrite lookup_alter_eq, lookup_insert_eq, Ha.
    + by rewrite lookup_alter_ne, lookup_insert_ne.
  - intros t. unfold update_worktree_leases. simpl.
    rewrite fold_renew_lookup, find_renewable by apply renewable_tasks_NoDup.
    change (db_task_leases (update_agent id (heartbeat_row now) db)) with (db_task_leases db).
    destruct (db_task_leases db !! t) as [r|] eqn:Hr; [|by destruct (renewable _ t id)].
    destruct (renewable _ t id) eqn:Hren; [|done]. simpl. f_equal.
    enough (exact_lease t id (as_u64 (Z.max 0 (l_epoch r))) t r = true) as -> by done.
    unfold renewable in Hren. simpl in Hren. rewrite Hr in Hren. unfold renewable_row in Hren.
    apply andb_true_iff in Hren as [Hren _].
    repeat (apply andb_true_iff in Hren as [Hren ?]). specialize (Hep t r Hr).
    unfold exact_lease. rewrite String.eqb_refl, Hren, Z.max_r, as_u64_small, as_i64_small by lia.
    simpl. apply andb_true_iff. split; [done|]. lia.
  - intros w. unfold update_worktree_leases. simpl. rewrite lookup_sql_update, Hwt. done.
Qed.

(** A heartbeat keeps a live agent and exactly its own running work
    alive.  For a live agent it stamps the agent and, in the same transaction,
    extends the renewable task leases (active, the agent's, task in progress
    and assigned to it) and the agent's active worktree leases to ten minutes
    from now; no other row changes.  A stale, shut down or unknown agent gets
    an error and nothing changes. *)
Theorem heartbeat_spec clk id db :
  epochs_ok db → heartbeat_post (clk 0%nat) id db (agent_heartbeat clk id db).
Proof. apply agent_heartbeat_post. Qed.

(** What marking stale promises of its result *)
Definition mark_stale_post (id : string) (db : Db) (res : result (unit * Db)) : Prop :=
  ∃ db', res = Ok (tt, db')
  ∧ (∀ t, db_task_leases db' !! t =
       (λ r, if String.eqb (l_agent_id r) id && lease_active r then set_status "revoked" r else r)
         <$> db_task_leases db !! t)
  ∧ (∀ w, db_worktree_leases db' !! w =
       (λ r, if String.eqb (w_agent_id r) id && worktree_active r
             then set_worktree_lease_status "revoked" r else r) <$> db_worktree_leases db !! w)
  ∧ db_agents db' = alter (λ a, if String.eqb (a_status a) "shutdown" then a
                                else set_agent_status "stale" a) id (db_agents db)
  ∧ (∀ t r b now, db_task_leases db !! t = Some r → l_agent_id r = id →
       claimable db' now t b = true ∧ next_epoch db' t = next_epoch db t).

Lemma agent_mark_stale_post clk id db : mark_stale_post id db (agent_mark_stale clk id db).
Proof.
  unfold mark_stale_post, agent_mark_stale. eexists. split; [done|].
  match goal with
  | |- context [log_each ?c ?k ?f ?e ?r ?rows ?d] =>
      destruct (log_each_frame c k f e r rows d) as (Hl & Ha & Hw & _);
      set (db' := log_each c k f e r rows d) in *
  end.
  assert (∀ t, db_task_leases db' !! t =
    (λ r, if String.eqb (l_agent_id r) id && lease_active r then set_status "revoked" r else r)
      <$> db_task_leases db !! t) as Hlook.
  { intros t. rewrite Hl. apply lookup_sql_update. }
  split_and!; [exact Hlook| | |].
  - intros w. rewrite Hw. apply lookup_sql_update.
  - rewrite Ha. apply alter_ext. intros a _. by destruct (String.eqb (a_status a) "shutdown").
  - intros t r b now Hr <-. unfold claimable, next_epoch. rewrite Hlook, Hr. simpl.
    rewrite String.eqb_refl. simpl. destruct (lease_active r) eqn:Hact; simpl; [done|].
    by rewrite Hact.
Qed.

(** Marking an agent stale frees its work at once: every active task and
    worktree lease of the agent is revoked, all other leases are unchanged, a
    shut down agent stays shut down, and each task it held can then be claimed
    by any other registered agent, at the next epoch. *)
Theorem mark_stale_spec clk id db : mark_stale_post id db (agent_mark_stale clk id db).
Proof. apply agent_mark_stale_post. Qed.

(** *** Registration *)

(** Without a restarted supervisor, registering writes one row and, for a new
    agent, one event. *)
Lemma capture_all_frame clk k ids db db' :
  capture_all clk k ids db = Ok db' →
  db_agents db' = db_agents db ∧ db_task_leases db' = db_task_leases db
  ∧ db_worktree_leases db' = db_worktree_leases db ∧ db_qa_passes db' = db_qa_passes db.
Proof.
  revert k db. induction ids as [|id ids IH]; intros k db; simpl; [by intros [= ->]|].
  intros (db1 & Hc & H)%bind_Ok. apply capture_agents in Hc as (Ha & Hl & Hw & _ & _ & Hq).
  apply IH in H as (-> & -> & -> & ->). done.
Qed.

Lemma rehome_fold_frame (froms : list string) (to at_ : string) db :
  let db' := foldl (λ db from, rehome_workers from to at_ db) db froms in
  db_task_leases db' = db_task_leases db ∧ db_worktree_leases db' = db_worktree_leases db
  ∧ db_session_ends db' = db_session_ends db ∧ db_qa_passes db' = db_qa_passes db.
Proof.
  revert db. induction froms as [|from froms IH]; intros db; simpl; [done|].
  destruct (IH (rehome_workers from to at_ db)) as (-> & -> & -> & ->). done.
Qed.

(** Rehoming touches live workers of the listed sessions only, and moves them
    once: a moved worker belongs to none of the other sessions. *)
Lemma rehome_fold_lookup (froms : list string) (to at_ : string) db k :
  to ∉ froms →
  db_agents (foldl (λ db from, rehome_workers from to at_ db) db froms) !! k
  = (λ a, match a_factory_session a with
          | Some from => if bool_decide (from ∈ froms) && worker_of_session from a
                         then rehome_row from to at_ a else a
          | None => a
          end) <$> db_agents db !! k.
Proof.
  revert db. induction froms as [|from froms IH]; intros db Hto; cbn [foldl].
  { destruct (db_agents db !! k) as [a|]; simpl; [|done]. by destruct (a_factory_session a). }
  apply not_elem_of_cons in Hto as [Hne Hto]. rewrite IH by done.
  unfold rehome_workers at 1. simpl. rewrite lookup_sql_update.
  destruct (db_agents db !! k) as [a|]; simpl; [|done]. f_equal.
  destruct (worker_of_session from a) eqn:Hw.
  - assert (a_factory_session a = Some from) as Hs.
    { unfold worker_of_session in Hw. by bool_to_prop. }
    simpl. rewrite Hs. rewrite bool_decide_eq_false_2 by done. simpl.
    rewrite bool_decide_eq_true_2 by (by left). by rewrite Hw.
  - destruct (a_factory_session a) as [s|] eqn:Hs; [|done].
    destruct (decide (s = from)) as [->|Hsf].
    + rewrite Hw, !andb_false_r. done.
    + assert (bool_decide (s ∈ from :: froms) = bool_decide (s ∈ froms)) as ->; [|done].
      apply bool_decide_ext. rewrite elem_of_cons. naive_solver.
Qed.

Lemma elem_of_prior_sessions agent db s :
  s ∈ prior_sessions agent db ↔
  ∃ k a, db_agents db !! k = Some a ∧ prior_supervisor agent k a = true
         ∧ a_factory_session a = Some s.
Proof.
  unfold prior_sessions. rewrite elem_of_remove_dups, list_elem_of_omap. split.
  - intros ([k a] & [Hk Hp]%elem_of_sql_select & Hs). eauto.
  - intros (k & a & Hk & Hp & Hs). exists (k, a). by rewrite elem_of_sql_select.
Qed.

(** What reconciliation does to one registry row *)
Definition reconciled_row (agent : Agent) (sessions : list string) (to at_ : string)
    (k : string) (a : AgentRow) : AgentRow :=
  if prior_supervisor agent k a then set_agent_status "shutdown" a
  else match a_factory_session a with
       | Some from => if bool_decide (from ∈ sessions ∧ from ≠ to) && worker_of_session from a
                      then rehome_row from to at_ a else a
       | None => a
       end.

Lemma reconcile_lookup clk agent to db db' k :
  ag_role agent = AgentRole_Supervisor → to ≠ EmptyString → prior_sessions agent db ≠ [] →
  reconcile_restarted_factory_supervisor clk agent (Some to) db = Ok db' →
  ∃ at_, db_agents db' !! k =
    reconciled_row agent (prior_sessions agent db) to at_ k <$> db_agents db !! k.
Proof.
  intros Hrole Hto Hsome. unfold reconcile_restarted_factory_supervisor. rewrite Hrole.
  assert (str_is_empty to = false) as -> by (by apply String.eqb_neq).
  rewrite bool_decide_eq_false_2 by done.
  intros (db1 & Hcap & [= <-])%bind_Ok. apply capture_all_frame in Hcap as (Ha & _). simpl.
  match goal with
  | |- context [to_rfc3339 ?x] => exists (to_rfc3339 x); generalize (to_rfc3339 x); intros at_
  end.
  rewrite lookup_sql_update, rehome_fold_lookup, Ha
    by (rewrite list_elem_of_filter; naive_solver).
  destruct (db_agents db !! k) as [a|]; simpl; [|done]. f_equal. unfold reconciled_row.
  set (moved := match a_factory_session a with Some _ => _ | None => a end).
  assert (prior_supervisor agent k moved = prior_supervisor agent k a) as ->.
  { unfold moved. destruct (a_factory_session a); [|done]. by destruct (_ && _). }
  destruct (prior_supervisor agent k a) eqn:Hp.
  - (* a supervisor is no worker: the rehoming leaves it alone *)
    assert (∀ s, worker_of_session s a = false) as Hnw.
    { intros s. unfold prior_supervisor in Hp. rewrite Hrole in Hp. unfold worker_of_session.
      bool_to_prop. destruct (String.eqb_spec (a_role a) "worker"); simpl in *; congruence. }
    unfold moved. destruct (a_factory_session a); [|done]. by rewrite Hnw, andb_false_r.
  - unfold moved. destruct (a_factory_session a) as [from|]; [|done].
    assert (bool_decide (from ∈ filter (λ s, s ≠ to) (prior_sessions agent db))
            = bool_decide (from ∈ prior_sessions agent db ∧ from ≠ to)) as ->; [|done].
    apply bool_decide_ext. rewrite list_elem_of_filter. naive_solver.
Qed.

Lemma reconcile_frame clk agent fs db db' :
  reconcile_restarted_factory_supervisor clk agent fs db = Ok db' →
  db_task_leases db' = db_task_leases db ∧ db_worktree_leases db' = db_worktree_leases db
  ∧ db_qa_passes db' = db_qa_passes db.
Proof.
  unfold reconcile_restarted_factory_supervisor.
  destruct (ag_role agent); try (by intros [= ->]).
  destruct fs as [to|]; [|by intros [= ->]]. destruct (str_is_empty to); [by intros [= ->]|].
  destruct (bool_decide _); [by intros [= ->]|].
  intros (db1 & Hcap & [= <-])%bind_Ok. apply capture_all_frame in Hcap as (_ & Hl & Hw & Hq). simpl.
  destruct (rehome_fold_frame (filter (λ s, s ≠ to) (prior_sessions agent db)) to
    (to_rfc3339 (clk (S (length (sql_select (prior_supervisor agent) (db_agents db)).*1)))) db1)
    as (-> & -> & _ & ->). done.
Qed.

(** The registering agent's own row is not one reconciliation changes: it is
    not its own predecessor, and it is no worker of another session. *)
Lemma reconcile_own_row clk agent fs db db' a :
  reconcile_restarted_factory_supervisor clk agent fs db = Ok db' →
  db_agents db !! ag_id agent = Some a → is_Some fs → a_factory_session a = fs →
  db_agents db' !! ag_id agent = Some a.
Proof.
  unfold reconcile_restarted_factory_supervisor. intros Hr Ha Hsome Hown.
  destruct (ag_role agent) eqn:Hrole; try (by injection Hr as <-).
  destruct fs as [to|]; [|by injection Hr as <-].
  destruct (str_is_empty to) eqn:Hto; [by injection Hr as <-|].
  destruct (bool_decide _) eqn:Hs; [by injection Hr as <-|].
  assert (reconcile_restarted_factory_supervisor clk agent (Some to) db = Ok db') as Hr'.
  { unfold reconcile_restarted_factory_supervisor. by rewrite Hrole, Hto, Hs. }
  apply reconcile_lookup with (k := ag_id agent) in Hr' as (at_ & ->);
    [|done|by apply String.eqb_neq|by eapply bool_decide_eq_false_1].
  rewrite Ha. simpl. f_equal. unfold reconciled_row, prior_supervisor.
  rewrite String.eqb_refl, Hown. simpl. by rewrite bool_decide_eq_false_2 by (by intros [_ ?]).
Qed.

Lemma register_effect clk agent db db' :
  agent_register clk agent db = Ok (tt, db') →
  let fs := option_or_else (ag_factory_session agent) env_factory_session in
  db_agents db' !! ag_id agent =
    Some (registered_row agent fs (db_agents db !! ag_id agent))
  ∧ db_task_leases db' = db_task_leases db
  ∧ db_worktree_leases db' = db_worktree_leases db.
Proof.
  intros H fs. unfold agent_register, register_agent_with_conn in H.
  apply bind_Ok in H as (db1 & (db2 & Hrec & H)%bind_Ok & [= <-]).
  assert (db_agents db1 = db_agents db2 ∧ db_task_leases db1 = db_task_leases db2
          ∧ db_worktree_leases db1 = db_worktree_leases db2) as (-> & -> & ->).
  { by destruct (is_none _); simpl in H; injection H as <-. }
  pose proof (reconcile_frame _ _ _ _ _ Hrec) as (-> & -> & _). split; [|done].
  fold fs in Hrec |- *. destruct fs as [to|] eqn:Hfs.
  - eapply reconcile_own_row; [exact Hrec|simpl; by rewrite lookup_insert_eq|done|done].
  - unfold reconcile_restarted_factory_supervisor in Hrec.
    destruct (ag_role agent); injection Hrec as <-; simpl; by rewrite lookup_insert_eq.
Qed.

(** Registering is an upsert that never un-knows: the row written carries
    the agent's new values, but a known row keeps its role and type, its
    confirmed startup, a harness session id or factory session the caller does
    not supply, and its registration time unless it had shut down and a harness
    session restarts it.  Leases are unchanged. *)
Theorem register_upsert clk agent db db' :
  agent_register clk agent db = Ok (tt, db') →
  let fs := option_or_else (ag_factory_session agent) env_factory_session in
  db_agents db' !! ag_id agent =
    Some (registered_row agent fs (db_agents db !! ag_id agent))
  ∧ db_task_leases db' = db_task_leases db
  ∧ db_worktree_leases db' = db_worktree_leases db.
Proof. apply register_effect. Qed.

(** A restarted supervisor takes its fleet over atomically.  When a
    supervisor registers into a factory session and a live predecessor of the
    same name and role had one, afterwards no other live agent carries that
    name and role, every live worker of a predecessor's session belongs to the
    new session with its status unchanged, and every other agent's row is as
    it was. *)
Theorem register_supervisor_takes_over clk agent to db db' :
  agent_register clk agent db = Ok (tt, db') →
  ag_role agent = AgentRole_Supervisor → to ≠ EmptyString →
  option_or_else (ag_factory_session agent) env_factory_session = Some to →
  prior_sessions agent db ≠ [] →
  ∀ k a, k ≠ ag_id agent → db_agents db !! k = Some a →
  ∃ a', db_agents db' !! k = Some a' ∧
    (if prior_supervisor agent k a then a_status a' = "shutdown" ∧ a_factory_session a' = a_factory_session a
     else match a_factory_session a with
          | Some from =>
              if bool_decide (from ∈ prior_sessions agent db) && worker_of_session from a
              then a_factory_session a' = Some to ∧ a_status a' = a_status a
              else a' = a
          | None => a' = a
          end).
Proof.
  intros H Hrole Hto Hfs Hsome k a Hk Ha. unfold agent_register, register_agent_with_conn in H.
  apply bind_Ok in H as (db1 & (db2 & Hrec & H)%bind_Ok & [= <-]). rewrite Hfs in Hrec.
  set (db0 := db <| db_agents ::= _ |>) in Hrec.
  assert (db_agents db1 = db_agents db2) as ->.
  { by destruct (is_none _); simpl in H; injection H as <-. }
  assert (∀ j b, j ≠ ag_id agent → db_agents db0 !! j = Some b ↔ db_agents db !! j = Some b) as Hsame.
  { intros j b Hj. unfold db0. simpl. by rewrite lookup_insert_ne. }
  assert (∀ s, s ∈ prior_sessions agent db0 ↔ s ∈ prior_sessions agent db) as Hps.
  { intros s. rewrite !elem_of_prior_sessions. split; intros (j & b & Hj & Hp & Hs); exists j, b;
      (split; [|done]); (apply Hsame || apply Hsame in Hj); try done;
      unfold prior_supervisor in Hp; bool_to_prop; done. }
  assert (prior_sessions agent db0 ≠ []) as Hsome'.
  { intros Hnil. apply Hsome. apply list.elem_of_nil_inv. intros s Hs%Hps. rewrite Hnil in Hs.
    by apply elem_of_nil in Hs. }
  eapply (reconcile_lookup _ _ _ _ _ k) in Hrec as (at_ & ->); [|done..].
  rewrite (proj2 (Hsame k a Hk) Ha). simpl. eexists. split; [done|]. unfold reconciled_row.
  destruct (prior_supervisor agent k a); [done|].
  destruct (a_factory_session a) as [from|] eqn:Hfrom; [|done].
  destruct (worker_of_session from a) eqn:Hw; [|by rewrite !andb_false_r].
  rewrite !andb_true_r. destruct (bool_decide (from ∈ prior_sessions agent db)) eqn:Hin.
  - apply bool_decide_eq_true_1, Hps in Hin. destruct (decide (from = to)) as [->|Hne].
    + by rewrite bool_decide_eq_false_2 by tauto.
    + by rewrite bool_decide_eq_true_2 by done.
  - eapply bool_decide_eq_false_1 in Hin. by rewrite bool_decide_eq_false_2 by (rewrite Hps; tauto).
Qed.

(** A first registration reads back: [get] returns the agent that was
    registered, with the factory session it was registered into. *)
Theorem register_get_roundtrip clk agent db db' :
  agent_register clk agent db = Ok (tt, db') → db_agents db !! ag_id agent = None →
  0 ≤ ag_active_tasks agent < 2 ^ 32 →
  (∀ n, ag_pid agent = Some n → 0 ≤ n < 2 ^ 32) → (∀ n, ag_ppid agent = Some n → 0 ≤ n < 2 ^ 32) →
  (∀ n, ag_pid_starttime agent = Some n → 0 ≤ n < 2 ^ 63) →
  agent_get (ag_id agent) db' =
    Ok (agent <| ag_factory_session := option_or_else (ag_factory_session agent) env_factory_session |>).
Proof.
  intros H Hnew Hact Hpid Hppid Hst. apply register_effect in H as (H & _ & _).
  unfold agent_get. rewrite H, Hnew. simpl. f_equal. unfold agent_from_row, update. simpl.
  destruct agent as [id name ty role st pid ppid cc fs parent machine reg hb act pst meta]; simpl in *.
  f_equal.
  - by destruct ty.
  - by destruct role.
  - by destruct st.
  - destruct pid as [n|]; simpl; [|done]. specialize (Hpid n eq_refl).
    by rewrite Z.max_r, Z.mod_small by lia.
  - destruct ppid as [n|]; simpl; [|done]. specialize (Hppid n eq_refl).
    by rewrite Z.max_r, Z.mod_small by lia.
  - unfold coalesce. by destruct cc.
  - unfold coalesce. by destruct (option_or_else fs env_factory_session).
  - by rewrite Z.max_r, Z.mod_small by lia.
  - destruct pst as [n|]; simpl; [|done]. specialize (Hst n eq_refl).
    rewrite as_i64_small, Z.max_r, as_u64_small by lia. done.
Qed.

(** *** Retirement *)

(** Unregistering removes an agent completely and keeps its evidence: the
    registry row, its task leases and its worktree leases are gone, everyone
    else's rows are unchanged, its QA claims are returned to the queue, and
    the session end of the retired incarnation is on record.  Retiring an
    unknown agent succeeds and leaves the registry and the leases alone. *)
Theorem unregister_spec clk id db :
  digest_fresh db id → db_wf db →
  ∃ db', agent_unregister clk id db = Ok (tt, db')
  ∧ db_agents db' = delete id (db_agents db)
  ∧ (∀ t, db_task_leases db' !! t =
       (r ← db_task_leases db !! t; if String.eqb (l_agent_id r) id then None else Some r))
  ∧ (∀ w, db_worktree_leases db' !! w =
       (r ← db_worktree_leases db !! w; if String.eqb (w_agent_id r) id then None else Some r))
  ∧ db_qa_passes db' = db_qa_passes (release_qa_claims_for_agent id db)
  ∧ (∀ a, db_agents db !! id = Some a →
       is_Some (db_session_ends db' !! (id, a_registered_at a))).
Proof.
  intros Hfresh Hwf. unfold agent_unregister.
  destruct (capture_ok (clk 0%nat) id None db Hfresh) as [db1 Hcap]. rewrite Hcap. simpl.
  pose proof (capture_agents _ _ _ _ _ Hcap) as (Ha & Hl & Hw & _ & _ & Hq). rewrite Ha.
  assert (∀ t, db_task_leases (update_leases (λ _ r, String.eqb (l_agent_id r) id)
    (set_status "released") db1) !! t = (λ r, if String.eqb (l_agent_id r) id
       then set_status "released" r else r) <$> db_task_leases db !! t) as Hlook.
  { intros t. rewrite <-Hl. apply lookup_sql_update. }
  assert (db_qa_passes (release_qa_claims_for_agent id db1)
          = db_qa_passes (release_qa_claims_for_agent id db)) as Hqa.
  { unfold release_qa_claims_for_agent. simpl. rewrite Hq. apply sql_update_ext.
    intros k q _. unfold qa_claim_of, replaced_by_name. by rewrite Ha. }
  destruct (db_agents db !! id) as [a|] eqn:Hid.
  - eexists. split; [done|]. split_and!.
    + simpl. by rewrite Ha.
    + intros t. simpl. rewrite lookup_sql_delete.
      rewrite lookup_sql_update, Hl. destruct (db_task_leases db !! t) as [r|]; simpl; [|done].
      destruct (String.eqb (l_agent_id r) id) eqn:He; simpl; by rewrite He.
    + intros w. simpl. rewrite lookup_sql_delete. by rewrite Hw.
    + exact Hqa.
    + intros a' [= <-]. simpl. eapply capture_recorded in Hcap as (_ & r & Hr & _); [|done].
      simpl in Hr. by eauto.
  - eexists. split; [done|]. split_and!; [|intros t|intros w| |done].
    + simpl. rewrite Ha. by rewrite delete_id.
    + simpl. rewrite lookup_sql_update, Hl. destruct (db_task_leases db !! t) as [r|] eqn:Hr; [|done].
      simpl. destruct (String.eqb_spec (l_agent_id r) id) as [He|]; [|done].
      destruct (wf_lease_agents db Hwf t r Hr) as [a Hag]. congruence.
    + simpl. rewrite Hw. destruct (db_worktree_leases db !! w) as [r|] eqn:Hr; [|done].
      simpl. destruct (String.eqb_spec (w_agent_id r) id) as [He|]; [|done].
      destruct (wf_worktree_agents db Hwf w r Hr) as [a Hag]. congruence.
    + exact Hqa.
Qed.

(** The stale list is exact and ordered: it holds the live agents whose
    last heartbeat is older than the timeout, each once, oldest heartbeat
    first; no stale or shut down agent is listed again. *)
Theorem list_stale_spec clk timeout db :
  (∀ id, id ∈ ag_id <$> agent_list_stale clk timeout db ↔
     ∃ a, db_agents db !! id = Some a ∧ status_live (a_status a) = true
          ∧ a_last_heartbeat a < clk 0%nat - duration_seconds timeout)
  ∧ NoDup (ag_id <$> agent_list_stale clk timeout db)
  ∧ Sorted (λ a b, ag_last_heartbeat a ≤ ag_last_heartbeat b) (agent_list_stale clk timeout db).
Proof.
  unfold agent_list_stale, agents_of_rows. rewrite <-list_fmap_compose. set (rows := sql_select _ _).
  split_and!.
  - intros id. rewrite list_elem_of_fmap. split.
    + intros ([k a] & -> & [Hk Hok]%elem_of_order_by%elem_of_sql_select). simpl. exists a. by bool_to_prop.
    + intros (a & Ha & Hl & Hlt). exists (id, a). split; [done|].
      apply elem_of_order_by, elem_of_sql_select. split; [done|]. rewrite Hl. simpl. lia.
  - rewrite order_by_perm. apply NoDup_sql_select.
  - set (le := le_of _). assert (Sorted (rel_of le) (order_by le rows)) as Hs.
    { apply order_by_sorted. apply le_of_total. intros a b. apply asc_opp. }
    induction Hs as [|x l Hs IH Hh]; simpl; constructor; [done|]. destruct Hh as [|y l Hle]; constructor.
    unfold rel_of, le, le_of, asc in Hle. simpl.
    destruct (Z.compare_spec (a_last_heartbeat x.2) (a_last_heartbeat y.2)); [lia..|done].
Qed.

End agent_store.
