(* ===== verification/Coordination.v ===== *)
(** * Coordination ([crates/cas-store/src/agent_store/ops_coordination.rs])

    Graceful shutdown, the children of an agent, the epics agents work on and
    the embedded daemons. *)

From S2P Require Import Prelude Enums TaskTypes Db Leases LeaseStore WorktreeLeases Agents Continuity AgentStore.

Section coordination.
Context {host : Host}.

Definition coord_get_active_children (agent_id : string) (db : Db) : list Agent :=
  agents_of_rows
    (order_by (le_of (desc (λ ka, a_registered_at ka.2)))
       (sql_select (λ _ a, bool_decide (a_parent_id a = Some agent_id)
                           && String.eqb (a_status a) "active") (db_agents db))).

(** ** Shutdown *)
Definition coord_graceful_shutdown (clk : Clock) (agent_id : string) (db : Db)
    : result (list string * Db) :=
  db ← capture (clk 0%nat) agent_id None db;
  let leases :=
    sql_select (λ _ r, String.eqb (l_agent_id r) agent_id && lease_active r) (db_task_leases db) in
  let task_ids := leases.*1 in
  let db := update_leases (λ _ r, String.eqb (l_agent_id r) agent_id && lease_active r)
              (set_status "released") db in
  let db := update_worktree_leases
              (λ _ r, String.eqb (w_agent_id r) agent_id && worktree_active r)
              (set_worktree_lease_status "released") db in
  let db := log_each clk 1 (λ _, agent_id) "released" (Some "graceful_shutdown") leases db in
  let db := release_qa_claims_for_agent agent_id db in
  Ok (task_ids,
      update_agent agent_id (λ a, a <| a_status := "shutdown" |> <| a_active_tasks := 0 |>) db).

(** ** Working epics *)

(** INSERT OR IGNORE *)
Definition coord_add_working_epic (clk : Clock) (agent_id epic_id : string) (db : Db)
    : result (unit * Db) :=
  Ok (tt, db <| db_working_epics ::= λ m,
            match m !! (agent_id, epic_id) with
            | Some _ => m
            | None => <[(agent_id, epic_id) := clk 0%nat]> m
            end |>).

(** The rows of [working_epics], latest start first.  DISTINCT keeps one row
    per epic; which start orders it is not specified. *)
Definition working_epic_rows (P : string → bool) (db : Db) : list ((string * string) * Z) :=
  order_by (le_of (desc snd)) (sql_select (λ k _, P k.1) (db_working_epics db)).

Definition coord_get_working_epics (agent_id : string) (db : Db) : list string :=
  (λ r, r.1.2) <$> working_epic_rows (String.eqb agent_id) db.

Definition coord_list_all_working_epics (db : Db) : list string :=
  remove_dups ((λ r, r.1.2) <$> working_epic_rows (λ _, true) db).

(** [a.id IS NULL OR a.status != 'active'] *)
Definition orphaned (db : Db) (agent_id : string) : bool :=
  match db_agents db !! agent_id with
  | None => true
  | Some a => negb (String.eqb (a_status a) "active")
  end.

Definition coord_list_orphaned_working_epics (db : Db) : list string :=
  remove_dups ((λ r, r.1.2) <$> working_epic_rows (orphaned db) db).

Definition coord_remove_working_epic (agent_id epic_id : string) (db : Db) : result (unit * Db) :=
  Ok (tt, db <| db_working_epics ::= delete (agent_id, epic_id) |>).

Definition coord_clear_working_epics (agent_id : string) (db : Db) : result (unit * Db) :=
  Ok (tt, db <| db_working_epics ::= sql_delete (λ k _, String.eqb k.1 agent_id) |>).

(** ** Daemons *)
Definition coord_register_daemon (clk : Clock) (daemon_id daemon_type : string) (db : Db)
    : result (unit * Db) :=
  let now := clk 0%nat in
  Ok (tt, db <| db_daemons ::= <[daemon_id :=
    {| d_pid := process_id; d_daemon_type := daemon_type; d_started_at := now;
       d_last_heartbeat := now; d_status := "running" |}]> |>).

Definition coord_daemon_heartbeat (clk : Clock) (daemon_id : string) (db : Db)
    : result (unit * Db) :=
  Ok (tt, db <| db_daemons ::= sql_update_key daemon_id
                                 (λ d, d <| d_last_heartbeat := clk 0%nat |>) |>).

Definition coord_unregister_daemon (daemon_id : string) (db : Db) : result (unit * Db) :=
  Ok (tt, db <| db_daemons ::= delete daemon_id |>).

Definition coord_is_daemon_active (clk : Clock) (threshold_secs : Z) (db : Db) : bool :=
  let cutoff := clk 0%nat - duration_seconds threshold_secs in
  let count := sql_count (λ _ d, (cutoff <? d_last_heartbeat d) && String.eqb (d_status d) "running")
                 (db_daemons db) in
  (0 <? count)%nat.

(** ** Properties *)

(** A graceful shutdown hands everything back and reports it: the answer
    lists exactly the tasks whose active lease the agent held; those leases and
    the agent's active worktree leases are released, all others are unchanged;
    the agent ends shut down with no active tasks, so a later heartbeat is
    refused. *)
Theorem graceful_shutdown_spec clk id db :
  digest_fresh db id →
  ∃ tasks db', coord_graceful_shutdown clk id db = Ok (tasks, db')
  ∧ (∀ t, t ∈ tasks ↔ ∃ r, db_task_leases db !! t = Some r ∧ l_agent_id r = id
                           ∧ lease_active r = true)
  ∧ (∀ t, db_task_leases db' !! t =
       (λ r, if String.eqb (l_agent_id r) id && lease_active r then set_status "released" r else r)
         <$> db_task_leases db !! t)
  ∧ (∀ w, db_worktree_leases db' !! w =
       (λ r, if String.eqb (w_agent_id r) id && worktree_active r
             then set_worktree_lease_status "released" r else r) <$> db_worktree_leases db !! w)
  ∧ db_agents db' = alter (λ a, a <| a_status := "shutdown" |> <| a_active_tasks := 0 |>) id
                      (db_agents db)
  ∧ (∀ clk', is_ok (agent_heartbeat clk' id db') = false).
Proof.
  intros Hfresh. unfold coord_graceful_shutdown.
  destruct (capture_ok (clk 0%nat) id None db Hfresh) as [db1 Hcap]. rewrite Hcap. simpl.
  pose proof (capture_agents _ _ _ _ _ Hcap) as (Ha & Hl & Hw & _ & _ & Hq).
  rewrite Hl. eexists _, _. split; [done|].
  match goal with
  | |- context [log_each ?c ?k ?f ?e ?r ?rows ?d] =>
      destruct (log_each_frame c k f e r rows d) as (Hl' & Ha' & Hw' & _);
      set (db2 := log_each c k f e r rows d) in *
  end.
  set (db' := update_agent _ _ _).
  assert (db_agents db' = alter (λ a, a <| a_status := "shutdown" |> <| a_active_tasks := 0 |>) id
                            (db_agents db)) as Hag.
  { unfold db'. simpl. rewrite Ha'. simpl. by rewrite Ha. }
  split_and!; [| | |exact Hag|].
  - intros t. rewrite list_elem_of_fmap. split.
    + intros ([k r] & -> & [Hk Hok]%elem_of_sql_select). simpl. exists r. by bool_to_prop.
    + intros (r & Hr & <- & Hact). exists (t, r). split; [done|]. apply elem_of_sql_select.
      split; [done|]. by rewrite String.eqb_refl, Hact.
  - intros t. change (db_task_leases db') with (db_task_leases db2). rewrite Hl', <-Hl.
    apply lookup_sql_update.
  - intros w. change (db_worktree_leases db') with (db_worktree_leases db2). rewrite Hw', <-Hw.
    apply lookup_sql_update.
  - intros clk'. unfold agent_heartbeat. rewrite Hag.
    destruct (decide (is_Some (db_agents db !! id))) as [[a Hid]|Hno].
    + rewrite lookup_alter_eq, Hid. done.
    + rewrite lookup_alter_eq. apply eq_None_not_Some in Hno. by rewrite Hno.
Qed.

(** The orphan list is exact: an epic is on it when and only when some
    agent works on it that is unregistered or not active, and it is there
    once. *)
Theorem orphaned_working_epics_spec db :
  NoDup (coord_list_orphaned_working_epics db)
  ∧ ∀ e, e ∈ coord_list_orphaned_working_epics db ↔
      ∃ agent_id, is_Some (db_working_epics db !! (agent_id, e))
        ∧ ∀ a, db_agents db !! agent_id = Some a → a_status a ≠ "active".
Proof.
  unfold coord_list_orphaned_working_epics, working_epic_rows. split; [apply NoDup_remove_dups|].
  intros e. rewrite elem_of_remove_dups, list_elem_of_fmap.
  assert (∀ k, orphaned db k = true ↔ ∀ a, db_agents db !! k = Some a → a_status a ≠ "active")
    as Horph.
  { intros k. unfold orphaned. destruct (db_agents db !! k) as [a|]; [|naive_solver].
    rewrite negb_true_iff, String.eqb_neq. naive_solver. }
  split.
  - intros ([[k e'] s] & -> & [Hk Ho]%elem_of_order_by%elem_of_sql_select). simpl in *.
    exists k. split; [by eauto|]. by apply Horph.
  - intros (k & [s Hs] & Ho%Horph). exists ((k, e), s). split; [done|].
    by apply elem_of_order_by, elem_of_sql_select.
Qed.

End coordination.
