(* ===== verification/Cte.v ===== *)
(** * WITH RECURSIVE ... UNION

    SQLite evaluates a recursive common table expression with a queue: the
    initial rows enter it, each row taken out contributes the rows the
    recursive member derives from it, and UNION drops a row that was already
    produced.  [cte] is that loop for one text column over a finite table; a
    row enters the queue once, so one step per distinct row is enough fuel.
    The task store uses it for reachability over dependencies
    (crates/cas-store/src/task_store.rs). *)

From S2P Require Import Prelude.

Section cte.
Context (succ : string → list string).

(** Rows the recursive member derives from [x] that are new *)
Definition fresh (seen : list string) (x : string) : list string :=
  filter (λ y, y ∉ seen) (remove_dups (succ x)).

Fixpoint cte_loop (fuel : nat) (queue seen : list string) : list string :=
  match fuel, queue with
  | S fuel, x :: queue => let new := fresh seen x in cte_loop fuel (queue ++ new) (seen ++ new)
  | _, _ => seen
  end.

Definition cte (fuel : nat) (init : list string) : list string :=
  let init := remove_dups init in cte_loop fuel init init.

Definition edge (x y : string) : Prop := y ∈ succ x.

(** The rows produced are reached from the initial ones *)
Definition reached (init : list string) (y : string) : Prop := ∃ x, x ∈ init ∧ rtc edge x y.

Lemma elem_of_fresh seen x y : y ∈ fresh seen x ↔ edge x y ∧ y ∉ seen.
Proof. unfold fresh, edge. rewrite list_elem_of_filter, elem_of_remove_dups. tauto. Qed.

Lemma NoDup_fresh seen x : NoDup (fresh seen x).
Proof. apply NoDup_filter, NoDup_remove_dups. Qed.

Lemma reached_step init x y : reached init x → edge x y → reached init y.
Proof. intros (z & Hz & Hzx) Hxy. exists z. split; [done|]. by eapply rtc_r. Qed.

(** The loop's invariant: the rows so far are distinct, they are the processed
    ones and the queue, the processed ones have all their successors, and all
    are reached. *)
Record cte_inv (init done queue seen : list string) : Prop := {
  inv_seen : seen ≡ₚ done ++ queue;
  inv_nodup : NoDup seen;
  inv_closed : ∀ x y, x ∈ done → edge x y → y ∈ seen;
  inv_reached : ∀ x, x ∈ seen → reached init x;
  inv_init : ∀ x, x ∈ init → x ∈ seen;
}.

Lemma cte_inv_init init : cte_inv init [] (remove_dups init) (remove_dups init).
Proof.
  split.
  - done.
  - apply NoDup_remove_dups.
  - intros x y Hx. by apply elem_of_nil in Hx.
  - intros x Hx. rewrite elem_of_remove_dups in Hx. exists x. split; [done|]. apply rtc_refl.
  - intros x. by rewrite elem_of_remove_dups.
Qed.

Lemma cte_inv_step init done x queue seen :
  cte_inv init done (x :: queue) seen →
  cte_inv init (done ++ [x]) (queue ++ fresh seen x) (seen ++ fresh seen x).
Proof.
  intros [Hseen Hnd Hcl Hre Hin]. assert (x ∈ seen) as Hx by (rewrite Hseen; set_solver). split.
  - generalize (fresh seen x). intros new. rewrite Hseen. by rewrite <-!app_assoc.
  - apply NoDup_app. split_and!; [done| |apply NoDup_fresh].
    intros y Hy [_ Hno]%elem_of_fresh. by apply Hno.
  - intros z y Hz Hzy. apply elem_of_app. destruct (decide (y ∈ seen)); [by left|].
    apply elem_of_app in Hz as [Hz| ->%list_elem_of_singleton]; [left; by eapply Hcl|].
    right. by apply elem_of_fresh.
  - intros y [Hy|[Hxy _]%elem_of_fresh]%elem_of_app; [by apply Hre|].
    eapply reached_step; [|done]. by apply Hre.
  - intros y Hy. apply elem_of_app. left. by apply Hin.
Qed.

(** All rows a table can produce *)
Context (rows : list string).
Hypothesis succ_rows : ∀ x y, edge x y → y ∈ rows.

Lemma cte_loop_correct init fuel : ∀ done queue seen,
  cte_inv init done queue seen →
  (length (remove_dups init) + length rows ≤ fuel + length done)%nat →
  ∀ y, y ∈ cte_loop fuel queue seen ↔ reached init y.
Proof.
  assert (∀ done queue seen, cte_inv init done queue seen →
    (length seen ≤ length (remove_dups init) + length rows)%nat) as Hbound.
  { intros done queue seen [_ Hnd _ Hre _]. rewrite <-length_app.
    apply submseteq_length, NoDup_submseteq; [done|]. intros x Hx.
    destruct (Hre x Hx) as (z & Hz & Hzx). apply elem_of_app.
    apply rtc_inv_r in Hzx as [<-|(w & _ & Hwx)].
    - left. by apply elem_of_remove_dups.
    - right. by eapply succ_rows. }
  assert (∀ done seen, cte_inv init done [] seen → ∀ y, y ∈ seen ↔ reached init y) as Hdone.
  { intros done seen [Hseen _ Hcl Hre Hin] y. rewrite app_nil_r in Hseen. split; [apply Hre|].
    intros (x & Hx & Hxy). apply Hin in Hx. induction Hxy as [|x z y Hxz _ IH]; [done|].
    apply IH, (Hcl x z); [|done]. by rewrite <-Hseen. }
  induction fuel as [|fuel IH]; intros done [|x queue] seen Hinv Hfuel y; simpl.
  - by eapply Hdone.
  - exfalso. pose proof (Hbound _ _ _ Hinv) as Hb. destruct Hinv as [Hseen _ _ _ _].
    rewrite Hseen, length_app in Hb. simpl in Hb. lia.
  - by eapply Hdone.
  - eapply IH; [by apply cte_inv_step|]. rewrite length_app. simpl. lia.
Qed.

(** Enough fuel computes exactly the reached rows. *)
Lemma cte_correct init fuel y :
  (length (remove_dups init) + length rows ≤ fuel)%nat →
  y ∈ cte fuel init ↔ reached init y.
Proof.
  intros Hfuel. unfold cte. eapply cte_loop_correct; [apply cte_inv_init|]. simpl. lia.
Qed.

Lemma cte_loop_NoDup fuel : ∀ init done queue seen,
  cte_inv init done queue seen → NoDup (cte_loop fuel queue seen).
Proof.
  induction fuel as [|fuel IH]; intros init done [|x queue] seen Hinv; simpl;
    try apply (inv_nodup _ _ _ _ Hinv).
  eapply IH. by apply cte_inv_step.
Qed.

Lemma cte_NoDup init fuel : NoDup (cte fuel init).
Proof. eapply cte_loop_NoDup, cte_inv_init. Qed.

End cte.
