(* ===== verification/TaskRows.v ===== *)
(** * Task rows ([crates/cas-store/src/task_store.rs], [crates/cas-types/src/task.rs])

    The columns of a task: what is written, what is read back, and the
    statements on the [tasks] table with their triggers, which keep one
    revision counter per task id.  The map [db_tasks] holds a row as the typed
    values of its columns; every column but [proof_targets] and the JSON
    values in [deliverables] reads back as it was written, and the scope is not
    stored. *)

From S2P Require Import Prelude Enums TaskTypes Db NoteMarkers.

Section task_rows.
Context {host : Host}.

(** ** Proof targets *)
Definition proof_target_entries (value : string) : list string :=
  let value := trim value in
  let csv := split_char "," value in
  if starts_with "[" value
  then match json_strings_prefix value with
       | Some (entries, rest) =>
           let rest := trim rest in
           if str_is_empty rest then entries
           else match strip_prefix "," rest with
                | Some tail => entries ++ split_char "," tail
                | None => csv
                end
       | None => csv
       end
  else csv.

(** One entry: trimmed, unquoted when it is a JSON string *)
Definition proof_target (entry : string) : string :=
  let target := trim entry in trim (default target (json_parse_string target)).

Definition normalize_proof_targets (targets : list string) : list string :=
  let entries :=
    match targets with
    | first :: _ => if starts_with "[" (trim first)
                    then proof_target_entries (String.concat "," targets) else targets
    | [] => targets
    end in
  foldl (λ normalized entry,
           let target := proof_target entry in
           if negb (str_is_empty target) && negb (bool_decide (target ∈ normalized))
           then normalized ++ [target] else normalized) [] entries.

Definition parse_proof_targets (value : option string) : list string :=
  normalize_proof_targets (proof_target_entries (default EmptyString value)).

(** ** Writing and reading a row *)

(** [task_from_row]: tasks of a project database have the project scope; the
    proof targets column is a JSON array of the written targets, which the
    parser normalizes again; the deliverables column is JSON. *)
Definition task_from_row (id : string) (row : Task) : Task :=
  row <| t_id := id |> <| t_scope := Scope_Project |> <| t_proof_targets ::= normalize_proof_targets |>
      <| t_deliverables ::= read_deliverables |>.

(** The columns of the INSERT *)
Definition inserted_row (task : Task) : Task :=
  task <| t_scope := Scope_Project |>
       <| t_notes ::= λ notes, neutralize_new_markers notes None |>
       <| t_proof_targets ::= normalize_proof_targets |>.

(** The columns of an UPDATE of a whole task: all but the id and the creation
    time, the origin only when the task has one *)
Definition updated_task_row (task : Task) (notes : string) (now : Z)
    (deliverables : TaskDeliverables) (outcome : option TaskTerminalOutcome) (old : Task) : Task :=
  task <| t_id := t_id old |> <| t_scope := Scope_Project |>
       <| t_notes := notes |> <| t_updated_at := now |>
       <| t_created_at := t_created_at old |>
       <| t_deliverables := deliverables |> <| t_terminal_outcome := outcome |>
       <| t_origin_project := coalesce (t_origin_project task) (t_origin_project old) |>
       <| t_proof_targets ::= normalize_proof_targets |>.

(** The notes an UPDATE of a whole task writes: the previous ones are read
    only when the new ones have a reserved line. *)
Definition safe_notes (db : Db) (task : Task) : string :=
  let prior :=
    if existsb is_reserved_line (lines (t_notes task))
    then t_notes <$> db_tasks db !! t_id task else None in
  neutralize_new_markers (t_notes task) prior.

(** ** Statements on [tasks] *)

(** The triggers after INSERT, UPDATE and DELETE *)
Definition bump_revision (id : string) (present : bool) (db : Db) : Db :=
  db <| db_revisions ::= partial_alter
          (λ o, Some {| rv_revision := match o with Some r => rv_revision r + 1 | None => 1 end;
                        rv_present := present |}) id |>.

Definition insert_task (row : Task) (db : Db) : result Db :=
  match db_tasks db !! t_id row with
  | Some _ => Err (Database "UNIQUE constraint failed: tasks.id")
  | None => Ok (bump_revision (t_id row) true (db <| db_tasks ::= <[t_id row := row]> |>))
  end.

(** UPDATE tasks SET .. WHERE id = ? AND P: the database and the number of rows *)
Definition update_task (id : string) (P : Task → bool) (f : Task → Task) (db : Db) : Db * nat :=
  match db_tasks db !! id with
  | Some row => if P row then (bump_revision id true (db <| db_tasks ::= <[id := f row]> |>), 1%nat)
                else (db, 0%nat)
  | None => (db, 0%nat)
  end.

(** DELETE FROM tasks WHERE id = ?, with the cascade to the execution state *)
Definition delete_task_row (id : string) (db : Db) : Db * nat :=
  match db_tasks db !! id with
  | Some _ => (bump_revision id false
                 (db <| db_tasks ::= delete id |> <| db_exec_states ::= delete id |>), 1%nat)
  | None => (db, 0%nat)
  end.

Definition record_mutation_receipt_with_conn (now : Z) (receipt_id task_id : string) (db : Db)
    : result Db :=
  match db_revisions db !! task_id with
  | Some r =>
      if rv_present r
      then match db_receipts db !! receipt_id with
           | Some _ => Err (Database "UNIQUE constraint failed: task_mutation_receipts.receipt_id")
           | None => Ok (db <| db_receipts ::=
               <[receipt_id := {| rc_entity_id := task_id; rc_revision := rv_revision r;
                                  rc_created_at := now |}]> |>)
           end
      else Err (Other ("task mutation receipt " +:+ receipt_id +:+ " could not bind to " +:+ task_id))
  | None => Err (Other ("task mutation receipt " +:+ receipt_id +:+ " could not bind to " +:+ task_id))
  end.

Definition validate_task_exists_with_conn (task_id : string) (db : Db) : result unit :=
  match db_tasks db !! task_id with
  | Some _ => Ok tt
  | None => Err (TaskNotFound task_id)
  end.

(** [status NOT IN ('closed', 'cancelled')] *)
Definition status_open (t : Task) : bool := negb (Task_is_terminal t).

(** ** Lemmas *)

(** What a statement on [tasks] leaves alone *)
Definition same_but_tasks (db db' : Db) : Prop :=
  db_agents db' = db_agents db ∧ db_task_leases db' = db_task_leases db
  ∧ db_dependencies db' = db_dependencies db ∧ db_external_deps db' = db_external_deps db
  ∧ db_receipts db' = db_receipts db ∧ db_delivery db' = db_delivery db
  ∧ db_history db' = db_history db.

Lemma insert_task_Ok row db db' :
  insert_task row db = Ok db' →
  db_tasks db !! t_id row = None ∧ db_tasks db' = <[t_id row := row]> (db_tasks db)
  ∧ same_but_tasks db db'.
Proof.
  unfold insert_task. destruct (db_tasks db !! t_id row); intros [= <-]. done.
Qed.

Lemma update_task_spec id P f db :
  let db' := (update_task id P f db).1 in
  db_tasks db' = alter (λ row, if P row then f row else row) id (db_tasks db)
  ∧ same_but_tasks db db'
  ∧ (update_task id P f db).2 =
      match db_tasks db !! id with Some row => if P row then 1%nat else 0%nat | None => 0%nat end.
Proof.
  unfold update_task. destruct (db_tasks db !! id) as [row|] eqn:Hrow; cbn zeta;
    [destruct (P row) eqn:HP|]; cbn [fst snd]; (split; [|done]).
  - unfold bump_revision. simpl. apply map_eq. intros k. destruct (decide (k = id)) as [->|].
    + by rewrite lookup_insert_eq, lookup_alter_eq, Hrow; simpl; rewrite HP.
    + by rewrite lookup_insert_ne, lookup_alter_ne.
  - apply map_eq. intros k. destruct (decide (k = id)) as [->|].
    + by rewrite lookup_alter_eq, Hrow; simpl; rewrite HP.
    + by rewrite lookup_alter_ne.
  - apply map_eq. intros k. destruct (decide (k = id)) as [->|].
    + by rewrite lookup_alter_eq, Hrow.
    + by rewrite lookup_alter_ne.
Qed.

Lemma record_receipt_Ok now rid t db db' :
  record_mutation_receipt_with_conn now rid t db = Ok db' →
  db_tasks db' = db_tasks db ∧ db_dependencies db' = db_dependencies db
  ∧ db_revisions db' = db_revisions db ∧ db_task_leases db' = db_task_leases db
  ∧ ∃ r, db_revisions db !! t = Some r ∧ db_receipts db !! rid = None
      ∧ db_receipts db' = <[rid := {| rc_entity_id := t; rc_revision := rv_revision r;
                                      rc_created_at := now |}]> (db_receipts db).
Proof.
  unfold record_mutation_receipt_with_conn. intros H.
  destruct (db_revisions db !! t) as [r|]; [|done]. destruct (rv_present r); [|done].
  destruct (db_receipts db !! rid) eqn:Hr; simplify_eq. split_and!; try done. eauto.
Qed.

End task_rows.
