(* ===== verification/Dispatches.v ===== *)
(** * Verification dispatches ([cas-store/src/verification_store.rs])

    A dispatch asks for one verdict on one proof boundary: it is pending, is
    claimed by a verifier child, and ends resolved, timed out or invalidated.
    A partial unique index allows one pending or claimed dispatch per task.
    [now] is the clock reading of an operation, [random] the u128 of a new id. *)

From S2P Require Import Prelude Logs Enums TaskTypes VerifierText Verifications Agents Db NoteMarkers TaskRows.

(** ** Rows *)
Definition dispatches (db : Db) : gmap string DispatchRow := vt_dispatches (db_verification db).
Definition capabilities (db : Db) : gmap string CapabilityRow := vt_capabilities (db_verification db).
Definition handoffs (db : Db) : gmap string HandoffRow := vt_handoffs (db_verification db).
Definition verifications (db : Db) : gmap string VerificationRow := vt_verifications (db_verification db).
Definition set_dispatches (t : gmap string DispatchRow) (db : Db) : Db :=
  db <| db_verification ::= λ v, v <| vt_dispatches := t |> |>.

Definition conversion_error (index : Z) (e : TypeError) : StoreError :=
  Database ("Conversion error from type Text at index: " +:+ show_z index +:+ ", " +:+ TypeError_to_string e).

Definition parse_dispatch (id : string) (r : DispatchRow) : result VerificationDispatch :=
  match VerificationDispatchState_from_str (ds_state r) with
  | Err error => Err (conversion_error 9 error)
  | Ok state =>
      match VerificationRecoveryAction_from_str (ds_recovery_action r) with
      | Err error => Err (conversion_error 13 error)
      | Ok recovery_action =>
          Ok {| vd_id := id; vd_task_id := ds_task_id r; vd_receipt_id := ds_receipt_id r;
                vd_delivery_transaction_id := ds_delivery_transaction_id r;
                vd_repository := ds_repository_proof r;
                vd_requester_agent_id := ds_requester_agent_id r;
                vd_owner_agent_id := ds_owner_agent_id r;
                vd_verifier_agent_id := ds_verifier_agent_id r;
                vd_capability_id := ds_capability_id r; vd_state := state;
                vd_requested_at := ds_requested_at r; vd_deadline_at := ds_deadline_at r;
                vd_resolved_at := ds_resolved_at r; vd_recovery_action := recovery_action |}
      end
  end.

(** The columns of an INSERT *)
Definition dispatch_row (d : VerificationDispatch) : DispatchRow :=
  {| ds_task_id := vd_task_id d; ds_receipt_id := vd_receipt_id d;
     ds_delivery_transaction_id := vd_delivery_transaction_id d;
     ds_repository_proof := vd_repository d;
     ds_requester_agent_id := vd_requester_agent_id d; ds_owner_agent_id := vd_owner_agent_id d;
     ds_verifier_agent_id := vd_verifier_agent_id d; ds_capability_id := vd_capability_id d;
     ds_state := VerificationDispatchState_to_string (vd_state d);
     ds_requested_at := vd_requested_at d; ds_deadline_at := vd_deadline_at d;
     ds_resolved_at := vd_resolved_at d;
     ds_recovery_action := VerificationRecoveryAction_to_string (vd_recovery_action d) |}.

(** [state IN (..)] *)
Definition state_in (states : list string) (r : DispatchRow) : bool :=
  existsb (String.eqb (ds_state r)) states.
Definition dispatch_active : DispatchRow → bool := state_in ["pending"; "claimed"].
Definition vd_active (d : VerificationDispatch) : bool :=
  match vd_state d with
  | VerificationDispatchState_Pending | VerificationDispatchState_Claimed => true
  | _ => false
  end.

(** The unique constraints: the primary key, and the partial index
    idx_verification_dispatches_active_task. *)
Definition active_dispatch_tasks (t : gmap string DispatchRow) : list string :=
  (λ kr, ds_task_id kr.2) <$> sql_select (λ _ r, dispatch_active r) t.
Definition write_dispatches (t : gmap string DispatchRow) (db : Db) : result Db :=
  if bool_decide (NoDup (active_dispatch_tasks t)) then Ok (set_dispatches t db)
  else Err (Database "UNIQUE constraint failed: verification_dispatches.task_id").
Definition insert_dispatch (id : string) (r : DispatchRow) (db : Db) : result Db :=
  match dispatches db !! id with
  | Some _ => Err (Database "UNIQUE constraint failed: verification_dispatches.id")
  | None => write_dispatches (<[id := r]> (dispatches db)) db
  end.
(** UPDATE verification_dispatches SET f WHERE id = ? AND P: the number of rows *)
Definition update_dispatch (id : string) (P : DispatchRow → bool) (f : DispatchRow → DispatchRow)
    (db : Db) : result (nat * Db) :=
  let P k r := String.eqb k id && P r in
  db' ← write_dispatches (sql_update P f (dispatches db)) db;
  Ok (sql_count P (dispatches db), db').

(** ** Reads *)

(** [ORDER BY requested_at DESC, id DESC] *)
Definition newest_dispatch : string * DispatchRow → string * DispatchRow → comparison :=
  then_by (desc (λ kr, ds_requested_at kr.2)) (λ a b, by_text fst b a).
Definition task_dispatches (task_id : string) (db : Db) : list (string * DispatchRow) :=
  order_by (le_of newest_dispatch)
    (sql_select (λ _ r, String.eqb (ds_task_id r) task_id) (dispatches db)).
Definition latest_dispatch_id (task_id : string) (db : Db) : option string :=
  fst <$> head (task_dispatches task_id db).

Definition get_latest_verification_dispatch_with_conn (task_id : string) (db : Db)
    : result (option VerificationDispatch) :=
  match task_dispatches task_id db with
  | [] => Ok None
  | (id, r) :: _ => Some <$> parse_dispatch id r
  end.

Definition has_active_verification_dispatch (task_id : string) (db : Db) : bool :=
  sql_exists (λ _ r, String.eqb (ds_task_id r) task_id && dispatch_active r) (dispatches db).

Definition get_verification_dispatch_with_conn (dispatch_id : string) (db : Db)
    : result VerificationDispatch :=
  match dispatches db !! dispatch_id with
  | Some r => parse_dispatch dispatch_id r
  | None => Err (NotFound "verification dispatch")
  end.

(** Two task-only cycles on the same repository proof *)
Definition same_task_only_proof (requested current : VerificationDispatch) : bool :=
  is_none (vd_receipt_id requested) && is_none (vd_delivery_transaction_id requested)
  && is_none (vd_receipt_id current) && is_none (vd_delivery_transaction_id current)
  && negb (is_none (vd_repository requested))
  && bool_decide (vd_repository requested = vd_repository current).

Definition resolve_verification_dispatch_for_add_with_conn (dispatch_id : string) (db : Db)
    : result VerificationDispatch :=
  requested ← get_verification_dispatch_with_conn dispatch_id db;
  if negb (bool_decide (vd_state requested = VerificationDispatchState_Invalidated))
  then Ok requested
  else
    current ← get_latest_verification_dispatch_with_conn (vd_task_id requested) db;
    match current with
    | None => Ok requested
    | Some current =>
        if negb (String.eqb (vd_id current) (vd_id requested)) && vd_active current
           && same_task_only_proof requested current
        then Ok current else Ok requested
    end.

(** ** Creation *)
Definition new_dispatch_id (random : Z) : string := "vdispatch-" +:+ hex_text 32 random "".

Definition new_dispatch (random : Z) (task_id requester_agent_id owner_agent_id : string)
    (boundary : VerificationProofBoundary) (deadline_at now : Z) : VerificationDispatch :=
  {| vd_id := new_dispatch_id random; vd_task_id := task_id;
     vd_receipt_id := pb_receipt_id boundary;
     vd_delivery_transaction_id := pb_delivery_transaction_id boundary;
     vd_repository := pb_repository boundary; vd_requester_agent_id := requester_agent_id;
     vd_owner_agent_id := owner_agent_id; vd_verifier_agent_id := None;
     vd_capability_id := None; vd_state := VerificationDispatchState_Pending;
     vd_requested_at := now; vd_deadline_at := deadline_at; vd_resolved_at := None;
     vd_recovery_action := VerificationRecoveryAction_SupervisorRedispatchOrDirect |}.

(** The active dispatch is the one asked for. *)
Definition same_request (requester_agent_id owner_agent_id : string)
    (boundary : VerificationProofBoundary) (existing : VerificationDispatch) : bool :=
  String.eqb (vd_requester_agent_id existing) requester_agent_id
  && String.eqb (vd_owner_agent_id existing) owner_agent_id
  && bool_decide (vd_receipt_id existing = pb_receipt_id boundary)
  && bool_decide (vd_delivery_transaction_id existing = pb_delivery_transaction_id boundary)
  && bool_decide (vd_repository existing = pb_repository boundary).

Definition create_verification_dispatch_bound_in_transaction (random : Z)
    (task_id requester_agent_id owner_agent_id : string) (boundary : VerificationProofBoundary)
    (deadline_at : Z) (supervisor_recovery : bool) (now : Z) (db : Db)
    : result (VerificationDispatch * Db) :=
  existing ← get_latest_verification_dispatch_with_conn task_id db;
  match option_filter vd_active existing with
  | Some existing =>
      if same_request requester_agent_id owner_agent_id boundary existing then Ok (existing, db)
      else Err (VerificationDispatchConflict (vd_id existing))
  | None =>
      match option_filter (λ existing, bool_decide (vd_state existing = VerificationDispatchState_TimedOut)
                                       && negb supervisor_recovery) existing with
      | Some existing =>
          Err (Parse ("verification dispatch " +:+ vd_id existing +:+
                      " timed out; registered-supervisor recovery must name it"))
      | None =>
          let dispatch := new_dispatch random task_id requester_agent_id owner_agent_id boundary
                            deadline_at now in
          db ← insert_dispatch (vd_id dispatch) (dispatch_row dispatch) db;
          Ok (dispatch, db)
      end
  end.
Definition create_verification_dispatch_bound := create_verification_dispatch_bound_in_transaction.
Definition create_verification_dispatch_bound_with_conn :=
  create_verification_dispatch_bound_in_transaction.
Definition create_verification_dispatch (random : Z)
    (task_id requester_agent_id owner_agent_id : string) (deadline_at now : Z) (db : Db)
    : result (VerificationDispatch * Db) :=
  create_verification_dispatch_bound random task_id requester_agent_id owner_agent_id
    boundary_task deadline_at false now db.

(** ** Claim and resolution *)

(** UPDATE .. SET verifier_agent_id, capability_id, state = 'claimed' WHERE
    state = 'pending' AND the owner AND a deadline ahead *)
Definition claim_dispatch (dispatch_id owner_agent_id verifier_agent_id capability_id : string)
    (now : Z) (db : Db) : result (nat * Db) :=
  update_dispatch dispatch_id
    (λ r, String.eqb (ds_owner_agent_id r) owner_agent_id && state_in ["pending"] r
          && (now <? ds_deadline_at r))
    (λ r, r <| ds_verifier_agent_id := Some verifier_agent_id |>
            <| ds_capability_id := Some capability_id |> <| ds_state := "claimed" |>) db.

Definition claim_verification_dispatch_bound
    (dispatch_id owner_agent_id verifier_agent_id capability_id : string) (now : Z) (db : Db)
    : result (VerificationDispatch * Db) :=
  '(changed, db) ← claim_dispatch dispatch_id owner_agent_id verifier_agent_id capability_id now db;
  if negb (changed =? 1)%nat
  then Err (Parse "verification dispatch cannot be claimed by this owner/verifier")
  else dispatch ← get_verification_dispatch_with_conn dispatch_id db; Ok (dispatch, db).

Definition claim_verification_dispatch
    (task_id owner_agent_id verifier_agent_id capability_id : string) (now : Z) (db : Db)
    : result (VerificationDispatch * Db) :=
  latest ← get_latest_verification_dispatch_with_conn task_id db;
  dispatch ← ok_or latest (NotFound "verification dispatch");
  claim_verification_dispatch_bound (vd_id dispatch) owner_agent_id verifier_agent_id
    capability_id now db.

Definition SERVER_HANDOFF_ID_PREFIX : string := "vhnd-".

(** A server handoff that this verdict's transaction consumed for the task's
    latest dispatch *)
Definition consumed_server_handoff (id dispatch_id verifier_agent_id : string) (db : Db) : bool :=
  match handoffs db !! id, capabilities db !! id with
  | Some h, Some c =>
      bool_decide (cp_dispatch_id c = Some dispatch_id)
      && bool_decide (cp_verifier_agent_id c = Some verifier_agent_id)
      && negb (is_none (cp_consumed_at c)) && String.eqb (hf_state h) "consumed"
      && bool_decide (hf_verifier_agent_id h = Some verifier_agent_id)
      && negb (is_none (hf_consumed_at h))
  | _, _ => false
  end.
Definition consumed_current_server (capability_id : option string) (dispatch : VerificationDispatch)
    (verifier_agent_id : string) (db : Db) : result bool :=
  match option_filter (starts_with SERVER_HANDOFF_ID_PREFIX) capability_id with
  | None => Ok false
  | Some id =>
      if consumed_server_handoff id (vd_id dispatch) verifier_agent_id db then
        current ← get_latest_verification_dispatch_with_conn (vd_task_id dispatch) db;
        Ok (match current with Some current => String.eqb (vd_id current) (vd_id dispatch) | None => false end)
      else Ok false
  end.

Definition resolution_authorized (dispatch : VerificationDispatch) (verifier_agent_id : string)
    (capability_id : option string) (supervisor_direct consumed_current : bool) (now : Z) : bool :=
  match capability_id with
  | Some capability_id =>
      bool_decide (vd_state dispatch = VerificationDispatchState_Claimed)
      && ((now <? vd_deadline_at dispatch) || consumed_current)
      && bool_decide (vd_verifier_agent_id dispatch = Some verifier_agent_id)
      && bool_decide (vd_capability_id dispatch = Some capability_id)
  | None =>
      supervisor_direct
      && (vd_active dispatch || bool_decide (vd_state dispatch = VerificationDispatchState_TimedOut))
  end.

Definition resolve_verification_dispatch_with_conn (dispatch_id verifier_agent_id : string)
    (capability_id : option string) (supervisor_direct : bool) (now : Z) (db : Db)
    : result (option VerificationDispatch * Db) :=
  dispatch ← get_verification_dispatch_with_conn dispatch_id db;
  consumed ← consumed_current_server capability_id dispatch verifier_agent_id db;
  if negb (resolution_authorized dispatch verifier_agent_id capability_id supervisor_direct consumed now)
  then Err (Parse "verification dispatch is owned by another verifier")
  else
    '(changed, db) ← update_dispatch (vd_id dispatch) (state_in ["pending"; "claimed"; "timed_out"])
                       (λ r, r <| ds_state := "resolved" |> <| ds_resolved_at := Some now |>) db;
    if negb (changed =? 1)%nat then Err (Parse "verification dispatch resolution raced")
    else dispatch ← get_verification_dispatch_with_conn dispatch_id db; Ok (Some dispatch, db).

(** ** Deadlines *)
Definition is_latest_dispatch (db : Db) (id : string) (r : DispatchRow) : bool :=
  bool_decide (latest_dispatch_id (ds_task_id r) db = Some id).

Definition get_all (ids : list string) (db : Db) : result (list VerificationDispatch) :=
  foldr (λ id acc, d ← get_verification_dispatch_with_conn id db; (d ::.) <$> acc) (Ok []) ids.

Definition expired_verification_dispatches (since now limit : Z) (db : Db)
    : result (list VerificationDispatch) :=
  let rows := sql_select (λ id r, state_in ["pending"; "claimed"; "timed_out"] r
                && (since <? ds_deadline_at r) && (ds_deadline_at r <=? now)
                && is_latest_dispatch db id r) (dispatches db) in
  get_all (fst <$> sql_limit (as_i64 limit)
             (order_by (le_of (then_by (asc (λ kr, ds_deadline_at kr.2)) (by_text fst))) rows)) db.

Definition timeout_verification_dispatch (task_id : string) (now : Z) (db : Db)
    : result (option VerificationDispatch * Db) :=
  let due r := dispatch_active r && (ds_deadline_at r <=? now) in
  match head (order_by (le_of newest_dispatch)
                (sql_select (λ _ r, String.eqb (ds_task_id r) task_id && due r) (dispatches db))) with
  | None => Ok (None, db)
  | Some (dispatch_id, _) =>
      '(changed, db) ← update_dispatch dispatch_id (λ r, String.eqb (ds_task_id r) task_id && due r)
                         (λ r, r <| ds_state := "timed_out" |> <| ds_resolved_at := Some now |>) db;
      if negb (changed =? 1)%nat then Err (Parse "verification dispatch timeout selection raced")
      else timed_out ← get_verification_dispatch_with_conn dispatch_id db; Ok (Some timed_out, db)
  end.

Definition extend_verification_dispatch_deadline (dispatch_id : string) (now extend_to hard_cap : Z)
    (db : Db) : result (option VerificationDispatch * Db) :=
  dispatch ← get_verification_dispatch_with_conn dispatch_id db;
  let deadline := Z.min extend_to (vd_requested_at dispatch + hard_cap) in
  if negb (vd_active dispatch) || (deadline <=? now) || (deadline <=? vd_deadline_at dispatch)
  then Ok (None, db)
  else
    '(changed, db) ← update_dispatch (vd_id dispatch)
                       (λ r, dispatch_active r && (ds_deadline_at r =? vd_deadline_at dispatch))
                       (λ r, r <| ds_deadline_at := deadline |>) db;
    if (changed =? 1)%nat
    then extended ← get_verification_dispatch_with_conn dispatch_id db; Ok (Some extended, db)
    else Ok (None, db).

(** ** Invalidation *)
Definition invalidate_verification_dispatch_for_new_cycle_with_conn (dispatch_id : string)
    (now : Z) (db : Db) : result (VerificationDispatch * Db) :=
  dispatch ← get_verification_dispatch_with_conn dispatch_id db;
  latest ← get_latest_verification_dispatch_with_conn (vd_task_id dispatch) db;
  latest ← ok_or latest (NotFound "latest verification dispatch");
  if negb (String.eqb (vd_id latest) (vd_id dispatch))
  then Err (Parse "verification proof-cycle invalidation no longer names the latest task dispatch")
  else
    match vd_state dispatch with
    | VerificationDispatchState_Resolved | VerificationDispatchState_TimedOut =>
        '(changed, db) ← update_dispatch (vd_id dispatch) (state_in ["resolved"; "timed_out"])
                           (λ r, r <| ds_state := "invalidated" |> <| ds_resolved_at := Some now |>) db;
        if negb (changed =? 1)%nat then Err (Parse "verification proof-cycle invalidation raced")
        else dispatch ← get_verification_dispatch_with_conn dispatch_id db; Ok (dispatch, db)
    | _ => Ok (dispatch, db)
    end.

Definition invalidate_verification_dispatch_for_new_cycle (task_id : string) (now : Z) (db : Db)
    : result (option VerificationDispatch * Db) :=
  latest ← get_latest_verification_dispatch_with_conn task_id db;
  match latest with
  | None => Ok (None, db)
  | Some dispatch =>
      '(dispatch, db) ← invalidate_verification_dispatch_for_new_cycle_with_conn (vd_id dispatch) now db;
      Ok (Some dispatch, db)
  end.

(** UPDATE verification_capabilities SET consumed_at = COALESCE(consumed_at, now),
    and of the handoffs that are still pending or bound *)
Definition consume_capabilities (P : string → CapabilityRow → bool) (now : Z) (db : Db) : Db :=
  db <| db_verification ::= λ v, v <| vt_capabilities ::=
          sql_update P (λ c, c <| cp_consumed_at ::= λ o, coalesce o (Some now) |>) |> |>.
Definition consume_handoffs (P : string → bool) (now : Z) (db : Db) : Db :=
  db <| db_verification ::= λ v, v <| vt_handoffs ::=
          sql_update (λ k h, P k && (String.eqb (hf_state h) "pending" || String.eqb (hf_state h) "bound"))
            (λ h, h <| hf_state := "consumed" |>
                    <| hf_consumed_at ::= λ o, coalesce o (Some now) |>) |> |>.

Definition head_or_unbound (d : VerificationDispatch) : string :=
  match vd_repository d with Some proof => rp_head_commit proof | None => "unbound" end.

Definition invalidate_verification_dispatch_for_repository_drift (dispatch_id : string) (now : Z)
    (db : Db) : result (VerificationDispatch * Db) :=
  dispatch ← get_verification_dispatch_with_conn dispatch_id db;
  latest ← get_latest_verification_dispatch_with_conn (vd_task_id dispatch) db;
  latest ← ok_or latest (NotFound "latest verification dispatch");
  if negb (String.eqb (vd_id latest) (vd_id dispatch)) || negb (is_none (vd_receipt_id dispatch))
     || negb (is_none (vd_delivery_transaction_id dispatch)) || is_none (vd_repository dispatch)
  then Err (Parse ("repository proof invalidation requires the latest task-only repository dispatch (named "
                   +:+ vd_id dispatch +:+ " bound head " +:+ head_or_unbound dispatch +:+ "; latest "
                   +:+ vd_id latest +:+ " bound head " +:+ head_or_unbound latest +:+ ")"))
  else if bool_decide (vd_state dispatch = VerificationDispatchState_Invalidated)
  then Ok (dispatch, db)
  else
    let db := match vd_capability_id dispatch with
              | Some capability_id =>
                  consume_handoffs (λ k, String.eqb k capability_id) now
                    (consume_capabilities (λ k _, String.eqb k capability_id) now db)
              | None => db
              end in
    '(changed, db) ← update_dispatch (vd_id dispatch) (state_in ["pending"; "claimed"; "resolved"; "timed_out"])
                       (λ r, r <| ds_state := "invalidated" |> <| ds_resolved_at := Some now |>) db;
    if negb (changed =? 1)%nat then Err (Parse "repository proof invalidation raced")
    else
      let '(db, _) := update_task (vd_task_id dispatch) (λ _, true)
                        (λ t, t <| t_pending_verification := false |> <| t_updated_at := now |>) db in
      invalidated ← get_verification_dispatch_with_conn dispatch_id db;
      Ok (invalidated, db).

(** ** Adoption of the dispatches of a dead supervisor *)

(** [trim(s) != ''] of SQLite, which trims spaces *)
Fixpoint blank_text (s : string) : bool :=
  match s with EmptyString => true | String " " s => blank_text s | _ => false end.

(** The machine and factory session of a live supervisor of this machine *)
Definition adopter (supervisor_id local_machine : string) (db : Db) : option (string * string) :=
  a ← db_agents db !! supervisor_id;
  machine ← a_machine_id a;
  session ← a_factory_session a;
  if String.eqb (a_role a) "supervisor" && status_live (a_status a)
     && String.eqb machine local_machine && negb (blank_text session)
  then Some (machine, session) else None.

(** The open dispatches of others that wait for a first verdict *)
Definition orphan_candidates (supervisor_id : string) (db : Db) : list string :=
  fst <$> sql_select (λ id d,
    state_in ["pending"; "claimed"; "timed_out"] d
    && match db_tasks db !! ds_task_id d with
       | Some t => match t_status t with
                   | TaskStatus_InProgress | TaskStatus_AwaitingMerge | TaskStatus_Blocked => true
                   | _ => false
                   end
       | None => false
       end
    && negb (String.eqb (ds_owner_agent_id d) supervisor_id) && is_latest_dispatch db id d
    && negb (sql_exists (λ _ v, bool_decide (vr_dispatch_id v = Some id)) (verifications db)))
    (dispatches db).

(** The registered owner is one of the agents found dead, unchanged since. *)
Definition owner_found_dead (machine session owner : string) (a : AgentRow) (dead_owners : list Agent) : bool :=
  String.eqb (a_role a) "supervisor" && bool_decide (a_machine_id a = Some machine)
  && bool_decide (a_factory_session a = Some session)
  && existsb (λ agent,
       String.eqb (ag_id agent) owner && bool_decide (ag_machine_id agent = Some machine)
       && bool_decide (ag_factory_session agent = Some session)
       && String.eqb (AgentStatus_to_string (ag_status agent)) (a_status a)
       && bool_decide (ag_pid agent = a_pid a)
       && bool_decide (as_i64 <$> ag_pid_starttime agent = a_pid_starttime a)) dead_owners.

(** An owner that is no longer registered left a retirement event. *)
Definition retired_supervisor (machine session owner : string) (db : Db) : bool :=
  let shutdowns := List.filter (λ e, String.eqb (ev_event_type e) "agent_shutdown"
                       && String.eqb (ev_entity_type e) "agent" && String.eqb (ev_entity_id e) owner)
                     (db_events db) in
  match head (order_by (le_of (then_by (desc ev_created_at) (desc ev_id))) shutdowns) with
  | Some e =>
      match ev_metadata e with
      | Some metadata =>
          let retired := json_get "retired_agent" metadata in
          bool_decide (json_as_str (json_get "role" retired) = Some "supervisor")
          && bool_decide (json_as_str (json_get "machine_id" retired) = Some machine)
          && bool_decide (json_as_str (json_get "factory_session" retired) = Some session)
      | None => false
      end
  | None => false
  end.

Definition may_adopt (machine session owner : string) (dead_owners : list Agent) (db : Db) : bool :=
  match db_agents db !! owner with
  | Some a => owner_found_dead machine session owner a dead_owners
  | None => retired_supervisor machine session owner db
  end.

Fixpoint adopt_each (ids : list string) (supervisor_id machine session : string)
    (dead_owners : list Agent) (deadline_at now : Z) (adopted : nat) (db : Db) : result (nat * Db) :=
  match ids with
  | [] => Ok (adopted, db)
  | id :: ids =>
      dispatch ← get_verification_dispatch_with_conn id db;
      if negb (may_adopt machine session (vd_owner_agent_id dispatch) dead_owners db)
      then adopt_each ids supervisor_id machine session dead_owners deadline_at now adopted db
      else
        let db := consume_capabilities (λ _ c, bool_decide (cp_dispatch_id c = Some id)) now db in
        let db := consume_handoffs (λ k, match capabilities db !! k with
                                         | Some c => bool_decide (cp_dispatch_id c = Some id)
                                         | None => false
                                         end) now db in
        '(n, db) ← update_dispatch id (λ _, true)
                     (λ r, r <| ds_owner_agent_id := supervisor_id |> <| ds_state := "pending" |>
                             <| ds_verifier_agent_id := None |> <| ds_capability_id := None |>
                             <| ds_deadline_at := deadline_at |> <| ds_resolved_at := None |>) db;
        adopt_each ids supervisor_id machine session dead_owners deadline_at now (adopted + n) db
  end.

(** [has_tasks]: the table [tasks] exists *)
Definition adopt_orphaned_verification_dispatches (has_tasks : bool) (local_machine supervisor_id : string)
    (dead_owners : list Agent) (deadline_at now : Z) (db : Db) : result (nat * Db) :=
  if negb has_tasks then Ok (0%nat, db)
  else
    match adopter supervisor_id local_machine db with
    | None => Ok (0%nat, db)
    | Some (machine, session) =>
        adopt_each (orphan_candidates supervisor_id db) supervisor_id machine session dead_owners
          deadline_at now 0 db
    end.
