(* ===== verification/Capabilities.v ===== *)
(** * Verifier capabilities and handoffs ([cas-store/src/verification_store.rs])

    A verifier child may give a verdict when it holds a capability: issued to
    a parent for one dispatch, bound once to a distinct child, consumed once.
    A bearer capability ("vcap-") is proved by a token of which only the digest
    is stored; a server handoff ("vhnd-") needs no token, it is bound to the
    one child its parent starts. *)

From S2P Require Import Prelude Enums TaskTypes VerifierText Verifications Agents Db NoteMarkers TaskRows LeaseStore Continuity AgentStore Dispatches.

(** ** Rows *)
Definition capability_from_row (id : string) (r : CapabilityRow) : VerifierCapability :=
  {| vc_id := id; vc_task_id := cp_task_id r; vc_dispatch_id := cp_dispatch_id r;
     vc_issuer_agent_id := cp_issuer_agent_id r; vc_verifier_agent_id := cp_verifier_agent_id r;
     vc_token_hash := cp_token_hash r; vc_issued_at := cp_issued_at r;
     vc_expires_at := cp_expires_at r; vc_bound_at := cp_bound_at r;
     vc_consumed_at := cp_consumed_at r |}.
Definition capability_row (c : VerifierCapability) : CapabilityRow :=
  {| cp_task_id := vc_task_id c; cp_dispatch_id := vc_dispatch_id c;
     cp_issuer_agent_id := vc_issuer_agent_id c; cp_verifier_agent_id := vc_verifier_agent_id c;
     cp_token_hash := vc_token_hash c; cp_issued_at := vc_issued_at c;
     cp_expires_at := vc_expires_at c; cp_bound_at := vc_bound_at c;
     cp_consumed_at := vc_consumed_at c |}.

Definition load_capability_with_conn (id : string) (db : Db) : result VerifierCapability :=
  ok_or (capability_from_row id <$> capabilities db !! id) (NotFound "verifier capability").

Definition set_capabilities (t : gmap string CapabilityRow) (db : Db) : Db :=
  db <| db_verification ::= λ v, v <| vt_capabilities := t |> |>.
Definition set_handoffs (t : gmap string HandoffRow) (db : Db) : Db :=
  db <| db_verification ::= λ v, v <| vt_handoffs := t |> |>.

Definition insert_capability (c : VerifierCapability) (db : Db) : result Db :=
  match capabilities db !! vc_id c with
  | Some _ => Err (Database "UNIQUE constraint failed: verification_capabilities.id")
  | None => Ok (set_capabilities (<[vc_id c := capability_row c]> (capabilities db)) db)
  end.
(** The partial index idx_verification_handoffs_pending_parent allows a parent one pending handoff. *)
Definition insert_handoff (id : string) (h : HandoffRow) (db : Db) : result Db :=
  match handoffs db !! id with
  | Some _ => Err (Database "UNIQUE constraint failed: verification_handoffs.capability_id")
  | None =>
      if String.eqb (hf_state h) "pending"
         && sql_exists (λ _ o, String.eqb (hf_state o) "pending"
                               && String.eqb (hf_issuer_agent_id o) (hf_issuer_agent_id h)) (handoffs db)
      then Err (Database "UNIQUE constraint failed: verification_handoffs.issuer_agent_id")
      else Ok (set_handoffs (<[id := h]> (handoffs db)) db)
  end.
(** UPDATE .. WHERE id = ? AND P, DELETE .. WHERE id = ? AND P: the number of rows *)
Definition update_capability (id : string) (P : CapabilityRow → bool) (f : CapabilityRow → CapabilityRow)
    (db : Db) : nat * Db :=
  let P k c := String.eqb k id && P c in
  (sql_count P (capabilities db), set_capabilities (sql_update P f (capabilities db)) db).
Definition update_handoff (id : string) (P : HandoffRow → bool) (f : HandoffRow → HandoffRow)
    (db : Db) : nat * Db :=
  let P k h := String.eqb k id && P h in
  (sql_count P (handoffs db), set_handoffs (sql_update P f (handoffs db)) db).
Definition delete_handoff (id : string) (P : HandoffRow → bool) (db : Db) : nat * Db :=
  let P k h := String.eqb k id && P h in
  (sql_count P (handoffs db), set_handoffs (sql_delete P (handoffs db)) db).
(** with the cascade to its handoff *)
Definition delete_capability (id : string) (P : CapabilityRow → bool) (db : Db) : nat * Db :=
  let P k c := String.eqb k id && P c in
  let n := sql_count P (capabilities db) in
  (n, (if (n =? 0)%nat then db else set_handoffs (delete id (handoffs db)) db)
        <| db_verification ::= λ v, v <| vt_capabilities ::= sql_delete P |> |>).

(** Not bound and not consumed *)
Definition unbound (c : CapabilityRow) : bool := is_none (cp_verifier_agent_id c) && is_none (cp_consumed_at c).

Section capabilities.
Context {host : Host}.

(** ** Tokens *)
Definition tagged_hash (tag text : string) : string := sha256_hex (tag +:+ String "000" text).
Definition capability_token_hash (token : string) : string := tagged_hash "cas-verifier-capability-v1" token.
Definition verifier_handoff_tool_hash (tool_use_id : string) : string :=
  tagged_hash "cas-verifier-handoff-tool-v1" tool_use_id.
Definition verifier_handoff_secret_hash (secret : string) : string :=
  tagged_hash "cas-verifier-handoff-secret-v1" secret.

Definition is_server_handoff (c : VerifierCapability) : bool := starts_with SERVER_HANDOFF_ID_PREFIX (vc_id c).

(** The differences of two texts of one length, byte by byte *)
Fixpoint byte_diff (diff : N) (left right : string) : N :=
  match left, right with
  | String a l, String b r => byte_diff (N.lor diff (N.lxor (N_of_ascii a) (N_of_ascii b))) l r
  | _, _ => diff
  end.
Definition constant_time_eq (left right : string) : bool :=
  if negb (String.length left =? String.length right)%nat then false
  else (byte_diff 0 left right =? 0)%N.

Fixpoint all_bytes (p : N → bool) (s : string) : bool :=
  match s with EmptyString => true | String c s => p (N_of_ascii c) && all_bytes p s end.

Definition malformed_capability : StoreError := Parse "malformed verifier capability".
Definition capability_id_from_token (token : string) : result string :=
  match split_once "." token with
  | None => Err malformed_capability
  | Some (id, secret) =>
      if negb (starts_with "vcap-" id)
         || negb (all_bytes (λ ch, char_is_ascii_alphanumeric ch || (ch =? 45)%N) id)
         || (String.length secret <? 32)%nat
      then Err malformed_capability else Ok id
  end.

Definition inspect_verifier_capability (token : string) (db : Db) : result VerifierCapability :=
  id ← capability_id_from_token token;
  capability ← load_capability_with_conn id db;
  if negb (constant_time_eq (vc_token_hash capability) (capability_token_hash token))
  then Err (Parse "verifier capability is invalid") else Ok capability.

(** ** Bearer capabilities *)
Definition VERIFIER_CAPABILITY_TTL_MINUTES : Z := 30.
Definition capability_ttl : Z := duration_seconds (VERIFIER_CAPABILITY_TTL_MINUTES * 60).

Definition new_capability (id task_id dispatch_id issuer_agent_id token_hash : string) (issued_at : Z)
    : VerifierCapability :=
  {| vc_id := id; vc_task_id := task_id; vc_dispatch_id := Some dispatch_id;
     vc_issuer_agent_id := issuer_agent_id; vc_verifier_agent_id := None;
     vc_token_hash := token_hash; vc_issued_at := issued_at;
     vc_expires_at := issued_at + capability_ttl; vc_bound_at := None; vc_consumed_at := None |}.

(** [random_id]: the u128 of the id, [random_secret]: the 32 secret bytes as
    one number; the answer is the capability and its token. *)
Definition issue_verifier_capability (clk : Clock) (random_id random_secret : Z)
    (task_id issuer_agent_id : string) (db : Db) : result ((VerifierCapability * string) * Db) :=
  latest ← get_latest_verification_dispatch_with_conn task_id db;
  dispatch ← ok_or (option_filter (λ dispatch,
                 bool_decide (vd_state dispatch = VerificationDispatchState_Pending)
                 && String.eqb (vd_owner_agent_id dispatch) issuer_agent_id
                 && (clk 0%nat <? vd_deadline_at dispatch)) latest)
               (Parse "verifier capability requires an active owned unexpired dispatch");
  let id := "vcap-" +:+ hex_text 32 random_id "" in
  let token := id +:+ "." +:+ hex_text 64 random_secret "" in
  let capability := new_capability id task_id (vd_id dispatch) issuer_agent_id
                      (capability_token_hash token) (clk 1%nat) in
  db ← insert_capability capability db;
  Ok ((capability, token), db).

Definition bind_verifier_capability (clk : Clock) (token verifier_agent_id : string) (db : Db)
    : result (VerifierCapability * Db) :=
  id ← capability_id_from_token token;
  capability ← load_capability_with_conn id db;
  dispatch_id ← ok_or (vc_dispatch_id capability) (Parse "legacy verifier capability has no proof boundary");
  dispatch ← get_verification_dispatch_with_conn dispatch_id db;
  if negb (is_none (vc_consumed_at capability)) || negb (is_none (vc_verifier_agent_id capability))
     || (vc_expires_at capability <=? clk 0%nat)
     || negb (bool_decide (vd_state dispatch = VerificationDispatchState_Pending))
     || negb (String.eqb (vd_owner_agent_id dispatch) (vc_issuer_agent_id capability))
     || (vd_deadline_at dispatch <=? clk 1%nat)
     || negb (constant_time_eq (vc_token_hash capability) (capability_token_hash token))
     || String.eqb verifier_agent_id (vc_issuer_agent_id capability)
  then Err (Parse "verifier capability cannot be bound")
  else
    let bound_at := clk 2%nat in
    let '(changed, db) := update_capability id (λ c, unbound c && (bound_at <? cp_expires_at c))
                            (λ c, c <| cp_verifier_agent_id := Some verifier_agent_id |>
                                    <| cp_bound_at := Some bound_at |>) db in
    if negb (changed =? 1)%nat then Err (Parse "verifier capability binding raced or expired")
    else bound ← load_capability_with_conn id db; Ok (bound, db).

(** UPDATE .. SET consumed_at WHERE consumed_at IS NULL and the same verifier,
    task and a running lifetime *)
Definition mark_consumed (id task_id verifier_agent_id : string) (now : Z) (db : Db) : nat * Db :=
  update_capability id
    (λ c, is_none (cp_consumed_at c) && bool_decide (cp_verifier_agent_id c = Some verifier_agent_id)
          && String.eqb (cp_task_id c) task_id && (now <? cp_expires_at c))
    (λ c, c <| cp_consumed_at := Some now |>) db.

Definition consume_verifier_capability_with_conn (clk : Clock) (token task_id verifier_agent_id : string)
    (db : Db) : result (VerifierCapability * Db) :=
  id ← capability_id_from_token token;
  capability ← load_capability_with_conn id db;
  dispatch_id ← ok_or (vc_dispatch_id capability) (Parse "legacy verifier capability has no proof boundary");
  dispatch ← get_verification_dispatch_with_conn dispatch_id db;
  if negb (String.eqb (vc_task_id capability) task_id)
     || negb (bool_decide (vc_verifier_agent_id capability = Some verifier_agent_id))
     || negb (is_none (vc_consumed_at capability)) || (vc_expires_at capability <=? clk 0%nat)
     || negb (String.eqb (vd_task_id dispatch) task_id)
     || negb (bool_decide (vd_state dispatch = VerificationDispatchState_Claimed))
     || negb (bool_decide (vd_verifier_agent_id dispatch = Some verifier_agent_id))
     || negb (bool_decide (vd_capability_id dispatch = Some (vc_id capability)))
     || (vd_deadline_at dispatch <=? clk 1%nat)
     || negb (constant_time_eq (vc_token_hash capability) (capability_token_hash token))
  then Err (Parse "verifier capability is invalid, expired, consumed, or bound to another task/session")
  else
    let consumed_at := clk 2%nat in
    let '(changed, db) := mark_consumed id task_id verifier_agent_id consumed_at db in
    if negb (changed =? 1)%nat then Err (Parse "verifier capability was already consumed")
    else Ok (capability <| vc_consumed_at := Some consumed_at |>, db).

(** ** Server handoffs *)

(** The handoffs that wait for their child, joined with their capability *)
Definition waiting (db : Db) (P : HandoffRow → CapabilityRow → bool) : list string :=
  fst <$> order_by (le_of (by_text fst))
    (sql_select (λ id h, String.eqb (hf_state h) "pending"
                 && match capabilities db !! id with
                    | Some c => unbound c && P h c
                    | None => false
                    end) (handoffs db)).

(** A spawn that expired without its child is forgotten. *)
Definition forget_expired (id : string) (db : Db) : Db :=
  let '(_, db) := delete_handoff id (λ h, String.eqb (hf_state h) "pending") db in
  let '(_, db) := delete_capability id unbound db in db.

Definition pending_handoff_row (issuer_agent_id tool_hash : string) (now : Z) : HandoffRow :=
  {| hf_issuer_agent_id := issuer_agent_id; hf_verifier_agent_id := None;
     hf_tool_use_id_hash := tool_hash; hf_state := "pending"; hf_created_at := now;
     hf_bound_at := None; hf_consumed_at := None |}.

Definition issue_server_verifier_handoff_with_secret (random : Z)
    (task_id dispatch_id issuer_agent_id tool_use_id secret : string) (now : Z) (db : Db)
    : result (VerifierCapability * Db) :=
  if str_is_empty (trim tool_use_id) || str_is_empty secret
  then Err (Parse "verifier handoff requires hook-local correlation and entropy")
  else
    let db := foldl (λ db id, forget_expired id db) db (waiting db (λ _ c, cp_expires_at c <=? now)) in
    let pending_count := length (waiting db (λ h c, String.eqb (hf_issuer_agent_id h) issuer_agent_id
                                                    && (now <? cp_expires_at c))) in
    if negb (pending_count =? 0)%nat
    then Err (Parse "another task-verifier spawn is already awaiting SubagentStart for this parent; wait for it to bind or for exact failure cleanup/expiry")
    else
      dispatch ← get_verification_dispatch_with_conn dispatch_id db;
      if negb (String.eqb (vd_task_id dispatch) task_id)
         || negb (String.eqb (vd_owner_agent_id dispatch) issuer_agent_id)
         || negb (bool_decide (vd_state dispatch = VerificationDispatchState_Pending))
         || (vd_deadline_at dispatch <=? now)
      then Err (Parse "verifier handoff requires the exact active owned dispatch")
      else
        let capability := new_capability (SERVER_HANDOFF_ID_PREFIX +:+ hex_text 32 random "") task_id
                            (vd_id dispatch) issuer_agent_id (verifier_handoff_secret_hash secret) now in
        db ← insert_capability capability db;
        db ← insert_handoff (vc_id capability)
               (pending_handoff_row issuer_agent_id (verifier_handoff_tool_hash tool_use_id) now) db;
        Ok (capability, db).
(** The 32 random bytes of the secret *)
Definition issue_server_verifier_handoff := issue_server_verifier_handoff_with_secret.

Definition validate_distinct_verifier_child (issuer_agent_id verifier_agent_id : string) : result unit :=
  if str_is_empty (trim issuer_agent_id) || str_is_empty (trim verifier_agent_id)
     || String.eqb issuer_agent_id verifier_agent_id
  then Err (Parse "verifier handoff requires a distinct registered child") else Ok tt.

Definition bind_server_verifier_handoff_with_conn (issuer_agent_id verifier_agent_id : string) (now : Z)
    (db : Db) : result (VerifierCapability * Db) :=
  match waiting db (λ h c, String.eqb (hf_issuer_agent_id h) issuer_agent_id && (now <? cp_expires_at c)) with
  | [id] =>
      capability ← load_capability_with_conn id db;
      if negb (is_server_handoff capability)
         || negb (String.eqb (vc_issuer_agent_id capability) issuer_agent_id)
      then Err (Parse "verifier handoff type or issuer binding is invalid")
      else
        dispatch_id ← ok_or (vc_dispatch_id capability) (Parse "verifier handoff has no exact proof boundary");
        dispatch ← get_verification_dispatch_with_conn dispatch_id db;
        if negb (String.eqb (vd_task_id dispatch) (vc_task_id capability))
           || negb (String.eqb (vd_owner_agent_id dispatch) issuer_agent_id)
           || negb (bool_decide (vd_state dispatch = VerificationDispatchState_Pending))
           || (vd_deadline_at dispatch <=? now)
        then Err (Parse "verifier handoff exact dispatch is not active")
        else
          let '(changed, db) := update_capability (vc_id capability)
                                  (λ c, unbound c && (now <? cp_expires_at c))
                                  (λ c, c <| cp_verifier_agent_id := Some verifier_agent_id |>
                                          <| cp_bound_at := Some now |>) db in
          if negb (changed =? 1)%nat then Err (Parse "verifier handoff binding raced or expired")
          else
            let '(changed, db) := update_handoff (vc_id capability)
                                    (λ h, String.eqb (hf_issuer_agent_id h) issuer_agent_id
                                          && String.eqb (hf_state h) "pending"
                                          && is_none (hf_verifier_agent_id h))
                                    (λ h, h <| hf_verifier_agent_id := Some verifier_agent_id |>
                                            <| hf_state := "bound" |> <| hf_bound_at := Some now |>) db in
            if negb (changed =? 1)%nat then Err (Parse "verifier handoff state binding raced")
            else
              '(claimed, db) ← claim_dispatch (vd_id dispatch) issuer_agent_id verifier_agent_id
                                 (vc_id capability) now db;
              if negb (claimed =? 1)%nat
              then Err (Parse "verifier handoff could not claim its exact dispatch")
              else bound ← load_capability_with_conn (vc_id capability) db; Ok (bound, db)
  | _ => Err (Parse "verifier handoff is missing or ambiguous for this registered parent")
  end.

Definition bind_server_verifier_handoff (issuer_agent_id verifier_agent_id : string) (now : Z) (db : Db)
    : result (VerifierCapability * Db) :=
  _ ← validate_distinct_verifier_child issuer_agent_id verifier_agent_id;
  bind_server_verifier_handoff_with_conn issuer_agent_id verifier_agent_id now db.

(** The child as the hook registers it *)
Definition official_child (issuer_agent_id : string) (child : Agent) : bool :=
  String.eqb (ag_name child) "task-verifier"
  && bool_decide (ag_agent_type child = AgentType_SubAgent)
  && bool_decide (ag_role child = AgentRole_Standard)
  && bool_decide (ag_parent_id child = Some issuer_agent_id)
  && bool_decide (ag_status child = AgentStatus_Active).
Definition live_status (status : string) : bool :=
  match AgentStatus_from_str status with
  | Ok AgentStatus_Active | Ok AgentStatus_Idle => true
  | _ => false
  end.
(** A row under the child's id that is someone else's *)
Definition foreign_identity (issuer_agent_id : string) (a : AgentRow) : bool :=
  negb (bool_decide (result_ok (AgentType_from_str (a_agent_type a)) = Some AgentType_SubAgent))
  || negb (bool_decide (result_ok (AgentRole_from_str (a_role a)) = Some AgentRole_Standard))
  || negb (bool_decide (a_parent_id a = Some issuer_agent_id)).

Definition bind_server_verifier_handoff_and_register_child (clk : Clock) (issuer_agent_id : string)
    (child : Agent) (db : Db) : result (VerifierCapability * Db) :=
  _ ← validate_distinct_verifier_child issuer_agent_id (ag_id child);
  if negb (official_child issuer_agent_id child)
  then Err (Parse "verifier handoff requires the exact official task-verifier child identity")
  else if negb (match db_agents db !! issuer_agent_id with Some a => live_status (a_status a) | None => false end)
  then Err (Parse "verifier handoff issuer is not an active registered parent")
  else if match db_agents db !! ag_id child with Some a => foreign_identity issuer_agent_id a | None => false end
  then Err (Parse "verifier child identity conflicts with an existing registered session")
  else
    '(bound, db) ← bind_server_verifier_handoff_with_conn issuer_agent_id (ag_id child) (clk 0%nat) db;
    db ← register_agent_with_conn (λ k, clk (S k)) child db;
    Ok (bound, db).

Definition cancel_unbound_server_verifier_handoff (issuer_agent_id tool_use_id : string) (db : Db)
    : result (bool * Db) :=
  if str_is_empty (trim issuer_agent_id) || str_is_empty (trim tool_use_id) then Ok (false, db)
  else
    match waiting db (λ h _, String.eqb (hf_issuer_agent_id h) issuer_agent_id
                             && is_none (hf_verifier_agent_id h)
                             && String.eqb (hf_tool_use_id_hash h) (verifier_handoff_tool_hash tool_use_id)) with
    | [] => Ok (false, db)
    | [id] =>
        let '(handoff_changed, db) :=
          delete_handoff id (λ h, String.eqb (hf_state h) "pending" && is_none (hf_verifier_agent_id h)) db in
        let '(changed, db) :=
          if (handoff_changed =? 1)%nat then delete_capability id unbound db else (0%nat, db) in
        Ok ((changed =? 1)%nat, db)
    | _ => Err (Parse "verifier handoff cleanup is ambiguous")
    end.

Definition inspect_bound_server_verifier_handoff (task_id verifier_agent_id : string)
    (dispatch_id : option string) (db : Db) : result VerifierCapability :=
  let ids := fst <$> order_by (le_of (by_text fst))
    (sql_select (λ id h, String.eqb (hf_state h) "bound"
       && bool_decide (hf_verifier_agent_id h = Some verifier_agent_id)
       && match capabilities db !! id with
          | Some c => String.eqb (cp_task_id c) task_id
                      && bool_decide (cp_verifier_agent_id c = Some verifier_agent_id)
                      && is_none (cp_consumed_at c)
                      && match dispatch_id with
                         | Some _ => bool_decide (cp_dispatch_id c = dispatch_id)
                         | None => true
                         end
          | None => false
          end) (handoffs db)) in
  match ids with
  | [id] =>
      capability ← load_capability_with_conn id db;
      if negb (is_server_handoff capability) then Err (Parse "bound verifier handoff type is invalid")
      else Ok capability
  | _ => Err (Parse "bound verifier handoff is missing or ambiguous")
  end.

(** The late verdict on an immutable pre-merge proof: the dispatch is still the
    expected one, and the child was bound in time. *)
Definition late_current (expected : option VerificationDispatch) (dispatch : VerificationDispatch)
    (capability : VerifierCapability) : bool :=
  match expected with
  | None => false
  | Some expected =>
      bool_decide (expected = dispatch) && negb (is_none (vd_repository dispatch))
      && match vd_state dispatch with
         | VerificationDispatchState_Claimed | VerificationDispatchState_TimedOut => true
         | _ => false
         end
      && match vc_bound_at capability with
         | Some bound => (vc_issued_at capability <=? bound) && (bound <? vc_expires_at capability)
                         && (bound <? vd_deadline_at dispatch)
         | None => false
         end
  end.

Definition consume_server_handoff_with_conn (capability_id task_id verifier_agent_id : string)
    (expected : option VerificationDispatch) (now : Z) (db : Db) : result (VerifierCapability * Db) :=
  capability ← load_capability_with_conn capability_id db;
  if negb (is_server_handoff capability) then Err (Parse "verifier handoff type is invalid")
  else
    dispatch_id ← ok_or (vc_dispatch_id capability) (Parse "verifier handoff has no exact proof boundary");
    dispatch ← get_verification_dispatch_with_conn dispatch_id db;
    let late := late_current expected dispatch capability in
    superseded ← (if is_none expected then Ok false
                  else if negb late then Ok true
                  else current ← get_latest_verification_dispatch_with_conn task_id db;
                       Ok (match current with
                           | Some current => negb (String.eqb (vd_id current) (vd_id dispatch))
                           | None => true
                           end));
    if superseded : bool then Err (Parse "late verifier dispatch was changed or superseded")
    else
      let handoff_valid := match handoffs db !! vc_id capability with
        | Some h => String.eqb (hf_issuer_agent_id h) (vc_issuer_agent_id capability)
                    && bool_decide (hf_verifier_agent_id h = Some verifier_agent_id)
                    && String.eqb (hf_state h) "bound" && is_none (hf_consumed_at h)
        | None => false
        end in
      if negb (String.eqb (vc_task_id capability) task_id)
         || negb (bool_decide (vc_verifier_agent_id capability = Some verifier_agent_id))
         || negb (is_none (vc_consumed_at capability)) || (vc_expires_at capability <=? now)
         || negb (String.eqb (vd_task_id dispatch) task_id)
         || (negb late && negb (bool_decide (vd_state dispatch = VerificationDispatchState_Claimed)))
         || negb (bool_decide (vd_verifier_agent_id dispatch = Some verifier_agent_id))
         || negb (bool_decide (vd_capability_id dispatch = Some (vc_id capability)))
         || (negb late && (vd_deadline_at dispatch <=? now)) || negb handoff_valid
      then Err (Parse "verifier handoff is invalid, expired, consumed, or bound to another task/session")
      else
        db ← (if late && bool_decide (vd_state dispatch = VerificationDispatchState_TimedOut)
              then snd <$> update_dispatch (vd_id dispatch) (state_in ["timed_out"])
                             (λ r, r <| ds_state := "claimed" |>) db
              else Ok db);
        let '(changed, db) := mark_consumed (vc_id capability) task_id verifier_agent_id now db in
        if negb (changed =? 1)%nat then Err (Parse "verifier handoff was already consumed")
        else
          let '(changed, db) := update_handoff (vc_id capability)
                                  (λ h, bool_decide (hf_verifier_agent_id h = Some verifier_agent_id)
                                        && String.eqb (hf_state h) "bound" && is_none (hf_consumed_at h))
                                  (λ h, h <| hf_state := "consumed" |> <| hf_consumed_at := Some now |>) db in
          if negb (changed =? 1)%nat then Err (Parse "verifier handoff audit consumption raced")
          else Ok (capability <| vc_consumed_at := Some now |>, db).
Definition consume_server_verifier_handoff_with_conn (capability_id task_id verifier_agent_id : string)
    (now : Z) (db : Db) : result (VerifierCapability * Db) :=
  consume_server_handoff_with_conn capability_id task_id verifier_agent_id None now db.
(** [autocommit]: the connection is in no transaction *)
Definition consume_current_premerge_verifier_handoff_with_conn (autocommit : bool)
    (capability_id task_id verifier_agent_id : string) (expected : VerificationDispatch) (now : Z)
    (db : Db) : result (VerifierCapability * Db) :=
  if autocommit then Err (Parse "late premerge verdict requires an atomic verdict transaction")
  else consume_server_handoff_with_conn capability_id task_id verifier_agent_id (Some expected) now db.
End capabilities.
