(* ===== verification/VerificationStore.v ===== *)
(** * The verdicts of tasks ([cas-store/src/verification_store.rs])

    Writing, reading and removing verdicts: a verdict of a verifier or of a
    supervisor is stored only with durable authority; the authority and
    identity fields never change; the text a verifier wrote is sanitized. *)

From S2P Require Import Prelude Logs Enums TaskTypes VerifierText Verifications Agents Db NoteMarkers TaskRows Dispatches.

(** ** Rows *)
Definition as_i32 (z : Z) : Z := let m := z mod 2 ^ 32 in if m <? 2 ^ 31 then m else m - 2 ^ 32.
Definition as_u32 (z : Z) : Z := z mod 2 ^ 32.

(** A row read back, without its issues: unreadable vocabularies fall back to the defaults. *)
Definition parse_verification (id : string) (r : VerificationRow) : Verification :=
  {| v_id := id; v_task_id := vr_task_id r; v_agent_id := vr_agent_id r;
     v_verification_type := unwrap_or (VerificationType_from_str (vr_verification_type r))
                              VerificationType_default;
     v_provenance := unwrap_or (VerificationProvenance_from_str (vr_provenance r))
                       VerificationProvenance_default;
     v_capability_id := vr_capability_id r; v_dispatch_id := vr_dispatch_id r;
     v_issuer_agent_id := vr_issuer_agent_id r;
     v_status := from_storage (vr_status r) (vr_status_detail r);
     v_confidence := vr_confidence r; v_summary := vr_summary r; v_issues := [];
     v_files_reviewed := vr_files_reviewed r; v_duration_ms := as_u64 <$> vr_duration_ms r;
     v_duration_source := vr_duration_source r; v_created_at := vr_created_at r |}.
Definition issue_from_row (r : IssueRow) : VerificationIssue :=
  {| vi_triage := ir_triage r; vi_file := ir_file r; vi_line := as_u32 <$> ir_line r;
     vi_severity := unwrap_or (IssueSeverity_from_str (ir_severity r)) IssueSeverity_default;
     vi_category := ir_category r; vi_code := ir_code r; vi_problem := ir_problem r;
     vi_suggestion := ir_suggestion r |}.
Definition load_issues (verification_id : string) (db : Db) : list VerificationIssue :=
  issue_from_row <$> default [] (vt_issues (db_verification db) !! verification_id).
Definition with_issues (db : Db) (v : Verification) : Verification :=
  v <| v_issues := load_issues (v_id v) db |>.

(** The columns of an INSERT *)
Definition verification_row (v : Verification) : VerificationRow :=
  {| vr_task_id := v_task_id v; vr_agent_id := v_agent_id v;
     vr_verification_type := VerificationType_to_string (v_verification_type v);
     vr_provenance := VerificationProvenance_to_string (v_provenance v);
     vr_capability_id := v_capability_id v; vr_dispatch_id := v_dispatch_id v;
     vr_issuer_agent_id := v_issuer_agent_id v; vr_status := storage_status (v_status v);
     vr_status_detail := storage_detail (v_status v); vr_confidence := v_confidence v;
     vr_summary := v_summary v; vr_files_reviewed := v_files_reviewed v;
     vr_duration_ms := as_i64 <$> v_duration_ms v; vr_duration_source := v_duration_source v;
     vr_created_at := v_created_at v |}.
Definition issue_row (i : VerificationIssue) : IssueRow :=
  {| ir_file := vi_file i; ir_line := as_i32 <$> vi_line i;
     ir_severity := IssueSeverity_to_string (vi_severity i); ir_category := vi_category i;
     ir_code := vi_code i; ir_problem := vi_problem i; ir_suggestion := vi_suggestion i;
     ir_triage := vi_triage i |}.

(** ** Authority *)
Definition sanitized_verification_for_write (v : Verification) : Verification :=
  match v_provenance v with
  | VerificationProvenance_TaskVerifier | VerificationProvenance_SupervisorDirect =>
      sanitize_verifier_authored_content v
  | _ => v
  end.

Definition no_authority : StoreError := Parse "verification provenance lacks exact durable authority".

(** A live supervisor, and a dispatch of the task that is not invalidated *)
Definition supervisor_authority (agent_id dispatch_id task_id : string) (allow_resolved : bool) (db : Db) : bool :=
  match db_agents db !! agent_id, dispatches db !! dispatch_id with
  | Some a, Some d =>
      String.eqb (a_role a) "supervisor" && status_live (a_status a)
      && String.eqb (ds_task_id d) task_id
      && state_in ["pending"; "claimed"; "timed_out"; "resolved"] d
      && (allow_resolved || negb (String.eqb (ds_state d) "resolved"))
  | _, _ => false
  end.

(** A consumed capability of a live issuer, for a dispatch it claims *)
Definition verifier_authority (capability_id task_id dispatch_id issuer_id agent_id : string)
    (allow_resolved : bool) (db : Db) : bool :=
  match capabilities db !! capability_id, dispatches db !! dispatch_id with
  | Some c, Some d =>
      String.eqb (cp_task_id c) task_id && bool_decide (cp_dispatch_id c = Some dispatch_id)
      && String.eqb (cp_issuer_agent_id c) issuer_id
      && bool_decide (cp_verifier_agent_id c = Some agent_id) && negb (is_none (cp_consumed_at c))
      && String.eqb (ds_task_id d) task_id && bool_decide (ds_verifier_agent_id d = Some agent_id)
      && bool_decide (ds_capability_id d = Some capability_id)
      && state_in ["claimed"; "resolved"] d
      && (allow_resolved || negb (String.eqb (ds_state d) "resolved"))
      && match db_agents db !! cp_issuer_agent_id c with
         | Some issuer => status_live (a_status issuer)
         | None => false
         end
  | _, _ => false
  end.

Definition validate_verification_authority_with_conn (v : Verification) (allow_resolved : bool) (db : Db)
    : result unit :=
  match v_provenance v with
  | VerificationProvenance_Legacy =>
      if negb (is_none (v_capability_id v)) || negb (is_none (v_dispatch_id v))
         || negb (is_none (v_issuer_agent_id v))
      then Err no_authority else Ok tt
  | VerificationProvenance_System | VerificationProvenance_PeerAttested => Err no_authority
  | VerificationProvenance_SupervisorDirect =>
      agent_id ← ok_or (v_agent_id v) no_authority;
      issuer_id ← ok_or (v_issuer_agent_id v) no_authority;
      dispatch_id ← ok_or (v_dispatch_id v) no_authority;
      if negb (String.eqb agent_id issuer_id) || negb (is_none (v_capability_id v)) then Err no_authority
      else if supervisor_authority agent_id dispatch_id (v_task_id v) allow_resolved db
      then Ok tt else Err no_authority
  | VerificationProvenance_TaskVerifier =>
      agent_id ← ok_or (v_agent_id v) no_authority;
      issuer_id ← ok_or (v_issuer_agent_id v) no_authority;
      dispatch_id ← ok_or (v_dispatch_id v) no_authority;
      capability_id ← ok_or (v_capability_id v) no_authority;
      if verifier_authority capability_id (v_task_id v) dispatch_id issuer_id agent_id allow_resolved db
      then Ok tt else Err no_authority
  end.

(** ** Writes *)
Definition set_verifications (t : gmap string VerificationRow) (db : Db) : Db :=
  db <| db_verification ::= λ v, v <| vt_verifications := t |> |>.

(** DELETE of the issues of the verdict and INSERT of the new ones *)
Definition save_verification_issues_with_conn (v : Verification) (db : Db) : Db :=
  let v := sanitized_verification_for_write v in
  db <| db_verification ::= λ t, t <| vt_issues ::= <[v_id v := issue_row <$> v_issues v]> |> |>.

Definition insert_verification_with_conn (v : Verification) (db : Db) : result Db :=
  match verifications db !! v_id v with
  | Some _ => Err (Database "UNIQUE constraint failed: verifications.id")
  | None =>
      Ok (save_verification_issues_with_conn v
            (set_verifications (<[v_id v := verification_row v]> (verifications db)) db))
  end.

Definition add_verification_with_conn (v : Verification) (db : Db) : result Db :=
  let v := sanitized_verification_for_write v in
  _ ← validate_verification_authority_with_conn v false db;
  insert_verification_with_conn v db.
Definition VerificationStore_add (v : Verification) (db : Db) : result (unit * Db) :=
  db ← add_verification_with_conn v db; Ok (tt, db).

Definition add_system_verification (v : Verification) (db : Db) : result (unit * Db) :=
  if negb (bool_decide (v_provenance v = VerificationProvenance_System))
  then Err (Parse "internal verification write requires system provenance")
  else db ← insert_verification_with_conn v db; Ok (tt, db).

(** The fields of a verdict that say whose it is *)
Definition same_identity (existing v : Verification) : bool :=
  String.eqb (v_task_id existing) (v_task_id v) && bool_decide (v_agent_id existing = v_agent_id v)
  && bool_decide (v_verification_type existing = v_verification_type v)
  && bool_decide (v_provenance existing = v_provenance v)
  && bool_decide (v_capability_id existing = v_capability_id v)
  && bool_decide (v_dispatch_id existing = v_dispatch_id v)
  && bool_decide (v_issuer_agent_id existing = v_issuer_agent_id v).
Definition immutable_identity : StoreError :=
  Parse "verification authority and identity fields are immutable".

(** The result fields of the UPDATE of a system record *)
Definition set_result (v : Verification) (r : VerificationRow) : VerificationRow :=
  r <| vr_status := storage_status (v_status v) |> <| vr_confidence := v_confidence v |>
    <| vr_summary := v_summary v |> <| vr_files_reviewed := v_files_reviewed v |>
    <| vr_duration_ms := as_i64 <$> v_duration_ms v |>
    <| vr_status_detail := storage_detail (v_status v) |>
    <| vr_duration_source := v_duration_source v |>.

Definition update_system_verification (v : Verification) (db : Db) : result (unit * Db) :=
  if negb (bool_decide (v_provenance v = VerificationProvenance_System))
  then Err (Parse "internal verification update requires system provenance")
  else
    existing ← ok_or (parse_verification (v_id v) <$> verifications db !! v_id v) (NotFound (v_id v));
    if negb (same_identity existing v) then Err immutable_identity
    else Ok (tt, save_verification_issues_with_conn v
                   (set_verifications (sql_update_key (v_id v) (set_result v) (verifications db)) db)).

Definition VerificationStore_update (v : Verification) (db : Db) : result (unit * Db) :=
  let v := sanitized_verification_for_write v in
  existing ← ok_or (parse_verification (v_id v) <$> verifications db !! v_id v) (NotFound (v_id v));
  if negb (same_identity existing v) then Err immutable_identity
  else
    _ ← validate_verification_authority_with_conn v true db;
    Ok (tt, save_verification_issues_with_conn v
              (set_verifications (sql_update_key (v_id v) (λ _, verification_row v) (verifications db)) db)).

(** DELETE FROM verifications WHERE P, with the cascade to the issues *)
Definition delete_verifications (P : string → VerificationRow → bool) (db : Db) : Db :=
  let t := verifications db in
  db <| db_verification ::= λ v, v <| vt_verifications ::= sql_delete P |>
          <| vt_issues ::= sql_delete (λ k _, match t !! k with Some r => P k r | None => false end) |> |>.
Definition VerificationStore_delete (id : string) (db : Db) : result (unit * Db) :=
  match verifications db !! id with
  | Some _ => Ok (tt, delete_verifications (λ k _, String.eqb k id) db)
  | None => Err (NotFound id)
  end.
Definition prune (older_than_days now : Z) (db : Db) : result (nat * Db) :=
  let P (_ : string) r := vr_created_at r <? now - duration_days older_than_days in
  Ok (sql_count P (verifications db), delete_verifications P db).

(** ** Reads *)
Definition newest_verification : string * VerificationRow → string * VerificationRow → comparison :=
  desc (λ kr, vr_created_at kr.2).
Definition select_verifications (P : VerificationRow → bool) (db : Db) : list (string * VerificationRow) :=
  order_by (le_of newest_verification) (sql_select (λ _ r, P r) (verifications db)).
Definition read_verification (db : Db) (kr : string * VerificationRow) : Verification :=
  with_issues db (parse_verification kr.1 kr.2).

Definition VerificationStore_get (id : string) (db : Db) : result Verification :=
  ok_or ((λ r, read_verification db (id, r)) <$> verifications db !! id) (NotFound id).
Definition get_for_task (task_id : string) (db : Db) : list Verification :=
  read_verification db <$> select_verifications (λ r, String.eqb (vr_task_id r) task_id) db.
Definition get_latest_for_task (task_id : string) (db : Db) : option Verification :=
  read_verification db <$> head (select_verifications (λ r, String.eqb (vr_task_id r) task_id) db).
Definition get_latest_for_task_by_type (task_id : string) (verification_type : VerificationType) (db : Db)
    : option Verification :=
  read_verification db <$> head (select_verifications (λ r, String.eqb (vr_task_id r) task_id
    && String.eqb (vr_verification_type r) (VerificationType_to_string verification_type)) db).
Definition verification_list_recent (limit : Z) (db : Db) : list Verification :=
  read_verification db <$> sql_limit (as_i32 limit) (select_verifications (λ _, true) db).

(** The CASE expression of the status query *)
Definition status_text (r : VerificationRow) : string :=
  match vr_status_detail r with
  | Some detail =>
      if String.eqb (vr_status r) "error"
         && (String.eqb detail "pending" || String.eqb detail "supervisor_call") then detail
      else if existsb (String.eqb (vr_status r))
                ["approved"; "rejected"; "skipped"; "pending"; "supervisor_call"]
      then vr_status r else "error"
  | None =>
      if existsb (String.eqb (vr_status r))
           ["approved"; "rejected"; "skipped"; "pending"; "supervisor_call"]
      then vr_status r else "error"
  end.
Definition verification_list_by_status (status : VerificationStatus) (db : Db) : list Verification :=
  read_verification db
    <$> select_verifications (λ r, String.eqb (status_text r) (VerificationStatus_to_string status)) db.

Definition get_verification_for_dispatch (dispatch_id : string) (db : Db) : option Verification :=
  read_verification db
    <$> head (order_by (le_of (then_by newest_verification (λ a b, by_text fst b a)))
                (sql_select (λ _ r, bool_decide (vr_dispatch_id r = Some dispatch_id)) (verifications db))).

(** ** Carrying an approval over, and a peer's approval *)

(** The latest verdict of a dispatch: its id and status *)
Definition latest_verdict (dispatch_id : string) (db : Db) : option (string * string) :=
  (λ kr, (kr.1, vr_status kr.2))
    <$> head (order_by (le_of (then_by newest_verification (λ a b, by_text fst b a)))
                (sql_select (λ _ r, bool_decide (vr_dispatch_id r = Some dispatch_id)) (verifications db))).

(** [generate_id]: 32 bits of the clock and 16 random ones *)
Definition generate_verification_id (nanos random : Z) : string :=
  "ver-" +:+ hex_text 8 (nanos mod 2 ^ 32) (hex_text 4 (random mod 2 ^ 16) "").

(** [random]: of the dispatch id; [verification_id]: what [generate_id] gave *)
Definition rebind_approved_verification_dispatch (random : Z) (verification_id : string)
    (prior_dispatch_id prior_verdict_id requester_agent_id owner_agent_id : string)
    (boundary : VerificationProofBoundary) (receipt : string) (clk : Clock) (db : Db)
    : result ((VerificationDispatch * Verification) * Db) :=
  prior ← get_verification_dispatch_with_conn prior_dispatch_id db;
  latest ← get_latest_verification_dispatch_with_conn (vd_task_id prior) db;
  let verdict := latest_verdict (vd_id prior) db in
  if negb (bool_decide (vd_id <$> latest = Some (vd_id prior)))
     || negb (bool_decide (vd_state prior = VerificationDispatchState_Resolved))
     || negb (is_none (vd_receipt_id prior)) || negb (is_none (vd_delivery_transaction_id prior))
     || is_none (vd_repository prior) || negb (is_none (pb_receipt_id boundary))
     || negb (is_none (pb_delivery_transaction_id boundary)) || is_none (pb_repository boundary)
     || negb (bool_decide (verdict = Some (prior_verdict_id, storage_status VerificationStatus_Approved)))
  then Err (Parse "verdict rebind requires the latest task-only dispatch resolved with this exact approval")
  else
    let now := clk 0%nat in
    '(_, db) ← update_dispatch (vd_id prior) (state_in ["resolved"])
                 (λ r, r <| ds_state := "invalidated" |>) db;
    '(dispatch, db) ← create_verification_dispatch_bound_in_transaction random (vd_task_id prior)
                        requester_agent_id owner_agent_id boundary now false (clk 1%nat) db;
    '(_, db) ← update_dispatch (vd_id dispatch) (λ _, true)
                 (λ r, r <| ds_state := "resolved" |> <| ds_resolved_at := Some now |>) db;
    let dispatch := dispatch <| vd_state := VerificationDispatchState_Resolved |>
                             <| vd_resolved_at := Some now |> in
    let verification := Verification_new verification_id (vd_task_id prior) (clk 2%nat)
      <| v_agent_id := Some owner_agent_id |> <| v_issuer_agent_id := Some requester_agent_id |>
      <| v_provenance := VerificationProvenance_System |> <| v_dispatch_id := Some (vd_id dispatch) |>
      <| v_status := VerificationStatus_Approved |> <| v_summary := receipt |>
      <| v_created_at := now |> in
    db ← insert_verification_with_conn verification db;
    Ok ((dispatch, verification), db).

Definition peer_proof_mismatch : StoreError :=
  Parse "peer pre-merge proof does not match the current delivery cycle".

(** The attestation, the dispatch, the verdict and the task agree. *)
Definition peer_import_consistent (expected_task : Task) (dispatch : VerificationDispatch)
    (verification : Verification) (attestation : PeerPremergeAttestation) : bool :=
  let receipt := pa_receipt attestation in
  bool_decide (pp_status receipt = VerificationStatus_Approved)
  && bool_decide (v_provenance verification = VerificationProvenance_PeerAttested)
  && bool_decide (v_status verification = VerificationStatus_Approved)
  && bool_decide (vd_state dispatch = VerificationDispatchState_Resolved)
  && String.eqb (vd_id dispatch) (pp_dispatch_id receipt)
  && String.eqb (v_id verification) (pp_verdict_id receipt)
  && String.eqb (vd_task_id dispatch) (pp_task_id receipt)
  && String.eqb (v_task_id verification) (pp_task_id receipt)
  && bool_decide (v_dispatch_id verification = Some (vd_id dispatch))
  && bool_decide (v_issuer_agent_id verification = Some (pp_supervisor_id receipt))
  && String.eqb (t_id expected_task) (pp_task_id receipt) && negb (Task_is_terminal expected_task)
  && bool_decide (td_factory_branch_anchor (t_deliverables expected_task) = Some (pp_source_sha receipt))
  && negb (str_is_empty (pa_message_id attestation))
  && negb (str_is_empty (pa_sender_machine_id attestation))
  && negb (str_is_empty (pa_sender_session attestation)).

(** The dispatch as it is inserted: the columns left out are null *)
Definition imported_dispatch_row (d : VerificationDispatch) : DispatchRow :=
  dispatch_row d <| ds_receipt_id := None |> <| ds_delivery_transaction_id := None |>
    <| ds_verifier_agent_id := None |> <| ds_capability_id := None |> <| ds_state := "resolved" |>.

Definition import_peer_premerge_verification (expected_task : Task) (dispatch : VerificationDispatch)
    (verification : Verification) (db : Db) : result (bool * Db) :=
  attestation ← ok_or (proof ← vd_repository dispatch; rp_peer_premerge proof) peer_proof_mismatch;
  if negb (peer_import_consistent expected_task dispatch verification attestation)
  then Err peer_proof_mismatch
  else
    updated ← ok_or (t_updated_at <$> db_tasks db !! t_id expected_task)
                (Database "Query returned no rows");
    if negb (updated =? t_updated_at expected_task) then Err peer_proof_mismatch
    else
      existing ← get_latest_verification_dispatch_with_conn (t_id expected_task) db;
      match existing with
      | Some existing =>
          if bool_decide (existing = dispatch)
             && bool_decide (fst <$> head (sql_select (λ _ r, bool_decide (vr_dispatch_id r = Some (vd_id dispatch))
                               && String.eqb (vr_provenance r) "peer_attested"
                               && String.eqb (vr_status r) "approved") (verifications db))
                             = Some (v_id verification))
          then Ok (false, db) else Err peer_proof_mismatch
      | None =>
          if sql_exists (λ _ r, String.eqb (vr_task_id r) (t_id expected_task)) (verifications db)
          then Err peer_proof_mismatch
          else
            db ← insert_dispatch (vd_id dispatch) (imported_dispatch_row dispatch) db;
            db ← insert_verification_with_conn verification db;
            Ok (true, db)
      end.
