(* ===== verification/Deliveries.v ===== *)
(** * Worker deliveries ([cas-store/src/delivery_store.rs], [cas-types/src/delivery.rs])

    A worker's completion receipt is immutable and its id is a digest of its
    content; the delivery transaction that carries it moves through the states
    of [WorkerDeliveryState]; its events are append-only.  A supervisor's merge
    that precedes the receipt is recorded as an observation. *)

From S2P Require Import Prelude Enums TaskTypes VerifierText Verifications Agents Db NoteMarkers TaskRows Leases LeaseStore Dispatches.

(** ** Values *)
Record WorkerCompletionReceiptInput := mkWorkerCompletionReceiptInput {
  wi_task_id : string;
  wi_worker_agent_id : string;
  wi_repo_selector : string;
  wi_source_branch : string;
  wi_commit_sha : string;
  wi_merge_base_sha : string;
  wi_target_branch : string;
  wi_target_sha : string;
  wi_proof_reference : string;
  wi_scope_summary : string;
  wi_artifact_path : option string;
}.
Record WorkerCompletionReceipt := mkWorkerCompletionReceipt {
  wc_id : string;
  wc_task_id : string;
  wc_worker_agent_id : string;
  wc_worker_name : string;
  wc_repo_selector : string;
  wc_source_branch : string;
  wc_commit_sha : string;
  wc_merge_base_sha : string;
  wc_target_branch : string;
  wc_target_sha : string;
  wc_proof_reference : string;
  wc_scope_summary : string;
  wc_artifact_path : option string;
  wc_created_at : Z;
}.
#[export] Instance WorkerCompletionReceipt_eta : Eta WorkerCompletionReceipt := λ r,
  mkWorkerCompletionReceipt
    (wc_id r) (wc_task_id r) (wc_worker_agent_id r) (wc_worker_name r) (wc_repo_selector r)
    (wc_source_branch r) (wc_commit_sha r) (wc_merge_base_sha r) (wc_target_branch r)
    (wc_target_sha r) (wc_proof_reference r) (wc_scope_summary r) (wc_artifact_path r)
    (wc_created_at r).
#[export] Instance WorkerCompletionReceipt_eq_dec : EqDecision WorkerCompletionReceipt.
Proof. solve_decision. Defined.
Record WorkerDeliveryTransaction := mkWorkerDeliveryTransaction {
  wtx_id : string;
  wtx_receipt_id : string;
  wtx_task_id : string;
  wtx_state : WorkerDeliveryState;
  wtx_supervisor_agent_id : option string;
  wtx_verification_id : option string;
  wtx_merge_commit_sha : option string;
  wtx_last_error_code : option string;
  wtx_last_error_detail : option string;
  wtx_created_at : Z;
  wtx_updated_at : Z;
}.
Record WorkerDeliveryEvent := mkWorkerDeliveryEvent {
  wev_id : string;
  wev_transaction_id : string;
  wev_state : WorkerDeliveryState;
  wev_actor_agent_id : string;
  wev_detail : option string;
  wev_created_at : Z;
}.

(** ** Rows *)
Definition wreceipts (db : Db) : gmap string CompletionReceiptRow := wd_receipts (db_delivery db).
Definition wtransactions (db : Db) : gmap string DeliveryTransactionRow := wd_transactions (db_delivery db).
Definition wevents (db : Db) : list DeliveryEventRow := wd_events (db_delivery db).

Definition parse_state (index : Z) (value : string) : result WorkerDeliveryState :=
  match WorkerDeliveryState_from_str value with
  | Ok state => Ok state
  | Err error => Err (conversion_error index error)
  end.

Definition receipt_from_row (id : string) (r : CompletionReceiptRow) : WorkerCompletionReceipt :=
  {| wc_id := id; wc_task_id := wr_task_id r; wc_worker_agent_id := wr_worker_agent_id r;
     wc_worker_name := wr_worker_name r; wc_repo_selector := wr_repo_selector r;
     wc_source_branch := wr_source_branch r; wc_commit_sha := wr_commit_sha r;
     wc_merge_base_sha := wr_merge_base_sha r; wc_target_branch := wr_target_branch r;
     wc_target_sha := wr_target_sha r; wc_proof_reference := wr_proof_reference r;
     wc_scope_summary := wr_scope_summary r; wc_artifact_path := wr_artifact_path r;
     wc_created_at := wr_created_at r |}.
Definition receipt_row (r : WorkerCompletionReceipt) : CompletionReceiptRow :=
  {| wr_task_id := wc_task_id r; wr_worker_agent_id := wc_worker_agent_id r;
     wr_worker_name := wc_worker_name r; wr_repo_selector := wc_repo_selector r;
     wr_source_branch := wc_source_branch r; wr_commit_sha := wc_commit_sha r;
     wr_merge_base_sha := wc_merge_base_sha r; wr_target_branch := wc_target_branch r;
     wr_target_sha := wc_target_sha r; wr_proof_reference := wc_proof_reference r;
     wr_scope_summary := wc_scope_summary r; wr_artifact_path := wc_artifact_path r;
     wr_created_at := wc_created_at r |}.
Definition transaction_from_row (id : string) (r : DeliveryTransactionRow)
    : result WorkerDeliveryTransaction :=
  state ← parse_state 0 (tx_state r);
  Ok {| wtx_id := id; wtx_receipt_id := tx_receipt_id r; wtx_task_id := tx_task_id r;
        wtx_state := state; wtx_supervisor_agent_id := tx_supervisor_agent_id r;
        wtx_verification_id := tx_verification_id r; wtx_merge_commit_sha := tx_merge_commit_sha r;
        wtx_last_error_code := tx_last_error_code r; wtx_last_error_detail := tx_last_error_detail r;
        wtx_created_at := tx_created_at r; wtx_updated_at := tx_updated_at r |}.

(** [query_row] without [optional] *)
Definition no_rows : StoreError := Database "Query returned no rows".

Definition get_transaction (id : string) (db : Db) : result WorkerDeliveryTransaction :=
  match wtransactions db !! id with Some r => transaction_from_row id r | None => Err no_rows end.
(** The transaction of a receipt, which is unique *)
Definition transaction_of_receipt (receipt_id : string) (db : Db)
    : option (string * DeliveryTransactionRow) :=
  head (sql_select (λ _ r, String.eqb (tx_receipt_id r) receipt_id) (wtransactions db)).

Definition set_wreceipts (t : gmap string CompletionReceiptRow) (db : Db) : Db :=
  db <| db_delivery ::= λ d, d <| wd_receipts := t |> |>.
Definition set_wtransactions (t : gmap string DeliveryTransactionRow) (db : Db) : Db :=
  db <| db_delivery ::= λ d, d <| wd_transactions := t |> |>.

(** ** Receipt identity *)
Fixpoint be_bytes (n : nat) (z : Z) (tail : string) : string :=
  match n with
  | O => tail
  | S n => be_bytes n (z / 256) (String (ascii_of_N (Z.to_N (z mod 256))) tail)
  end.
(** What the digest hashes: each part after its length *)
Fixpoint digest_input (parts : list string) : string :=
  match parts with
  | [] => ""
  | part :: parts => be_bytes 8 (Z.of_nat (String.length part)) "" +:+ part +:+ digest_input parts
  end.

Definition receipt_parts (input : WorkerCompletionReceiptInput) (worker_name : string) : list string :=
  [wi_task_id input; wi_worker_agent_id input; worker_name; wi_repo_selector input;
   wi_source_branch input; wi_commit_sha input; wi_merge_base_sha input; wi_target_branch input;
   wi_target_sha input; wi_proof_reference input; wi_scope_summary input]
  ++ match wi_artifact_path input with Some path => [path] | None => [] end.

(** [str::replacen(from, to, 1)] *)
Fixpoint replace_first (from to s : string) : string :=
  match strip_prefix from s with
  | Some rest => to +:+ rest
  | None => match s with EmptyString => EmptyString | String c s => String c (replace_first from to s) end
  end.
Definition worker_delivery_transaction_id (receipt_id : string) : string :=
  replace_first "wcr-" "wdt-" receipt_id.

Definition same_immutable_receipt_payload (persisted receipt : WorkerCompletionReceipt) : bool :=
  bool_decide (persisted <| wc_created_at := 0 |> = receipt <| wc_created_at := 0 |>).

Section deliveries.
Context {host : Host}.

Definition digest (parts : list string) : string := sha256_hex (digest_input parts).

Definition build_worker_completion_receipt (input : WorkerCompletionReceiptInput)
    (worker_name : string) (created_at : Z) : WorkerCompletionReceipt :=
  let hash := digest (receipt_parts input worker_name) in
  {| wc_id := "wcr-" +:+ String.substring 0 24 hash; wc_task_id := wi_task_id input;
     wc_worker_agent_id := wi_worker_agent_id input; wc_worker_name := worker_name;
     wc_repo_selector := wi_repo_selector input; wc_source_branch := wi_source_branch input;
     wc_commit_sha := wi_commit_sha input; wc_merge_base_sha := wi_merge_base_sha input;
     wc_target_branch := wi_target_branch input; wc_target_sha := wi_target_sha input;
     wc_proof_reference := wi_proof_reference input; wc_scope_summary := wi_scope_summary input;
     wc_artifact_path := wi_artifact_path input; wc_created_at := created_at |}.

(** ** Creation *)

(** INSERT OR IGNORE: an event with this id, or of this state of the
    transaction, stays as it is; the transaction must exist. *)
Definition insert_event (transaction_id : string) (state : WorkerDeliveryState) (actor_agent_id : string)
    (detail : option string) (now : Z) (db : Db) : result Db :=
  let text := WorkerDeliveryState_to_string state in
  let id := "wde-" +:+ String.substring 0 24 (digest [transaction_id; text]) in
  if existsb (λ e, String.eqb (we_id e) id
                   || String.eqb (we_transaction_id e) transaction_id && String.eqb (we_state e) text)
       (wevents db)
  then Ok db
  else match wtransactions db !! transaction_id with
       | None => Err fk_error
       | Some _ =>
           Ok (db <| db_delivery ::= λ d, d <| wd_events ::= λ l, l ++
                 [{| we_id := id; we_transaction_id := transaction_id; we_state := text;
                     we_actor_agent_id := actor_agent_id; we_detail := detail;
                     we_created_at := now |}] |> |>)
       end.

(** INSERT OR IGNORE of the transaction: the number of rows inserted *)
Definition insert_transaction (id : string) (row : DeliveryTransactionRow) (db : Db) : nat * Db :=
  match wtransactions db !! id, transaction_of_receipt (tx_receipt_id row) db with
  | None, None => (1%nat, set_wtransactions (<[id := row]> (wtransactions db)) db)
  | _, _ => (0%nat, db)
  end.

Definition new_transaction_row (receipt : WorkerCompletionReceipt) (state : WorkerDeliveryState)
    (now : Z) : DeliveryTransactionRow :=
  {| tx_receipt_id := wc_id receipt; tx_task_id := wc_task_id receipt;
     tx_state := WorkerDeliveryState_to_string state; tx_supervisor_agent_id := None;
     tx_verification_id := None; tx_merge_commit_sha := None; tx_last_error_code := None;
     tx_last_error_detail := None; tx_created_at := now; tx_updated_at := now |}.

Definition create_worker_delivery_with_conn (receipt : WorkerCompletionReceipt)
    (state : WorkerDeliveryState) (actor_agent_id : string) (now : Z) (db : Db)
    : result (WorkerDeliveryTransaction * Db) :=
  let persisted := match wreceipts db !! wc_id receipt with
                   | Some r => r
                   | None => receipt_row receipt
                   end in
  let db := set_wreceipts (<[wc_id receipt := persisted]> (wreceipts db)) db in
  if negb (same_immutable_receipt_payload (receipt_from_row (wc_id receipt) persisted) receipt)
  then Err (Parse "immutable worker completion receipt mismatch")
  else
    let transaction_id := worker_delivery_transaction_id (wc_id receipt) in
    let '(inserted, db) := insert_transaction transaction_id (new_transaction_row receipt state now) db in
    '(id, row) ← ok_or (transaction_of_receipt (wc_id receipt) db) no_rows;
    transaction ← transaction_from_row id row;
    if (inserted =? 1)%nat then
      db ← insert_event transaction_id state actor_agent_id None now db;
      Ok (transaction, db)
    else if negb (bool_decide (wtx_state transaction = state))
    then Err (Parse ("worker delivery initial state mismatch: persisted "
                     +:+ WorkerDeliveryState_to_string (wtx_state transaction) +:+ ", requested "
                     +:+ WorkerDeliveryState_to_string state))
    else Ok (transaction, db).
Definition create_worker_delivery := create_worker_delivery_with_conn.

Definition delivery_boundary (receipt : WorkerCompletionReceipt) : VerificationProofBoundary :=
  boundary_delivery (wc_id receipt) (worker_delivery_transaction_id (wc_id receipt)).

(** The dispatch and the delivery in one transaction; [clk] is read by the
    dispatch, then by the delivery. *)
Definition create_with_boundary (clk : Clock) (random : Z) (receipt : WorkerCompletionReceipt)
    (state : WorkerDeliveryState) (actor_agent_id owner_agent_id : string) (deadline_at : Z)
    (boundary : VerificationProofBoundary) (db : Db)
    : result ((WorkerDeliveryTransaction * VerificationDispatch) * Db) :=
  '(dispatch, db) ← create_verification_dispatch_bound_with_conn random (wc_task_id receipt)
                      actor_agent_id owner_agent_id boundary deadline_at false (clk 0%nat) db;
  '(transaction, db) ← create_worker_delivery_with_conn receipt state actor_agent_id (clk 1%nat) db;
  Ok ((transaction, dispatch), db).

Definition create_worker_delivery_with_dispatch (clk : Clock) (random : Z)
    (receipt : WorkerCompletionReceipt) (state : WorkerDeliveryState)
    (actor_agent_id owner_agent_id : string) (deadline_at : Z) (db : Db)
    : result ((WorkerDeliveryTransaction * VerificationDispatch) * Db) :=
  create_with_boundary clk random receipt state actor_agent_id owner_agent_id deadline_at
    (delivery_boundary receipt) db.

(** The active lease of the task is the exact generation of this live worker. *)
Definition exact_lease_authority (receipt : WorkerCompletionReceipt) (actor_agent_id : string)
    (expected_lease_epoch now : Z) (db : Db) : bool :=
  match db_task_leases db !! wc_task_id receipt with
  | Some l =>
      match db_agents db !! l_agent_id l with
      | Some a =>
          lease_active l && String.eqb (wc_worker_agent_id receipt) actor_agent_id
          && String.eqb (l_agent_id l) actor_agent_id
          && (l_epoch l =? as_i64 expected_lease_epoch) && String.eqb (a_role a) "worker"
          && status_live (a_status a) && (now <? l_expires_at l)
      | None => false
      end
  | None => false
  end.

(** What this session already persisted for this exact receipt *)
Definition exact_receipt_replay_with_conn (receipt : WorkerCompletionReceipt) (actor_agent_id : string)
    (db : Db) : result (option (WorkerDeliveryTransaction * VerificationDispatch)) :=
  let foreign_lease := match db_task_leases db !! wc_task_id receipt with
                       | Some l => lease_active l && negb (String.eqb (l_agent_id l) actor_agent_id)
                       | None => false
                       end in
  let live_worker := match db_agents db !! actor_agent_id with
                     | Some a => String.eqb (a_role a) "worker" && status_live (a_status a)
                     | None => false
                     end in
  if negb (String.eqb (wc_worker_agent_id receipt) actor_agent_id) || foreign_lease || negb live_worker
  then Ok None
  else
    match wreceipts db !! wc_id receipt, transaction_of_receipt (wc_id receipt) db with
    | Some persisted, transaction =>
        if negb (same_immutable_receipt_payload (receipt_from_row (wc_id receipt) persisted) receipt)
        then Ok None
        else match transaction with
             | None => Ok None
             | Some (id, row) =>
                 transaction ← transaction_from_row id row;
                 latest ← get_latest_verification_dispatch_with_conn (wc_task_id receipt) db;
                 Ok ((λ dispatch, (transaction, dispatch))
                       <$> option_filter (λ dispatch,
                             bool_decide (vd_receipt_id dispatch = Some (wc_id receipt))
                             && bool_decide (vd_delivery_transaction_id dispatch = Some (wtx_id transaction)))
                             latest)
             end
    | None, _ => Ok None
    end.

Definition create_worker_delivery_with_dispatch_for_lease_bound (clk : Clock) (random : Z)
    (receipt : WorkerCompletionReceipt) (state : WorkerDeliveryState) (actor_agent_id : string)
    (expected_lease_epoch : Z) (owner_agent_id : string) (deadline_at : Z)
    (repository : option RepositoryProofBoundary) (db : Db)
    : result ((WorkerDeliveryTransaction * VerificationDispatch) * Db) :=
  if negb (exact_lease_authority receipt actor_agent_id expected_lease_epoch (clk 0%nat) db) then
    replay ← exact_receipt_replay_with_conn receipt actor_agent_id db;
    match replay with
    | Some replay =>
        if negb (is_none repository) && negb (bool_decide (vd_repository replay.2 = repository))
        then Err (Parse "immutable delivery candidate proof mismatch")
        else Ok (replay, db)
    | None =>
        Err (Parse "exact active task lease changed, expired, or no longer belongs to the authenticated worker session")
    end
  else
    create_with_boundary (λ k, clk (S k)) random receipt state actor_agent_id owner_agent_id deadline_at
      (delivery_boundary receipt <| pb_repository := repository |>) db.
Definition create_worker_delivery_with_dispatch_for_lease (clk : Clock) (random : Z)
    (receipt : WorkerCompletionReceipt) (state : WorkerDeliveryState) (actor_agent_id : string)
    (expected_lease_epoch : Z) (owner_agent_id : string) (deadline_at : Z) :=
  create_worker_delivery_with_dispatch_for_lease_bound clk random receipt state actor_agent_id
    expected_lease_epoch owner_agent_id deadline_at None.
Definition create_worker_delivery_with_dispatch_for_lease_at_repository (clk : Clock) (random : Z)
    (receipt : WorkerCompletionReceipt) (state : WorkerDeliveryState) (actor_agent_id : string)
    (expected_lease_epoch : Z) (owner_agent_id : string) (deadline_at : Z)
    (repository : RepositoryProofBoundary) :=
  create_worker_delivery_with_dispatch_for_lease_bound clk random receipt state actor_agent_id
    expected_lease_epoch owner_agent_id deadline_at (Some repository).

(** ** Transitions *)
Definition moved (state : WorkerDeliveryState) (supervisor_agent_id verification_id merge_commit_sha : option string)
    (error : option (string * string)) (now : Z) (r : DeliveryTransactionRow) : DeliveryTransactionRow :=
  r <| tx_state := WorkerDeliveryState_to_string state |>
    <| tx_supervisor_agent_id ::= coalesce supervisor_agent_id |>
    <| tx_verification_id ::= coalesce verification_id |>
    <| tx_merge_commit_sha ::= coalesce merge_commit_sha |>
    <| tx_last_error_code := fst <$> error |> <| tx_last_error_detail := snd <$> error |>
    <| tx_updated_at := now |>.

Definition transition_worker_delivery (transaction_id : string) (expected : list WorkerDeliveryState)
    (state : WorkerDeliveryState) (actor_agent_id : string)
    (supervisor_agent_id verification_id merge_commit_sha : option string)
    (error : option (string * string)) (now : Z) (db : Db) : result (WorkerDeliveryTransaction * Db) :=
  current ← get_transaction transaction_id db;
  if bool_decide (wtx_state current = state) then Ok (current, db)
  else if negb (bool_decide (wtx_state current ∈ expected))
  then Err (Parse ("delivery transition rejected: " +:+ WorkerDeliveryState_to_string (wtx_state current)
                   +:+ " -> " +:+ WorkerDeliveryState_to_string state))
  else
    let db := set_wtransactions (sql_update_key transaction_id
                (moved state supervisor_agent_id verification_id merge_commit_sha error now)
                (wtransactions db)) db in
    db ← insert_event transaction_id state actor_agent_id (snd <$> error) now db;
    updated ← get_transaction transaction_id db;
    Ok (updated, db).

(** The verdict is on the dispatch of this receipt and transaction, by this
    verifier, and says what it is taken to say. *)
Definition exact_binding (verification_id actor_agent_id : string) (current : WorkerDeliveryTransaction)
    (approved : bool) (db : Db) : bool :=
  match verifications db !! verification_id with
  | None => false
  | Some v =>
      match (dispatch_id ← vr_dispatch_id v; dispatches db !! dispatch_id), wreceipts db !! wtx_receipt_id current with
      | Some d, Some r =>
          String.eqb (vr_task_id v) (wtx_task_id current)
          && bool_decide (vr_agent_id v = Some actor_agent_id)
          && String.eqb (ds_task_id d) (wtx_task_id current)
          && bool_decide (ds_receipt_id d = Some (wtx_receipt_id current))
          && bool_decide (ds_delivery_transaction_id d = Some (wtx_id current))
          && String.eqb (ds_state d) "resolved" && String.eqb (wr_task_id r) (wtx_task_id current)
          && (if approved then String.eqb (vr_status v) "approved"
              else String.eqb (vr_status v) "rejected" || String.eqb (vr_status v) "error")
      | _, _ => false
      end
  end.

Definition verdict_detail (approved : bool) : option string :=
  if approved then None else Some "durable verification rejected".
Definition judged (verification_id : string) (approved : bool) (target : WorkerDeliveryState) (now : Z)
    (r : DeliveryTransactionRow) : DeliveryTransactionRow :=
  r <| tx_state := WorkerDeliveryState_to_string target |>
    <| tx_verification_id := Some verification_id |>
    <| tx_last_error_code := if approved then None else Some "verification_failed" |>
    <| tx_last_error_detail := verdict_detail approved |> <| tx_updated_at := now |>.

Definition transition_worker_delivery_verification_with_conn (transaction_id verification_id : string)
    (approved : bool) (actor_agent_id : string) (now : Z) (db : Db)
    : result (option WorkerDeliveryTransaction * Db) :=
  match wtransactions db !! transaction_id with
  | None => Ok (None, db)
  | Some row =>
      current ← transaction_from_row transaction_id row;
      if negb (bool_decide (wtx_state current = WorkerDeliveryState_AwaitingVerification))
      then Ok (None, db)
      else if negb (exact_binding verification_id actor_agent_id current approved db)
      then Err (Parse "delivery verification is not bound to the exact receipt, transaction, task, and verifier")
      else
        let target := if approved then WorkerDeliveryState_AwaitingMerge
                      else WorkerDeliveryState_VerificationFailed in
        let P k r := String.eqb k (wtx_id current) && String.eqb (tx_state r) "awaiting_verification" in
        let changed := sql_count P (wtransactions db) in
        let db := set_wtransactions (sql_update P (judged verification_id approved target now)
                                       (wtransactions db)) db in
        if negb (changed =? 1)%nat then Err (Parse "exact delivery verification transition raced")
        else
          db ← insert_event (wtx_id current) target actor_agent_id (verdict_detail approved) now db;
          updated ← get_transaction (wtx_id current) db;
          Ok (Some updated, db)
  end.

(** ** Reads *)
Definition get_worker_delivery_by_receipt (receipt_id : string) (db : Db)
    : result (option (WorkerCompletionReceipt * WorkerDeliveryTransaction)) :=
  match wreceipts db !! receipt_id, transaction_of_receipt receipt_id db with
  | Some r, Some (id, row) =>
      transaction ← transaction_from_row id row;
      Ok (Some (receipt_from_row receipt_id r, transaction))
  | _, _ => Ok None
  end.

Definition get_latest_worker_delivery (task_id : string) (db : Db)
    : result (option (WorkerCompletionReceipt * WorkerDeliveryTransaction)) :=
  let joined := omap (λ kt, r ← wreceipts db !! tx_receipt_id kt.2; Some (tx_receipt_id kt.2, r, kt))
                  (map_to_list (wtransactions db)) in
  match head (order_by (le_of (desc (λ j, wr_created_at j.1.2)))
                (List.filter (λ j, String.eqb (wr_task_id j.1.2) task_id) joined)) with
  | None => Ok None
  | Some (receipt_id, r, (id, row)) =>
      transaction ← transaction_from_row id row;
      Ok (Some (receipt_from_row receipt_id r, transaction))
  end.

Definition event_from_row (e : DeliveryEventRow) : result WorkerDeliveryEvent :=
  state ← parse_state 0 (we_state e);
  Ok {| wev_id := we_id e; wev_transaction_id := we_transaction_id e; wev_state := state;
        wev_actor_agent_id := we_actor_agent_id e; wev_detail := we_detail e;
        wev_created_at := we_created_at e |}.
Definition list_worker_delivery_events (transaction_id : string) (db : Db)
    : result (list WorkerDeliveryEvent) :=
  foldr (λ e acc, v ← event_from_row e; (v ::.) <$> acc) (Ok [])
    (order_by (le_of (asc we_created_at))
       (List.filter (λ e, String.eqb (we_transaction_id e) transaction_id) (wevents db))).

(** ** Observed merges *)
Definition OBSERVED_MERGE_WAIT_BUDGET : Z := duration_seconds 2.

Definition incomplete (values : list string) : bool := existsb (λ v, str_is_empty (trim v)) values.

Definition same_observed (a b : ObservedMergeRow) : bool :=
  String.eqb (om_task_id a) (om_task_id b) && String.eqb (om_target_branch a) (om_target_branch b)
  && String.eqb (om_source_commit_sha a) (om_source_commit_sha b)
  && String.eqb (om_merge_commit_sha a) (om_merge_commit_sha b).
Definition record_observed_delivery_merge (task_id source_branch target_branch source_commit_sha
    merge_commit_sha actor_agent_id : string) (now : Z) (db : Db) : result (unit * Db) :=
  if incomplete [task_id; source_branch; target_branch; source_commit_sha; merge_commit_sha; actor_agent_id]
  then Err (Parse "observed merge requires complete task, branch, commit, and actor identity")
  else
    let row := {| om_task_id := task_id; om_source_branch := source_branch;
                  om_target_branch := target_branch; om_source_commit_sha := source_commit_sha;
                  om_merge_commit_sha := merge_commit_sha; om_actor_agent_id := actor_agent_id;
                  om_created_at := now |} in
    Ok (tt, if existsb (same_observed row) (wd_observed (db_delivery db)) then db
            else db <| db_delivery ::= λ d, d <| wd_observed ::= λ l, l ++ [row] |> |>).

Record ObservedDeliveryMerge := mkObservedDeliveryMerge {
  od_task_id : string;
  od_source_branch : string;
  od_source_commit_sha : string;
  od_merge_commit_sha : string;
  od_created_at : Z;
}.
Definition observed_delivery_merges_into (target_branch : string) (db : Db) : list ObservedDeliveryMerge :=
  (λ m, {| od_task_id := om_task_id m; od_source_branch := om_source_branch m;
           od_source_commit_sha := om_source_commit_sha m;
           od_merge_commit_sha := om_merge_commit_sha m; od_created_at := om_created_at m |})
    <$> order_by (le_of (asc om_created_at))
          (List.filter (λ m, String.eqb (om_target_branch m) target_branch) (wd_observed (db_delivery db))).

Definition same_pending (a b : PendingMergeRow) : bool :=
  String.eqb (pm_task_id a) (pm_task_id b) && String.eqb (pm_target_branch a) (pm_target_branch b)
  && String.eqb (pm_source_commit_sha a) (pm_source_commit_sha b).
Definition record_pending_observed_delivery_merge (task_id source_branch target_branch source_commit_sha
    actor_agent_id : string) (now : Z) (db : Db) : result (unit * Db) :=
  if incomplete [task_id; source_branch; target_branch; source_commit_sha; actor_agent_id]
  then Err (Parse "pending observed merge requires complete task, branch, commit, and actor identity")
  else
    let row := {| pm_task_id := task_id; pm_source_branch := source_branch;
                  pm_target_branch := target_branch; pm_source_commit_sha := source_commit_sha;
                  pm_actor_agent_id := actor_agent_id; pm_created_at := now |} in
    Ok (tt, if existsb (same_pending row) (wd_pending (db_delivery db)) then db
            else db <| db_delivery ::= λ d, d <| wd_pending ::= λ l, l ++ [row] |> |>).

Definition exact_pending (task_id source_branch target_branch source_commit_sha : string)
    (m : PendingMergeRow) : bool :=
  String.eqb (pm_task_id m) task_id && String.eqb (pm_source_branch m) source_branch
  && String.eqb (pm_target_branch m) target_branch
  && String.eqb (pm_source_commit_sha m) source_commit_sha.
Definition has_pending_observed_delivery_merge (task_id source_branch target_branch source_commit_sha : string)
    (db : Db) : bool :=
  existsb (exact_pending task_id source_branch target_branch source_commit_sha) (wd_pending (db_delivery db)).
Definition clear_pending_observed_delivery_merge (task_id source_branch target_branch source_commit_sha : string)
    (db : Db) : result (unit * Db) :=
  Ok (tt, db <| db_delivery ::= λ d, d <| wd_pending ::=
        List.filter (λ m, negb (exact_pending task_id source_branch target_branch source_commit_sha m)) |> |>).
End deliveries.
