(* ===== verification/QaPasses.v ===== *)
(** * Independent QA rounds ([cas-store/src/qa_pass_store.rs], [cas-types/src/qa_pass.rs])

    One row of [qa_passes] is one review round of a delivery: who implemented
    it, the branch tip under review, the reviewer who claimed it and the
    verdict.  The operations open, claim, release, resolve, waive, carry,
    withdraw and import rounds.  A partial unique index allows one open round
    per task.  [now] is the caller's clock reading, [random] the u64 a new id
    is made of. *)

From S2P Require Import Prelude Enums TaskTypes Leases Db TaskRows.

(** ** Rounds *)
Record QaPass := mkQaPass {
  qp_id : string;
  qp_task_id : string;
  qp_round : Z;
  qp_implementer_agent_id : string;
  qp_branch : string;
  qp_bound_head : string;
  qp_qa_task_id : option string;
  qp_reviewer_agent_id : option string;
  qp_state : QaPassState;
  qp_summary : option string;
  qp_issues_json : option string;
  qp_ledger_path : option string;
  qp_issuer_agent_id : option string;
  qp_requested_at : Z;
  qp_deadline_at : Z;
  qp_resolved_at : option Z;
}.
#[export] Instance QaPass_eta : Eta QaPass := λ r,
  mkQaPass
    (qp_id r) (qp_task_id r) (qp_round r) (qp_implementer_agent_id r) (qp_branch r)
    (qp_bound_head r) (qp_qa_task_id r) (qp_reviewer_agent_id r) (qp_state r) (qp_summary r)
    (qp_issues_json r) (qp_ledger_path r) (qp_issuer_agent_id r) (qp_requested_at r)
    (qp_deadline_at r) (qp_resolved_at r).
#[export] Instance QaPass_eq_dec : EqDecision QaPass.
Proof. solve_decision. Defined.

Definition QA_PASS_WITHDRAWN_PREFIX : string := "withdrawn: ".

Definition is_withdrawn (p : QaPass) : bool :=
  bool_decide (qp_state p = QaPassState_Superseded)
  && match qp_summary p with
     | Some summary => starts_with QA_PASS_WITHDRAWN_PREFIX summary
     | None => false
     end.

(** [None] is the panic of a slice that cuts a character. *)
Definition head8 (p : QaPass) : option string := str_prefix 8 (qp_bound_head p).

Record NewQaPass := mkNewQaPass {
  nq_task_id : string;
  nq_implementer_agent_id : string;
  nq_branch : string;
  nq_bound_head : string;
  nq_deadline_at : Z;
  nq_max_rounds : Z;
}.

Inductive QaPassOpen :=
  | Dispatched (p : QaPass)
  | AlreadyOpen (p : QaPass)
  | AlreadySatisfied (p : QaPass)
  | Escalate (failed_rounds : Z) (latest : QaPass).

(** ** Rows *)

(** A row read back: the state text is parsed and the round clamped into u32. *)
Definition parse_row (id : string) (r : QaPassRow) : result QaPass :=
  match QaPassState_from_str (q_state r) with
  | Err error => Err (Database ("Conversion error from type Text at index: 8, " +:+
                                TypeError_to_string error))
  | Ok state =>
      Ok {| qp_id := id; qp_task_id := q_task_id r;
            qp_round := Z.max 1 (q_round r) mod 2 ^ 32;
            qp_implementer_agent_id := q_implementer_agent_id r; qp_branch := q_branch r;
            qp_bound_head := q_bound_head r; qp_qa_task_id := q_qa_task_id r;
            qp_reviewer_agent_id := q_reviewer_agent_id r; qp_state := state;
            qp_summary := q_summary r; qp_issues_json := q_issues_json r;
            qp_ledger_path := q_ledger_path r; qp_issuer_agent_id := q_issuer_agent_id r;
            qp_requested_at := q_requested_at r; qp_deadline_at := q_deadline_at r;
            qp_resolved_at := q_resolved_at r |}
  end.

(** [state IN ('pending', 'claimed')] *)
Definition row_active (r : QaPassRow) : bool :=
  String.eqb (q_state r) "pending" || String.eqb (q_state r) "claimed".
(** [state IN ('passed', 'waived')] *)
Definition row_satisfies (r : QaPassRow) : bool :=
  String.eqb (q_state r) "passed" || String.eqb (q_state r) "waived".
(** [state NOT IN ('superseded', 'waived')] *)
Definition row_current (r : QaPassRow) : bool :=
  negb (String.eqb (q_state r) "superseded" || String.eqb (q_state r) "waived").
Definition of_task (task_id : string) (r : QaPassRow) : bool := String.eqb (q_task_id r) task_id.
Definition of_qa_task (qa_task_id : string) (r : QaPassRow) : bool :=
  bool_decide (q_qa_task_id r = Some qa_task_id).

(** [query_row(..).optional()]: the first row, parsed *)
Definition first_row (rows : list (string * QaPassRow)) : result (option QaPass) :=
  match rows with
  | [] => Ok None
  | (id, r) :: _ => Some <$> parse_row id r
  end.
(** [query_map(.., parse_row).collect()] *)
Definition parse_rows (rows : list (string * QaPassRow)) : result (list QaPass) :=
  foldr (λ kr acc, p ← parse_row kr.1 kr.2; (p ::.) <$> acc) (Ok []) rows.

(** [ORDER BY requested_at DESC, round DESC, id DESC] *)
Definition newest_first : string * QaPassRow → string * QaPassRow → comparison :=
  then_by (desc (λ kr, q_requested_at kr.2))
    (then_by (desc (λ kr, q_round kr.2)) (λ a b, by_text fst b a)).

(** The table's unique constraints: the primary key, and the partial index
    idx_qa_passes_active_task on the task of an open round.  A statement that
    would break one fails. *)
Definition active_task_ids (t : gmap string QaPassRow) : list string :=
  (λ kr, q_task_id kr.2) <$> sql_select (λ _ r, row_active r) t.
Definition unique_active_error : StoreError :=
  Database "UNIQUE constraint failed: qa_passes.task_id".
Definition unique_id_error : StoreError := Database "UNIQUE constraint failed: qa_passes.id".
Definition write_rounds (t : gmap string QaPassRow) (db : Db) : result Db :=
  if bool_decide (NoDup (active_task_ids t)) then Ok (db <| db_qa_passes := t |>)
  else Err unique_active_error.
(** UPDATE qa_passes SET f WHERE id = ? *)
Definition update_round (id : string) (f : QaPassRow → QaPassRow) (db : Db) : result Db :=
  write_rounds (sql_update_key id f (db_qa_passes db)) db.
(** The row id SQLite gives a new row *)
Definition next_rowid (db : Db) : Z :=
  1 + foldr (λ kr m, Z.max (q_rowid kr.2) m) 0 (map_to_list (db_qa_passes db)).
Definition insert_round (id : string) (r : QaPassRow) (db : Db) : result Db :=
  match db_qa_passes db !! id with
  | Some _ => Err unique_id_error
  | None => write_rounds (<[id := r <| q_rowid := next_rowid db |>]> (db_qa_passes db)) db
  end.

(** ** Reads inside a transaction *)
Definition task_rounds (task_id : string) (db : Db) : list (string * QaPassRow) :=
  sql_select (λ _ r, of_task task_id r) (db_qa_passes db).

Definition latest_with_conn (task_id : string) (db : Db) : result (option QaPass) :=
  first_row (order_by (le_of newest_first) (task_rounds task_id db)).

Definition active_with_conn (task_id : string) (db : Db) : result (option QaPass) :=
  first_row (sql_select (λ _ r, of_task task_id r && row_active r) (db_qa_passes db)).

Definition by_id_with_conn (pass_id : string) (db : Db) : result QaPass :=
  match db_qa_passes db !! pass_id with
  | Some r => parse_row pass_id r
  | None => Err (NotFound ("QA pass " +:+ pass_id))
  end.

Definition failed_rounds_with_conn (task_id : string) (db : Db) : Z :=
  Z.of_nat (sql_count (λ _ r, of_task task_id r && String.eqb (q_state r) "failed")
              (db_qa_passes db)) mod 2 ^ 32.

Definition qa_set_state (pass_id : string) (state : QaPassState) (resolved_at : option Z)
    (db : Db) : result Db :=
  update_round pass_id (λ r, r <| q_state := QaPassState_to_string state |>
                               <| q_resolved_at := resolved_at |>) db.

Definition expire_with_conn (task_id : string) (now : Z) (db : Db) : result Db :=
  active ← active_with_conn task_id db;
  match active with
  | Some p => if qp_deadline_at p <=? now
              then qa_set_state (qp_id p) QaPassState_TimedOut (Some now) db else Ok db
  | None => Ok db
  end.

(** The open round becomes superseded; it is returned as it then reads. *)
Definition retire_active (active : option QaPass) (now : Z) (db : Db)
    : result (option QaPass * Db) :=
  match active with
  | None => Ok (None, db)
  | Some p =>
      db ← qa_set_state (qp_id p) QaPassState_Superseded (Some now) db;
      retired ← by_id_with_conn (qp_id p) db;
      Ok (Some retired, db)
  end.

Definition new_pass_id (random : Z) : string := "qapass-" +:+ hex16 random.

(** The columns of a row that an INSERT leaves out are null. *)
Definition blank_round : QaPassRow :=
  {| q_rowid := 0; q_task_id := ""; q_round := 0; q_implementer_agent_id := "";
     q_branch := ""; q_bound_head := ""; q_qa_task_id := None; q_reviewer_agent_id := None;
     q_state := ""; q_summary := None; q_issues_json := None; q_ledger_path := None;
     q_issuer_agent_id := None; q_requested_at := 0; q_deadline_at := 0; q_resolved_at := None |}.

Section qa_passes.
Context {host : Host}.

(** ** Opening *)
Definition dispatched_row (failed : Z) (new : NewQaPass) (now : Z) : QaPassRow :=
  blank_round <| q_task_id := nq_task_id new |> <| q_round := u32_succ failed |>
    <| q_implementer_agent_id := nq_implementer_agent_id new |> <| q_branch := nq_branch new |>
    <| q_bound_head := nq_bound_head new |> <| q_state := "pending" |>
    <| q_requested_at := now |> <| q_deadline_at := nq_deadline_at new |>.

(** Open a round unless too many were rejected *)
Definition dispatch_or_escalate (random : Z) (new : NewQaPass) (now : Z)
    (superseded : option QaPass) (db : Db) : result ((QaPassOpen * option QaPass) * Db) :=
  let failed := failed_rounds_with_conn (nq_task_id new) db in
  if Z.max (nq_max_rounds new) 1 <=? failed then
    latest ← latest_with_conn (nq_task_id new) db;
    match latest with
    | None => Err (Other "failed QA rounds vanished")
    | Some latest => Ok ((Escalate failed latest, superseded), db)
    end
  else
    let id := new_pass_id random in
    db ← insert_round id (dispatched_row failed new now) db;
    pass ← by_id_with_conn id db;
    Ok ((Dispatched pass, superseded), db).

(** The round already settles this tip. *)
Definition satisfied_by (new : NewQaPass) (p : QaPass) : bool :=
  String.eqb (qp_bound_head p) (nq_bound_head new) && QaPassState_satisfies_gate (qp_state p).

(** [open_qa_pass] drops the superseded round from the answer. *)
Definition open_qa_pass_reporting_superseded (random : Z) (new : NewQaPass) (now : Z) (db : Db)
    : result ((QaPassOpen * option QaPass) * Db) :=
  if str_is_empty (trim (nq_bound_head new)) || str_is_empty (trim (nq_implementer_agent_id new))
  then Err (Parse "a QA pass needs the delivered branch tip and its implementer")
  else
  db ← expire_with_conn (nq_task_id new) now db;
  active ← active_with_conn (nq_task_id new) db;
  match option_filter (λ p, String.eqb (qp_bound_head p) (nq_bound_head new)) active with
  | Some p => Ok ((AlreadyOpen p, None), db)
  | None =>
      '(superseded, db) ← retire_active active now db;
      latest ← latest_with_conn (nq_task_id new) db;
      match option_filter (satisfied_by new) latest with
      | Some p => Ok ((AlreadySatisfied p, superseded), db)
      | None => dispatch_or_escalate random new now superseded db
      end
  end.
Definition open_qa_pass (random : Z) (new : NewQaPass) (now : Z) (db : Db)
    : result (QaPassOpen * Db) :=
  (λ r, (r.1.1, r.2)) <$> open_qa_pass_reporting_superseded random new now db.

Definition set_qa_task (pass_id qa_task_id : string) (db : Db) : result (QaPass * Db) :=
  db ← update_round pass_id (λ r, r <| q_qa_task_id := Some qa_task_id |>) db;
  pass ← by_id_with_conn pass_id db;
  Ok (pass, db).

(** ** Claiming and releasing *)
Definition reject_self_review (pass : QaPass) (agent_id action : string) : result unit :=
  if str_is_empty (trim agent_id) then
    Err (Parse (action +:+ " requires a registered agent identity"))
  else if String.eqb agent_id (qp_implementer_agent_id pass) then
    Err (Parse ("no self-review: " +:+ agent_id +:+ " implemented " +:+ qp_task_id pass +:+
                " and cannot " +:+ action +:+ " its independent QA pass " +:+ qp_id pass +:+
                "; the supervisor must assign a different (taste-lane) worker"))
  else Ok tt.

(** [registry]: the table [agents] exists.  The row a name or an id resolves
    to: an exact id first, then the latest registration. *)
Definition reviewer_is_live_with_conn (registry : bool) (reviewer : string) (db : Db) : bool :=
  if negb registry then true
  else
    let rows := order_by (le_of (then_by (desc (λ kr, Z.b2z (String.eqb kr.1 reviewer)))
                                         (desc (λ kr, a_registered_at kr.2))))
                  (sql_select (λ k a, String.eqb k reviewer || String.eqb (a_name a) reviewer)
                     (db_agents db)) in
    match head rows with Some (_, a) => status_live (a_status a) | None => false end.

Definition claim_qa_pass (registry : bool) (task_id reviewer_agent_id : string) (now : Z)
    (db : Db) : result (QaPass * Db) :=
  db ← expire_with_conn task_id now db;
  active ← active_with_conn task_id db;
  active ← ok_or active (NotFound ("open independent QA pass for " +:+ task_id));
  _ ← reject_self_review active reviewer_agent_id "claim";
  match option_filter (λ existing, negb (String.eqb existing reviewer_agent_id)
                                   && reviewer_is_live_with_conn registry existing db)
          (qp_reviewer_agent_id active) with
  | Some existing =>
      Err (Other ("QA pass " +:+ qp_id active +:+ " is already claimed by " +:+ existing))
  | None =>
      db ← update_round (qp_id active)
             (λ r, r <| q_reviewer_agent_id := Some reviewer_agent_id |>
                     <| q_state := "claimed" |>) db;
      pass ← by_id_with_conn (qp_id active) db;
      Ok (pass, db)
  end.

(** [qa_task_id = ? AND state = 'claimed'] *)
Definition claimed_for (qa_task_id : string) (r : QaPassRow) : bool :=
  of_qa_task qa_task_id r && String.eqb (q_state r) "claimed".
Definition unclaim (r : QaPassRow) : QaPassRow :=
  r <| q_reviewer_agent_id := None |> <| q_state := "pending" |>.

(** The claimant recovery must not drop *)
Definition conflicting_reviewer (qa_task_id reviewer : string) (db : Db) : option string :=
  '(_, r) ← head (sql_select (λ _ r, claimed_for qa_task_id r
                     && match q_reviewer_agent_id r with
                        | Some existing => negb (String.eqb existing reviewer)
                        | None => false
                        end) (db_qa_passes db));
  q_reviewer_agent_id r.

Definition release_qa_claim (qa_task_id : string) (reviewer : option string) (db : Db)
    : result (bool * Db) :=
  match reviewer ≫= λ reviewer, pair reviewer <$> conflicting_reviewer qa_task_id reviewer db with
  | Some (reviewer, existing) =>
      Err (Other ("QA task " +:+ qa_task_id +:+ " claim changed from '" +:+ reviewer +:+
                  "' to '" +:+ existing +:+ "'; recovery refused"))
  | None =>
      let changed := sql_count (λ _ r, claimed_for qa_task_id r) (db_qa_passes db) in
      db ← write_rounds (sql_update (λ _ r, claimed_for qa_task_id r) unclaim (db_qa_passes db)) db;
      Ok (0 <? Z.of_nat changed, db)
  end.
Definition release_qa_claim_for_task (qa_task_id : string) (db : Db) : result (bool * Db) :=
  release_qa_claim qa_task_id None db.
Definition release_qa_claim_for_reviewer (qa_task_id reviewer : string) (db : Db)
    : result (bool * Db) :=
  release_qa_claim qa_task_id (Some reviewer) db.

Definition assert_may_review_qa_task (qa_task_id agent_id : string) (db : Db)
    : result (option QaPass) :=
  pass ← first_row (order_by (le_of (desc (λ kr, q_requested_at kr.2)))
                      (sql_select (λ _ r, of_qa_task qa_task_id r) (db_qa_passes db)));
  match pass with
  | Some p => _ ← reject_self_review p agent_id "start"; Ok (Some p)
  | None => Ok None
  end.

(** ** Verdicts *)
Definition check_issues (issues_json : option string) : result unit :=
  match issues_json with
  | None => Ok tt
  | Some issues =>
      match json_parse issues with
      | None => Err (Json (json_error issues))
      | Some (JArray _) => Ok tt
      | Some _ => Err (Parse "issues must be a JSON array")
      end
  end.

Definition verdict_state (v : QaVerdict) : QaPassState :=
  match v with
  | QaVerdict_Approved => QaPassState_Passed
  | QaVerdict_Rejected => QaPassState_Failed
  end.

Definition resolve_qa_pass (task_id reviewer_agent_id : string) (verdict : QaVerdict)
    (summary : string) (issues_json : option string) (ledger_path : string) (now : Z) (db : Db)
    : result (QaPass * Db) :=
  if str_is_empty (trim summary) then Err (Parse "a QA verdict needs a summary") else
  if str_is_empty (trim ledger_path)
  then Err (Parse "a QA verdict must cite its LEDGER.md (ledger_path)") else
  _ ← check_issues issues_json;
  db ← expire_with_conn task_id now db;
  active ← active_with_conn task_id db;
  active ← ok_or active (NotFound ("open independent QA pass for " +:+ task_id +:+
                                   " (it may have timed out or been superseded)"));
  _ ← reject_self_review active reviewer_agent_id "resolve";
  if negb (opt_eqb (qp_reviewer_agent_id active) (Some reviewer_agent_id)) then
    Err (Parse ("only the reviewer who claimed QA pass " +:+ qp_id active +:+
                " may record its verdict"))
  else
  db ← update_round (qp_id active)
         (λ r, r <| q_state := QaPassState_to_string (verdict_state verdict) |>
                 <| q_summary := Some (trim summary) |> <| q_issues_json := issues_json |>
                 <| q_ledger_path := Some (trim ledger_path) |>
                 <| q_resolved_at := Some now |>) db;
  pass ← by_id_with_conn (qp_id active) db;
  Ok (pass, db).

Definition waived_row (failed : Z) (task_id supervisor_agent_id implementer_agent_id branch
    bound_head reason : string) (now : Z) : QaPassRow :=
  blank_round <| q_task_id := task_id |> <| q_round := u32_succ failed |>
    <| q_implementer_agent_id := implementer_agent_id |> <| q_branch := branch |>
    <| q_bound_head := bound_head |> <| q_state := "waived" |>
    <| q_summary := Some (trim reason) |> <| q_issuer_agent_id := Some supervisor_agent_id |>
    <| q_requested_at := now |> <| q_deadline_at := now |> <| q_resolved_at := Some now |>.

(** [waive_qa_pass] drops the retired round from the answer. *)
Definition waive_qa_pass_reporting_superseded (random : Z) (task_id supervisor_agent_id
    implementer_agent_id branch bound_head reason : string) (now : Z) (db : Db)
    : result ((QaPass * option QaPass) * Db) :=
  if str_is_empty (trim reason) then Err (Parse "a QA waiver needs a reason") else
  if str_is_empty (trim supervisor_agent_id) || str_is_empty (trim bound_head)
  then Err (Parse "a QA waiver needs the supervisor identity and the waived branch tip") else
  active ← active_with_conn task_id db;
  '(retired, db) ← retire_active active now db;
  let id := new_pass_id random in
  db ← insert_round id
         (waived_row (failed_rounds_with_conn task_id db) task_id supervisor_agent_id
            implementer_agent_id branch bound_head reason now) db;
  pass ← by_id_with_conn id db;
  Ok ((pass, retired), db).
Definition waive_qa_pass (random : Z) (task_id supervisor_agent_id implementer_agent_id branch
    bound_head reason : string) (now : Z) (db : Db) : result (QaPass * Db) :=
  (λ r, (r.1.1, r.2)) <$> waive_qa_pass_reporting_superseded random task_id supervisor_agent_id
                            implementer_agent_id branch bound_head reason now db.

(** ** Work items *)
Definition qa_task_has_current_round (qa_task_id : string) (db : Db) : bool :=
  sql_exists (λ _ r, of_qa_task qa_task_id r && row_current r) (db_qa_passes db).

(** The row id of the newest round that names a work item *)
Definition newest_rowid (qa_task_id : string) (db : Db) : option Z :=
  (λ kr, q_rowid kr.2) <$>
  head (order_by (le_of (then_by (desc (λ kr, q_requested_at kr.2)) (desc (λ kr, q_rowid kr.2))))
          (sql_select (λ _ r, of_qa_task qa_task_id r) (db_qa_passes db))).

(** The WHERE clause of [obsolete_qa_task_passes], with the joined task *)
Definition obsolete_round (task_id : string) (db : Db) (r : QaPassRow) : bool :=
  match q_qa_task_id r with
  | None => false
  | Some child =>
      of_task task_id r && negb (row_current r)
      && match db_tasks db !! child with
         | Some t => status_open t
                     && existsb (String.eqb "qa-pass") (t_labels t)
         | None => false
         end
      && negb (qa_task_has_current_round child db)
      && bool_decide (Some (q_rowid r) = newest_rowid child db)
  end.

(** [usize::clamp] *)
Definition clamp (lo hi n : Z) : Z := Z.max lo (Z.min hi n).

Definition obsolete_qa_task_passes (task_id : string) (n : Z) (db : Db) : result (list QaPass) :=
  parse_rows (limit (Z.to_nat (clamp 1 100 n))
    (order_by (le_of (then_by (asc (λ kr, q_requested_at kr.2)) (asc (λ kr, q_rowid kr.2))))
       (sql_select (λ _ r, obsolete_round task_id db r) (db_qa_passes db)))).

(** ** Carrying and withdrawing *)
Definition carry_summary (from : QaPass) (head reason : string) : string :=
  "carried over from @" +:+ head +:+ " (pass " +:+ qp_id from +:+ ", round " +:+
  show_z (qp_round from) +:+ ", " +:+ QaPassState_to_string (qp_state from) +:+ "): " +:+
  trim reason +:+ ". Original verdict: " +:+
  match qp_summary from with Some s => s | None => "(none recorded)" end.

Definition carried_row (from : QaPass) (summary branch bound_head : string) (now : Z)
    : QaPassRow :=
  {| q_rowid := 0; q_task_id := qp_task_id from; q_round := qp_round from;
     q_implementer_agent_id := qp_implementer_agent_id from; q_branch := branch;
     q_bound_head := bound_head; q_qa_task_id := qp_qa_task_id from;
     q_reviewer_agent_id := qp_reviewer_agent_id from;
     q_state := QaPassState_to_string (qp_state from); q_summary := Some summary;
     q_issues_json := qp_issues_json from; q_ledger_path := qp_ledger_path from;
     q_issuer_agent_id := qp_issuer_agent_id from; q_requested_at := now;
     q_deadline_at := now; q_resolved_at := Some now |}.

(** A panic unwinds through the transaction, which rolls back; it is shown as
    an error. *)
Definition slice_panic : StoreError := Other "panicked: byte index is not a char boundary".

Definition carry_qa_pass (random : Z) (from : QaPass) (bound_head branch reason : string)
    (now : Z) (db : Db) : result (QaPass * Db) :=
  if negb (QaPassState_satisfies_gate (qp_state from)) then
    Err (Parse ("only a passed or waived QA round carries to a new tip; pass " +:+ qp_id from +:+
                " is " +:+ QaPassState_to_string (qp_state from)))
  else if str_is_empty (trim bound_head) || str_is_empty (trim reason) then
    Err (Parse "a carried QA verdict needs the new tip and the reason it is the same delivery")
  else
  active ← active_with_conn (qp_task_id from) db;
  db ← match active with
       | Some p => qa_set_state (qp_id p) QaPassState_Superseded (Some now) db
       | None => Ok db
       end;
  let id := new_pass_id random in
  head ← ok_or (head8 from) slice_panic;
  db ← insert_round id (carried_row from (carry_summary from head reason) branch bound_head now) db;
  pass ← by_id_with_conn id db;
  Ok (pass, db).

Definition withdraw_round (id reason : string) (now : Z) (db : Db) : result (option QaPass * Db) :=
  db ← update_round id (λ r, r <| q_state := "superseded" |>
                               <| q_summary := Some (QA_PASS_WITHDRAWN_PREFIX +:+ trim reason) |>
                               <| q_resolved_at := Some now |>) db;
  pass ← by_id_with_conn id db;
  Ok (Some pass, db).

Definition withdraw_open_qa_pass (task_id reason : string) (include_claimed : bool) (now : Z)
    (db : Db) : result (option QaPass * Db) :=
  if str_is_empty (trim reason) then Err (Parse "withdrawing a QA round needs a reason") else
  db ← expire_with_conn task_id now db;
  active ← active_with_conn task_id db;
  match active with
  | None => Ok (None, db)
  | Some p => if bool_decide (qp_state p = QaPassState_Claimed) && negb include_claimed
              then Ok (None, db) else withdraw_round (qp_id p) reason now db
  end.

Definition withdraw_qa_pass_for_qa_task (qa_task_id reason : string) (now : Z) (db : Db)
    : result (option QaPass * Db) :=
  if str_is_empty (trim reason) then Err (Parse "withdrawing a QA round needs a reason") else
  active ← first_row (sql_select (λ _ r, of_qa_task qa_task_id r && row_active r) (db_qa_passes db));
  match active with
  | None => Ok (None, db)
  | Some p => withdraw_round (qp_id p) reason now db
  end.

(** ** Queries *)
Definition latest_qa_pass (task_id : string) (now : Z) (db : Db) : result (option QaPass * Db) :=
  db ← expire_with_conn task_id now db;
  latest ← latest_with_conn task_id db;
  Ok (latest, db).

(** A round of the same task that [newest_first] puts before this one *)
Definition newer_round (current newer : string * QaPassRow) : bool :=
  of_task (q_task_id current.2) newer.2
  && ((q_requested_at current.2 <? q_requested_at newer.2)
      || ((q_requested_at newer.2 =? q_requested_at current.2)
          && (q_round current.2 <? q_round newer.2))
      || ((q_requested_at newer.2 =? q_requested_at current.2)
          && (q_round newer.2 =? q_round current.2)
          && match String.compare (fst newer) (fst current) with Gt => true | _ => false end)).

(** [row.get::<_, u32>] refuses an integer outside u32. *)
Definition get_u32 (n : Z) : result Z :=
  if (0 <=? n) && (n <? 2 ^ 32) then Ok n
  else Err (Database ("Integer " +:+ show_z n +:+ " out of range at index 2")).

Definition latest_failed_qa_reviewers (task_ids : list string) (db : Db)
    : result (gmap string (string * Z)) :=
  let rows := sql_select (λ id r,
      existsb (String.eqb (q_task_id r)) task_ids && String.eqb (q_state r) "failed"
      && bool_decide (is_Some (q_reviewer_agent_id r))
      && negb (sql_exists (λ id' r', newer_round (id, r) (id', r')) (db_qa_passes db)))
      (db_qa_passes db) in
  foldl (λ acc kr,
      m ← acc; round ← get_u32 (q_round kr.2);
      Ok (match q_reviewer_agent_id kr.2 with
          | Some reviewer => <[q_task_id kr.2 := (reviewer, round)]> m
          | None => m
          end)) (Ok ∅) rows.

Definition satisfying_qa_pass_for_head (task_id head : string) (db : Db)
    : result (option QaPass) :=
  first_row (order_by (le_of (desc (λ kr, q_requested_at kr.2)))
    (sql_select (λ _ r, of_task task_id r && String.eqb (q_bound_head r) head && row_satisfies r)
       (db_qa_passes db))).

Definition list_filtered (task_id : string) (satisfying_only : bool) (db : Db)
    : result (list QaPass) :=
  parse_rows (order_by (le_of newest_first)
    (sql_select (λ _ r, of_task task_id r && (negb satisfying_only || row_satisfies r))
       (db_qa_passes db))).
Definition satisfying_qa_passes (task_id : string) (db : Db) : result (list QaPass) :=
  list_filtered task_id true db.
Definition list_qa_passes (task_id : string) (db : Db) : result (list QaPass) :=
  list_filtered task_id false db.

(** ** Snapshots of a peer *)
Definition blank_option (o : option string) : bool :=
  match o with Some s => str_is_empty s | None => true end.

Definition invalid_snapshot (p : QaPass) : bool :=
  str_is_empty (qp_id p) || str_is_empty (qp_task_id p) || str_is_empty (qp_bound_head p)
  || str_is_empty (qp_implementer_agent_id p) || str_is_empty (qp_branch p) || (qp_round p =? 0)
  || opt_eqb (qp_reviewer_agent_id p) (Some (qp_implementer_agent_id p))
  || match qp_state p with
     | QaPassState_Passed | QaPassState_Failed =>
         blank_option (qp_reviewer_agent_id p) || blank_option (qp_ledger_path p)
         || bool_decide (qp_resolved_at p = None)
     | QaPassState_Waived =>
         blank_option (qp_issuer_agent_id p) || bool_decide (qp_resolved_at p = None)
     | _ => false
     end.

Definition same_delivery (previous p : QaPass) : bool :=
  String.eqb (qp_task_id previous) (qp_task_id p)
  && String.eqb (qp_bound_head previous) (qp_bound_head p)
  && String.eqb (qp_branch previous) (qp_branch p)
  && String.eqb (qp_implementer_agent_id previous) (qp_implementer_agent_id p)
  && (qp_requested_at previous =? qp_requested_at p) && (qp_round previous =? qp_round p)
  && (qp_deadline_at previous =? qp_deadline_at p)
  && match qp_qa_task_id previous, qp_qa_task_id p with
     | Some a, Some b => String.eqb a b
     | _, _ => true
     end.

(** [Option]'s derived order *)
Definition option_gt (a b : option Z) : bool :=
  match a, b with
  | Some x, Some y => y <? x
  | Some _, None => true
  | None, _ => false
  end.

Definition is_verdict (state : QaPassState) : bool :=
  match state with QaPassState_Passed | QaPassState_Failed => true | _ => false end.

(** What the snapshot of a known round does: apply it, keep what is there, or fail *)
Inductive ImportDecision := ImportApply | ImportKeep | ImportConflict (msg : string).

Definition decide_import (previous p : QaPass) (changed_at : Z) (version : option Z)
    : ImportDecision :=
  if negb (same_delivery previous p)
  then ImportConflict "QA snapshot changes immutable delivery identity" else
  let old_time := match version with
                  | Some t => t
                  | None => match qp_resolved_at previous with
                            | Some t => t
                            | None => qp_requested_at previous
                            end
                  end in
  let late_verdict := bool_decide (qp_state previous = QaPassState_TimedOut)
                      && is_verdict (qp_state p)
                      && match qp_resolved_at p with
                         | Some t => t <=? qp_deadline_at p
                         | None => false
                         end in
  if is_verdict (qp_state previous) && bool_decide (qp_state p = QaPassState_TimedOut)
  then ImportKeep else
  if (negb (QaPassState_is_active (qp_state previous)) && QaPassState_is_active (qp_state p))
     || negb late_verdict
        && ((changed_at <? old_time)
            || option_gt (qp_resolved_at previous) (qp_resolved_at p)
               && negb (QaPassState_is_active (qp_state previous)))
  then ImportKeep else
  if negb late_verdict && (changed_at =? old_time) && negb (bool_decide (previous = p))
  then ImportConflict "conflicting independent QA snapshots" else
  ImportApply.

(** The columns an import may change on a known round *)
Definition merge_snapshot (p : QaPass) (r : QaPassRow) : QaPassRow :=
  r <| q_qa_task_id := coalesce (qp_qa_task_id p) (q_qa_task_id r) |>
    <| q_reviewer_agent_id := qp_reviewer_agent_id p |>
    <| q_state := QaPassState_to_string (qp_state p) |> <| q_summary := qp_summary p |>
    <| q_issues_json := qp_issues_json p |> <| q_ledger_path := qp_ledger_path p |>
    <| q_issuer_agent_id := qp_issuer_agent_id p |> <| q_resolved_at := qp_resolved_at p |>.

Definition snapshot_row (p : QaPass) : QaPassRow :=
  {| q_rowid := 0; q_task_id := qp_task_id p; q_round := qp_round p;
     q_implementer_agent_id := qp_implementer_agent_id p; q_branch := qp_branch p;
     q_bound_head := qp_bound_head p; q_qa_task_id := qp_qa_task_id p;
     q_reviewer_agent_id := qp_reviewer_agent_id p;
     q_state := QaPassState_to_string (qp_state p); q_summary := qp_summary p;
     q_issues_json := qp_issues_json p; q_ledger_path := qp_ledger_path p;
     q_issuer_agent_id := qp_issuer_agent_id p; q_requested_at := qp_requested_at p;
     q_deadline_at := qp_deadline_at p; q_resolved_at := qp_resolved_at p |}.

(** INSERT .. ON CONFLICT(id) DO UPDATE, and the version of the round *)
Definition upsert_snapshot (p : QaPass) (changed_at : Z) (db : Db) : result Db :=
  db ← match db_qa_passes db !! qp_id p with
       | Some _ => update_round (qp_id p) (merge_snapshot p) db
       | None => insert_round (qp_id p) (snapshot_row p) db
       end;
  Ok (db <| db_qa_sync ::= <[qp_id p := changed_at]> |>).

(** The open round of the task, when it is another one: keep it (the import
    stops), or supersede it when the snapshot replaces it *)
Definition import_over_active (p : QaPass) (changed_at : Z) (db : Db) : result (unit * Db) :=
  active ← active_with_conn (qp_task_id p) db;
  match option_filter (λ a, negb (String.eqb (qp_id a) (qp_id p))) active with
  | Some a =>
      if QaPassState_is_active (qp_state p) && (qp_requested_at p <=? qp_requested_at a)
      then Ok (tt, db)
      else
        superseded ←
          (if QaPassState_is_active (qp_state p) || String.eqb (qp_bound_head a) (qp_bound_head p)
           then qa_set_state (qp_id a) QaPassState_Superseded (Some changed_at) db else Ok db);
        pair tt <$> upsert_snapshot p changed_at superseded
  | None => pair tt <$> upsert_snapshot p changed_at db
  end.

Definition import_qa_pass (p : QaPass) (changed_at : Z) (db : Db) : result (unit * Db) :=
  if invalid_snapshot p then Err (Parse "invalid independent QA snapshot") else
  match by_id_with_conn (qp_id p) db with
  | Ok previous =>
      match decide_import previous p changed_at (db_qa_sync db !! qp_id p) with
      | ImportConflict msg => Err (Parse msg)
      | ImportKeep => Ok (tt, db)
      | ImportApply => import_over_active p changed_at db
      end
  | Err (NotFound _) => import_over_active p changed_at db
  | Err error => Err error
  end.

End qa_passes.
