(* ===== verification/QaPassSpec.v ===== *)
(** * The life of a QA round

    What a write may do to one round ([round_step]), how a round comes to be
    ([round_born]), and the table as a transition system of such steps
    ([table_step]) that keeps the table well-formed ([qa_wf]); every write of
    [QaPasses] is a sequence of table steps.  Then what the single operations
    promise. *)

From S2P Require Import Prelude Enums TaskTypes Leases Db TaskRows QaPasses.

(** ** Reading rows *)

Lemma QaPassState_from_str_inv s x : QaPassState_from_str s = Ok x → s = QaPassState_to_string x.
Proof.
  unfold QaPassState_from_str. simpl. intros H.
  repeat match type of H with context [String.eqb ?a ?b] =>
    destruct (String.eqb_spec a b); [by simplify_eq/=|] end.
  done.
Qed.

(** A row with its state parsed *)
Definition row_pass (id : string) (r : QaPassRow) (state : QaPassState) : QaPass :=
  {| qp_id := id; qp_task_id := q_task_id r; qp_round := Z.max 1 (q_round r) mod 2 ^ 32;
     qp_implementer_agent_id := q_implementer_agent_id r; qp_branch := q_branch r;
     qp_bound_head := q_bound_head r; qp_qa_task_id := q_qa_task_id r;
     qp_reviewer_agent_id := q_reviewer_agent_id r; qp_state := state;
     qp_summary := q_summary r; qp_issues_json := q_issues_json r;
     qp_ledger_path := q_ledger_path r; qp_issuer_agent_id := q_issuer_agent_id r;
     qp_requested_at := q_requested_at r; qp_deadline_at := q_deadline_at r;
     qp_resolved_at := q_resolved_at r |}.

Definition in_state (r : QaPassRow) (s : QaPassState) : Prop :=
  q_state r = QaPassState_to_string s.

Lemma parse_row_state id r s : in_state r s → parse_row id r = Ok (row_pass id r s).
Proof. unfold in_state, parse_row. intros ->. by destruct s. Qed.

Lemma parse_row_Ok id r p :
  parse_row id r = Ok p → in_state r (qp_state p) ∧ p = row_pass id r (qp_state p).
Proof.
  unfold parse_row. destruct (QaPassState_from_str (q_state r)) eqn:Hs; [|done].
  intros [= <-]. split; [|done]. by apply QaPassState_from_str_inv.
Qed.

(** The texts SQL compares are the states Rust compares. *)
Lemma row_active_state r s : in_state r s → row_active r = QaPassState_is_active s.
Proof. unfold row_active. intros ->. by destruct s. Qed.
Lemma row_satisfies_state r s : in_state r s → row_satisfies r = QaPassState_satisfies_gate s.
Proof. unfold row_satisfies. intros ->. by destruct s. Qed.
Lemma in_state_inj r s s' : in_state r s → in_state r s' → s = s'.
Proof. unfold in_state. intros -> H. by destruct s, s'. Qed.

Lemma first_row_Some rows p :
  first_row rows = Ok (Some p) →
  ∃ r, head rows = Some (qp_id p, r) ∧ in_state r (qp_state p) ∧ p = row_pass (qp_id p) r (qp_state p).
Proof.
  destruct rows as [|[id r] rows]; simpl; [done|].
  destruct (parse_row id r) as [p'|] eqn:Hp; simpl; [|done]. intros [= ->].
  apply parse_row_Ok in Hp as [Hs Hp]. exists r. rewrite Hp. simpl. by rewrite <-Hp.
Qed.

Lemma head_elem {A} (l : list A) x : head l = Some x → x ∈ l.
Proof. destruct l; simpl; [done|]. intros [= ->]. left. Qed.

(** ** Well-formed tables *)

(** The CHECK on the state column and the partial unique index *)
Record qa_wf (t : gmap string QaPassRow) : Prop := mk_qa_wf {
  qa_states : ∀ id r, t !! id = Some r → ∃ s, in_state r s;
  qa_one_open : ∀ id1 id2 r1 r2, t !! id1 = Some r1 → t !! id2 = Some r2 →
    row_active r1 = true → row_active r2 = true → q_task_id r1 = q_task_id r2 → id1 = id2;
}.

Lemma NoDup_active_ids t :
  NoDup (active_task_ids t) ↔
  ∀ id1 id2 r1 r2, t !! id1 = Some r1 → t !! id2 = Some r2 →
    row_active r1 = true → row_active r2 = true → q_task_id r1 = q_task_id r2 → id1 = id2.
Proof.
  unfold active_task_ids. split.
  - intros Hnd id1 id2 r1 r2 H1 H2 Ha1 Ha2 Ht.
    assert ((id1, r1) ∈ sql_select (λ _ r, row_active r) t) as [i1 Hi1]%list_elem_of_lookup
      by (by apply elem_of_sql_select).
    assert ((id2, r2) ∈ sql_select (λ _ r, row_active r) t) as [i2 Hi2]%list_elem_of_lookup
      by (by apply elem_of_sql_select).
    eapply NoDup_lookup in Hnd as Hi; [|by rewrite list_lookup_fmap, Hi1|].
    2:{ rewrite list_lookup_fmap, Hi2. simpl. by rewrite Ht. }
    congruence.
  - intros Hu. apply NoDup_fmap_2_strong.
    + intros [id1 r1] [id2 r2] [H1 Ha1]%elem_of_sql_select [H2 Ha2]%elem_of_sql_select Ht.
      simpl in *. assert (id1 = id2) as -> by eauto. congruence.
    + eapply NoDup_fmap_1, NoDup_sql_select.
Qed.

Lemma write_rounds_Ok t db db' :
  write_rounds t db = Ok db' → db' = db <| db_qa_passes := t |> ∧ NoDup (active_task_ids t).
Proof. unfold write_rounds. case_bool_decide; [|done]. by intros [= <-]. Qed.

Lemma write_rounds_wf t db :
  qa_wf t → write_rounds t db = Ok (db <| db_qa_passes := t |>).
Proof.
  intros [_ Hu]. unfold write_rounds. rewrite bool_decide_eq_true_2; [done|].
  by apply NoDup_active_ids.
Qed.

(** ** Rounds *)

(** What one write may do to a round that exists *)
Inductive round_step : QaPassRow → QaPassRow → Prop :=
  | step_link r child : round_step r (r <| q_qa_task_id := Some child |>)
  | step_claim r a :
      row_active r = true → str_is_empty (trim a) = false → a ≠ q_implementer_agent_id r →
      round_step r (r <| q_reviewer_agent_id := Some a |> <| q_state := "claimed" |>)
  | step_release r : q_state r = "claimed" → round_step r (unclaim r)
  | step_verdict r a v summary issues ledger now :
      row_active r = true → q_reviewer_agent_id r = Some a →
      str_is_empty (trim a) = false → a ≠ q_implementer_agent_id r →
      now < q_deadline_at r → str_is_empty ledger = false →
      round_step r (r <| q_state := QaPassState_to_string (verdict_state v) |>
                      <| q_summary := Some summary |> <| q_issues_json := issues |>
                      <| q_ledger_path := Some ledger |> <| q_resolved_at := Some now |>)
  | step_timeout r now :
      row_active r = true → q_deadline_at r ≤ now →
      round_step r (r <| q_state := "timed_out" |> <| q_resolved_at := Some now |>)
  | step_supersede r now :
      row_active r = true →
      round_step r (r <| q_state := "superseded" |> <| q_resolved_at := Some now |>)
  | step_withdraw r now reason :
      row_active r = true →
      round_step r (r <| q_state := "superseded" |>
                      <| q_summary := Some (QA_PASS_WITHDRAWN_PREFIX +:+ reason) |>
                      <| q_resolved_at := Some now |>)
  | step_import r previous p changed_at version :
      parse_row (qp_id p) r = Ok previous → invalid_snapshot p = false →
      decide_import previous p changed_at version = ImportApply →
      round_step r (merge_snapshot p r).

(** How a round comes to be; [C] holds of the rounds that may be carried. *)
Inductive round_born (C : QaPass → Prop) : QaPassRow → Prop :=
  | born_open failed new now :
      str_is_empty (trim (nq_bound_head new)) = false →
      str_is_empty (trim (nq_implementer_agent_id new)) = false →
      round_born C (dispatched_row failed new now)
  | born_waived failed task supervisor implementer branch bound_head reason now :
      str_is_empty (trim supervisor) = false → str_is_empty (trim bound_head) = false →
      round_born C (waived_row failed task supervisor implementer branch bound_head reason now)
  | born_carried from summary branch bound_head now :
      C from → QaPassState_satisfies_gate (qp_state from) = true →
      round_born C (carried_row from summary branch bound_head now)
  | born_imported p :
      invalid_snapshot p = false → round_born C (snapshot_row p).

Inductive table_step (C : QaPass → Prop) : relation (gmap string QaPassRow) :=
  | ts_update t id r r' :
      t !! id = Some r → round_step r r' → NoDup (active_task_ids (<[id := r']> t)) →
      table_step C t (<[id := r']> t)
  | ts_insert t id r rowid :
      t !! id = None → round_born C r →
      NoDup (active_task_ids (<[id := r <| q_rowid := rowid |>]> t)) →
      table_step C t (<[id := r <| q_rowid := rowid |>]> t)
  | ts_release t P :
      (∀ r, P r = true → q_state r = "claimed") →
      table_step C t (sql_update (λ _ r, P r) unclaim t).

Lemma table_step_mono (C C' : QaPass → Prop) t t' :
  (∀ p, C p → C' p) → table_step C t t' → table_step C' t t'.
Proof.
  intros HC [t0 id r r' Hr Hs Hnd|t0 id r rowid Hr Hb Hnd|t0 P HP].
  - by apply ts_update with r.
  - apply ts_insert; [done| |done].
    destruct Hb; [by apply born_open|by apply born_waived|by apply born_carried; [apply HC|]|by apply born_imported].
  - by apply ts_release.
Qed.

(** *** Steps keep the table well-formed *)

Lemma round_born_state C r rowid :
  round_born C r → ∃ s, in_state (r <| q_rowid := rowid |>) s.
Proof.
  intros [].
  - by exists QaPassState_Pending.
  - by exists QaPassState_Waived.
  - by exists (qp_state from).
  - by exists (qp_state p).
Qed.

Lemma round_step_state r r' : round_step r r' → (∃ s, in_state r s) → ∃ s, in_state r' s.
Proof.
  intros [] Hs.
  - exact Hs.
  - by exists QaPassState_Claimed.
  - by exists QaPassState_Pending.
  - by exists (verdict_state v).
  - by exists QaPassState_TimedOut.
  - by exists QaPassState_Superseded.
  - by exists QaPassState_Superseded.
  - by exists (qp_state p).
Qed.

Lemma unclaim_active r : q_state r = "claimed" → row_active (unclaim r) = row_active r.
Proof. unfold row_active, unclaim. simpl. by intros ->. Qed.

Lemma table_step_wf C t t' : table_step C t t' → qa_wf t → qa_wf t'.
Proof.
  intros [t0 id r r' Hr Hstep Hnd|t0 id r rowid Hr Hborn Hnd|t0 P HP] [Hs Hu].
  - split; [|by apply NoDup_active_ids]. intros id' r'' [[<- <-]|[Hne Hid]]%lookup_insert_Some; [|by eauto].
    eapply round_step_state; [done|by eauto].
  - split; [|by apply NoDup_active_ids]. intros id' r'' [[<- <-]|[Hne Hid]]%lookup_insert_Some; [|by eauto].
    by eapply round_born_state.
  - assert (∀ id r, sql_update (λ _ r, P r) unclaim t0 !! id = Some r →
      ∃ r0, t0 !! id = Some r0 ∧ q_task_id r = q_task_id r0 ∧ row_active r = row_active r0
        ∧ ∃ s, in_state r s) as H.
    { intros id r. rewrite lookup_sql_update, fmap_Some. intros (r0 & Hr0 & ->). exists r0.
      destruct (P r0) eqn:E; [|by eauto]. split_and!; [done..|by apply unclaim_active, HP|].
      by exists QaPassState_Pending. }
    split; [by intros id r (r0 & _ & _ & _ & Hs')%H|].
    intros id1 id2 r1 r2 (s1 & H1 & Ht1 & Ha1 & _)%H (s2 & H2 & Ht2 & Ha2 & _)%H.
    rewrite Ha1, Ha2, Ht1, Ht2. by eapply Hu.
Qed.

Lemma table_steps_wf C t t' : rtc (table_step C) t t' → qa_wf t → qa_wf t'.
Proof. induction 1; [done|]. intros H'. by eapply IHrtc, table_step_wf. Qed.

(** *** What happens to one round *)

(** A table step moves every round by round steps and loses none. *)
Lemma table_step_round C t t' id r :
  table_step C t t' → t !! id = Some r → ∃ r', t' !! id = Some r' ∧ rtc round_step r r'.
Proof.
  intros [t0 id' r0 r' Hr Hstep _|t0 id' r0 rowid Hr _ _|t0 P HP] Hid.
  - destruct (decide (id' = id)) as [->|].
    + exists r'. rewrite lookup_insert_eq. split; [done|]. simplify_eq. by apply rtc_once.
    + exists r. by rewrite lookup_insert_ne.
  - exists r. rewrite lookup_insert_ne; [done|congruence].
  - rewrite lookup_sql_update, Hid. simpl. destruct (P r) eqn:E; [|by eauto using rtc_refl].
    exists (unclaim r). split; [done|]. by apply rtc_once, step_release, HP.
Qed.

Lemma table_steps_round C t t' id r :
  rtc (table_step C) t t' → t !! id = Some r → ∃ r', t' !! id = Some r' ∧ rtc round_step r r'.
Proof.
  intros H. revert r. induction H as [|t1 t2 t3 H1 _ IH]; intros r Hr; [by eauto using rtc_refl|].
  destruct (table_step_round C t1 t2 id r H1 Hr) as (r2 & Hr2 & Hs).
  destruct (IH r2 Hr2) as (r3 & Hr3 & Hs'). exists r3. split; [done|by etrans].
Qed.

(** A property that births establish and round steps keep holds of every round. *)
Lemma table_steps_all C (P : QaPassRow → Prop) t t' :
  (∀ r rowid, round_born C r → P (r <| q_rowid := rowid |>)) →
  (∀ r r', round_step r r' → P r → P r') →
  rtc (table_step C) t t' → map_Forall (λ _ r, P r) t → map_Forall (λ _ r, P r) t'.
Proof.
  intros Hb Hs. induction 1 as [|t1 t2 t3 H1 _ IH]; [done|]. intros Hall. apply IH.
  destruct H1 as [t0 id' r0 r' Hr Hstep _|t0 id' r0 rowid Hr Hborn _|t0 Q HQ].
  - apply map_Forall_insert_2; [|done]. eapply Hs; [done|by eapply Hall].
  - apply map_Forall_insert_2; [by apply Hb|done].
  - intros id r. rewrite lookup_sql_update, fmap_Some. intros (r0 & Hr0 & ->).
    destruct (Q r0) eqn:E; [|by eapply Hall]. eapply Hs; [by apply step_release, HQ|by eapply Hall].
Qed.

(** The delivery a round is about never changes, and a round that is closed
    is never opened again. *)
Definition round_identity (r : QaPassRow) :=
  (q_task_id r, q_round r, q_implementer_agent_id r, q_branch r, q_bound_head r,
   q_requested_at r, q_deadline_at r).

Lemma decide_import_reopens previous p changed_at version :
  decide_import previous p changed_at version = ImportApply →
  QaPassState_is_active (qp_state previous) = false → QaPassState_is_active (qp_state p) = false.
Proof.
  unfold decide_import. intros H Hp. rewrite Hp in H. cbn [negb andb] in H.
  destruct (negb (same_delivery previous p)); [done|].
  destruct (is_verdict (qp_state previous) && bool_decide (qp_state p = QaPassState_TimedOut)); [done|].
  by destruct (QaPassState_is_active (qp_state p)).
Qed.

Lemma round_step_final r r' :
  round_step r r' →
  round_identity r' = round_identity r ∧ (row_active r = false → row_active r' = false).
Proof.
  intros Hstep. split; [by destruct Hstep|]. intros Hr.
  destruct Hstep as [| | r Hc| | | | |r previous p changed_at version Hp Hv Hd]; try done; try congruence.
  - unfold row_active in Hr. by rewrite Hc in Hr.
  - apply parse_row_Ok in Hp as [Hs _]. rewrite (row_active_state _ _ Hs) in Hr.
    rewrite (row_active_state _ (qp_state p)) by done. by eapply decide_import_reopens.
Qed.

Lemma round_steps_final r r' :
  rtc round_step r r' →
  round_identity r' = round_identity r ∧ (row_active r = false → row_active r' = false).
Proof.
  induction 1 as [|r1 r2 r3 [H1 H2]%round_step_final _ [IH1 IH2]]; [done|].
  split; [congruence|tauto].
Qed.

(** *** Independence *)

(** A recorded verdict names a reviewer, who is not the implementer, and its
    ledger; a waiver names its issuer; no claim is the implementer's own. *)
Definition some_text (o : option string) : Prop := ∃ s, o = Some s ∧ str_is_empty s = false.

Definition independent (r : QaPassRow) : Prop :=
  q_reviewer_agent_id r ≠ Some (q_implementer_agent_id r)
  ∧ (q_state r = "passed" ∨ q_state r = "failed" →
     some_text (q_reviewer_agent_id r) ∧ some_text (q_ledger_path r) ∧ is_Some (q_resolved_at r))
  ∧ (q_state r = "waived" → some_text (q_issuer_agent_id r) ∧ is_Some (q_resolved_at r)).

Lemma blank_option_some o : blank_option o = false → some_text o.
Proof. destruct o as [s|]; simpl; [|done]. intros H. by exists s. Qed.

Lemma valid_snapshot_independent p : invalid_snapshot p = false → independent (snapshot_row p).
Proof.
  unfold invalid_snapshot, independent. intros H. bool_to_prop. simpl.
  split_and!.
  - intros E. unfold opt_eqb in *. bool_to_prop. done.
  - intros Hs. destruct (qp_state p); simpl in *; try (by destruct Hs); bool_to_prop;
      split_and!; try (by apply blank_option_some); by apply not_eq_None_Some.
  - intros Hs. destruct (qp_state p); simpl in *; try done. bool_to_prop.
    split; [by apply blank_option_some|by apply not_eq_None_Some].
Qed.

Lemma trim_nonempty a : str_is_empty (trim a) = false → str_is_empty a = false.
Proof. by destruct a. Qed.

Definition pass_independent (p : QaPass) : Prop := independent (snapshot_row p).

Lemma born_independent C r rowid :
  (∀ from, C from → pass_independent from) →
  round_born C r → independent (r <| q_rowid := rowid |>).
Proof.
  intros HC []; unfold independent; simpl.
  - split_and!; [done| |done]. by intros [].
  - split_and!; [done|by intros []|]. intros _. split; [|done].
    eexists. split; [done|by apply trim_nonempty].
  - apply HC in H as (H1 & H2 & H3). simpl in *. split_and!; [done| |].
    + intros Hs. destruct (H2 Hs) as (? & ? & _). by split_and!.
    + intros Hs. by destruct (H3 Hs).
  - by apply valid_snapshot_independent.
Qed.

Lemma same_delivery_implementer previous p :
  same_delivery previous p = true → qp_implementer_agent_id previous = qp_implementer_agent_id p.
Proof. unfold same_delivery. intros H. by bool_to_prop. Qed.

Lemma decide_import_same previous p changed_at version :
  decide_import previous p changed_at version = ImportApply → same_delivery previous p = true.
Proof. unfold decide_import. by destruct (same_delivery previous p). Qed.

Lemma round_step_independent r r' : round_step r r' → independent r → independent r'.
Proof.
  intros Hstep Hi. destruct Hstep; try done; unfold independent in *; simpl.
  - split_and!; [congruence|by intros []|done].
  - split_and!; [done|by intros []|done].
  - destruct Hi as (Hi & _). split_and!; [done| |by destruct v]. intros _.
    split_and!; [by eexists; split; [|apply trim_nonempty]|by eexists|done].
  - destruct Hi as (Hi & _). split_and!; [done|by intros []|done].
  - destruct Hi as (Hi & _). split_and!; [done|by intros []|done].
  - destruct Hi as (Hi & _). split_and!; [done|by intros []|done].
  - apply valid_snapshot_independent in H0 as (Hi1 & Hi2 & Hi3).
    apply decide_import_same, same_delivery_implementer in H1.
    apply parse_row_Ok in H as [_ H]. rewrite H in H1. simpl in *. by rewrite H1.
Qed.

(** ** Statements as steps of the table *)

(** Writes that touch the rounds by table steps, and nothing else but their versions *)
Definition qa_only (C : QaPass → Prop) (db db' : Db) : Prop :=
  rtc (table_step C) (db_qa_passes db) (db_qa_passes db')
  ∧ ∃ sync, db' = db <| db_qa_passes := db_qa_passes db' |> <| db_qa_sync := sync |>.

#[export] Instance qa_only_preorder C : PreOrder (qa_only C).
Proof.
  split.
  - intros db. split; [done|]. exists (db_qa_sync db). by destruct db.
  - intros db1 db2 db3 [H12 (s12 & E12)] [H23 (s23 & E23)]. split; [by etrans|].
    exists s23. rewrite E23 at 1. by rewrite E12.
Qed.

Lemma qa_only_refl C db : qa_only C db db.
Proof. reflexivity. Qed.

Lemma qa_only_write C t db :
  rtc (table_step C) (db_qa_passes db) t → qa_only C db (db <| db_qa_passes := t |>).
Proof. intros H. split; [done|]. exists (db_qa_sync db). by destruct db. Qed.

Lemma update_round_only C id f db db' r :
  db_qa_passes db !! id = Some r → round_step r (f r) →
  update_round id f db = Ok db' → qa_only C db db'.
Proof.
  intros Hr Hstep H. unfold update_round in H.
  apply write_rounds_Ok in H as [-> Hnd]. apply qa_only_write, rtc_once.
  rewrite (sql_update_key_Some _ _ _ _ Hr) in *. by econstructor.
Qed.

Lemma insert_round_only C id r db db' :
  round_born C r → insert_round id r db = Ok db' → qa_only C db db'.
Proof.
  unfold insert_round. intros Hb H. destruct (db_qa_passes db !! id) eqn:Hid; [done|].
  apply write_rounds_Ok in H as [-> Hnd]. apply qa_only_write, rtc_once. by econstructor.
Qed.

(** ** The operations as steps of the table *)

Section qa_ops.
Context {host : Host}.

Inductive qa_op :=
  | QOpen (random : Z) (new : NewQaPass)
  | QSetTask (pass_id qa_task_id : string)
  | QClaim (registry : bool) (task_id reviewer : string)
  | QRelease (qa_task_id : string) (reviewer : option string)
  | QResolve (task_id reviewer : string) (verdict : QaVerdict) (summary : string)
      (issues_json : option string) (ledger_path : string)
  | QWaive (random : Z) (task_id supervisor implementer branch bound_head reason : string)
  | QCarry (random : Z) (from : QaPass) (bound_head branch reason : string)
  | QWithdraw (task_id reason : string) (include_claimed : bool)
  | QWithdrawForQaTask (qa_task_id reason : string)
  | QLatest (task_id : string)
  | QImport (p : QaPass) (changed_at : Z).

Definition exec_qa_op (now : Z) (o : qa_op) (db : Db) : result Db :=
  match o with
  | QOpen random new => snd <$> open_qa_pass random new now db
  | QSetTask pass_id qa_task_id => snd <$> set_qa_task pass_id qa_task_id db
  | QClaim registry task_id reviewer => snd <$> claim_qa_pass registry task_id reviewer now db
  | QRelease qa_task_id reviewer => snd <$> release_qa_claim qa_task_id reviewer db
  | QResolve task_id reviewer verdict summary issues ledger =>
      snd <$> resolve_qa_pass task_id reviewer verdict summary issues ledger now db
  | QWaive random task_id supervisor implementer branch bound_head reason =>
      snd <$> waive_qa_pass random task_id supervisor implementer branch bound_head reason now db
  | QCarry random from bound_head branch reason =>
      snd <$> carry_qa_pass random from bound_head branch reason now db
  | QWithdraw task_id reason include_claimed =>
      snd <$> withdraw_open_qa_pass task_id reason include_claimed now db
  | QWithdrawForQaTask qa_task_id reason =>
      snd <$> withdraw_qa_pass_for_qa_task qa_task_id reason now db
  | QLatest task_id => snd <$> latest_qa_pass task_id now db
  | QImport p changed_at => snd <$> import_qa_pass p changed_at db
  end.

(** The database after an operation; a failed one is rolled back. *)
Definition run_qa_op (now : Z) (o : qa_op) (db : Db) : Db := unwrap_or (exec_qa_op now o db) db.

(** The rounds an operation carries over *)
Definition carries (o : qa_op) (from : QaPass) : Prop :=
  match o with QCarry _ from' _ _ _ => from' = from | _ => False end.

(** *** Reads *)

Lemma select_head_Some P db p :
  first_row (sql_select (λ _ r, P r) (db_qa_passes db)) = Ok (Some p) →
  ∃ r, db_qa_passes db !! qp_id p = Some r ∧ P r = true ∧ in_state r (qp_state p)
    ∧ p = row_pass (qp_id p) r (qp_state p).
Proof.
  intros (r & Hh & Hs & Hp)%first_row_Some. apply head_elem in Hh.
  apply elem_of_sql_select in Hh as [Hr HP]. by exists r.
Qed.

(** The open round of a task, and its row *)
Lemma active_Some task_id db p :
  active_with_conn task_id db = Ok (Some p) →
  ∃ r, db_qa_passes db !! qp_id p = Some r ∧ q_task_id r = task_id ∧ row_active r = true
    ∧ in_state r (qp_state p) ∧ p = row_pass (qp_id p) r (qp_state p).
Proof.
  intros (r & Hr & HP & Hs & Hp)%(select_head_Some (λ r, of_task task_id r && row_active r)).
  unfold of_task in HP. bool_to_prop. by exists r.
Qed.

Lemma first_row_total P db :
  qa_wf (db_qa_passes db) →
  (∃ p, first_row (sql_select P (db_qa_passes db)) = Ok (Some p))
  ∨ first_row (sql_select P (db_qa_passes db)) = Ok None
    ∧ ∀ id r, db_qa_passes db !! id = Some r → P id r = false.
Proof.
  intros Hwf. destruct (sql_select P (db_qa_passes db)) as [|[id r] l] eqn:Hsel.
  - right. split; [done|]. apply sql_count_zero. unfold sql_count. by rewrite Hsel.
  - left. assert ((id, r) ∈ sql_select P (db_qa_passes db)) as [Hr _]%elem_of_sql_select
      by (rewrite Hsel; left).
    destruct (qa_states _ Hwf id r Hr) as [s Hs]. exists (row_pass id r s). simpl.
    by rewrite (parse_row_state id r s Hs).
Qed.

(** No round of the task is open. *)
Definition none_open (task_id : string) (t : gmap string QaPassRow) : Prop :=
  ∀ id r, t !! id = Some r → q_task_id r = task_id → row_active r = false.

Lemma active_None task_id db :
  qa_wf (db_qa_passes db) →
  active_with_conn task_id db = Ok None ↔ none_open task_id (db_qa_passes db).
Proof.
  intros Hwf.
  destruct (first_row_total (λ _ r, of_task task_id r && row_active r) db Hwf) as [[p Hp]|[Hn Hall]];
    change (first_row _) with (active_with_conn task_id db) in *.
  - rewrite Hp. split; [done|]. intros Hno. exfalso.
    apply active_Some in Hp as (r & Hr & Ht & Ha & _). by rewrite (Hno _ _ Hr Ht) in Ha.
  - rewrite Hn. split; [|done]. intros _ id r Hr Ht. specialize (Hall id r Hr). unfold of_task in Hall.
    by rewrite Ht, String.eqb_refl in Hall.
Qed.

Lemma active_intro task_id db id r s :
  qa_wf (db_qa_passes db) → db_qa_passes db !! id = Some r → q_task_id r = task_id →
  row_active r = true → in_state r s →
  active_with_conn task_id db = Ok (Some (row_pass id r s)).
Proof.
  intros Hwf Hr Ht Ha Hs. destruct (active_with_conn task_id db) as [[p|]|] eqn:Hp.
  - apply active_Some in Hp as (r' & Hr' & Ht' & Ha' & Hs' & Heq).
    assert (qp_id p = id) as Hid by (apply (qa_one_open _ Hwf (qp_id p) id r' r); congruence).
    rewrite Hid in *. assert (r' = r) as -> by congruence.
    by rewrite Heq, (in_state_inj r s (qp_state p)).
  - apply active_None in Hp; [|done]. by rewrite (Hp _ _ Hr Ht) in Ha.
  - unfold active_with_conn in Hp.
    by destruct (first_row_total (λ _ r, of_task task_id r && row_active r) db Hwf) as [[? E]|[E _]];
      rewrite E in Hp.
Qed.

Lemma active_total task_id db :
  qa_wf (db_qa_passes db) → ∃ active, active_with_conn task_id db = Ok active.
Proof. intros Hwf. 
  destruct (first_row_total (λ _ r, of_task task_id r && row_active r) db Hwf) as [[? E]|[E _]]; eauto.
Qed.

Lemma latest_total task_id db :
  qa_wf (db_qa_passes db) → ∃ latest, latest_with_conn task_id db = Ok latest.
Proof.
  intros Hwf. unfold latest_with_conn.
  destruct (order_by _ _) as [|[id r] l] eqn:Ho; [by exists None|].
  assert ((id, r) ∈ task_rounds task_id db) as [Hr _]%elem_of_sql_select.
  { rewrite <-(elem_of_order_by (le_of newest_first)), Ho. left. }
  destruct (qa_states _ Hwf id r Hr) as [s Hs]. exists (Some (row_pass id r s)). simpl.
  by rewrite (parse_row_state id r s Hs).
Qed.

(** *** Writes that succeed *)

(** A round step keeps the table's constraints. *)
Lemma round_step_wf id r r' t :
  qa_wf t → t !! id = Some r → round_step r r' → qa_wf (<[id := r']> t).
Proof.
  intros Hwf Hr Hstep. pose proof (round_step_final _ _ Hstep) as [Hid Hcl].
  assert (q_task_id r' = q_task_id r) as Ht by (by injection Hid).
  split.
  - intros id' r'' [[<- <-]|[_ H']]%lookup_insert_Some; [|by eapply qa_states].
    eapply round_step_state; [done|by eapply qa_states].
  - assert (∀ id0 r0, <[id := r']> t !! id0 = Some r0 → row_active r0 = true →
      ∃ r1, t !! id0 = Some r1 ∧ row_active r1 = true ∧ q_task_id r0 = q_task_id r1) as H.
    { intros id0 r0 [[<- <-]|[_ H']]%lookup_insert_Some Ha; [|by eauto]. exists r.
      split_and!; [done| |done]. by destruct (row_active r); [|rewrite Hcl in Ha]. }
    intros id1 id2 r1 r2 H1 H2 Ha1 Ha2 E.
    destruct (H _ _ H1 Ha1) as (r1' & H1' & Ha1' & E1), (H _ _ H2 Ha2) as (r2' & H2' & Ha2' & E2).
    eapply qa_one_open; [done..|congruence].
Qed.

Lemma update_round_total id f db r :
  qa_wf (db_qa_passes db) → db_qa_passes db !! id = Some r → round_step r (f r) →
  update_round id f db = Ok (db <| db_qa_passes := <[id := f r]> (db_qa_passes db) |>)
  ∧ qa_wf (<[id := f r]> (db_qa_passes db)).
Proof.
  intros Hwf Hr Hstep. assert (qa_wf (<[id := f r]> (db_qa_passes db))) as Hwf' by (by eapply round_step_wf).
  split; [|done]. unfold update_round. rewrite (sql_update_key_Some _ _ _ _ Hr). by apply write_rounds_wf.
Qed.

Lemma insert_round_total id r s db :
  qa_wf (db_qa_passes db) → db_qa_passes db !! id = None → in_state r s →
  (row_active r = true → none_open (q_task_id r) (db_qa_passes db)) →
  let r' := r <| q_rowid := next_rowid db |> in
  insert_round id r db = Ok (db <| db_qa_passes := <[id := r']> (db_qa_passes db) |>)
  ∧ qa_wf (<[id := r']> (db_qa_passes db)).
Proof.
  intros Hwf Hid Hs Hno. cbv zeta. set (r' := r <| q_rowid := next_rowid db |>).
  assert (qa_wf (<[id := r']> (db_qa_passes db))) as Hwf'.
  { split.
    - intros id' r'' [[<- <-]|[_ H']]%lookup_insert_Some; [by exists s|by eapply qa_states].
    - intros id1 id2 r1 r2 [[<- <-]|[Hn1 H1]]%lookup_insert_Some [[<- <-]|[Hn2 H2]]%lookup_insert_Some
        Ha1 Ha2 E; [done| | |by eapply qa_one_open].
      + by rewrite (Hno Ha1 id2 r2) in Ha2.
      + by rewrite (Hno Ha2 id1 r1) in Ha1. }
  split; [|done]. unfold insert_round. rewrite Hid. by apply write_rounds_wf.
Qed.

(** *** Steps *)

Lemma expire_only C task_id now db db' :
  expire_with_conn task_id now db = Ok db' → qa_only C db db'.
Proof.
  unfold expire_with_conn. intros ([p|] & Hp & H)%bind_Ok; [|by inv_ok].
  destruct (Z.leb_spec (qp_deadline_at p) now) as [Hd|]; [|by inv_ok].
  apply active_Some in Hp as (r & Hr & _ & Ha & _ & Hp).
  eapply update_round_only; [done| |done]. apply step_timeout; [done|]. by rewrite Hp in Hd.
Qed.

Lemma supersede_only C task_id now db p db' :
  active_with_conn task_id db = Ok (Some p) →
  qa_set_state (qp_id p) QaPassState_Superseded (Some now) db = Ok db' → qa_only C db db'.
Proof.
  intros (r & Hr & _ & Ha & _)%active_Some H.
  eapply update_round_only; [done| |done]. by apply step_supersede.
Qed.

Lemma retire_only C task_id active now db superseded db' :
  active_with_conn task_id db = Ok active →
  retire_active active now db = Ok (superseded, db') → qa_only C db db'.
Proof.
  destruct active as [p|]; simpl; [|by intros _ [= _ <-]].
  intros Hp (db1 & H & (? & _ & [= _ <-])%bind_Ok)%bind_Ok. by eapply supersede_only.
Qed.

Lemma open_only C random new now db out db' :
  open_qa_pass_reporting_superseded random new now db = Ok (out, db') → qa_only C db db'.
Proof.
  unfold open_qa_pass_reporting_superseded. destruct (_ || _) eqn:Hv; [done|]. bool_to_prop.
  intros (db1 & Hexp & (active & Hact & Ho)%bind_Ok)%bind_Ok. apply (expire_only C) in Hexp.
  etrans; [exact Hexp|]. destruct (option_filter _ active); [by inv_ok|].
  apply bind_Ok in Ho as ([superseded db2] & Hret & (latest & Hlat & Ho)%bind_Ok).
  eapply (retire_only C) in Hret; [|exact Hact]. etrans; [exact Hret|].
  destruct (option_filter _ latest); [by inv_ok|]. unfold dispatch_or_escalate in Ho.
  destruct (_ <=? _).
  - apply bind_Ok in Ho as ([l|] & _ & Ho); [by inv_ok|done].
  - apply bind_Ok in Ho as (db3 & Hins & (? & _ & [= _ <-])%bind_Ok).
    eapply insert_round_only; [|done]. by apply born_open.
Qed.

Lemma reject_self_review_Ok pass agent_id action u :
  reject_self_review pass agent_id action = Ok u →
  str_is_empty (trim agent_id) = false ∧ agent_id ≠ qp_implementer_agent_id pass.
Proof.
  unfold reject_self_review. destruct (str_is_empty _); [done|].
  by destruct (String.eqb_spec agent_id (qp_implementer_agent_id pass)).
Qed.

Lemma claim_only C registry task_id reviewer now db p db' :
  claim_qa_pass registry task_id reviewer now db = Ok (p, db') → qa_only C db db'.
Proof.
  unfold claim_qa_pass. intros (db1 & Hexp & H)%bind_Ok. apply (expire_only C) in Hexp.
  etrans; [exact Hexp|]. apply bind_Ok in H as ([active|] & Hact & H); [|done].
  simpl in H. apply bind_Ok in H as (u & [Hb Hne]%reject_self_review_Ok & H).
  destruct (option_filter _ _); [done|]. apply bind_Ok in H as (db2 & H & (? & _ & [= _ <-])%bind_Ok).
  apply active_Some in Hact as (r & Hr & _ & Ha & _ & Hp).
  eapply update_round_only; [done| |done]. apply step_claim; [done..|]. by rewrite Hp in Hne.
Qed.

Lemma release_only C qa_task_id reviewer db b db' :
  release_qa_claim qa_task_id reviewer db = Ok (b, db') → qa_only C db db'.
Proof.
  unfold release_qa_claim. destruct (reviewer ≫= _) as [[]|]; [done|].
  intros (db1 & [-> _]%write_rounds_Ok & [= _ <-])%bind_Ok. apply qa_only_write, rtc_once, ts_release.
  intros r. unfold claimed_for. by intros [_ ?%String.eqb_eq]%andb_true_iff.
Qed.

(** After expiry the open round of a task is within its deadline. *)
Lemma expire_live task_id now db db' p :
  qa_wf (db_qa_passes db) → expire_with_conn task_id now db = Ok db' →
  active_with_conn task_id db' = Ok (Some p) → now < qp_deadline_at p.
Proof.
  intros Hwf. unfold expire_with_conn. intros ([q|] & Hq & H)%bind_Ok Hp.
  2:{ injection H as <-. congruence. }
  destruct (Z.leb_spec (qp_deadline_at q) now).
  2:{ injection H as <-. by assert (p = q) as -> by congruence. }
  exfalso.
  apply active_Some in Hq as (rq & Hrq & Htq & Haq & _).
  apply active_Some in Hp as (r & Hr & Ht & Ha & _).
  unfold qa_set_state, update_round in H. apply write_rounds_Ok in H as [-> _]. simpl in Hr.
  rewrite (sql_update_key_Some _ _ _ _ Hrq) in Hr.
  apply lookup_insert_Some in Hr as [[_ <-]|[Hne Hr]]; [done|].
  apply Hne. eapply qa_one_open; [done..|congruence].
Qed.

Lemma resolve_only C task_id reviewer verdict summary issues ledger now db p db' :
  qa_wf (db_qa_passes db) →
  resolve_qa_pass task_id reviewer verdict summary issues ledger now db = Ok (p, db') →
  qa_only C db db'.
Proof.
  intros Hwf. unfold resolve_qa_pass. destruct (str_is_empty (trim summary)); [done|].
  destruct (str_is_empty (trim ledger)) eqn:Hl; [done|].
  intros (_ & _ & (db1 & Hexp & H)%bind_Ok)%bind_Ok. apply (expire_only C) in Hexp as Hs.
  etrans; [exact Hs|]. apply bind_Ok in H as ([active|] & Hact & H); [|done].
  simpl in H. apply bind_Ok in H as (u & [Hb Hne]%reject_self_review_Ok & H).
  destruct (negb _) eqn:Hrev; [done|]. apply bind_Ok in H as (db2 & H & (? & _ & [= _ <-])%bind_Ok).
  assert (now < qp_deadline_at active) as Hd by (by eapply expire_live).
  apply active_Some in Hact as (r & Hr & _ & Ha & _ & Hp). rewrite Hp in Hne, Hrev, Hd.
  unfold opt_eqb in Hrev. bool_to_prop. eapply update_round_only; [done| |done].
  by eapply step_verdict.
Qed.

Lemma waive_only C random task_id supervisor implementer branch head reason now db out db' :
  waive_qa_pass_reporting_superseded random task_id supervisor implementer branch head reason now db
  = Ok (out, db') → qa_only C db db'.
Proof.
  unfold waive_qa_pass_reporting_superseded. destruct (str_is_empty (trim reason)); [done|].
  destruct (str_is_empty (trim supervisor)) eqn:Hs; [done|].
  destruct (str_is_empty (trim head)) eqn:Hh; [done|].
  intros (active & Hact & ([retired db1] & Hret & H)%bind_Ok)%bind_Ok.
  eapply (retire_only C) in Hret; [|exact Hact]. etrans; [exact Hret|].
  apply bind_Ok in H as (db2 & Hins & (? & _ & [= _ <-])%bind_Ok).
  eapply insert_round_only; [|done]. by apply born_waived.
Qed.

Lemma carry_only C random from head branch reason now db p db' :
  C from → carry_qa_pass random from head branch reason now db = Ok (p, db') → qa_only C db db'.
Proof.
  intros HC. unfold carry_qa_pass. destruct (negb _) eqn:Hs; [done|]. destruct (_ || _); [done|].
  apply negb_false_iff in Hs. intros (active & Hact & (db1 & Hret & H)%bind_Ok)%bind_Ok.
  assert (qa_only C db db1) as Hq.
  { destruct active; [by eapply supersede_only|]. injection Hret as <-. reflexivity. }
  etrans; [exact Hq|]. apply bind_Ok in H as (h & _ & (db2 & Hins & (? & _ & [= _ <-])%bind_Ok)%bind_Ok).
  eapply insert_round_only; [|done]. by apply born_carried.
Qed.

Lemma withdraw_round_only C id reason now db r p db' :
  db_qa_passes db !! id = Some r → row_active r = true →
  withdraw_round id reason now db = Ok (p, db') → qa_only C db db'.
Proof.
  intros Hr Ha. unfold withdraw_round. intros (db1 & H & (? & _ & [= _ <-])%bind_Ok)%bind_Ok.
  eapply update_round_only; [done| |done]. by apply step_withdraw.
Qed.

Lemma withdraw_open_only C task_id reason include_claimed now db p db' :
  withdraw_open_qa_pass task_id reason include_claimed now db = Ok (p, db') → qa_only C db db'.
Proof.
  unfold withdraw_open_qa_pass. destruct (str_is_empty _); [done|].
  intros (db1 & Hexp & (active & Hact & H)%bind_Ok)%bind_Ok. apply (expire_only C) in Hexp.
  etrans; [exact Hexp|]. destruct active as [a|]; [|injection H as _ <-; reflexivity].
  destruct (_ && _); [injection H as _ <-; reflexivity|].
  apply active_Some in Hact as (r & Hr & _ & Ha & _). by eapply withdraw_round_only.
Qed.

Lemma withdraw_for_qa_task_only C qa_task_id reason now db p db' :
  withdraw_qa_pass_for_qa_task qa_task_id reason now db = Ok (p, db') → qa_only C db db'.
Proof.
  unfold withdraw_qa_pass_for_qa_task. destruct (str_is_empty _); [done|].
  intros ([a|] & Hact & H)%bind_Ok; [|injection H as _ <-; reflexivity].
  apply (select_head_Some (λ r, of_qa_task qa_task_id r && row_active r)) in Hact
    as (r & Hr & [_ Ha]%andb_true_iff & _).
  by eapply withdraw_round_only.
Qed.

Lemma set_qa_task_only C pass_id qa_task_id db p db' :
  set_qa_task pass_id qa_task_id db = Ok (p, db') → qa_only C db db'.
Proof.
  unfold set_qa_task. intros (db1 & H & (? & Hp & [= _ <-])%bind_Ok)%bind_Ok.
  destruct (db_qa_passes db !! pass_id) as [r|] eqn:Hr.
  - eapply update_round_only; [done| |done]. apply step_link.
  - unfold update_round in H. apply write_rounds_Ok in H as [-> _]. unfold by_id_with_conn in Hp.
    simpl in Hp. by rewrite sql_update_key_None, Hr in Hp.
Qed.

(** What the import decided allows the row to be merged. *)
Definition may_merge (p : QaPass) (db : Db) : Prop :=
  ∀ r, db_qa_passes db !! qp_id p = Some r → round_step r (merge_snapshot p r).

Lemma upsert_only C p changed_at db db' :
  invalid_snapshot p = false → may_merge p db →
  upsert_snapshot p changed_at db = Ok db' → qa_only C db db'.
Proof.
  intros Hv Hm. unfold upsert_snapshot. intros (db1 & H & [= <-])%bind_Ok.
  assert (qa_only C db db1) as [Hs [sync E]].
  { destruct (db_qa_passes db !! qp_id p) as [r|] eqn:Hr.
    - eapply update_round_only; [done|by apply Hm|done].
    - eapply insert_round_only; [|done]. by apply born_imported. }
  split; [exact Hs|]. exists (<[qp_id p := changed_at]> sync).
  generalize dependent (db_qa_passes db1). intros t _ ->. reflexivity.
Qed.

Lemma import_over_active_only C p changed_at db u db' :
  invalid_snapshot p = false → may_merge p db →
  import_over_active p changed_at db = Ok (u, db') → qa_only C db db'.
Proof.
  intros Hv Hm. unfold import_over_active. intros (active & Hact & H)%bind_Ok.
  assert (∀ db1, qa_only C db db1 → may_merge p db1 →
    (pair tt <$> upsert_snapshot p changed_at db1) = Ok (u, db') → qa_only C db db') as Hgo.
  { intros db1 H1 Hm1 Hu. etrans; [exact H1|].
    destruct (upsert_snapshot p changed_at db1) eqn:E; [|done]. injection Hu as _ <-.
    by eapply upsert_only. }
  destruct active as [a|]; simpl in H; [|by eapply Hgo].
  destruct (String.eqb_spec (qp_id a) (qp_id p)) as [|Hne]; simpl in H; [by eapply Hgo|].
  destruct (_ && _); [injection H as _ <-; reflexivity|]. apply bind_Ok in H as (db1 & Hs & H).
  destruct (_ || _); [|injection Hs as <-; by eapply Hgo]. eapply Hgo; [by eapply supersede_only| |exact H].
  intros r. unfold qa_set_state, update_round in Hs. apply write_rounds_Ok in Hs as [-> _]. simpl.
  unfold sql_update_key. rewrite lookup_alter_ne by done. apply Hm.
Qed.

Lemma import_only C p changed_at db u db' :
  import_qa_pass p changed_at db = Ok (u, db') → qa_only C db db'.
Proof.
  unfold import_qa_pass. destruct (invalid_snapshot p) eqn:Hv; [done|].
  destruct (by_id_with_conn (qp_id p) db) as [previous|e] eqn:Hp.
  - destruct (decide_import _ _ _ _) eqn:Hd; [|by intros [= _ <-]|done].
    apply import_over_active_only; [done|]. intros r Hr. unfold by_id_with_conn in Hp.
    rewrite Hr in Hp. by eapply step_import.
  - destruct e; try done. apply import_over_active_only; [done|]. intros r Hr.
    unfold by_id_with_conn, parse_row in Hp. rewrite Hr in Hp.
    by destruct (QaPassState_from_str _).
Qed.

Lemma snd_Ok {A} (r : result (A * Db)) db' : snd <$> r = Ok db' → ∃ a, r = Ok (a, db').
Proof. destruct r as [[a d]|]; simpl; [|done]. intros [= ->]. by exists a. Qed.

(** Every operation is a sequence of table steps. *)
Lemma exec_qa_steps now o db db' :
  match o with QResolve _ _ _ _ _ _ => qa_wf (db_qa_passes db) | _ => True end →
  exec_qa_op now o db = Ok db' → qa_only (carries o) db db'.
Proof.
  intros Hwf. destruct o; intros (a & H)%snd_Ok.
  - unfold open_qa_pass in H. destruct (open_qa_pass_reporting_superseded _ _ _ _) as [[]|] eqn:E; [|done].
    injection H as _ <-. by eapply open_only.
  - by eapply set_qa_task_only.
  - by eapply claim_only.
  - by eapply release_only.
  - by eapply resolve_only.
  - unfold waive_qa_pass in H.
    destruct (waive_qa_pass_reporting_superseded _ _ _ _ _ _ _ _ _) as [[]|] eqn:E; [|done].
    injection H as _ <-. by eapply waive_only.
  - by eapply carry_only.
  - by eapply withdraw_open_only.
  - by eapply withdraw_for_qa_task_only.
  - revert H. unfold latest_qa_pass. intros (db1 & Hexp & (? & _ & [= _ <-])%bind_Ok)%bind_Ok.
    by eapply expire_only.
  - by eapply import_only.
Qed.

Lemma exec_qa_only now o db db' :
  qa_wf (db_qa_passes db) → exec_qa_op now o db = Ok db' → qa_only (carries o) db db'.
Proof. intros Hwf. apply exec_qa_steps. by destruct o. Qed.

(** What an operation leaves alone, on any table *)
Definition qa_frame (db db' : Db) : Prop :=
  ∃ t sync, db' = db <| db_qa_passes := t |> <| db_qa_sync := sync |>.

Lemma qa_only_frame C db db' : qa_only C db db' → qa_frame db db'.
Proof. intros [_ [sync E]]. by eexists _, _. Qed.

Lemma resolve_frame task_id reviewer verdict summary issues ledger now db p db' :
  resolve_qa_pass task_id reviewer verdict summary issues ledger now db = Ok (p, db') →
  qa_frame db db'.
Proof.
  unfold resolve_qa_pass. destruct (str_is_empty (trim summary)); [done|].
  destruct (str_is_empty (trim ledger)); [done|].
  intros (_ & _ & (db1 & Hexp & H)%bind_Ok)%bind_Ok.
  apply (expire_only (λ _, False)), qa_only_frame in Hexp as (t & sync & ->).
  apply bind_Ok in H as (active & _ & H). apply bind_Ok in H as (a & _ & H).
  apply bind_Ok in H as (u & _ & H). destruct (negb _); [done|].
  apply bind_Ok in H as (db2 & Hw & (? & _ & [= _ <-])%bind_Ok).
  unfold update_round in Hw. apply write_rounds_Ok in Hw as [-> _]. by eexists _, _.
Qed.

Lemma run_qa_frame now o db : qa_frame db (run_qa_op now o db).
Proof.
  unfold run_qa_op. destruct (exec_qa_op now o db) as [db'|] eqn:E.
  2:{ apply (qa_only_frame (λ _, False)). reflexivity. }
  simpl. destruct o; try (eapply qa_only_frame, exec_qa_steps; [|exact E]; done).
  apply snd_Ok in E as (p & E). by eapply resolve_frame.
Qed.

Lemma run_qa_only now o db : qa_wf (db_qa_passes db) → qa_only (carries o) db (run_qa_op now o db).
Proof.
  intros Hwf. unfold run_qa_op. destruct (exec_qa_op now o db) eqn:E; [|reflexivity].
  by eapply exec_qa_only.
Qed.

End qa_ops.
