(* ===== verification/QaGate.v ===== *)
(** * What the QA gate promises

    The operations on rounds, each on a well-formed table: opening a round
    ([open_qa_pass_spec], idempotent by [repark_is_idempotent]), a verdict and
    the gate it opens ([verdict_opens_its_head]), the reviewers of failed
    rounds ([latest_failed_is_latest]), errors that cannot happen
    ([qa_never_violates_constraints]), and where the code does less than it says
    ([repark_forgets_a_passed_head], [replayed_snapshot_conflicts]). *)

From S2P Require Import Prelude Enums TaskTypes Leases Db TaskRows QaPasses QaPassSpec.

Section qa_gate.
Context {host : Host}.

(** ** Closing the open round *)

(** The rounds of [t'] are those of [t], but open rounds of [task_id] that were closed. *)
Definition closes (task_id : string) (t t' : gmap string QaPassRow) : Prop :=
  ∀ id, t' !! id = t !! id ∨
    ∃ r r', t !! id = Some r ∧ t' !! id = Some r' ∧ q_task_id r = task_id ∧ row_active r = true
      ∧ (q_state r' = "timed_out" ∨ q_state r' = "superseded") ∧ round_step r r'.

Lemma closed_states r : q_state r = "timed_out" ∨ q_state r = "superseded" →
  row_active r = false ∧ row_satisfies r = false ∧ q_state r ≠ "failed".
Proof. unfold row_active, row_satisfies. by intros [-> | ->]. Qed.

Lemma closes_refl task_id t : closes task_id t t.
Proof. by left. Qed.

Lemma closes_trans task_id t1 t2 t3 :
  closes task_id t1 t2 → closes task_id t2 t3 → closes task_id t1 t3.
Proof.
  intros H12 H23 id. destruct (H23 id) as [E|(r & r' & H2 & H3 & Ht & Ha & Hc & Hs)].
  - destruct (H12 id) as [E'|(r & r' & ? & ? & ?)]; [left; congruence|].
    right. exists r, r'. by rewrite E.
  - destruct (H12 id) as [E'|(r0 & r1 & _ & H2' & _ & _ & [Hc' _]%closed_states & _)]; [|congruence].
    right. exists r, r'. by rewrite <-E'.
Qed.

Lemma closes_none_open task_id t t' : closes task_id t t' → none_open task_id t → none_open task_id t'.
Proof.
  intros H Hno id r' Hr' Ht. destruct (H id) as [E|(r & ? & Hr & Hr1 & _ & _ & [Hc _]%closed_states & _)]; [|congruence].
  rewrite E in Hr'. by eapply Hno.
Qed.

(** The state write that closes the open round *)
Lemma close_active task_id db p state now r :
  qa_wf (db_qa_passes db) →
  db_qa_passes db !! qp_id p = Some r → q_task_id r = task_id → row_active r = true →
  state = QaPassState_TimedOut ∨ state = QaPassState_Superseded →
  round_step r (r <| q_state := QaPassState_to_string state |> <| q_resolved_at := Some now |>) →
  ∃ db', qa_set_state (qp_id p) state (Some now) db = Ok db'
    ∧ db_qa_passes db' = <[qp_id p := r <| q_state := QaPassState_to_string state |>
                                        <| q_resolved_at := Some now |>]> (db_qa_passes db)
    ∧ qa_wf (db_qa_passes db') ∧ none_open task_id (db_qa_passes db')
    ∧ closes task_id (db_qa_passes db) (db_qa_passes db').
Proof.
  intros Hwf Hr Ht Ha Hst Hstep. unfold qa_set_state.
  set (r' := r <| q_state := _ |> <| q_resolved_at := _ |>).
  destruct (update_round_total (qp_id p) (λ r, r <| q_state := QaPassState_to_string state |>
    <| q_resolved_at := Some now |>) db r Hwf Hr Hstep) as [-> Hwf'].
  assert (q_state r' = "timed_out" ∨ q_state r' = "superseded") as Hc
    by (destruct Hst as [-> | ->]; [by left|by right]).
  eexists. split; [reflexivity|]. split; [reflexivity|]. simpl. split_and!; [exact Hwf'| |].
  - intros id r1 [[<- <-]|[Hne H1]]%lookup_insert_Some Ht1; [apply closed_states, Hc|].
    destruct (row_active r1) eqn:E; [|done]. exfalso. apply Hne.
    apply (qa_one_open _ Hwf (qp_id p) id r r1); congruence.
  - intros id. destruct (decide (qp_id p = id)) as [<-|].
    + right. exists r, r'. by rewrite lookup_insert_eq.
    + left. by rewrite lookup_insert_ne.
Qed.

(** Expiry leaves an open round within its deadline, or none. *)
Lemma expire_cases task_id now db :
  qa_wf (db_qa_passes db) →
  ∃ db', expire_with_conn task_id now db = Ok db' ∧ qa_wf (db_qa_passes db')
    ∧ closes task_id (db_qa_passes db) (db_qa_passes db')
    ∧ ((db' = db ∧ ∃ p, active_with_conn task_id db = Ok (Some p) ∧ now < qp_deadline_at p)
       ∨ active_with_conn task_id db' = Ok None).
Proof.
  intros Hwf. unfold expire_with_conn.
  destruct (active_total task_id db Hwf) as [[p|] Hp]; rewrite Hp; simpl.
  2:{ exists db. split_and!; [done..|apply closes_refl|by right]. }
  destruct (Z.leb_spec (qp_deadline_at p) now) as [Hd|Hd].
  2:{ exists db. split_and!; [done..|apply closes_refl|]. left. split; [done|]. by exists p. }
  apply active_Some in Hp as (r & Hr & Ht & Ha & Hs & Hp).
  destruct (close_active task_id db p QaPassState_TimedOut now r) as (db' & -> & _ & Hwf' & Hno & Hc);
    [done..|by left| |].
  { apply step_timeout; [done|]. by rewrite Hp in Hd. }
  exists db'. split_and!; [done..|]. right. by apply active_None.
Qed.

(** Superseding the open round, and reading it back *)
Lemma retire_cases task_id active now db :
  qa_wf (db_qa_passes db) → active_with_conn task_id db = Ok active →
  let retired := (λ p, p <| qp_state := QaPassState_Superseded |> <| qp_resolved_at := Some now |>) <$> active in
  ∃ db', retire_active active now db = Ok (retired, db') ∧ qa_wf (db_qa_passes db')
    ∧ closes task_id (db_qa_passes db) (db_qa_passes db')
    ∧ active_with_conn task_id db' = Ok None.
Proof.
  intros Hwf Hact. destruct active as [p|]; simpl.
  2:{ exists db. split_and!; [done..|apply closes_refl|done]. }
  apply active_Some in Hact as (r & Hr & Ht & Ha & Hs & Hp).
  destruct (close_active task_id db p QaPassState_Superseded now r) as (db' & -> & E & Hwf' & Hno & Hc);
    [done..|by right|by apply step_supersede|].
  exists db'. simpl. unfold by_id_with_conn. rewrite E, lookup_insert_eq.
  rewrite (parse_row_state _ _ QaPassState_Superseded) by done. rewrite <-E.
  split_and!; [|done..|by apply active_None]. simpl. do 4 f_equal. by rewrite Hp at 2.
Qed.

(** ** Opening *)

Definition rounds_allowed (new : NewQaPass) : Z := Z.max (nq_max_rounds new) 1.

(** What an outcome tells the caller about the database [db'] it gets *)
Definition open_post (new : NewQaPass) (now : Z) (db : Db) (out : QaPassOpen)
    (superseded : option QaPass) (db' : Db) : Prop :=
  let task := nq_task_id new in
  match out with
  | AlreadyOpen p =>
      db' = db ∧ superseded = None ∧ active_with_conn task db' = Ok (Some p)
      ∧ qp_bound_head p = nq_bound_head new ∧ now < qp_deadline_at p
  | AlreadySatisfied p =>
      active_with_conn task db' = Ok None ∧ latest_with_conn task db' = Ok (Some p)
      ∧ satisfied_by new p = true
  | Escalate failed latest =>
      active_with_conn task db' = Ok None ∧ latest_with_conn task db' = Ok (Some latest)
      ∧ satisfied_by new latest = false
      ∧ failed = failed_rounds_with_conn task db' ∧ rounds_allowed new ≤ failed
  | Dispatched p =>
      active_with_conn task db' = Ok (Some p) ∧ qp_state p = QaPassState_Pending
      ∧ qp_reviewer_agent_id p = None ∧ qp_qa_task_id p = None
      ∧ qp_bound_head p = nq_bound_head new ∧ qp_branch p = nq_branch new
      ∧ qp_implementer_agent_id p = nq_implementer_agent_id new
      ∧ qp_requested_at p = now ∧ qp_deadline_at p = nq_deadline_at new
      ∧ qp_round p = failed_rounds_with_conn task db' + 1 ∧ qp_round p ≤ rounds_allowed new
  end.

(** The rounds that were there, closed or not, and the dispatched one *)
Definition opens (new : NewQaPass) (out : QaPassOpen) (db db' : Db) : Prop :=
  match out with
  | Dispatched p =>
      db_qa_passes db !! qp_id p = None
      ∧ closes (nq_task_id new) (db_qa_passes db) (delete (qp_id p) (db_qa_passes db'))
  | _ => closes (nq_task_id new) (db_qa_passes db) (db_qa_passes db')
  end.

Lemma failed_rounds_insert task_id id r (t : gmap string QaPassRow) :
  t !! id = None → q_state r ≠ "failed" →
  sql_count (λ _ r, of_task task_id r && String.eqb (q_state r) "failed") (<[id := r]> t)
  = sql_count (λ _ r, of_task task_id r && String.eqb (q_state r) "failed") t.
Proof.
  intros Hid Hr. rewrite sql_count_insert_fresh by done.
  rewrite (proj2 (String.eqb_neq _ _) Hr), andb_false_r. lia.
Qed.

Lemma failed_rounds_range task_id db : 0 ≤ failed_rounds_with_conn task_id db < 2 ^ 32.
Proof. apply Z.mod_pos_bound. lia. Qed.

Lemma dispatch_cases random new now superseded db :
  qa_wf (db_qa_passes db) → nq_max_rounds new < 2 ^ 32 →
  db_qa_passes db !! new_pass_id random = None →
  active_with_conn (nq_task_id new) db = Ok None →
  (∀ p, latest_with_conn (nq_task_id new) db = Ok (Some p) → satisfied_by new p = false) →
  (∃ out db', dispatch_or_escalate random new now superseded db = Ok ((out, superseded), db')
    ∧ qa_wf (db_qa_passes db') ∧ open_post new now db out superseded db' ∧ opens new out db db'
    ∧ match out with AlreadyOpen _ => False | _ => True end)
  ∨ (rounds_allowed new ≤ failed_rounds_with_conn (nq_task_id new) db
     ∧ latest_with_conn (nq_task_id new) db = Ok None).
Proof.
  intros Hwf Hmax Hid Hact Hlat. unfold dispatch_or_escalate.
  pose proof (failed_rounds_range (nq_task_id new) db) as Hrange.
  destruct (Z.leb_spec (Z.max (nq_max_rounds new) 1) (failed_rounds_with_conn (nq_task_id new) db)) as [Hf|Hf].
  - destruct (latest_total (nq_task_id new) db Hwf) as [[l|] Hl]; rewrite Hl; [left|by right].
    simpl. exists (Escalate (failed_rounds_with_conn (nq_task_id new) db) l), db.
    split_and!; [done..| |apply closes_refl|done]. simpl. split_and!; [done..|by apply Hlat|done|done].
  - left. apply active_None in Hact; [|done].
    set (r := dispatched_row (failed_rounds_with_conn (nq_task_id new) db) new now).
    destruct (insert_round_total (new_pass_id random) r QaPassState_Pending db) as [-> Hwf'];
      [done..|]. set (r' := r <| q_rowid := _ |>) in *.
    set (db' := db <| db_qa_passes := _ |>). simpl. unfold by_id_with_conn. simpl.
    rewrite lookup_insert_eq, (parse_row_state _ r' QaPassState_Pending) by done. simpl.
    exists (Dispatched (row_pass (new_pass_id random) r' QaPassState_Pending)), db'.
    assert (Z.max 1 (q_round r') mod 2 ^ 32 = failed_rounds_with_conn (nq_task_id new) db + 1) as Hround.
    { simpl. unfold u32_succ. rewrite (Z.mod_small (failed_rounds_with_conn (nq_task_id new) db + 1)) by lia.
      rewrite Z.mod_small; lia. }
    assert (failed_rounds_with_conn (nq_task_id new) db' = failed_rounds_with_conn (nq_task_id new) db) as Hfail.
    { unfold failed_rounds_with_conn. simpl. by rewrite failed_rounds_insert. }
    split; [done|]. split; [exact Hwf'|]. split.
    + simpl. rewrite Hfail. unfold rounds_allowed. split_and!; try done; [|etrans; [apply Z.eq_le_incl, Hround|lia]].
      apply active_intro; [exact Hwf'|apply lookup_insert_eq|done..].
    + split; [|done]. split; [done|]. simpl. rewrite delete_insert_id by done. apply closes_refl.
Qed.

(** A failed round in the table is found by [latest_with_conn]. *)
Lemma failed_latest task_id db :
  qa_wf (db_qa_passes db) → 0 < failed_rounds_with_conn task_id db →
  latest_with_conn task_id db ≠ Ok None.
Proof.
  intros Hwf Hf Hl. unfold latest_with_conn, first_row in Hl.
  destruct (order_by _ _) as [|[id r] l] eqn:Ho; [|by destruct (parse_row id r)].
  assert (sql_count (λ _ r, of_task task_id r && String.eqb (q_state r) "failed")
            (db_qa_passes db) = 0%nat) as Hz.
  2:{ unfold failed_rounds_with_conn in Hf. rewrite Hz in Hf. by vm_compute in Hf. }
  apply sql_count_zero. intros id r Hr. destruct (of_task task_id r) eqn:E; [|done].
  assert ((id, r) ∈ task_rounds task_id db) as Hin by (by apply elem_of_sql_select).
  rewrite <-(elem_of_order_by (le_of newest_first)), Ho in Hin. by apply elem_of_nil in Hin.
Qed.

Definition valid_request (new : NewQaPass) : Prop :=
  str_is_empty (trim (nq_bound_head new)) = false
  ∧ str_is_empty (trim (nq_implementer_agent_id new)) = false ∧ nq_max_rounds new < 2 ^ 32.

(** The round that is reported as superseded *)
Definition superseded_post (new : NewQaPass) (now : Z) (db : Db) (superseded : option QaPass) : Prop :=
  ∀ q, superseded = Some q →
    qp_state q = QaPassState_Superseded ∧ qp_resolved_at q = Some now
    ∧ qp_bound_head q ≠ nq_bound_head new
    ∧ ∃ p, active_with_conn (nq_task_id new) db = Ok (Some p) ∧ qp_id p = qp_id q
        ∧ qp_reviewer_agent_id p = qp_reviewer_agent_id q.

Lemma opens_closes new out db db1 db2 :
  closes (nq_task_id new) (db_qa_passes db) (db_qa_passes db1) → opens new out db1 db2 →
  opens new out db db2.
Proof.
  intros Hc. destruct out; simpl; try (by apply closes_trans).
  intros [Hid H]. split; [|by eapply closes_trans].
  destruct (Hc (qp_id p)) as [E|(? & ? & _ & ? & _)]; congruence.
Qed.

(** The part of opening that follows a supersession *)
Lemma open_rest random new now superseded db :
  qa_wf (db_qa_passes db) → nq_max_rounds new < 2 ^ 32 →
  db_qa_passes db !! new_pass_id random = None →
  active_with_conn (nq_task_id new) db = Ok None →
  ∃ out db',
    (latest ← latest_with_conn (nq_task_id new) db;
     match option_filter (satisfied_by new) latest with
     | Some p => Ok ((AlreadySatisfied p, superseded), db)
     | None => dispatch_or_escalate random new now superseded db
     end) = Ok ((out, superseded), db')
    ∧ qa_wf (db_qa_passes db') ∧ open_post new now db out superseded db' ∧ opens new out db db'
    ∧ match out with AlreadyOpen _ => False | _ => True end.
Proof.
  intros Hwf Hmax Hid Hact. destruct (latest_total (nq_task_id new) db Hwf) as [latest Hlat].
  rewrite Hlat. cbn [mbind result_bind].
  destruct (option_filter (satisfied_by new) latest) as [p|] eqn:Hsat.
  - destruct latest as [l|]; simpl in Hsat; [|done]. destruct (satisfied_by new l) eqn:E; [|done].
    injection Hsat as ->. exists (AlreadySatisfied p), db. split_and!; try done. apply closes_refl.
  - destruct (dispatch_cases random new now superseded db) as [(out & db' & E & H)|[Hf Hl]];
      [done..| | |].
    + intros p Hp. rewrite Hp in Hlat. injection Hlat as <-. simpl in Hsat. by destruct (satisfied_by new p).
    + by exists out, db'.
    + exfalso. eapply failed_latest; [done| |exact Hl]. unfold rounds_allowed in Hf. lia.
Qed.

Lemma open_cases random new now db :
  qa_wf (db_qa_passes db) → valid_request new →
  db_qa_passes db !! new_pass_id random = None →
  ∃ out superseded db',
    open_qa_pass_reporting_superseded random new now db = Ok ((out, superseded), db')
    ∧ qa_wf (db_qa_passes db') ∧ open_post new now db out superseded db' ∧ opens new out db db'
    ∧ superseded_post new now db superseded.
Proof.
  intros Hwf (Hh & Hi & Hmax) Hid. unfold open_qa_pass_reporting_superseded. rewrite Hh, Hi. cbn [orb].
  destruct (expire_cases (nq_task_id new) now db Hwf) as (db1 & -> & Hwf1 & Hc1 & Hact).
  cbn [mbind result_bind].
  assert (db_qa_passes db1 !! new_pass_id random = None) as Hid1.
  { destruct (Hc1 (new_pass_id random)) as [E|(? & ? & ? & _)]; congruence. }
  destruct Hact as [(-> & p & Hp & Hd)|Hnone].
  - rewrite Hp. cbn [mbind result_bind option_filter option_bind].
    destruct (String.eqb_spec (qp_bound_head p) (nq_bound_head new)) as [E|E].
    { exists (AlreadyOpen p), None, db. split_and!; try done; apply closes_refl. }
    destruct (retire_cases (nq_task_id new) (Some p) now db Hwf Hp) as (db2 & -> & Hwf2 & Hc2 & Hact2).
    cbn [mbind result_bind fmap option_fmap option_map].
    destruct (open_rest random new now (Some (p <| qp_state := QaPassState_Superseded |>
        <| qp_resolved_at := Some now |>)) db2) as (out & db' & -> & H1 & H2 & H3 & H4); [done..| |done|].
    { destruct (Hc2 (new_pass_id random)) as [E'|(? & ? & ? & _)]; congruence. }
    eexists _, _, _. split; [reflexivity|]. split_and!; [done| | |].
    + by destruct out.
    + by eapply opens_closes.
    + intros q [= <-]. split_and!; [done..|]. by exists p.
  - rewrite Hnone. cbn [mbind result_bind option_filter option_bind retire_active].
    destruct (open_rest random new now None db1) as (out & db' & -> & H1 & H2 & H3 & H4); [done..|].
    eexists _, _, _. split; [reflexivity|]. split_and!; [done| | |done].
    + by destruct out.
    + by eapply opens_closes.
Qed.

(** Parking a delivery has exactly one of four outcomes, and each tells the
    truth: the same tip has an open round within its deadline; the latest
    round passed or waived this very tip; at least the allowed number of rounds
    was rejected; or a fresh round was dispatched, unclaimed, bound to this tip,
    branch and implementer, numbered one more than the rejected rounds and at
    most the limit.  Whatever the outcome, no round of another tip stays open,
    the retired one is reported, and all other rounds are untouched. *)
Theorem open_qa_pass_spec random new now db :
  qa_wf (db_qa_passes db) → valid_request new →
  db_qa_passes db !! new_pass_id random = None →
  ∃ out superseded db',
    open_qa_pass_reporting_superseded random new now db = Ok ((out, superseded), db')
    ∧ qa_wf (db_qa_passes db') ∧ open_post new now db out superseded db' ∧ opens new out db db'
    ∧ superseded_post new now db superseded.
Proof. apply open_cases. Qed.

(** ** The latest round *)

#[local] Instance newest_first_order : SqlOrder newest_first.
Proof. apply then_by_order, then_by_order, flip_order; apply _. Qed.

Lemma newest_first_eq a b : newest_first a b = Eq → a.1 = b.1.
Proof.
  unfold newest_first, then_by. destruct (desc _ a b); [|done..]. destruct (desc _ a b); [|done..].
  by intros ->%String.compare_eq_iff.
Qed.

(** The row of the latest round: no row of the task is newer. *)
Definition latest_row (task_id : string) (t : gmap string QaPassRow) (id : string) (r : QaPassRow)
    : Prop :=
  t !! id = Some r ∧ q_task_id r = task_id
  ∧ ∀ id' r', t !! id' = Some r' → q_task_id r' = task_id →
      le_of newest_first (id, r) (id', r') = true.

Lemma latest_row_unique task_id t id1 id2 r1 r2 :
  latest_row task_id t id1 r1 → latest_row task_id t id2 r2 → id1 = id2.
Proof.
  intros (H1 & Ht1 & M1) (H2 & Ht2 & M2). specialize (M1 _ _ H2 Ht2). specialize (M2 _ _ H1 Ht1).
  unfold le_of in *. rewrite (so_opp (c := newest_first) (id1, r1)) in M2.
  destruct (newest_first (id1, r1) (id2, r2)) eqn:E; [by apply newest_first_eq in E|done|done].
Qed.

Lemma elem_of_task_rounds task_id db id r :
  (id, r) ∈ task_rounds task_id db ↔ db_qa_passes db !! id = Some r ∧ q_task_id r = task_id.
Proof. unfold task_rounds. by rewrite elem_of_sql_select, <-String.eqb_eq. Qed.

Lemma latest_Some task_id db p :
  latest_with_conn task_id db = Ok (Some p) →
  ∃ r, latest_row task_id (db_qa_passes db) (qp_id p) r ∧ in_state r (qp_state p)
    ∧ p = row_pass (qp_id p) r (qp_state p).
Proof.
  intros (r & [Hin Hle]%(order_by_head newest_first) & Hs & Hp)%first_row_Some.
  apply elem_of_task_rounds in Hin as [Hr Ht]. exists r. split_and!; [|done..].
  split_and!; [done..|]. intros id' r' Hr' Ht'. apply Hle. by apply elem_of_task_rounds.
Qed.

Lemma latest_intro task_id db id r s :
  qa_wf (db_qa_passes db) → latest_row task_id (db_qa_passes db) id r → in_state r s →
  latest_with_conn task_id db = Ok (Some (row_pass id r s)).
Proof.
  intros Hwf Hl Hs. destruct (latest_total task_id db Hwf) as [[p|] E]; rewrite E.
  - apply latest_Some in E as (r' & Hl' & Hs' & Hp).
    assert (qp_id p = id) as Hid by (by eapply latest_row_unique).
    rewrite Hid in *. destruct Hl as [Hr _], Hl' as [Hr' _]. simplify_eq.
    by rewrite Hp, (in_state_inj r s (qp_state p)).
  - exfalso. destruct Hl as (Hr & Ht & _). unfold latest_with_conn, first_row in E.
    assert ((id, r) ∈ order_by (le_of newest_first) (task_rounds task_id db)) as Hin
      by (by rewrite elem_of_order_by, elem_of_task_rounds).
    destruct (order_by _ _) as [|[id' r'] l]; [by apply elem_of_nil in Hin|].
    by destruct (parse_row id' r').
Qed.

Lemma newer_round_spec c n :
  newer_round c n = of_task (q_task_id c.2) n.2 && negb (le_of newest_first c n).
Proof.
  unfold newer_round. f_equal. unfold le_of, newest_first, then_by, desc, by_text.
  rewrite (Z.compare_antisym (q_requested_at c.2)), (Z.compare_antisym (q_round c.2)).
  destruct (Z.compare_spec (q_requested_at c.2) (q_requested_at n.2)) as [->|H|H]; simpl.
  - rewrite Z.ltb_irrefl, Z.eqb_refl. simpl.
    destruct (Z.compare_spec (q_round c.2) (q_round n.2)) as [->|H|H]; simpl.
    + rewrite Z.ltb_irrefl, Z.eqb_refl. by destruct (String.compare _ _).
    + by rewrite (proj2 (Z.ltb_lt _ _) H).
    + rewrite (proj2 (Z.ltb_ge _ _)), (proj2 (Z.eqb_neq _ _)) by lia. done.
  - by rewrite (proj2 (Z.ltb_lt _ _) H).
  - rewrite (proj2 (Z.ltb_ge _ _)), (proj2 (Z.eqb_neq _ _)) by lia. done.
Qed.

(** Collecting rows into a map: the last row of a key counts. *)
Definition collect_reviewer (acc : result (gmap string (string * Z))) (kr : string * QaPassRow)
    : result (gmap string (string * Z)) :=
  m ← acc; round ← get_u32 (q_round kr.2);
  Ok (match q_reviewer_agent_id kr.2 with
      | Some reviewer => <[q_task_id kr.2 := (reviewer, round)]> m
      | None => m
      end).

Lemma collect_reviewers l :
  (∀ kr, kr ∈ l → 0 ≤ q_round kr.2 < 2 ^ 32 ∧ is_Some (q_reviewer_agent_id kr.2)) →
  ∃ m, foldl collect_reviewer (Ok ∅) l = Ok m
    ∧ (∀ t v, m !! t = Some v → ∃ kr, kr ∈ l ∧ q_task_id kr.2 = t
                                  ∧ q_reviewer_agent_id kr.2 = Some v.1 ∧ q_round kr.2 = v.2)
    ∧ (∀ kr, kr ∈ l → is_Some (m !! q_task_id kr.2)).
Proof.
  induction l as [|kr l IH] using rev_ind; intros Hl.
  { exists ∅. split_and!; [done|..]; [by intros ? ? ?|]. by intros ? ?%elem_of_nil. }
  destruct IH as (m & E & H1 & H2); [intros; apply Hl; apply elem_of_app; by left|].
  destruct (Hl kr) as [Hround [reviewer Hrev]]; [apply elem_of_app; right; by left|].
  exists (<[q_task_id kr.2 := (reviewer, q_round kr.2)]> m).
  rewrite foldl_app, E. simpl. rewrite Hrev. unfold get_u32.
  rewrite (proj2 (Z.leb_le _ _)), (proj2 (Z.ltb_lt _ _)) by lia. simpl. split_and!; [done|..].
  - intros t v [[<- <-]|[_ Hv]]%lookup_insert_Some.
    + exists kr. split_and!; [|done..]. apply elem_of_app. right. by left.
    + destruct (H1 t v Hv) as (kr' & Hin & ?). exists kr'. split; [apply elem_of_app; by left|done].
  - intros kr' [Hin| ->%list_elem_of_singleton]%elem_of_app.
    + destruct (decide (q_task_id kr.2 = q_task_id kr'.2)) as [->|].
      * rewrite lookup_insert_eq. by eexists.
      * rewrite lookup_insert_ne by done. by apply H2.
    + rewrite lookup_insert_eq. by eexists.
Qed.

Lemma latest_failed_row ids db id r :
  (id, r) ∈ sql_select (λ id r,
      existsb (String.eqb (q_task_id r)) ids && String.eqb (q_state r) "failed"
      && bool_decide (is_Some (q_reviewer_agent_id r))
      && negb (sql_exists (λ id' r', newer_round (id, r) (id', r')) (db_qa_passes db)))
      (db_qa_passes db) ↔
  latest_row (q_task_id r) (db_qa_passes db) id r ∧ q_task_id r ∈ ids
  ∧ in_state r QaPassState_Failed ∧ is_Some (q_reviewer_agent_id r).
Proof.
  rewrite elem_of_sql_select, !andb_true_iff, existsb_exists, String.eqb_eq, bool_decide_eq_true.
  rewrite negb_true_iff, <-not_true_iff_false, sql_exists_true. unfold in_state. simpl.
  assert ((¬ ∃ k r0, db_qa_passes db !! k = Some r0 ∧ newer_round (id, r) (k, r0) = true) ↔
          ∀ id' r', db_qa_passes db !! id' = Some r' → q_task_id r' = q_task_id r →
            le_of newest_first (id, r) (id', r') = true) as ->.
  { split.
    - intros Hno id' r' Hr' Ht. destruct (le_of newest_first (id, r) (id', r')) eqn:E; [done|].
      exfalso. apply Hno. exists id', r'. split; [done|]. rewrite newer_round_spec, E. simpl.
      unfold of_task. by rewrite Ht, String.eqb_refl.
    - intros Hall (id' & r' & Hr' & Hn). rewrite newer_round_spec in Hn. simpl in Hn.
      apply andb_true_iff in Hn as [Ht%String.eqb_eq Hn]. by rewrite Hall in Hn. }
  unfold latest_row. split.
  - intros (Hr & ((Hin & Hs) & Hrev) & Hmax). split_and!; try done.
    destruct Hin as (x & Hx & E%String.eqb_eq). rewrite E. by apply list_elem_of_In.
  - intros ((Hr & _ & Hmax) & Hin & Hs & Hrev). split_and!; try done.
    exists (q_task_id r). split; [by apply list_elem_of_In|apply String.eqb_refl].
Qed.

(** [latest_failed_qa_reviewers] finds by one anti-join what asking each
    task for its latest round finds: exactly the tasks whose latest round
    failed, with that round's reviewer and number. *)
Theorem latest_failed_is_latest ids db :
  qa_wf (db_qa_passes db) →
  map_Forall (λ _ r, 1 ≤ q_round r < 2 ^ 32) (db_qa_passes db) →
  ∃ m, latest_failed_qa_reviewers ids db = Ok m
    ∧ ∀ task reviewer round,
        m !! task = Some (reviewer, round) ↔
        task ∈ ids ∧ ∃ p, latest_with_conn task db = Ok (Some p)
          ∧ qp_state p = QaPassState_Failed ∧ qp_reviewer_agent_id p = Some reviewer
          ∧ qp_round p = round.
Proof.
  intros Hwf Hround. unfold latest_failed_qa_reviewers. cbv zeta. set (rows := sql_select _ _).
  assert (∀ id r, (id, r) ∈ rows ↔ latest_row (q_task_id r) (db_qa_passes db) id r
    ∧ q_task_id r ∈ ids ∧ in_state r QaPassState_Failed ∧ is_Some (q_reviewer_agent_id r)) as Hrows
    by (intros; apply latest_failed_row).
  destruct (collect_reviewers rows) as (m & E & H1 & H2).
  { intros [id r] ((Hr & _) & _ & _ & Hrev)%Hrows. split; [|done]. specialize (Hround _ _ Hr).
    simpl in *. lia. }
  exists m. split; [exact E|]. intros task reviewer round. split.
  - intros ([id r] & (Hl & Hin & Hs & _)%Hrows & <- & Hrev & Hrd)%H1. simpl in *. split; [done|].
    exists (row_pass id r QaPassState_Failed). split_and!; [by apply latest_intro|done..|].
    destruct Hl as [Hr _]. specialize (Hround _ _ Hr). simpl in *. rewrite Z.mod_small; lia.
  - intros (Hin & p & (r & Hl & Hs & Hp)%latest_Some & Hst & Hrev & <-). rewrite Hst in Hs.
    pose proof Hl as (Hr & Ht & _). rewrite <-Ht in *. rewrite Hp in Hrev. simpl in Hrev.
    assert ((qp_id p, r) ∈ rows) as Hin' by (apply Hrows; by rewrite Hrev).
    destruct (H2 _ Hin') as [[rev rd] Hm]. simpl in Hm. rewrite Hm.
    destruct (H1 _ _ Hm) as ([id' r'] & (Hl' & _)%Hrows & Ht' & Hrev' & Hrd'). simpl in *.
    rewrite Ht' in Hl'. assert (qp_id p = id') as Hid by (by eapply latest_row_unique).
    destruct Hl' as [Hr' _]. rewrite <-Hid, Hr in Hr'. injection Hr' as <-.
    specialize (Hround _ _ Hr). simpl in Hround. rewrite Hp. simpl.
    rewrite Z.mod_small by lia. do 2 f_equal; [congruence|lia].
Qed.

(** ** The gate *)

(** The merge gate of a tip is open. *)
Definition gate_open (task_id head : string) (db : Db) : Prop :=
  ∃ p, satisfying_qa_pass_for_head task_id head db = Ok (Some p).

Lemma satisfying_Some task_id head db p :
  satisfying_qa_pass_for_head task_id head db = Ok (Some p) →
  ∃ r, db_qa_passes db !! qp_id p = Some r ∧ q_task_id r = task_id ∧ q_bound_head r = head
    ∧ row_satisfies r = true ∧ in_state r (qp_state p) ∧ p = row_pass (qp_id p) r (qp_state p).
Proof.
  intros (r & [Hin _]%(order_by_head (desc _)) & Hs & Hp)%first_row_Some.
  apply elem_of_sql_select in Hin as [Hr HP]. apply andb_true_iff in HP as [HP Hsat].
  apply andb_true_iff in HP as [Ht%String.eqb_eq Hh%String.eqb_eq]. by exists r.
Qed.

Lemma gate_open_row task_id head db :
  qa_wf (db_qa_passes db) →
  gate_open task_id head db ↔
  ∃ id r, db_qa_passes db !! id = Some r ∧ q_task_id r = task_id ∧ q_bound_head r = head
    ∧ row_satisfies r = true.
Proof.
  intros Hwf. split.
  - intros (p & (r & Hr & Ht & Hh & Hs & _)%satisfying_Some). by eexists _, _.
  - intros (id & r & Hr & Ht & Hh & Hs). unfold gate_open, satisfying_qa_pass_for_head, first_row.
    set (P := λ _ r, _). set (le := le_of _).
    assert ((id, r) ∈ order_by le (sql_select P (db_qa_passes db))) as Hin.
    { apply elem_of_order_by, elem_of_sql_select. split; [done|]. unfold P, of_task.
      by rewrite Ht, Hh, !String.eqb_refl. }
    destruct (order_by le _) as [|[id' r'] l] eqn:Ho; [by apply elem_of_nil in Hin|].
    assert ((id', r') ∈ order_by le (sql_select P (db_qa_passes db))) as Hin' by (rewrite Ho; left).
    apply elem_of_order_by, elem_of_sql_select in Hin' as [Hr' _].
    destruct (qa_states _ Hwf id' r' Hr') as [s Hs']. exists (row_pass id' r' s).
    by rewrite (parse_row_state _ _ s).
Qed.

(** Resolving replaces the open round by the decided one. *)
Definition decide_round (v : QaVerdict) (summary : string) (issues : option string)
    (ledger : string) (now : Z) (r : QaPassRow) : QaPassRow :=
  r <| q_state := QaPassState_to_string (verdict_state v) |> <| q_summary := Some (trim summary) |>
    <| q_issues_json := issues |> <| q_ledger_path := Some (trim ledger) |>
    <| q_resolved_at := Some now |>.

Lemma resolve_inv task_id reviewer v summary issues ledger now db p db' :
  qa_wf (db_qa_passes db) →
  resolve_qa_pass task_id reviewer v summary issues ledger now db = Ok (p, db') →
  ∃ p0 r, active_with_conn task_id db = Ok (Some p0)
    ∧ db_qa_passes db !! qp_id p0 = Some r ∧ q_task_id r = task_id ∧ row_active r = true
    ∧ qp_bound_head p0 = q_bound_head r
    ∧ qp_reviewer_agent_id p0 = Some reviewer ∧ reviewer ≠ qp_implementer_agent_id p0
    ∧ now < qp_deadline_at p0
    ∧ p = row_pass (qp_id p0) (decide_round v summary issues ledger now r) (verdict_state v)
    ∧ db_qa_passes db' = <[qp_id p0 := decide_round v summary issues ledger now r]> (db_qa_passes db)
    ∧ qa_wf (db_qa_passes db').
Proof.
  intros Hwf H. pose proof (resolve_only (λ _, False) _ _ _ _ _ _ _ _ _ _ Hwf H) as [Hsteps _].
  pose proof (table_steps_wf _ _ _ Hsteps Hwf) as Hwf'. revert H. unfold resolve_qa_pass.
  destruct (str_is_empty (trim summary)); [done|]. destruct (str_is_empty (trim ledger)); [done|].
  intros (u & _ & H)%bind_Ok.
  destruct (expire_cases task_id now db Hwf) as (db1 & Hexp & _ & _ & [(-> & p0 & Hp & Hd)|Hno]);
    rewrite Hexp in H; cbn [mbind result_bind] in H; [|by rewrite Hno in H].
  rewrite Hp in H. cbn [mbind result_bind ok_or] in H.
  apply bind_Ok in H as (u2 & [Hb Hne]%reject_self_review_Ok & H). destruct (negb _) eqn:Hrev; [done|].
  apply bind_Ok in H as (db2 & Hw & (p' & Hid & [= -> ->])%bind_Ok).
  unfold opt_eqb in Hrev. apply negb_false_iff, bool_decide_eq_true in Hrev.
  pose proof Hp as (r & Hr & Ht & Ha & Hs & Hpe)%active_Some.
  unfold update_round in Hw. apply write_rounds_Ok in Hw as [-> _].
  rewrite (sql_update_key_Some _ _ _ _ Hr) in *. exists p0, r. unfold by_id_with_conn in Hid.
  simpl in Hid. rewrite lookup_insert_eq, (parse_row_state _ _ (verdict_state v)) in Hid by done.
  injection Hid as <-. split_and!; try done. by rewrite Hpe.
Qed.

(** C39: A verdict is recorded only for the task's open round, within its
    deadline, by the reviewer who claimed it and did not implement it.  It
    closes the round; an approval opens the merge gate of exactly the tip that
    round reviewed, a rejection opens none, and no other gate changes. *)
Theorem verdict_opens_its_head task_id reviewer v summary issues ledger now db p db' :
  qa_wf (db_qa_passes db) →
  resolve_qa_pass task_id reviewer v summary issues ledger now db = Ok (p, db') →
  (∃ p0, active_with_conn task_id db = Ok (Some p0) ∧ qp_id p0 = qp_id p
     ∧ qp_bound_head p0 = qp_bound_head p ∧ qp_reviewer_agent_id p0 = Some reviewer
     ∧ reviewer ≠ qp_implementer_agent_id p0 ∧ now < qp_deadline_at p0)
  ∧ qp_state p = verdict_state v
  ∧ active_with_conn task_id db' = Ok None
  ∧ ∀ task head, gate_open task head db' ↔
      gate_open task head db
      ∨ v = QaVerdict_Approved ∧ task = task_id ∧ head = qp_bound_head p.
Proof.
  intros Hwf H.
  destruct (resolve_inv _ _ _ _ _ _ _ _ _ _ Hwf H)
    as (p0 & r & Hact & Hr & Ht & Ha & Hh & Hrev & Hne & Hd & -> & E & Hwf').
  set (r' := decide_round _ _ _ _ _ _) in *.
  split; [by exists p0|]. split; [done|]. split.
  - apply active_None; [done|]. rewrite E. intros id q [[<- <-]|[Hn Hq]]%lookup_insert_Some Hqt.
    { by destruct v. }
    destruct (row_active q) eqn:Eq; [|done]. exfalso. apply Hn.
    apply (qa_one_open _ Hwf (qp_id p0) id r q); congruence.
  - intros task head. rewrite !gate_open_row, E by done. simpl. split.
    + intros (id & q & [[<- <-]|[Hn Hq]]%lookup_insert_Some & Hqt & Hqh & Hsat); [right|left; by exists id, q].
      split; [by destruct v|]. split; [by rewrite <-Hqt, <-Ht|by rewrite <-Hqh].
    + intros [(id & q & Hq & Hqt & Hqh & Hsat)|(-> & -> & ->)].
      * exists id, q. split_and!; [|done..]. rewrite lookup_insert_ne; [done|].
        intros <-. assert (q = r) as -> by congruence.
        destruct (qa_states _ Hwf _ _ Hr) as [s Hs]. rewrite (row_active_state r s) in Ha by done.
        rewrite (row_satisfies_state r s) in Hsat by done. by destruct s.
      * exists (qp_id p0), r'. by rewrite lookup_insert_eq.
Qed.

(** ** Parking again *)

Lemma expire_live_same task_id now db p :
  active_with_conn task_id db = Ok (Some p) → now < qp_deadline_at p →
  expire_with_conn task_id now db = Ok db.
Proof.
  intros Hp Hd. unfold expire_with_conn. rewrite Hp. simpl.
  by rewrite (proj2 (Z.leb_gt _ _) Hd).
Qed.

Lemma expire_none_same task_id now db :
  active_with_conn task_id db = Ok None → expire_with_conn task_id now db = Ok db.
Proof. unfold expire_with_conn. by intros ->. Qed.

(** Parking the same tip again is idempotent: as long as a round that is
    open stays within its deadline, the second call finds it or repeats the
    first answer, retires nothing and writes nothing. *)
Theorem repark_is_idempotent random random' new now now' db out superseded db' :
  qa_wf (db_qa_passes db) → valid_request new → db_qa_passes db !! new_pass_id random = None →
  open_qa_pass_reporting_superseded random new now db = Ok ((out, superseded), db') →
  match out with Dispatched p | AlreadyOpen p => now' < qp_deadline_at p | _ => True end →
  open_qa_pass_reporting_superseded random' new now' db'
  = Ok ((match out with Dispatched p | AlreadyOpen p => AlreadyOpen p | _ => out end, None), db').
Proof.
  intros Hwf Hv Hid H Hd.
  destruct (open_cases random new now db Hwf Hv Hid) as (out' & sup' & db'' & E & Hwf' & Hpost & _).
  rewrite E in H. injection H as -> -> ->. destruct Hv as (Hh & Hi & _).
  unfold open_qa_pass_reporting_superseded. rewrite Hh, Hi. cbn [orb].
  destruct out as [p|p|p|failed l]; simpl in Hpost.
  - destruct Hpost as (Hact & _ & _ & _ & Hhead & _). rewrite (expire_live_same _ _ _ _ Hact Hd).
    cbn [mbind result_bind]. rewrite Hact. cbn [mbind result_bind option_filter option_bind].
    by rewrite Hhead, String.eqb_refl.
  - destruct Hpost as (_ & _ & Hact & Hhead & _). rewrite (expire_live_same _ _ _ _ Hact Hd).
    cbn [mbind result_bind]. rewrite Hact. cbn [mbind result_bind option_filter option_bind].
    by rewrite Hhead, String.eqb_refl.
  - destruct Hpost as (Hact & Hlat & Hsat). rewrite (expire_none_same _ _ _ Hact).
    cbn [mbind result_bind]. rewrite Hact. cbn [mbind result_bind option_filter option_bind retire_active].
    rewrite Hlat. cbn [mbind result_bind option_bind option_filter]. by rewrite Hsat.
  - destruct Hpost as (Hact & Hlat & Hsat & Hf & Hmax). rewrite (expire_none_same _ _ _ Hact).
    cbn [mbind result_bind]. rewrite Hact. cbn [mbind result_bind option_filter option_bind retire_active].
    rewrite Hlat. cbn [mbind result_bind option_bind option_filter]. rewrite Hsat.
    unfold dispatch_or_escalate. rewrite <-Hf. unfold rounds_allowed in Hmax.
    rewrite (proj2 (Z.leb_le _ _) Hmax), Hlat. done.
Qed.

(** Closing rounds keeps what ranks them. *)
Lemma newest_first_identity a b a' b' :
  a.1 = a'.1 → b.1 = b'.1 → round_identity a.2 = round_identity a'.2 →
  round_identity b.2 = round_identity b'.2 → newest_first a b = newest_first a' b'.
Proof.
  destruct a, b, a', b'. unfold round_identity, newest_first, then_by, desc, by_text. simpl.
  intros -> -> [= _ -> _ _ _ -> _] [= _ -> _ _ _ -> _]. done.
Qed.

Lemma closes_back task_id t t' id r' :
  closes task_id t t' → t' !! id = Some r' →
  ∃ r, t !! id = Some r ∧ round_identity r' = round_identity r.
Proof.
  intros H Hr'. destruct (H id) as [E|(r & r0 & Hr & Hr0 & _ & _ & _ & Hs)].
  - exists r'. by rewrite <-E.
  - exists r. split; [done|]. apply round_step_final in Hs as [Hs _]. congruence.
Qed.

Lemma closes_forth task_id t t' id r :
  closes task_id t t' → t !! id = Some r →
  ∃ r', t' !! id = Some r' ∧ round_identity r' = round_identity r ∧ (row_active r = false → r' = r).
Proof.
  intros H Hr. destruct (H id) as [E|(r0 & r1 & Hr0 & Hr1 & _ & Ha & _ & Hs)].
  - exists r. by rewrite E.
  - exists r1. assert (r0 = r) as -> by congruence. split; [done|].
    split; [by apply round_step_final in Hs as [Hs _]|congruence].
Qed.

Lemma closes_latest task_id task t t' id r :
  closes task_id t t' → latest_row task t id r →
  ∃ r', latest_row task t' id r' ∧ round_identity r' = round_identity r.
Proof.
  intros Hc (Hr & Ht & Hmax). destruct (closes_forth _ _ _ _ _ Hc Hr) as (r' & Hr' & Hid & _).
  exists r'. split; [|done]. split_and!; [done|by injection Hid as ->|].
  intros id2 r2' H2' Ht2. destruct (closes_back _ _ _ _ _ Hc H2') as (r2 & H2 & Hid2).
  specialize (Hmax id2 r2 H2). unfold le_of in *.
  rewrite (newest_first_identity (id, r') (id2, r2') (id, r) (id2, r2)) by done.
  apply Hmax. injection Hid2 as E. congruence.
Qed.

Lemma closes_failed task_id task t t' :
  closes task_id t t' →
  sql_count (λ _ r, of_task task r && String.eqb (q_state r) "failed") t'
  = sql_count (λ _ r, of_task task r && String.eqb (q_state r) "failed") t.
Proof.
  intros Hc. apply Nat.le_antisymm; apply sql_count_le; intros id r Hr HP.
  - destruct (Hc id) as [E|(r0 & r1 & _ & Hr1 & _ & _ & (_ & _ & Hf)%closed_states & _)].
    { exists r. by rewrite <-E. }
    assert (r1 = r) as -> by congruence. apply String.eqb_neq in Hf. by rewrite Hf, andb_false_r in HP.
  - exists r. split; [|done]. destruct (closes_forth _ _ _ _ _ Hc Hr) as (r' & Hr' & _ & Hsame).
    rewrite Hsame in Hr'; [done|]. apply andb_true_iff in HP as [_ Hf%String.eqb_eq].
    unfold row_active. by rewrite Hf.
Qed.

(** The code re-reviews a tip it already passed: a delivery that returns to
    a passed tip after a round of another tip gets a fresh round, although the
    gate of that tip is open and stays open, because only the latest round is
    compared. *)
Theorem repark_forgets_a_passed_head random new now db l :
  qa_wf (db_qa_passes db) → valid_request new → db_qa_passes db !! new_pass_id random = None →
  gate_open (nq_task_id new) (nq_bound_head new) db →
  latest_with_conn (nq_task_id new) db = Ok (Some l) → qp_bound_head l ≠ nq_bound_head new →
  (∀ p, active_with_conn (nq_task_id new) db = Ok (Some p) → qp_bound_head p ≠ nq_bound_head new) →
  failed_rounds_with_conn (nq_task_id new) db < rounds_allowed new →
  ∃ p superseded db',
    open_qa_pass_reporting_superseded random new now db = Ok ((Dispatched p, superseded), db')
    ∧ gate_open (nq_task_id new) (nq_bound_head new) db'.
Proof.
  intros Hwf Hv Hid Hgate (rl & Hl & _ & Hle)%latest_Some Hhead Hact Hf.
  destruct (open_cases random new now db Hwf Hv Hid) as (out & sup & db' & E & Hwf' & Hpost & Hops & _).
  destruct out as [p|p|p|failed p]; simpl in Hpost, Hops.
  - exists p, sup, db'. split; [done|]. rewrite gate_open_row in * by done. destruct Hops as [_ Hc].
    destruct Hgate as (id & r & Hr & Ht & Hh & Hs). exists id, r. split_and!; [|done..].
    destruct (closes_forth _ _ _ _ _ Hc Hr) as (r' & Hr' & _ & Hsame).
    rewrite Hsame in Hr'; [by apply lookup_delete_Some in Hr' as [_ Hr']|].
    destruct (qa_states _ Hwf _ _ Hr) as [s Hst]. rewrite (row_satisfies_state r s Hst) in Hs.
    rewrite (row_active_state r s Hst). by destruct s.
  - exfalso. destruct Hpost as (-> & _ & Ha & Hh & _). by eapply Hact.
  - exfalso. destruct Hpost as (_ & (r & Hr & _ & Hp)%latest_Some & Hsat).
    destruct (closes_latest _ _ _ _ _ _ Hops Hl) as (rl' & Hl' & Hid').
    assert (qp_id p = qp_id l) as Hpl by (by eapply latest_row_unique). rewrite Hpl in Hr.
    destruct Hr as [Hr _], Hl' as [Hl' _]. assert (r = rl') as -> by congruence.
    unfold satisfied_by in Hsat. apply andb_true_iff in Hsat as [Hh%String.eqb_eq _].
    apply Hhead. rewrite <-Hh, Hp, Hle. simpl. by injection Hid'.
  - exfalso. destruct Hpost as (_ & _ & _ & -> & Hmax). unfold failed_rounds_with_conn in *.
    rewrite (closes_failed _ _ _ _ Hops) in Hmax. lia.
Qed.

(** ** Errors that cannot happen *)

(** A result that is not an error of SQLite: no constraint, no unreadable row *)
Definition db_free {A} (r : result A) : Prop := match r with Err (Database _) => False | _ => True end.

Lemma db_free_bind {A B} (r : result A) (f : A → result B) :
  db_free r → (∀ a, r = Ok a → db_free (f a)) → db_free (r ≫= f).
Proof. destruct r; simpl; [by intros _ H; apply H|done]. Qed.

Lemma db_free_fmap {A B} (f : A → B) (r : result A) : db_free r → db_free (f <$> r).
Proof. by destruct r. Qed.

Lemma by_id_free id db : qa_wf (db_qa_passes db) → db_free (by_id_with_conn id db).
Proof.
  intros Hwf. unfold by_id_with_conn. destruct (db_qa_passes db !! id) as [r|] eqn:Hr; [|done].
  destruct (qa_states _ Hwf id r Hr) as [s Hs]. by rewrite (parse_row_state id r s Hs).
Qed.

(** A statement that succeeds on a well-formed table, and then a read of it *)
Lemma write_then_free {A} (w : result Db) (k : Db → result A) db' :
  w = Ok db' → db_free (k db') → db_free (w ≫= k).
Proof. by intros ->. Qed.

Lemma by_id_then_free {A} id db (k : QaPass → A) :
  qa_wf (db_qa_passes db) → db_free (p ← by_id_with_conn id db; Ok (k p)).
Proof. intros Hwf. apply db_free_bind; [by apply by_id_free|done]. Qed.

Lemma update_then_free {A} id f db r (k : QaPass → Db → A) :
  qa_wf (db_qa_passes db) → db_qa_passes db !! id = Some r → round_step r (f r) →
  db_free (db ← update_round id f db; p ← by_id_with_conn id db; Ok (k p db)).
Proof.
  intros Hwf Hr Hstep. destruct (update_round_total id f db r Hwf Hr Hstep) as [-> Hwf'].
  simpl. by apply (by_id_then_free id _ (λ p, k p _)).
Qed.

Lemma insert_then_free {A} id r s db (k : QaPass → Db → A) :
  qa_wf (db_qa_passes db) → db_qa_passes db !! id = None → in_state r s →
  (row_active r = true → none_open (q_task_id r) (db_qa_passes db)) →
  db_free (db ← insert_round id r db; p ← by_id_with_conn id db; Ok (k p db)).
Proof.
  intros Hwf Hid Hs Hno. destruct (insert_round_total id r s db Hwf Hid Hs Hno) as [-> Hwf'].
  simpl. by apply (by_id_then_free id _ (λ p, k p _)).
Qed.

Lemma withdraw_round_free id reason now db r :
  qa_wf (db_qa_passes db) → db_qa_passes db !! id = Some r → row_active r = true →
  db_free (withdraw_round id reason now db).
Proof.
  intros Hwf Hr Ha. apply (update_then_free id _ db r (λ p db, (Some p, db))); [done..|].
  by apply step_withdraw.
Qed.

Lemma reject_self_review_free p a action : db_free (reject_self_review p a action).
Proof. unfold reject_self_review. destruct (str_is_empty _); [done|]. by destruct (String.eqb _ _). Qed.

Lemma claim_free registry task_id reviewer now db :
  qa_wf (db_qa_passes db) → db_free (claim_qa_pass registry task_id reviewer now db).
Proof.
  intros Hwf. destruct (expire_cases task_id now db Hwf) as (db1 & E & Hwf1 & _ & _).
  unfold claim_qa_pass. rewrite E. cbn [mbind result_bind].
  destruct (active_total task_id db1 Hwf1) as [[p|] Hp]; rewrite Hp; cbn [mbind result_bind ok_or]; [|done].
  apply db_free_bind; [apply reject_self_review_free|].
  intros u [Hb Hne]%reject_self_review_Ok. destruct (option_filter _ _); [done|].
  apply active_Some in Hp as (r & Hr & Ht & Ha & Hs & Hpe).
  apply (update_then_free (qp_id p) _ db1 r (λ p db, (p, db))); [done..|].
  apply step_claim; [done..|]. by rewrite Hpe in Hne.
Qed.

Lemma resolve_free task_id reviewer v summary issues ledger now db :
  qa_wf (db_qa_passes db) →
  db_free (resolve_qa_pass task_id reviewer v summary issues ledger now db).
Proof.
  intros Hwf. destruct (expire_cases task_id now db Hwf) as (db1 & E & Hwf1 & _ & _).
  unfold resolve_qa_pass. destruct (str_is_empty (trim summary)); [done|].
  destruct (str_is_empty (trim ledger)) eqn:Hl; [done|]. apply db_free_bind.
  { unfold check_issues. destruct issues as [i|]; [|done]. by destruct (json_parse i) as [[]|]. }
  intros _ _. rewrite E. cbn [mbind result_bind].
  destruct (active_total task_id db1 Hwf1) as [[p|] Hp]; rewrite Hp; cbn [mbind result_bind ok_or]; [|done].
  apply db_free_bind; [apply reject_self_review_free|].
  intros u [Hb Hne]%reject_self_review_Ok. destruct (negb _) eqn:Hrev; [done|].
  pose proof (expire_live task_id now db db1 p Hwf E Hp) as Hd.
  apply active_Some in Hp as (r & Hr & Ht & Ha & Hs & Hpe). rewrite Hpe in Hne, Hd, Hrev.
  apply negb_false_iff, bool_decide_eq_true in Hrev.
  apply (update_then_free (qp_id p) _ db1 r (λ p db, (p, db))); [done..|]. by eapply step_verdict.
Qed.

Lemma unclaim_wf P t :
  (∀ r, P r = true → q_state r = "claimed") → qa_wf t → qa_wf (sql_update (λ _ r, P r) unclaim t).
Proof. intros HP. apply (table_step_wf (λ _, False)). by apply ts_release. Qed.

Lemma release_free qa_task_id reviewer db :
  qa_wf (db_qa_passes db) → db_free (release_qa_claim qa_task_id reviewer db).
Proof.
  intros Hwf. unfold release_qa_claim. destruct (reviewer ≫= _) as [[]|]; [done|].
  rewrite write_rounds_wf; [done|]. apply unclaim_wf; [|done]. unfold claimed_for.
  by intros r [_ Hs%String.eqb_eq]%andb_true_iff.
Qed.

Lemma set_qa_task_free pass_id qa_task_id db :
  qa_wf (db_qa_passes db) → db_free (set_qa_task pass_id qa_task_id db).
Proof.
  intros Hwf. unfold set_qa_task. destruct (db_qa_passes db !! pass_id) as [r|] eqn:Hr.
  - apply (update_then_free pass_id _ db r (λ p db, (p, db))); [done..|]. apply step_link.
  - unfold update_round. rewrite sql_update_key_None, write_rounds_wf by done. simpl.
    by apply (by_id_then_free pass_id _ (λ p, (p, _))).
Qed.

(** A closed round is inserted. *)
Lemma insert_closed_free id r s db :
  qa_wf (db_qa_passes db) → db_qa_passes db !! id = None → in_state r s →
  QaPassState_is_active s = false →
  db_free (db ← insert_round id r db; p ← by_id_with_conn id db; Ok (p, db)).
Proof.
  intros Hwf Hid Hs Hc. apply (insert_then_free id r s db pair); [done..|].
  by rewrite (row_active_state r s Hs), Hc.
Qed.

Lemma closes_fresh task_id t t' id : closes task_id t t' → t !! id = None → t' !! id = None.
Proof. intros H Hid. destruct (H id) as [E|(? & ? & ? & _)]; congruence. Qed.

Lemma waive_free random task_id supervisor implementer branch head reason now db :
  qa_wf (db_qa_passes db) → db_qa_passes db !! new_pass_id random = None →
  db_free (waive_qa_pass_reporting_superseded random task_id supervisor implementer branch head
             reason now db).
Proof.
  intros Hwf Hid. unfold waive_qa_pass_reporting_superseded.
  destruct (str_is_empty (trim reason)); [done|]. destruct (_ || _); [done|].
  destruct (active_total task_id db Hwf) as [active Hact]. rewrite Hact. cbn [mbind result_bind].
  destruct (retire_cases task_id active now db Hwf Hact) as (db1 & -> & Hwf1 & Hc & _).
  cbn [mbind result_bind]. apply (insert_then_free _ _ QaPassState_Waived db1 (λ p db, ((p, _), db)));
    [done|by eapply closes_fresh|done|done].
Qed.

Lemma carry_free random from head branch reason now db :
  qa_wf (db_qa_passes db) → db_qa_passes db !! new_pass_id random = None →
  db_free (carry_qa_pass random from head branch reason now db).
Proof.
  intros Hwf Hid. unfold carry_qa_pass. destruct (negb _) eqn:Hs; [done|]. destruct (_ || _); [done|].
  apply negb_false_iff in Hs.
  destruct (active_total (qp_task_id from) db Hwf) as [active Hact]. rewrite Hact. cbn [mbind result_bind].
  assert (∃ db1, match active with
     | Some p => qa_set_state (qp_id p) QaPassState_Superseded (Some now) db
     | None => Ok db
     end = Ok db1 ∧ qa_wf (db_qa_passes db1) ∧ db_qa_passes db1 !! new_pass_id random = None)
    as (db1 & -> & Hwf1 & Hid1).
  { destruct active as [p|]; [|by exists db]. apply active_Some in Hact as (r & Hr & Ht & Ha & _).
    destruct (close_active (qp_task_id from) db p QaPassState_Superseded now r)
      as (db1 & E & _ & Hwf1 & _ & Hc); [done..|by right|by apply step_supersede|].
    exists db1. split_and!; [done..|by eapply closes_fresh]. }
  cbn [mbind result_bind]. destruct (head8 from); [|done]. cbn [mbind result_bind ok_or].
  eapply (insert_closed_free _ _ (qp_state from)); [done..|]. by destruct (qp_state from).
Qed.

Lemma withdraw_open_free task_id reason include_claimed now db :
  qa_wf (db_qa_passes db) → db_free (withdraw_open_qa_pass task_id reason include_claimed now db).
Proof.
  intros Hwf. unfold withdraw_open_qa_pass. destruct (str_is_empty _); [done|].
  destruct (expire_cases task_id now db Hwf) as (db1 & -> & Hwf1 & _ & _). cbn [mbind result_bind].
  destruct (active_total task_id db1 Hwf1) as [[p|] Hp]; rewrite Hp; [|done]. cbn [mbind result_bind].
  destruct (_ && _); [done|]. apply active_Some in Hp as (r & Hr & _ & Ha & _).
  by eapply withdraw_round_free.
Qed.

Lemma withdraw_for_qa_task_free qa_task_id reason now db :
  qa_wf (db_qa_passes db) → db_free (withdraw_qa_pass_for_qa_task qa_task_id reason now db).
Proof.
  intros Hwf. unfold withdraw_qa_pass_for_qa_task. destruct (str_is_empty _); [done|].
  destruct (first_row_total (λ _ r, of_qa_task qa_task_id r && row_active r) db Hwf) as [[p Hp]|[Hp _]];
    rewrite Hp; cbn [mbind result_bind]; [|done].
  apply (select_head_Some (λ r, of_qa_task qa_task_id r && row_active r)) in Hp
    as (r & Hr & [_ Ha]%andb_true_iff & _).
  by eapply withdraw_round_free.
Qed.

Lemma latest_free task_id now db : qa_wf (db_qa_passes db) → db_free (latest_qa_pass task_id now db).
Proof.
  intros Hwf. unfold latest_qa_pass.
  destruct (expire_cases task_id now db Hwf) as (db1 & -> & Hwf1 & _ & _). cbn [mbind result_bind].
  by destruct (latest_total task_id db1 Hwf1) as [l ->].
Qed.

Lemma upsert_free p changed_at db :
  qa_wf (db_qa_passes db) → may_merge p db →
  (db_qa_passes db !! qp_id p = None → QaPassState_is_active (qp_state p) = true →
   none_open (qp_task_id p) (db_qa_passes db)) →
  db_free (upsert_snapshot p changed_at db).
Proof.
  intros Hwf Hm Hno. unfold upsert_snapshot. apply db_free_bind; [|done].
  destruct (db_qa_passes db !! qp_id p) as [r|] eqn:Hr.
  - by destruct (update_round_total (qp_id p) (merge_snapshot p) db r Hwf Hr (Hm r Hr)) as [-> _].
  - destruct (insert_round_total (qp_id p) (snapshot_row p) (qp_state p) db Hwf Hr eq_refl) as [-> _]; [|done].
    rewrite (row_active_state _ (qp_state p)) by done. by apply Hno.
Qed.

Lemma import_over_active_free p changed_at db :
  qa_wf (db_qa_passes db) → may_merge p db → db_free (import_over_active p changed_at db).
Proof.
  intros Hwf Hm. unfold import_over_active.
  destruct (active_total (qp_task_id p) db Hwf) as [active Hact]. rewrite Hact. cbn [mbind result_bind].
  destruct active as [a|]; cbn [option_filter option_bind mbind].
  2:{ apply db_free_fmap, upsert_free; [done..|]. intros _ _. by apply active_None. }
  apply active_Some in Hact as (r & Hr & Ht & Ha & _).
  destruct (String.eqb_spec (qp_id a) (qp_id p)) as [He|Hne]; cbn [negb].
  { apply db_free_fmap, upsert_free; [done..|]. intros Hn _. congruence. }
  destruct (QaPassState_is_active (qp_state p) && _); [done|].
  destruct (_ || _) eqn:E; cbn [mbind result_bind].
  - destruct (close_active (qp_task_id p) db a QaPassState_Superseded changed_at r)
      as (db1 & -> & E1 & Hwf1 & Hno & _); [done..|by right|by apply step_supersede|].
    cbn [mbind result_bind]. apply db_free_fmap, upsert_free; [done| |done].
    intros q. rewrite E1, lookup_insert_ne by done. apply Hm.
  - apply db_free_fmap, upsert_free; [done..|]. intros _ Hact. by rewrite Hact in E.
Qed.

Lemma import_free p changed_at db : qa_wf (db_qa_passes db) → db_free (import_qa_pass p changed_at db).
Proof.
  intros Hwf. unfold import_qa_pass. destruct (invalid_snapshot p) eqn:Hv; [done|].
  unfold by_id_with_conn. destruct (db_qa_passes db !! qp_id p) as [r|] eqn:Hr.
  - destruct (qa_states _ Hwf _ r Hr) as [s Hs]. rewrite (parse_row_state _ r s Hs).
    destruct (decide_import _ _ _ _) eqn:Hd; [|done..]. apply import_over_active_free; [done|].
    intros q Hq. assert (q = r) as -> by congruence. eapply step_import; [|done..].
    by apply parse_row_state.
  - apply import_over_active_free; [done|]. intros q. congruence.
Qed.

(** The ids an operation draws are unused, and its numbers fit their types. *)
Definition fresh_qa_op (o : qa_op) (db : Db) : Prop :=
  match o with
  | QOpen random new => db_qa_passes db !! new_pass_id random = None ∧ nq_max_rounds new < 2 ^ 32
  | QWaive random _ _ _ _ _ _ | QCarry random _ _ _ _ => db_qa_passes db !! new_pass_id random = None
  | _ => True
  end.

(** C40: The one-open-round index never rejects a write, and no stored round is
    unreadable: on a well-formed table no operation fails with a database
    error, given a fresh id, and the table stays well-formed.  Every failure
    is one the operation itself reports. *)
Theorem qa_never_violates_constraints now o db :
  qa_wf (db_qa_passes db) → fresh_qa_op o db →
  qa_wf (db_qa_passes (run_qa_op now o db))
  ∧ ∀ m, exec_qa_op now o db ≠ Err (Database m).
Proof.
  intros Hwf Hf. split.
  { destruct (run_qa_only now o db Hwf) as [Hs _]. by eapply table_steps_wf. }
  assert (db_free (exec_qa_op now o db)) as H.
  2:{ intros m E. by rewrite E in H. }
  destruct o; simpl in Hf; apply db_free_fmap.
  - destruct Hf as [Hid Hmax]. apply db_free_fmap.
    destruct (str_is_empty (trim (nq_bound_head new)) || str_is_empty (trim (nq_implementer_agent_id new))) eqn:E.
    { unfold open_qa_pass_reporting_superseded. by rewrite E. }
    apply orb_false_iff in E as [E1 E2].
    by destruct (open_cases random new now db Hwf) as (? & ? & ? & -> & _).
  - by apply set_qa_task_free.
  - by apply claim_free.
  - by apply release_free.
  - by apply resolve_free.
  - apply db_free_fmap. by apply waive_free.
  - by apply carry_free.
  - by apply withdraw_open_free.
  - by apply withdraw_for_qa_task_free.
  - by apply latest_free.
  - by apply import_free.
Qed.

(** ** Snapshots against local writes *)

Lemma claim_inv registry task_id reviewer now db p1 db1 :
  qa_wf (db_qa_passes db) →
  claim_qa_pass registry task_id reviewer now db = Ok (p1, db1) →
  ∃ p0 r, active_with_conn task_id db = Ok (Some p0) ∧ db_qa_passes db !! qp_id p0 = Some r
    ∧ q_task_id r = task_id ∧ in_state r (qp_state p0) ∧ p0 = row_pass (qp_id p0) r (qp_state p0)
    ∧ reviewer ≠ q_implementer_agent_id r
    ∧ let r1 := r <| q_reviewer_agent_id := Some reviewer |> <| q_state := "claimed" |> in
      p1 = row_pass (qp_id p0) r1 QaPassState_Claimed
      ∧ db1 = db <| db_qa_passes := <[qp_id p0 := r1]> (db_qa_passes db) |>
      ∧ qa_wf (db_qa_passes db1).
Proof.
  intros Hwf H. pose proof (claim_only (λ _, False) _ _ _ _ _ _ _ H) as [Hsteps _].
  pose proof (table_steps_wf _ _ _ Hsteps Hwf) as Hwf'. revert H. unfold claim_qa_pass.
  destruct (expire_cases task_id now db Hwf) as (dbe & -> & _ & _ & [(-> & p0 & Hp & Hd)|Hno]);
    cbn [mbind result_bind]; [|by rewrite Hno].
  rewrite Hp. cbn [mbind result_bind ok_or]. intros (u & [Hb Hne]%reject_self_review_Ok & H)%bind_Ok.
  destruct (option_filter _ _); [done|].
  apply bind_Ok in H as (db2 & Hw & (p' & Hid & [= -> ->])%bind_Ok).
  pose proof Hp as (r & Hr & Ht & Ha & Hs & Hpe)%active_Some.
  unfold update_round in Hw. apply write_rounds_Ok in Hw as [-> _].
  rewrite (sql_update_key_Some _ _ _ _ Hr) in *. exists p0, r. unfold by_id_with_conn in Hid.
  simpl in Hid. rewrite lookup_insert_eq, (parse_row_state _ _ QaPassState_Claimed) in Hid by done.
  injection Hid as <-. split_and!; try done. by rewrite Hpe in Hne.
Qed.

Lemma same_delivery_refl p q :
  qp_task_id p = qp_task_id q → qp_bound_head p = qp_bound_head q → qp_branch p = qp_branch q →
  qp_implementer_agent_id p = qp_implementer_agent_id q → qp_requested_at p = qp_requested_at q →
  qp_round p = qp_round q → qp_deadline_at p = qp_deadline_at q →
  qp_qa_task_id p = qp_qa_task_id q → same_delivery p q = true.
Proof.
  unfold same_delivery. intros -> -> -> -> -> -> -> ->. rewrite !String.eqb_refl, !Z.eqb_refl.
  simpl. by destruct (qp_qa_task_id q); [apply String.eqb_refl|].
Qed.

(** Merging what was read from a row into its claimed successor restores it. *)
Lemma merge_own_row id r reviewer s p :
  p = row_pass id r s →
  row_pass id (merge_snapshot p (r <| q_reviewer_agent_id := Some reviewer |>
                                   <| q_state := "claimed" |>)) s = p.
Proof. intros ->. unfold row_pass. simpl. by destruct (q_qa_task_id r). Qed.

(** The code lets an older snapshot undo a newer local claim.  Local writes
    record no version, so an import compares the snapshot's time with the
    round's request; a snapshot taken after the request and before the claim
    passes for newer, and importing it returns the claimed round to the queue
    as the snapshot shows it. *)
Theorem stale_snapshot_undoes_claim registry task_id reviewer now db p0 p1 db1 changed_at :
  qa_wf (db_qa_passes db) →
  active_with_conn task_id db = Ok (Some p0) → qp_state p0 = QaPassState_Pending →
  qp_resolved_at p0 = None → invalid_snapshot p0 = false → db_qa_sync db !! qp_id p0 = None →
  claim_qa_pass registry task_id reviewer now db = Ok (p1, db1) →
  qp_requested_at p0 < changed_at < now →
  qp_reviewer_agent_id p1 = Some reviewer
  ∧ ∃ db2, import_qa_pass p0 changed_at db1 = Ok (tt, db2) ∧ by_id_with_conn (qp_id p0) db2 = Ok p0.
Proof.
  intros Hwf Hact Hst Hres Hv Hver Hcl [Hc1 _].
  destruct (claim_inv _ _ _ _ _ _ _ Hwf Hcl) as (p0' & r & Hact' & Hr & Ht & Hs & Hp & _ & Hp1 & Hdb1 & Hwf1).
  assert (p0' = p0) as -> by congruence. clear Hact'. rewrite Hst in Hs, Hp. set (r1 := r <| _ := _ |> <| _ := _ |>) in *.
  assert (db_qa_passes db1 !! qp_id p0 = Some r1) as Hr1 by (by rewrite Hdb1; simpl; rewrite lookup_insert_eq).
  split; [by rewrite Hp1|]. unfold import_qa_pass. rewrite Hv. unfold by_id_with_conn at 1.
  rewrite Hr1, (parse_row_state _ r1 QaPassState_Claimed) by done.
  assert (db_qa_sync db1 !! qp_id p0 = None) as -> by (by rewrite Hdb1).
  assert (decide_import (row_pass (qp_id p0) r1 QaPassState_Claimed) p0 changed_at None = ImportApply) as Hd.
  { unfold decide_import. rewrite same_delivery_refl by (by rewrite Hp). cbn [negb].
    rewrite Hp in Hres, Hc1. simpl in *. rewrite Hres. simpl.
    rewrite (proj2 (Z.ltb_ge _ _)), (proj2 (Z.eqb_neq _ _)) by lia. done. }
  rewrite Hd.
  unfold import_over_active.
  assert (qp_task_id p0 = task_id) as Htask by (by rewrite Hp).
  assert (active_with_conn (qp_task_id p0) db1 = Ok (Some (row_pass (qp_id p0) r1 QaPassState_Claimed))) as ->
    by (by apply active_intro; rewrite ?Htask).
  cbn [mbind result_bind option_filter option_bind]. simpl qp_id. rewrite String.eqb_refl. cbn [negb].
  unfold upsert_snapshot. rewrite Hr1.
  assert (round_step r1 (merge_snapshot p0 r1)) as Hstep.
  { eapply (step_import r1 (row_pass (qp_id p0) r1 QaPassState_Claimed) p0 changed_at None);
      [by apply parse_row_state|done|].
    exact Hd. }
  destruct (update_round_total (qp_id p0) (merge_snapshot p0) db1 r1 Hwf1 Hr1 Hstep) as [-> _].
  simpl. eexists. split; [done|]. unfold by_id_with_conn. simpl.
  rewrite lookup_insert_eq, (parse_row_state _ _ QaPassState_Pending) by (by unfold in_state; simpl; rewrite Hst).
  f_equal. by apply (merge_own_row _ r).
Qed.

End qa_gate.
