(* ===== verification/WaitBudget.v ===== *)
(** * Bounded waits ([cas-store/src/wait_budget.rs], [shared_db.rs])

    How a thread waits for a lock another thread or process holds: the
    thread's wait budget, the polled locks, SQLite's busy handler and the
    retries of a write transaction.  A thread carries its clock and its
    thread-local cells; what happens outside it is a [World]: whether a lock
    is free at an instant, how late a sleep ends, what an attempt to begin a
    transaction does and how long it takes.  Durations and instants are
    nanoseconds. *)

From S2P Require Import Prelude Db.

Definition micros (n : Z) : Z := n * 1000.
Definition millis (n : Z) : Z := n * 1000000.

(** ** Threads *)
Record Thread := mkThread {
  th_now : Z;
  th_deadline : option Z;
  th_forbid_depth : Z;
  th_violations : Z;
  th_last_violation : option string;
  th_rng : Z;
}.
#[export] Instance Thread_eta : Eta Thread := λ t,
  mkThread (th_now t) (th_deadline t) (th_forbid_depth t) (th_violations t)
    (th_last_violation t) (th_rng t).

(** The errors of this layer: SQLITE_BUSY, another error of SQLite, the
    report of a whole wait ("database busy for {elapsed}s across {attempts}
    attempt(s); ..") and other store errors. *)
Inductive WaitError :=
  | BusyError (msg : string)
  | SqliteError (msg : string)
  | BusyForWholeWait (elapsed : Z) (attempts : nat) (last : option string)
  | WaitOther (e : StoreError).

Definition is_busy_error (e : WaitError) : bool :=
  match e with BusyError _ => true | _ => false end.

(** What BEGIN IMMEDIATE answers *)
Inductive BeginAnswer := Begun | BeginBusy (msg : string) | BeginFailed (msg : string).

Inductive TryLock := Acquired | Poisoned | WouldBlock | LockFailed (msg : string).

(** What the rest of the machine does *)
Class World := {
  (** a non-blocking attempt on a lock at an instant *)
  try_lock : Z → TryLock;
  (** a blocking lock: its outcome and the wait *)
  block_lock : Z → TryLock * Z;
  (** how much later than asked a sleep ends *)
  oversleep : Z → Z;
  (** BEGIN IMMEDIATE with a limit on the busy wait: its outcome and how long it takes *)
  begin_immediate : Z → Z → BeginAnswer * Z;
}.

(** Time runs forward. *)
Class WorldLaws (w : World) : Prop := {
  oversleep_pos t : 0 ≤ oversleep t;
  block_lock_pos t : 0 ≤ (block_lock t).2;
  begin_pos t limit : 0 ≤ (begin_immediate t limit).2;
}.

(** ** Deadlines *)

(** A guard is the deadline it restores. *)
Definition WaitBudgetGuard := option Z.
Definition drop_wait_guard (g : WaitBudgetGuard) (th : Thread) : Thread := th <| th_deadline := g |>.

Definition bound_waits_until (deadline : Z) (th : Thread) : WaitBudgetGuard * Thread :=
  let previous := th_deadline th in
  let effective := match previous with Some prev => Z.min prev deadline | None => deadline end in
  (previous, th <| th_deadline := Some effective |>).
Definition bound_waits_for (budget : Z) (th : Thread) : WaitBudgetGuard * Thread :=
  bound_waits_until (th_now th + budget) th.
Definition grant_waits_for (budget : Z) (th : Thread) : WaitBudgetGuard * Thread :=
  let previous := th_deadline th in
  (previous, th <| th_deadline := (λ _, th_now th + budget) <$> previous |>).

Definition wait_deadline (th : Thread) : option Z := th_deadline th.
Definition remaining_wait (th : Thread) : option Z :=
  (λ deadline, Z.max 0 (deadline - th_now th)) <$> wait_deadline th.
Definition wait_budget_exhausted (th : Thread) : bool :=
  match remaining_wait th with Some left_ => left_ =? 0 | None => false end.
Definition clamp_wait (planned : Z) (th : Thread) : option Z :=
  match remaining_wait th with
  | None => Some planned
  | Some left_ => if left_ =? 0 then None else Some (Z.min planned left_)
  end.
Definition budget_exhausted_error (what : string) : WaitError :=
  BusyError (what +:+ ": this thread's store wait budget is spent; retry on a later pass").

(** ** Store-free regions *)
Definition forbid_store_access (th : Thread) : Thread := th <| th_forbid_depth ::= λ d, d + 1 |>.
(** [ForbidStoreGuard::drop]: a saturating decrement *)
Definition drop_forbid_guard (th : Thread) : Thread := th <| th_forbid_depth ::= λ d, Z.max 0 (d - 1) |>.
(** [permit_store_access] and the drop of its guard; the lane report is left out *)
Definition permit_store_access (th : Thread) : Z * Thread :=
  (th_forbid_depth th, th <| th_forbid_depth := 0 |>).
Definition drop_permit_guard (previous_depth : Z) (th : Thread) : Thread :=
  th <| th_forbid_depth := previous_depth |>.
Definition store_access_forbidden (th : Thread) : bool := 0 <? th_forbid_depth th.
Definition note_store_access (what : string) (th : Thread) : Thread :=
  if store_access_forbidden th
  then th <| th_violations ::= λ v, (v + 1) mod 2 ^ 64 |> <| th_last_violation := Some what |>
  else th.

(** ** SQLite's busy handler *)
Definition SQLITE_BUSY_TIMEOUT : Z := duration_seconds 5.
Definition DELAYS_MS : list Z := [1; 2; 5; 10; 15; 20; 25; 25; 25; 50; 50; 100].

Definition sum (l : list Z) : Z := foldr Z.add 0 l.

(** What the handler has waited before its [count]-th call, in milliseconds *)
Definition busy_waited (count : nat) : Z :=
  if (count <? length DELAYS_MS)%nat then sum (take count DELAYS_MS)
  else sum DELAYS_MS + Z.of_nat (count - length DELAYS_MS) * 100.

(** The sleep of the [count]-th call, when it sleeps at all *)
Definition busy_planned (count : nat) : option Z :=
  let delay := nth (Nat.min count (length DELAYS_MS - 1)) DELAYS_MS 0 in
  let waited := busy_waited count in
  let timeout_ms := SQLITE_BUSY_TIMEOUT / 1000000 in
  if timeout_ms <=? waited then None else Some (Z.min delay (timeout_ms - waited)).

Section waits.
Context {world : World}.

(** [std::thread::sleep] *)
Definition sleep (duration : Z) (th : Thread) : Thread :=
  th <| th_now ::= λ now, now + duration + oversleep now |>.

(** Time the thread spends in a call *)
Definition spend (duration : Z) (th : Thread) : Thread := th <| th_now ::= λ now, now + duration |>.

Definition busy_handler (count : Z) (th : Thread) : bool * Thread :=
  match busy_planned (if count <? 0 then 0%nat else Z.to_nat count) with
  | None => (false, th)
  | Some planned =>
      match clamp_wait (millis planned) th with
      | Some duration => (true, sleep duration th)
      | None => (false, th)
      end
  end.

(** ** Polled locks

    Try, sleep at most the remaining budget, double the pause up to a cap.
    [None] is fuel that ran out. *)
Section poll.
Context {A : Type} (attempt : Z → option A) (timed_out : A) (cap : Z).
Fixpoint poll (fuel : nat) (pause : Z) (th : Thread) : option (A * Thread) :=
  match fuel with
  | O => None
  | S fuel =>
      match attempt (th_now th) with
      | Some a => Some (a, th)
      | None =>
          match clamp_wait pause th with
          | None => Some (timed_out, th)
          | Some duration => poll fuel (Z.min (pause * 2) cap) (sleep duration th)
          end
      end
  end.
End poll.

(** Polls a thread can make before its deadline, with pauses of at least [pause] *)
Definition poll_fuel (pause : Z) (th : Thread) : nat :=
  match remaining_wait th with Some left_ => S (S (Z.to_nat (left_ / pause))) | None => 0 end.

(** [lock_mutex_within_budget]: whether the guard was obtained *)
Definition lock_mutex_within_budget (what : string) (th : Thread) : option (bool * Thread) :=
  let th := note_store_access what th in
  match wait_deadline th with
  | None => let '(_, waited) := block_lock (th_now th) in Some (true, spend waited th)
  | Some _ =>
      poll (λ now, match try_lock now with
                   | Acquired | Poisoned => Some true
                   | _ => None
                   end) false (millis 5) (poll_fuel (micros 200) th) (micros 200) th
  end.

(** [lock_file_exclusive_within_budget]; a contended lock reads as [WouldBlock] *)
Definition lock_file_exclusive_within_budget (what : string) (th : Thread)
    : option (Result string unit * Thread) :=
  let th := note_store_access what th in
  match wait_deadline th with
  | None =>
      let '(outcome, waited) := block_lock (th_now th) in
      Some (match outcome with LockFailed msg => Err msg | _ => Ok tt end, spend waited th)
  | Some _ =>
      poll (λ now, match try_lock now with
                   | WouldBlock => None
                   | LockFailed msg => Some (Err msg)
                   | _ => Some (Ok tt)
                   end)
        (Err (what +:+ " is held by another process; this thread's wait budget is spent"))
        (millis 10) (poll_fuel (millis 1) th) (millis 1) th
  end.

Definition poisoned_error : WaitError :=
  WaitOther (Other "shared SQLite connection lock poisoned").

(** [lock_connection_with] (shared_db.rs) *)
Definition lock_connection_with (recover_poison : bool) (th : Thread)
    : option (Result WaitError unit * Thread) :=
  let answer outcome :=
    match outcome with
    | Acquired => Some (Ok tt)
    | Poisoned => Some (if recover_poison then Ok tt else Err poisoned_error)
    | _ => None
    end in
  let th := note_store_access "sqlite connection" th in
  match wait_deadline th with
  | None =>
      let '(outcome, waited) := block_lock (th_now th) in
      Some (match answer outcome with Some r => r | None => Ok tt end, spend waited th)
  | Some _ =>
      poll (λ now, answer (try_lock now))
        (Err (budget_exhausted_error "shared SQLite connection held by another thread"))
        (millis 5) (poll_fuel (micros 200) th) (micros 200) th
  end.

(** ** Retries *)

(** xorshift64 on the thread's cell *)
Definition cheap_random_u64 (th : Thread) : Z * Thread :=
  let s := th_rng th in
  let s := Z.lxor s (Z.shiftl s 13 mod 2 ^ 64) in
  let s := Z.lxor s (Z.shiftr s 7) in
  let s := Z.lxor s (Z.shiftl s 17 mod 2 ^ 64) in
  (s, th <| th_rng := s |>).

(** The jittered delay for a base, both in milliseconds *)
Definition jittered (base_ms : Z) (th : Thread) : Z * Thread :=
  let jitter_range := base_ms / 2 in
  let '(random, th) := cheap_random_u64 th in
  let jitter := random mod (jitter_range * 2 + 1) in
  (base_ms - jitter_range + jitter, th).

(** [with_write_retry]: the call [f k] is the [k]-th evaluation of the closure. *)
Section write_retry.
Context {A : Type} (f : nat → Thread → Result WaitError A * Thread).
Fixpoint retry_after (delays : list Z) (k : nat) (th : Thread) : Result WaitError A * Thread :=
  match delays with
  | [] => f k th
  | base_ms :: delays =>
      let '(r, th) := f k th in
      match r with
      | Ok val => (Ok val, th)
      | Err e =>
          if is_busy_error e then
            let '(delay_ms, th) := jittered base_ms th in
            match clamp_wait (millis delay_ms) th with
            | None => f (S k) th
            | Some duration => retry_after delays (S k) (sleep duration th)
            end
          else (Err e, th)
      end
  end.
Definition with_write_retry (th : Thread) : Result WaitError A * Thread :=
  retry_after [50; 100; 200; 400; 800] 0 th.
End write_retry.

(** ** Write transactions *)

(** [BEGIN IMMEDIATE] under the pooled busy handler *)
Definition ImmediateTx_new (th : Thread) : BeginAnswer * Thread :=
  let limit := match remaining_wait th with
               | Some left_ => Z.min SQLITE_BUSY_TIMEOUT left_
               | None => SQLITE_BUSY_TIMEOUT
               end in
  let '(r, took) := begin_immediate (th_now th) limit in (r, spend took th).

Definition WRITE_TXN_BACKOFF_MS : list Z := [50; 100; 200; 400; 800].

(** The report after the last attempt *)
Definition begin_failed (started : Z) (attempts : nat) (last : option string) (th : Thread) : WaitError :=
  if wait_budget_exhausted th then budget_exhausted_error "BEGIN IMMEDIATE"
  else BusyForWholeWait (th_now th - started) attempts last.

Fixpoint begin_attempts (started : Z) (attempts : nat) (backoff_ms : list Z) (th : Thread)
    : Result WaitError unit * Thread :=
  let attempts := S attempts in
  let '(begun, th) := ImmediateTx_new th in
  match begun with
  | Begun => (Ok tt, th)
  | BeginFailed error => (Err (SqliteError error), th)
  | BeginBusy error =>
      match backoff_ms with
      | [] => (Err (begin_failed started attempts (Some error) th), th)
      | base_ms :: backoff_ms =>
          let '(delay_ms, th) := jittered base_ms th in
          match clamp_wait (millis delay_ms) th with
          | None => (Err (begin_failed started attempts (Some error) th), th)
          | Some duration => begin_attempts started attempts backoff_ms (sleep duration th)
          end
      end
  end.
Definition begin_immediate_with_retry_bounded (backoff_ms : list Z) (th : Thread)
    : Result WaitError unit * Thread :=
  begin_attempts (th_now th) 0 backoff_ms th.
Definition begin_immediate_with_retry (th : Thread) : Result WaitError unit * Thread :=
  begin_immediate_with_retry_bounded WRITE_TXN_BACKOFF_MS th.

Definition POOLED_ATTEMPT_BUSY : Z := millis 100.
Definition POOLED_WRITE_BUDGET : Z := millis 31500.
Definition POOLED_BACKOFF_MS : list Z := [5; 10; 20; 40; 80].

(** The base delay after an attempt; the last entry repeats. *)
Definition pooled_base (attempts : nat) : Z :=
  match POOLED_BACKOFF_MS !! (attempts - 1)%nat with
  | Some base => base
  | None => default 0 (last POOLED_BACKOFF_MS)
  end.

(** The attempts of [begin_immediate_pooled_bounded]; [None] is fuel that ran out. *)
Fixpoint pooled_attempts (fuel : nat) (attempt_busy budget started : Z) (attempts : nat)
    (th : Thread) : option (Result WaitError unit * Thread) :=
  match fuel with
  | O => None
  | S fuel =>
      let attempts := S attempts in
      '(locked, th) ← lock_connection_with false th;
      match locked with
      | Err e => Some (Err e, th)
      | Ok _ =>
          match remaining_wait th with
          | Some 0 => Some (Err (budget_exhausted_error "BEGIN IMMEDIATE"), th)
          | left_ =>
              let limit := match left_ with Some l => Z.min attempt_busy l | None => attempt_busy end in
              let '(begun, took) := begin_immediate (th_now th) limit in
              let th := spend took th in
              match begun with
              | Begun => Some (Ok tt, th)
              | BeginFailed error => Some (Err (SqliteError error), th)
              | BeginBusy error =>
                  if (budget <=? th_now th - started) || wait_budget_exhausted th
                  then Some (Err (begin_failed started attempts (Some error) th), th)
                  else
                    let '(delay_ms, th) := jittered (pooled_base attempts) th in
                    match clamp_wait (millis delay_ms) th with
                    | None => Some (Err (begin_failed started attempts (Some error) th), th)
                    | Some duration =>
                        pooled_attempts fuel attempt_busy budget started attempts (sleep duration th)
                    end
              end
          end
      end
  end.

(** Every round but the last sleeps 3 ms or to the deadline. *)
Definition pooled_fuel (budget : Z) : nat := S (S (Z.to_nat (budget / millis 3))).

Definition begin_immediate_pooled_bounded (attempt_busy budget : Z) (th : Thread)
    : option (Result WaitError unit * Thread) :=
  pooled_attempts (pooled_fuel budget) attempt_busy budget (th_now th) 0 th.
Definition begin_immediate_pooled (th : Thread) : option (Result WaitError unit * Thread) :=
  begin_immediate_pooled_bounded POOLED_ATTEMPT_BUSY POOLED_WRITE_BUDGET th.
End waits.

(** ** The busy handler's schedule *)

Lemma busy_waited_S n :
  busy_waited (S n) = busy_waited n + nth (Nat.min n (length DELAYS_MS - 1)) DELAYS_MS 0.
Proof.
  destruct (Nat.leb_spec 12 n) as [H|H].
  - unfold busy_waited. rewrite (proj2 (Nat.ltb_ge _ _)), (proj2 (Nat.ltb_ge n _)) by (simpl; lia).
    rewrite (Nat.min_r n) by (simpl; lia). simpl. lia.
  - do 12 (destruct n as [|n]; [reflexivity|]). lia.
Qed.

(** What the handler sleeps in its first [n] calls, in milliseconds *)
Fixpoint busy_slept (n : nat) : Z :=
  match n with O => 0 | S n => busy_slept n + default 0 (busy_planned n) end.

Lemma busy_slept_waited n : busy_slept n = Z.min 5000 (busy_waited n).
Proof.
  induction n as [|n IH]; [reflexivity|]. cbn [busy_slept]. rewrite IH, busy_waited_S.
  unfold busy_planned. change (SQLITE_BUSY_TIMEOUT / 1000000) with 5000.
  set (delay := nth _ _ _). assert (0 ≤ delay).
  { unfold delay. assert (Nat.min n (length DELAYS_MS - 1) < 12)%nat as Hk by (simpl; lia).
    revert Hk. generalize (Nat.min n (length DELAYS_MS - 1)). intros k Hk.
    do 12 (destruct k as [|k]; [vm_compute; congruence|]). lia. }
  destruct (Z.leb_spec 5000 (busy_waited n)); simpl; lia.
Qed.

Lemma busy_waited_late n : (12 ≤ n)%nat → busy_waited n = 328 + (Z.of_nat n - 12) * 100.
Proof.
  intros H. unfold busy_waited. rewrite (proj2 (Nat.ltb_ge _ _)) by (simpl; lia).
  rewrite Nat2Z.inj_sub by (simpl; lia). simpl. lia.
Qed.

(** SQLite's busy wait ends.  Without a deadline the handler sleeps on its
    first 59 calls and on no later one; whatever lock it waits for, its sleeps
    add up to exactly the five second timeout and never to more, although each
    call computes what was waited from its count alone. *)
Theorem busy_handler_waits_the_timeout n :
  (busy_planned n ≠ None ↔ (n < 59)%nat)
  ∧ busy_slept n ≤ 5000 ∧ (busy_slept n = 5000 ↔ (59 ≤ n)%nat).
Proof.
  assert (busy_waited n < 5000 ↔ (n < 59)%nat) as Hw.
  { destruct (Nat.leb_spec 12 n) as [H|H].
    - rewrite busy_waited_late by done. lia.
    - split; [lia|]. intros _. do 12 (destruct n as [|n]; [reflexivity|]). lia. }
  rewrite busy_slept_waited. split; [|lia]. unfold busy_planned.
  change (SQLITE_BUSY_TIMEOUT / 1000000) with 5000.
  destruct (Z.leb_spec 5000 (busy_waited n)); (split; [|done || lia]); [done|lia].
Qed.

Section wait_lemmas.
Context {world : World} {laws : WorldLaws world}.

(** ** Deadlines and budgets *)

Lemma clamp_wait_Some planned th duration :
  clamp_wait planned th = Some duration → 0 ≤ planned →
  0 ≤ duration ≤ planned ∧ (duration = planned ∨ th_deadline th = Some (th_now th + duration))
  ∧ ∀ d, th_deadline th = Some d → th_now th < d ∧ th_now th + duration ≤ d.
Proof.
  unfold clamp_wait, remaining_wait, wait_deadline. intros H Hp.
  destruct (th_deadline th) as [d|]; simpl in H.
  2:{ injection H as <-. split_and!; [lia|lia|by left|done]. }
  destruct (Z.eqb_spec (Z.max 0 (d - th_now th)) 0); [done|]. injection H as <-.
  split; [lia|]. split; [|intros ? [= <-]; lia].
  destruct (Z.leb_spec planned (d - th_now th)); [left; lia|right; f_equal; lia].
Qed.

Lemma clamp_wait_None planned th :
  clamp_wait planned th = None → wait_budget_exhausted th = true ∧ ∃ d, th_deadline th = Some d ∧ d ≤ th_now th.
Proof.
  unfold clamp_wait, wait_budget_exhausted, remaining_wait, wait_deadline.
  destruct (th_deadline th) as [d|]; simpl; [|done].
  destruct (Z.eqb_spec (Z.max 0 (d - th_now th)) 0); [|done]. intros _. split; [done|]. exists d. split; [done|lia].
Qed.

(** ** Polled locks *)

Lemma poll_ends {A} (attempt : Z → option A) timed_out cap p0 d fuel : ∀ pause th,
  th_deadline th = Some d → 0 < p0 → p0 ≤ pause → p0 ≤ cap →
  (if d <=? th_now th then (1 ≤ fuel)%nat else (2 + Z.to_nat ((d - th_now th) / p0) ≤ fuel)%nat) →
  ∃ r th', poll attempt timed_out cap fuel pause th = Some (r, th')
    ∧ (attempt (th_now th') = Some r
       ∨ r = timed_out ∧ attempt (th_now th') = None ∧ d ≤ th_now th')
    ∧ (∀ late, (∀ t, oversleep t ≤ late) → th_now th' ≤ Z.max (th_now th) (d + late))
    ∧ th_now th ≤ th_now th' ∧ th_deadline th' = Some d.
Proof.
  induction fuel as [|fuel IH]; intros pause th Hd Hp0 Hpause Hcap Hfuel.
  { destruct (d <=? th_now th); lia. }
  cbn [poll]. destruct (attempt (th_now th)) as [a|] eqn:Ha.
  { exists a, th. split_and!; [done|by left|lia|lia|done]. }
  destruct (clamp_wait pause th) as [duration|] eqn:Hc.
  2:{ apply clamp_wait_None in Hc as (_ & d' & Hd' & Hle). exists timed_out, th.
      split_and!; [done|right; split_and!; [done..|congruence]|lia|lia|done]. }
  pose proof (oversleep_pos (w := world) (th_now th)) as Hover.
  apply clamp_wait_Some in Hc as (Hrange & Hdur & Hle); [|lia]. destruct (Hle d Hd) as [Hlt Hle'].
  destruct (IH (Z.min (pause * 2) cap) (sleep duration th)) as (r & th' & -> & Hr & Htime & Hmono & Hd2); try done; [lia| |].
  { simpl. rewrite (proj2 (Z.leb_gt _ _) Hlt) in Hfuel.
    destruct (Z.leb_spec d (th_now th + duration + oversleep (th_now th))) as [|Hmore]; [lia|].
    destruct Hdur as [->|Heq]; [|assert (d = th_now th + duration) by congruence; lia].
    assert ((d - (th_now th + pause + oversleep (th_now th))) / p0 ≤ (d - th_now th) / p0 - 1) as Hdiv.
    { replace ((d - th_now th) / p0 - 1) with ((d - th_now th + (-1) * p0) / p0) by (rewrite Z.div_add; lia).
      apply Z.div_le_mono; lia. }
    assert (0 ≤ (d - (th_now th + pause + oversleep (th_now th))) / p0) by (apply Z.div_pos; lia).
    lia. }
  simpl in Hmono. exists r, th'. split_and!; [done..| |lia|done]. intros late Hlate.
  specialize (Htime late Hlate). specialize (Hlate (th_now th)). simpl in Htime. lia.
Qed.

Lemma note_store_access_time what th :
  th_now (note_store_access what th) = th_now th
  ∧ th_deadline (note_store_access what th) = th_deadline th.
Proof. unfold note_store_access. by destruct (store_access_forbidden th). Qed.

Lemma poll_with_fuel {A} (attempt : Z → option A) timed_out cap pause th d :
  th_deadline th = Some d → 0 < pause → pause ≤ cap →
  ∃ r th', poll attempt timed_out cap (poll_fuel pause th) pause th = Some (r, th')
    ∧ (attempt (th_now th') = Some r
       ∨ r = timed_out ∧ attempt (th_now th') = None ∧ d ≤ th_now th')
    ∧ (∀ late, (∀ t, oversleep t ≤ late) → th_now th' ≤ Z.max (th_now th) (d + late))
    ∧ th_now th ≤ th_now th' ∧ th_deadline th' = Some d.
Proof.
  intros Hd Hp Hcap. apply (poll_ends attempt timed_out cap pause d); try done.
  unfold poll_fuel, remaining_wait, wait_deadline. rewrite Hd. simpl.
  destruct (Z.leb_spec d (th_now th)); [lia|]. rewrite Z.max_r by lia. lia.
Qed.

(** The poll of the goal ends. *)
Ltac run_poll Hd :=
  match goal with
  | |- context [poll ?attempt ?timed_out ?cap _ ?pause ?th] =>
      destruct (poll_with_fuel attempt timed_out cap pause th _ Hd eq_refl ltac:(vm_compute; discriminate))
        as (r & th' & -> & Hr & Ht & Hmono & Hd2)
  end.

(** No lock keeps a thread past its deadline.  Under a deadline each of the
    three polled locks returns (the store's in-process mutexes, the file locks,
    the pooled connection), whatever other threads and processes do; it answers
    with what a try at that moment said, gives up only once the deadline has
    passed, and never sleeps past the deadline by more than a sleep's own
    lateness. *)
Theorem locks_end_by_deadline what recover th d late :
  th_deadline th = Some d → (∀ t, oversleep t ≤ late) →
  (∃ got th', lock_mutex_within_budget what th = Some (got, th')
     ∧ th_now th' ≤ Z.max (th_now th) (d + late)
     ∧ (if got then try_lock (th_now th') = Acquired ∨ try_lock (th_now th') = Poisoned
        else d ≤ th_now th'))
  ∧ (∃ r th', lock_file_exclusive_within_budget what th = Some (r, th')
       ∧ th_now th' ≤ Z.max (th_now th) (d + late)
       ∧ (try_lock (th_now th') = WouldBlock → is_ok r = false ∧ d ≤ th_now th'))
  ∧ (∃ r th', lock_connection_with recover th = Some (r, th')
       ∧ th_now th' ≤ Z.max (th_now th) (d + late)
       ∧ (try_lock (th_now th') = Acquired → r = Ok tt)
       ∧ (try_lock (th_now th') = WouldBlock →
          d ≤ th_now th' ∧ ∃ e, r = Err e ∧ is_busy_error e = true)).
Proof.
  intros Hd Hlate. split; [|split].
  - unfold lock_mutex_within_budget. destruct (note_store_access_time what th) as [Hn Hd'].
    rewrite <-Hn in *. rewrite Hd in Hd'. unfold wait_deadline. rewrite Hd'.
    run_poll Hd'. exists r, th'. split_and!; [done|by apply Ht|].
    destruct Hr as [Hr|(-> & _ & Hle)]; [|done].
    destruct (try_lock (th_now th')); simplify_eq; auto.
  - unfold lock_file_exclusive_within_budget. destruct (note_store_access_time what th) as [Hn Hd'].
    rewrite <-Hn in *. rewrite Hd in Hd'. unfold wait_deadline. rewrite Hd'.
    run_poll Hd'. exists r, th'. split_and!; [done|by apply Ht|]. intros Hw.
    destruct Hr as [Hr|(-> & _ & Hle)]; [|done]. by rewrite Hw in Hr.
  - unfold lock_connection_with. destruct (note_store_access_time "sqlite connection" th) as [Hn Hd'].
    rewrite <-Hn in *. rewrite Hd in Hd'. unfold wait_deadline. rewrite Hd'.
    run_poll Hd'. exists r, th'. split_and!; [done|by apply Ht| |].
    + intros Ha. destruct Hr as [Hr|(-> & Hr & _)]; rewrite Ha in Hr; [congruence|done].
    + intros Hw. destruct Hr as [Hr|(-> & _ & Hle)]; [by rewrite Hw in Hr|].
      split; [done|]. by eexists.
Qed.

(** ** Retries *)

Lemma jittered_bounds base th delay th' :
  0 ≤ base → jittered base th = (delay, th') →
  base - base / 2 ≤ delay ≤ base + base / 2 ∧ ∃ s, th' = th <| th_rng := s |>.
Proof.
  intros Hb. unfold jittered. destruct (cheap_random_u64 th) as [random th1] eqn:E.
  intros [= <- <-]. assert (0 ≤ base / 2) by (apply Z.div_pos; lia).
  pose proof (Z.mod_pos_bound random (base / 2 * 2 + 1) ltac:(lia)). split; [lia|].
  unfold cheap_random_u64 in E. injection E as _ <-. by eexists.
Qed.

Section retry_lemmas.
Context {A : Type} (f : nat → Thread → Result WaitError A * Thread).

(** From the [k]-th call to the [n]-th: every call between was busy and was
    followed by a sleep within the budget, or by none because it was spent. *)
Inductive retried : nat → Thread → nat → Thread → Prop :=
  | retried_here k th : retried k th k th
  | retried_sleep k th msg th1 s duration n thn :
      f k th = (Err (BusyError msg), th1) → 0 ≤ duration ≤ millis 1200 →
      (∀ d, th_deadline th1 = Some d → th_now th1 + duration ≤ d) →
      retried (S k) (sleep duration (th1 <| th_rng := s |>)) n thn → retried k th n thn
  | retried_spent k th msg th1 s :
      f k th = (Err (BusyError msg), th1) → wait_budget_exhausted th1 = true →
      retried k th (S k) (th1 <| th_rng := s |>).

Lemma retry_after_spec delays : ∀ k th,
  Forall (λ base, 0 ≤ base ≤ 800) delays →
  ∃ n thn, retried k th n thn ∧ (k ≤ n ≤ k + length delays)%nat ∧ retry_after f delays k th = f n thn.
Proof.
  induction delays as [|base delays IH]; intros k th Hall.
  { exists k, th. split_and!; [constructor|simpl; lia|simpl; lia|done]. }
  apply Forall_cons in Hall as [Hbase Hall]. cbn [retry_after length].
  destruct (f k th) as [r th1] eqn:Hf.
  destruct r as [val|[msg| | |]]; cbn [is_busy_error];
    try (exists k, th; split_and!; [constructor|lia|lia|done]).
  destruct (jittered base th1) as [delay th2] eqn:Hj.
  apply jittered_bounds in Hj as (Hdelay & s & ->); [|lia].
  assert (0 ≤ base / 2 ≤ 400) by (split; [apply Z.div_pos; lia|apply Z.div_le_upper_bound; lia]).
  pose proof (Z.mul_div_le base 2 ltac:(lia)) as Hhalf.
  destruct (clamp_wait (millis delay) (th1 <| th_rng := s |>)) as [duration|] eqn:Hc.
  - unfold millis in Hc. apply clamp_wait_Some in Hc as (Hd & _ & Hle); [|lia].
    destruct (IH (S k) (sleep duration (th1 <| th_rng := s |>)) Hall) as (n & thn & Hr & Hn & ->).
    exists n, thn. split_and!; [|lia|lia|done].
    apply (retried_sleep k th msg th1 s duration); [done|unfold millis; lia| |exact Hr].
    intros d Hdl. by apply Hle.
  - apply clamp_wait_None in Hc as (Hex & _). exists (S k), (th1 <| th_rng := s |>).
    split_and!; [by eapply retried_spent|lia|lia|done].
Qed.
End retry_lemmas.

(** Retrying a write never runs a transaction twice that did anything.  The
    answer is that of the last of at most six evaluations; each earlier one was
    busy, so SQLite rolled it back; between two evaluations the thread sleeps at
    most 1.2 s, never past its deadline, or not at all once its budget is spent. *)
Theorem write_retry_spec {A} (f : nat → Thread → Result WaitError A * Thread) th :
  ∃ n thn, (n ≤ 5)%nat ∧ retried f 0 th n thn ∧ with_write_retry f th = f n thn.
Proof.
  destruct (retry_after_spec f [50; 100; 200; 400; 800] 0 th) as (n & thn & Hr & Hn & E).
  { repeat constructor; lia. }
  exists n, thn. split_and!; [simpl in Hn; lia|done|done].
Qed.

Lemma sum_fmap_cons (g : Z → Z) b l : sum (g <$> b :: l) = g b + sum (g <$> l).
Proof. done. Qed.

(** What a writer waits when a foreign lock is held throughout: six busy waits
    and five jittered sleeps, which together last between 775 ms and 2325 ms. *)
Theorem busy_write_waits {A} (f : nat → Thread → Result WaitError A * Thread) busy msg th :
  (∀ k th, f k th = (Err (BusyError msg), spend busy th)) → (∀ t, oversleep t = 0) →
  th_deadline th = None →
  fst (with_write_retry f th) = Err (BusyError msg)
  ∧ 6 * busy + millis 775 ≤ th_now (snd (with_write_retry f th)) - th_now th
    ≤ 6 * busy + millis 2325.
Proof.
  intros Hf Hs Hd. unfold with_write_retry.
  assert (∀ delays k th, th_deadline th = None → Forall (λ b, 0 ≤ b) delays →
    let '(r, th') := retry_after f delays k th in
    r = Err (BusyError msg)
    ∧ (1 + Z.of_nat (length delays)) * busy + millis (sum ((λ b, b - b / 2) <$> delays))
      ≤ th_now th' - th_now th
      ≤ (1 + Z.of_nat (length delays)) * busy + millis (sum ((λ b, b + b / 2) <$> delays))) as H.
  { clear th Hd. unfold millis. intros delays.
    induction delays as [|b delays IH]; intros k th Hd Hall; cbn [retry_after].
    - rewrite Hf. simpl. split; [done|lia].
    - apply Forall_cons in Hall as [Hb Hall]. rewrite Hf. cbn [is_busy_error].
      destruct (jittered b (spend busy th)) as [delay th1] eqn:Hj.
      apply jittered_bounds in Hj as (Hdelay & s & ->); [|done].
      unfold clamp_wait, remaining_wait, wait_deadline. simpl th_deadline. rewrite Hd. cbn [fmap option_fmap option_map].
      specialize (IH (S k) (sleep (millis delay) (spend busy th <| th_rng := s |>))).
      destruct (retry_after f delays (S k) _) as [r th']. destruct IH as (-> & IH); [done|done|].
      split; [done|]. simpl in IH. rewrite Hs in IH. unfold millis in IH.
      rewrite !sum_fmap_cons. cbn [length]. rewrite Nat2Z.inj_succ. lia. }
  specialize (H [50; 100; 200; 400; 800] 0%nat th Hd).
  destruct (retry_after f _ 0 th) as [r th']. destruct H as [-> H].
  { repeat constructor; lia. }
  split; [done|]. exact H.
Qed.

(** ** Pooled write transactions *)

(** A thread past its deadline makes no further attempt. *)
Definition past_deadline (th : Thread) : Prop := ∃ d, th_deadline th = Some d ∧ d ≤ th_now th.

(** What the lock of the pooled connection can answer: the guard, a poisoned
    mutex, or the report of a thread whose deadline has passed *)
Definition lock_answer (r : Result WaitError unit) (th' : Thread) : Prop :=
  match r with
  | Ok _ => True
  | Err (BusyError _) => past_deadline th'
  | Err (WaitOther _) => ∃ t, try_lock t = Poisoned ∨ (block_lock t).1 = Poisoned
  | Err _ => False
  end.

Lemma lock_connection_returns recover th :
  ∃ r th', lock_connection_with recover th = Some (r, th') ∧ lock_answer r th'
    ∧ th_now th ≤ th_now th' ∧ th_deadline th' = th_deadline th.
Proof.
  unfold lock_connection_with. destruct (note_store_access_time "sqlite connection" th) as [Hn Hd].
  rewrite <-Hn, <-Hd. unfold wait_deadline. destruct (th_deadline (note_store_access _ th)) as [d|] eqn:E.
  - run_poll E. exists r, th'. split_and!; [done| |done|done].
    destruct Hr as [Hr|(-> & _ & Hle)]; [|by exists d].
    destruct (try_lock (th_now th')) eqn:Hlk; try done; injection Hr as <-; [done|].
    destruct recover; [done|]. exists (th_now th'). by left.
  - pose proof (block_lock_pos (w := world) (th_now (note_store_access "sqlite connection" th))) as Hp.
    destruct (block_lock _) as [outcome waited] eqn:Hb. eexists _, _. split; [done|]. simpl in *.
    split_and!; [|lia|done]. destruct outcome, recover; try done. eexists. right. by rewrite Hb.
Qed.

Lemma pooled_base_least attempts : 5 ≤ pooled_base attempts.
Proof.
  unfold pooled_base. destruct (attempts - 1)%nat as [|[|[|[|[|n]]]]]; vm_compute; congruence.
Qed.

Lemma past_deadline_later th th' :
  past_deadline th → th_now th ≤ th_now th' → th_deadline th' = th_deadline th → past_deadline th'.
Proof. intros (d & Hd & Hle) Hn He. exists d. split; [congruence|lia]. Qed.

Lemma past_deadline_remaining th : past_deadline th → remaining_wait th = Some 0.
Proof.
  intros (d & Hd & Hle). unfold remaining_wait, wait_deadline. rewrite Hd. simpl. f_equal. lia.
Qed.

Lemma past_deadline_exhausted th : past_deadline th ↔ wait_budget_exhausted th = true.
Proof.
  unfold past_deadline, wait_budget_exhausted, remaining_wait, wait_deadline.
  destruct (th_deadline th) as [d|]; simpl; [|split; [by intros (? & ? & _)|done]].
  split; [intros (? & [= <-] & ?); apply Z.eqb_eq; lia|]. intros ?%Z.eqb_eq. exists d. split; [done|lia].
Qed.

(** How an acquisition that started at [started] may end: with a transaction
    that SQLite began at that moment; with SQLite's own error; with a report of
    the budget, which has passed; as busy, when the thread's deadline has passed;
    or with the poisoned mutex. *)
Definition pooled_answer (budget started : Z) (r : Result WaitError unit) (th' : Thread) : Prop :=
  match r with
  | Ok _ => ∃ t limit took, begin_immediate t limit = (Begun, took) ∧ started ≤ t ∧ th_now th' = t + took
  | Err (SqliteError msg) => ∃ t limit took, begin_immediate t limit = (BeginFailed msg, took)
  | Err (BusyForWholeWait elapsed attempts last) =>
      budget ≤ elapsed ∧ elapsed = th_now th' - started ∧ ¬ past_deadline th'
      ∧ (1 ≤ attempts)%nat ∧ Z.of_nat attempts ≤ budget / millis 3 + 2
      ∧ ∃ msg t limit took, last = Some msg ∧ begin_immediate t limit = (BeginBusy msg, took)
  | Err (BusyError _) => past_deadline th'
  | Err (WaitOther _) => ∃ t, try_lock t = Poisoned ∨ (block_lock t).1 = Poisoned
  end.

Lemma begin_failed_answer started attempts budget msg t limit took th :
  (budget <=? th_now th - started) || wait_budget_exhausted th = true →
  begin_immediate t limit = (BeginBusy msg, took) →
  (wait_budget_exhausted th = false → Z.of_nat (S attempts) ≤ budget / millis 3 + 2) →
  pooled_answer budget started (Err (begin_failed started (S attempts) (Some msg) th)) th.
Proof.
  intros Hgive Hbegin Hatt. unfold begin_failed. destruct (wait_budget_exhausted th) eqn:Hex.
  - by apply past_deadline_exhausted.
  - rewrite orb_false_r in Hgive. apply Z.leb_le in Hgive. cbn.
    split_and!; [done|done| |lia|by apply Hatt|by exists msg, t, limit, took].
    rewrite past_deadline_exhausted. congruence.
Qed.

(** Fuel for the attempts that are left: one when the deadline has passed, else
    one for every 3 ms of the budget *)
Definition pooled_enough (fuel attempts : nat) (budget started : Z) (th : Thread) : Prop :=
  past_deadline th ∧ (1 ≤ fuel)%nat
  ∨ millis 3 * Z.of_nat attempts ≤ th_now th - started
    ∧ Z.of_nat attempts ≤ 1 + budget / millis 3
    ∧ 2 + budget / millis 3 ≤ Z.of_nat fuel + Z.of_nat attempts.

Lemma pooled_enough_step fuel attempts budget started th th2 duration delay :
  pooled_enough (S fuel) attempts budget started th →
  ¬ past_deadline th → th_now th ≤ th_now th2 → th_now th2 - started < budget →
  3 ≤ delay → clamp_wait (millis delay) th2 = Some duration →
  pooled_enough fuel (S attempts) budget started (sleep duration th2).
Proof.
  intros [[? _]|(Hel & Hatt & Hf)] Hnp Hn Hb Hdelay Hc; [done|].
  apply clamp_wait_Some in Hc as (Hd & Hdur & _); [|unfold millis; lia].
  pose proof (oversleep_pos (w := world) (th_now th2)) as Hover.
  assert (Z.of_nat attempts ≤ budget / millis 3) as Hk
    by (apply Z.div_le_lower_bound; unfold millis in *; lia).
  destruct Hdur as [->|Hdl].
  - right. simpl. split_and!; [unfold millis in *; lia|lia|lia].
  - left. split; [|lia]. exists (th_now th2 + duration). simpl. split; [done|lia].
Qed.

(** One round, once the connection is locked before the deadline *)
Lemma pooled_round attempt_busy budget started fuel attempts limit th :
  pooled_enough (S fuel) attempts budget started th → ¬ past_deadline th → started ≤ th_now th →
  (∀ th2, pooled_enough fuel (S attempts) budget started th2 → started ≤ th_now th2 →
     th_deadline th2 = th_deadline th →
     ∃ r th', pooled_attempts fuel attempt_busy budget started (S attempts) th2 = Some (r, th')
       ∧ pooled_answer budget started r th') →
  ∃ r th',
    (let '(begun, took) := begin_immediate (th_now th) limit in
     let th := spend took th in
     match begun with
     | Begun => Some (Ok tt, th)
     | BeginFailed error => Some (Err (SqliteError error), th)
     | BeginBusy error =>
         if (budget <=? th_now th - started) || wait_budget_exhausted th
         then Some (Err (begin_failed started (S attempts) (Some error) th), th)
         else
           let '(delay_ms, th) := jittered (pooled_base (S attempts)) th in
           match clamp_wait (millis delay_ms) th with
           | None => Some (Err (begin_failed started (S attempts) (Some error) th), th)
           | Some duration =>
               pooled_attempts fuel attempt_busy budget started (S attempts) (sleep duration th)
           end
     end) = Some (r, th') ∧ pooled_answer budget started r th'.
Proof.
  intros Hinv Hnp Hst IH. pose proof (begin_pos (w := world) (th_now th) limit) as Htook.
  destruct (begin_immediate (th_now th) limit) as [begun took] eqn:Hbegin. simpl in Htook. cbv zeta.
  assert (Z.of_nat (S attempts) ≤ budget / millis 3 + 2) as Hatt by (destruct Hinv as [[? _]|(_ & ? & _)]; [done|lia]).
  destruct begun as [|error|error].
  - eexists _, _. split; [done|]. by exists (th_now th), limit, took.
  - destruct ((budget <=? th_now (spend took th) - started) || wait_budget_exhausted (spend took th)) eqn:E.
    { eexists _, _. split; [done|]. by eapply begin_failed_answer. }
    destruct (jittered (pooled_base (S attempts)) (spend took th)) as [delay th2] eqn:Hj.
    pose proof (pooled_base_least (S attempts)). apply jittered_bounds in Hj as (Hdelay & s & ->); [|lia].
    pose proof (Z.mul_div_le (pooled_base (S attempts)) 2 ltac:(lia)).
    destruct (clamp_wait (millis delay) _) as [duration|] eqn:Hc.
    + apply orb_false_iff in E as [E _]. apply Z.leb_gt in E. apply IH; [|simpl|done].
      * eapply pooled_enough_step; [exact Hinv|done| |exact E| |exact Hc]; [simpl; lia|lia].
      * apply clamp_wait_Some in Hc as (Hdur & _); [|unfold millis; lia].
        pose proof (oversleep_pos (w := world) (th_now th + took)). simpl in *. lia.
    + apply clamp_wait_None in Hc as [Hex _]. eexists _, _. split; [done|].
      eapply begin_failed_answer; [by rewrite Hex, orb_true_r|exact Hbegin|done].
  - eexists _, _. split; [done|]. by exists (th_now th), limit, took.
Qed.

Lemma pooled_attempts_return attempt_busy budget started fuel : ∀ attempts th,
  pooled_enough fuel attempts budget started th → started ≤ th_now th →
  ∃ r th', pooled_attempts fuel attempt_busy budget started attempts th = Some (r, th')
    ∧ pooled_answer budget started r th'.
Proof.
  induction fuel as [|fuel IH]; intros attempts th Hinv Hst.
  { exfalso. destruct Hinv as [[_ ?]|(_ & ? & ?)]; lia. }
  cbn [pooled_attempts].
  destruct (lock_connection_returns false th) as (locked & th1 & -> & Hlk & Hn1 & Hd1). cbn [mbind option_bind].
  destruct locked as [[]|e].
  2:{ exists (Err e), th1. split; [done|]. by destruct e. }
  assert (¬ past_deadline th1 → pooled_enough (S fuel) attempts budget started th1) as Hinv1.
  { intros Hnp. destruct Hinv as [[Hp _]|(Hel & Hatt & Hf)].
    - by destruct Hnp; eapply past_deadline_later.
    - right. split_and!; lia. }
  destruct (remaining_wait th1) as [[|p|p]|] eqn:Hrem.
  1:{ eexists _, _. split; [done|]. apply past_deadline_exhausted. unfold wait_budget_exhausted. by rewrite Hrem. }
  all: assert (¬ past_deadline th1) as Hnp by (intros Hp%past_deadline_remaining; congruence).
  all: apply pooled_round; auto with lia.
Qed.

(** C33: Acquiring a pooled write transaction ends, and never gives up early.
    Whatever other connections hold and however long each attempt takes, the loop
    returns after at most budget / 3 ms + 2 attempts, since every round but the
    last sleeps at least 3 ms or up to the thread's deadline.  It returns a
    transaction that SQLite began at that moment, SQLite's own error or a poisoned
    mutex; it reports a database that was busy for the whole wait only once the
    whole budget has passed, before the thread's deadline, and after an attempt
    that was busy; and it answers busy only once the thread's own deadline has
    passed. *)
Theorem begin_immediate_pooled_ends attempt_busy budget th :
  0 ≤ budget →
  ∃ r th', begin_immediate_pooled_bounded attempt_busy budget th = Some (r, th')
    ∧ pooled_answer budget (th_now th) r th'.
Proof.
  intros Hb. apply pooled_attempts_return; [|done]. right. unfold pooled_fuel.
  assert (0 ≤ budget / millis 3) by (by apply Z.div_pos). lia.
Qed.

End wait_lemmas.
