(* ===== verification/TaskGraph.v ===== *)
(** * Task dependencies ([crates/cas-types/src/dependency.rs] and the dependency
      operations of [crates/cas-store/src/task_store.rs])

    The table [dependencies] holds at most one typed edge per ordered pair of
    tasks.  A blocking edge is admitted after a reachability query over the
    blocking edges; the subtasks of an epic are the descendants over
    parent-child edges.  Both are recursive queries ([Cte]); the table has as
    many rows as fuel. *)

From S2P Require Import Prelude Enums TaskTypes Db NoteMarkers TaskRows Cte.

(** ** [Dependency] *)
Record Dependency := mkDependency {
  dep_from_id : string;
  dep_to_id : string;
  dep_dep_type : DependencyType;
  dep_created_at : Z;
  dep_created_by : option string;
}.
#[export] Instance Dependency_eta : Eta Dependency := λ r,
  mkDependency (dep_from_id r) (dep_to_id r) (dep_dep_type r) (dep_created_at r) (dep_created_by r).

Definition Dependency_new (now : Z) (from_id to_id : string) (dep_type : DependencyType)
    : Dependency := mkDependency from_id to_id dep_type now None.
Definition is_blocking (d : Dependency) : bool :=
  bool_decide (dep_dep_type d = DependencyType_Blocks).
Definition is_start_gate (d : Dependency) : bool :=
  bool_decide (dep_dep_type d = DependencyType_RequiresStart).
Definition is_hierarchical (d : Dependency) : bool :=
  bool_decide (dep_dep_type d = DependencyType_ParentChild).

Definition dep_from_row (kr : (string * string) * DepRow) : Dependency :=
  {| dep_from_id := kr.1.1; dep_to_id := kr.1.2;
     dep_dep_type := unwrap_or (DependencyType_from_str (dp_dep_type kr.2)) DependencyType_Blocks;
     dep_created_at := dp_created_at kr.2; dep_created_by := dp_created_by kr.2 |}.

Definition dep_row (d : Dependency) : DepRow :=
  {| dp_dep_type := DependencyType_to_string (dep_dep_type d); dp_created_at := dep_created_at d;
     dp_created_by := dep_created_by d |}.

(** ** Reachability *)

(** [dep_type = ?] *)
Definition of_type (ty : string) (r : DepRow) : bool := String.eqb (dp_dep_type r) ty.

(** The [to_id]s of the edges of a type from a task *)
Definition targets (ty : string) (db : Db) (x : string) : list string :=
  (λ kr, kr.1.2) <$>
    sql_select (λ (k : string * string) r, String.eqb k.1 x && of_type ty r) (db_dependencies db).
(** The [from_id]s of the edges of a type to a task *)
Definition sources (ty : string) (db : Db) (x : string) : list string :=
  (λ kr, kr.1.1) <$>
    sql_select (λ (k : string * string) r, String.eqb k.2 x && of_type ty r) (db_dependencies db).

Definition dep_count (db : Db) : nat := size (db_dependencies db).

(** The table [reachable] of the cycle check *)
Definition reachable (db : Db) (start : string) : list string :=
  cte (targets "blocks" db) (S (dep_count db)) [start].

(** The table [subtree] *)
Definition subtree (db : Db) (parent_id : string) : list string :=
  cte (sources "parent-child" db) (dep_count db + dep_count db) (sources "parent-child" db parent_id).

Definition would_create_cycle (from_id to_id : string) (db : Db) : bool :=
  bool_decide (from_id ∈ reachable db to_id).

(** ** Writes *)

(** INSERT OR REPLACE *)
Definition put_dependency (d : Dependency) (db : Db) : Db :=
  db <| db_dependencies ::= <[(dep_from_id d, dep_to_id d) := dep_row d]> |>.

(** The statements before the INSERT *)
Definition check_dependency (d : Dependency) (check_cycle : bool) (db : Db) : result unit :=
  validate_task_exists_with_conn (dep_from_id d) db ≫= λ _,
  validate_task_exists_with_conn (dep_to_id d) db ≫= λ _,
  if check_cycle && is_blocking d && would_create_cycle (dep_from_id d) (dep_to_id d) db
  then Err (Parse ("adding dependency " +:+ dep_from_id d +:+ " -> " +:+ dep_to_id d +:+
                   " would create a cycle"))
  else Ok tt.

Definition add_dependency_with_conn (d : Dependency) (check_cycle : bool) (db : Db) : result Db :=
  check_dependency d check_cycle db ≫= λ _, Ok (put_dependency d db).

Definition add_dependency (d : Dependency) (db : Db) : result (unit * Db) :=
  db ← add_dependency_with_conn d true db; Ok (tt, db).

Definition remove_dependency (from_id to_id : string) (db : Db) : result (unit * Db) :=
  Ok (tt, db <| db_dependencies ::= delete (from_id, to_id) |>).

Definition remove_dependency_of_type (from_id to_id : string) (dep_type : DependencyType) (db : Db)
    : result (bool * Db) :=
  let P (k : string * string) (r : DepRow) :=
    bool_decide (k = (from_id, to_id)) && of_type (DependencyType_to_string dep_type) r in
  Ok (negb (sql_count P (db_dependencies db) =? 0)%nat,
      db <| db_dependencies ::= sql_delete P |>).

(** ** Reads *)
Definition get_dependencies (task_id : string) (db : Db) : list Dependency :=
  dep_from_row <$> sql_select (λ k _, String.eqb k.1 task_id) (db_dependencies db).

Definition get_dependents (task_id : string) (db : Db) : list Dependency :=
  dep_from_row <$> sql_select (λ k _, String.eqb k.2 task_id) (db_dependencies db).

Definition list_dependencies (dep_type : option DependencyType) (db : Db) : list Dependency :=
  dep_from_row <$>
    order_by (le_of (desc (λ kr, dp_created_at kr.2)))
      (sql_select (λ _ r, match dep_type with
                          | Some t => of_type (DependencyType_to_string t) r
                          | None => true
                          end) (db_dependencies db)).

(** ** Lemmas *)

(** An edge of a type *)
Definition dep_edge (ty : string) (db : Db) (x y : string) : Prop :=
  ∃ r, db_dependencies db !! (x, y) = Some r ∧ of_type ty r = true.

Lemma elem_of_targets ty db x y : y ∈ targets ty db x ↔ dep_edge ty db x y.
Proof.
  unfold targets, dep_edge. rewrite list_elem_of_fmap. split.
  - intros ([[x' y'] r] & -> & Hin). apply elem_of_sql_select in Hin as [Hr HP].
    simpl in *. apply andb_true_iff in HP as [Hk%String.eqb_eq HP]. subst. by eauto.
  - intros (r & Hr & Hty). exists ((x, y), r). split; [done|]. apply elem_of_sql_select.
    simpl. by rewrite String.eqb_refl.
Qed.

Lemma elem_of_sources ty db x y : y ∈ sources ty db x ↔ dep_edge ty db y x.
Proof.
  unfold sources, dep_edge. rewrite list_elem_of_fmap. split.
  - intros ([[x' y'] r] & -> & Hin). apply elem_of_sql_select in Hin as [Hr HP].
    simpl in *. apply andb_true_iff in HP as [Hk%String.eqb_eq HP]. subst. by eauto.
  - intros (r & Hr & Hty). exists ((y, x), r). split; [done|]. apply elem_of_sql_select.
    simpl. by rewrite String.eqb_refl.
Qed.

(** The ids in one column of the table *)
Definition column (f : string * string → string) (db : Db) : list string :=
  (λ kr, f kr.1) <$> map_to_list (db_dependencies db).

Lemma length_column f db : length (column f db) = dep_count db.
Proof. unfold column, dep_count. by rewrite length_fmap, length_map_to_list. Qed.

Lemma edge_in_columns ty db x y : dep_edge ty db x y → x ∈ column fst db ∧ y ∈ column snd db.
Proof.
  intros (r & Hr & _). unfold column.
  split; apply list_elem_of_fmap; exists ((x, y), r); (split; [done|]); by apply elem_of_map_to_list.
Qed.

Lemma elem_of_reachable db x y : y ∈ reachable db x ↔ rtc (dep_edge "blocks" db) x y.
Proof.
  unfold reachable. rewrite (cte_correct _ (column snd db)).
  - unfold reached. split.
    + intros (z & ->%list_elem_of_singleton & Hrtc). revert Hrtc. apply rtc_subrel.
      intros u v Huv. by apply elem_of_targets.
    + intros Hrtc. exists x. split; [by apply list_elem_of_singleton|]. revert Hrtc. apply rtc_subrel.
      intros u v Huv. by apply elem_of_targets.
  - intros u v Huv. apply elem_of_targets, edge_in_columns in Huv. tauto.
  - rewrite length_column. simpl. lia.
Qed.

Lemma sources_length ty db x : (length (remove_dups (sources ty db x)) ≤ dep_count db)%nat.
Proof.
  rewrite <-(length_column fst). apply submseteq_length, NoDup_submseteq; [apply NoDup_remove_dups|].
  intros y Hy. rewrite elem_of_remove_dups, elem_of_sources in Hy. by eapply edge_in_columns.
Qed.

Lemma tc_last {A} (R : relation A) x y : tc R x y → ∃ z, rtc R x z ∧ R z y.
Proof.
  revert y. apply tc_ind_r; [intros y H; by exists x|].
  intros y z H Hyz _. exists y. split; [by apply tc_rtc|done].
Qed.

Lemma elem_of_subtree db p y : y ∈ subtree db p ↔ tc (dep_edge "parent-child" db) y p.
Proof.
  unfold subtree. rewrite (cte_correct _ (column fst db)).
  - unfold reached. assert (∀ u v, rtc (edge (sources "parent-child" db)) u v ↔
      rtc (dep_edge "parent-child" db) v u) as Hflip.
    { intros u v. split.
      - intros H. induction H as [|u w v Huw _ IH]; [done|]. eapply rtc_r; [exact IH|].
        by apply elem_of_sources.
      - intros H. induction H as [|v w u Hvw _ IH]; [done|]. eapply rtc_r; [exact IH|].
        by apply elem_of_sources. }
    setoid_rewrite Hflip. setoid_rewrite elem_of_sources. split.
    + intros (z & Hz & Hyz). eapply tc_rtc_l; [exact Hyz|by apply tc_once].
    + intros (z & ? & ?)%tc_last. by exists z.
  - intros u v Huv. apply elem_of_sources, edge_in_columns in Huv. tauto.
  - pose proof (sources_length "parent-child" db p). rewrite length_column. lia.
Qed.

Section task_graph.
Context {host : Host}.

(** The rows of [tasks] with the given ids *)
Definition tasks_of_ids (ids : list string) (db : Db) : list Task :=
  omap (λ id, task_from_row id <$> db_tasks db !! id) ids.

Definition get_subtasks (parent_id : string) (db : Db) : list Task :=
  tasks_of_ids (subtree db parent_id) db.

Definition get_blockers (task_id : string) (db : Db) : list Task :=
  filter (λ t, status_open t = true) (tasks_of_ids (targets "blocks" db task_id) db).

Definition get_sibling_notes (epic_id exclude_task_id : string) (db : Db)
    : list (string * string * string) :=
  (λ t, (t_id t, t_title t, t_notes t)) <$>
    limit 10
      (order_by (le_of (desc t_updated_at))
         (filter (λ t, t_id t ≠ exclude_task_id ∧ t_notes t ≠ EmptyString)
            (tasks_of_ids (sources "parent-child" db epic_id) db))).

(** [ORDER BY (t.status IN ('closed', 'cancelled')), d.created_at DESC, t.id ASC LIMIT 1] *)
Definition get_parent_epic (task_id : string) (db : Db) : option Task :=
  let rows := sql_select (λ (k : string * string) r, String.eqb k.1 task_id && of_type "parent-child" r)
                (db_dependencies db) in
  let joined := omap (λ kr : (string * string) * DepRow,
                        t ← db_tasks db !! kr.1.2;
                        if bool_decide (t_task_type t = TaskType_Epic)
                        then Some (task_from_row kr.1.2 t, dp_created_at kr.2) else None) rows in
  fst <$> head (order_by (le_of (then_by (asc (λ p : Task * Z, if Task_is_terminal p.1 then 1 else 0))
                                (then_by (desc snd) (by_text (λ p, t_id p.1))))) joined).

End task_graph.

(** ** Acyclicity *)

(** No task blocks itself, directly or through others. *)
Definition blocks_acyclic (db : Db) : Prop := ∀ x, ¬ tc (dep_edge "blocks" db) x x.

(** Both ends of every edge are tasks. *)
Definition deps_closed (db : Db) : Prop :=
  ∀ x y r, db_dependencies db !! (x, y) = Some r →
    is_Some (db_tasks db !! x) ∧ is_Some (db_tasks db !! y).

Record graph_wf (db : Db) : Prop := {
  gw_closed : deps_closed db;
  gw_acyclic : blocks_acyclic db;
}.

(** One more edge makes a cycle only when its ends were connected backwards. *)
Lemma acyclic_add_edge (E E' : string → string → Prop) a b :
  (∀ x y, E' x y → E x y ∨ (x = a ∧ y = b)) →
  (∀ x, ¬ tc E x x) → ¬ rtc E b a → ∀ x, ¬ tc E' x x.
Proof.
  intros HE Hac Hba x Hx.
  assert (∀ x y, tc E' x y → tc E x y ∨ (rtc E x a ∧ rtc E b y)) as Hsplit.
  { clear x Hx. intros x y H. induction H as [x y H|x y z H _ IH].
    - destruct (HE x y H) as [?|[-> ->]]; [left; by apply tc_once|by right].
    - destruct (HE x y H) as [Hxy|[-> ->]], IH as [IH|[IH1 IH2]].
      + left. by eapply tc_l.
      + right. split; [by eapply rtc_l|done].
      + right. split; [done|by apply tc_rtc].
      + right. done. }
  destruct (Hsplit x x Hx) as [?|[Hxa Hbx]]; [by eapply Hac|]. apply Hba. by etrans.
Qed.

Lemma acyclic_subgraph db db' :
  (∀ x y, dep_edge "blocks" db' x y → dep_edge "blocks" db x y) →
  blocks_acyclic db → blocks_acyclic db'.
Proof.
  intros Hsub Hac x Hx. apply (Hac x). revert Hx. apply (tc_congruence id). exact Hsub.
Qed.

Lemma put_dependency_edges d db x y :
  dep_edge "blocks" (put_dependency d db) x y →
  dep_edge "blocks" db x y
  ∨ (x = dep_from_id d ∧ y = dep_to_id d ∧ dep_dep_type d = DependencyType_Blocks).
Proof.
  intros (r & Hr & Hty). unfold put_dependency in Hr. simpl in Hr.
  apply lookup_insert_Some in Hr as [[[= <- <-] <-]|[_ Hr]]; [right|left; by exists r].
  split_and!; [done..|]. revert Hty. unfold of_type, dep_row. simpl. by destruct (dep_dep_type d).
Qed.

Lemma deps_closed_put d db :
  deps_closed db → is_Some (db_tasks db !! dep_from_id d) → is_Some (db_tasks db !! dep_to_id d) →
  deps_closed (put_dependency d db).
Proof.
  intros Hc Hf Ht x y r Hr. unfold put_dependency in Hr. simpl in Hr.
  apply lookup_insert_Some in Hr as [[[= <- <-] _]|[_ Hr]]; [done|]. by eapply Hc.
Qed.

Lemma check_dependency_Ok d check db :
  check_dependency d check db = Ok tt ↔
  is_Some (db_tasks db !! dep_from_id d) ∧ is_Some (db_tasks db !! dep_to_id d)
  ∧ (check = true → dep_dep_type d = DependencyType_Blocks →
     ¬ rtc (dep_edge "blocks" db) (dep_to_id d) (dep_from_id d)).
Proof.
  unfold check_dependency, validate_task_exists_with_conn, is_blocking, would_create_cycle.
  destruct (db_tasks db !! dep_from_id d); simpl.
  2: { split; [done|]. by intros ([? [=]] & _). }
  destruct (db_tasks db !! dep_to_id d); simpl.
  2: { split; [done|]. by intros (_ & [? [=]] & _). }
  rewrite <-elem_of_reachable.
  destruct check; simpl; [|split; [by eauto|done]].
  do 2 case_bool_decide; simpl; split; try done; try by eauto.
  intros (_ & _ & H'). exfalso. by apply H'.
Qed.

Lemma add_dependency_wf d db db' :
  graph_wf db → add_dependency d db = Ok (tt, db') → graph_wf db'.
Proof.
  intros [Hc Hac]. unfold add_dependency, add_dependency_with_conn.
  destruct (check_dependency d true db) as [[]|] eqn:Hchk; [|done]. intros [= <-].
  apply check_dependency_Ok in Hchk as (Hf & Ht & Hcyc). split; [by apply deps_closed_put|].
  destruct (decide (dep_dep_type d = DependencyType_Blocks)) as [Hb|Hb].
  - refine (acyclic_add_edge _ _ (dep_from_id d) (dep_to_id d) _ Hac _); [|by apply Hcyc].
    intros x y Hxy. apply put_dependency_edges in Hxy as [?|(-> & -> & _)]; by auto.
  - eapply acyclic_subgraph; [|exact Hac].
    intros x y Hxy. apply put_dependency_edges in Hxy as [?|(_ & _ & ?)]; by auto.
Qed.

(** What adding a dependency promises of its result *)
Definition add_dependency_post (d : Dependency) (db : Db) (res : result (unit * Db)) : Prop :=
  match db_tasks db !! dep_from_id d, db_tasks db !! dep_to_id d with
  | None, _ => res = Err (TaskNotFound (dep_from_id d))
  | Some _, None => res = Err (TaskNotFound (dep_to_id d))
  | Some _, Some _ =>
      (dep_dep_type d = DependencyType_Blocks
       ∧ rtc (dep_edge "blocks" db) (dep_to_id d) (dep_from_id d)
       ∧ ∃ msg, res = Err (Parse msg))
      ∨ ((dep_dep_type d = DependencyType_Blocks →
          ¬ rtc (dep_edge "blocks" db) (dep_to_id d) (dep_from_id d))
         ∧ ∃ db', res = Ok (tt, db') ∧ db_tasks db' = db_tasks db
           ∧ db_dependencies db' =
               <[(dep_from_id d, dep_to_id d) := dep_row d]> (db_dependencies db))
  end.

(** A dependency is admitted exactly when it names two tasks and, for a
    blocking one, no chain of blocking edges already leads from the blocker
    back to the blocked task (a task blocking itself included).  The recursive
    query decides that reachability.  An admitted edge is the only change and
    replaces the pair's previous edge. *)
Theorem add_dependency_spec d db : add_dependency_post d db (add_dependency d db).
Proof.
  unfold add_dependency_post, add_dependency, add_dependency_with_conn, check_dependency,
    validate_task_exists_with_conn, is_blocking, would_create_cycle.
  destruct (db_tasks db !! dep_from_id d); [|done]. simpl.
  destruct (db_tasks db !! dep_to_id d); [|done]. simpl.
  case_bool_decide as Hb; simpl; [|right; split; [done|by eauto]].
  case_bool_decide as Hr; simpl; rewrite elem_of_reachable in Hr; [left|right].
  - split_and!; [done..|by eauto].
  - split; [done|]. by eauto.
Qed.

(** Two writers that check at the same time admit a cycle.  The checks and
    the INSERT of one call are separate statements: when two processes add
    opposite blocking edges between unrelated tasks and both check before
    either inserts, both checks pass and the tasks block each other, while
    either order of the whole calls refuses the second. *)
Theorem concurrent_checks_admit_cycle d1 d2 db :
  is_Some (db_tasks db !! dep_from_id d1) → is_Some (db_tasks db !! dep_to_id d1) →
  dep_dep_type d1 = DependencyType_Blocks → dep_dep_type d2 = DependencyType_Blocks →
  dep_from_id d2 = dep_to_id d1 → dep_to_id d2 = dep_from_id d1 →
  ¬ rtc (dep_edge "blocks" db) (dep_to_id d1) (dep_from_id d1) →
  ¬ rtc (dep_edge "blocks" db) (dep_from_id d1) (dep_to_id d1) →
  check_dependency d1 true db = Ok tt ∧ check_dependency d2 true db = Ok tt
  ∧ ¬ blocks_acyclic (put_dependency d2 (put_dependency d1 db))
  ∧ is_ok (add_dependency d2 (put_dependency d1 db)) = false.
Proof.
  intros Hf Ht H1 H2 E1 E2 N1 N2.
  assert (dep_edge "blocks" (put_dependency d1 db) (dep_from_id d1) (dep_to_id d1)) as Hedge1.
  { exists (dep_row d1). unfold put_dependency. simpl. rewrite lookup_insert_eq. split; [done|].
    unfold of_type. simpl. by rewrite H1. }
  split_and!.
  - by apply check_dependency_Ok.
  - apply check_dependency_Ok. by rewrite E1, E2.
  - intros Hac. apply (Hac (dep_from_id d1)). apply tc_l with (dep_to_id d1); [|apply tc_once].
    + destruct Hedge1 as (r & Hr & Hty). exists r. split; [|done]. unfold put_dependency at 1. simpl.
      rewrite lookup_insert_ne; [done|]. rewrite E1, E2. intros [= Heq _].
      apply N1. by rewrite Heq.
    + exists (dep_row d2). unfold put_dependency at 1. simpl. rewrite E1, E2, lookup_insert_eq.
      split; [done|]. unfold of_type. simpl. by rewrite H2.
  - unfold add_dependency, add_dependency_with_conn.
    destruct (check_dependency d2 true (put_dependency d1 db)) as [[]|] eqn:E; [|done].
    apply check_dependency_Ok in E as (_ & _ & E). exfalso. apply (E eq_refl H2).
    rewrite E1, E2. by apply rtc_once.
Qed.

Section subtasks.
Context {host : Host}.

Lemma elem_of_tasks_of_ids ids db t :
  t ∈ tasks_of_ids ids db ↔ ∃ id row, id ∈ ids ∧ db_tasks db !! id = Some row ∧ t = task_from_row id row.
Proof.
  unfold tasks_of_ids. rewrite list_elem_of_omap. split.
  - intros (id & Hin & H). apply fmap_Some_1 in H as (row & Hrow & ->). by eauto.
  - intros (id & row & Hin & Hrow & ->). exists id. by rewrite Hrow.
Qed.

Lemma tasks_of_ids_NoDup ids db : NoDup ids → NoDup (t_id <$> tasks_of_ids ids db).
Proof.
  intros Hnd. unfold tasks_of_ids. induction Hnd as [|id ids Hid Hnd IH]; simpl; [constructor|].
  destruct (db_tasks db !! id) as [row|]; simpl; [|done]. constructor; [|done].
  intros Hin. apply list_elem_of_fmap in Hin as (t & Ht & Hin).
  apply elem_of_tasks_of_ids in Hin as (id' & row' & Hin & _ & ->). simpl in Ht. by subst.
Qed.

(** The subtasks of a task are its descendants, each once: a task is
    listed when and only when a chain of parent-child edges leads from it to
    the given task.  A cycle of such edges, which nothing prevents, neither
    repeats a task nor stops the query. *)
Theorem get_subtasks_spec p db :
  NoDup (t_id <$> get_subtasks p db)
  ∧ ∀ t, t ∈ get_subtasks p db ↔
      ∃ row, db_tasks db !! t_id t = Some row ∧ t = task_from_row (t_id t) row
             ∧ tc (dep_edge "parent-child" db) (t_id t) p.
Proof.
  unfold get_subtasks. split; [apply tasks_of_ids_NoDup, cte_NoDup|].
  intros t. rewrite elem_of_tasks_of_ids. split.
  - intros (id & row & Hid & Hrow & ->). exists row. simpl. by rewrite <-elem_of_subtree.
  - intros (row & Hrow & Ht & Htc). exists (t_id t), row. by rewrite elem_of_subtree.
Qed.
End subtasks.
