(* ===== verification/TaskStore.v ===== *)
(** * The task store ([SqliteTaskStore] of [crates/cas-store/src/task_store.rs])

    Creation, the guarded update of a whole task, notes, reopening, deletion
    and the lists.  An operation runs in one transaction and is a function from
    the database to its answer and the new database; the clock readings are
    numbered in program order.  [origin_project] is the store's own field. *)

From S2P Require Import Prelude Enums TaskTypes Leases Db LeaseStore NoteMarkers TaskRows Cte TaskGraph.

Section task_store.
Context {host : Host}.

(** ** Creation *)
Definition task_with_default_origin (origin_project : option string) (task : Task) : Task :=
  match t_origin_project task with
  | None => task <| t_origin_project := origin_project |>
  | Some _ => task
  end.

(** [now] is the reading for the event. *)
Definition add_with_conn (now : Z) (task : Task) (event_session_id : option string) (db : Db)
    : result Db :=
  db ← insert_task (inserted_row task) db;
  let session :=
    s ← event_session_id; if str_is_empty (trim s) then None else Some s in
  Ok (record_event now EventType_TaskCreated EventEntityType_Task (t_id task)
        ("Task created: " +:+ t_title task) None session db).

Definition add (clk : Clock) (origin_project : option string) (task : Task) (db : Db)
    : result (unit * Db) :=
  db ← add_with_conn (clk 0%nat) (task_with_default_origin origin_project task) None db; Ok (tt, db).

Definition add_with_mutation_receipt (clk : Clock) (origin_project : option string) (task : Task)
    (receipt_id : string) (db : Db) : result (unit * Db) :=
  let task := task_with_default_origin origin_project task in
  db ← add_with_conn (clk 0%nat) task None db;
  db ← record_mutation_receipt_with_conn (clk 1%nat) receipt_id (t_id task) db;
  Ok (tt, db).

(** The dependencies on the given tasks, in order, without a cycle check *)
Fixpoint add_dependencies (ds : list Dependency) (db : Db) : result Db :=
  match ds with
  | [] => Ok db
  | d :: rest => db ← add_dependency_with_conn d false db; add_dependencies rest db
  end.

Definition validate_epic (epic_id : option string) (db : Db) : result unit :=
  match epic_id with
  | None => Ok tt
  | Some epic_id =>
      match db_tasks db !! epic_id with
      | Some t =>
          if bool_decide (t_task_type t = TaskType_Epic) then Ok tt
          else Err (Parse ("Task " +:+ epic_id +:+ " is not an epic (type: " +:+
                           TaskType_to_string (t_task_type t) +:+ ")"))
      | None => Err (TaskNotFound epic_id)
      end
  end.

(** The edges of a new task: its blockers, then its epic *)
Definition creation_edges (now : Z) (id : string) (blocked_by : list string)
    (epic_id created_by : option string) : list Dependency :=
  ((λ blocker_id, mkDependency id blocker_id DependencyType_Blocks now created_by) <$>
     filter (λ b, str_is_empty b = false) (trim <$> blocked_by))
  ++ match epic_id with
     | Some epic_id => [mkDependency id epic_id DependencyType_ParentChild now created_by]
     | None => []
     end.

Definition create_atomic_with_optional_receipt (clk : Clock) (origin_project : option string)
    (task : Task) (blocked_by : list string) (epic_id created_by receipt_id : option string)
    (db : Db) : result (unit * Db) :=
  let task := task_with_default_origin origin_project task in
  let now := clk 0%nat in
  let epic_id := trimmed_nonempty epic_id in
  validate_epic epic_id db ≫= λ _,
  db ← add_with_conn (clk 1%nat) task created_by db;
  db ← add_dependencies (creation_edges now (t_id task) blocked_by epic_id created_by) db;
  db ← match receipt_id with
       | Some receipt_id => record_mutation_receipt_with_conn (clk 2%nat) receipt_id (t_id task) db
       | None => Ok db
       end;
  Ok (tt, db).

Definition create_atomic (clk : Clock) (origin_project : option string) (task : Task)
    (blocked_by : list string) (epic_id created_by : option string) (db : Db) : result (unit * Db) :=
  create_atomic_with_optional_receipt clk origin_project task blocked_by epic_id created_by None db.

Definition create_atomic_with_mutation_receipt (clk : Clock) (origin_project : option string)
    (task : Task) (blocked_by : list string) (epic_id created_by : option string)
    (receipt_id : string) (db : Db) : result (unit * Db) :=
  create_atomic_with_optional_receipt clk origin_project task blocked_by epic_id created_by
    (Some receipt_id) db.

Definition get (id : string) (db : Db) : result Task :=
  ok_or (task_from_row id <$> db_tasks db !! id) (TaskNotFound id).

(** ** Update *)

(** [delivery_owns_task_lifecycle] (delivery_store.rs): the newest delivery of
    the task, by its receipt, is not delivered yet. *)
Definition task_deliveries (task_id : string) (db : Db)
    : list (CompletionReceiptRow * string * DeliveryTransactionRow) :=
  omap (λ kt, r ← wd_receipts (db_delivery db) !! tx_receipt_id kt.2;
              Some (r, tx_receipt_id kt.2, kt.2))
    (sql_select (λ _ t, String.eqb (tx_task_id t) task_id) (wd_transactions (db_delivery db))).
Definition delivery_owns_task_lifecycle (task_id : string) (db : Db) : result bool :=
  let rows := order_by (le_of (then_by (desc (λ d, wr_created_at d.1.1))
                                       (λ a b, by_text (λ d, d.1.2) b a)))
                (task_deliveries task_id db) in
  match head rows with
  | None => Ok false
  | Some (_, r) =>
      match WorkerDeliveryState_from_str (tx_state r) with
      | Ok state => Ok (negb (bool_decide (state = WorkerDeliveryState_Delivered)))
      | Err error => Err (Parse ("invalid delivery state during sync: " +:+
                                 TypeError_to_string error))
      end
  end.

(** The expiry of the task's active lease, when its holder is the agent with
    the given id or name *)
Definition lease_of_assignee (task_id : string) (assignee : option string) (db : Db) : option Z :=
  l ← db_task_leases db !! task_id;
  a ← db_agents db !! l_agent_id l;
  name ← assignee;
  if lease_active l && (String.eqb (l_agent_id l) name || String.eqb (a_name a) name)
  then Some (l_expires_at l) else None.

(** A replica's update that would undo a live local start *)
Definition undoes_live_start (now : Z) (task expected : Task) (db : Db) : bool :=
  bool_decide (t_status expected = TaskStatus_InProgress) && negb (Task_is_terminal task)
  && (bool_decide (t_status task = TaskStatus_Open)
      || negb (bool_decide (t_assignee task = t_assignee expected)))
  && match lease_of_assignee (t_id task) (t_assignee expected) db with
     | Some expires => now <? expires
     | None => false
     end.

(** The checks against the expected task: whether the update may go on *)
Definition check_expected (now : Z) (task expected : Task) (from_sync : bool) (db : Db)
    : result bool :=
  if negb (String.eqb (t_id expected) (t_id task))
  then Err (Parse "task expectation names a different task")
  else
    match db_tasks db !! t_id task with
    | None => Err (TaskNotFound (t_id task))
    | Some current =>
        if negb (bool_decide (t_updated_at current = t_updated_at expected))
           || negb (bool_decide (t_status current = t_status expected))
        then Ok false
        else
          owned ← (if from_sync && negb (lifecycle_matches task expected)
                   then delivery_owns_task_lifecycle (t_id task) db else Ok false);
          if (owned : bool) then Ok false
          else Ok (negb (from_sync && undoes_live_start now task expected db))
    end.

(** The status change of an update *)
Definition was_terminal (prev : option TaskStatus) : bool :=
  match prev with Some (TaskStatus_Closed | TaskStatus_Cancelled) => true | _ => false end.
Definition reopening_terminal (prev : option TaskStatus) (task : Task) : bool :=
  was_terminal prev && negb (Task_is_terminal task).
Definition resuming_merge_conflict (prev : option TaskStatus) (task : Task) : bool :=
  bool_decide (prev = Some TaskStatus_AwaitingMerge)
  && bool_decide (t_status task = TaskStatus_InProgress).
Definition leaving_park (prev : option TaskStatus) (task : Task) : bool :=
  match prev with Some (TaskStatus_AwaitingMerge | TaskStatus_Blocked) => true | _ => false end
  && negb match t_status task with
          | TaskStatus_Closed | TaskStatus_Blocked | TaskStatus_AwaitingMerge => true
          | _ => false
          end.

(** What of the delivery evidence survives the status change *)
Definition persisted_deliverables (prev : option TaskStatus) (task : Task) : TaskDeliverables :=
  let d := t_deliverables task in
  let d := if reopening_terminal prev task || resuming_merge_conflict prev task
           then retain_factory_branch_anchor_as_history d else d in
  let d := if reopening_terminal prev task
           then d <| td_negative_result := None |> <| td_evidence_only := None |> else d in
  let d := if resuming_merge_conflict prev task
           then d <| td_parked_branch := None |> <| td_merge_conflicted := false |> else d in
  if reopening_terminal prev task || leaving_park prev task
  then d <| td_parked_close_reason := None |> <| td_green_merge_commit := None |>
         <| td_merge_ci_admission := None |>
  else d.

Definition persisted_terminal_outcome (prev : option TaskStatus) (task : Task)
    : option TaskTerminalOutcome :=
  if reopening_terminal prev task then None else t_terminal_outcome task.

(** The event of a status change *)
Definition status_event (task : Task) : EventType * string :=
  match t_status task with
  | TaskStatus_InProgress => (EventType_TaskStarted, "Task started: " +:+ t_title task)
  | TaskStatus_Closed => (EventType_TaskCompleted, "Task completed: " +:+ t_title task)
  | TaskStatus_Cancelled =>
      (EventType_TaskBlocked, "Task cancelled without delivery: " +:+ t_title task)
  | TaskStatus_Blocked => (EventType_TaskBlocked, "Task blocked: " +:+ t_title task)
  | TaskStatus_Open => (EventType_TaskCreated, "Task reopened: " +:+ t_title task)
  | TaskStatus_AwaitingMerge => (EventType_TaskBlocked, "Task awaiting merge: " +:+ t_title task)
  end.

(** The status read with [status != new status] *)
Definition prev_status (task : Task) (db : Db) : option TaskStatus :=
  row ← db_tasks db !! t_id task;
  if bool_decide (t_status row = t_status task) then None else Some (t_status row).

(** The writes of an accepted update, at the stamp [now] *)
Definition write_update (clk : Clock) (now : Z) (task : Task) (receipt_id : string) (db : Db)
    : result (option Z * Db) :=
  let prev := prev_status task db in
  let '(db, rows) :=
    update_task (t_id task) (λ _, true)
      (updated_task_row task (safe_notes db task) now (persisted_deliverables prev task)
         (persisted_terminal_outcome prev task)) db in
  if (rows =? 0)%nat then Err (TaskNotFound (t_id task))
  else
    let db :=
      match prev with
      | Some _ => let '(event_type, summary) := status_event task in
                  record_event (clk 2%nat) event_type EventEntityType_Task (t_id task) summary
                    None None db
      | None => db
      end in
    db ← (if str_is_empty receipt_id then Ok db
          else record_mutation_receipt_with_conn (clk 3%nat) receipt_id (t_id task) db);
    Ok (Some now, db).

(** Readings: the lease check, the stamp, the event, the receipt *)
Definition update_checked (clk : Clock) (task : Task) (receipt_id : string)
    (expected : option Task) (from_sync : bool) (db : Db) : result (option Z * Db) :=
  proceed ← match expected with
            | Some expected => check_expected (clk 0%nat) task expected from_sync db
            | None => Ok true
            end;
  if negb proceed then Ok (None, db)
  else
    let now :=
      match from_sync, expected with
      | true, Some expected => Z.max (t_updated_at task) (t_updated_at expected)
      | _, _ => clk 1%nat
      end in
    write_update clk now task receipt_id db.

Definition update_with_mutation_receipt (clk : Clock) (task : Task) (receipt_id : string) (db : Db)
    : result (Z * Db) :=
  '(stamp, db) ← update_checked clk task receipt_id None false db;
  match stamp with
  | Some stamp => Ok (stamp, db)
  | None => Err (Other "unconditional task update was refused")
  end.

Definition TaskStore_update (clk : Clock) (task : Task) (db : Db) : result (Z * Db) :=
  update_with_mutation_receipt clk task EmptyString db.

Definition update_if_current_with_mutation_receipt (clk : Clock) (task expected : Task)
    (receipt_id : string) (db : Db) : result (Z * Db) :=
  '(stamp, db) ← update_checked clk task receipt_id (Some expected) false db;
  match stamp with
  | Some stamp => Ok (stamp, db)
  | None => Err (Other ("task changed since close snapshot for " +:+ t_id task +:+
      "; park refused (request_changes or another task update may have won). Reload the task before retrying close"))
  end.

Definition update_from_sync (clk : Clock) (task expected : Task) (db : Db)
    : result (option Z * Db) :=
  update_checked clk task EmptyString (Some expected) true db.

(** ** Notes *)

(** The text a trusted note leaves: rendered provenance replaces the rendered
    block, an artifact receipt its raw copy; else it is appended. *)
Definition trusted_replacement (notes formatted_note : string) : option string :=
  if starts_with "--- BEGIN SERVER-ATTESTED PROPOSAL PROVENANCE ---" formatted_note
  then Some (replace_rendered_provenance notes formatted_note)
  else replace_raw_artifact_note notes formatted_note.

Definition with_receipt (now : Z) (receipt_id task_id : string) (db : Db) : result Db :=
  if str_is_empty receipt_id then Ok db
  else record_mutation_receipt_with_conn now receipt_id task_id db.

(** Readings: the receipt of a note that is there already, the stamp, the receipt *)
Definition append_note_inner (clk : Clock) (task_id formatted_note receipt_id : string)
    (trusted : bool) (db : Db) : result (Z * Db) :=
  let safe_note := if trusted then formatted_note else neutralize_new_markers formatted_note None in
  let write (f : string → string) :=
    let now := clk 1%nat in
    let '(db, rows) :=
      update_task task_id (λ _, true)
        (λ t, t <| t_notes ::= f |> <| t_updated_at := now |>) db in
    if (rows =? 0)%nat then Err (TaskNotFound task_id)
    else db ← with_receipt (clk 2%nat) receipt_id task_id db; Ok (now, db) in
  if trusted
  then
    match db_tasks db !! task_id with
    | None => Err (TaskNotFound task_id)
    | Some current =>
        let notes := t_notes current in
        let replacement := trusted_replacement notes formatted_note in
        if match replacement with
           | Some next => String.eqb next notes
           | None => contains_complete_lines notes formatted_note
           end
        then db ← with_receipt (clk 0%nat) receipt_id task_id db; Ok (t_updated_at current, db)
        else match replacement with
             | Some next => write (λ _, next)
             | None => write (λ notes, append_text notes safe_note)
             end
    end
  else write (λ notes, append_text notes safe_note).

Definition append_note (clk : Clock) (task_id note : string) (db : Db) : result (Z * Db) :=
  append_note_inner clk task_id note EmptyString false db.
Definition append_note_with_mutation_receipt (clk : Clock) (task_id note receipt_id : string)
    (db : Db) : result (Z * Db) := append_note_inner clk task_id note receipt_id false db.
Definition append_trusted_note (clk : Clock) (task_id note : string) (db : Db) : result (Z * Db) :=
  append_note_inner clk task_id note EmptyString true db.
Definition append_trusted_note_with_mutation_receipt (clk : Clock)
    (task_id note receipt_id : string) (db : Db) : result (Z * Db) :=
  append_note_inner clk task_id note receipt_id true db.

(** ** Reopening, flags, deletion *)

(** The one update that takes its stamp from the caller, gated by the stored
    status and stamp *)
Definition reopen_exact_with_conn (task : Task) (expected_status : TaskStatus)
    (expected_updated_at : Z) (db : Db) : result Db :=
  let '(db, rows) :=
    update_task (t_id task)
      (λ row, bool_decide (t_status row = expected_status)
              && (t_updated_at row =? expected_updated_at))
      (updated_task_row task (safe_notes db task) (t_updated_at task) (t_deliverables task)
         (t_terminal_outcome task)) db in
  if (rows =? 1)%nat then Ok db
  else Err (Parse "exact task reopen raced with another task mutation").

Definition clear_pending_verification_with_conn (clk : Clock) (task_id : string) (db : Db)
    : result Db :=
  let '(db, rows) :=
    update_task task_id t_pending_verification
      (λ t, t <| t_pending_verification := false |> <| t_updated_at := clk 0%nat |>) db in
  if (rows =? 0)%nat then validate_task_exists_with_conn task_id db ≫= λ _, Ok db else Ok db.

Definition TaskStore_delete (clk : Clock) (id : string) (db : Db) : result (unit * Db) :=
  let title := t_title <$> db_tasks db !! id in
  let db := db <| db_dependencies ::= sql_delete (λ k _, String.eqb k.1 id || String.eqb k.2 id) |>
               <| db_task_leases ::= delete id |> <| db_exec_states ::= delete id |> in
  let '(db, rows) := delete_task_row id db in
  if (rows =? 0)%nat then Err (TaskNotFound id)
  else
    Ok (tt, match title with
            | Some title => record_event (clk 0%nat) EventType_TaskDeleted EventEntityType_Task id
                              ("Task deleted: " +:+ title) None None db
            | None => db
            end).

(** ** Lists *)

(** [ORDER BY priority, created_at DESC] *)
Definition task_order : Task → Task → bool :=
  le_of (then_by (asc t_priority) (desc t_created_at)).

Definition select_tasks (P : string → Task → bool) (db : Db) : list Task :=
  (λ kt, task_from_row kt.1 kt.2) <$> sql_select P (db_tasks db).

Definition TaskStore_list (status : option TaskStatus) (db : Db) : list Task :=
  order_by task_order
    (select_tasks (λ _ t, match status with
                          | Some s => bool_decide (t_status t = s)
                          | None => true
                          end) db).

(** An edge of a type from the task to a task that is still open *)
Definition open_target (ty : string) (db : Db) (id : string) : bool :=
  existsb (λ to_id, match db_tasks db !! to_id with Some t => status_open t | None => false end)
    (targets ty db id).

Definition external_pending (db : Db) (id : string) : bool :=
  sql_exists (λ k r, String.eqb k.1 id && negb (String.eqb (xd_resolution_state r) "resolved")
                     && is_none (xd_suppressed_at r)) (db_external_deps db).

Definition ready (db : Db) (id : string) (t : Task) : bool :=
  (bool_decide (t_status t = TaskStatus_Open)
   || bool_decide (t_status t = TaskStatus_Blocked) && open_target "blocks" db id)
  && negb (open_target "requires-start" db id) && negb (external_pending db id).

(** [held] is the answer of the project hold file at the call. *)
Definition list_ready (held : bool) (db : Db) : list Task :=
  if held then [] else order_by task_order (select_tasks (ready db) db).

Definition list_blocked (db : Db) : list (Task * list Task) :=
  (λ t, (t, get_blockers (t_id t) db)) <$>
    order_by task_order
      (select_tasks (λ id t, status_open t && (open_target "blocks" db id || external_pending db id))
         db).

Definition list_pending_verification (db : Db) : list Task :=
  select_tasks (λ _ t, t_pending_verification t) db.
Definition list_pending_worktree_merge (db : Db) : list Task :=
  select_tasks (λ _ t, t_pending_worktree_merge t) db.

Definition ids_by_assignees_and_statuses (assignees : list string) (statuses : list TaskStatus)
    (db : Db) : list string :=
  if bool_decide (assignees = []) || bool_decide (statuses = []) then []
  else
    t_id <$> order_by task_order
      (select_tasks (λ _ t, match t_assignee t with
                            | Some a => existsb (eq_ignore_ascii_case a) assignees
                            | None => false
                            end && bool_decide (t_status t ∈ statuses)) db).

Definition epic_for_branch_excluding (branch : string) (excluded : list string) (db : Db)
    : option Task :=
  head (order_by (le_of (then_by (asc (λ t, if Task_is_terminal t then 1 else 0))
                        (then_by (desc t_updated_at) (by_text t_id))))
    (select_tasks (λ id t, bool_decide (t_branch t = Some branch)
                           && bool_decide (t_task_type t = TaskType_Epic)
                           && negb (bool_decide (id ∈ excluded))) db)).

Definition list_with_parent_deps_and_start_gates (db : Db)
    : list Task * list Dependency * gset string :=
  (order_by task_order (select_tasks (λ _ _, true) db),
   list_dependencies (Some DependencyType_ParentChild) db,
   list_to_set (omap (λ kr : (string * string) * DepRow,
        t ← db_tasks db !! kr.1.2; if status_open t then Some kr.1.1 else None)
     (sql_select (λ _ r, of_type "requires-start" r) (db_dependencies db)))).

Definition list_with_parent_deps (db : Db) : list Task * list Dependency :=
  (list_with_parent_deps_and_start_gates db).1.

End task_store.
