(* ===== verification/TaskStoreSpec.v ===== *)
(** * What the task store promises

    The lists, the guarded update and its evidence rules, notes, creation and
    deletion of [TaskStore], operation by operation. *)

From S2P Require Import Prelude Enums TaskTypes Leases Db LeaseStore NoteMarkers TaskRows Cte TaskGraph TaskStore.

Section task_store_spec.
Context {host : Host}.

(** ** Lists *)

(** The task with this id exists and is neither closed nor cancelled. *)
Definition open_task (db : Db) (id : string) : Prop :=
  ∃ t, db_tasks db !! id = Some t ∧ status_open t = true.

Lemma open_target_true ty db id :
  open_target ty db id = true ↔ ∃ to_id, dep_edge ty db id to_id ∧ open_task db to_id.
Proof.
  unfold open_target, open_task. rewrite existsb_exists. split.
  - intros (x & Hin & Hx). exists x. rewrite <-elem_of_targets. split; [by apply list_elem_of_In|].
    destruct (db_tasks db !! x) as [t|]; [|done]. by exists t.
  - intros (x & Hx & t & Ht & Hop). exists x. rewrite Ht. split; [|done].
    apply list_elem_of_In. by apply elem_of_targets.
Qed.

Lemma external_pending_true db id :
  external_pending db id = true ↔
  ∃ proposal r, db_external_deps db !! (id, proposal) = Some r
    ∧ xd_resolution_state r ≠ "resolved" ∧ xd_suppressed_at r = None.
Proof.
  unfold external_pending. rewrite sql_exists_true. split.
  - intros ([id' p] & r & Hr & HP). simpl in HP.
    apply andb_true_iff in HP as [[Hid Hs]%andb_true_iff Hn].
    apply String.eqb_eq in Hid as ->. exists p, r. split_and!; [done| |].
    + intros E. by rewrite E in Hs.
    + by destruct (xd_suppressed_at r).
  - intros (p & r & Hr & Hs & Hn). exists (id, p), r. split; [done|]. simpl.
    rewrite String.eqb_refl, Hn. simpl. rewrite andb_true_r, negb_true_iff.
    by apply String.eqb_neq.
Qed.

(** When a task is startable *)
Definition startable (db : Db) (id : string) (t : Task) : Prop :=
  (t_status t = TaskStatus_Open
   ∨ t_status t = TaskStatus_Blocked ∧ ∃ b, dep_edge "blocks" db id b ∧ open_task db b)
  ∧ (∀ p, dep_edge "requires-start" db id p → ¬ open_task db p)
  ∧ (∀ proposal r, db_external_deps db !! (id, proposal) = Some r →
       xd_resolution_state r = "resolved" ∨ is_Some (xd_suppressed_at r)).

Lemma ready_startable db id t : ready db id t = true ↔ startable db id t.
Proof.
  unfold ready, startable.
  rewrite !andb_true_iff, orb_true_iff, andb_true_iff, !bool_decide_eq_true, !negb_true_iff.
  rewrite open_target_true, <-!not_true_iff_false, open_target_true, external_pending_true.
  split.
  - intros [[H1 H2] H3]. split_and!; [done| |].
    + intros p Hp Ho. apply H2. by exists p.
    + intros p r Hr. destruct (decide (xd_resolution_state r = "resolved")); [by left|right].
      destruct (xd_suppressed_at r) eqn:E; [by eexists|]. exfalso. apply H3. by exists p, r.
  - intros (H1 & H2 & H3). split_and!; [done| |].
    + intros (p & Hp & Ho). by eapply H2.
    + intros (p & r & Hr & Hs & Hn). destruct (H3 p r Hr) as [?|[? E]]; [done|]. by rewrite Hn in E.
Qed.

Lemma elem_of_select_tasks P db t :
  t ∈ select_tasks P db ↔
  ∃ row, db_tasks db !! t_id t = Some row ∧ t = task_from_row (t_id t) row ∧ P (t_id t) row = true.
Proof.
  unfold select_tasks. rewrite list_elem_of_fmap. split.
  - intros ([id row] & -> & Hin). apply elem_of_sql_select in Hin as [Hr HP]. simpl. by exists row.
  - intros (row & Hrow & Ht & HP). exists (t_id t, row). split; [done|]. by apply elem_of_sql_select.
Qed.

Lemma select_tasks_NoDup P db : NoDup (t_id <$> select_tasks P db).
Proof.
  unfold select_tasks. rewrite <-list_fmap_compose.
  apply (NoDup_sql_select P (db_tasks db)).
Qed.

(** Most urgent first, then newest *)
Definition before (a b : Task) : Prop :=
  t_priority a < t_priority b ∨ t_priority a = t_priority b ∧ t_created_at b ≤ t_created_at a.

Lemma task_order_sorted l : Sorted before (order_by task_order l).
Proof.
  assert (Sorted (rel_of task_order) (order_by task_order l)) as Hs.
  { apply order_by_sorted, le_of_total, then_by_opp; intros a b; [apply asc_opp|apply desc_opp]. }
  revert Hs. generalize (order_by task_order l). intros l' Hs.
  induction Hs as [|x l' Hs IH Hh]; constructor; [done|].
  destruct Hh as [|y l' Hle]; constructor. unfold rel_of, task_order, le_of, then_by, asc, desc in Hle.
  unfold before. destruct (Z.compare_spec (t_priority x) (t_priority y)); [right|by left|done].
  split; [done|]. destruct (Z.compare_spec (t_created_at y) (t_created_at x)); [lia..|done].
Qed.

(** The ready list is exact: without a project hold it holds each
    startable task once, most urgent and then newest first.  A task is
    startable when it is open, or blocked only as the projection of a still
    open blocker, and no prerequisite of it is open and no external dependency
    unresolved.  Under a hold nothing is offered. *)
Theorem list_ready_spec db :
  list_ready true db = []
  ∧ (∀ t, t ∈ list_ready false db ↔
       ∃ row, db_tasks db !! t_id t = Some row ∧ t = task_from_row (t_id t) row
              ∧ startable db (t_id t) row)
  ∧ NoDup (t_id <$> list_ready false db)
  ∧ Sorted before (list_ready false db).
Proof.
  unfold list_ready. split_and!; [done| | |apply task_order_sorted].
  - intros t. rewrite elem_of_order_by, elem_of_select_tasks.
    split; intros (row & Hrow & Ht & HP); exists row; (split_and!; [done..|]); by apply ready_startable.
  - rewrite order_by_perm. apply select_tasks_NoDup.
Qed.

(** ** The guarded update *)

(** The row an accepted update leaves *)
Definition next_row (db : Db) (now : Z) (task row : Task) : Task :=
  updated_task_row task (safe_notes db task) now (persisted_deliverables (prev_status task db) task)
    (persisted_terminal_outcome (prev_status task db) task) row.

Lemma write_update_Ok clk now task rid db s db' :
  write_update clk now task rid db = Ok (s, db') →
  ∃ row, db_tasks db !! t_id task = Some row ∧ s = Some now
  ∧ db_tasks db' = <[t_id task := next_row db now task row]> (db_tasks db)
  ∧ db_dependencies db' = db_dependencies db ∧ db_task_leases db' = db_task_leases db
  ∧ db_revisions db' = db_revisions (bump_revision (t_id task) true db).
Proof.
  unfold write_update, update_task, next_row.
  destruct (db_tasks db !! t_id task) as [row|] eqn:Hrow; [|done].
  set (row' := updated_task_row _ _ _ _ _ row).
  intros H. exists row. split; [done|]. revert H. cbn [Nat.eqb].
  destruct (prev_status task db); [destruct (status_event task)|];
    (destruct (str_is_empty rid); cbn [mbind result_bind];
     [intros [= <- <-]; done
     |intros H; apply bind_Ok in H as (db2 & H & [= <- <-]);
      apply record_receipt_Ok in H as (-> & -> & -> & -> & _); done]).
Qed.

Lemma update_checked_Ok clk task rid expected sync db r db' :
  update_checked clk task rid expected sync db = Ok (r, db') →
  (r = None ∧ db' = db)
  ∨ ∃ now, r = Some now ∧ write_update clk now task rid db = Ok (Some now, db')
    ∧ now = match sync, expected with
            | true, Some e => Z.max (t_updated_at task) (t_updated_at e)
            | _, _ => clk 1%nat
            end
    ∧ match expected with
      | Some e => check_expected (clk 0%nat) task e sync db = Ok true
      | None => True
      end.
Proof.
  unfold update_checked. intros H. apply bind_Ok in H as ([] & Hp & H); simpl in H.
  - right. pose proof H as H'. apply write_update_Ok in H' as (row & _ & -> & _).
    eexists. split_and!; [done..|]. by destruct expected.
  - left. by simplify_eq.
Qed.

Lemma check_expected_Ok now task e sync db :
  check_expected now task e sync db = Ok true →
  t_id e = t_id task ∧ ∃ cur, db_tasks db !! t_id task = Some cur
  ∧ t_updated_at cur = t_updated_at e ∧ t_status cur = t_status e
  ∧ (sync = true →
      (lifecycle_matches task e = false → delivery_owns_task_lifecycle (t_id task) db = Ok false)
      ∧ undoes_live_start now task e db = false).
Proof.
  unfold check_expected. destruct (String.eqb_spec (t_id e) (t_id task)) as [He|]; [|done]. simpl.
  destruct (db_tasks db !! t_id task) as [cur|] eqn:Hcur; [|done].
  do 2 (case_bool_decide; [|done]). simpl. intros H'. apply bind_Ok in H' as (owned & Ho & H').
  destruct owned; [done|]. split; [done|]. exists cur. split_and!; [done..|].
  intros ->. simpl in *. split.
  - intros Hl. by rewrite Hl in Ho.
  - injection H' as H'. by rewrite negb_true_iff in H'.
Qed.

(** A conditional update is an exact compare-and-swap.  It writes the task
    at the store's own clock when the row still has the expected stamp and
    status; the row then holds the caller's task with its id, creation time
    and recorded origin kept, and its revision is one higher.  Otherwise it
    fails and nothing changes. *)
Theorem update_if_current_spec clk task expected db cur :
  t_id expected = t_id task → db_tasks db !! t_id task = Some cur →
  if bool_decide (t_updated_at cur = t_updated_at expected)
     && bool_decide (t_status cur = t_status expected)
  then ∃ db', update_if_current_with_mutation_receipt clk task expected EmptyString db
              = Ok (clk 1%nat, db')
       ∧ db_tasks db' = <[t_id task := next_row db (clk 1%nat) task cur]> (db_tasks db)
       ∧ db_revisions db' = db_revisions (bump_revision (t_id task) true db)
       ∧ db_dependencies db' = db_dependencies db ∧ db_task_leases db' = db_task_leases db
  else is_ok (update_if_current_with_mutation_receipt clk task expected EmptyString db) = false.
Proof.
  intros He Hcur. unfold update_if_current_with_mutation_receipt, update_checked, check_expected.
  rewrite He, String.eqb_refl, Hcur. simpl.
  do 2 case_bool_decide; simpl; try done.
  destruct (write_update clk (clk 1%nat) task EmptyString db) as [[s db']|] eqn:E.
  - apply write_update_Ok in E as (row & Hrow & -> & Ht & Hd & Hl & Hrev).
    rewrite Hcur in Hrow. injection Hrow as <-. simpl. by exists db'.
  - exfalso. unfold write_update, update_task in E. rewrite Hcur in E. cbn [Nat.eqb] in E.
    destruct (prev_status task db); [destruct (status_event task)|]; done.
Qed.

(** C30: A sync apply never moves a task backwards.  When it is applied, the
    row was exactly the expected one, the stamp is the later of the two and
    not before the row's, a lifecycle change happened only while no
    undelivered delivery owned the task, and a task whose assignee holds a
    live lease on it stays started and assigned unless the update ends it.
    When it is refused nothing changes. *)
Theorem update_from_sync_spec clk task expected db r db' :
  update_from_sync clk task expected db = Ok (r, db') →
  match r with
  | None => db' = db
  | Some stamp =>
      ∃ cur, db_tasks db !! t_id task = Some cur
      ∧ t_updated_at cur = t_updated_at expected ∧ t_status cur = t_status expected
      ∧ stamp = Z.max (t_updated_at task) (t_updated_at cur)
      ∧ db_tasks db' = <[t_id task := next_row db stamp task cur]> (db_tasks db)
      ∧ (lifecycle_matches task expected = true
         ∨ delivery_owns_task_lifecycle (t_id task) db = Ok false)
      ∧ (∀ expires, lease_of_assignee (t_id task) (t_assignee expected) db = Some expires →
           clk 0%nat < expires → t_status cur = TaskStatus_InProgress →
           Task_is_terminal task = true
           ∨ t_status task ≠ TaskStatus_Open ∧ t_assignee task = t_assignee expected)
  end.
Proof.
  unfold update_from_sync. intros H. apply update_checked_Ok in H as [[-> ->]|(now & -> & Hw & Hnow & Hc)];
    [done|].
  apply write_update_Ok in Hw as (cur & Hcur & _ & Ht & _).
  apply check_expected_Ok in Hc as (_ & cur' & Hcur' & Hu & Hs & Hsync).
  rewrite Hcur in Hcur'. injection Hcur' as <-. destruct (Hsync eq_refl) as [Hown Hlive].
  exists cur. split_and!; [done..|by rewrite Hu|done| |].
  - destruct (lifecycle_matches task expected); [by left|right; by apply Hown].
  - intros expires Hl Hlt Hin. unfold undoes_live_start in Hlive.
    rewrite Hl, <-Hs, (bool_decide_eq_true_2 _ Hin) in Hlive.
    destruct (Task_is_terminal task); [by left|right]. simpl in Hlive.
    apply Z.ltb_lt in Hlt. rewrite Hlt, andb_true_r in Hlive.
    apply orb_false_iff in Hlive as [H1%bool_decide_eq_false H2%negb_false_iff].
    by apply bool_decide_eq_true in H2.
Qed.

(** ** Evidence across status changes *)

(** No evidence of a finished or parked cycle *)
Definition cycle_evidence_cleared (d : TaskDeliverables) : Prop :=
  td_parked_close_reason d = None ∧ td_green_merge_commit d = None ∧ td_merge_ci_admission d = None.

Lemma retained_anchor d :
  let d' := retain_factory_branch_anchor_as_history d in
  td_factory_branch_anchor d' = None ∧ td_integration_batch d' = None
  ∧ (∀ a, td_factory_branch_anchor d = Some a → trim a ≠ EmptyString →
       any_ignore_case (trim a) (td_historical_factory_branch_anchors d') = true)
  ∧ (∀ a, a ∈ td_historical_factory_branch_anchors d → a ∈ td_historical_factory_branch_anchors d').
Proof.
  unfold retain_factory_branch_anchor_as_history. cbv zeta. simpl.
  destruct (td_factory_branch_anchor d) as [anchor|] eqn:Hd; [|by split_and!; simpl].
  unfold str_is_empty. destruct (String.eqb_spec (trim anchor) EmptyString) as [He|He]; simpl.
  - split_and!; try done. intros a [= <-] ?. done.
  - destruct (any_ignore_case (trim anchor) (td_historical_factory_branch_anchors d)) eqn:Hany; simpl.
    + split_and!; try done. by intros a [= <-] _.
    + split_and!; try done.
      * intros a [= <-] _. unfold any_ignore_case. rewrite existsb_app. simpl.
        unfold eq_ignore_ascii_case. by rewrite String.eqb_refl, orb_true_r.
      * intros a Ha. apply elem_of_app. by left.
Qed.

(** C37: Reopening invalidates the evidence of the finished cycle, on every update
    that goes through [update_checked]: the plain, the conditional and the
    synchronizing one.  A closed or cancelled task that such an accepted update
    makes live again keeps no terminal outcome, no negative or evidence-only
    result, no close anchor, no batch and no merge evidence; the anchor moves
    to the history.  A task that leaves its park loses the merge evidence, and
    one that resumes after a merge conflict also its parked branch; an update
    that keeps the status keeps the caller's deliverables.  The exact reopen
    ([reopen_exact_with_conn]) is not one of these paths: it writes the evidence
    its caller hands it. *)
Theorem update_invalidates_evidence clk task rid expected sync db stamp db' cur :
  update_checked clk task rid expected sync db = Ok (Some stamp, db') →
  db_tasks db !! t_id task = Some cur →
  ∃ row, db_tasks db' !! t_id task = Some row ∧
  let d := t_deliverables row in
  (Task_is_terminal cur = true → Task_is_terminal task = false →
     t_terminal_outcome row = None ∧ td_negative_result d = None ∧ td_evidence_only d = None
     ∧ td_factory_branch_anchor d = None ∧ td_integration_batch d = None ∧ cycle_evidence_cleared d
     ∧ ∀ a, td_factory_branch_anchor (t_deliverables task) = Some a → trim a ≠ EmptyString →
         any_ignore_case (trim a) (td_historical_factory_branch_anchors d) = true)
  ∧ (is_parked_awaiting_supervisor (t_status cur) = true →
     t_status task = TaskStatus_Open ∨ t_status task = TaskStatus_InProgress
       ∨ t_status task = TaskStatus_Cancelled →
     cycle_evidence_cleared d)
  ∧ (t_status cur = TaskStatus_AwaitingMerge → t_status task = TaskStatus_InProgress →
     td_parked_branch d = None ∧ td_merge_conflicted d = false ∧ td_factory_branch_anchor d = None)
  ∧ (t_status cur = t_status task → d = t_deliverables task ∧ t_terminal_outcome row = t_terminal_outcome task).
Proof.
  intros H Hcur. apply update_checked_Ok in H as [[[=] _]|(now & [= <-] & Hw & _)].
  apply write_update_Ok in Hw as (row & Hrow & _ & Ht & _).
  rewrite Hcur in Hrow. injection Hrow as <-.
  exists (next_row db stamp task cur). rewrite Ht, lookup_insert_eq. split; [done|].
  pose proof (retained_anchor (t_deliverables task)) as (Ha & Hb & Hh & _).
  unfold next_row, prev_status. rewrite Hcur. simpl.
  set (d0 := t_deliverables task) in *. set (d1 := retain_factory_branch_anchor_as_history d0) in *.
  unfold persisted_deliverables, persisted_terminal_outcome, reopening_terminal,
    resuming_merge_conflict, leaving_park, Task_is_terminal, cycle_evidence_cleared.
  fold d0. fold d1.
  case_bool_decide as Heq.
  - rewrite Heq. split_and!.
    + destruct (t_status task); done.
    + intros ? [E|[E|E]]; rewrite E in *; done.
    + intros -> [=].
    + done.
  - destruct (t_status cur), (t_status task); simpl; try done;
      split_and!; try done; try (intros; split_and!; done); intuition congruence.
Qed.

(** ** Notes *)

(** An untrusted note only adds text.  Appending it to an existing task
    always succeeds, puts the note after the previous notes with an empty line
    between, stamps the task, and leaves the reserved lines of the notes what
    they were: whatever the note says, no proof line or provenance delimiter is
    added, also none that spans the seam. *)
Theorem append_note_spec clk id note db row :
  db_tasks db !! id = Some row →
  ∃ db' notes', append_note clk id note db = Ok (clk 1%nat, db')
  ∧ db_tasks db' = <[id := row <| t_notes := notes' |> <| t_updated_at := clk 1%nat |>]> (db_tasks db)
  ∧ notes' = append_text (t_notes row) (neutralize_new_markers note None)
  ∧ reserved_lines notes' = reserved_lines (t_notes row).
Proof.
  intros Hrow. unfold append_note, append_note_inner, update_task. rewrite Hrow.
  cbn [Nat.eqb mbind result_bind with_receipt]. eexists _, _. split; [done|].
  split_and!; [done..|]. rewrite reserved_lines_append, reserved_lines_neutralized.
  apply app_nil_r.
Qed.

(** ** Creation *)

Lemma add_with_conn_Ok now task session db db' :
  add_with_conn now task session db = Ok db' →
  db_tasks db !! t_id task = None
  ∧ db_tasks db' = <[t_id task := inserted_row task]> (db_tasks db)
  ∧ db_dependencies db' = db_dependencies db
  ∧ db_revisions db' = db_revisions (bump_revision (t_id task) true db).
Proof.
  unfold add_with_conn, insert_task. change (t_id (inserted_row task)) with (t_id task).
  destruct (db_tasks db !! t_id task); [done|]. cbn [mbind result_bind]. by intros [= <-].
Qed.

Lemma add_dependency_unchecked d db db' :
  add_dependency_with_conn d false db = Ok db' →
  is_Some (db_tasks db !! dep_from_id d) ∧ is_Some (db_tasks db !! dep_to_id d)
  ∧ db' = put_dependency d db.
Proof.
  unfold add_dependency_with_conn.
  destruct (check_dependency d false db) as [[]|] eqn:E; [|done]. intros [= <-].
  apply check_dependency_Ok in E. tauto.
Qed.

Lemma add_dependencies_Ok ds : ∀ db db',
  add_dependencies ds db = Ok db' →
  db_tasks db' = db_tasks db ∧ db_revisions db' = db_revisions db
  ∧ db_dependencies db' =
      foldl (λ m d, <[(dep_from_id d, dep_to_id d) := dep_row d]> m) (db_dependencies db) ds
  ∧ Forall (λ d, is_Some (db_tasks db !! dep_to_id d)) ds.
Proof.
  induction ds as [|d ds IH]; intros db db' H; simpl in H; [injection H as <-; by split_and!|].
  apply bind_Ok in H as (db1 & H1 & H). apply add_dependency_unchecked in H1 as (_ & Hto & ->).
  apply IH in H as (Ht & Hr & Hd & Hall). split_and!; [done..|]. by constructor.
Qed.

Lemma with_optional_receipt_Ok now receipt t db db' :
  match receipt with
  | Some rid => record_mutation_receipt_with_conn now rid t db
  | None => Ok db
  end = Ok db' →
  db_tasks db' = db_tasks db ∧ db_dependencies db' = db_dependencies db
  ∧ db_revisions db' = db_revisions db.
Proof.
  destruct receipt; [intros H; apply record_receipt_Ok in H; tauto|]. by intros [= <-].
Qed.

Lemma create_atomic_Ok clk origin task blocked epic creator receipt db db' :
  create_atomic_with_optional_receipt clk origin task blocked epic creator receipt db = Ok (tt, db') →
  let task := task_with_default_origin origin task in
  let edges := creation_edges (clk 0%nat) (t_id task) blocked (trimmed_nonempty epic) creator in
  validate_epic (trimmed_nonempty epic) db = Ok tt
  ∧ ∃ db1, add_with_conn (clk 1%nat) task creator db = Ok db1
    ∧ ∃ db2, add_dependencies edges db1 = Ok db2
    ∧ db_tasks db' = db_tasks db2 ∧ db_dependencies db' = db_dependencies db2
    ∧ db_revisions db' = db_revisions db2.
Proof.
  unfold create_atomic_with_optional_receipt. intros H. cbv zeta in *.
  apply bind_Ok in H as ([] & Hepic & H). split; [done|].
  apply bind_Ok in H as (db1 & H1 & H). exists db1. split; [done|].
  apply bind_Ok in H as (db2 & H2 & H). exists db2. split; [done|].
  apply bind_Ok in H as (db3 & H3 & [= <-]). by apply with_optional_receipt_Ok in H3.
Qed.

(** Inserting edges of one task: the last edge to a task stays *)
Lemma foldl_edges_lookup (ds : list Dependency) k : ∀ m : gmap (string * string) DepRow,
  foldl (λ m d, <[(dep_from_id d, dep_to_id d) := dep_row d]> m) m ds !! k =
  match last (filter (λ d, (dep_from_id d, dep_to_id d) = k) ds) with
  | Some d => Some (dep_row d)
  | None => m !! k
  end.
Proof.
  induction ds as [|d ds IH] using rev_ind; intros m; [done|].
  rewrite foldl_app, filter_app. cbn [foldl].
  destruct (decide ((dep_from_id d, dep_to_id d) = k)) as [Hk|Hk].
  - rewrite filter_cons_True, filter_nil, last_snoc by done. by rewrite Hk, lookup_insert_eq.
  - rewrite filter_cons_False, filter_nil, app_nil_r, lookup_insert_ne by done. apply IH.
Qed.

Lemma creation_edges_last now id blocked epic creator b :
  last (filter (λ d, (dep_from_id d, dep_to_id d) = (id, b))
         (creation_edges now id blocked epic creator)) =
  if decide (epic = Some b) then Some (mkDependency id b DependencyType_ParentChild now creator)
  else if decide (b ∈ (trim <$> blocked) ∧ b ≠ EmptyString)
  then Some (mkDependency id b DependencyType_Blocks now creator) else None.
Proof.
  unfold creation_edges. rewrite filter_app.
  assert (∀ d, d ∈ filter (λ d, (dep_from_id d, dep_to_id d) = (id, b))
      ((λ blocker, mkDependency id blocker DependencyType_Blocks now creator) <$>
         filter (λ b, str_is_empty b = false) (trim <$> blocked)) ↔
      d = mkDependency id b DependencyType_Blocks now creator ∧ b ∈ (trim <$> blocked) ∧ b ≠ EmptyString)
    as Hmem.
  { intros d. rewrite list_elem_of_filter, list_elem_of_fmap. split.
    - intros (Hk & b' & -> & [Hne Hin]%list_elem_of_filter). simpl in Hk. injection Hk as ->.
      split_and!; [done..|]. by apply String.eqb_neq.
    - intros (-> & Hin & Hne). split; [done|]. exists b. split; [done|].
      apply list_elem_of_filter. split; [by apply String.eqb_neq|done]. }
  set (l := filter _ (_ <$> _)) in *. clearbody l.
  destruct (decide (epic = Some b)) as [->|Hep].
  - rewrite filter_cons_True, filter_nil by done. by rewrite last_snoc.
  - replace (filter _ _) with (@nil Dependency).
    2: { destruct epic as [e|]; [|done]. rewrite filter_cons_False; [done|]. simpl. congruence. }
    rewrite app_nil_r. case_decide as Hb.
    + destruct (last l) as [d|] eqn:Hl; [|apply last_None in Hl as ->].
      * apply last_Some_elem_of, Hmem in Hl. by destruct Hl as [-> _].
      * exfalso. eapply not_elem_of_nil. by apply Hmem.
    + destruct (last l) as [d|] eqn:Hl; [|done].
      apply last_Some_elem_of, Hmem in Hl. tauto.
Qed.

(** Creating a task with its links is all or nothing.  When it succeeds,
    the id was free, the task reads back as given (notes defused, proof targets
    normalized, origin filled in), its epic exists and is an epic and every
    blocker exists; the task has exactly the edges asked for, the epic's edge
    taking precedence when the epic is also named as a blocker, and every edge
    of other pairs is as it was. *)
Theorem create_atomic_spec clk origin task blocked epic creator db db' :
  create_atomic clk origin task blocked epic creator db = Ok (tt, db') →
  let id := t_id task in
  let created := inserted_row (task_with_default_origin origin task) in
  db_tasks db !! id = None
  ∧ get id db' = Ok (task_from_row id created)
  ∧ db_tasks db' = <[id := created]> (db_tasks db)
  ∧ (∀ b, b ∈ trim <$> blocked → b ≠ EmptyString → is_Some (db_tasks db' !! b))
  ∧ (∀ e, trimmed_nonempty epic = Some e →
       ∃ row, db_tasks db !! e = Some row ∧ t_task_type row = TaskType_Epic)
  ∧ ∀ x y, db_dependencies db' !! (x, y) =
      if decide (x = id ∧ trimmed_nonempty epic = Some y)
      then Some (mkDepRow "parent-child" (clk 0%nat) creator)
      else if decide (x = id ∧ y ∈ (trim <$> blocked) ∧ y ≠ EmptyString)
      then Some (mkDepRow "blocks" (clk 0%nat) creator)
      else db_dependencies db !! (x, y).
Proof.
  unfold create_atomic. intros H. apply create_atomic_Ok in H as (Hepic & db1 & H1 & db2 & H2 & Ht & Hd & _).
  cbv zeta. assert (t_id (task_with_default_origin origin task) = t_id task) as Hid.
  { unfold task_with_default_origin. by destruct (t_origin_project task). }
  apply add_with_conn_Ok in H1 as (Hfree & Ht1 & Hd1 & _). rewrite Hid in *.
  apply add_dependencies_Ok in H2 as (Ht2 & _ & Hd2 & Hall).
  assert (db_tasks db' = <[t_id task := inserted_row (task_with_default_origin origin task)]> (db_tasks db))
    as Htasks by congruence.
  split_and!; [done| |done| | |].
  - unfold get. by rewrite Htasks, lookup_insert_eq.
  - intros b Hb Hne. rewrite Forall_forall in Hall.
    specialize (Hall (mkDependency (t_id task) b DependencyType_Blocks (clk 0%nat) creator)).
    rewrite Htasks, <-Ht1. apply Hall. unfold creation_edges. apply elem_of_app. left.
    apply list_elem_of_fmap. exists b. split; [done|]. apply list_elem_of_filter.
    split; [by apply String.eqb_neq|done].
  - intros e He. rewrite He in Hepic. unfold validate_epic in Hepic.
    destruct (db_tasks db !! e) as [row|]; [|done]. exists row. split; [done|].
    by case_bool_decide.
  - intros x y. rewrite Hd, Hd2, foldl_edges_lookup, Hd1.
    destruct (decide (x = t_id task)) as [->|Hx].
    + rewrite creation_edges_last. repeat case_decide; try done; tauto.
    + replace (filter _ _) with (@nil Dependency).
      2: { symmetry. apply elem_of_nil_inv. intros d [Hk Hin]%list_elem_of_filter.
           unfold creation_edges in Hin. injection Hk as <- <-.
           apply elem_of_app in Hin as [Hin|Hin].
           - apply list_elem_of_fmap in Hin as (b & -> & _). done.
           - destruct (trimmed_nonempty epic); [|by apply elem_of_nil in Hin].
             by apply list_elem_of_singleton in Hin as ->. }
      simpl. repeat case_decide; try done; tauto.
Qed.

(** ** Deletion *)

(** What is left of the database after the deletion of a task *)
Definition deleted (id : string) (db db' : Db) : Prop :=
  db_tasks db' = delete id (db_tasks db)
  ∧ (∀ x y, db_dependencies db' !! (x, y) =
       if decide (x = id ∨ y = id) then None else db_dependencies db !! (x, y))
  ∧ db_task_leases db' = delete id (db_task_leases db)
  ∧ db_exec_states db' !! id = None
  ∧ (∀ k, k ≠ id → db_exec_states db' !! k = db_exec_states db !! k)
  ∧ db_revisions db' = db_revisions (bump_revision id false db).

Lemma delete_result clk id db :
  match TaskStore_delete clk id db with
  | Ok (_, db') =>
      is_Some (db_tasks db !! id) ∧ deleted id db db'
      ∧ db_receipts db' = db_receipts db ∧ db_agents db' = db_agents db
      ∧ db_worktree_leases db' = db_worktree_leases db
  | Err e => db_tasks db !! id = None ∧ e = TaskNotFound id
  end.
Proof.
  unfold TaskStore_delete, delete_task_row. cbv zeta.
  match goal with |- context [bump_revision id false (?d <| db_tasks ::= _ |> <| db_exec_states ::= _ |>)] =>
    change (db_tasks d) with (db_tasks db) end.
  destruct (db_tasks db !! id) as [row|]; [|done]. cbn [Nat.eqb fmap option_fmap option_map].
  split; [done|]. split; [|done]. split_and!; try done.
  - intros x y. simpl. rewrite lookup_sql_delete.
    destruct (db_dependencies db !! (x, y)) as [r|]; simpl; [|by case_decide].
    destruct (String.eqb_spec x id), (String.eqb_spec y id); simpl; case_decide; tauto.
  - simpl. by rewrite lookup_delete_eq.
  - intros k Hk. simpl. by rewrite !lookup_delete_ne.
Qed.

(** Deleting a task leaves nothing that refers to it: no dependency on
    either side, no lease and no execution state, while the edges and leases
    of other tasks are untouched.  Its revision goes up once more and is kept,
    marked absent.  Deleting an unknown task fails and changes nothing. *)
Theorem delete_spec clk id db :
  match db_tasks db !! id with
  | None => TaskStore_delete clk id db = Err (TaskNotFound id)
  | Some _ => ∃ db', TaskStore_delete clk id db = Ok (tt, db') ∧ deleted id db db'
  end.
Proof.
  pose proof (delete_result clk id db) as H.
  destruct (TaskStore_delete clk id db) as [[[] db']|e].
  - destruct H as ([row ->] & H & _). by exists db'.
  - by destruct H as [-> ->].
Qed.

End task_store_spec.
