(* ===== verification/TaskProtocol.v ===== *)
(** * The operations of the task store as steps

    Every writing operation of the task store as a step on the database.  What
    an operation is made of ([statements]) reduces a property of all steps to
    the single statements: revision counters track their rows and receipts
    ([run_task_op_tracked]), the dependency graph stays closed and its blocking
    edges acyclic ([run_task_op_graph]), and agents and leases stay what they
    are but for the lease of a deleted task ([run_task_op_leases]). *)

From S2P Require Import Prelude Enums TaskTypes Leases Db LeaseStore NoteMarkers TaskRows Cte TaskGraph TaskStore TaskStoreSpec.

Section task_protocol.
Context {host : Host}.

(** ** Operations *)

(** The writes of [TaskStore] and of the two task statements that other
    transactions share *)
Inductive task_op :=
  | TAdd (task : Task)
  | TAddWithReceipt (task : Task) (receipt_id : string)
  | TCreate (task : Task) (blocked_by : list string) (epic_id created_by receipt_id : option string)
  | TUpdate (task : Task) (receipt_id : string) (expected : option Task) (from_sync : bool)
  | TAppendNote (task_id note receipt_id : string) (trusted : bool)
  | TReopenExact (task : Task) (expected_status : TaskStatus) (expected_updated_at : Z)
  | TClearPendingVerification (task_id : string)
  | TDelete (id : string)
  | TAddDependency (d : Dependency)
  | TRemoveDependency (from_id to_id : string)
  | TRemoveDependencyOfType (from_id to_id : string) (dep_type : DependencyType).

(** A statement list committed as its own transaction *)
Definition as_op (r : result Db) : result (unit * Db) := (λ db, (tt, db)) <$> r.

Definition run_task_op (clk : Clock) (origin_project : option string) (o : task_op) (db : Db) : Db :=
  match o with
  | TAdd task => commit db (add clk origin_project task db)
  | TAddWithReceipt task rid => commit db (add_with_mutation_receipt clk origin_project task rid db)
  | TCreate task blocked_by epic_id created_by rid =>
      commit db (create_atomic_with_optional_receipt clk origin_project task blocked_by epic_id
                   created_by rid db)
  | TUpdate task rid expected from_sync => commit db (update_checked clk task rid expected from_sync db)
  | TAppendNote id note rid trusted => commit db (append_note_inner clk id note rid trusted db)
  | TReopenExact task status stamp => commit db (as_op (reopen_exact_with_conn task status stamp db))
  | TClearPendingVerification id => commit db (as_op (clear_pending_verification_with_conn clk id db))
  | TDelete id => commit db (TaskStore_delete clk id db)
  | TAddDependency d => commit db (add_dependency d db)
  | TRemoveDependency x y => commit db (remove_dependency x y db)
  | TRemoveDependencyOfType x y ty => commit db (remove_dependency_of_type x y ty db)
  end.

(** An operation commits its database or leaves the old one. *)
Lemma commit_step {A} (R : Db → Db → Prop) (db : Db) (r : result (A * Db)) :
  R db db → (∀ a db', r = Ok (a, db') → R db db') → R db (commit db r).
Proof. intros Hrefl H. destruct r as [[a db']|]; [by eapply H|done]. Qed.

Lemma as_op_Ok r u db' : as_op r = Ok (u, db') → r = Ok db'.
Proof. unfold as_op. destruct r; [by intros [= _ <-]|done]. Qed.

(** ** What an operation is made of

    A relation that the single statements establish holds across every
    operation.  Dependencies and deletion are left to the relation; a mutation
    receipt is the last statement of an operation that binds one. *)

Record statements (R : Db → Db → Prop) : Prop := {
  st_refl : Reflexive R;
  st_trans : Transitive R;
  st_insert row db db' : insert_task row db = Ok db' → R db db';
  st_update id P f db : R db (update_task id P f db).1;
  st_event now et ent id summary md session db :
    R db (record_event now et ent id summary md session db);
}.

(** The statements, and then possibly one receipt *)
Definition then_receipt (R : Db → Db → Prop) (db db' : Db) : Prop :=
  ∃ db1, R db db1 ∧
    (db' = db1 ∨ ∃ now rid t, record_mutation_receipt_with_conn now rid t db1 = Ok db').

Section operations.
Context (R : Db → Db → Prop) (HR : statements R).

Lemma then_R db db' : R db db' → then_receipt R db db'.
Proof. exists db'. by split; [|left]. Qed.

Lemma then_refl db : then_receipt R db db.
Proof. apply then_R, (st_refl R HR). Qed.

Lemma with_receipt_then now rid t db db1 db' :
  R db db1 → with_receipt now rid t db1 = Ok db' → then_receipt R db db'.
Proof.
  intros H. exists db1. split; [done|]. unfold with_receipt in *.
  destruct (str_is_empty rid); [left; congruence|right; by eauto].
Qed.

Lemma add_with_conn_R now task s db db' : add_with_conn now task s db = Ok db' → R db db'.
Proof.
  unfold add_with_conn. intros H. apply bind_Ok in H as (db1 & H & [= <-]).
  apply (st_trans R HR) with db1; [by eapply (st_insert R HR)|apply (st_event R HR)].
Qed.

Lemma row_write_then now now' f id rid db (s : Z) db' :
  (let '(db1, rows) := update_task id (λ _, true) f db in
   if (rows =? 0)%nat then Err (TaskNotFound id)
   else db2 ← with_receipt now' rid id db1; Ok (now, db2)) = Ok (s, db') → then_receipt R db db'.
Proof.
  pose proof (st_update R HR id (λ _, true) f db) as Hu.
  destruct (update_task _ _ _ _) as [db1 rows]. cbn [fst] in *.
  destruct (rows =? 0)%nat; [done|]. intros H. apply bind_Ok in H as (db2 & H & [= _ <-]).
  by eapply with_receipt_then.
Qed.

Lemma append_note_then clk id note rid trusted db s db' :
  append_note_inner clk id note rid trusted db = Ok (s, db') → then_receipt R db db'.
Proof.
  unfold append_note_inner. destruct trusted; [|by apply row_write_then].
  destruct (db_tasks db !! id) as [cur|]; [|done]. cbv zeta.
  match goal with |- (if ?c then _ else _) = _ → _ => destruct c end.
  - intros H. apply bind_Ok in H as (db2 & H & [= _ <-]).
    eapply with_receipt_then; [apply (st_refl R HR)|exact H].
  - destruct (trusted_replacement _ _); by apply row_write_then.
Qed.

Lemma write_update_then clk now task rid db s db' :
  write_update clk now task rid db = Ok (s, db') → then_receipt R db db'.
Proof.
  unfold write_update. set (f := updated_task_row _ _ _ _ _).
  pose proof (st_update R HR (t_id task) (λ _, true) f db) as Hu.
  destruct (update_task _ _ _ _) as [db1 rows]. cbn [fst] in *.
  destruct (rows =? 0)%nat; [done|]. intros H. apply bind_Ok in H as (db2 & H & [= _ <-]).
  eapply with_receipt_then; [|exact H].
  destruct (prev_status task db); [destruct (status_event task)|done].
  apply (st_trans R HR) with db1; [done|apply (st_event R HR)].
Qed.

Lemma reopen_R task status stamp db db' :
  reopen_exact_with_conn task status stamp db = Ok db' → R db db'.
Proof.
  unfold reopen_exact_with_conn. set (P := λ row, _). set (f := updated_task_row _ _ _ _ _).
  pose proof (st_update R HR (t_id task) P f db) as Hu.
  destruct (update_task _ _ _ _) as [db1 rows]. destruct (rows =? 1)%nat; [|done]. by intros [= <-].
Qed.

Lemma clear_pending_R clk id db db' :
  clear_pending_verification_with_conn clk id db = Ok db' → R db db'.
Proof.
  unfold clear_pending_verification_with_conn. set (f := λ t, _).
  pose proof (st_update R HR id t_pending_verification f db) as Hu.
  destruct (update_task _ _ _ _) as [db1 rows]. intros H.
  assert (db1 = db') as <-; [|done].
  destruct (rows =? 0)%nat; [apply bind_Ok in H as ([] & _ & H)|]; by injection H.
Qed.

(** The operations that write rows only *)
Definition row_op (o : task_op) : bool :=
  match o with
  | TAdd _ | TAddWithReceipt _ _ | TUpdate _ _ _ _ | TAppendNote _ _ _ _ | TReopenExact _ _ _
  | TClearPendingVerification _ => true
  | _ => false
  end.

Lemma row_op_then clk origin o db :
  row_op o = true → then_receipt R db (run_task_op clk origin o db).
Proof.
  intros Ho. destruct o as [task|task rid| |task rid ex sync|id note rid tr|task st stamp|id| | | |];
    try done; cbn [run_task_op]; apply commit_step; try apply then_refl; intros u db' H.
  - unfold add in H. apply bind_Ok in H as (db1 & H & [= _ <-]). by eapply then_R, add_with_conn_R.
  - unfold add_with_mutation_receipt in H. apply bind_Ok in H as (db1 & H & H').
    apply bind_Ok in H' as (db2 & H' & [= _ <-]). exists db1.
    split; [by eapply add_with_conn_R|right; by eauto].
  - apply update_checked_Ok in H as [[-> ->]|(now & -> & H & _)]; [apply then_refl|].
    by eapply write_update_then.
  - by eapply append_note_then.
  - apply as_op_Ok in H. by eapply then_R, reopen_R.
  - apply as_op_Ok in H. by eapply then_R, clear_pending_R.
Qed.

(** Creation and the writes of edges, for a relation that allows new edges *)
Context (Hedge : ∀ d db, R db (put_dependency d db)).

Lemma add_dependencies_R ds : ∀ db db', add_dependencies ds db = Ok db' → R db db'.
Proof.
  induction ds as [|d ds IH]; intros db db' H; simpl in H.
  - injection H as <-. apply (st_refl R HR).
  - apply bind_Ok in H as (db1 & H1 & H). apply add_dependency_unchecked in H1 as (_ & _ & ->).
    apply (st_trans R HR) with (put_dependency d db); [done|by apply IH].
Qed.

Lemma create_then clk origin task blocked epic creator rid db u db' :
  create_atomic_with_optional_receipt clk origin task blocked epic creator rid db = Ok (u, db') →
  then_receipt R db db'.
Proof.
  unfold create_atomic_with_optional_receipt. cbv zeta. intros H.
  apply bind_Ok in H as ([] & _ & H). apply bind_Ok in H as (db1 & H1 & H).
  apply bind_Ok in H as (db2 & H2 & H). apply bind_Ok in H as (db3 & H3 & [= _ <-]).
  exists db2. split.
  - apply (st_trans R HR) with db1; [by eapply add_with_conn_R|by eapply add_dependencies_R].
  - destruct rid; [right; by eauto|left; congruence].
Qed.

Lemma add_dependency_R d db u db' : add_dependency d db = Ok (u, db') → R db db'.
Proof.
  unfold add_dependency. intros H. apply bind_Ok in H as (db1 & H & [= _ <-]).
  unfold add_dependency_with_conn in H. apply bind_Ok in H as ([] & _ & [= <-]). done.
Qed.

End operations.

(** ** Revisions *)

(** The revision counter of a task id; an id that never existed has none. *)
Definition rev_of (db : Db) (id : string) : Z := from_option rv_revision 0 (db_revisions db !! id).

(** Counters never go down, and a row changes only with its counter. *)
Definition rows_tracked (db db' : Db) : Prop :=
  ∀ id, rev_of db id ≤ rev_of db' id
        ∧ (rev_of db' id = rev_of db id → db_tasks db' !! id = db_tasks db !! id).

Lemma rows_tracked_refl db : rows_tracked db db.
Proof. intros id. split; [lia|done]. Qed.

Lemma rows_tracked_trans db1 db2 db3 :
  rows_tracked db1 db2 → rows_tracked db2 db3 → rows_tracked db1 db3.
Proof.
  intros H1 H2 id. destruct (H1 id) as [L1 E1], (H2 id) as [L2 E2]. split; [lia|].
  intros E. rewrite E2, E1 by lia. done.
Qed.

Lemma rows_tracked_same db db' :
  db_tasks db' = db_tasks db → db_revisions db' = db_revisions db → rows_tracked db db'.
Proof. intros Ht Hr id. unfold rev_of. rewrite Ht, Hr. split; [lia|done]. Qed.

(** A write of one row with its trigger *)
Lemma rows_tracked_bump db db' id present :
  (∀ k, k ≠ id → db_tasks db' !! k = db_tasks db !! k) →
  db_revisions db' = db_revisions (bump_revision id present db) → rows_tracked db db'.
Proof.
  intros Ht Hr k. unfold rev_of. rewrite Hr. unfold bump_revision. simpl.
  destruct (decide (k = id)) as [->|Hk].
  - rewrite lookup_partial_alter_eq. simpl. destruct (db_revisions db !! id); simpl; lia.
  - rewrite lookup_partial_alter_ne by done. split; [lia|]. intros _. by apply Ht.
Qed.

(** What an operation does to rows, counters and receipts: it may write rows
    with their counters, and then one new receipt of the resulting counter. *)
Definition task_step (db db' : Db) : Prop :=
  rows_tracked db db' ∧
  (db_receipts db' = db_receipts db
   ∨ ∃ rid t now, db_receipts db !! rid = None
       ∧ db_receipts db' = <[rid := mkReceiptRow t (rev_of db' t) now]> (db_receipts db)).

Lemma task_step_refl db : task_step db db.
Proof. split; [apply rows_tracked_refl|by left]. Qed.

Lemma task_step_silent db db' :
  rows_tracked db db' → db_receipts db' = db_receipts db → task_step db db'.
Proof. intros H E. split; [done|by left]. Qed.

(** The statements write rows with their counters and no receipt. *)
Definition rows_only (db db' : Db) : Prop :=
  rows_tracked db db' ∧ db_receipts db' = db_receipts db.

Lemma rows_only_statements : statements rows_only.
Proof.
  split.
  - intros db. split; [apply rows_tracked_refl|done].
  - intros db1 db2 db3 [H1 E1] [H2 E2]. split; [by eapply rows_tracked_trans|congruence].
  - intros row db db'. unfold insert_task. destruct (db_tasks db !! t_id row); [done|].
    intros [= <-]. split; [|done]. apply (rows_tracked_bump _ _ (t_id row) true); [|done].
    intros k Hk. simpl. by rewrite lookup_insert_ne.
  - intros id P f db. unfold update_task. destruct (db_tasks db !! id) as [row|]; [destruct (P row)|];
      (split; [|done]); try apply rows_tracked_refl.
    apply (rows_tracked_bump _ _ id true); [|done]. intros k Hk. simpl. by rewrite lookup_insert_ne.
  - intros. split; [by apply rows_tracked_same|done].
Qed.

Lemma put_dependency_rows_only d db : rows_only db (put_dependency d db).
Proof. split; [by apply rows_tracked_same|done]. Qed.

Lemma then_receipt_step db db' : then_receipt rows_only db db' → task_step db db'.
Proof.
  intros (db1 & [Ht Hr] & [->|(now & rid & t & H)]); [split; [done|by left]|].
  apply record_receipt_Ok in H as (Et & _ & Ev & _ & r & Hrev & Hnone & E). split.
  - eapply rows_tracked_trans; [exact Ht|by apply rows_tracked_same].
  - right. exists rid, t, now. rewrite <-Hr. split; [done|]. rewrite E. unfold rev_of.
    by rewrite Ev, Hrev.
Qed.

Lemma run_task_op_tracked clk origin o db : task_step db (run_task_op clk origin o db).
Proof.
  pose proof rows_only_statements as HR.
  destruct (row_op o) eqn:Hrow; [by apply then_receipt_step, row_op_then|].
  destruct o as [| |task bs e c rid| | | | |id|d|x y|x y ty]; try done; cbn [run_task_op];
    apply commit_step; try apply task_step_refl; intros u db' H.
  - eapply then_receipt_step, create_then; [done|exact put_dependency_rows_only|exact H].
  - pose proof (delete_result clk id db) as Hs. rewrite H in Hs. destruct u.
    destruct Hs as (_ & (Ht & _ & _ & _ & _ & Hr) & E & _). split; [|by left].
    apply (rows_tracked_bump _ _ id false); [|done]. intros k Hk. by rewrite Ht, lookup_delete_ne.
  - apply then_receipt_step, then_R.
    eapply add_dependency_R; [exact put_dependency_rows_only|exact H].
  - injection H as _ <-. split; [by apply rows_tracked_same|by left].
  - injection H as _ <-. split; [by apply rows_tracked_same|by left].
Qed.

(** ** The dependency graph *)

(** A step that keeps the tasks and adds no edge *)
Lemma graph_wf_shrink db db' :
  (∀ x, is_Some (db_tasks db !! x) → is_Some (db_tasks db' !! x)) →
  (∀ k r, db_dependencies db' !! k = Some r → db_dependencies db !! k = Some r) →
  graph_wf db → graph_wf db'.
Proof.
  intros Ht Hd [Hc Ha]. split.
  - intros x y r Hr. destruct (Hc x y r (Hd _ _ Hr)). split; by apply Ht.
  - eapply acyclic_subgraph; [|exact Ha]. intros x y (r & Hr & Hty). exists r. split; [|done].
    by apply Hd.
Qed.

Lemma graph_wf_same_deps db db' :
  (∀ x, is_Some (db_tasks db !! x) → is_Some (db_tasks db' !! x)) →
  db_dependencies db' = db_dependencies db → graph_wf db → graph_wf db'.
Proof. intros Ht E. apply graph_wf_shrink; [done|]. intros k r. by rewrite E. Qed.

Lemma alter_is_Some (f : Task → Task) i (m : gmap string Task) x :
  is_Some (m !! x) → is_Some (alter f i m !! x).
Proof. intros H. destruct (decide (i = x)) as [->|]; [rewrite lookup_alter_eq|rewrite lookup_alter_ne by done]; [by apply fmap_is_Some|done]. Qed.

Lemma insert_is_Some (t : Task) i (m : gmap string Task) x :
  is_Some (m !! x) → is_Some (<[i := t]> m !! x).
Proof. intros H. destruct (decide (i = x)) as [->|]; [rewrite lookup_insert_eq|rewrite lookup_insert_ne by done]; by eauto. Qed.

Definition keeps_graph (db db' : Db) : Prop := graph_wf db → graph_wf db'.

Lemma keeps_graph_statements : statements keeps_graph.
Proof.
  split.
  - by intros db H.
  - intros db1 db2 db3 H1 H2 H. by apply H2, H1.
  - intros row db db' H Hwf. apply insert_task_Ok in H as (_ & Ht & _ & _ & Hd & _).
    apply (graph_wf_same_deps db); [|done..]. intros x Hx. rewrite Ht. by apply insert_is_Some.
  - intros id P f db Hwf. destruct (update_task_spec id P f db) as (Ht & Hs & _).
    apply (graph_wf_same_deps db); [|apply Hs|done]. intros x Hx. rewrite Ht. by apply alter_is_Some.
  - intros now et ent id summary md session db Hwf. by apply (graph_wf_same_deps db).
Qed.

Lemma then_receipt_graph db db' : then_receipt keeps_graph db db' → keeps_graph db db'.
Proof.
  intros (db1 & H & [->|(now & rid & t & Hr)]) Hwf; [by apply H|].
  apply record_receipt_Ok in Hr as (Ht & Hd & _).
  apply (graph_wf_same_deps db1); [by rewrite Ht|done|by apply H].
Qed.

(** Edges out of a task that nothing points to close no cycle. *)
Lemma add_dependencies_graph id ds : ∀ db db',
  graph_wf db → (∀ x, db_dependencies db !! (x, id) = None) →
  Forall (λ d, dep_from_id d = id ∧ dep_to_id d ≠ id) ds →
  add_dependencies ds db = Ok db' → graph_wf db'.
Proof.
  induction ds as [|d ds IH]; intros db db' Hwf Hin Hall H; simpl in H; [by injection H as <-|].
  apply Forall_cons in Hall as [[Hf Hne] Hall]. apply bind_Ok in H as (db1 & H1 & H).
  apply add_dependency_unchecked in H1 as (Hsf & Hst & ->).
  eapply IH; [| |exact Hall|exact H].
  - destruct Hwf as [Hc Ha]. split; [by apply deps_closed_put|].
    refine (acyclic_add_edge _ _ id (dep_to_id d) _ Ha _).
    + intros x y [?|(-> & -> & _)]%put_dependency_edges; by auto.
    + intros Hrtc. apply rtc_inv_r in Hrtc as [E|(z & _ & (r & Hr & _))]; [done|]. by rewrite Hin in Hr.
  - intros x. unfold put_dependency. simpl. rewrite lookup_insert_ne; [apply Hin|]. congruence.
Qed.

(** A new task does not block on its own id. *)
Definition admissible (o : task_op) : Prop :=
  match o with TCreate task blocked_by _ _ _ => t_id task ∉ trim <$> blocked_by | _ => True end.

Lemma create_graph clk origin task blocked epic creator rid db db' :
  t_id task ∉ trim <$> blocked →
  create_atomic_with_optional_receipt clk origin task blocked epic creator rid db = Ok (tt, db') →
  graph_wf db → graph_wf db'.
Proof.
  intros Hself H [Hc Ha]. apply create_atomic_Ok in H as (Hepic & db1 & H1 & db2 & H2 & Ht & Hd & _).
  assert (t_id (task_with_default_origin origin task) = t_id task) as Hid.
  { unfold task_with_default_origin. by destruct (t_origin_project task). }
  apply add_with_conn_Ok in H1 as (Hfree & Ht1 & Hd1 & _). rewrite Hid in *.
  assert (graph_wf db1) as Hwf1.
  { apply (graph_wf_same_deps db); [|done|by split]. intros x Hx. rewrite Ht1. by apply insert_is_Some. }
  apply (graph_wf_same_deps db2); [by rewrite Ht|done|].
  eapply (add_dependencies_graph (t_id task)); [exact Hwf1| | |exact H2].
  - intros x. rewrite Hd1. apply eq_None_not_Some. intros [r Hr].
    destruct (Hc _ _ _ Hr) as [_ [? E]]. congruence.
  - apply Forall_forall. intros d Hin. unfold creation_edges in Hin.
    apply elem_of_app in Hin as [Hin|Hin].
    + apply list_elem_of_fmap in Hin as (b & -> & [_ Hb]%list_elem_of_filter). split; [done|].
      simpl. intros ->. done.
    + destruct (trimmed_nonempty epic) as [e|]; [|by apply elem_of_nil in Hin].
      apply list_elem_of_singleton in Hin as ->. split; [done|]. simpl. intros ->.
      simpl in Hepic. by rewrite Hfree in Hepic.
Qed.

Lemma delete_graph clk id db db' :
  TaskStore_delete clk id db = Ok (tt, db') → graph_wf db → graph_wf db'.
Proof.
  intros H [Hc Ha]. pose proof (delete_result clk id db) as Hs. rewrite H in Hs.
  destruct Hs as (_ & (Ht & Hd & _) & _).
  split.
  - intros x y r. rewrite Hd. case_decide as Hxy; [done|]. intros Hr.
    destruct (Hc x y r Hr). rewrite Ht. split; rewrite lookup_delete_ne; naive_solver.
  - eapply acyclic_subgraph; [|exact Ha]. intros x y (r & Hr & Hty). exists r. split; [|done].
    rewrite Hd in Hr. by case_decide.
Qed.

Lemma run_task_op_graph clk origin o db :
  admissible o → graph_wf db → graph_wf (run_task_op clk origin o db).
Proof.
  intros Hadm Hwf. destruct (row_op o) eqn:Hrow.
  { apply (then_receipt_graph db); [|done].
    apply row_op_then; [apply keeps_graph_statements|done]. }
  destruct o as [| |task bs e c rid| | | | |id|d|x y|x y ty]; try done; cbn [run_task_op];
    apply (commit_step (λ _ d, graph_wf d)); try exact Hwf; intros u db' H.
  - destruct u. by eapply create_graph.
  - destruct u. by eapply delete_graph.
  - destruct u. by eapply add_dependency_wf.
  - injection H as _ <-. revert Hwf. apply graph_wf_shrink; [done|].
    intros k r Hr. simpl in Hr. by apply lookup_delete_Some in Hr as [_ ?].
  - injection H as _ <-. revert Hwf. apply graph_wf_shrink; [done|].
    intros k r Hr. simpl in Hr. rewrite lookup_sql_delete in Hr.
    destruct (db_dependencies db !! k); [|done]. simpl in Hr. by case_match.
Qed.

(** Blocking edges of a well-formed graph can only be followed finitely often. *)
Lemma blocks_sn db x : graph_wf db → sn (dep_edge "blocks" db) x.
Proof.
  intros [_ Ha]. apply tc_finite_sn; [intros y; apply Ha|]. exists (column snd db).
  intros y (z & _ & H)%tc_last. by apply edge_in_columns in H as [_ ?].
Qed.

(** From an open task, a chain of open blockers ends in one that nothing open blocks. *)
Lemma open_root db x :
  graph_wf db → open_task db x →
  ∃ root, rtc (dep_edge "blocks" db) x root ∧ open_task db root
    ∧ open_target "blocks" db root = false.
Proof.
  intros Hwf. induction (blocks_sn db x Hwf) as [x _ IH]. intros Hx.
  destruct (open_target "blocks" db x) eqn:E; [|by exists x].
  apply open_target_true in E as (b & Hb & Ho). destruct (IH b Hb Ho) as (root & Hr & ?).
  exists root. split; [by eapply rtc_l|done].
Qed.

(** ** Leases and agents *)

(** What the agent store, the QA gate and the reviews keep in the database *)
Definition lease_view (db : Db) := (db_agents db, db_task_leases db, db_worktree_leases db, db_qa_passes db, db_delivery db,
   db_verification db).
Definition same_leases (db db' : Db) : Prop := lease_view db' = lease_view db.

Lemma same_leases_statements : statements same_leases.
Proof.
  split.
  - by intros db.
  - unfold same_leases. intros db1 db2 db3. congruence.
  - intros row db db'. unfold insert_task. destruct (db_tasks db !! t_id row); [done|].
    by intros [= <-].
  - intros id P f db. unfold update_task.
    destruct (db_tasks db !! id) as [row|]; [destruct (P row)|]; done.
  - done.
Qed.

Lemma then_receipt_leases db db' : then_receipt same_leases db db' → same_leases db db'.
Proof.
  intros (db1 & H & [->|(now & rid & t & Hr)]); [done|]. revert Hr.
  unfold record_mutation_receipt_with_conn. destruct (db_revisions db1 !! t) as [r|]; [|done].
  destruct (rv_present r); [|done]. destruct (db_receipts db1 !! rid); [done|]. by intros [= <-].
Qed.

(** The task whose lease row an operation removes *)
Definition deletes_task (o : task_op) : option string :=
  match o with TDelete id => Some id | _ => None end.

Lemma run_task_op_same clk origin o db :
  deletes_task o = None → same_leases db (run_task_op clk origin o db).
Proof.
  intros Hdel. pose proof same_leases_statements as HR.
  destruct (row_op o) eqn:Hrow; [by apply then_receipt_leases, row_op_then|].
  destruct o as [| |task bs e c rid| | | | | |d|x y|x y ty]; try done;
    cbn [run_task_op]; (apply commit_step; [done|]); intros u db' H.
  - by eapply then_receipt_leases, create_then.
  - by eapply add_dependency_R.
Qed.

(** No task operation writes an agent or a lease, but a deletion removes the
    lease row of its task. *)
Lemma run_task_op_leases clk origin o db :
  let db' := run_task_op clk origin o db in
  db_agents db' = db_agents db ∧ db_worktree_leases db' = db_worktree_leases db
  ∧ ∀ t, db_task_leases db' !! t = db_task_leases db !! t
         ∨ deletes_task o = Some t ∧ db_task_leases db' !! t = None.
Proof.
  cbv zeta. destruct (deletes_task o) as [id|] eqn:Hdel.
  2:{ pose proof (run_task_op_same clk origin o db Hdel) as [= -> -> -> _ _ _]. by auto. }
  destruct o as [| | | | | | |id0| | |]; try done. injection Hdel as ->. cbn [run_task_op].
  destruct (TaskStore_delete clk id db) as [[[] db']|] eqn:E; [|by auto]. cbn [commit].
  pose proof (delete_result clk id db) as Hs. rewrite E in Hs.
  destruct Hs as (_ & (_ & _ & Hl & _) & _ & Ha & Hw). split_and!; [done..|].
  intros t. rewrite Hl. destruct (decide (t = id)) as [->|]; [right; by rewrite lookup_delete_eq|].
  left. by rewrite lookup_delete_ne.
Qed.

(** No task operation writes a QA round, a delivery or a verdict. *)
Definition review_view (db : Db) := (db_qa_passes db, db_delivery db, db_verification db).
Lemma run_task_op_reviews clk origin o db :
  review_view (run_task_op clk origin o db) = review_view db.
Proof.
  destruct (deletes_task o) as [id|] eqn:Hdel.
  2:{ unfold review_view. by pose proof (run_task_op_same clk origin o db Hdel) as [= _ _ _ -> -> ->]. }
  destruct o as [| | | | | | |id0| | |]; try done. cbn [run_task_op].
  apply (commit_step (λ d d', review_view d' = review_view d)); [done|]. intros u db'.
  unfold TaskStore_delete, delete_task_row. simpl.
  destruct (db_tasks db !! id0) as [t|]; simpl; [|done]. by intros [= _ <-].
Qed.

Lemma run_task_op_rounds clk origin o db :
  db_qa_passes (run_task_op clk origin o db) = db_qa_passes db.
Proof. by pose proof (run_task_op_reviews clk origin o db) as [= -> _ _]. Qed.

End task_protocol.
