(* ===== verification/LeaseProtocol.v ===== *)
(** * The lease protocol: every operation of the stores as one step

    The operations on agents and task leases, and those of the task store
    (which delete a task with its lease), as a labelled transition system over
    the database, the effect of a step on one lease ([row_change]), and
    what follows for every execution: well-formedness, fencing epochs that
    only grow, mutual exclusion, and the refinement of an abstract lock.
    Connections serialize on SQLite's write lock, so an execution is a
    sequence of steps, each with its own clock. *)

From S2P Require Import Prelude Enums TaskTypes Db Leases LeaseStore WorktreeLeases Agents Continuity AgentStore Coordination QaPasses QaPassSpec TaskStore TaskProtocol.

Section lease_protocol.
Context {host : Host}.

(** ** Steps *)
Inductive op :=
  | OpClaim (task_id agent_id : string) (duration_secs : Z) (reason : option string)
  | OpRelease (task_id agent_id : string)
  | OpReleaseForTask (task_id reason : string)
  | OpReleaseIfOwnerEpoch (task_id agent_id : string) (epoch : Z) (reason : string)
  | OpRenew (task_id agent_id : string) (duration_secs : Z)
  | OpReclaim
  | OpCleanupHistory (older_than_days : Z)
  | OpHeartbeat (agent_id : string)
  | OpMarkStale (agent_id : string)
  | OpRevive (agent_id : string)
  | OpShutdown (agent_id : string)
  | OpRegister (agent : Agent)
  | OpUpdate (agent : Agent)
  | OpUnregister (agent_id : string)
  | OpClaimWorktree (worktree_id agent_id : string) (duration_secs : Z)
  | OpReleaseWorktree (worktree_id agent_id : string)
  | OpRenewWorktree (worktree_id agent_id : string) (duration_secs : Z)
  | OpReclaimWorktrees
  | OpTask (origin_project : option string) (o : task_op)
  | OpQa (o : qa_op).

(** The database after an operation; a failed one is rolled back. *)
Definition run_op (clk : Clock) (o : op) (db : Db) : Db :=
  match o with
  | OpClaim t a dur reason => commit db (lease_try_claim clk t a dur reason db)
  | OpRelease t a => commit db (lease_release_lease clk t a db)
  | OpReleaseForTask t reason => commit db (lease_release_lease_for_task clk t reason db)
  | OpReleaseIfOwnerEpoch t a e reason =>
      commit db (lease_release_lease_if_owner_epoch clk t a e reason db)
  | OpRenew t a dur => commit db (lease_renew_lease clk t a dur db)
  | OpReclaim => commit db (lease_reclaim_expired_leases clk db)
  | OpCleanupHistory days => commit db (lease_cleanup_lease_history clk days db)
  | OpHeartbeat a => commit db (agent_heartbeat clk a db)
  | OpMarkStale a => commit db (agent_mark_stale clk a db)
  | OpRevive a => commit db (agent_revive clk a db)
  | OpShutdown a => commit db (coord_graceful_shutdown clk a db)
  | OpRegister agent => commit db (agent_register clk agent db)
  | OpUpdate agent => commit db (agent_update agent db)
  | OpUnregister a => commit db (agent_unregister clk a db)
  | OpClaimWorktree w a dur => commit db (worktree_try_claim_worktree clk w a dur db)
  | OpReleaseWorktree w a => commit db (worktree_release_worktree_lease w a db)
  | OpRenewWorktree w a dur => commit db (worktree_renew_worktree_lease clk w a dur db)
  | OpReclaimWorktrees => commit db (worktree_reclaim_expired_worktree_leases clk db)
  | OpTask origin o => run_task_op clk origin o db
  | OpQa o => run_qa_op (clk 0%nat) o db
  end.

Definition trace := list (Clock * op).

Definition run (tr : trace) (db : Db) : Db := foldl (λ db s, run_op s.1 s.2 db) db tr.

(** ** The effect of a step on one lease *)

(** The operations that remove the lease row [r] of the task [t]: the retirement
    of the holder and the deletion of the task *)
Definition deletes_lease (o : op) (t : string) (r : LeaseRow) : Prop :=
  match o with
  | OpUnregister a => a = l_agent_id r
  | OpTask _ o => deletes_task o = Some t
  | _ => False
  end.

(** The operations that give up a lease row held by [l_agent_id r] *)
Definition ends_lease (now : Z) (o : op) (t : string) (r : LeaseRow) : Prop :=
  match o with
  | OpRelease t' a => t' = t ∧ a = l_agent_id r
  | OpReleaseForTask t' _ => t' = t
  | OpReleaseIfOwnerEpoch t' a e _ => t' = t ∧ a = l_agent_id r ∧ l_epoch r = as_i64 e
  | OpReclaim => l_expires_at r < now
  | OpMarkStale a | OpShutdown a | OpUnregister a => a = l_agent_id r
  | OpTask _ o => deletes_task o = Some t
  | _ => False
  end.

Lemma deletes_lease_ends now o t r : deletes_lease o t r → ends_lease now o t r.
Proof. by destruct o. Qed.

Inductive row_change (clk : Clock) (o : op) (db : Db) (t : string)
    : option LeaseRow → option LeaseRow → Prop :=
  | rc_same r : row_change clk o db t r r
  | rc_claim old a dur reason :
      o = OpClaim t a dur reason →
      claimable db (clk 0%nat) t a = true → agent_exists db a = true →
      row_change clk o db t old
        (Some (claim_row a (clk 0%nat) (clk 0%nat + duration_seconds dur)
                 (as_i64 (next_epoch db t)) reason))
  | rc_renew r dur :
      o = OpRenew t (l_agent_id r) dur ∨ o = OpHeartbeat (l_agent_id r) ∧ dur = 600 →
      lease_active r = true →
      row_change clk o db t (Some r)
        (Some (renew_row (clk 0%nat + duration_seconds dur) (clk 0%nat) r))
  | rc_end r s :
      ends_lease (clk 0%nat) o t r → s ≠ "active" →
      row_change clk o db t (Some r) (Some (set_status s r))
  | rc_delete r :
      deletes_lease o t r → row_change clk o db t (Some r) None.

(** A table whose rows a condition rewrites *)
Lemma row_change_fmap clk o db t (P : LeaseRow → bool) (f : LeaseRow → LeaseRow) :
  (∀ r, db_task_leases db !! t = Some r → P r = true →
     row_change clk o db t (Some r) (Some (f r))) →
  row_change clk o db t (db_task_leases db !! t)
    ((λ r, if P r then f r else r) <$> db_task_leases db !! t).
Proof.
  intros HP. destruct (db_task_leases db !! t) as [r|]; simpl; [|by constructor].
  destruct (P r) eqn:E; [by apply HP|by constructor].
Qed.

Lemma row_change_eq clk o db db' t :
  db_task_leases db' = db_task_leases db →
  row_change clk o db t (db_task_leases db !! t) (db_task_leases db' !! t).
Proof. intros ->. constructor. Qed.

(** A row other than that of the operation's own task *)
Lemma row_change_one clk o db leases' t t' f r :
  leases' = <[t' := f r]> (db_task_leases db) → db_task_leases db !! t' = Some r →
  (t = t' → row_change clk o db t (Some r) (Some (f r))) →
  row_change clk o db t (db_task_leases db !! t) (leases' !! t).
Proof.
  intros -> Hr Hf. destruct (decide (t = t')) as [->|].
  - rewrite lookup_insert_eq, Hr. by apply Hf.
  - rewrite lookup_insert_ne by done. constructor.
Qed.

Lemma claim_row_change clk t' a dur reason db t :
  row_change clk (OpClaim t' a dur reason) db t (db_task_leases db !! t)
    (db_task_leases (run_op clk (OpClaim t' a dur reason) db) !! t).
Proof.
  cbn [run_op]. pose proof (try_claim_post clk t' a dur reason db) as Hs. unfold claim_post in Hs.
  destruct (claimable db (clk 0%nat) t' a) eqn:Hc; [destruct (agent_exists db a) eqn:He|].
  - destruct Hs as (lease & db' & -> & _ & Hl & _). simpl. rewrite Hl.
    destruct (decide (t = t')) as [->|]; [|rewrite lookup_insert_ne by done; constructor].
    rewrite lookup_insert_eq. by econstructor.
  - rewrite Hs. by constructor.
  - destruct Hs as (row & _ & _ & _ & ->). by constructor.
Qed.

Lemma release_row_change clk t' a db t :
  row_change clk (OpRelease t' a) db t (db_task_leases db !! t)
    (db_task_leases (run_op clk (OpRelease t' a) db) !! t).
Proof.
  cbn [run_op]. unfold lease_release_lease, active_lease_info.
  destruct (db_task_leases db !! t') as [r|] eqn:Hr; simpl; [|constructor].
  destruct (lease_active r); simpl; [|constructor].
  destruct (String.eqb_spec (l_agent_id r) a) as [Ha|]; simpl; [|constructor].
  eapply (row_change_one _ _ _ _ _ t' (set_status "released") r); [|done|].
  - rewrite (sql_update_one t') by apply by_task_key. unfold by_task.
    by rewrite Hr, String.eqb_refl.
  - intros ->. by apply rc_end.
Qed.

Lemma release_for_task_row_change clk t' reason db t :
  row_change clk (OpReleaseForTask t' reason) db t (db_task_leases db !! t)
    (db_task_leases (run_op clk (OpReleaseForTask t' reason) db) !! t).
Proof.
  cbn [run_op]. unfold lease_release_lease_for_task, active_lease_info.
  destruct (db_task_leases db !! t') as [r|] eqn:Hr; simpl; [|constructor].
  destruct (lease_active r); simpl; [|constructor].
  eapply (row_change_one _ _ _ _ _ t' (set_status "released") r); [|done|].
  - rewrite (sql_update_one t') by apply by_task_key. unfold by_task.
    by rewrite Hr, String.eqb_refl.
  - intros ->. by apply rc_end.
Qed.

Lemma release_exact_row_change clk t' a e reason db t :
  row_change clk (OpReleaseIfOwnerEpoch t' a e reason) db t (db_task_leases db !! t)
    (db_task_leases (run_op clk (OpReleaseIfOwnerEpoch t' a e reason) db) !! t).
Proof.
  cbn [run_op]. pose proof (release_if_owner_epoch_post clk t' a e reason db) as Hs.
  unfold fenced_release_post in Hs.
  destruct (db_task_leases db !! t') as [r|] eqn:Hr; [|rewrite Hs; constructor].
  destruct (exact_lease t' a e t' r) eqn:Hex; [|rewrite Hs; constructor].
  destruct Hs as (db' & -> & Hl & _). simpl. eapply row_change_one; [exact Hl|done|].
  intros ->. apply rc_end; [|done]. unfold exact_lease in Hex. bool_to_prop. done.
Qed.

Lemma renew_row_change clk t' a dur db t :
  epochs_ok db →
  row_change clk (OpRenew t' a dur) db t (db_task_leases db !! t)
    (db_task_leases (run_op clk (OpRenew t' a dur) db) !! t).
Proof.
  intros Hep. cbn [run_op]. pose proof (renew_lease_post clk t' a dur db) as Hs. unfold renew_post in Hs.
  destruct (db_task_leases db !! t') as [r|] eqn:Hr.
  2:{ destruct Hs as [msg ->]; [done|constructor]. }
  specialize (Hep t' r Hr).
  destruct (renewable db t' a) eqn:Hren; [|destruct Hs as [msg ->]; [naive_solver lia|constructor]].
  destruct Hs as (db' & -> & Hl & _); [intros ? [= <-]; lia|]. simpl.
  eapply row_change_one; [exact Hl|done|]. intros ->. unfold renewable in Hren. rewrite Hr in Hren.
  unfold renewable_row in Hren. bool_to_prop. apply rc_renew; [|done]. left. by subst a.
Qed.

Lemma reclaim_row_change clk db t :
  row_change clk OpReclaim db t (db_task_leases db !! t)
    (db_task_leases (run_op clk OpReclaim db) !! t).
Proof.
  cbn [run_op]. destruct (reclaim_expired_post clk db) as (db' & -> & Hl & _). simpl. rewrite Hl.
  apply row_change_fmap. intros r Hr Ho. apply rc_end; [|done].
  unfold lease_overdue in Ho. bool_to_prop. done.
Qed.

Lemma heartbeat_row_change clk a db t :
  epochs_ok db →
  row_change clk (OpHeartbeat a) db t (db_task_leases db !! t)
    (db_task_leases (run_op clk (OpHeartbeat a) db) !! t).
Proof.
  intros Hep. cbn [run_op]. pose proof (agent_heartbeat_post clk a db Hep) as Hs. unfold heartbeat_post in Hs; cbv zeta in Hs.
  destruct (db_agents db !! a) as [ar|]; [|rewrite Hs; constructor].
  destruct (status_live _); [|destruct Hs as [? ->]; constructor].
  destruct Hs as (db' & -> & _ & Hl & _). simpl. rewrite Hl.
  destruct (db_task_leases db !! t) as [r|] eqn:Hr; simpl; [|constructor].
  destruct (renewable _ t a) eqn:Hren; [|constructor].
  unfold renewable in Hren. simpl in Hren. rewrite Hr in Hren. unfold renewable_row in Hren.
  bool_to_prop. apply (rc_renew _ _ _ _ _ 600); [|done]. right. by subst a.
Qed.

Lemma mark_stale_row_change clk a db t :
  row_change clk (OpMarkStale a) db t (db_task_leases db !! t)
    (db_task_leases (run_op clk (OpMarkStale a) db) !! t).
Proof.
  cbn [run_op]. destruct (agent_mark_stale_post clk a db) as (db' & -> & Hl & _). simpl. rewrite Hl.
  apply (row_change_fmap _ _ _ _ (λ r, String.eqb (l_agent_id r) a && lease_active r)).
  intros r Hr Ho. bool_to_prop. by apply rc_end.
Qed.

Lemma shutdown_row_change clk a db t :
  row_change clk (OpShutdown a) db t (db_task_leases db !! t)
    (db_task_leases (run_op clk (OpShutdown a) db) !! t).
Proof.
  cbn [run_op]. unfold coord_graceful_shutdown.
  destruct (capture (clk 0%nat) a None db) as [db1|] eqn:Hcap; simpl; [|constructor].
  apply capture_agents in Hcap as (_ & Hl & _).
  rewrite (proj1 (log_each_frame _ _ _ _ _ _ _)). simpl. rewrite lookup_sql_update, Hl.
  apply (row_change_fmap _ _ _ _ (λ r, String.eqb (l_agent_id r) a && lease_active r)).
  intros r Hr Ho. bool_to_prop. by apply rc_end.
Qed.

Lemma register_row_change clk agent db t :
  row_change clk (OpRegister agent) db t (db_task_leases db !! t)
    (db_task_leases (run_op clk (OpRegister agent) db) !! t).
Proof.
  cbn [run_op]. destruct (agent_register clk agent db) as [[[] db']|] eqn:Hr; simpl; [|constructor].
  apply row_change_eq. by apply register_effect in Hr as (_ & -> & _).
Qed.

Lemma unregister_row_change clk a db t :
  row_change clk (OpUnregister a) db t (db_task_leases db !! t)
    (db_task_leases (run_op clk (OpUnregister a) db) !! t).
Proof.
  cbn [run_op]. unfold agent_unregister.
  destruct (capture (clk 0%nat) a None db) as [db1|] eqn:Hcap; simpl; [|constructor].
  apply capture_agents in Hcap as (Ha & Hl & _). rewrite Ha.
  destruct (db_agents db !! a) as [ar|]; simpl.
  - rewrite lookup_sql_delete, lookup_sql_update, Hl.
    destruct (db_task_leases db !! t) as [r|]; simpl; [|constructor].
    destruct (String.eqb_spec (l_agent_id r) a) as [He|He]; simpl.
    + rewrite (proj2 (String.eqb_eq _ _)) by done. by apply rc_delete.
    + rewrite (proj2 (String.eqb_neq _ _)) by done. constructor.
  - rewrite lookup_sql_update, Hl.
    apply (row_change_fmap _ _ _ _ (λ r, String.eqb (l_agent_id r) a)).
    intros r Hr Ho. bool_to_prop. by apply rc_end.
Qed.

Lemma claim_worktree_frame clk w a dur db :
  db_task_leases (run_op clk (OpClaimWorktree w a dur) db) = db_task_leases db
  ∧ db_agents (run_op clk (OpClaimWorktree w a dur) db) = db_agents db.
Proof.
  cbn [run_op]. unfold worktree_try_claim_worktree, put_worktree_lease, check_fk. simpl.
  destruct (db_worktree_leases db !! w) as [r|]; simpl;
    [destruct (_ && _); simpl; [by destruct (String.eqb _ _)|]|];
    by destruct (agent_exists db a).
Qed.

Lemma task_row_change clk origin o db t :
  row_change clk (OpTask origin o) db t (db_task_leases db !! t)
    (db_task_leases (run_op clk (OpTask origin o) db) !! t).
Proof.
  cbn [run_op]. destruct (run_task_op_leases clk origin o db) as (_ & _ & Hl).
  destruct (Hl t) as [->|[Hdel ->]]; [constructor|].
  destruct (db_task_leases db !! t); [by apply rc_delete|constructor].
Qed.

Lemma run_op_row_change clk o db t :
  epochs_ok db →
  row_change clk o db t (db_task_leases db !! t) (db_task_leases (run_op clk o db) !! t).
Proof.
  intros Hep. destruct o.
  - apply claim_row_change.
  - apply release_row_change.
  - apply release_for_task_row_change.
  - apply release_exact_row_change.
  - by apply renew_row_change.
  - apply reclaim_row_change.
  - constructor.
  - by apply heartbeat_row_change.
  - apply mark_stale_row_change.
  - simpl. unfold agent_revive. repeat split_match; constructor.
  - apply shutdown_row_change.
  - apply register_row_change.
  - simpl. unfold agent_update. destruct (agent_exists _ _); constructor.
  - apply unregister_row_change.
  - apply row_change_eq, claim_worktree_frame.
  - apply row_change_eq. simpl. unfold worktree_release_worktree_lease.
    by repeat (split_match; simpl).
  - apply row_change_eq. simpl. unfold worktree_renew_worktree_lease.
    by repeat (split_match; simpl).
  - apply row_change_eq. done.
  - apply task_row_change.
  - apply row_change_eq. cbn [run_op]; by destruct (run_qa_frame (clk 0%nat) o db) as (t0 & sync & ->).
Qed.

(** ** Well-formedness and epochs of every reachable database *)

(** No step but a retirement removes an agent, and no step but a worktree
    claim names a new holder of a worktree lease. *)
Definition agents_kept (db db' : Db) : Prop :=
  ∀ a, is_Some (db_agents db !! a) → is_Some (db_agents db' !! a).

Definition worktree_holders_from (db db' : Db) : Prop :=
  ∀ w r', db_worktree_leases db' !! w = Some r' →
    agent_exists db (w_agent_id r') = true
    ∨ ∃ r, db_worktree_leases db !! w = Some r ∧ w_agent_id r' = w_agent_id r.

Lemma worktree_holders_same db db' :
  db_worktree_leases db' = db_worktree_leases db → worktree_holders_from db db'.
Proof. intros Heq w r Hr. right. rewrite Heq in Hr. by eauto. Qed.

Lemma worktree_holders_fmap db db' (f : WorktreeLeaseRow → WorktreeLeaseRow) :
  (∀ r, w_agent_id (f r) = w_agent_id r) →
  (∀ w, db_worktree_leases db' !! w = f <$> db_worktree_leases db !! w) →
  worktree_holders_from db db'.
Proof.
  intros Hf Hl w r'. rewrite Hl. destruct (db_worktree_leases db !! w) as [r|]; intros [= <-].
  right. by eauto.
Qed.

Lemma agents_kept_eq db db' : db_agents db' = db_agents db → agents_kept db db'.
Proof. by intros Heq a; rewrite Heq. Qed.

Lemma agents_kept_alter db db' f a :
  db_agents db' = alter f a (db_agents db) → agents_kept db db'.
Proof. intros Heq b. rewrite Heq. by rewrite lookup_alter_is_Some. Qed.

Lemma reconcile_agents_kept clk agent fs db db' :
  reconcile_restarted_factory_supervisor clk agent fs db = Ok db' → agents_kept db db'.
Proof.
  unfold reconcile_restarted_factory_supervisor.
  destruct (ag_role agent); try (intros [= ->]; by apply agents_kept_eq).
  destruct fs as [to|]; [|intros [= ->]; by apply agents_kept_eq].
  destruct (str_is_empty to); [intros [= ->]; by apply agents_kept_eq|].
  destruct (bool_decide _); [intros [= ->]; by apply agents_kept_eq|].
  intros (db1 & Hcap & [= <-])%bind_Ok a. apply capture_all_frame in Hcap as (Ha & _). simpl.
  rewrite lookup_sql_update, fmap_is_Some, rehome_fold_lookup
    by (rewrite list_elem_of_filter; naive_solver).
  by rewrite fmap_is_Some, Ha.
Qed.

Lemma decrement_counted_kept counts db : agents_kept db (decrement_counted counts db).
Proof.
  intros a. rewrite decrement_counted_lookup. destruct (counts !! a); [|done].
  by rewrite fmap_is_Some.
Qed.

Definition removes_agent (o : op) : option string :=
  match o with OpUnregister a => Some a | _ => None end.

Lemma claim_agents_kept clk t b dur reason db :
  agents_kept db (commit db (lease_try_claim clk t b dur reason db)).
Proof.
  intros a Ha. pose proof (try_claim_post clk t b dur reason db) as Hs. unfold claim_post in Hs.
  destruct (claimable _ _ _ _), (agent_exists db b); try (by rewrite Hs);
    [|by destruct Hs as (? & _ & _ & _ & ->)..].
  destruct Hs as (lease & db' & -> & _ & _ & Hag). simpl. rewrite Hag. unfold claimed_agents.
  rewrite lookup_alter_is_Some. destruct (taken_over _ _ _); [|done].
  by rewrite lookup_alter_is_Some.
Qed.

Lemma register_agents_kept clk agent db :
  agents_kept db (commit db (agent_register clk agent db)).
Proof.
  intros a Ha. unfold agent_register, register_agent_with_conn.
  destruct (reconcile_restarted_factory_supervisor _ _ _ _) as [db1|] eqn:Hrec; simpl; [|done].
  apply reconcile_agents_kept in Hrec.
  assert (is_Some (db_agents db1 !! a)) as Ha1.
  { apply Hrec. simpl. apply lookup_insert_is_Some'. by right. }
  by destruct (is_none _).
Qed.

Lemma run_op_agents_kept clk o db a :
  is_Some (db_agents db !! a) → removes_agent o ≠ Some a →
  is_Some (db_agents (run_op clk o db) !! a).
Proof.
  intros Ha Hrem. destruct o; cbn [run_op].
  - by apply claim_agents_kept.
  - unfold lease_release_lease. repeat split_match; simpl; try done.
    unfold sql_update_key. by rewrite lookup_alter_is_Some.
  - unfold lease_release_lease_for_task. repeat split_match; simpl; try done.
    unfold sql_update_key. by rewrite lookup_alter_is_Some.
  - unfold lease_release_lease_if_owner_epoch. repeat split_match; simpl; try done.
    unfold sql_update_key. by rewrite lookup_alter_is_Some.
  - unfold lease_renew_lease. destruct (ok_or _ _); simpl; done.
  - unfold lease_reclaim_expired_leases. cbn [commit].
    rewrite (proj1 (proj2 (log_each_frame _ _ _ _ _ _ _))). by apply decrement_counted_kept.
  - done.
  - unfold agent_heartbeat. destruct (db_agents db !! agent_id); simpl; [|done].
    destruct (status_live _); [|by destruct (_ || _)]. simpl.
    rewrite (proj1 (fold_renew_frame _ _ _ _ _)). simpl. unfold sql_update_key.
    by rewrite lookup_alter_is_Some.
  - unfold agent_mark_stale. cbn [commit].
    rewrite (proj1 (proj2 (log_each_frame _ _ _ _ _ _ _))). simpl. unfold sql_update_key.
    by rewrite lookup_alter_is_Some.
  - unfold agent_revive. repeat split_match; simpl; try done.
    unfold sql_update_key. by rewrite lookup_alter_is_Some.
  - unfold coord_graceful_shutdown.
    destruct (capture _ _ _ _) as [db1|] eqn:Hcap; simpl; [|done].
    apply capture_agents in Hcap as (Hag & _). unfold sql_update_key.
    rewrite lookup_alter_is_Some, (proj1 (proj2 (log_each_frame _ _ _ _ _ _ _))). simpl.
    by rewrite Hag.
  - by apply register_agents_kept.
  - unfold agent_update. destruct (agent_exists _ _); simpl; [|done].
    unfold sql_update_key. by rewrite lookup_alter_is_Some.
  - unfold agent_unregister.
    destruct (capture _ _ _ _) as [db1|] eqn:Hcap; simpl; [|done].
    apply capture_agents in Hcap as (Hag & _). rewrite Hag.
    destruct (db_agents db !! agent_id); simpl; rewrite Hag; [|done].
    simpl in Hrem. rewrite lookup_delete_ne by congruence. done.
  - pose proof (proj2 (claim_worktree_frame clk worktree_id agent_id duration_secs db)) as Hag.
    cbn [run_op] in Hag. by rewrite Hag.
  - unfold worktree_release_worktree_lease. by repeat (split_match; simpl).
  - unfold worktree_renew_worktree_lease. by repeat (split_match; simpl).
  - done.
  - by rewrite (proj1 (run_task_op_leases clk origin_project o db)).
  - cbn [run_op]; by destruct (run_qa_frame (clk 0%nat) o db) as (t0 & sync & ->).
Qed.

(** An UPDATE of worktree leases that keeps their holders *)
Lemma worktree_update_holders db P f :
  (∀ r, w_agent_id (f r) = w_agent_id r) →
  worktree_holders_from db (update_worktree_leases P f db).
Proof.
  intros Hf w r'. unfold update_worktree_leases. simpl. rewrite lookup_sql_update.
  destruct (db_worktree_leases db !! w) as [r|]; intros [= <-]. right. exists r. split; [done|].
  by destruct (P w r).
Qed.

Lemma worktree_holders_trans_same db db1 db2 :
  db_worktree_leases db1 = db_worktree_leases db → worktree_holders_from db1 db2 →
  db_agents db1 = db_agents db → worktree_holders_from db db2.
Proof.
  intros Hw H Ha w r' Hr. apply H in Hr as [He|(r & Hr & ?)].
  - left. unfold agent_exists in *. by rewrite <-Ha.
  - right. rewrite Hw in Hr. by eauto.
Qed.

Lemma put_worktree_lease_holders wt row db db' :
  put_worktree_lease wt row db = Ok db' → worktree_holders_from db db'.
Proof.
  unfold put_worktree_lease, check_fk. destruct (agent_exists db _) eqn:He; simpl; [|done].
  intros [= <-] w r'. simpl. destruct (decide (w = wt)) as [->|].
  - rewrite lookup_insert_eq. intros [= <-]. by left.
  - rewrite lookup_insert_ne by done. right. by eauto.
Qed.

Lemma claim_worktree_holders clk w a dur db :
  worktree_holders_from db (run_op clk (OpClaimWorktree w a dur) db).
Proof.
  cbn [run_op]. unfold worktree_try_claim_worktree.
  set (row := worktree_claim_row _ _ _).
  destruct (put_worktree_lease w row db) as [db1|] eqn:Hput; cbn.
  - apply put_worktree_lease_holders in Hput.
    destruct (db_worktree_leases db !! w) as [r|]; [|done].
    destruct (_ && _); [|done]. destruct (String.eqb _ _); [|by apply worktree_holders_same].
    by apply worktree_update_holders.
  - destruct (db_worktree_leases db !! w) as [r|]; [|by apply worktree_holders_same].
    destruct (_ && _); [|by apply worktree_holders_same].
    destruct (String.eqb _ _); [|by apply worktree_holders_same].
    by apply worktree_update_holders.
Qed.

Lemma heartbeat_worktree_holders clk agent_id db :
  worktree_holders_from db (commit db (agent_heartbeat clk agent_id db)).
Proof.
  unfold agent_heartbeat. destruct (db_agents db !! agent_id); [|by apply worktree_holders_same].
  destruct (status_live _); [|by destruct (_ || _); apply worktree_holders_same]. cbn [commit].
  eapply (worktree_holders_trans_same _ db); [done| |done].
  intros w r'. simpl. rewrite lookup_sql_update, (proj1 (proj2 (fold_renew_frame _ _ _ _ _))). simpl.
  destruct (db_worktree_leases db !! w) as [r|]; intros [= <-]. right. exists r. split; [done|].
  by destruct (_ && _).
Qed.

Lemma shutdown_worktree_holders clk agent_id db :
  worktree_holders_from db (commit db (coord_graceful_shutdown clk agent_id db)).
Proof.
  unfold coord_graceful_shutdown.
  destruct (capture _ _ _ _) as [db1|] eqn:Hcap; simpl; [|by apply worktree_holders_same].
  apply capture_agents in Hcap as (_ & _ & Hw & _). intros w r'. simpl.
  rewrite (proj1 (proj2 (proj2 (log_each_frame _ _ _ _ _ _ _)))). simpl. rewrite lookup_sql_update, Hw.
  destruct (db_worktree_leases db !! w) as [r|]; intros [= <-]. right. exists r. split; [done|].
  by destruct (_ && _).
Qed.

Lemma run_op_worktree_holders clk o db : worktree_holders_from db (run_op clk o db).
Proof.
  destruct o; try apply claim_worktree_holders; cbn [run_op];
    try (apply worktree_holders_same; done).
  - apply worktree_holders_same. unfold lease_try_claim, grant_claim, put_task_lease, check_fk.
    by repeat (split_match; simplify_eq/=).
  - apply worktree_holders_same. unfold lease_release_lease. by repeat (split_match; simpl).
  - apply worktree_holders_same. unfold lease_release_lease_for_task. by repeat (split_match; simpl).
  - apply worktree_holders_same. unfold lease_release_lease_if_owner_epoch.
    by repeat (split_match; simpl).
  - apply worktree_holders_same. unfold lease_renew_lease. by destruct (ok_or _ _).
  - apply worktree_holders_same. unfold lease_reclaim_expired_leases. cbn [commit].
    rewrite (proj1 (proj2 (proj2 (log_each_frame _ _ _ _ _ _ _)))).
    unfold decrement_counted. generalize (map_to_list (agent_counts
      (sql_select (λ _ r, lease_overdue (clk 0%nat) r) (db_task_leases db)))).
    intros l. induction l as [|[b n] l IH]; simpl; [done|]. by rewrite <-IH.
  - apply heartbeat_worktree_holders.
  - unfold agent_mark_stale. cbn [commit]. intros w r'.
    rewrite (proj1 (proj2 (proj2 (log_each_frame _ _ _ _ _ _ _)))). simpl. rewrite lookup_sql_update.
    destruct (db_worktree_leases db !! w) as [r|]; intros [= <-]. right. exists r. split; [done|].
    by destruct (_ && _).
  - apply worktree_holders_same. unfold agent_revive. by repeat (split_match; simpl).
  - apply shutdown_worktree_holders.
  - apply worktree_holders_same.
    destruct (agent_register clk agent db) as [[[] db']|] eqn:Hr; simpl; [|done].
    by apply register_effect in Hr as (_ & _ & ->).
  - apply worktree_holders_same. unfold agent_update. by destruct (agent_exists _ _).
  - unfold agent_unregister.
    destruct (capture _ _ _ _) as [db1|] eqn:Hcap; simpl; [|by apply worktree_holders_same].
    apply capture_agents in Hcap as (Ha & _ & Hw & _). rewrite Ha.
    destruct (db_agents db !! agent_id); simpl; [|by apply worktree_holders_same].
    intros w r'. simpl. rewrite lookup_sql_delete, Hw. intros (r & Hr & Heq)%bind_Some.
    destruct (String.eqb _ _); simplify_eq. right. by eauto.
  - unfold worktree_release_worktree_lease. repeat split_match;
      (by apply worktree_holders_same) || by apply worktree_update_holders.
  - unfold worktree_renew_worktree_lease. destruct (_ =? 0)%nat; [by apply worktree_holders_same|].
    by apply worktree_update_holders.
  - by apply worktree_update_holders.
  - apply worktree_holders_same, run_task_op_leases.
  - apply worktree_holders_same. cbn [run_op]; by destruct (run_qa_frame (clk 0%nat) o db) as (t0 & sync & ->).
Qed.

(** *** Invariants *)

Definition epochs_below (n : Z) (db : Db) : Prop :=
  map_Forall (λ _ r, 1 ≤ l_epoch r ≤ n) (db_task_leases db).

Lemma epochs_below_ok n db : n < 2 ^ 63 - 1 → epochs_below n db → epochs_ok db.
Proof. intros Hn H t r Hr. specialize (H t r Hr). simpl in H. lia. Qed.

Lemma next_epoch_succ db t r :
  epochs_ok db → db_task_leases db !! t = Some r → as_i64 (next_epoch db t) = l_epoch r + 1.
Proof.
  intros Hep Hr. specialize (Hep t r Hr). unfold next_epoch. rewrite Hr. unfold u64_succ.
  rewrite (as_u64_small (l_epoch r)), Z.mod_small, as_i64_small by lia. done.
Qed.

Lemma next_epoch_first db t : db_task_leases db !! t = None → as_i64 (next_epoch db t) = 1.
Proof. intros Hr. unfold next_epoch. by rewrite Hr. Qed.

Lemma run_op_epochs clk o n db :
  1 ≤ n < 2 ^ 63 - 1 → epochs_below n db → epochs_below (n + 1) (run_op clk o db).
Proof.
  intros Hn Hb t r' Hr'. pose proof (epochs_below_ok n db ltac:(lia) Hb) as Hep.
  pose proof (run_op_row_change clk o db t Hep) as Hc. rewrite Hr' in Hc.
  assert (∀ r, db_task_leases db !! t = Some r → 1 ≤ l_epoch r ≤ n) as Hold by apply Hb.
  inversion Hc as [r Hr|old a dur reason Ho Hcl Hex Hr|r dur Ho Hact Hr|r s He Hs Hr|]; subst; simpl.
  - specialize (Hold r' ltac:(congruence)). lia.
  - destruct (db_task_leases db !! t) as [r|] eqn:Hr.
    + rewrite (next_epoch_succ db t r) by done. specialize (Hold r eq_refl). lia.
    + rewrite next_epoch_first by done. lia.
  - specialize (Hold r ltac:(congruence)). lia.
  - specialize (Hold r ltac:(congruence)). lia.
Qed.

Lemma unregister_wf clk a db : db_wf db → db_wf (run_op clk (OpUnregister a) db).
Proof.
  intros [Hl Hw]. cbn [run_op]. unfold agent_unregister.
  destruct (capture _ _ _ _) as [db1|] eqn:Hcap; simpl; [|by split].
  apply capture_agents in Hcap as (Hag & Hl1 & Hw1 & _). rewrite Hag.
  destruct (db_agents db !! a) as [ar|] eqn:Ha; cbn [commit].
  - split; intros k r; simpl; rewrite lookup_sql_delete, ?lookup_sql_update, ?Hl1, ?Hw1, Hag.
    + destruct (db_task_leases db !! k) as [r0|] eqn:Hr; simpl; [|done].
      assert (l_agent_id (if String.eqb (l_agent_id r0) a then set_status "released" r0 else r0)
              = l_agent_id r0) as -> by (by destruct (String.eqb _ _)).
      destruct (String.eqb_spec (l_agent_id r0) a); intros [= <-].
      rewrite lookup_delete_ne by done. by apply (Hl k).
    + destruct (db_worktree_leases db !! k) as [r0|] eqn:Hr; simpl; [|done].
      destruct (String.eqb_spec (w_agent_id r0) a); intros [= <-].
      rewrite lookup_delete_ne by done. by apply (Hw k).
  - split; intros k r; simpl; rewrite ?lookup_sql_update, ?Hl1, ?Hw1, Hag.
    + destruct (db_task_leases db !! k) as [r0|] eqn:Hr; intros [= <-].
      assert (l_agent_id (if String.eqb (l_agent_id r0) a then set_status "released" r0 else r0)
              = l_agent_id r0) as -> by (by destruct (String.eqb _ _)). by apply (Hl k).
    + intros Hr. by apply (Hw k).
Qed.

Lemma run_op_wf clk o db : epochs_ok db → db_wf db → db_wf (run_op clk o db).
Proof.
  intros Hep Hwf. destruct (removes_agent o) as [a|] eqn:Ho.
  { destruct o; simplify_eq. by apply unregister_wf. }
  assert (∀ a, is_Some (db_agents db !! a) → is_Some (db_agents (run_op clk o db) !! a)) as Hkept.
  { intros a Ha. apply run_op_agents_kept; [done|by rewrite Ho]. }
  destruct Hwf as [Hl Hw]. split; intros k r' Hr'; apply Hkept.
  - pose proof (run_op_row_change clk o db k Hep) as Hc. rewrite Hr' in Hc.
    inversion Hc as [r Hr|old b dur reason _ _ Hex Hr|r dur _ _ Hr|r s _ _ Hr|]; subst; simpl.
    + by apply (Hl k).
    + by apply agent_exists_true.
    + by apply (Hl k).
    + by apply (Hl k).
  - destruct (run_op_worktree_holders clk o db k r' Hr') as [He|(r & Hr & ->)].
    + by apply agent_exists_true.
    + by apply (Hw k).
Qed.

Lemma run_snoc tr s db : run (tr ++ [s]) db = run_op s.1 s.2 (run tr db).
Proof. unfold run. by rewrite foldl_app. Qed.

Lemma run_invariant tr db n :
  epochs_below n db → db_wf db → 1 ≤ n → n + Z.of_nat (length tr) < 2 ^ 63 - 1 →
  epochs_below (n + Z.of_nat (length tr)) (run tr db) ∧ db_wf (run tr db).
Proof.
  intros Hb Hwf Hn Hlen. induction tr as [|s tr IH] using rev_ind.
  { simpl. by rewrite Z.add_0_r. }
  rewrite length_app in Hlen |- *. simpl in Hlen |- *.
  destruct IH as [IHb IHwf]; [lia|]. rewrite run_snoc. split.
  - replace (n + Z.of_nat (length tr + 1)) with (n + Z.of_nat (length tr) + 1) by lia.
    apply run_op_epochs; [lia|done].
  - apply run_op_wf; [|done]. eapply epochs_below_ok; [|done]. lia.
Qed.

(** Every database that an execution from the empty one reaches is well
    formed: each task and worktree lease names a registered agent, and each
    task lease's epoch lies between 1 and one more than the number of steps,
    so no 64-bit epoch wraps within 2^63 - 3 operations. *)
Theorem reachable_wf tr :
  Z.of_nat (length tr) < 2 ^ 63 - 2 →
  db_wf (run tr empty_db)
  ∧ (∀ t r, db_task_leases (run tr empty_db) !! t = Some r →
       1 ≤ l_epoch r ≤ 1 + Z.of_nat (length tr)).
Proof.
  intros Hlen. destruct (run_invariant tr empty_db 1) as [Hb Hwf];
    [by apply map_Forall_empty|apply empty_db_wf|lia|lia|].
  split; [done|]. exact Hb.
Qed.

(** *** Fencing *)

(** One step: a row that survives keeps its generation or gets a higher one. *)
Lemma run_op_epoch_step clk o db t r r' :
  epochs_ok db →
  db_task_leases db !! t = Some r → db_task_leases (run_op clk o db) !! t = Some r' →
  (l_epoch r' = l_epoch r ∧ l_agent_id r' = l_agent_id r ∧ l_acquired_at r' = l_acquired_at r)
  ∨ l_epoch r < l_epoch r'.
Proof.
  intros Hep Hr Hr'. pose proof (run_op_row_change clk o db t Hep) as Hc. rewrite Hr, Hr' in Hc.
  inversion Hc; subst; simpl; [by left| |by left|by left].
  right. rewrite (next_epoch_succ db t r) by done. lia.
Qed.

(** Executions in which no agent is retired and the task is not deleted *)
Definition keeps_lease (t : string) (o : op) : bool :=
  match o with
  | OpUnregister _ => false
  | OpTask _ o => negb (bool_decide (deletes_task o = Some t))
  | _ => true
  end.
Definition no_forgetting (t : string) (tr : trace) : Prop :=
  Forall (λ s, keeps_lease t s.2 = true) tr.

Lemma keeps_lease_row t o r : keeps_lease t o = true → ¬ deletes_lease o t r.
Proof. destruct o; try (by intros _ []); [done|]. simpl. by case_bool_decide. Qed.

Lemma run_op_row_kept clk o db t r :
  epochs_ok db → keeps_lease t o = true → db_task_leases db !! t = Some r →
  is_Some (db_task_leases (run_op clk o db) !! t).
Proof.
  intros Hep Ho Hr. pose proof (run_op_row_change clk o db t Hep) as Hc. rewrite Hr in Hc.
  pose proof (keeps_lease_row t o r Ho). inversion Hc; subst; by eauto.
Qed.

Lemma run_epoch_steps tr db n t r :
  epochs_below n db → db_wf db → 1 ≤ n → n + Z.of_nat (length tr) < 2 ^ 63 - 1 →
  no_forgetting t tr → db_task_leases db !! t = Some r →
  ∃ r', db_task_leases (run tr db) !! t = Some r' ∧
    ((l_epoch r' = l_epoch r ∧ l_agent_id r' = l_agent_id r ∧ l_acquired_at r' = l_acquired_at r)
     ∨ l_epoch r < l_epoch r').
Proof.
  intros Hb Hwf Hn Hlen Htr Hr. induction tr as [|s tr IH] using rev_ind.
  { exists r. split; [done|by left]. }
  apply Forall_app in Htr as [Htr Hs]. rewrite Forall_singleton in Hs.
  rewrite length_app in Hlen. simpl in Hlen.
  destruct IH as (r1 & Hr1 & Hrel); [lia|done|].
  assert (epochs_ok (run tr db)) as Hep.
  { destruct (run_invariant tr db n) as [Hb' _]; [done..|lia|].
    eapply epochs_below_ok; [|done]. lia. }
  rewrite run_snoc. destruct (run_op_row_kept s.1 s.2 _ t r1 Hep Hs Hr1) as [r' Hr'].
  exists r'. split; [done|].
  destruct (run_op_epoch_step _ _ _ _ _ _ Hep Hr1 Hr') as [(-> & -> & ->)|?]; [done|].
  right. destruct Hrel as [(<- & _)|?]; lia.
Qed.

(** An epoch names one generation of a lease.  Along any execution that
    retires no agent and does not delete the task, its lease row never disappears, its epoch never
    decreases, and while it is the same the holder and the acquisition time
    are the same. *)
Theorem epoch_identifies_holder tr db n t r :
  epochs_below n db → db_wf db → 1 ≤ n → n + Z.of_nat (length tr) < 2 ^ 63 - 1 →
  no_forgetting t tr → db_task_leases db !! t = Some r →
  ∃ r', db_task_leases (run tr db) !! t = Some r' ∧ l_epoch r ≤ l_epoch r' ∧
    (l_epoch r' = l_epoch r →
     l_agent_id r' = l_agent_id r ∧ l_acquired_at r' = l_acquired_at r).
Proof.
  intros Hb Hwf Hn Hlen Htr Hr. destruct (run_epoch_steps tr db n t r) as (r' & Hr' & Hrel); [done..|].
  exists r'. split; [done|]. split; [lia|]. intros. destruct Hrel as [(_ & ? & ?)|?]; [done|lia].
Qed.

(** C28: The epoch is a fencing token.  Once a later claim on the task is
    granted, to another agent or to the same one, a release authorized by the
    earlier generation is refused and changes nothing, at any later point of
    an execution that retires no agent and does not delete the task. *)
Theorem stale_release_is_fenced tr1 clk b dur reason tr2 db n t r clk' reason' :
  epochs_below n db → db_wf db → 1 ≤ n →
  n + Z.of_nat (length (tr1 ++ (clk, OpClaim t b dur reason) :: tr2)) < 2 ^ 63 - 1 →
  no_forgetting t tr1 → no_forgetting t tr2 →
  db_task_leases db !! t = Some r →
  claimable (run tr1 db) (clk 0%nat) t b = true → agent_exists (run tr1 db) b = true →
  let db' := run (tr1 ++ (clk, OpClaim t b dur reason) :: tr2) db in
  lease_release_lease_if_owner_epoch clk' t (l_agent_id r) (l_epoch r) reason' db' = Ok (false, db').
Proof.
  intros Hb Hwf Hn Hlen Ht1 Ht2 Hr Hcl Hex db'.
  rewrite length_app in Hlen. cbn [length] in Hlen.
  destruct (run_epoch_steps tr1 db n t r) as (r1 & Hr1 & Hrel1); [done..|lia|done|done|].
  destruct (run_invariant tr1 db n) as [Hb1 Hwf1]; [done..|lia|].
  assert (epochs_ok (run tr1 db)) as Hep by (eapply epochs_below_ok; [|done]; lia).
  set (db2 := run_op clk (OpClaim t b dur reason) (run tr1 db)).
  assert (db' = run tr2 db2) as -> by (unfold db', run; by rewrite foldl_app).
  assert (∃ r2, db_task_leases db2 !! t = Some r2 ∧ l_epoch r2 = l_epoch r1 + 1) as (r2 & Hr2 & He2).
  { pose proof (try_claim_post clk t b dur reason (run tr1 db)) as Hp. unfold claim_post in Hp.
    rewrite Hcl, Hex in Hp. destruct Hp as (lease & d & Heq & _ & Hl & _).
    exists (claim_row b (clk 0%nat) (clk 0%nat + duration_seconds dur)
              (as_i64 (next_epoch (run tr1 db) t)) reason).
    unfold db2. cbn [run_op]. rewrite Heq. cbn [commit]. rewrite Hl, lookup_insert_eq.
    split; [done|]. by apply (next_epoch_succ (run tr1 db) t r1). }
  destruct (run_epoch_steps tr2 db2 (n + Z.of_nat (length tr1) + 1) t r2) as (r3 & Hr3 & Hrel3);
    [by apply run_op_epochs; [lia|]|by apply run_op_wf|lia|lia|done|done|].
  pose proof (release_if_owner_epoch_post clk' t (l_agent_id r) (l_epoch r) reason' (run tr2 db2)) as Hp.
  unfold fenced_release_post in Hp. rewrite Hr3 in Hp.
  assert (exact_lease t (l_agent_id r) (l_epoch r) t r3 = false) as Hex3; [|by rewrite Hex3 in Hp].
  unfold exact_lease. specialize (Hb t r Hr). simpl in Hb.
  rewrite as_i64_small by lia. apply andb_false_iff. right. apply Z.eqb_neq. lia.
Qed.

(** *** Mutual exclusion *)

(** A step that leaves the holder of the lease of [t] in place: it happens
    before the lease runs out, it is no release or retirement of the holder, and
    no takeover by a child of the holder. *)
Definition undisturbing (clk : Clock) (o : op) (db : Db) (t : string) : Prop :=
  ∀ r, db_task_leases db !! t = Some r →
    clk 0%nat < l_expires_at r
    ∧ ¬ ends_lease (clk 0%nat) o t r
    ∧ (∀ a dur reason, o = OpClaim t a dur reason →
         a = l_agent_id r ∨ parent_is db a (l_agent_id r) = false).

Fixpoint undisturbed (t : string) (db : Db) (tr : trace) : Prop :=
  match tr with
  | [] => True
  | (clk, o) :: rest => undisturbing clk o db t ∧ undisturbed t (run_op clk o db) rest
  end.

Lemma undisturbing_keeps clk o db t r :
  epochs_ok db → db_task_leases db !! t = Some r → lease_active r = true →
  undisturbing clk o db t →
  ∃ r', db_task_leases (run_op clk o db) !! t = Some r' ∧ lease_active r' = true
    ∧ l_agent_id r' = l_agent_id r ∧ l_epoch r' = l_epoch r.
Proof.
  intros Hep Hr Hact Hun. destruct (Hun r Hr) as (Hlive & Hend & Hchild).
  pose proof (run_op_row_change clk o db t Hep) as Hc. rewrite Hr in Hc.
  inversion Hc as [|old a dur reason Ho Hcl Hex|r0 dur Ho Ha|r0 s He Hs|r0 Ho]; subst.
  - by eauto.
  - exfalso. unfold claimable in Hcl. rewrite Hr, Hact in Hcl. simpl in Hcl.
    rewrite (proj2 (Z.ltb_lt _ _)) in Hcl by done. simpl in Hcl.
    apply andb_true_iff in Hcl as [Hne Hp]. bool_to_prop.
    destruct (Hchild a dur reason eq_refl) as [->|Hno]; [done|congruence].
  - by eauto 10.
  - done.
  - exfalso. apply Hend. by apply deletes_lease_ends.
Qed.

(** C1: A lease is exclusive.  While no step ends it, hands it to a child of
    the holder, or comes after its expiry, the task stays with the holder at
    the same epoch through every execution, whatever other agents and the
    maintenance operations do; and the next claim of any agent that is not a
    child of the holder is refused with the holder's name. *)
Theorem lease_mutual_exclusion tr db n t r :
  epochs_below n db → db_wf db → 1 ≤ n → n + Z.of_nat (length tr) < 2 ^ 63 - 1 →
  db_task_leases db !! t = Some r → lease_active r = true → undisturbed t db tr →
  ∃ r', db_task_leases (run tr db) !! t = Some r' ∧ lease_active r' = true
    ∧ l_agent_id r' = l_agent_id r ∧ l_epoch r' = l_epoch r
    ∧ ∀ clk b dur reason,
        clk 0%nat < l_expires_at r' → parent_is (run tr db) b (l_agent_id r) = false →
        lease_try_claim clk t b dur reason (run tr db)
        = Ok (ClaimResult_AlreadyClaimed t (l_agent_id r) None (l_expires_at r'), run tr db).
Proof.
  intros Hb Hwf Hn Hlen Hr Hact Hun.
  enough (∃ r', db_task_leases (run tr db) !! t = Some r' ∧ lease_active r' = true
    ∧ l_agent_id r' = l_agent_id r ∧ l_epoch r' = l_epoch r) as (r' & Hr' & Hact' & Ha & He).
  { exists r'. split_and!; [done..|]. intros clk b dur reason Hlive Hp.
    pose proof (try_claim_post clk t b dur reason (run tr db)) as Hpost. unfold claim_post in Hpost.
    assert (claimable (run tr db) (clk 0%nat) t b = false) as Hcl.
    { unfold claimable. rewrite Hr', Hact', Ha, Hp, andb_false_r, orb_false_r. simpl.
      by rewrite (proj2 (Z.ltb_lt _ _)). }
    rewrite Hcl in Hpost. destruct Hpost as (row & Hrow & _ & _ & ->). simplify_eq. by rewrite Ha. }
  clear Hwf. revert db n r Hb Hn Hlen Hr Hact Hun.
  induction tr as [|[clk o] tr IH]; intros db n r Hb Hn Hlen Hr Hact Hun; [by eauto|].
  cbn [length] in Hlen. destruct Hun as [Hstep Hrest].
  assert (epochs_ok db) as Hep by (eapply epochs_below_ok; [|done]; lia).
  destruct (undisturbing_keeps clk o db t r Hep Hr Hact Hstep) as (r1 & Hr1 & Hact1 & <- & <-).
  apply (IH (run_op clk o db) (n + 1) r1); try done; try lia. by apply run_op_epochs; [lia|].
Qed.

(** *** Refinement of an abstract lock *)

(** The lock of one task: the number of acquisitions so far, and the holder
    with its deadline while it is held. *)
Record lock := mk_lock { acquisitions : Z; held_by : option (string * Z) }.

Inductive lock_step (now : Z) (child_of : string → string → Prop) : lock → lock → Prop :=
  | lock_stutter k : lock_step now child_of k k
  | lock_acquire n h a until :
      match h with Some (_, deadline) => deadline ≤ now | None => True end →
      lock_step now child_of (mk_lock n h) (mk_lock (n + 1) (Some (a, until)))
  | lock_handover n h deadline a until :
      child_of a h →
      lock_step now child_of (mk_lock n (Some (h, deadline))) (mk_lock (n + 1) (Some (a, until)))
  | lock_extend n h deadline until :
      lock_step now child_of (mk_lock n (Some (h, deadline))) (mk_lock n (Some (h, until)))
  | lock_release n h : lock_step now child_of (mk_lock n h) (mk_lock n None)
  | lock_forget k : lock_step now child_of k (mk_lock 0 None).

Definition lock_of_row (o : option LeaseRow) : lock :=
  match o with
  | None => mk_lock 0 None
  | Some r => mk_lock (l_epoch r)
                (if lease_active r then Some (l_agent_id r, l_expires_at r) else None)
  end.

Definition lock_of (db : Db) (t : string) : lock := lock_of_row (db_task_leases db !! t).

(** C4: The store implements an expiring lock with handover.  Read through
    the abstraction that sees a task's holder, deadline and number of
    acquisitions, every operation is one step of the abstract lock for every
    task: it acquires only a free or run out lock, hands over only from parent
    to child, extends, releases, forgets the lock with its retired holder or its
    deleted task, or does nothing. *)
Theorem lease_refines_lock clk o db t :
  epochs_ok db →
  lock_step (clk 0%nat) (λ a h, a ≠ h ∧ parent_is db a h = true)
    (lock_of db t) (lock_of (run_op clk o db) t).
Proof.
  intros Hep. unfold lock_of. pose proof (run_op_row_change clk o db t Hep) as Hc.
  inversion Hc as [r Heq Hr|old a dur reason Ho Hcl Hex Heq Hr|r dur Ho Ha Heq Hr|r s He Hs Heq Hr
                  |r Ho Heq Hr].
  - subst. constructor.
  - clear Hr Heq old. destruct (db_task_leases db !! t) as [r|] eqn:Hrow.
    + simpl. rewrite (next_epoch_succ db t r) by done.
      unfold claimable in Hcl. rewrite Hrow in Hcl.
      destruct (lease_active r) eqn:Hact; simpl in Hcl; [|by apply lock_acquire].
      destruct (Z.ltb_spec (clk 0%nat) (l_expires_at r)); simpl in Hcl; [|by apply lock_acquire].
      apply lock_handover. by bool_to_prop.
    + simpl. rewrite next_epoch_first by done. by apply (lock_acquire _ _ 0 None).
  - simpl. unfold lease_active in *. simpl. rewrite Ha. apply lock_extend.
  - simpl. unfold lease_active at 2. simpl. rewrite (proj2 (String.eqb_neq s "active")) by done.
    apply lock_release.
  - constructor.
Qed.

(** *** Counters *)

Definition held (a : string) (_ : string) (r : LeaseRow) : bool :=
  String.eqb (l_agent_id r) a && lease_active r.

(** [active_tasks] is at least the number of active leases the agent holds. *)
Definition counters_cover (db : Db) : Prop :=
  ∀ a ar, db_agents db !! a = Some ar →
    Z.of_nat (sql_count (held a) (db_task_leases db)) ≤ a_active_tasks ar.

(** Agents keep their counters, leases only lose active rows *)
Lemma counters_cover_le db db' :
  counters_cover db →
  (∀ t r', db_task_leases db' !! t = Some r' → lease_active r' = true →
     ∃ r, db_task_leases db !! t = Some r ∧ lease_active r = true ∧ l_agent_id r = l_agent_id r') →
  (∀ a ar', db_agents db' !! a = Some ar' →
     ∃ ar, db_agents db !! a = Some ar ∧
       (a_active_tasks ar' = a_active_tasks ar
        ∨ a_active_tasks ar' = 0 ∧
          ∀ t r', db_task_leases db' !! t = Some r' → held a t r' = false)) →
  counters_cover db'.
Proof.
  intros Hc Hl Ha a ar' Har'. destruct (Ha a ar' Har') as (ar & Har & [->|[-> Hno]]).
  - specialize (Hc a ar Har). enough (sql_count (held a) (db_task_leases db')
      ≤ sql_count (held a) (db_task_leases db))%nat by lia.
    apply sql_count_le. unfold held. intros t r' Hr' Hheld. bool_to_prop.
    destruct (Hl t r' Hr') as (r & Hr & Hact & Heq); [done|]. exists r. split; [done|].
    rewrite Hact, Heq. by rewrite (proj2 (String.eqb_eq _ _)).
  - assert (sql_count (held a) (db_task_leases db') = 0%nat) as -> by (by apply sql_count_zero). lia.
Qed.

(** One active lease of [a] ends and its counter goes down by one *)
Lemma counters_cover_release db db' t a r s :
  counters_cover db → db_task_leases db !! t = Some r → held a t r = true → s ≠ "active" →
  db_task_leases db' = <[t := set_status s r]> (db_task_leases db) →
  db_agents db' = alter (decr_active_tasks 1) a (db_agents db) →
  counters_cover db'.
Proof.
  intros Hc Hr Hheld Hs Hl Ha x ar'. rewrite Hl, Ha.
  pose proof (sql_count_insert (held x) t (set_status s r) r (db_task_leases db) Hr) as Hcount.
  assert (held x t (set_status s r) = false) as Hnot.
  { unfold held, lease_active. simpl. by rewrite (proj2 (String.eqb_neq s "active")), andb_false_r. }
  rewrite Hnot in Hcount. destruct (decide (x = a)) as [->|Hne].
  - rewrite lookup_alter_eq. destruct (db_agents db !! a) as [ar|] eqn:Har; intros [= <-].
    specialize (Hc a ar Har). rewrite Hheld in Hcount. simpl. lia.
  - rewrite lookup_alter_ne by done. intros Har. specialize (Hc x ar' Har).
    destruct (held x t r); lia.
Qed.

Lemma claim_counters clk t a dur reason db :
  counters_cover db → counters_cover (run_op clk (OpClaim t a dur reason) db).
Proof.
  intros Hc. cbn [run_op]. pose proof (try_claim_post clk t a dur reason db) as Hs.
  unfold claim_post in Hs.
  destruct (claimable db (clk 0%nat) t a) eqn:Hcl; [destruct (agent_exists db a)|].
  2:{ by rewrite Hs. } 2:{ by destruct Hs as (? & _ & _ & _ & ->). }
  destruct Hs as (lease & db' & -> & _ & Hl & Hag). cbn [commit]. intros x ar'.
  rewrite Hl, Hag. unfold claimed_agents, taken_over.
  set (row := claim_row _ _ _ _ _).
  assert (∀ y, held y t row = String.eqb a y) as Hrow.
  { intros y. unfold held, row. simpl. apply andb_true_r. }
  unfold claimable in Hcl. destruct (db_task_leases db !! t) as [r0|] eqn:Hr0; simpl.
  - pose proof (sql_count_insert (held x) t row r0 (db_task_leases db) Hr0) as Hcount.
    rewrite Hrow in Hcount.
    destruct (lease_active r0 && (clk 0%nat <? l_expires_at r0)) eqn:Hlive; simpl in Hcl.
    + bool_to_prop.
      destruct (decide (x = a)) as [->|Hxa]; [|rewrite lookup_alter_ne by done].
      * rewrite lookup_alter_eq, lookup_alter_ne by done.
        destruct (db_agents db !! a) as [ar|] eqn:Har; intros [= <-]. specialize (Hc a ar Har).
        rewrite String.eqb_refl in Hcount. simpl. destruct (held a t r0); lia.
      * rewrite (proj2 (String.eqb_neq a x)) in Hcount by done.
        destruct (decide (x = l_agent_id r0)) as [->|Hxh].
        -- rewrite lookup_alter_eq.
           destruct (db_agents db !! l_agent_id r0) as [ar|] eqn:Har; intros [= <-].
           specialize (Hc _ ar Har). assert (held (l_agent_id r0) t r0 = true) as Hh.
           { unfold held. rewrite String.eqb_refl. done. }
           rewrite Hh in Hcount. simpl. lia.
        -- rewrite lookup_alter_ne by done. intros Har. specialize (Hc _ ar' Har).
           destruct (held x t r0); lia.
    + destruct (decide (x = a)) as [->|Hxa].
      * rewrite lookup_alter_eq. destruct (db_agents db !! a) as [ar|] eqn:Har; intros [= <-].
        specialize (Hc a ar Har). rewrite String.eqb_refl in Hcount. simpl.
        destruct (held a t r0); lia.
      * rewrite lookup_alter_ne by done. intros Har. specialize (Hc _ ar' Har).
        rewrite (proj2 (String.eqb_neq a x)) in Hcount by done. destruct (held x t r0); lia.
  - rewrite sql_count_insert_fresh, Hrow by done.
    destruct (decide (x = a)) as [->|Hxa].
    + rewrite lookup_alter_eq. destruct (db_agents db !! a) as [ar|] eqn:Har; intros [= <-].
      specialize (Hc a ar Har). rewrite String.eqb_refl. simpl. lia.
    + rewrite lookup_alter_ne by done. intros Har. specialize (Hc _ ar' Har).
      rewrite (proj2 (String.eqb_neq a x)) by done. lia.
Qed.

Lemma held_count_overdue a now (m : gmap string LeaseRow) :
  held_count a (sql_select (λ _ r, lease_overdue now r) m)
  = sql_count (λ k r, lease_overdue now r && held a k r) m.
Proof.
  unfold held_count, sql_count, sql_select. rewrite list_filter_filter. f_equal.
  apply list_filter_iff. intros [k r]. simpl. unfold held, lease_overdue.
  rewrite !andb_true_iff, String.eqb_eq. tauto.
Qed.

Lemma decr_iter_bound n ar :
  a_active_tasks ar - Z.of_nat n ≤ a_active_tasks (Nat.iter n (decr_active_tasks 1) ar).
Proof. destruct n as [|n]; [simpl; lia|]. rewrite decr_active_tasks_iter. simpl. lia. Qed.

Lemma reclaim_counters clk db : counters_cover db → counters_cover (run_op clk OpReclaim db).
Proof.
  intros Hc. cbn [run_op]. destruct (reclaim_expired_post clk db) as (db' & -> & Hl & Ha & _).
  cbn [commit]. intros a ar'. rewrite Ha, held_count_overdue.
  destruct (db_agents db !! a) as [ar|] eqn:Har; intros [= <-]. specialize (Hc a ar Har).
  assert (db_task_leases db' = sql_update (λ _ r, lease_overdue (clk 0%nat) r) (set_status "expired")
            (db_task_leases db)) as ->.
  { apply map_eq. intros t. by rewrite Hl, lookup_sql_update. }
  pose proof (sql_count_update (λ _ r, lease_overdue (clk 0%nat) r) (set_status "expired") (held a)
    (db_task_leases db)) as Hcount.
  rewrite <-Hcount in Hc.
  2:{ intros k r _. unfold held, lease_active. simpl. apply andb_false_r. }
  pose proof (decr_iter_bound (sql_count (λ k r, lease_overdue (clk 0%nat) r && held a k r)
    (db_task_leases db)) ar). lia.
Qed.

Lemma release_counters clk o db :
  match o with OpRelease _ _ | OpReleaseForTask _ _ | OpReleaseIfOwnerEpoch _ _ _ _ => True | _ => False end →
  counters_cover db → counters_cover (run_op clk o db).
Proof.
  intros Ho Hc. destruct o; try done; cbn [run_op].
  - unfold lease_release_lease, active_lease_info.
    destruct (db_task_leases db !! task_id) as [r|] eqn:Hr; simpl; [|done].
    destruct (lease_active r) eqn:Hact; simpl; [|done].
    destruct (String.eqb_spec (l_agent_id r) agent_id) as [<-|]; simpl; [|done].
    eapply (counters_cover_release db _ task_id (l_agent_id r) r "released"); try done.
    + unfold held. by rewrite Hact, String.eqb_refl.
    + simpl. rewrite (sql_update_one task_id) by apply by_task_key.
      unfold by_task. by rewrite Hr, String.eqb_refl.
  - unfold lease_release_lease_for_task, active_lease_info.
    destruct (db_task_leases db !! task_id) as [r|] eqn:Hr; simpl; [|done].
    destruct (lease_active r) eqn:Hact; simpl; [|done].
    eapply (counters_cover_release db _ task_id (l_agent_id r) r "released"); try done.
    + unfold held. by rewrite Hact, String.eqb_refl.
    + simpl. rewrite (sql_update_one task_id) by apply by_task_key.
      unfold by_task. by rewrite Hr, String.eqb_refl.
  - pose proof (release_if_owner_epoch_post clk task_id agent_id epoch reason db) as Hs.
    unfold fenced_release_post in Hs. destruct (db_task_leases db !! task_id) as [r|] eqn:Hr;
      [|by rewrite Hs]. destruct (exact_lease _ _ _ _ r) eqn:Hex; [|by rewrite Hs].
    destruct Hs as (db' & -> & Hl & Ha). cbn [commit].
    eapply (counters_cover_release db db' task_id agent_id r "released"); try done.
    unfold exact_lease in Hex. unfold held. bool_to_prop. by subst; rewrite String.eqb_refl.
Qed.

(** The operations that write [active_tasks] from outside the lease counts *)
Definition overwrites_counter (o : op) : bool :=
  match o with OpRegister _ | OpUpdate _ => true | _ => false end.

(** A change of one agent row that keeps its counter *)
Lemma alter_counter f id (m : gmap string AgentRow) a ar' :
  (∀ r, a_active_tasks (f r) = a_active_tasks r) → alter f id m !! a = Some ar' →
  ∃ ar, m !! a = Some ar ∧ a_active_tasks ar' = a_active_tasks ar.
Proof.
  intros Hf. destruct (decide (a = id)) as [->|].
  - rewrite lookup_alter_eq. destruct (m !! id) as [r|]; intros [= <-]. by eauto.
  - rewrite lookup_alter_ne by done. by eauto.
Qed.

(** Leases that a step renews or ends were the same agent's before *)
Lemma row_change_active clk o db t r' :
  epochs_ok db → (∀ t' a dur reason, o ≠ OpClaim t' a dur reason) →
  db_task_leases (run_op clk o db) !! t = Some r' → lease_active r' = true →
  ∃ r, db_task_leases db !! t = Some r ∧ lease_active r = true ∧ l_agent_id r = l_agent_id r'.
Proof.
  intros Hep Ho Hr' Hact. pose proof (run_op_row_change clk o db t Hep) as Hc. rewrite Hr' in Hc.
  inversion Hc as [r Heq Hr|old a dur reason Hoc Hcl Hex Heq Hr|r dur Hoc Ha Heq Hr|r s He Hs Heq Hr|];
    subst.
  - by eauto.
  - by edestruct Ho.
  - by eauto.
  - unfold lease_active in Hact. simpl in Hact. by apply String.eqb_eq in Hact.
Qed.

(** An agent's [active_tasks] never undercounts: it stays at least the
    number of active leases the agent holds through every operation except the
    two that write the column from the caller's value (register and update). *)
Theorem active_tasks_covers_leases clk o db :
  epochs_ok db → overwrites_counter o = false → counters_cover db →
  counters_cover (run_op clk o db).
Proof.
  intros Hep Ho Hc. destruct o; try done;
    try (by apply release_counters); try (by apply claim_counters); try (by apply reclaim_counters);
    (eapply counters_cover_le; [exact Hc|intros t r'; by apply row_change_active|]);
    intros a ar'; cbn [run_op].
  - unfold lease_renew_lease. destruct (ok_or _ _); simpl; by eauto.
  - unfold agent_heartbeat. destruct (db_agents db !! agent_id); simpl; [|by eauto].
    destruct (status_live _); [|destruct (_ || _); by eauto]. simpl.
    rewrite (proj1 (fold_renew_frame _ _ _ _ _)). simpl.
    intros (ar & ? & ?)%alter_counter; [by eauto|done].
  - unfold agent_mark_stale. cbn [commit].
    rewrite (proj1 (proj2 (log_each_frame _ _ _ _ _ _ _))). simpl.
    intros (ar & ? & ?)%alter_counter; [by eauto|]. intros r. by destruct (negb _).
  - unfold agent_revive. repeat split_match; simpl; try by eauto.
    all: intros (? & ? & ?)%alter_counter; [by eauto|done].
  - unfold coord_graceful_shutdown. destruct (capture _ _ _ _) as [db1|] eqn:Hcap; [|by eauto].
    cbn [mbind result_bind commit]. apply capture_agents in Hcap as (Ha & Hl & _).
    intros Har'. cbn in Har'. rewrite (proj1 (proj2 (log_each_frame _ _ _ _ _ _ _))) in Har'.
    cbn in Har'. rewrite Ha in Har'. destruct (decide (a = agent_id)) as [->|Hne].
    + unfold sql_update_key in Har'. rewrite lookup_alter_eq in Har'.
      destruct (db_agents db !! agent_id) as [ar|]; simplify_eq/=. exists ar. split; [done|].
      right. split; [done|]. intros t r'. rewrite (proj1 (log_each_frame _ _ _ _ _ _ _)). simpl.
      rewrite lookup_sql_update. destruct (db_task_leases db1 !! t) as [r|]; intros [= <-].
      unfold held. destruct (String.eqb (l_agent_id r) agent_id) eqn:He; simpl.
      * destruct (lease_active r) eqn:Hact; simpl; [|by rewrite Hact, andb_false_r].
        apply andb_false_r.
      * by rewrite He.
    + unfold sql_update_key in Har'. rewrite lookup_alter_ne in Har' by done. by eauto.
  - unfold agent_unregister. destruct (capture _ _ _ _) as [db1|] eqn:Hcap; [|by eauto].
    cbn [mbind result_bind]. apply capture_agents in Hcap as (Ha & Hl & _). rewrite Ha.
    destruct (db_agents db !! agent_id); cbn; rewrite Ha; [|by eauto].
    intros [_ Har]%lookup_delete_Some. by eauto.
  - pose proof (proj2 (claim_worktree_frame clk worktree_id agent_id duration_secs db)) as Hag.
    cbn [run_op] in Hag. rewrite Hag. by eauto.
  - unfold worktree_release_worktree_lease. repeat (split_match; simpl); by eauto.
  - unfold worktree_renew_worktree_lease. repeat (split_match; simpl); by eauto.
  - rewrite (proj1 (run_task_op_leases clk origin_project o db)). by eauto.
  - cbn [run_op]; destruct (run_qa_frame (clk 0%nat) o db) as (t0 & sync & ->). by eauto.
Qed.

(** *** What the protocol does not guarantee *)

(** Taking a lease over after it ran out leaks the old holder's counter:
    the claim leaves the previous holder's registry row, and so its
    [active_tasks], as it was, although the lease is no longer the holder's. *)
Theorem expired_takeover_leaks_counter clk t a dur reason db r :
  db_task_leases db !! t = Some r → lease_active r = true → l_expires_at r ≤ clk 0%nat →
  l_agent_id r ≠ a → agent_exists db a = true →
  let db' := run_op clk (OpClaim t a dur reason) db in
  db_agents db' !! l_agent_id r = db_agents db !! l_agent_id r
  ∧ (sql_count (held (l_agent_id r)) (db_task_leases db') + 1
     = sql_count (held (l_agent_id r)) (db_task_leases db))%nat.
Proof.
  intros Hr Hact Hexp Hne Hex. cbv zeta. cbn [run_op].
  pose proof (try_claim_post clk t a dur reason db) as Hs. unfold claim_post in Hs.
  assert (lease_active r && (clk 0%nat <? l_expires_at r) = false) as Hdead.
  { rewrite Hact. by apply Z.ltb_ge. }
  assert (claimable db (clk 0%nat) t a = true) as Hcl.
  { unfold claimable. by rewrite Hr, Hdead. }
  rewrite Hcl, Hex in Hs. destruct Hs as (lease & db' & -> & _ & Hl & Hag). cbn [commit].
  split.
  - rewrite Hag. unfold claimed_agents, taken_over. rewrite Hr. simpl. rewrite Hdead.
    by rewrite lookup_alter_ne by done.
  - rewrite Hl. set (row := claim_row _ _ _ _ _).
    pose proof (sql_count_insert (held (l_agent_id r)) t row r (db_task_leases db) Hr) as Hcount.
    assert (held (l_agent_id r) t row = false) as Hrow.
    { unfold held, row. simpl. by rewrite (proj2 (String.eqb_neq a (l_agent_id r))). }
    assert (held (l_agent_id r) t r = true) as Hold.
    { unfold held. by rewrite Hact, String.eqb_refl. }
    rewrite Hrow, Hold in Hcount. lia.
Qed.

(** A heartbeat can shorten a lease: when the lease was claimed for longer
    than ten minutes, the renewal of a live holder's running task moves its
    expiry to ten minutes from now, which is earlier. *)
Theorem heartbeat_shortens_long_lease clk id t r a db :
  epochs_ok db → db_agents db !! id = Some a → status_live (a_status a) = true →
  db_task_leases db !! t = Some r →
  renewable (update_agent id (heartbeat_row (clk 0%nat)) db) t id = true →
  clk 0%nat + duration_seconds 600 < l_expires_at r →
  ∃ r', db_task_leases (run_op clk (OpHeartbeat id) db) !! t = Some r'
    ∧ l_epoch r' = l_epoch r ∧ l_expires_at r' < l_expires_at r.
Proof.
  intros Hep Ha Hlive Hr Hren Hlong. cbn [run_op].
  pose proof (agent_heartbeat_post clk id db Hep) as Hs. unfold heartbeat_post in Hs. cbv zeta in Hs.
  rewrite Ha, Hlive in Hs. destruct Hs as (db' & -> & _ & Hl & _). cbn [commit].
  rewrite Hl, Hr, Hren. simpl. eexists. split; [done|]. split; [done|]. simpl. done.
Qed.

(** Retiring the holder forgets the fencing epoch: after it, the next
    granted claim on the task starts at epoch 1 again, so a token of the
    retired generation with epoch 1 names the new one if the same agent id
    claims it. *)
Theorem retirement_resets_epoch clk clk' t b dur reason db r :
  digest_fresh db (l_agent_id r) → is_Some (db_agents db !! l_agent_id r) →
  db_task_leases db !! t = Some r →
  let db1 := run_op clk (OpUnregister (l_agent_id r)) db in
  agent_exists db1 b = true →
  ∃ r', db_task_leases (run_op clk' (OpClaim t b dur reason) db1) !! t = Some r'
    ∧ l_agent_id r' = b ∧ l_epoch r' = 1.
Proof.
  intros Hfresh [a Ha] Hr db1 Hb.
  assert (db_task_leases db1 !! t = None) as Hnone.
  { unfold db1. cbn [run_op]. unfold agent_unregister.
    destruct (capture_ok (clk 0%nat) (l_agent_id r) None db Hfresh) as [db2 Hcap]. rewrite Hcap.
    cbn [mbind result_bind]. apply capture_agents in Hcap as (Hag & Hl & _). rewrite Hag, Ha.
    cbn. rewrite lookup_sql_delete, lookup_sql_update, Hl, Hr. simpl.
    rewrite String.eqb_refl. simpl. by rewrite String.eqb_refl. }
  cbn [run_op]. pose proof (try_claim_post clk' t b dur reason db1) as Hs. unfold claim_post in Hs.
  assert (claimable db1 (clk' 0%nat) t b = true) as Hcl by (unfold claimable; by rewrite Hnone).
  rewrite Hcl, Hb in Hs. destruct Hs as (lease & db' & -> & _ & Hl & _). cbn [commit].
  rewrite Hl, lookup_insert_eq. eexists. split; [done|]. split; [done|]. simpl.
  by apply next_epoch_first.
Qed.

End lease_protocol.
