(* ===== verification/System.v ===== *)
(** * Agents, leases and tasks together

    Executions mix the operations of all the stores.  The agent store reads
    tasks but never writes them, so what the task store promises holds along
    every execution of the whole system: a receipt certifies its row, and
    blocking never stops all open tasks.  [SystemStep] has the additions of
    dependencies in their two statements. *)

From S2P Require Import Prelude Enums TaskTypes Leases Agents Db LeaseStore WorktreeLeases Continuity AgentStore Coordination NoteMarkers TaskRows QaPasses QaPassSpec QaGate Cte TaskGraph TaskStore TaskStoreSpec TaskProtocol LeaseProtocol.

Section system.
Context {host : Host}.

(** ** What the agent store leaves alone *)

(** The tables of the task store, of the QA gate and of the reviews *)
Definition task_view (db : Db) :=
  (db_tasks db, db_dependencies db, db_revisions db, db_receipts db, db_qa_passes db, db_delivery db,
   db_verification db).

Lemma log_each_view clk k agent_of ev reason rows db :
  task_view (log_each clk k agent_of ev reason rows db) = task_view db.
Proof. revert k db. by induction rows as [|[t r] rows IH]; intros k db; [|simpl; rewrite IH]. Qed.

Lemma decrement_view counts db : task_view (decrement_counted counts db) = task_view db.
Proof. unfold decrement_counted. induction (map_to_list counts) as [|kn l IH]; simpl; [done|exact IH]. Qed.

Lemma fold_renew_view id until now ls : ∀ db,
  task_view (foldl (λ db lease,
    update_leases (exact_lease (tl_task_id lease) id (tl_epoch lease)) (renew_row until now) db)
    db ls) = task_view db.
Proof. induction ls as [|l ls IH]; intros db; simpl; [done|by rewrite IH]. Qed.

Lemma capture_view now id reason db db' : capture now id reason db = Ok db' → task_view db' = task_view db.
Proof.
  unfold capture, insert_session_end. intros H.
  destruct (db_agents db !! id) as [a|]; [|by injection H as <-].
  destruct (db_session_ends db !! _); [destruct (negb _)|]; try (by injection H as <-).
  by repeat (split_match; simplify_eq/=).
Qed.

Lemma capture_all_view clk k ids : ∀ db db', capture_all clk k ids db = Ok db' → task_view db' = task_view db.
Proof.
  revert k. induction ids as [|id ids IH]; intros k db db'; simpl; [by intros [= ->]|].
  intros (db1 & Hc & H)%bind_Ok. apply capture_view in Hc. apply IH in H. congruence.
Qed.

Lemma rehome_view froms to at_ : ∀ db,
  task_view (foldl (λ db from, rehome_workers from to at_ db) db froms) = task_view db.
Proof. induction froms as [|from froms IH]; intros db; simpl; [done|by rewrite IH]. Qed.

Lemma register_view clk agent db u db' : agent_register clk agent db = Ok (u, db') → task_view db' = task_view db.
Proof.
  unfold agent_register, register_agent_with_conn. intros (db1 & H & [= _ <-])%bind_Ok.
  apply bind_Ok in H as (db2 & Hrec & H). assert (task_view db1 = task_view db2) as ->.
  { destruct (negb _); by injection H as <-. }
  unfold reconcile_restarted_factory_supervisor in Hrec.
  destruct (ag_role agent); try (by injection Hrec as <-).
  destruct (option_or_else _ _) as [to|]; [|by injection Hrec as <-].
  destruct (str_is_empty to); [by injection Hrec as <-|].
  destruct (bool_decide _); [by injection Hrec as <-|].
  apply bind_Ok in Hrec as (db3 & Hcap & [= <-]). apply capture_all_view in Hcap.
  etrans; [|exact Hcap]. apply (rehome_view _ _ _ db3).
Qed.

(** The QA claims a retirement returns to the queue *)
Definition releases_claims (db db' : Db) : Prop :=
  ∃ P, (∀ q, P q = true → q_state q = "claimed")
    ∧ task_view db' = task_view (db <| db_qa_passes ::= sql_update (λ _ q, P q) unclaim |>).

Lemma release_claims_view a db : releases_claims db (release_qa_claims_for_agent a db).
Proof.
  exists (qa_claim_of db a). split; [|done]. unfold qa_claim_of.
  by intros q [?%String.eqb_eq _]%andb_true_iff.
Qed.

Lemma releases_claims_view db1 db2 db1' db2' :
  task_view db1 = task_view db2 → task_view db1' = task_view db2' →
  releases_claims db1 db1' → releases_claims db2 db2'.
Proof.
  intros H12 H12' (P & HP & E). exists P. split; [done|]. rewrite <-H12', E.
  injection H12 as E1 E2 E3 E4 E5 E6 E7. unfold task_view. simpl.
  by rewrite E1, E2, E3, E4, E5, E6, E7.
Qed.

(** An operation of the agent store *)
Definition agent_op (o : op) : bool := match o with OpTask _ _ | OpQa _ => false | _ => true end.

(** An operation of the agent store releases claims, or leaves all this alone. *)
Definition agent_effect (db db' : Db) : Prop := task_view db' = task_view db ∨ releases_claims db db'.

Lemma agent_op_view clk o db : agent_op o = true → agent_effect db (run_op clk o db).
Proof.
  intros Ho. destruct o; try done; cbn [run_op];
    apply (commit_step agent_effect); try (by left); intros u db' H.
  - left. revert H. unfold lease_try_claim, grant_claim, put_task_lease, check_fk.
    intros H. by repeat (split_match; simplify_eq/=).
  - left. revert H. unfold lease_release_lease. intros H. by repeat (split_match; simplify_eq/=).
  - left. revert H. unfold lease_release_lease_for_task. intros H. by repeat (split_match; simplify_eq/=).
  - left. revert H. unfold lease_release_lease_if_owner_epoch. intros H. by repeat (split_match; simplify_eq/=).
  - left. revert H. unfold lease_renew_lease. by intros (l & _ & [= _ <-])%bind_Ok.
  - left. unfold lease_reclaim_expired_leases in H. injection H as _ <-.
    etrans; [apply log_each_view|etrans; [apply decrement_view|done]].
  - left. by injection H as _ <-.
  - left. revert H. unfold agent_heartbeat. destruct (db_agents db !! agent_id); [|done].
    destruct (status_live _); [|by destruct (_ || _)]. intros [= _ <-].
    etrans; [apply (fold_renew_view agent_id)|done].
  - left. unfold agent_mark_stale in H. injection H as _ <-. etrans; [apply log_each_view|done].
  - left. revert H. unfold agent_revive. intros H. by repeat (split_match; simplify_eq/=).
  - right. revert H. unfold coord_graceful_shutdown. intros (db1 & Hc & [= _ <-])%bind_Ok.
    apply capture_view in Hc.
    match goal with |- context [release_qa_claims_for_agent _ ?d] =>
      apply (releases_claims_view d _ (release_qa_claims_for_agent agent_id d)) end;
      [|done|apply release_claims_view].
    etrans; [apply log_each_view|exact Hc].
  - left. by eapply register_view.
  - left. revert H. unfold agent_update. destruct (agent_exists _ _); [|done]. by intros [= _ <-].
  - right. revert H. unfold agent_unregister. intros (db1 & Hc & H)%bind_Ok. apply capture_view in Hc.
    revert H. cbv zeta. set (d := update_leases _ _ _). intros H.
    apply (releases_claims_view d _ (release_qa_claims_for_agent agent_id d));
      [exact Hc| |apply release_claims_view].
    revert H. by case_match; intros [= _ <-].
  - left. revert H. unfold worktree_try_claim_worktree, put_worktree_lease, check_fk.
    intros H. by repeat (split_match; simplify_eq/=).
  - left. revert H. unfold worktree_release_worktree_lease. intros H. by repeat (split_match; simplify_eq/=).
  - left. revert H. unfold worktree_renew_worktree_lease. intros H. by repeat (split_match; simplify_eq/=).
  - left. by injection H as _ <-.
Qed.

(** The agent store never writes the tables of the task store. *)
Lemma agent_op_tasks clk o db :
  agent_op o = true →
  db_tasks (run_op clk o db) = db_tasks db ∧ db_dependencies (run_op clk o db) = db_dependencies db
  ∧ db_revisions (run_op clk o db) = db_revisions db ∧ db_receipts (run_op clk o db) = db_receipts db.
Proof. by intros [[=]|(P & _ & [=])]%(agent_op_view clk o db). Qed.

(** No operation of the agent store, the task store or the QA gate writes a
    delivery or a verdict. *)
Lemma run_op_reviews clk o db :
  db_delivery (run_op clk o db) = db_delivery db
  ∧ db_verification (run_op clk o db) = db_verification db.
Proof.
  destruct (agent_op o) eqn:Ho.
  - by destruct (agent_op_view clk o db Ho) as [[=]|(P & _ & [=])].
  - destruct o as [ | | | | | | | | | | | | | | | | | |origin o|o]; try done.
    + by pose proof (run_task_op_reviews clk origin o db) as [= _ ? ?].
    + cbn [run_op]. by destruct (run_qa_frame (clk 0%nat) o db) as (t0 & sync & ->).
Qed.

(** ** Receipts *)

Lemma step_tracked clk o db : task_step db (run_op clk o db).
Proof.
  destruct (agent_op o) eqn:Ho.
  - apply agent_op_tasks with (clk := clk) (db := db) in Ho as (Ht & _ & Hv & Hr).
    split; [by apply rows_tracked_same|by left].
  - destruct o as [ | | | | | | | | | | | | | | | | | |origin o|o]; try done; [apply run_task_op_tracked|].
    cbn [run_op]. destruct (run_qa_frame (clk 0%nat) o db) as (t0 & sync & ->).
    split; [by apply rows_tracked_same|by left].
Qed.

Lemma run_tracked tr : ∀ db,
  rows_tracked db (run tr db)
  ∧ ∀ rid r, db_receipts db !! rid = Some r → db_receipts (run tr db) !! rid = Some r.
Proof.
  induction tr as [|[clk o] tr IH]; intros db; [split; [apply rows_tracked_refl|done]|].
  simpl. destruct (step_tracked clk o db) as [Ht Hr], (IH (run_op clk o db)) as [IHt IHr].
  split; [by eapply rows_tracked_trans|]. intros rid r H. apply IHr.
  destruct Hr as [->|(rid' & t & now & Hnone & ->)]; [done|].
  rewrite lookup_insert_ne; [done|]. intros ->. congruence.
Qed.

(** C18: A mutation receipt certifies the row its transaction left.  Once an
    operation has recorded a receipt, no operation of any store changes it,
    the counter of its task never falls below the recorded revision, and as
    long as the counter still has that value the task is exactly what the
    operation left: any later write, a deletion followed by a re-creation of
    the id included, shows in the counter. *)
Theorem receipt_certifies_row clk o db tr rid r :
  db_receipts db !! rid = None →
  db_receipts (run_op clk o db) !! rid = Some r →
  let db1 := run_op clk o db in
  let db2 := run tr db1 in
  db_receipts db2 !! rid = Some r
  ∧ rc_revision r ≤ rev_of db2 (rc_entity_id r)
  ∧ (rev_of db2 (rc_entity_id r) = rc_revision r →
     db_tasks db2 !! rc_entity_id r = db_tasks db1 !! rc_entity_id r).
Proof.
  intros Hnone Hr. cbv zeta.
  assert (rc_revision r = rev_of (run_op clk o db) (rc_entity_id r)) as Hrev.
  { destruct (step_tracked clk o db) as [_ [E|(rid' & t & now & _ & E)]].
    - rewrite E in Hr. congruence.
    - rewrite E in Hr. apply lookup_insert_Some in Hr as [[_ <-]|[_ Hr]]; [done|congruence]. }
  destruct (run_tracked tr (run_op clk o db)) as [Ht Hk].
  destruct (Ht (rc_entity_id r)) as [Hle Heq]. rewrite Hrev.
  split_and!; [by apply Hk|done|done].
Qed.

(** ** Dependencies *)

(** No new task blocks on its own id. *)
Definition admissible_op (o : op) : Prop := match o with OpTask _ o => admissible o | _ => True end.

Lemma step_graph clk o db : admissible_op o → graph_wf db → graph_wf (run_op clk o db).
Proof.
  intros Hadm. destruct (agent_op o) eqn:Ho.
  - apply agent_op_tasks with (clk := clk) (db := db) in Ho as (Ht & Hd & _).
    apply graph_wf_same_deps; [by rewrite Ht|done].
  - destruct o as [ | | | | | | | | | | | | | | | | | |origin o|o]; try done; [by apply run_task_op_graph|].
    cbn [run_op]. destruct (run_qa_frame (clk 0%nat) o db) as (t0 & sync & ->). by apply graph_wf_same_deps.
Qed.

(** ** Additions under way

    A call of [add_dependency] checks and inserts in separate statements.
    [SystemStep] has the dependencies that were checked and not yet inserted beside
    the database: other operations, and the checks of other calls, run in between,
    and a call may fail. *)
Implicit Types pending : list Dependency.
Inductive SystemStep : list Dependency * Db → list Dependency * Db → Prop :=
  | S_op clk o pending db : admissible_op o → SystemStep (pending, db) (pending, run_op clk o db)
  | S_check d pending db :
      check_dependency d true db = Ok tt → SystemStep (pending, db) (d :: pending, db)
  | S_insert before d after db :
      SystemStep (before ++ d :: after, db) (before ++ after, put_dependency d db)
  | S_failed before d after db : SystemStep (before ++ d :: after, db) (before ++ after, db).

(** While an addition is under way its tasks are not deleted, and while a blocking
    one is, no other blocking edge is added. *)
Definition undisturbed (s s' : list Dependency * Db) : Prop :=
  ∀ d, d ∈ s.1 → d ∈ s'.1 →
    (is_Some (db_tasks s.2 !! dep_from_id d) → is_Some (db_tasks s'.2 !! dep_from_id d))
    ∧ (is_Some (db_tasks s.2 !! dep_to_id d) → is_Some (db_tasks s'.2 !! dep_to_id d))
    ∧ (dep_dep_type d = DependencyType_Blocks →
       ∀ x y, dep_edge "blocks" s'.2 x y → dep_edge "blocks" s.2 x y).
Definition serial_step (s s' : list Dependency * Db) : Prop := SystemStep s s' ∧ undisturbed s s'.

(** Whole calls never disturb one another. *)
Lemma add_dependency_steps d pending db db' :
  add_dependency d db = Ok (tt, db') → rtc SystemStep (pending, db) (pending, db').
Proof.
  unfold add_dependency, add_dependency_with_conn.
  destruct (check_dependency d true db) as [[]|] eqn:Hchk; [|done]. intros [= <-].
  eapply rtc_l; [by apply S_check|]. apply rtc_once, (S_insert [] d pending).
Qed.
Lemma run_is_serial tr : ∀ db, Forall (λ s, admissible_op s.2) tr → rtc serial_step ([], db) ([], run tr db).
Proof.
  induction tr as [|[clk o] tr IH]; intros db Hall; [done|]. apply Forall_cons in Hall as [Ho Hall].
  eapply rtc_l; [|by apply IH]. split; [by apply S_op|]. by intros d ?%elem_of_nil.
Qed.

Definition checked_graph (s : list Dependency * Db) : Prop :=
  graph_wf s.2 ∧ ∀ d, d ∈ s.1 → check_dependency d true s.2 = Ok tt.
Lemma checked_stays s s' d :
  undisturbed s s' → checked_graph s → d ∈ s.1 → d ∈ s'.1 → check_dependency d true s'.2 = Ok tt.
Proof.
  intros Hu [_ Hc] Hd Hd'. destruct (Hu d Hd Hd') as (Hf & Ht & He).
  specialize (Hc d Hd). apply check_dependency_Ok in Hc as (Hf0 & Ht0 & Hn). apply check_dependency_Ok.
  split_and!; [auto..|]. intros _ Hb Hr. apply (Hn eq_refl Hb). revert Hr. apply rtc_subrel. auto.
Qed.
Lemma serial_step_graph s s' : serial_step s s' → checked_graph s → checked_graph s'.
Proof.
  intros [Hs Hu] Hw. pose proof (λ d, checked_stays _ _ d Hu Hw) as Hstay. destruct Hw as [Hwf Hc].
  destruct Hs as [clk o pending db Ho|d pending db Hd|before d after db|before d after db]; cbn [fst snd] in *.
  - split; [by apply step_graph|]. intros d Hd. by apply Hstay.
  - split; [done|]. intros d' [->|Hd']%elem_of_cons; [done|by apply Hc].
  - split.
    + apply (add_dependency_wf d db); [done|]. unfold add_dependency, add_dependency_with_conn.
      rewrite Hc; [done|]. rewrite elem_of_app, elem_of_cons. auto.
    + intros d' Hd'. apply Hstay; [|done]. rewrite elem_of_app, elem_of_cons. apply elem_of_app in Hd' as [?|?]; auto.
  - split; [done|]. intros d' Hd'. apply Hc. rewrite elem_of_app, elem_of_cons. apply elem_of_app in Hd' as [?|?]; auto.
Qed.

(** C3: The blocking graph never deadlocks.  Along every execution from a
    well-formed graph, dependencies name existing tasks and no task blocks itself
    through others; so whenever tasks are open, every one of them waits, through a
    finite chain of blockers, for an open task that no open task blocks.  An
    addition checks and inserts in separate steps, and anything may run in between
    that adds no blocking edge and does not delete the tasks it names.  A new task
    must not name its own id as its blocker: the creation path checks no cycle. *)
Theorem blocking_never_deadlocks db pending' db' :
  graph_wf db → rtc serial_step ([], db) (pending', db') →
  graph_wf db'
  ∧ ∀ x, open_task db' x →
      ∃ root, rtc (dep_edge "blocks" db') x root ∧ open_task db' root
        ∧ ∀ b, dep_edge "blocks" db' root b → ¬ open_task db' b.
Proof.
  intros Hwf Hrun. assert (checked_graph (pending', db')) as [Hwf' _].
  { refine (rtc_ind_r checked_graph _ _ _ _ Hrun); [|intros ? ? _ Hs; by apply serial_step_graph].
    split; [done|]. by intros d ?%elem_of_nil. }
  split; [done|]. intros x Hx. destruct (open_root _ x Hwf' Hx) as (root & Hr & Ho & Hn).
  exists root. split_and!; [done..|]. intros b Hb Hob. apply not_true_iff_false in Hn.
  apply Hn, open_target_true. by exists b.
Qed.

(** ** QA rounds *)

(** The rounds a step carries over to another tip *)
Definition carried_by (o : op) (from : QaPass) : Prop :=
  match o with OpQa o => carries o from | _ => False end.

Lemma step_rounds clk o db :
  qa_wf (db_qa_passes db) →
  rtc (table_step (carried_by o)) (db_qa_passes db) (db_qa_passes (run_op clk o db)).
Proof.
  intros Hwf. destruct (agent_op o) eqn:Ho.
  - destruct (agent_op_view clk o db Ho) as [[= _ _ _ _ ->]|(P & HP & [= _ _ _ _ ->])]; [done|].
    by apply rtc_once, ts_release.
  - destruct o as [ | | | | | | | | | | | | | | | | | |origin o|o]; try done; cbn [run_op].
    + by rewrite run_task_op_rounds.
    + by apply run_qa_only.
Qed.

Lemma run_rounds (C : QaPass → Prop) tr : ∀ db,
  qa_wf (db_qa_passes db) → Forall (λ s, ∀ from, carried_by s.2 from → C from) tr →
  rtc (table_step C) (db_qa_passes db) (db_qa_passes (run tr db)).
Proof.
  induction tr as [|[clk o] tr IH]; intros db Hwf Hall; [done|].
  apply Forall_cons in Hall as [HC Hall]. simpl in HC.
  pose proof (step_rounds clk o db Hwf) as Hs. simpl.
  etrans; [|apply IH; [by eapply table_steps_wf|done]].
  clear -Hs HC. induction Hs as [|t1 t2 t3 H1 _ IH]; [done|].
  eapply rtc_l; [|exact IH]. by eapply table_step_mono.
Qed.

(** C22: Along every execution of the stores a QA round follows its life cycle.
    Its row is never lost, the delivery it is about (task, round number,
    implementer, branch, tip, request and deadline) never changes, every change
    is one of the moves [round_step] allows, and once closed it is never open
    again, whatever agents retire, tasks are deleted or peers send.  No task
    ever has two open rounds. *)
Theorem rounds_follow_lifecycle tr db :
  qa_wf (db_qa_passes db) →
  let db' := run tr db in
  qa_wf (db_qa_passes db')
  ∧ ∀ id r, db_qa_passes db !! id = Some r →
      ∃ r', db_qa_passes db' !! id = Some r' ∧ rtc round_step r r'
        ∧ round_identity r' = round_identity r
        ∧ (row_active r = false → row_active r' = false).
Proof.
  intros Hwf. cbv zeta.
  pose proof (run_rounds (λ _, True) tr db Hwf ltac:(by apply Forall_forall)) as Hs.
  split; [by eapply table_steps_wf|]. intros id r Hr.
  destruct (table_steps_round _ _ _ _ _ Hs Hr) as (r' & Hr' & Hsteps).
  exists r'. split_and!; [done..| |]; by apply round_steps_final.
Qed.

(** C20: No merge gate opens on a self-review.  Along every execution that
    starts with independent rounds, and carries over only independent ones,
    the gate of a tip is open only by a round of that very task and tip which
    either passed with a reviewer who is not the implementer and a cited ledger,
    or was waived by a named issuer. *)
Theorem gate_is_independent tr db task head p :
  qa_wf (db_qa_passes db) → map_Forall (λ _ r, independent r) (db_qa_passes db) →
  Forall (λ s, ∀ from, carried_by s.2 from → pass_independent from) tr →
  satisfying_qa_pass_for_head task head (run tr db) = Ok (Some p) →
  qp_task_id p = task ∧ qp_bound_head p = head
  ∧ ((qp_state p = QaPassState_Passed
      ∧ ∃ reviewer, qp_reviewer_agent_id p = Some reviewer ∧ str_is_empty reviewer = false
          ∧ reviewer ≠ qp_implementer_agent_id p ∧ some_text (qp_ledger_path p))
     ∨ (qp_state p = QaPassState_Waived ∧ some_text (qp_issuer_agent_id p))).
Proof.
  intros Hwf Hind Hcar (r & Hr & Ht & Hh & Hsat & Hs & ->)%satisfying_Some.
  pose proof (run_rounds pass_independent tr db Hwf Hcar) as Hsteps.
  assert (independent r) as (Hne & Hv & Hw).
  { eapply (table_steps_all _ independent) in Hsteps; [by eapply Hsteps| | |done].
    - intros r0 rowid. by apply born_independent.
    - apply round_step_independent. }
  split; [done|]. split; [done|]. simpl. rewrite (row_satisfies_state r _ Hs) in Hsat.
  destruct (qp_state p); try done; [left|right].
  - destruct Hv as ((reviewer & Hrev & Hb) & Hl & _); [by left|]. split; [done|].
    exists reviewer. split_and!; [done..|congruence|done].
  - split; [done|]. by apply Hw.
Qed.

End system.
