(* ===== verification/VerdictTransaction.v ===== *)
(** * The verdict of one review ([cas-cli/src/mcp/tools/core/workflow/verification_tools.rs])

    [verification action=add]: the status is parsed, the authority of the caller
    decided, and the verdict, its capability, its dispatch, its delivery and the
    task it lets go on are written in one transaction. *)

From S2P Require Import Prelude Enums TaskTypes VerifierText Verifications Agents Db NoteMarkers TaskRows TaskStore Dispatches Capabilities VerificationStore Deliveries.

(** ** Errors of the protocol ([rmcp::model]) *)
Inductive ErrorCode := INVALID_PARAMS | INVALID_REQUEST | INTERNAL_ERROR.
Record McpError := mkMcpError { me_code : ErrorCode; me_message : string }.
Abbreviation mcp := (Result McpError).

Definition invalid_params (message : string) : McpError := mkMcpError INVALID_PARAMS message.
Definition internal_error (what : string) (e : StoreError) : McpError :=
  mkMcpError INTERNAL_ERROR (what +:+ ": " +:+ StoreError_to_string e).
(** [map_err(|_| ..)] *)
Definition rejected {A} (message : string) (r : result A) : mcp A :=
  map_err (λ _, invalid_params message) r.

(** ** What the caller asks for *)
Definition verdict_words : list string :=
  ["approved"; "rejected"; "supervisor_call"; "pending"; "error"; "skipped"].
(** [str::to_ascii_lowercase] of the word is one of the list *)
Definition parse_verdict_status (word summary : string) : mcp VerificationStatus :=
  if negb (existsb (eq_ignore_ascii_case word) verdict_words)
  then Err (invalid_params "Invalid verification status. Expected: approved, rejected, supervisor_call, error, or skipped.")
  else
    let status := from_storage word None in
    if bool_decide (status = VerificationStatus_Pending)
    then Err (invalid_params "Invalid verification status: pending is reserved for system dispatch markers.")
    else if bool_decide (status = VerificationStatus_SupervisorCall) && str_is_empty (trim summary)
    then Err (invalid_params "A supervisor_call requires the question in summary.")
    else Ok status.

(** Whose verdict it is: of a child that holds a token, of a child that was
    handed a capability, or of a supervisor *)
Inductive VerdictAuthority :=
  | ByCapability (token : string)
  | ByHandoff (handoff_id : string) (late_premerge_dispatch : option VerificationDispatch)
  | SupervisorDirect.

Inductive AuthorityKind := UsesCapability (token : string) | UsesHandoff | DirectSupervisor.
(** [server_internal_identity]: the caller's session is one the server registered *)
Definition authority_kind (server_internal_identity : bool) (verifier_capability : option string)
    (caller : Agent) : option AuthorityKind :=
  match verifier_capability with
  | Some token => Some (UsesCapability token)
  | None =>
      if bool_decide (ag_role caller = AgentRole_Supervisor) && server_internal_identity
      then Some DirectSupervisor
      else if bool_decide (ag_role caller = AgentRole_Standard)
              && bool_decide (ag_agent_type caller = AgentType_SubAgent)
              && String.eqb (ag_name caller) "task-verifier"
              && match ag_parent_id caller with
                 | Some parent_id => negb (String.eqb parent_id (ag_id caller))
                 | None => false
                 end
      then Some UsesHandoff
      else None
  end.

(** The verdict that is to be recorded: the fields of a supervisor's own are
    set before the transaction. *)
Definition drafted (id task_id summary : string) (status : VerificationStatus)
    (issues : list VerificationIssue) (files_reviewed : list string) (confidence : option string)
    (epic : bool) (now : Z) : Verification :=
  let v := Verification_new id task_id now in
  v <| v_status := status |> <| v_summary := summary |> <| v_issues := issues |>
    <| v_files_reviewed := files_reviewed |> <| v_confidence := confidence |>
    <| v_verification_type := if epic then VerificationType_Epic else v_verification_type v |>.
Definition direct (caller_id dispatch_id : string) (v : Verification) : Verification :=
  v <| v_agent_id := Some caller_id |> <| v_provenance := VerificationProvenance_SupervisorDirect |>
    <| v_dispatch_id := Some dispatch_id |> <| v_issuer_agent_id := Some caller_id |>.
Definition by_child (caller_id dispatch_id : string) (c : VerifierCapability) (v : Verification)
    : Verification :=
  v <| v_agent_id := Some caller_id |> <| v_provenance := VerificationProvenance_TaskVerifier |>
    <| v_capability_id := Some (vc_id c) |> <| v_dispatch_id := Some dispatch_id |>
    <| v_issuer_agent_id := Some (vc_issuer_agent_id c) |>.

(** ** The transaction *)

(** The caller is the registered child the capability is bound to. *)
Definition capability_child (caller : Agent) (c : VerifierCapability) : bool :=
  bool_decide (ag_agent_type caller = AgentType_SubAgent)
  && bool_decide (ag_parent_id caller = Some (vc_issuer_agent_id c))
  && bool_decide (vc_verifier_agent_id c = Some (ag_id caller)).
Definition handoff_child (caller : Agent) (c : VerifierCapability) : bool :=
  capability_child caller c && bool_decide (ag_role caller = AgentRole_Standard)
  && String.eqb (ag_name caller) "task-verifier".

(** When the review began, and where that is known from *)
Definition review_window (bound_at consumed_at : option Z) (requested_at : Z) : Z * string :=
  match bound_at, consumed_at with
  | Some bound, Some _ => (bound, "capability_bound_to_consumed")
  | _, _ => (requested_at, "dispatch_elapsed_fallback")
  end.
(** [u64::try_from(..).unwrap_or(0)] *)
Definition elapsed_ms (created_at started_at : Z) : Z := Z.max 0 (num_milliseconds (created_at - started_at)).
Definition timed (created_at : Z) (duration_ms bound_at consumed_at : option Z) (requested_at : Z)
    (v : Verification) : Verification :=
  let '(started_at, source) := review_window bound_at consumed_at requested_at in
  v <| v_created_at := created_at |>
    <| v_duration_ms := Some (default (elapsed_ms created_at started_at) duration_ms) |>
    <| v_duration_source := Some (match duration_ms with Some _ => "explicit" | None => source end) |>.

Definition approves (status : VerificationStatus) : bool :=
  match status with VerificationStatus_Approved | VerificationStatus_Skipped => true | _ => false end.

(** UPDATE tasks .. WHERE status IN ('in_progress', 'awaiting_merge') *)
Definition project_delivery (task_id : string) (approved : bool) (now : Z) (db : Db) : Db :=
  fst (update_task task_id
         (λ t, match t_status t with
               | TaskStatus_InProgress | TaskStatus_AwaitingMerge => true
               | _ => false
               end)
         (λ t, t <| t_status := if approved then TaskStatus_AwaitingMerge else TaskStatus_Blocked |>
                 <| t_pending_verification := false |> <| t_updated_at := now |>) db).

Section verdict_transaction.
Context {host : Host}.

(** The capability of a child is spent; a supervisor has none. *)
Definition spend_authority (clk : Clock) (caller : Agent) (authority : VerdictAuthority)
    (task_id : string) (db : Db) : mcp (option VerifierCapability * Db) :=
  match authority with
  | ByCapability token =>
      '(capability, db) ←
        rejected "Verifier capability rejected: it is invalid, expired, consumed, bound to another task/session, or was not issued to a distinct registered task-verifier child."
          (consume_verifier_capability_with_conn clk token task_id (ag_id caller) db);
      if negb (capability_child caller capability)
      then Err (invalid_params "Verifier capability rejected: caller is not the distinct registered task-verifier child bound by Cassy.")
      else Ok (Some capability, db)
  | ByHandoff handoff_id late =>
      '(capability, db) ←
        rejected "Verifier handoff rejected: it is invalid, expired, consumed, bound to another task/session, or no longer claims the exact dispatch."
          (match late with
           | Some expected =>
               consume_current_premerge_verifier_handoff_with_conn false handoff_id task_id
                 (ag_id caller) expected (clk 0%nat) db
           | None =>
               consume_server_verifier_handoff_with_conn handoff_id task_id (ag_id caller) (clk 0%nat) db
           end);
      if negb (handoff_child caller capability)
      then Err (invalid_params "Verifier handoff rejected: caller is not the distinct registered task-verifier child bound by Cassy.")
      else Ok (Some capability, db)
  | SupervisorDirect => Ok (None, db)
  end.

Definition unavailable (authority : VerdictAuthority) : string :=
  match authority with
  | ByCapability _ => "Verifier capability rejected: exact dispatch is unavailable."
  | ByHandoff _ _ => "Verifier handoff rejected: exact dispatch is unavailable."
  | SupervisorDirect => "Supervisor-direct verification rejected: named dispatch is unavailable."
  end.
Definition is_supervisor_direct (authority : VerdictAuthority) : bool :=
  match authority with SupervisorDirect => true | _ => false end.

(** A final verdict resolves its dispatch and moves the delivery and the task. *)
Definition settle (clk : Clock) (caller_id : string) (authority : VerdictAuthority)
    (dispatch : VerificationDispatch) (v : Verification) (pending : bool) (db : Db) : mcp Db :=
  '(_, db) ←
    rejected "Verification dispatch resolution rejected: caller is not the bound verifier or a registered supervisor-direct authority."
      (resolve_verification_dispatch_with_conn (vd_id dispatch) caller_id (v_capability_id v)
         (is_supervisor_direct authority) (clk 4%nat) db);
  let approved_delivery := approves (v_status v) in
  '(transitioned, db) ←
    match vd_delivery_transaction_id dispatch with
    | Some delivery_transaction_id =>
        map_err (internal_error "Failed to advance transactional worker delivery")
          (transition_worker_delivery_verification_with_conn delivery_transaction_id (v_id v)
             approved_delivery caller_id (clk 5%nat) db)
    | None => Ok (None, db)
    end;
  let db := match transitioned with
            | Some _ => project_delivery (v_task_id v) approved_delivery (clk 6%nat) db
            | None => db
            end in
  if pending
  then map_err (internal_error "Failed to clear pending_verification")
         (clear_pending_verification_with_conn (λ k, clk (7 + k)%nat) (v_task_id v) db)
  else Ok db.

(** [pending]: the flag of the task as it was read before the transaction *)
Definition record_verdict (clk : Clock) (caller : Agent) (authority : VerdictAuthority)
    (dispatch_id : string) (draft : Verification) (duration_ms : option Z) (pending : bool) (db : Db)
    : mcp (Verification * Db) :=
  '(capability, db) ← spend_authority clk caller authority (v_task_id draft) db;
  let v := match capability with
           | Some c => by_child (ag_id caller) dispatch_id c draft
           | None => direct (ag_id caller) dispatch_id draft
           end in
  dispatch ← rejected (unavailable authority) (get_verification_dispatch_with_conn dispatch_id db);
  if negb (String.eqb (vd_task_id dispatch) (v_task_id v))
  then Err (invalid_params "Verification rejected: named dispatch belongs to another task.")
  else
    let bound_at := capability ≫= vc_bound_at in
    let consumed_at := capability ≫= vc_consumed_at in
    let v := timed (default (clk 3%nat) consumed_at) duration_ms bound_at consumed_at
               (vd_requested_at dispatch) v in
    db ← map_err (internal_error "Failed to add verification") (add_verification_with_conn v db);
    db ← (if bool_decide (v_status v = VerificationStatus_SupervisorCall) then Ok db
          else settle clk (ag_id caller) authority dispatch v pending db);
    Ok (v, db).
End verdict_transaction.
