(* ===== verification/VerificationSpec.v ===== *)
(** * What the writes on verdicts, dispatches and capabilities may do

    The order every operation moves the verification tables along: a
    capability keeps its identity, and its binding and its end once it has them;
    a dispatch keeps its proof boundary and follows its life cycle; a stored
    verdict keeps its author.  One lemma per statement the operations use. *)

From S2P Require Import Prelude Enums TaskTypes VerifierText Verifications Agents Db NoteMarkers TaskRows LeaseStore Continuity AgentStore Dispatches Capabilities VerificationStore Deliveries.

(** ** The life of a dispatch *)
Definition dispatch_open : DispatchRow → bool := state_in ["pending"; "claimed"; "timed_out"].

Inductive dispatch_step : DispatchRow → DispatchRow → Prop :=
  | dp_claim r verifier capability :
      ds_state r = "pending" →
      dispatch_step r (r <| ds_verifier_agent_id := Some verifier |>
                         <| ds_capability_id := Some capability |> <| ds_state := "claimed" |>)
  | dp_late_claim r : ds_state r = "timed_out" → dispatch_step r (r <| ds_state := "claimed" |>)
  | dp_resolve r now :
      dispatch_open r = true →
      dispatch_step r (r <| ds_state := "resolved" |> <| ds_resolved_at := Some now |>)
  | dp_time_out r now :
      dispatch_active r = true → ds_deadline_at r ≤ now →
      dispatch_step r (r <| ds_state := "timed_out" |> <| ds_resolved_at := Some now |>)
  | dp_extend r deadline :
      dispatch_active r = true → ds_deadline_at r < deadline →
      dispatch_step r (r <| ds_deadline_at := deadline |>)
  | dp_adopt r owner deadline :
      dispatch_open r = true →
      dispatch_step r (r <| ds_owner_agent_id := owner |> <| ds_state := "pending" |>
                         <| ds_verifier_agent_id := None |> <| ds_capability_id := None |>
                         <| ds_deadline_at := deadline |> <| ds_resolved_at := None |>)
  | dp_invalidate r resolved_at :
      state_in ["pending"; "claimed"; "resolved"; "timed_out"] r = true →
      dispatch_step r (r <| ds_state := "invalidated" |> <| ds_resolved_at := resolved_at |>).

(** The proof boundary and the request of a dispatch *)
Definition same_boundary (r r' : DispatchRow) : Prop :=
  ds_task_id r' = ds_task_id r ∧ ds_receipt_id r' = ds_receipt_id r
  ∧ ds_delivery_transaction_id r' = ds_delivery_transaction_id r
  ∧ ds_repository_proof r' = ds_repository_proof r
  ∧ ds_requester_agent_id r' = ds_requester_agent_id r
  ∧ ds_requested_at r' = ds_requested_at r.

Lemma dispatch_steps_boundary r r' : rtc dispatch_step r r' → same_boundary r r'.
Proof.
  induction 1 as [r|r r1 r' Hs _ IH]; [by split_and!|].
  assert (same_boundary r r1) by (by destruct Hs; split_and!).
  unfold same_boundary in *. destruct_and!. split_and!; congruence.
Qed.

Lemma state_in_elem states r : state_in states r = true ↔ ds_state r ∈ states.
Proof.
  unfold state_in. rewrite existsb_exists. split.
  - intros (s & Hs & ->%String.eqb_eq). by apply list_elem_of_In.
  - intros H. exists (ds_state r). split; [by apply list_elem_of_In|apply String.eqb_refl].
Qed.

Lemma invalidated_is_final r r' :
  rtc dispatch_step r r' → ds_state r = "invalidated" → r' = r.
Proof.
  induction 1 as [r|r r1 r' Hs _ IH]; [done|]. intros Hi.
  destruct Hs; unfold dispatch_open, dispatch_active, state_in in *; rewrite Hi in *; discriminate.
Qed.

Lemma resolved_is_invalidated r r' :
  rtc dispatch_step r r' → ds_state r = "resolved" → r' = r ∨ ds_state r' = "invalidated".
Proof.
  intros Hsteps Hres. destruct Hsteps as [|r r1 r' Hs Hsteps]; [by left|]. right.
  enough (ds_state r1 = "invalidated") as Hi by (by rewrite (invalidated_is_final _ _ Hsteps Hi)).
  destruct Hs; unfold dispatch_open, dispatch_active, state_in in *; try reflexivity;
    rewrite Hres in *; discriminate.
Qed.

(** ** Capabilities *)
Definition cap_le (c c' : CapabilityRow) : Prop :=
  (cp_task_id c' = cp_task_id c ∧ cp_dispatch_id c' = cp_dispatch_id c
   ∧ cp_issuer_agent_id c' = cp_issuer_agent_id c ∧ cp_token_hash c' = cp_token_hash c
   ∧ cp_issued_at c' = cp_issued_at c ∧ cp_expires_at c' = cp_expires_at c)
  ∧ (∀ v, cp_verifier_agent_id c = Some v →
        cp_verifier_agent_id c' = Some v ∧ cp_bound_at c' = cp_bound_at c)
  ∧ (∀ t, cp_consumed_at c = Some t → cp_consumed_at c' = Some t).
#[export] Instance cap_le_preorder : PreOrder cap_le.
Proof.
  split; [by intros c; split_and!|]. intros a b c (Hi & Hv & Hc) (Hi' & Hv' & Hc').
  destruct_and!. split_and!; try congruence; [|naive_solver].
  intros v Ha. destruct (Hv v Ha) as [Hb ?]. destruct (Hv' v Hb). split; congruence.
Qed.

Lemma unbound_false c :
  unbound c = false ↔ is_Some (cp_verifier_agent_id c) ∨ is_Some (cp_consumed_at c).
Proof.
  unfold unbound. destruct (cp_verifier_agent_id c), (cp_consumed_at c); simpl; naive_solver.
Qed.
Lemma cap_le_unbound c c' : cap_le c c' → unbound c = false → unbound c' = false.
Proof.
  intros (_ & Hv & Hc). rewrite !unbound_false. intros [[v H]|[t H]].
  - left. exists v. by apply Hv.
  - right. exists t. by apply Hc.
Qed.

(** The child is not the parent that asked for it. *)
Definition distinct_child (c : CapabilityRow) : Prop :=
  ∀ v, cp_verifier_agent_id c = Some v → v ≠ cp_issuer_agent_id c.

(** ** Verdicts *)
Definition verifier_row (r : VerificationRow) : Prop :=
  VerificationProvenance_from_str (vr_provenance r) = Ok VerificationProvenance_TaskVerifier.
Definition same_author (r r' : VerificationRow) : Prop :=
  vr_task_id r' = vr_task_id r ∧ vr_agent_id r' = vr_agent_id r
  ∧ (verifier_row r' → verifier_row r) ∧ vr_capability_id r' = vr_capability_id r
  ∧ vr_dispatch_id r' = vr_dispatch_id r ∧ vr_issuer_agent_id r' = vr_issuer_agent_id r.
#[export] Instance same_author_preorder : PreOrder same_author.
Proof.
  split; [by intros r; split_and!|]. unfold same_author. intros a b c ? ?.
  destruct_and!. split_and!; congruence || tauto.
Qed.

(** The capability the verdict names is spent, and names the verdict's author,
    its issuer, its dispatch and its task. *)
Definition backed (db : Db) (r : VerificationRow) : Prop :=
  ∃ id c, vr_capability_id r = Some id ∧ capabilities db !! id = Some c
    ∧ is_Some (cp_consumed_at c) ∧ cp_task_id c = vr_task_id r
    ∧ cp_dispatch_id c = vr_dispatch_id r ∧ is_Some (vr_dispatch_id r)
    ∧ vr_issuer_agent_id r = Some (cp_issuer_agent_id c)
    ∧ vr_agent_id r = cp_verifier_agent_id c ∧ is_Some (vr_agent_id r).

(** ** The order of the tables *)
Record vle (db db' : Db) : Prop := mk_vle {
  vle_capability id c :
    capabilities db !! id = Some c → unbound c = false →
    ∃ c', capabilities db' !! id = Some c' ∧ cap_le c c';
  vle_distinct :
    map_Forall (λ _, distinct_child) (capabilities db) →
    map_Forall (λ _, distinct_child) (capabilities db');
  vle_dispatch id r :
    dispatches db !! id = Some r →
    ∃ r', dispatches db' !! id = Some r' ∧ rtc dispatch_step r r';
  vle_unique :
    NoDup (active_dispatch_tasks (dispatches db)) → NoDup (active_dispatch_tasks (dispatches db'));
}.
(** No verdict of a verifier child is written. *)
Definition quiet (db db' : Db) : Prop :=
  ∀ id r', verifications db' !! id = Some r' → verifier_row r' →
    ∃ r, verifications db !! id = Some r ∧ same_author r r'.
Definition vquiet (db db' : Db) : Prop := vle db db' ∧ quiet db db'.

#[export] Instance vle_preorder : PreOrder vle.
Proof.
  split.
  - intros db. split; [| |intros id r Hr; exists r; done|]; try done.
    intros id c Hc _. by exists c.
  - intros a b c Hab Hbc. split.
    + intros id x Hx Hu. destruct (vle_capability _ _ Hab id x Hx Hu) as (y & Hy & Hxy).
      destruct (vle_capability _ _ Hbc id y Hy (cap_le_unbound _ _ Hxy Hu)) as (z & Hz & Hyz).
      exists z. split; [done|by etrans].
    + intros H. by apply (vle_distinct _ _ Hbc), (vle_distinct _ _ Hab).
    + intros id x Hx. destruct (vle_dispatch _ _ Hab id x Hx) as (y & Hy & Hxy).
      destruct (vle_dispatch _ _ Hbc id y Hy) as (z & Hz & Hyz).
      exists z. split; [done|by etrans].
    + intros H. by apply (vle_unique _ _ Hbc), (vle_unique _ _ Hab).
Qed.
#[export] Instance quiet_preorder : PreOrder quiet.
Proof.
  split; [intros db id r Hr _; by exists r|].
  intros a b c Hab Hbc id z Hz Hv. destruct (Hbc id z Hz Hv) as (y & Hy & Hyz).
  destruct (Hab id y Hy) as (x & Hx & Hxy).
  - destruct Hyz as (_ & _ & Hyz & _). by apply Hyz.
  - exists x. split; [done|by etrans].
Qed.
#[export] Instance vquiet_preorder : PreOrder vquiet.
Proof.
  split; [by intros db|]. intros a b c [H1 H2] [H3 H4]. split; [by trans b|by trans b].
Qed.

Lemma vle_eq db db' :
  capabilities db' = capabilities db → dispatches db' = dispatches db → vle db db'.
Proof.
  intros Hc Hd. split; rewrite ?Hc, ?Hd; try done; [intros id c Hr _; by exists c|].
  intros id r Hr. by exists r.
Qed.
Lemma vquiet_eq db db' : db_verification db' = db_verification db → vquiet db db'.
Proof.
  intros H. split; [apply vle_eq; [unfold capabilities|unfold dispatches]; by rewrite H|].
  intros id r Hr _. exists r. unfold verifications in *. by rewrite <-H.
Qed.
(** Statements on the handoffs and the issues only *)
Lemma vquiet_tables db db' :
  capabilities db' = capabilities db → dispatches db' = dispatches db →
  verifications db' = verifications db → vquiet db db'.
Proof.
  intros Hc Hd Hv. split; [by apply vle_eq|]. intros id r Hr _. exists r. by rewrite <-Hv.
Qed.

(** ** Statements on the row of one id *)
Lemma count_by_id {R} id (P : R → bool) (t : gmap string R) :
  sql_count (λ k r, String.eqb k id && P r) t
  = match t !! id with Some r => if P r then 1%nat else 0%nat | None => 0%nat end.
Proof.
  destruct (t !! id) as [r|] eqn:Hr; [destruct (P r) eqn:HP|].
  - unfold sql_count. rewrite <-(length_fmap fst).
    assert ((sql_select (λ k r, String.eqb k id && P r) t).*1 ≡ₚ [id]) as ->; [|done].
    apply NoDup_Permutation; [apply NoDup_sql_select|apply NoDup_singleton|].
    intros k. rewrite list_elem_of_fmap, list_elem_of_singleton. split.
    + intros ([k' r'] & -> & [_ H]%elem_of_sql_select). bool_to_prop. done.
    + intros ->. exists (id, r). split; [done|]. apply elem_of_sql_select.
      by rewrite String.eqb_refl, HP.
  - apply sql_count_zero. intros k r' Hk. destruct (String.eqb_spec k id) as [->|]; [|done].
    simpl. congruence.
  - apply sql_count_zero. intros k r' Hk. destruct (String.eqb_spec k id) as [->|]; [congruence|done].
Qed.
Lemma update_by_id {R} id (P : R → bool) (f : R → R) (t : gmap string R) :
  sql_update (λ k r, String.eqb k id && P r) f t = alter (λ r, if P r then f r else r) id t.
Proof.
  apply map_eq. intros k. rewrite lookup_sql_update. destruct (String.eqb_spec k id) as [->|Hne]; simpl.
  - by rewrite lookup_alter_eq.
  - rewrite lookup_alter_ne by done. by destruct (t !! k).
Qed.
Lemma lookup_by_id {R} id k (P : R → bool) (f : R → R) (t : gmap string R) r' :
  alter (λ r, if P r then f r else r) id t !! k = Some r' →
  ∃ r, t !! k = Some r ∧ (r' = r ∨ k = id ∧ P r = true ∧ r' = f r).
Proof.
  destruct (decide (k = id)) as [->|Hne]; [|rewrite lookup_alter_ne by done; eauto].
  rewrite lookup_alter_eq, fmap_Some. intros (r & Hr & ->). exists r. split; [done|].
  destruct (P r); auto.
Qed.

(** ** Statements on dispatches *)
Lemma write_dispatches_Ok t db db' :
  write_dispatches t db = Ok db' → NoDup (active_dispatch_tasks t) ∧ db' = set_dispatches t db.
Proof. unfold write_dispatches. intros H. split_match; [|done]. bool_to_prop. by injection H as <-. Qed.

Lemma set_dispatches_vquiet t db db' :
  write_dispatches t db = Ok db' →
  (∀ id r, dispatches db !! id = Some r → ∃ r', t !! id = Some r' ∧ rtc dispatch_step r r') →
  vquiet db db'.
Proof.
  intros [Hnd ->]%write_dispatches_Ok Ht. split; [split; cbn; [|done..]|].
  - intros id c Hc _. by exists c.
  - intros id r Hr _. by exists r.
Qed.

Lemma insert_dispatch_Ok id r db db' :
  insert_dispatch id r db = Ok db' →
  dispatches db !! id = None ∧ db' = set_dispatches (<[id := r]> (dispatches db)) db ∧ vquiet db db'.
Proof.
  unfold insert_dispatch. intros H. destruct (dispatches db !! id) eqn:Hid; [done|].
  pose proof H as [_ ->]%write_dispatches_Ok. split_and!; [done..|].
  eapply set_dispatches_vquiet; [exact H|]. intros k x Hx. exists x.
  rewrite lookup_insert_ne by congruence. done.
Qed.

Lemma update_dispatch_Ok id P f db n db' :
  update_dispatch id P f db = Ok (n, db') →
  n = match dispatches db !! id with Some r => if P r then 1%nat else 0%nat | None => 0%nat end
  ∧ db' = set_dispatches (alter (λ r, if P r then f r else r) id (dispatches db)) db
  ∧ NoDup (active_dispatch_tasks (dispatches db')).
Proof.
  unfold update_dispatch. intros H. inv_ok.
  match goal with H : write_dispatches _ _ = _ |- _ => apply write_dispatches_Ok in H as [Hnd ->] end.
  split_and!; [apply count_by_id| |done]. f_equal. apply update_by_id.
Qed.

Lemma update_dispatch_vquiet id P f db n db' :
  update_dispatch id P f db = Ok (n, db') →
  (∀ r, dispatches db !! id = Some r → P r = true → rtc dispatch_step r (f r)) → vquiet db db'.
Proof.
  intros (_ & -> & Hnd)%update_dispatch_Ok Hf. split; [split; cbn; [|done| |done]|].
  - intros k c Hc _. by exists c.
  - intros k r Hr. destruct (decide (k = id)) as [->|Hne].
    + rewrite lookup_alter_eq, Hr. simpl. eexists. split; [done|].
      destruct (P r) eqn:HP; [by apply Hf|done].
    + rewrite lookup_alter_ne by done. by exists r.
  - intros k r Hr _. by exists r.
Qed.

(** ** Statements on capabilities *)
Lemma set_capabilities_vquiet t db :
  (∀ id c, capabilities db !! id = Some c → unbound c = false →
     ∃ c', t !! id = Some c' ∧ cap_le c c') →
  (map_Forall (λ _, distinct_child) (capabilities db) → map_Forall (λ _, distinct_child) t) →
  vquiet db (set_capabilities t db).
Proof.
  intros Hle Hd. split; [split; cbn; [done|done| |done]|].
  - intros k r Hr. by exists r.
  - intros k r Hr _. by exists r.
Qed.

Lemma sql_update_cap_vquiet P f db :
  (∀ id c, capabilities db !! id = Some c → P id c = true → cap_le c (f c)) →
  (∀ id c, capabilities db !! id = Some c → P id c = true → distinct_child c → distinct_child (f c)) →
  vquiet db (set_capabilities (sql_update P f (capabilities db)) db).
Proof.
  intros Hle Hd. apply set_capabilities_vquiet.
  - intros id c Hc _. rewrite lookup_sql_update, Hc. simpl. eexists. split; [done|].
    destruct (P id c) eqn:HP; [by eapply Hle|done].
  - intros Hall id c. rewrite lookup_sql_update, fmap_Some. intros (c0 & Hc0 & ->).
    destruct (P id c0) eqn:HP; [eapply Hd|]; by eauto.
Qed.

Lemma insert_capability_vquiet c db db' :
  insert_capability c db = Ok db' → vc_verifier_agent_id c = None → vquiet db db'.
Proof.
  unfold insert_capability. intros H Hv. destruct (capabilities db !! vc_id c) eqn:Hid; [done|].
  injection H as <-. apply set_capabilities_vquiet.
  - intros id c0 Hc0 _. exists c0. rewrite lookup_insert_ne by congruence. done.
  - intros Hall. apply map_Forall_insert_2; [|done]. unfold distinct_child. simpl. congruence.
Qed.

Lemma update_capability_eq id P f db :
  update_capability id P f db =
    (match capabilities db !! id with Some c => if P c then 1%nat else 0%nat | None => 0%nat end,
     set_capabilities (alter (λ c, if P c then f c else c) id (capabilities db)) db).
Proof.
  unfold update_capability. f_equal; [apply count_by_id|f_equal; apply update_by_id].
Qed.

Lemma update_capability_vquiet id P f db n db' :
  update_capability id P f db = (n, db') →
  (∀ c, capabilities db !! id = Some c → P c = true → cap_le c (f c)) →
  (∀ c, capabilities db !! id = Some c → P c = true → distinct_child c → distinct_child (f c)) →
  vquiet db db'.
Proof.
  unfold update_capability. intros [= <- <-] Hle Hd.
  apply sql_update_cap_vquiet; intros k c Hc; destruct (String.eqb_spec k id) as [->|]; simpl; eauto; done.
Qed.
Lemma delete_capability_vquiet id db n db' :
  delete_capability id unbound db = (n, db') → vquiet db db'.
Proof.
  unfold delete_capability. intros [= <- <-]. trans (set_capabilities
    (sql_delete (λ k c, String.eqb k id && unbound c) (capabilities db)) db).
  - apply set_capabilities_vquiet.
    + intros k c Hc Hu. exists c. rewrite lookup_sql_delete, Hc. simpl. by rewrite Hu, andb_false_r.
    + intros Hall k c. rewrite lookup_sql_delete. intros (c0 & Hc0 & H)%bind_Some.
      destruct (_ && _); [done|]. injection H as <-. by eapply Hall.
  - apply vquiet_tables; by destruct (_ =? 0)%nat.
Qed.

(** ** Statements on handoffs *)
Lemma set_handoffs_vquiet t db : vquiet db (set_handoffs t db).
Proof. by apply vquiet_tables. Qed.
Lemma insert_handoff_vquiet id h db db' : insert_handoff id h db = Ok db' → vquiet db db'.
Proof.
  unfold insert_handoff. intros H. repeat split_match; inv_ok. apply set_handoffs_vquiet.
Qed.

Lemma update_handoff_vquiet id P f db n db' : update_handoff id P f db = (n, db') → vquiet db db'.
Proof. unfold update_handoff. intros [= _ <-]. apply set_handoffs_vquiet. Qed.
Lemma delete_handoff_vquiet id P db n db' : delete_handoff id P db = (n, db') → vquiet db db'.
Proof. unfold delete_handoff. intros [= _ <-]. apply set_handoffs_vquiet. Qed.

Lemma update_handoff_frame id P f db n db' :
  update_handoff id P f db = (n, db') →
  capabilities db' = capabilities db ∧ verifications db' = verifications db
  ∧ db_delivery db' = db_delivery db ∧ db_tasks db' = db_tasks db ∧ db_agents db' = db_agents db.
Proof. unfold update_handoff. by intros [= _ <-]. Qed.

(** ** Statements on verdicts *)
Lemma set_verifications_vquiet t db :
  (∀ id r', t !! id = Some r' → verifier_row r' →
     ∃ r, verifications db !! id = Some r ∧ same_author r r') →
  vquiet db (set_verifications t db).
Proof. intros Ht. by split; [apply vle_eq|]. Qed.
Lemma save_issues_vquiet v db : vquiet db (save_verification_issues_with_conn v db).
Proof. by apply vquiet_tables. Qed.
Lemma delete_verifications_vquiet P db : vquiet db (delete_verifications P db).
Proof.
  split; [by apply vle_eq|]. intros id r'. unfold delete_verifications, verifications. simpl.
  rewrite lookup_sql_delete. intros (r & Hr & H)%bind_Some _.
  destruct (P id r); [done|]. injection H as <-. by exists r.
Qed.

(** ** Reads *)
Lemma parse_dispatch_Ok id r d :
  parse_dispatch id r = Ok d →
  vd_id d = id ∧ vd_task_id d = ds_task_id r ∧ vd_receipt_id d = ds_receipt_id r
  ∧ vd_delivery_transaction_id d = ds_delivery_transaction_id r
  ∧ vd_repository d = ds_repository_proof r ∧ vd_owner_agent_id d = ds_owner_agent_id r
  ∧ vd_verifier_agent_id d = ds_verifier_agent_id r ∧ vd_capability_id d = ds_capability_id r
  ∧ vd_requested_at d = ds_requested_at r ∧ vd_deadline_at d = ds_deadline_at r
  ∧ VerificationDispatchState_from_str (ds_state r) = Ok (vd_state d).
Proof. unfold parse_dispatch. intros H. repeat split_match; inv_ok. by split_and!. Qed.
Lemma get_dispatch_Ok id db d :
  get_verification_dispatch_with_conn id db = Ok d →
  ∃ r, dispatches db !! id = Some r ∧ parse_dispatch id r = Ok d.
Proof. unfold get_verification_dispatch_with_conn. intros H. split_match; [by eauto|done]. Qed.
Lemma get_dispatch_id id db d : get_verification_dispatch_with_conn id db = Ok d → vd_id d = id.
Proof. by intros (r & _ & (-> & _)%parse_dispatch_Ok)%get_dispatch_Ok. Qed.

#[export] Instance newest_dispatch_order : SqlOrder newest_dispatch :=
  then_by_order _ _ (desc_order _) (flip_order (by_text fst) (by_text_order _)).

Lemma latest_row task_id db id r :
  head (task_dispatches task_id db) = Some (id, r) ↔
  dispatches db !! id = Some r ∧ ds_task_id r = task_id
  ∧ ∀ k x, dispatches db !! k = Some x → ds_task_id x = task_id →
      le_of newest_dispatch (id, r) (k, x) = true.
Proof.
  unfold task_dispatches. set (l := sql_select _ _).
  assert (∀ k x, (k, x) ∈ l ↔ dispatches db !! k = Some x ∧ ds_task_id x = task_id) as Hl.
  { intros k x. unfold l. rewrite elem_of_sql_select. by rewrite String.eqb_eq. }
  split.
  - intros [Hin Hmin]%(order_by_head newest_dispatch). apply Hl in Hin as [? ?].
    split_and!; [done..|]. intros k x ? ?. by apply Hmin, Hl.
  - intros (Hr & Ht & Hmin). destruct (order_by (le_of newest_dispatch) l) as [|[k x] l'] eqn:E.
    { assert ((id, r) ∈ order_by (le_of newest_dispatch) l) as Hin
        by (by apply elem_of_order_by, Hl). rewrite E in Hin. by apply elem_of_nil in Hin. }
    pose proof (f_equal head E) as [Hin Hle]%(order_by_head newest_dispatch).
    apply Hl in Hin as [Hx Hxt]. specialize (Hmin k x Hx Hxt).
    assert (le_of newest_dispatch (k, x) (id, r) = true) as Hle' by (by apply Hle, Hl).
    unfold le_of in *. rewrite (so_opp (c := newest_dispatch) (id, r) (k, x)) in Hle'.
    assert (newest_dispatch (id, r) (k, x) = Eq) as Heq by (by destruct (newest_dispatch _ _)).
    revert Heq. unfold newest_dispatch, then_by, by_text. simpl.
    destruct (desc _ _ _); [|done..]. intros ->%String.compare_eq_iff. simpl. congruence.
Qed.

Lemma get_latest_Some task_id db d :
  get_latest_verification_dispatch_with_conn task_id db = Ok (Some d) →
  ∃ r, head (task_dispatches task_id db) = Some (vd_id d, r) ∧ parse_dispatch (vd_id d) r = Ok d.
Proof.
  unfold get_latest_verification_dispatch_with_conn. intros H. split_match; [done|].
  destruct p as [id r]. destruct (parse_dispatch id r) as [d'|] eqn:Hp; simplify_eq/=.
  pose proof Hp as (-> & _)%parse_dispatch_Ok. by exists r.
Qed.
(** A write that keeps the task and the time of a dispatch keeps it the latest. *)
Lemma latest_alter id f task_id db db' r :
  dispatches db' = alter f id (dispatches db) →
  (∀ x, ds_task_id (f x) = ds_task_id x ∧ ds_requested_at (f x) = ds_requested_at x) →
  head (task_dispatches task_id db) = Some (id, r) →
  head (task_dispatches task_id db') = Some (id, f r).
Proof.
  intros Hd Hf (Hr & Ht & Hmin)%latest_row. apply latest_row. rewrite Hd, lookup_alter_eq, Hr.
  split_and!; [done|by rewrite (proj1 (Hf r))|]. intros k x Hx Hxt.
  assert (∃ y, dispatches db !! k = Some y ∧ ds_task_id y = task_id
          ∧ ds_requested_at y = ds_requested_at x) as (y & Hy & Hyt & Hyr).
  { destruct (decide (k = id)) as [->|Hne]; [|rewrite lookup_alter_ne in Hx by done; by exists x].
    rewrite lookup_alter_eq, Hr in Hx. injection Hx as <-. exists r.
    destruct (Hf r) as [_ <-]. done. }
  specialize (Hmin k y Hy Hyt). revert Hmin. unfold le_of, newest_dispatch, then_by, desc, by_text. simpl.
  by rewrite Hyr, (proj2 (Hf r)).
Qed.
