(* ===== verification/VerificationSteps.v ===== *)
(** * What each verification operation does to the tables

    Every operation on dispatches, capabilities and verdicts moves the tables
    along the order of [VerificationSpec]; a verdict of a verifier child enters
    them only with a spent capability behind it, and the transaction that
    records it spends that capability itself. *)

From S2P Require Import Prelude Enums TaskTypes VerifierText Verifications Agents Db NoteMarkers TaskRows TaskStore LeaseStore Continuity AgentStore Dispatches Capabilities VerificationStore Deliveries VerdictTransaction VerificationSpec.

#[local] Opaque update_task update_capability update_handoff delete_capability delete_handoff.

(** ** Dispatch operations *)

(** A chain of statements: the last one first *)
Ltac by_update H :=
  eapply update_dispatch_vquiet; [exact H|]; let HP := fresh "HP" in
  intros ? ? HP; cbv beta in HP; bool_to_prop; apply rtc_once.

(** Every branch of an operation that succeeded *)
Ltac ok_cases := inv_ok; repeat (split_match; inv_ok).

Lemma create_bound_Ok random task_id requester owner boundary deadline recovery now db d db' :
  create_verification_dispatch_bound_in_transaction random task_id requester owner boundary
    deadline recovery now db = Ok (d, db') →
  vquiet db db'.
Proof.
  unfold create_verification_dispatch_bound_in_transaction. intros H. ok_cases; try done.
  match goal with H : insert_dispatch _ _ _ = Ok _ |- _ => by apply insert_dispatch_Ok in H as (_ & _ & H) end.
Qed.

Lemma claim_dispatch_vquiet id owner verifier capability now db n db' :
  claim_dispatch id owner verifier capability now db = Ok (n, db') → vquiet db db'.
Proof.
  unfold claim_dispatch. intros H. by_update H. apply dp_claim.
  match goal with H : state_in _ _ = true |- _ => apply state_in_elem in H end. set_solver.
Qed.
Lemma claim_bound_vquiet id owner verifier capability now db d db' :
  claim_verification_dispatch_bound id owner verifier capability now db = Ok (d, db') → vquiet db db'.
Proof.
  unfold claim_verification_dispatch_bound. intros H. ok_cases.
  by eapply claim_dispatch_vquiet.
Qed.
Lemma claim_task_vquiet task_id owner verifier capability now db d db' :
  claim_verification_dispatch task_id owner verifier capability now db = Ok (d, db') → vquiet db db'.
Proof.
  unfold claim_verification_dispatch. intros H. inv_ok. by eapply claim_bound_vquiet.
Qed.

Lemma resolve_vquiet id verifier capability sup now db d db' :
  resolve_verification_dispatch_with_conn id verifier capability sup now db = Ok (d, db') →
  vquiet db db'.
Proof.
  unfold resolve_verification_dispatch_with_conn. intros H. ok_cases.
  match goal with H : update_dispatch _ _ _ _ = _ |- _ => by_update H end. by apply dp_resolve.
Qed.

Lemma timeout_vquiet task_id now db d db' :
  timeout_verification_dispatch task_id now db = Ok (d, db') → vquiet db db'.
Proof.
  unfold timeout_verification_dispatch. intros H. ok_cases; [|done].
  match goal with H : update_dispatch _ _ _ _ = _ |- _ => by_update H end. by apply dp_time_out.
Qed.

Lemma extend_vquiet id now to cap db d db' :
  extend_verification_dispatch_deadline id now to cap db = Ok (d, db') → vquiet db db'.
Proof.
  unfold extend_verification_dispatch_deadline. intros H. ok_cases; [done|..];
  (match goal with H : update_dispatch _ _ _ _ = _ |- _ => by_update H end; bool_to_prop; apply dp_extend; [done|lia]).
Qed.

Lemma invalidate_cycle_vquiet id now db d db' :
  invalidate_verification_dispatch_for_new_cycle_with_conn id now db = Ok (d, db') → vquiet db db'.
Proof.
  unfold invalidate_verification_dispatch_for_new_cycle_with_conn. intros H. ok_cases; try done;
  (match goal with H : update_dispatch _ _ _ _ = _ |- _ => by_update H end;
   apply dp_invalidate, state_in_elem;
   match goal with H : state_in _ _ = true |- _ => apply state_in_elem in H end; set_solver).
Qed.
Lemma invalidate_latest_vquiet task_id now db d db' :
  invalidate_verification_dispatch_for_new_cycle task_id now db = Ok (d, db') → vquiet db db'.
Proof.
  unfold invalidate_verification_dispatch_for_new_cycle. intros H. ok_cases; try done.
  by eapply invalidate_cycle_vquiet.
Qed.

Lemma consume_capabilities_vquiet P now db : vquiet db (consume_capabilities P now db).
Proof.
  apply (sql_update_cap_vquiet P (λ c, c <| cp_consumed_at ::= λ o, coalesce o (Some now) |>)).
  - intros id c _ _. split_and!; try done. cbn. by intros t ->.
  - intros id c _ _ H. exact H.
Qed.
Lemma consume_handoffs_vquiet P now db : vquiet db (consume_handoffs P now db).
Proof. by apply vquiet_tables. Qed.

Lemma update_task_verification id P f db :
  db_verification (update_task id P f db).1 = db_verification db.
Proof. Transparent update_task. unfold update_task. by repeat split_match. Qed.
#[local] Opaque update_task.

Lemma invalidate_drift_vquiet id now db d db' :
  invalidate_verification_dispatch_for_repository_drift id now db = Ok (d, db') → vquiet db db'.
Proof.
  unfold invalidate_verification_dispatch_for_repository_drift. intros H. inv_ok.
  split_match; [done|]. split_match; [by inv_ok|].
  set (db1 := match vd_capability_id _ with Some _ => _ | None => _ end) in H.
  assert (vquiet db db1) as Hq.
  { unfold db1. split_match; [|done].
    etrans; [apply consume_capabilities_vquiet|apply consume_handoffs_vquiet]. }
  clearbody db1. apply bind_Ok in H as ([n db2] & Hu & H). trans db1; [done|]. trans db2.
  - by_update Hu. by apply dp_invalidate.
  - ok_cases. apply vquiet_eq. match goal with H : update_task ?i ?P ?f ?d = _ |- _ =>
      pose proof (update_task_verification i P f d) as E; by rewrite H in E end.
Qed.

(** *** Adoption *)
Definition open_in (db : Db) (id : string) : Prop :=
  ∃ r, dispatches db !! id = Some r ∧ dispatch_open r = true.

Lemma adopt_each_vquiet ids sup machine session dead deadline now adopted db n db' :
  NoDup ids → Forall (open_in db) ids →
  adopt_each ids sup machine session dead deadline now adopted db = Ok (n, db') → vquiet db db'.
Proof.
  revert adopted db. induction ids as [|id ids IH]; simpl; intros adopted db Hnd Hopen H; [by inv_ok|].
  apply NoDup_cons in Hnd as [Hid Hnd]. apply Forall_cons in Hopen as [(r & Hr & Ho) Hopen].
  apply bind_Ok in H as (d & _ & H). split_match; [by eapply IH|].
  apply bind_Ok in H as ([m db2] & Hu & H).
  set (db1 := consume_handoffs _ now (consume_capabilities _ now db)) in Hu.
  assert (dispatches db1 = dispatches db) as Hd by done.
  assert (vquiet db db1) as Hq.
  { etrans; [apply consume_capabilities_vquiet|apply consume_handoffs_vquiet]. }
  clearbody db1. trans db1; [done|]. trans db2.
  - eapply update_dispatch_vquiet; [exact Hu|]. intros r' Hr' _. apply rtc_once, dp_adopt. congruence.
  - eapply IH; [done| |exact H]. apply update_dispatch_Ok in Hu as (_ & -> & _).
    apply Forall_forall. intros k Hk. rewrite Forall_forall in Hopen.
    destruct (Hopen k Hk) as (x & Hx & Hxo). exists x. split; [|done].
    cbn. rewrite lookup_alter_ne by set_solver. by rewrite Hd.
Qed.

Lemma adopt_vquiet has_tasks machine sup dead deadline now db n db' :
  adopt_orphaned_verification_dispatches has_tasks machine sup dead deadline now db = Ok (n, db') →
  vquiet db db'.
Proof.
  unfold adopt_orphaned_verification_dispatches. intros H.
  destruct has_tasks; simpl in H; [|by inv_ok].
  destruct (adopter sup machine db) as [[m s]|]; [|by inv_ok].
  eapply adopt_each_vquiet; [| |exact H].
  - unfold orphan_candidates. apply NoDup_sql_select.
  - apply Forall_forall. unfold orphan_candidates. intros id Hid.
    apply list_elem_of_fmap in Hid as ([k r] & -> & [Hr HP]%elem_of_sql_select).
    bool_to_prop. by exists r.
Qed.

(** ** Capability operations *)
Section capability_operations.
Context {host : Host}.

Lemma issue_capability_vquiet clk rid rsec task_id issuer db c db' :
  issue_verifier_capability clk rid rsec task_id issuer db = Ok (c, db') → vquiet db db'.
Proof.
  unfold issue_verifier_capability. intros H. ok_cases.
  match goal with H : insert_capability _ _ = _ |- _ => by apply insert_capability_vquiet in H end.
Qed.

Lemma cap_bound c verifier now :
  unbound c = true →
  cap_le c (c <| cp_verifier_agent_id := Some verifier |> <| cp_bound_at := Some now |>).
Proof.
  unfold unbound. destruct (cp_verifier_agent_id c) eqn:Hv, (cp_consumed_at c) eqn:Hc; try done. intros _.
  split_and!; try done; cbn; congruence.
Qed.

Lemma load_capability_Ok id db c :
  load_capability_with_conn id db = Ok c →
  ∃ r, capabilities db !! id = Some r ∧ c = capability_from_row id r.
Proof.
  unfold load_capability_with_conn. destruct (capabilities db !! id) as [r|]; simpl; [|done].
  intros [= <-]. by exists r.
Qed.

Lemma bind_capability_vquiet clk token verifier db c db' :
  bind_verifier_capability clk token verifier db = Ok (c, db') → vquiet db db'.
Proof.
  unfold bind_verifier_capability. intros H.
  apply bind_Ok in H as (id & _ & H). apply bind_Ok in H as (cap & Hload & H).
  apply load_capability_Ok in Hload as (r & Hr & ->). ok_cases.
  match goal with H : update_capability _ _ _ _ = _ |- _ => rename H into Hu end.
  eapply update_capability_vquiet; [exact Hu|..]; intros c0 Hc0 HP; cbv beta in HP.
  - bool_to_prop. by apply cap_bound.
  - assert (c0 = r) as -> by congruence. clear HP. bool_to_prop. intros _ v [= <-]. done.
Qed.

Lemma mark_consumed_vquiet id task_id verifier now db n db' :
  mark_consumed id task_id verifier now db = (n, db') → vquiet db db'.
Proof.
  intros H. eapply update_capability_vquiet; [exact H|..]; intros c Hc HP; cbv beta in HP; [|done]. bool_to_prop.
  split_and!; try done; cbn. destruct (cp_consumed_at c); [done|congruence].
Qed.
(** *** Handoffs *)
Lemma forget_expired_vquiet id db : vquiet db (forget_expired id db).
Proof.
  unfold forget_expired. destruct (delete_handoff _ _ db) as [n db1] eqn:H1.
  destruct (delete_capability _ _ db1) as [m db2] eqn:H2.
  etrans; [by eapply delete_handoff_vquiet|by eapply delete_capability_vquiet].
Qed.
Lemma forget_all_vquiet ids db : vquiet db (foldl (λ db id, forget_expired id db) db ids).
Proof.
  revert db. induction ids as [|id ids IH]; intros db; simpl; [done|].
  etrans; [apply forget_expired_vquiet|apply IH].
Qed.

Lemma issue_handoff_vquiet random task_id dispatch_id issuer tool secret now db c db' :
  issue_server_verifier_handoff_with_secret random task_id dispatch_id issuer tool secret now db
  = Ok (c, db') → vquiet db db'.
Proof.
  unfold issue_server_verifier_handoff_with_secret. intros H. split_match; [done|].
  set (db1 := foldl _ _ _) in H. assert (vquiet db db1) as Hq by apply forget_all_vquiet.
  clearbody db1. ok_cases. trans db1; [done|].
  match goal with H : insert_capability _ _ = Ok ?db2 |- _ => trans db2 end.
  - by eapply insert_capability_vquiet.
  - by eapply insert_handoff_vquiet.
Qed.

Lemma bind_handoff_vquiet issuer verifier now db c db' :
  bind_server_verifier_handoff_with_conn issuer verifier now db = Ok (c, db') →
  verifier ≠ issuer → vquiet db db'.
Proof.
  unfold bind_server_verifier_handoff_with_conn. intros H Hne.
  destruct (waiting _ _) as [|id [|? ?]]; [done| |done].
  apply bind_Ok in H as (cap & Hload & H). apply load_capability_Ok in Hload as (r & Hr & ->).
  destruct (_ || _) eqn:Hg; [done|]. inv_ok. ok_cases.
  match goal with
  | Hc : update_capability _ _ _ _ = (_, ?db1), Hh : update_handoff _ _ _ ?db1 = (_, ?db2),
    Hd : claim_dispatch _ _ _ _ _ ?db2 = _ |- _ =>
      trans db1; [eapply update_capability_vquiet; [exact Hc|..]|
      trans db2; [by eapply update_handoff_vquiet|by eapply claim_dispatch_vquiet]]
  end; intros c0 Hc0 HP; cbv beta in HP.
  - bool_to_prop. by apply cap_bound.
  - assert (c0 = r) as -> by congruence. intros _ v [= <-]. clear HP. bool_to_prop. simpl in *. congruence.
Qed.

Lemma distinct_child_Ok issuer verifier u :
  validate_distinct_verifier_child issuer verifier = Ok u → verifier ≠ issuer.
Proof. unfold validate_distinct_verifier_child. intros H. split_match; [done|]. bool_to_prop. congruence. Qed.

Lemma bind_handoff_distinct_vquiet issuer verifier now db c db' :
  bind_server_verifier_handoff issuer verifier now db = Ok (c, db') → vquiet db db'.
Proof.
  unfold bind_server_verifier_handoff. intros (u & Hu%distinct_child_Ok & H)%bind_Ok.
  by eapply bind_handoff_vquiet.
Qed.

Lemma cancel_handoff_vquiet issuer tool db b db' :
  cancel_unbound_server_verifier_handoff issuer tool db = Ok (b, db') → vquiet db db'.
Proof.
  unfold cancel_unbound_server_verifier_handoff. intros H. split_match; [by inv_ok|].
  destruct (waiting _ _) as [|id [|? ?]]; [by inv_ok| |done].
  destruct (delete_handoff _ _ db) as [n db1] eqn:Hd. trans db1; [by eapply delete_handoff_vquiet|].
  destruct (n =? 1)%nat; [|by inv_ok].
  destruct (delete_capability _ _ db1) as [m db2] eqn:Hc. inv_ok. by eapply delete_capability_vquiet.
Qed.

(** Registration leaves the verification tables alone. *)
Lemma capture_verification now id reason db db' :
  capture now id reason db = Ok db' → db_verification db' = db_verification db.
Proof. unfold capture, insert_session_end. intros H. by ok_cases. Qed.
Lemma capture_all_verification clk k ids db db' :
  capture_all clk k ids db = Ok db' → db_verification db' = db_verification db.
Proof.
  revert k db. induction ids as [|id ids IH]; intros k db; simpl; [by intros [= ->]|].
  intros (db1 & Hc%capture_verification & H%IH)%bind_Ok. congruence.
Qed.
Lemma rehome_verification (froms : list string) (to at_ : string) db :
  db_verification (foldl (λ db from, rehome_workers from to at_ db) db froms) = db_verification db.
Proof. revert db. induction froms as [|from froms IH]; intros db; simpl; [done|]. by rewrite IH. Qed.
Lemma register_verification clk agent db db' :
  register_agent_with_conn clk agent db = Ok db' → db_verification db' = db_verification db.
Proof.
  unfold register_agent_with_conn. intros (db1 & H & H1)%bind_Ok.
  assert (db_verification db' = db_verification db1) as -> by (by destruct (negb _); inv_ok). clear H1.
  unfold reconcile_restarted_factory_supervisor in H.
  repeat split_match; inv_ok; try done. simpl. rewrite rehome_verification.
  match goal with H : capture_all _ _ _ _ = _ |- _ => by apply capture_all_verification in H end.
Qed.

Lemma bind_register_vquiet clk issuer child db c db' :
  bind_server_verifier_handoff_and_register_child clk issuer child db = Ok (c, db') → vquiet db db'.
Proof.
  unfold bind_server_verifier_handoff_and_register_child.
  intros (u & Hu%distinct_child_Ok & H)%bind_Ok. do 3 (split_match; [done|]).
  apply bind_Ok in H as ([b db1] & Hb & H). apply bind_Ok in H as (db2 & Hr%register_verification & H).
  inv_ok. trans db1; [by eapply bind_handoff_vquiet|by apply vquiet_eq].
Qed.
End capability_operations.

(** ** Spending a capability *)

Definition same_but_verification (db db' : Db) : Prop :=
  db_delivery db' = db_delivery db ∧ db_tasks db' = db_tasks db ∧ db_agents db' = db_agents db.

(** The capability [c] of the verifier on the task is spent now: it was bound,
    unspent and running, and its dispatch names it. *)
Record spends (task_id verifier : string) (c : VerifierCapability) (db db' : Db) : Prop := mk_spends {
  sp_row r : capabilities db !! vc_id c = Some r → cp_consumed_at r = None;
  sp_spent : ∃ r, capabilities db' !! vc_id c = Some r ∧ c = capability_from_row (vc_id c) r
               ∧ is_Some (cp_consumed_at r);
  sp_task : vc_task_id c = task_id;
  sp_verifier : vc_verifier_agent_id c = Some verifier;
  sp_dispatch : ∃ dispatch_id d, vc_dispatch_id c = Some dispatch_id
    ∧ dispatches db !! dispatch_id = Some d ∧ ds_task_id d = task_id
    ∧ ds_verifier_agent_id d = Some verifier ∧ ds_capability_id d = Some (vc_id c);
  sp_verdicts : verifications db' = verifications db;
  sp_frame : same_but_verification db db';
  sp_vquiet : vquiet db db';
}.

Section spending.
Context {host : Host}.

Lemma mark_consumed_Ok id task_id verifier now db n db' :
  mark_consumed id task_id verifier now db = (n, db') → (n =? 1)%nat = true →
  ∃ r, capabilities db !! id = Some r ∧ cp_consumed_at r = None
    ∧ cp_verifier_agent_id r = Some verifier ∧ cp_task_id r = task_id ∧ now < cp_expires_at r
    ∧ db' = set_capabilities (<[id := r <| cp_consumed_at := Some now |>]> (capabilities db)) db.
Proof.
  unfold mark_consumed. rewrite update_capability_eq. intros [= <- <-] Hn.
  destruct (capabilities db !! id) as [r|] eqn:Hr; [|done].
  destruct (is_none (cp_consumed_at r) && _ && _ && _) eqn:HP; [|done]. bool_to_prop.
  destruct (cp_consumed_at r) eqn:Hc; [done|]. exists r. split_and!; try done. f_equal.
  apply map_eq. intros k. destruct (decide (k = id)) as [->|Hne].
  - rewrite lookup_alter_eq, lookup_insert_eq, Hr. simpl. f_equal.
    rewrite Hc. cbn [is_none andb]. rewrite bool_decide_true by done.
    rewrite (proj2 (String.eqb_eq _ _)) by done. by rewrite (proj2 (Z.ltb_lt _ _)) by done.
  - by rewrite lookup_alter_ne, lookup_insert_ne.
Qed.

Lemma consume_token_spends clk token task_id verifier db c db' :
  consume_verifier_capability_with_conn clk token task_id verifier db = Ok (c, db') →
  spends task_id verifier c db db'.
Proof.
  unfold consume_verifier_capability_with_conn. intros H.
  apply bind_Ok in H as (id & _ & H). apply bind_Ok in H as (cap & Hload & H).
  apply load_capability_Ok in Hload as (r & Hr & ->).
  apply bind_Ok in H as (did & Hdid & H). apply bind_Ok in H as (d & Hd & H).
  destruct (_ || _) eqn:Hg; [done|]. bool_to_prop.
  destruct (mark_consumed _ _ _ _ db) as [n db1] eqn:Hm. destruct (n =? 1)%nat eqn:Hn; [|done].
  injection H as <- <-. pose proof (mark_consumed_vquiet _ _ _ _ _ _ _ Hm) as Hq.
  apply (mark_consumed_Ok _ _ _ _ _ _ _ Hm) in Hn as (r' & Hr' & Hnone & Hv & Ht & _ & ->).
  assert (r' = r) as -> by congruence.
  apply get_dispatch_Ok in Hd as (dr & Hdr & Hp%parse_dispatch_Ok). destruct_and! Hp.
  split; cbn; try done.
  - intros r0. by rewrite Hr; intros [= <-].
  - eexists. rewrite lookup_insert_eq. split_and!; [done|done|by eexists].
  - simpl in Hdid. destruct (cp_dispatch_id r) as [x|]; [|done]. injection Hdid as ->.
    exists did, dr. split_and!; try done; simpl in *; congruence.
Qed.

Lemma consume_handoff_spends id task_id verifier expected now db c db' :
  consume_server_handoff_with_conn id task_id verifier expected now db = Ok (c, db') →
  spends task_id verifier c db db'.
Proof.
  unfold consume_server_handoff_with_conn. intros H.
  apply bind_Ok in H as (cap & Hload & H).
  apply load_capability_Ok in Hload as (r & Hr & ->). split_match; [done|].
  apply bind_Ok in H as (did & Hdid & H). apply bind_Ok in H as (d & Hd & H).
  apply bind_Ok in H as (sup & _ & H). destruct sup; [done|].
  destruct (_ || _) eqn:Hg in H; [done|]. bool_to_prop.
  apply bind_Ok in H as (db0 & Hlate & H).
  assert (vquiet db db0 ∧ capabilities db0 = capabilities db ∧ verifications db0 = verifications db
          ∧ same_but_verification db db0) as (Hq0 & Hc0 & Hv0 & Hf0).
  { destruct (_ && _) in Hlate; [|by inv_ok]. destruct (update_dispatch _ _ _ db) as [[n db1]|] eqn:Hu; [|done]. injection Hlate as <-.
    split_and!; [|by apply update_dispatch_Ok in Hu as (_ & -> & _)..].
    by_update Hu. apply dp_late_claim.
    match goal with H : state_in _ _ = true |- _ => apply state_in_elem in H end. set_solver. }
  destruct (mark_consumed _ _ _ _ db0) as [n db1] eqn:Hm. destruct (n =? 1)%nat eqn:Hn; [|done].
  destruct (update_handoff _ _ _ db1) as [m db2] eqn:Hh. destruct (m =? 1)%nat; [|done].
  injection H as <- <-. pose proof (mark_consumed_vquiet _ _ _ _ _ _ _ Hm) as Hq.
  pose proof (update_handoff_vquiet _ _ _ _ _ _ Hh) as Hq2.
  assert (capabilities db2 = capabilities db1 ∧ verifications db2 = verifications db1
          ∧ same_but_verification db1 db2) as (Hc2 & Hv2 & Hf2)
    by (by apply update_handoff_frame in Hh).
  apply (mark_consumed_Ok _ _ _ _ _ _ _ Hm) in Hn as (r' & Hr' & Hnone & Hv & Ht & _ & ->).
  cbn [vc_id capability_from_row] in *. assert (r' = r) as -> by congruence.
  apply get_dispatch_Ok in Hd as (dr & Hdr & Hp%parse_dispatch_Ok). destruct_and! Hp.
  split; cbn; try done.
  - intros r0. by rewrite Hr; intros [= <-].
  - rewrite Hc2. cbn. rewrite lookup_insert_eq. eexists. split_and!; [done|done|by eexists].
  - simpl in Hdid. destruct (cp_dispatch_id r) as [x|]; [|done]. injection Hdid as ->.
    exists did, dr. split_and!; try done; simpl in *; congruence.
  - rewrite Hv2. cbn. exact Hv0.
  - destruct Hf0 as (? & ? & ?), Hf2 as (? & ? & ?). cbn in *. split_and!; congruence.
  - etrans; [exact Hq0|]. etrans; [exact Hq|exact Hq2].
Qed.
End spending.

(** ** Verdict operations *)
Lemma insert_verification_Ok v db db' :
  insert_verification_with_conn v db = Ok db' →
  verifications db !! v_id v = None
  ∧ verifications db' = <[v_id v := verification_row v]> (verifications db)
  ∧ capabilities db' = capabilities db ∧ dispatches db' = dispatches db.
Proof.
  unfold insert_verification_with_conn. intros H.
  destruct (verifications db !! v_id v) eqn:Hv; [done|]. by injection H as <-.
Qed.
Lemma verification_row_verifier v :
  verifier_row (verification_row v) ↔ v_provenance v = VerificationProvenance_TaskVerifier.
Proof.
  unfold verifier_row. cbn [verification_row vr_provenance]. destruct (v_provenance v); split; done.
Qed.

Lemma insert_quiet v db db' :
  insert_verification_with_conn v db = Ok db' →
  v_provenance v ≠ VerificationProvenance_TaskVerifier → vquiet db db'.
Proof.
  intros (Hv & Hvs & Hc & Hd)%insert_verification_Ok Hp. split; [by apply vle_eq|].
  intros id r'. rewrite Hvs. destruct (decide (id = v_id v)) as [->|Hne].
  - rewrite lookup_insert_eq. intros [= <-] H%verification_row_verifier. done.
  - rewrite lookup_insert_ne by done. intros Hr _. by exists r'.
Qed.

Lemma add_system_vquiet v db u db' : add_system_verification v db = Ok (u, db') → vquiet db db'.
Proof.
  unfold add_system_verification. intros H. ok_cases. eapply insert_quiet; [done|]. bool_to_prop. congruence.
Qed.

(** An update whose new row has the author of the old one *)
Lemma update_verdict_vquiet id f v db :
  (∀ r, verifications db !! id = Some r → same_author r (f r)) →
  vquiet db (save_verification_issues_with_conn v
               (set_verifications (sql_update_key id f (verifications db)) db)).
Proof.
  intros Hf. etrans; [apply set_verifications_vquiet|apply save_issues_vquiet].
  intros k r' Hr' _. destruct (decide (k = id)) as [->|Hne].
  - destruct (verifications db !! id) as [r|] eqn:Hr.
    + rewrite (sql_update_key_Some _ _ _ r), lookup_insert_eq in Hr' by done. injection Hr' as <-.
      exists r. split; [done|by apply Hf].
    + rewrite sql_update_key_None, Hr in Hr' by done. done.
  - exists r'. split; [|done]. revert Hr'. destruct (verifications db !! id) as [r|] eqn:Hr.
    + by rewrite (sql_update_key_Some _ _ _ r), lookup_insert_ne.
    + by rewrite sql_update_key_None.
Qed.

Lemma same_identity_author id r v :
  same_identity (parse_verification id r) v = true → same_author r (verification_row v).
Proof.
  unfold same_identity. intros H. bool_to_prop.
  cbn [parse_verification v_task_id v_agent_id v_capability_id v_dispatch_id v_issuer_agent_id
       v_provenance v_verification_type] in *.
  split_and!; try (cbn; congruence). intros Hv%verification_row_verifier. unfold verifier_row.
  destruct (VerificationProvenance_from_str (vr_provenance r)) as [p|]; cbn [unwrap_or] in *; [congruence|].
  unfold VerificationProvenance_default in *. congruence.
Qed.

Lemma update_verdict_op_vquiet v db u db' : VerificationStore_update v db = Ok (u, db') → vquiet db db'.
Proof.
  unfold VerificationStore_update. set (w := sanitized_verification_for_write v). clearbody w. intros H.
  destruct (verifications db !! v_id w) as [r|] eqn:Hr; [|done]. simpl in H.
  destruct (same_identity _ w) eqn:Hi; [|done]. simpl in H.
  destruct (validate_verification_authority_with_conn w true db); [|done]. injection H as _ <-.
  apply update_verdict_vquiet. intros r0. rewrite Hr. intros [= <-]. by eapply same_identity_author.
Qed.

Lemma update_system_vquiet v db u db' : update_system_verification v db = Ok (u, db') → vquiet db db'.
Proof.
  unfold update_system_verification. intros H. split_match; [done|].
  apply bind_Ok in H as (e & _ & H). split_match; [done|]. inv_ok.
  apply update_verdict_vquiet. intros r _. by split_and!.
Qed.

Lemma delete_verdict_vquiet id db u db' : VerificationStore_delete id db = Ok (u, db') → vquiet db db'.
Proof.
  unfold VerificationStore_delete. intros H. split_match; [|done]. inv_ok. apply delete_verifications_vquiet.
Qed.
Lemma prune_vquiet days now db n db' : prune days now db = Ok (n, db') → vquiet db db'.
Proof. unfold prune. intros [= _ <-]. apply delete_verifications_vquiet. Qed.

Lemma import_vquiet t d v db b db' :
  import_peer_premerge_verification t d v db = Ok (b, db') → vquiet db db'.
Proof.
  unfold import_peer_premerge_verification. intros H. apply bind_Ok in H as (a & _ & H).
  destruct (peer_import_consistent t d v a) eqn:Hc; [|done]. cbn [negb] in H. ok_cases; [done|].
  match goal with Hi : insert_dispatch _ _ _ = Ok ?db1 |- _ => trans db1;
    [by apply insert_dispatch_Ok in Hi as (_ & _ & Hi)|eapply insert_quiet; [done|]] end.
  unfold peer_import_consistent in Hc. bool_to_prop. congruence.
Qed.

(** ** The invariant *)

(** A verdict of a child that is new is backed by a spent capability. *)
Definition credited (db db' : Db) : Prop :=
  ∀ id r', verifications db' !! id = Some r' → verifier_row r' →
    (∃ r, verifications db !! id = Some r ∧ same_author r r') ∨ backed db' r'.

(** The unique index, the children of capabilities, and the authority of verdicts *)
Record verification_wf (db : Db) : Prop := mk_verification_wf {
  vwf_unique : NoDup (active_dispatch_tasks (dispatches db));
  vwf_distinct : map_Forall (λ _, distinct_child) (capabilities db);
  vwf_backed : map_Forall (λ _ r, verifier_row r → backed db r) (verifications db);
}.
(** No two verdicts of children were given under one capability. *)
Definition single_use (db : Db) : Prop :=
  ∀ id1 id2 r1 r2, verifications db !! id1 = Some r1 → verifications db !! id2 = Some r2 →
    verifier_row r1 → verifier_row r2 → vr_capability_id r1 = vr_capability_id r2 → id1 = id2.

Lemma backed_vle db db' r r' : vle db db' → same_author r r' → backed db r → backed db' r'.
Proof.
  intros Hle (Ht & Ha & _ & Hc & Hd & Hi) (id & c & Hid & Hcap & [t Hcons] & H1 & H2 & H3 & H4 & H5 & H6).
  destruct (vle_capability _ _ Hle id c Hcap) as (c' & Hc' & (Hids & Hv & Hcs)).
  { apply unbound_false. right. by exists t. }
  destruct H6 as [v Hag]. rewrite Hag in H5. symmetry in H5. destruct (Hv v H5) as [Hv' _].
  destruct_and! Hids. exists id, c'. split_and!; try congruence; [by rewrite (Hcs t Hcons); eexists|].
  rewrite Ha, Hag. by eexists.
Qed.

Lemma verification_wf_step db db' :
  vle db db' → credited db db' → verification_wf db → verification_wf db'.
Proof.
  intros Hle Hcr [Hu Hd Hb]. split; [by apply (vle_unique _ _ Hle)|by apply (vle_distinct _ _ Hle)|].
  intros id r' Hr' Hv. destruct (Hcr id r' Hr' Hv) as [(r & Hr & Hs)|Hbk]; [|done].
  apply (backed_vle db _ r); [done|done|]. apply (Hb id r Hr). by apply Hs.
Qed.
Lemma vquiet_credited db db' : vquiet db db' → credited db db'.
Proof. intros [_ Hq] id r' Hr' Hv. left. by apply (Hq id). Qed.
Lemma credited_trans db db1 db2 :
  vle db1 db2 → credited db db1 → credited db1 db2 → credited db db2.
Proof.
  intros Hle H1 H2 id z Hz Hv. destruct (H2 id z Hz Hv) as [(y & Hy & Hyz)|Hb]; [|by right].
  destruct (H1 id y Hy) as [(x & Hx & Hxy)|Hb]; [by apply Hyz| |].
  - left. exists x. split; [done|by etrans].
  - right. by apply (backed_vle db1 _ y).
Qed.

Lemma quiet_single_use db db' : quiet db db' → single_use db → single_use db'.
Proof.
  intros Hq Hs id1 id2 z1 z2 H1 H2 Hv1 Hv2 Heq.
  destruct (Hq id1 z1 H1 Hv1) as (y1 & Hy1 & (_ & _ & Hp1 & Hc1 & _)).
  destruct (Hq id2 z2 H2 Hv2) as (y2 & Hy2 & (_ & _ & Hp2 & Hc2 & _)).
  apply (Hs id1 id2 y1 y2); auto. congruence.
Qed.

(** ** Recording a verdict *)
Lemma sanitized_author v :
  let w := sanitized_verification_for_write v in
  v_id w = v_id v ∧ v_task_id w = v_task_id v ∧ v_agent_id w = v_agent_id v
  ∧ v_provenance w = v_provenance v ∧ v_capability_id w = v_capability_id v
  ∧ v_dispatch_id w = v_dispatch_id v ∧ v_issuer_agent_id w = v_issuer_agent_id v
  ∧ v_status w = v_status v.
Proof.
  unfold sanitized_verification_for_write. cbv zeta.
  destruct (v_provenance v) eqn:E; split_and!; reflexivity || exact E.
Qed.

Lemma verifier_authority_backed v db cid did issuer agent :
  verifier_authority cid (v_task_id v) did issuer agent false db = true →
  v_capability_id v = Some cid → v_dispatch_id v = Some did → v_issuer_agent_id v = Some issuer →
  v_agent_id v = Some agent → backed db (verification_row v).
Proof.
  unfold verifier_authority. intros H Hc Hd Hi Ha.
  destruct (capabilities db !! cid) as [c|] eqn:Hcap; [|done].
  destruct (dispatches db !! did) as [d|]; [|done]. bool_to_prop.
  exists cid, c. cbn. rewrite Hd, Ha. split_and!; try congruence; try (by eexists).
  destruct (cp_consumed_at c); [by eexists|done].
Qed.

Lemma authority_backed v db :
  validate_verification_authority_with_conn v false db = Ok tt →
  v_provenance v = VerificationProvenance_TaskVerifier → backed db (verification_row v).
Proof.
  unfold validate_verification_authority_with_conn. intros H Hp. rewrite Hp in H. inv_ok.
  split_match; [|done].
  repeat match goal with H : ok_or ?o _ = Ok _ |- _ => destruct o eqn:?; [|done]; injection H as -> end.
  by eapply verifier_authority_backed.
Qed.

Lemma add_verification_Ok v db db' :
  add_verification_with_conn v db = Ok db' →
  let w := sanitized_verification_for_write v in
  validate_verification_authority_with_conn w false db = Ok tt
  ∧ verifications db !! v_id v = None
  ∧ verifications db' = <[v_id v := verification_row w]> (verifications db)
  ∧ capabilities db' = capabilities db ∧ dispatches db' = dispatches db
  ∧ vle db db' ∧ credited db db'.
Proof.
  unfold add_verification_with_conn. cbv zeta. intros ([] & Hval & H)%bind_Ok.
  pose proof (sanitized_author v) as Hs. cbv zeta in Hs. destruct_and! Hs.
  set (w := sanitized_verification_for_write v) in *.
  apply insert_verification_Ok in H as (Hnone & Hvs & Hc & Hd).
  assert (v_id w = v_id v) as Hid by done. rewrite Hid in *.
  split_and!; try done; [by apply vle_eq|]. intros id r' Hr' Hv. rewrite Hvs in Hr'.
  destruct (decide (id = v_id v)) as [->|Hne].
  - rewrite lookup_insert_eq in Hr'. injection Hr' as <-. right.
    apply verification_row_verifier in Hv. apply (backed_vle db _ (verification_row w));
      [by apply vle_eq|done|by apply authority_backed].
  - rewrite lookup_insert_ne in Hr' by done. left. by exists r'.
Qed.

(** *** Carrying an approval over *)
Definition ended (d : VerificationDispatch) : Prop :=
  vd_state d = VerificationDispatchState_Resolved ∨ vd_state d = VerificationDispatchState_Invalidated.

Lemma create_after_ended random task_id requester owner boundary deadline recovery now db e d db' :
  create_verification_dispatch_bound_in_transaction random task_id requester owner boundary
    deadline recovery now db = Ok (d, db') →
  get_latest_verification_dispatch_with_conn task_id db = Ok (Some e) → ended e →
  dispatches db' !! vd_id d = Some (dispatch_row d) ∧ vd_state d = VerificationDispatchState_Pending.
Proof.
  unfold create_verification_dispatch_bound_in_transaction. intros H He Hs. rewrite He in H.
  cbn [mbind result_bind] in H.
  assert (option_filter vd_active (Some e) = None) as Ha
    by (cbn; unfold vd_active; by destruct Hs as [-> | ->]).
  rewrite Ha in H. cbn [option_filter mbind option_bind] in H.
  rewrite bool_decide_false in H by (by destruct Hs as [-> | ->]). cbn [andb] in H.
  apply bind_Ok in H as (db1 & (_ & -> & _)%insert_dispatch_Ok & [= <- <-]).
  split; [|done]. cbn. by rewrite lookup_insert_eq.
Qed.

(** The latest dispatch, once resolved, stays the latest and ended. *)
Lemma ended_latest task_id p db n db' :
  get_latest_verification_dispatch_with_conn task_id db = Ok (Some p) → ended p →
  update_dispatch (vd_id p) (state_in ["resolved"]) (λ r, r <| ds_state := "invalidated" |>) db
  = Ok (n, db') →
  ∃ e, get_latest_verification_dispatch_with_conn task_id db' = Ok (Some e) ∧ ended e.
Proof.
  intros (r & Hh & Hp)%get_latest_Some Hend (_ & -> & _)%update_dispatch_Ok.
  set (f := λ r, if state_in ["resolved"] r then r <| ds_state := "invalidated" |> else r).
  apply (latest_alter (vd_id p) f _ _ (set_dispatches (alter f (vd_id p) (dispatches db)) db)) in Hh;
    [|done|intros x; unfold f; by destruct (state_in _ x)].
  unfold get_latest_verification_dispatch_with_conn. fold f.
  destruct (task_dispatches _ (set_dispatches _ _)) as [|[k x] l]; [done|]. injection Hh as -> ->.
  unfold f. destruct (state_in ["resolved"] r); [|rewrite Hp; by eexists].
  revert Hp. unfold parse_dispatch. cbn [ds_state ds_recovery_action update].
  change (VerificationDispatchState_from_str "invalidated") with
    (Ok (E := TypeError) VerificationDispatchState_Invalidated).
  destruct (VerificationDispatchState_from_str (ds_state r)); [|done].
  destruct (VerificationRecoveryAction_from_str (ds_recovery_action r)); [|done]. intros _.
  eexists. split; [done|]. by right.
Qed.

Lemma rebind_vquiet random vid prior_id prior_verdict requester owner boundary receipt clk db x db' :
  rebind_approved_verification_dispatch random vid prior_id prior_verdict requester owner boundary
    receipt clk db = Ok (x, db') → vquiet db db'.
Proof.
  unfold rebind_approved_verification_dispatch. intros H.
  apply bind_Ok in H as (prior & Hprior & H). apply bind_Ok in H as (latest & Hlatest & H).
  destruct (_ || _) eqn:Hg in H; [done|]. bool_to_prop.
  apply bind_Ok in H as ([n db1] & Hu & H). apply bind_Ok in H as ([d db2] & Hc & H).
  apply bind_Ok in H as ([m db3] & Hr & H). apply bind_Ok in H as (db4 & Hi & [= _ <-]).
  destruct latest as [p|]; [|done].
  assert (get_verification_dispatch_with_conn (vd_id p) db = Ok p) as Hgp.
  { apply get_latest_Some in Hlatest as (r & (Hr' & _)%latest_row & Hp).
    unfold get_verification_dispatch_with_conn. by rewrite Hr'. }
  assert (p = prior) as ->.
  { pose proof (get_dispatch_id _ _ _ Hprior). cbn in *. congruence. }
  destruct (ended_latest (vd_task_id prior) prior db n db1) as (e & He & Hend); [done|by left|done|].
  destruct (create_after_ended _ _ _ _ _ _ _ _ _ e _ _ Hc He Hend) as [Hrow Hpend].
  trans db1; [|trans db2; [by eapply create_bound_Ok|trans db3]].
  - eapply update_dispatch_vquiet; [exact Hu|]. intros r _ HP. apply rtc_once.
    replace (r <| ds_state := "invalidated" |>)
      with (r <| ds_state := "invalidated" |> <| ds_resolved_at := ds_resolved_at r |>) by (by destruct r).
    apply dp_invalidate. apply state_in_elem in HP. apply state_in_elem. set_solver.
  - eapply update_dispatch_vquiet; [exact Hr|]. intros r Hr' _. apply rtc_once, dp_resolve.
    rewrite Hrow in Hr'. injection Hr' as <-. unfold dispatch_open, state_in. cbn. by rewrite Hpend.
  - by eapply insert_quiet.
Qed.

(** *** Deliveries leave the verification tables alone *)
Section delivery_frames.
Context {host : Host}.

Lemma insert_event_verification tid state actor detail now db db' :
  insert_event tid state actor detail now db = Ok db' → db_verification db' = db_verification db.
Proof.
  unfold insert_event. cbv zeta. destruct (existsb _ _); [by intros [= <-]|].
  destruct (wtransactions db !! tid); [by intros [= <-]|done].
Qed.

Lemma judge_delivery_verification tid vid approved actor now db t db' :
  transition_worker_delivery_verification_with_conn tid vid approved actor now db = Ok (t, db') →
  db_verification db' = db_verification db.
Proof.
  unfold transition_worker_delivery_verification_with_conn. cbv zeta. intros H. ok_cases; try done;
  match goal with H : insert_event _ _ _ _ _ _ = _ |- _ => by apply insert_event_verification in H end.
Qed.

Lemma create_delivery_verification receipt state actor now db t db' :
  create_worker_delivery_with_conn receipt state actor now db = Ok (t, db') →
  db_verification db' = db_verification db.
Proof.
  unfold create_worker_delivery_with_conn, insert_transaction. cbv zeta. intros H.
  ok_cases; try done;
  match goal with H : insert_event _ _ _ _ _ _ = _ |- _ => by apply insert_event_verification in H end.
Qed.

Lemma transition_verification tid expected state actor sup vid merge err now db t db' :
  transition_worker_delivery tid expected state actor sup vid merge err now db = Ok (t, db') →
  db_verification db' = db_verification db.
Proof.
  unfold transition_worker_delivery. cbv zeta. intros H. ok_cases; [done|].
  match goal with H : insert_event _ _ _ _ _ _ = _ |- _ => by apply insert_event_verification in H end.
Qed.

Lemma create_with_boundary_vquiet clk random receipt state actor owner deadline boundary db x db' :
  create_with_boundary clk random receipt state actor owner deadline boundary db = Ok (x, db') →
  vquiet db db'.
Proof.
  unfold create_with_boundary. intros H. apply bind_Ok in H as ([d db1] & Hd & H).
  apply bind_Ok in H as ([t db2] & Ht & [= _ <-]). trans db1; [by eapply create_bound_Ok|].
  apply vquiet_eq. by eapply create_delivery_verification.
Qed.
Lemma create_for_lease_vquiet clk random receipt state actor epoch owner deadline repository db x db' :
  create_worker_delivery_with_dispatch_for_lease_bound clk random receipt state actor epoch owner
    deadline repository db = Ok (x, db') → vquiet db db'.
Proof.
  unfold create_worker_delivery_with_dispatch_for_lease_bound. intros H.
  split_match; [|by eapply create_with_boundary_vquiet]. ok_cases; done.
Qed.

(** Clearing the flag of a task is one statement on its row. *)
Lemma clear_pending_Ok clk task_id db db' :
  clear_pending_verification_with_conn clk task_id db = Ok db' →
  db' = (update_task task_id t_pending_verification
           (λ t, t <| t_pending_verification := false |> <| t_updated_at := clk 0%nat |>) db).1.
Proof.
  unfold clear_pending_verification_with_conn. destruct (update_task _ _ _ db) as [db1 n].
  destruct (n =? 0)%nat; [intros ([] & _ & H)%bind_Ok|intros H]; by injection H.
Qed.

(** *** The verdict transaction *)
Lemma map_err_Ok {E E' A} (f : E → E') (r : Result E A) a : map_err f r = Ok a ↔ r = Ok a.
Proof. destruct r; simpl; split; congruence. Qed.
Lemma rejected_Ok {A} msg (r : result A) a : rejected msg r = Ok a ↔ r = Ok a.
Proof. apply map_err_Ok. Qed.

Lemma settle_vquiet clk caller authority d v pending db db' :
  settle clk caller authority d v pending db = Ok db' → vquiet db db'.
Proof.
  unfold settle. intros H. apply bind_Ok in H as ([x db1] & Hr%rejected_Ok & H).
  apply bind_Ok in H as ([t db2] & Ht & H). trans db1; [by eapply resolve_vquiet|]. apply vquiet_eq.
  assert (db_verification db2 = db_verification db1) as <-.
  { destruct (vd_delivery_transaction_id d); [|by inv_ok].
    apply map_err_Ok in Ht. by eapply judge_delivery_verification. }
  set (db3 := match t with Some _ => _ | None => _ end) in H.
  assert (db_verification db3 = db_verification db2) as <-
    by (unfold db3; destruct t; [apply update_task_verification|done]).
  destruct pending; [apply map_err_Ok in H; rewrite (clear_pending_Ok _ _ _ _ H); apply update_task_verification|by inv_ok].
Qed.

Lemma spend_authority_Ok clk caller authority task_id db c db' :
  spend_authority clk caller authority task_id db = Ok (c, db') →
  match c with
  | Some c => spends task_id (ag_id caller) c db db' ∧ capability_child caller c = true
              ∧ is_supervisor_direct authority = false
  | None => db' = db ∧ authority = SupervisorDirect
  end.
Proof.
  unfold spend_authority. destruct authority as [token|id late|]; intros H; [| |by inv_ok].
  - apply bind_Ok in H as ([cap db1] & Hc%rejected_Ok & H). split_match; [done|]. inv_ok. bool_to_prop.
    split_and!; [by eapply consume_token_spends|done|done].
  - apply bind_Ok in H as ([cap db1] & Hc%rejected_Ok & H). split_match; [done|]. inv_ok.
    unfold handoff_child in *. bool_to_prop. split_and!; [|done|done].
    destruct late; by eapply consume_handoff_spends.
Qed.

(** The verdict a child gives names its capability; a supervisor's names none. *)
Definition authored (caller_id dispatch_id : string) (c : option VerifierCapability) (draft : Verification)
    : Verification :=
  match c with Some c => by_child caller_id dispatch_id c draft | None => direct caller_id dispatch_id draft end.

(** The stages of a recorded verdict: the authority is spent, the dispatch
    found, the verdict stored, and a final verdict settled *)
Definition recorded (clk : Clock) (caller : Agent) (authority : VerdictAuthority) (dispatch_id : string)
    (draft : Verification) (duration_ms : option Z) (pending : bool) (db : Db)
    (v : Verification) (db' : Db) : Prop :=
  ∃ c d db1 db2,
    spend_authority clk caller authority (v_task_id draft) db = Ok (c, db1)
    ∧ get_verification_dispatch_with_conn dispatch_id db1 = Ok d
    ∧ vd_task_id d = v_task_id draft
    ∧ v = timed (default (clk 3%nat) (c ≫= vc_consumed_at)) duration_ms (c ≫= vc_bound_at)
            (c ≫= vc_consumed_at) (vd_requested_at d) (authored (ag_id caller) dispatch_id c draft)
    ∧ add_verification_with_conn v db1 = Ok db2
    ∧ if bool_decide (v_status v = VerificationStatus_SupervisorCall) then db' = db2
      else settle clk (ag_id caller) authority d v pending db2 = Ok db'.

Lemma record_verdict_Ok clk caller authority dispatch_id draft duration_ms pending db v db' :
  record_verdict clk caller authority dispatch_id draft duration_ms pending db = Ok (v, db') →
  recorded clk caller authority dispatch_id draft duration_ms pending db v db'.
Proof.
  unfold record_verdict. intros H. apply bind_Ok in H as ([c db1] & Hs & H).
  apply bind_Ok in H as (d & Hd%rejected_Ok & H). split_match; [done|].
  apply bind_Ok in H as (db2 & Ha%map_err_Ok & H). apply bind_Ok in H as (db3 & Hset & [= <- <-]).
  exists c, d, db1, db2. bool_to_prop. split_and!; try done.
  - destruct c; done.
  - destruct (bool_decide _); [by injection Hset|done].
Qed.

Lemma timed_author created duration_ms bound consumed requested v :
  let w := timed created duration_ms bound consumed requested v in
  v_id w = v_id v ∧ v_task_id w = v_task_id v ∧ v_agent_id w = v_agent_id v
  ∧ v_provenance w = v_provenance v ∧ v_capability_id w = v_capability_id v
  ∧ v_dispatch_id w = v_dispatch_id v ∧ v_issuer_agent_id w = v_issuer_agent_id v
  ∧ v_status w = v_status v.
Proof. unfold timed. destruct (review_window _ _ _). by split_and!. Qed.

Lemma record_verdict_step clk caller authority dispatch_id draft duration_ms pending db v db' :
  record_verdict clk caller authority dispatch_id draft duration_ms pending db = Ok (v, db') →
  vle db db' ∧ credited db db' ∧ (verification_wf db → single_use db → single_use db').
Proof.
  intros (c & d & db1 & db2 & Hs & Hd & Ht & Hv & Ha & Hset)%record_verdict_Ok.
  apply spend_authority_Ok in Hs.
  assert (vquiet db db1) as H01 by (destruct c; [by destruct Hs as [[] _]|by destruct Hs as [-> _]]).
  pose proof (add_verification_Ok _ _ _ Ha) as (Hval & Hnone & Hvs & Hcs & Hds & H12 & Hcr12).
  assert (vquiet db2 db') as H23
    by (destruct (bool_decide _); [by subst|by eapply settle_vquiet]).
  assert (credited db1 db') as Hcr13.
  { eapply credited_trans; [by destruct H23|done|by apply vquiet_credited]. }
  split_and!.
  - trans db1; [by destruct H01|]. trans db2; [done|by destruct H23].
  - eapply credited_trans; [trans db2; [done|by destruct H23]|by apply vquiet_credited|done].
  - intros Hwf Hsingle. apply (quiet_single_use db2); [by destruct H23|].
    set (w := sanitized_verification_for_write v) in *.
    pose proof (sanitized_author v) as Hsan. cbv zeta in Hsan. fold w in Hsan.
    pose proof (timed_author (default (clk 3%nat) (c ≫= vc_consumed_at)) duration_ms (c ≫= vc_bound_at)
      (c ≫= vc_consumed_at) (vd_requested_at d) (authored (ag_id caller) dispatch_id c draft)) as Htm.
    cbv zeta in Htm. rewrite <-Hv in Htm. destruct_and! Hsan. destruct_and! Htm.
    destruct c as [c|].
    + destruct Hs as ([Hrow _ _ _ _ Hvs1 _] & _ & _).
      assert (v_capability_id w = Some (vc_id c)) as Hwc by (cbn in *; congruence).
      assert (∀ id r, verifications db !! id = Some r → verifier_row r →
                vr_capability_id r ≠ v_capability_id w) as Hfresh.
      { intros id r Hr Hvr Heq. destruct (vwf_backed _ Hwf id r Hr Hvr)
          as (cid & cr & Hcid & Hcr & [t Hcons] & _).
        assert (cid = vc_id c) as -> by congruence. by rewrite (Hrow cr Hcr) in Hcons. }
      rewrite Hvs1 in Hvs. intros id1 id2 r1 r2. rewrite Hvs.
      destruct (decide (id1 = v_id v)) as [->|Hne1], (decide (id2 = v_id v)) as [->|Hne2];
        rewrite ?lookup_insert_eq, ?lookup_insert_ne by done; [done|..].
      * intros [= <-] Hr2 _ Hv2 Heq. by destruct (Hfresh id2 r2 Hr2 Hv2).
      * intros Hr1 [= <-] Hv1 _ Heq. by destruct (Hfresh id1 r1 Hr1 Hv1).
      * by apply Hsingle.
    + destruct Hs as [-> _]. apply (quiet_single_use db); [|done].
      intros id r'. rewrite Hvs. destruct (decide (id = v_id v)) as [->|Hne].
      * rewrite lookup_insert_eq. intros [= <-] Hvw%verification_row_verifier. cbn in *. congruence.
      * rewrite lookup_insert_ne by done. intros Hr _. by exists r'.
Qed.
End delivery_frames.
