(* ===== verification/VerificationProtocol.v ===== *)
(** * The verification protocol: every operation as one step

    The operations on dispatches, capabilities and verdicts as a transition
    system over the database, interleaved with any step of the other components,
    and what holds along every execution: who may be the author of a stored
    verdict, that a capability is bound and spent once, and how a dispatch ends. *)

From S2P Require Import Prelude Enums TaskTypes VerifierText Verifications Agents Db NoteMarkers TaskRows LeaseStore Continuity AgentStore Dispatches Capabilities VerificationStore Deliveries VerdictTransaction VerificationSpec VerificationSteps LeaseProtocol System.

Section verification_protocol.
Context {host : Host}.

(** ** Steps *)

(** [random], [secret]: what the operation drew *)
Inductive verification_op :=
  | VCreate (random : Z) (task_id requester owner : string) (boundary : VerificationProofBoundary)
      (deadline_at : Z) (supervisor_recovery : bool)
  | VClaim (task_id owner verifier capability_id : string)
  | VClaimBound (dispatch_id owner verifier capability_id : string)
  | VResolve (dispatch_id verifier : string) (capability_id : option string) (supervisor_direct : bool)
  | VTimeout (task_id : string)
  | VExtend (dispatch_id : string) (extend_to hard_cap : Z)
  | VInvalidateCycle (task_id : string)
  | VInvalidateDrift (dispatch_id : string)
  | VAdopt (has_tasks : bool) (local_machine supervisor_id : string) (dead_owners : list Agent)
      (deadline_at : Z)
  | VIssue (random secret : Z) (task_id issuer : string)
  | VBind (token verifier : string)
  | VIssueHandoff (random : Z) (task_id dispatch_id issuer tool_use_id secret : string)
  | VBindHandoff (issuer verifier : string)
  | VBindChild (issuer : string) (child : Agent)
  | VCancelHandoff (issuer tool_use_id : string)
  | VRecord (caller : Agent) (authority : VerdictAuthority) (dispatch_id : string)
      (draft : Verification) (duration_ms : option Z) (pending : bool)
  | VAdd (v : Verification)
  | VUpdate (v : Verification)
  | VDelete (id : string)
  | VPrune (older_than_days : Z)
  | VAddSystem (v : Verification)
  | VUpdateSystem (v : Verification)
  | VRebind (random : Z) (verification_id prior_dispatch_id prior_verdict_id requester owner : string)
      (boundary : VerificationProofBoundary) (receipt : string)
  | VImport (expected_task : Task) (dispatch : VerificationDispatch) (v : Verification)
  | VDeliver (random : Z) (receipt : WorkerCompletionReceipt) (state : WorkerDeliveryState)
      (actor owner : string) (deadline_at : Z)
  | VDeliverForLease (random : Z) (receipt : WorkerCompletionReceipt) (state : WorkerDeliveryState)
      (actor : string) (epoch : Z) (owner : string) (deadline_at : Z)
      (repository : option RepositoryProofBoundary).

(** The database after an operation; a failed one is rolled back. *)
Definition run_verification_op (clk : Clock) (o : verification_op) (db : Db) : Db :=
  let now := clk 0%nat in
  match o with
  | VCreate r t q w b dl rec => commit db (create_verification_dispatch_bound r t q w b dl rec now db)
  | VClaim t w v c => commit db (claim_verification_dispatch t w v c now db)
  | VClaimBound d w v c => commit db (claim_verification_dispatch_bound d w v c now db)
  | VResolve d v c s => commit db (resolve_verification_dispatch_with_conn d v c s now db)
  | VTimeout t => commit db (timeout_verification_dispatch t now db)
  | VExtend d to cap => commit db (extend_verification_dispatch_deadline d now to cap db)
  | VInvalidateCycle t => commit db (invalidate_verification_dispatch_for_new_cycle t now db)
  | VInvalidateDrift d => commit db (invalidate_verification_dispatch_for_repository_drift d now db)
  | VAdopt h m s dead dl => commit db (adopt_orphaned_verification_dispatches h m s dead dl now db)
  | VIssue r s t i => commit db (issue_verifier_capability clk r s t i db)
  | VBind tok v => commit db (bind_verifier_capability clk tok v db)
  | VIssueHandoff r t d i tool s =>
      commit db (issue_server_verifier_handoff_with_secret r t d i tool s now db)
  | VBindHandoff i v => commit db (bind_server_verifier_handoff i v now db)
  | VBindChild i child => commit db (bind_server_verifier_handoff_and_register_child clk i child db)
  | VCancelHandoff i tool => commit db (cancel_unbound_server_verifier_handoff i tool db)
  | VRecord caller a d draft dur p => commit db (record_verdict clk caller a d draft dur p db)
  | VAdd v => commit db (VerificationStore_add v db)
  | VUpdate v => commit db (VerificationStore_update v db)
  | VDelete id => commit db (VerificationStore_delete id db)
  | VPrune days => commit db (prune days now db)
  | VAddSystem v => commit db (add_system_verification v db)
  | VUpdateSystem v => commit db (update_system_verification v db)
  | VRebind r vid p pv q w b receipt =>
      commit db (rebind_approved_verification_dispatch r vid p pv q w b receipt clk db)
  | VImport t d v => commit db (import_peer_premerge_verification t d v db)
  | VDeliver r receipt s a w dl =>
      commit db (create_worker_delivery_with_dispatch clk r receipt s a w dl db)
  | VDeliverForLease r receipt s a e w dl repo =>
      commit db (create_worker_delivery_with_dispatch_for_lease_bound clk r receipt s a e w dl repo db)
  end.

(** One step of the system: an operation, or a step of another component, which
    leaves the verification tables as they are *)
Inductive verification_step : Db → Db → Prop :=
  | vs_op clk o db : verification_step db (run_verification_op clk o db)
  | vs_other db db' : db_verification db' = db_verification db → verification_step db db'.
(** The steps the program takes: a child's verdict is recorded by the verdict
    transaction; the trait's [add] has no caller outside tests. *)
Inductive program_step : Db → Db → Prop :=
  | ps_op clk o db : (∀ v, o ≠ VAdd v) → program_step db (run_verification_op clk o db)
  | ps_other db db' : db_verification db' = db_verification db → program_step db db'.

(** The operations of the other stores are such steps. *)
Lemma run_op_program_step clk o db : program_step db (run_op clk o db).
Proof. apply ps_other. by destruct (run_op_reviews clk o db). Qed.

Lemma program_step_verification_step db db' : program_step db db' → verification_step db db'.
Proof. by intros []; constructor. Qed.

(** Every operation but the two that store a child's verdict *)
Lemma run_op_vquiet clk o db :
  (∀ v, o ≠ VAdd v) → (∀ caller a d draft dur p, o ≠ VRecord caller a d draft dur p) →
  vquiet db (run_verification_op clk o db).
Proof.
  intros Hna Hnr. destruct o; try (by edestruct Hna); try (by edestruct Hnr); cbn [run_verification_op];
    match goal with |- vquiet _ (commit _ ?r) => destruct r as [[x db']|] eqn:H; cbn [commit]; [|done] end;
    solve
      [ by eapply create_bound_Ok | by eapply claim_task_vquiet | by eapply claim_bound_vquiet
      | by eapply resolve_vquiet | by eapply timeout_vquiet | by eapply extend_vquiet
      | by eapply invalidate_latest_vquiet | by eapply invalidate_drift_vquiet | by eapply adopt_vquiet
      | by eapply issue_capability_vquiet | by eapply bind_capability_vquiet
      | by eapply issue_handoff_vquiet | by eapply bind_handoff_distinct_vquiet
      | by eapply bind_register_vquiet | by eapply cancel_handoff_vquiet
      | by eapply update_verdict_op_vquiet | by eapply delete_verdict_vquiet | by eapply prune_vquiet
      | by eapply add_system_vquiet | by eapply update_system_vquiet | by eapply rebind_vquiet
      | by eapply import_vquiet | by eapply create_with_boundary_vquiet
      | by eapply create_for_lease_vquiet ].
Qed.

Lemma run_op_step clk o db :
  vle db (run_verification_op clk o db) ∧ credited db (run_verification_op clk o db)
  ∧ ((∀ v, o ≠ VAdd v) → verification_wf db → single_use db →
     single_use (run_verification_op clk o db)).
Proof.
  destruct o eqn:Ho;
    try (assert (vquiet db (run_verification_op clk o db)) as Hq
           by (apply run_op_vquiet; rewrite Ho; discriminate);
         rewrite Ho in Hq; split_and!; [by destruct Hq|by apply vquiet_credited|];
         intros _ _; by apply quiet_single_use; destruct Hq).
  - cbn [run_verification_op].
    destruct (record_verdict _ _ _ _ _ _ _ db) as [[v db']|] eqn:H; cbn [commit].
    + apply record_verdict_step in H as (? & ? & ?). split_and!; auto.
    + split_and!; [done|by apply vquiet_credited|done].
  - cbn [run_verification_op]. unfold VerificationStore_add.
    destruct (add_verification_with_conn v db) as [db'|] eqn:H; cbn.
    + apply add_verification_Ok in H as (_ & _ & _ & _ & _ & ? & ?). split_and!; [done..|].
      intros Hna. by destruct (Hna v).
    + split_and!; [done|by apply vquiet_credited|done].
Qed.

(** ** Executions *)
Lemma vle_step db db' : verification_step db db' → vle db db' ∧ credited db db'.
Proof.
  intros [clk o|d d' Heq]; [destruct (run_op_step clk o db0) as (? & ? & _); by split|].
  apply vquiet_eq in Heq. split; [by destruct Heq|by apply vquiet_credited].
Qed.
Lemma vle_steps db db' : rtc verification_step db db' → vle db db'.
Proof. induction 1 as [|a b c Hs _ IH]; [done|]. trans b; [by apply vle_step|done]. Qed.
Lemma verification_wf_steps db db' :
  rtc verification_step db db' → verification_wf db → verification_wf db'.
Proof.
  induction 1 as [|a b c [Hle Hcr]%vle_step _ IH]; [done|]. intros Hwf.
  by apply IH, (verification_wf_step a).
Qed.

(** C2: A child's verdict has the authority of its capability.  Along every
    execution, a stored verdict of a verifier child names a capability that is
    spent, was issued for the task and the dispatch of the verdict, and was bound
    to the verdict's author, who is not the agent that issued the capability; the
    verdict records that issuer.  Who asked for the review is not compared: the
    requester of a dispatch may be the child that answers it. *)
Theorem child_verdicts_have_authority db db' id r :
  verification_wf db → rtc verification_step db db' →
  verifications db' !! id = Some r → verifier_row r →
  ∃ cid c verifier issuer,
    vr_capability_id r = Some cid ∧ capabilities db' !! cid = Some c ∧ is_Some (cp_consumed_at c)
    ∧ cp_task_id c = vr_task_id r ∧ cp_dispatch_id c = vr_dispatch_id r
    ∧ vr_agent_id r = Some verifier ∧ cp_verifier_agent_id c = Some verifier
    ∧ vr_issuer_agent_id r = Some issuer ∧ cp_issuer_agent_id c = issuer ∧ verifier ≠ issuer.
Proof.
  intros Hwf Hsteps Hr Hv. apply verification_wf_steps in Hsteps as [_ Hd Hb]; [|done].
  destruct (Hb id r Hr Hv) as (cid & c & Hcid & Hc & Hcons & Ht & Hdi & _ & Hi & Ha & [v Hag]).
  exists cid, c, v, (cp_issuer_agent_id c). split_and!; try done; [congruence|].
  apply (Hd cid c Hc). congruence.
Qed.

(** C21: A capability is spent once.  Along every execution of the program, two
    stored verdicts of verifier children never name the same capability. *)
Theorem capability_gives_one_verdict db db' id1 id2 r1 r2 :
  verification_wf db → single_use db → rtc program_step db db' →
  verifications db' !! id1 = Some r1 → verifications db' !! id2 = Some r2 →
  verifier_row r1 → verifier_row r2 → vr_capability_id r1 = vr_capability_id r2 → id1 = id2.
Proof.
  intros Hwf Hs Hsteps. revert Hwf Hs.
  induction Hsteps as [db|a b c Hstep _ IH]; intros Hwf Hs; [by apply Hs|].
  pose proof (program_step_verification_step _ _ Hstep) as [Hle Hcr]%vle_step.
  apply IH; [by apply (verification_wf_step a)|].
  destruct Hstep as [clk o d Hna|d d' Heq]; [by apply (run_op_step clk o d)|].
  apply (quiet_single_use d); [|done]. by apply vquiet_eq.
Qed.

(** What binds a capability is permanent.  A capability that was bound to a
    child stays with that child, one that was spent stays spent at the same
    time, and neither is ever removed or changes its task, dispatch, issuer,
    token or lifetime. *)
Theorem capability_binding_is_permanent db db' id c :
  rtc verification_step db db' → capabilities db !! id = Some c → unbound c = false →
  ∃ c', capabilities db' !! id = Some c' ∧ cap_le c c'.
Proof. intros Hsteps. by apply vle_capability, vle_steps. Qed.

(** C19: A dispatch follows its life cycle.  It is never removed, its proof boundary
    and its requester never change, every change of it is a step of the life
    cycle, an invalidated dispatch never changes again, a resolved one can only
    be invalidated, and a task never has two dispatches under way. *)
Theorem dispatches_follow_lifecycle db db' :
  verification_wf db → rtc verification_step db db' →
  NoDup (active_dispatch_tasks (dispatches db'))
  ∧ ∀ id r, dispatches db !! id = Some r →
      ∃ r', dispatches db' !! id = Some r' ∧ rtc dispatch_step r r' ∧ same_boundary r r'
        ∧ (ds_state r = "invalidated" → r' = r)
        ∧ (ds_state r = "resolved" → r' = r ∨ ds_state r' = "invalidated").
Proof.
  intros Hwf Hsteps. split; [by destruct (verification_wf_steps _ _ Hsteps Hwf)|].
  intros id r Hr. destruct (vle_dispatch _ _ (vle_steps _ _ Hsteps) id r Hr) as (r' & Hr' & Hs).
  exists r'. split_and!; [done|done|by apply dispatch_steps_boundary|by apply invalidated_is_final
                         |by apply resolved_is_invalidated].
Qed.
End verification_protocol.
