(* ===== verification/VerdictSpec.v ===== *)
(** * What recording a verdict does

    A final verdict resolves its dispatch and lets the delivery and the task it
    was asked for go on; a question to the supervisor leaves them as they are. *)

From S2P Require Import Prelude Enums TaskTypes VerifierText Verifications Agents Db NoteMarkers TaskRows TaskStore LeaseStore Continuity AgentStore Dispatches Capabilities VerificationStore Deliveries VerdictTransaction VerificationSpec VerificationSteps.

Section verdict_spec.
Context {host : Host}.

(** ** Parts *)
Lemma resolve_Ok id verifier capability sup now db x db' :
  resolve_verification_dispatch_with_conn id verifier capability sup now db = Ok (x, db') →
  ∃ r, dispatches db !! id = Some r ∧ dispatch_open r = true
    ∧ db' = set_dispatches (<[id := r <| ds_state := "resolved" |>
                                      <| ds_resolved_at := Some now |>]> (dispatches db)) db.
Proof.
  unfold resolve_verification_dispatch_with_conn. intros H.
  apply bind_Ok in H as (d & Hd & H). pose proof (get_dispatch_id _ _ _ Hd) as Hid.
  apply bind_Ok in H as (c & _ & H). split_match; [done|].
  apply bind_Ok in H as ([n db1] & Hu & H). rewrite Hid in Hu. split_match; [done|]. bool_to_prop.
  apply bind_Ok in H as (d' & _ & [= _ <-]). apply update_dispatch_Ok in Hu as (Hn & -> & _).
  destruct (dispatches db !! id) as [r|] eqn:Hr; [|subst; done]. exists r.
  destruct (state_in _ r) eqn:Hst; [|subst; done]. split_and!; [done|done|].
  f_equal. apply map_eq. intros k. destruct (decide (k = id)) as [->|Hne].
  - rewrite lookup_alter_eq, lookup_insert_eq, Hr. cbn [fmap option_fmap option_map]. by rewrite Hst.
  - by rewrite lookup_alter_ne, lookup_insert_ne.
Qed.

Definition awaiting_verdict (row : DeliveryTransactionRow) : bool :=
  String.eqb (tx_state row) "awaiting_verification".
Definition delivery_verdict_state (approved : bool) : WorkerDeliveryState :=
  if approved then WorkerDeliveryState_AwaitingMerge else WorkerDeliveryState_VerificationFailed.

Lemma WorkerDeliveryState_from_str_inv s x :
  WorkerDeliveryState_from_str s = Ok x → s = WorkerDeliveryState_to_string x.
Proof.
  unfold WorkerDeliveryState_from_str. simpl. intros H.
  repeat match type of H with context [String.eqb ?a ?b] =>
    destruct (String.eqb_spec a b); [by simplify_eq/=|] end.
  done.
Qed.
Lemma transaction_from_row_Ok id row t :
  transaction_from_row id row = Ok t →
  wtx_id t = id ∧ wtx_task_id t = tx_task_id row ∧ wtx_receipt_id t = tx_receipt_id row
  ∧ tx_state row = WorkerDeliveryState_to_string (wtx_state t).
Proof.
  unfold transaction_from_row, parse_state. intros (st & Hs & [= <-])%bind_Ok. split_and!; try done.
  simpl. destruct (WorkerDeliveryState_from_str (tx_state row)) as [x|] eqn:E; [|done].
  injection Hs as ->. by apply WorkerDeliveryState_from_str_inv.
Qed.

Lemma insert_event_frame tid state actor detail now db db' :
  insert_event tid state actor detail now db = Ok db' →
  wtransactions db' = wtransactions db ∧ wreceipts db' = wreceipts db
  ∧ db_tasks db' = db_tasks db ∧ db_verification db' = db_verification db.
Proof.
  unfold insert_event. cbv zeta. destruct (existsb _ _); [by intros [= <-]|].
  destruct (wtransactions db !! tid); [by intros [= <-]|done].
Qed.

(** The delivery of a verdict moves only from awaiting it, and only on a verdict
    bound to its receipt. *)
Lemma judge_delivery_Ok tid vid approved actor now db t db' :
  transition_worker_delivery_verification_with_conn tid vid approved actor now db = Ok (t, db') →
  match t with
  | None => db' = db ∧ (∀ row, wtransactions db !! tid = Some row → awaiting_verdict row = false)
  | Some _ => ∃ row cur, wtransactions db !! tid = Some row ∧ awaiting_verdict row = true
      ∧ transaction_from_row tid row = Ok cur
      ∧ exact_binding vid actor cur approved db = true
      ∧ wtransactions db' = <[tid := judged vid approved (delivery_verdict_state approved) now row]> (wtransactions db)
      ∧ db_tasks db' = db_tasks db ∧ db_verification db' = db_verification db
  end.
Proof.
  unfold transition_worker_delivery_verification_with_conn. intros H.
  destruct (wtransactions db !! tid) as [row|] eqn:Hrow; [|by injection H as <- <-].
  apply bind_Ok in H as (cur & Hcur & H).
  pose proof (transaction_from_row_Ok _ _ _ Hcur) as (Hid & _ & _ & Hst).
  destruct (bool_decide _) eqn:Haw in H; cbn [negb] in H; bool_to_prop.
  - destruct (exact_binding _ _ _ _ _) eqn:Hb in H; [|done]. cbn [negb] in H. cbv zeta in H.
    rewrite Hid in H. destruct (negb (_ =? 1)%nat) in H; [done|].
    apply bind_Ok in H as (db1 & He & H). apply bind_Ok in H as (t' & _ & [= <- <-]).
    apply insert_event_frame in He as (Ht & _ & Htk & Hv). exists row, cur.
    assert (awaiting_verdict row = true) as Hawr
      by (unfold awaiting_verdict; by rewrite Hst, Haw).
    split_and!; try done. rewrite Ht. cbn. rewrite (update_by_id tid).
    apply map_eq. intros k. destruct (decide (k = tid)) as [->|Hne].
    + rewrite lookup_alter_eq, lookup_insert_eq, Hrow. simpl.
      unfold awaiting_verdict in Hawr. by rewrite Hawr.
    + by rewrite lookup_alter_ne, lookup_insert_ne.
  - injection H as <- <-. split; [done|]. intros ? [= <-]. unfold awaiting_verdict. rewrite Hst.
    destruct (wtx_state cur); done.
Qed.

Lemma spend_frame clk caller authority task_id db c db' :
  spend_authority clk caller authority task_id db = Ok (c, db') →
  same_but_verification db db' ∧ vquiet db db' ∧ verifications db' = verifications db.
Proof.
  intros H%spend_authority_Ok. destruct c; [|by destruct H as [-> _]].
  by destruct H as ([] & _ & _).
Qed.
Lemma add_frame v db db' :
  add_verification_with_conn v db = Ok db' → same_but_verification db db'.
Proof.
  unfold add_verification_with_conn. intros ([] & _ & H)%bind_Ok.
  unfold insert_verification_with_conn in H. destruct (verifications db !! _); [done|].
  by injection H as <-.
Qed.

(** ** The task *)
Definition under_way (t : Task) : bool :=
  match t_status t with TaskStatus_InProgress | TaskStatus_AwaitingMerge => true | _ => false end.

(** The task [t] after a verdict: [moved] when a delivery of it was judged *)
Definition judged_task (moved approved pending : bool) (t t' : Task) : Prop :=
  t_status t' = (if moved && under_way t
                 then (if approved then TaskStatus_AwaitingMerge else TaskStatus_Blocked)
                 else t_status t)
  ∧ t_pending_verification t' = (t_pending_verification t && negb (moved && under_way t) && negb pending)
  ∧ (t_id t', t_title t', t_assignee t', t_notes t', t_deliverables t')
    = (t_id t, t_title t, t_assignee t, t_notes t, t_deliverables t).

Definition tasks_judged (task_id : string) (moved approved pending : bool) (db db' : Db) : Prop :=
  (∀ k, k ≠ task_id → db_tasks db' !! k = db_tasks db !! k)
  ∧ ∀ t, db_tasks db !! task_id = Some t →
      ∃ t', db_tasks db' !! task_id = Some t' ∧ judged_task moved approved pending t t'.

Lemma project_delivery_tasks task_id approved now db :
  tasks_judged task_id true approved false db (project_delivery task_id approved now db).
Proof.
  unfold project_delivery. destruct (update_task_spec task_id under_way
    (λ t, t <| t_status := if approved then TaskStatus_AwaitingMerge else TaskStatus_Blocked |>
            <| t_pending_verification := false |> <| t_updated_at := now |>) db) as (Ht & _ & _).
  fold under_way. split.
  - intros k Hk. change (fst ?x) with (x.1). rewrite Ht. by rewrite lookup_alter_ne.
  - intros t Hrow. rewrite Ht, lookup_alter_eq, Hrow. cbn [fmap option_fmap option_map].
    eexists. split; [done|]. destruct (under_way t) eqn:E; unfold judged_task; rewrite E; cbn.
    + by rewrite andb_false_r.
    + by rewrite !andb_true_r.
Qed.

Lemma clear_pending_tasks clk task_id db db' :
  clear_pending_verification_with_conn clk task_id db = Ok db' →
  tasks_judged task_id false false true db db' ∧ db_delivery db' = db_delivery db.
Proof.
  intros ->%clear_pending_Ok.
  destruct (update_task_spec task_id t_pending_verification
    (λ t, t <| t_pending_verification := false |> <| t_updated_at := clk 0%nat |>) db) as (Ht & Hs & _).
  split; [split|by destruct Hs as (_ & _ & _ & _ & _ & -> & _)].
  - intros k Hk. by rewrite Ht, lookup_alter_ne.
  - intros t Hrow. rewrite Ht, lookup_alter_eq, Hrow. cbn [fmap option_fmap option_map].
    eexists. split; [done|]. destruct (t_pending_verification t) eqn:E; unfold judged_task; cbn;
      by rewrite ?E, ?andb_false_r.
Qed.

Lemma tasks_judged_same task_id approved db db' :
  db_tasks db' = db_tasks db → tasks_judged task_id false approved false db db'.
Proof.
  intros H. split; [by rewrite H|]. intros t Ht. exists t. rewrite H. split; [done|].
  unfold judged_task. by rewrite !andb_true_r.
Qed.
Lemma tasks_judged_pending task_id moved approved pending db db1 db' :
  tasks_judged task_id moved approved false db db1 →
  (if pending : bool then tasks_judged task_id false false true db1 db' else db' = db1) →
  tasks_judged task_id moved approved pending db db'.
Proof.
  intros [Ho Ht] Hp. destruct pending; [|by subst]. destruct Hp as [Ho' Ht']. split.
  - intros k Hk. by rewrite Ho', Ho.
  - intros t Hrow. destruct (Ht t Hrow) as (t1 & Hrow1 & (Hs1 & Hp1 & Hi1)).
    destruct (Ht' t1 Hrow1) as (t2 & Hrow2 & (Hs2 & Hp2 & Hi2)). exists t2. split; [done|].
    split_and!; [by rewrite Hs2|rewrite Hp2, Hp1; by rewrite !andb_false_r|congruence].
Qed.

(** ** Settling *)

(** The delivery transaction the dispatch was asked for, when it awaits a verdict *)
Definition awaited (d : DispatchRow) (db : Db) : option (string * DeliveryTransactionRow) :=
  tid ← ds_delivery_transaction_id d; row ← wtransactions db !! tid;
  if awaiting_verdict row then Some (tid, row) else None.

(** The statuses that accept the work *)
Definition accepts (status : VerificationStatus) : bool :=
  bool_decide (status ∈ [VerificationStatus_Approved; VerificationStatus_Skipped]).
Lemma approves_accepts status : approves status = accepts status.
Proof. by destruct status. Qed.

(** A judged delivery: it waits for its merge or has failed, names the verdict,
    and keeps everything else. *)
Definition settled_delivery (verdict_id : string) (accepted : bool) (now : Z) (row : DeliveryTransactionRow)
    : DeliveryTransactionRow :=
  mkDeliveryTransactionRow (tx_receipt_id row) (tx_task_id row)
    (if accepted then "awaiting_merge" else "verification_failed")
    (tx_supervisor_agent_id row) (Some verdict_id) (tx_merge_commit_sha row)
    (if accepted then None else Some "verification_failed")
    (if accepted then None else Some "durable verification rejected") (tx_created_at row) now.
Lemma judged_settled vid approved now row :
  judged vid approved (delivery_verdict_state approved) now row = settled_delivery vid approved now row.
Proof. by destruct approved, row. Qed.

Record settled (clk : Clock) (dispatch_id : string) (d : DispatchRow)
    (v : Verification) (pending : bool) (db db' : Db) : Prop := mk_settled {
  st_dispatch : ∃ d', dispatches db' !! dispatch_id = Some d' ∧ ds_state d' = "resolved";
  st_delivery :
    match awaited d db with
    | Some (tid, row) =>
        wtransactions db' = <[tid := settled_delivery (v_id v) (accepts (v_status v)) (clk 5%nat) row]> (wtransactions db)
    | None => wtransactions db' = wtransactions db
    end;
  st_tasks : tasks_judged (v_task_id v) (negb (is_none (awaited d db))) (accepts (v_status v)) pending db db';
}.

(** What the transition does to the delivery that the dispatch was asked for *)
Definition advanced (caller_id : string) (now : Z) (v : Verification) (dr : DispatchRow)
    (t : option WorkerDeliveryTransaction) (db db' : Db) : Prop :=
  match awaited dr db with
  | Some (tid, row) => is_Some t ∧ wtransactions db' = <[tid := judged (v_id v) (approves (v_status v))
        (delivery_verdict_state (approves (v_status v))) now row]> (wtransactions db)
      ∧ ∃ cur, transaction_from_row tid row = Ok cur
          ∧ exact_binding (v_id v) caller_id cur (approves (v_status v)) db = true
  | None => t = None ∧ wtransactions db' = wtransactions db
  end.
Lemma advance_Ok {E} caller now v dr (e : StoreError → E) db t db' :
  match ds_delivery_transaction_id dr return Result E (option WorkerDeliveryTransaction * Db) with
  | Some tid => map_err e (transition_worker_delivery_verification_with_conn tid (v_id v) (approves (v_status v)) caller now db)
  | None => Ok (None, db)
  end = Ok (t, db') →
  advanced caller now v dr t db db' ∧ db_tasks db' = db_tasks db ∧ db_verification db' = db_verification db.
Proof.
  unfold advanced, awaited. destruct (ds_delivery_transaction_id dr) as [tid|]; cbn [mbind option_bind].
  - intros Ht%map_err_Ok%judge_delivery_Ok. destruct t as [t|].
    + destruct Ht as (row & cur & Hrow & Haw' & Hcur & Hb & Hw & Htk' & Hvf). rewrite Hrow. cbn [mbind option_bind].
      rewrite Haw'. split_and!; try done. by exists cur.
    + destruct Ht as [-> Hno]. destruct (wtransactions db !! tid) as [row|] eqn:Hrow; cbn [mbind option_bind]; [|done].
      by rewrite (Hno row).
  - by intros [= <- <-].
Qed.

Lemma settle_Ok clk caller authority d v pending db db' dr :
  settle clk caller authority d v pending db = Ok db' →
  dispatches db !! vd_id d = Some dr → ds_delivery_transaction_id dr = vd_delivery_transaction_id d →
  settled clk (vd_id d) dr v pending db db' ∧ verifications db' = verifications db
  ∧ vt_issues (db_verification db') = vt_issues (db_verification db)
  ∧ (∀ tid row, awaited dr db = Some (tid, row) → ∃ cur, transaction_from_row tid row = Ok cur
       ∧ ∃ db1, exact_binding (v_id v) caller cur (approves (v_status v)) db1 = true
              ∧ verifications db1 = verifications db).
Proof.
  unfold settle. intros H Hdr Hdid. apply bind_Ok in H as ([x db1] & Hr%rejected_Ok & H).
  apply resolve_Ok in Hr as (r & Hr & Ho & Hdb1).
  apply bind_Ok in H as ([t db2] & Ht & H). cbv beta zeta iota in H.
  set (row' := r <| ds_state := "resolved" |> <| ds_resolved_at := Some (clk 4%nat) |>) in *.
  assert (awaited dr db1 = awaited dr db ∧ db_tasks db1 = db_tasks db ∧ verifications db1 = verifications db
          ∧ wtransactions db1 = wtransactions db ∧ dispatches db1 !! vd_id d = Some row') as (Haw & Htk & Hvs & Hwt & Hd1).
  { subst db1. split_and!; try done. cbn. by rewrite lookup_insert_eq. }
  rewrite <-Hdid in Ht. destruct (advance_Ok _ _ _ _ _ _ _ _ Ht) as (Hj & Htk2 & Hvf2).
  set (db3 := match t with Some _ => _ | None => _ end) in H.
  assert (tasks_judged (v_task_id v) (negb (is_none t)) (approves (v_status v)) false db2 db3
          ∧ wtransactions db3 = wtransactions db2 ∧ db_verification db3 = db_verification db2) as (Htj & Hw3 & Hvf3).
  { unfold db3. destruct t; [|split; [by apply tasks_judged_same|done]].
    split_and!; [apply project_delivery_tasks| |apply update_task_verification].
    unfold wtransactions. f_equal. unfold project_delivery.
    apply (update_task_spec (v_task_id v)). }
  clearbody db3.
  assert (tasks_judged (v_task_id v) (negb (is_none t)) (approves (v_status v)) pending db2 db'
          ∧ wtransactions db' = wtransactions db3 ∧ db_verification db' = db_verification db3) as (Htj' & Hw' & Hvf').
  { destruct pending; [apply map_err_Ok in H|by injection H as <-]. split_and!.
    - eapply tasks_judged_pending; [done|]. by eapply (clear_pending_tasks (λ k, clk (7 + k)%nat)).
    - unfold wtransactions. f_equal. by eapply (clear_pending_tasks (λ k, clk (7 + k)%nat)).
    - rewrite (clear_pending_Ok _ _ _ _ H). apply update_task_verification. }
  assert (is_none t = is_none (awaited dr db)) as Hmoved.
  { unfold advanced in Hj. rewrite <-Haw. destruct (awaited dr db1) as [[tid row]|]; [by destruct Hj as ([? ->] & _)|by destruct Hj as [-> _]]. }
  assert (dispatches db' = dispatches db1 ∧ verifications db' = verifications db1
    ∧ vt_issues (db_verification db') = vt_issues (db_verification db1)) as (Hd' & Hv' & Hi').
  { unfold dispatches, verifications. by rewrite Hvf', Hvf3, Hvf2. }
  unfold advanced in Hj. split_and!.
  - split.
    + exists row'. by rewrite Hd'.
    + rewrite Hw', Hw3. rewrite Haw in Hj. destruct (awaited dr db) as [[tid row]|];
        [destruct Hj as (_ & -> & _)|destruct Hj as [_ ->]]; by rewrite Hwt, <-?approves_accepts, <-?judged_settled.
    + rewrite <-Hmoved, <-approves_accepts. destruct Htj' as [H1 H2]. rewrite Htk2, Htk in H1, H2. by split.
  - by rewrite Hv'.
  - rewrite Hi'. by subst db1.
  - intros tid row Hrow. rewrite Haw, Hrow in Hj. destruct Hj as (_ & _ & cur & Hcur & Hb).
    exists cur. split; [done|]. by exists db1.
Qed.

(** ** Recording *)

(** The verdict says what the draft said, under the caller's name. *)
Definition attributed (caller_id dispatch_id : string) (authority : VerdictAuthority) (draft v : Verification) : Prop :=
  (v_summary v, v_issues v, v_files_reviewed v) = (v_summary draft, v_issues draft, v_files_reviewed draft)
  ∧ v_agent_id v = Some caller_id ∧ v_dispatch_id v = Some dispatch_id
  ∧ v_provenance v = match authority with
                     | SupervisorDirect => VerificationProvenance_SupervisorDirect
                     | _ => VerificationProvenance_TaskVerifier
                     end.
Lemma timed_text created duration_ms bound consumed requested v :
  let w := timed created duration_ms bound consumed requested v in
  (v_summary w, v_issues w, v_files_reviewed w) = (v_summary v, v_issues v, v_files_reviewed v).
Proof. unfold timed. by destruct (review_window _ _ _). Qed.
Lemma insert_issues v db db' :
  add_verification_with_conn v db = Ok db' →
  vt_issues (db_verification db') !! v_id v
  = Some (issue_row <$> v_issues (sanitized_verification_for_write (sanitized_verification_for_write v))).
Proof.
  unfold add_verification_with_conn, insert_verification_with_conn. intros ([] & _ & H)%bind_Ok.
  destruct (verifications db !! _); [done|]. injection H as <-. cbn.
  assert (∀ w, v_id (sanitized_verification_for_write w) = v_id w) as Hid by (intros w; by destruct (sanitized_author w)).
  by rewrite !Hid, lookup_insert_eq.
Qed.

(** ** What is stored of a text

    A text of at most [limit] bytes in which nothing is dangerous; the text
    itself when it was clean and short enough. *)
Definition clean_copy (limit : nat) (written stored : string) : Prop :=
  valid_utf8 written →
  valid_utf8 stored ∧ harmless stored ∧ (String.length stored ≤ limit)%nat
  ∧ (harmless written → (String.length written ≤ limit)%nat → stored = written).
Lemma sanitize_clean_copy limit s : (18 ≤ limit)%nat → clean_copy limit s (sanitize_verifier_text s limit).
Proof.
  intros Hmax Hv. destruct (sanitize_facts s limit Hv Hmax) as (H1 & H2 & H3).
  split_and!; [done..|]. by apply sanitize_harmless.
Qed.
Lemma clean_copy_trans limit s t u : clean_copy limit s t → clean_copy limit t u → clean_copy limit s u.
Proof.
  intros H1 H2 Hv. destruct (H1 Hv) as (Hv1 & Hh1 & Hl1 & He1). destruct (H2 Hv1) as (Hv2 & Hh2 & Hl2 & He2).
  split_and!; [done..|]. intros Hh Hl. rewrite <-(He1 Hh Hl). by apply He2.
Qed.
Record clean_issue (written : VerificationIssue) (stored : IssueRow) : Prop := mk_clean_issue {
  ci_file : clean_copy 512 (vi_file written) (ir_file stored);
  ci_category : clean_copy 128 (vi_category written) (ir_category stored);
  ci_code : clean_copy (Z.to_nat 4096) (vi_code written) (ir_code stored);
  ci_problem : clean_copy (Z.to_nat 4096) (vi_problem written) (ir_problem stored);
  ci_suggestion : option_Forall2 (clean_copy (Z.to_nat 4096)) (vi_suggestion written) (ir_suggestion stored);
  ci_repro : option_Forall2 (clean_copy (Z.to_nat 4096)) (ft_repro (vi_triage written)) (ft_repro (ir_triage stored));
  ci_journey : option_Forall2 (clean_copy 128) (ft_journey (vi_triage written)) (ft_journey (ir_triage stored));
  ci_severity : ir_severity stored = match vi_severity written with
                                     | IssueSeverity_Blocking => "blocking" | IssueSeverity_Warning => "warning" end;
}.
Lemma sanitize_option limit o :
  (18 ≤ limit)%nat →
  option_Forall2 (clean_copy limit) o ((λ s, sanitize_verifier_text s limit) <$> ((λ s, sanitize_verifier_text s limit) <$> o)).
Proof.
  intros Hl. destruct o as [s|]; constructor. eapply clean_copy_trans; by apply sanitize_clean_copy.
Qed.
Lemma sanitize_issue_clean i : clean_issue i (issue_row (sanitize_issue (sanitize_issue i))).
Proof.
  assert (18 ≤ Z.to_nat 4096)%nat by lia.
  destruct i as [[] ?? [] ????]; split; cbn; try done; first
    [ eapply clean_copy_trans; by apply sanitize_clean_copy; vm_compute; lia
    | by apply sanitize_option; vm_compute; lia | idtac ].
Qed.

(** What a recorded verdict stores of the draft *)
Record stored_verdict (caller_id dispatch_id : string) (authority : VerdictAuthority) (draft : Verification)
    (row : VerificationRow) (issues : list IssueRow) : Prop := mk_stored_verdict {
  sv_task : vr_task_id row = v_task_id draft;
  sv_author : vr_agent_id row = Some caller_id;
  sv_dispatch : vr_dispatch_id row = Some dispatch_id;
  sv_provenance : vr_provenance row = match authority with
                                      | SupervisorDirect => "supervisor_direct" | _ => "task_verifier" end;
  sv_status : vr_status row = match v_status draft with
                              | VerificationStatus_Approved => "approved"
                              | VerificationStatus_Rejected => "rejected"
                              | VerificationStatus_Skipped => "skipped"
                              | _ => "error" end;
  sv_summary : clean_copy (Z.to_nat 4096) (v_summary draft) (vr_summary row);
  sv_files : Forall2 (clean_copy 512) (take 256 (v_files_reviewed draft)) (vr_files_reviewed row);
  sv_issues : Forall2 clean_issue (take 128 (v_issues draft)) issues;
}.
Lemma Forall2_fmap_self {A B} (P : A → B → Prop) (f : A → B) (l : list A) : (∀ x, P x (f x)) → Forall2 P l (f <$> l).
Proof. intros H. induction l; constructor; auto. Qed.
Lemma attributed_stored caller_id dispatch_id authority draft v :
  attributed caller_id dispatch_id authority draft v → v_task_id v = v_task_id draft → v_status v = v_status draft →
  let w := sanitized_verification_for_write v in
  stored_verdict caller_id dispatch_id authority draft (verification_row w)
    (issue_row <$> v_issues (sanitized_verification_for_write w)).
Proof.
  intros ([= Hs Hi Hf] & Ha & Hd & Hp) Ht Hst. cbv zeta.
  assert (v_provenance v = VerificationProvenance_TaskVerifier ∨ v_provenance v = VerificationProvenance_SupervisorDirect)
    as Hprov by (destruct authority; auto).
  assert (sanitized_verification_for_write v = sanitize_verifier_authored_content v) as ->
    by (unfold sanitized_verification_for_write; by destruct Hprov as [-> | ->]).
  assert (sanitized_verification_for_write (sanitize_verifier_authored_content v)
          = sanitize_verifier_authored_content (sanitize_verifier_authored_content v)) as ->
    by (unfold sanitized_verification_for_write; cbn; by destruct Hprov as [-> | ->]).
  split; cbn.
  - done.
  - done.
  - done.
  - rewrite Hp. by destruct authority.
  - rewrite Hst. by destruct (v_status draft).
  - rewrite Hs. apply sanitize_clean_copy. vm_compute. lia.
  - rewrite Hf. apply Forall2_fmap_self. intros x. apply sanitize_clean_copy. vm_compute. lia.
  - rewrite Hi. rewrite (take_ge (sanitize_issue <$> _)) by (rewrite length_fmap, length_take; unfold VERIFIER_ISSUES_MAX; lia).
    rewrite <-!list_fmap_compose. apply Forall2_fmap_self. intros x. apply sanitize_issue_clean.
Qed.

(** The database between the stored verdict and its settling *)
Lemma record_stages clk caller authority dispatch_id draft duration_ms pending db v db' d :
  record_verdict clk caller authority dispatch_id draft duration_ms pending db = Ok (v, db') →
  dispatches db !! dispatch_id = Some d →
  ∃ dv dr db2, dispatches db2 !! dispatch_id = Some dr
    ∧ ds_delivery_transaction_id dr = ds_delivery_transaction_id d ∧ rtc dispatch_step d dr
    ∧ vd_id dv = dispatch_id ∧ vd_delivery_transaction_id dv = ds_delivery_transaction_id d
    ∧ ds_task_id d = v_task_id v ∧ same_but_verification db db2
    ∧ verifications db2 = <[v_id v := verification_row (sanitized_verification_for_write v)]> (verifications db)
    ∧ (v_id v, v_task_id v, v_status v) = (v_id draft, v_task_id draft, v_status draft)
    ∧ verifications db !! v_id v = None
    ∧ vt_issues (db_verification db2) !! v_id v = Some (issue_row <$>
        v_issues (sanitized_verification_for_write (sanitized_verification_for_write v)))
    ∧ attributed (ag_id caller) dispatch_id authority draft v
    ∧ (if bool_decide (v_status v = VerificationStatus_SupervisorCall) then db' = db2
       else settle clk (ag_id caller) authority dv v pending db2 = Ok db').
Proof.
  intros (c & dv & db1 & db2 & Hs & Hd & Ht & Hv & Ha & Hset)%record_verdict_Ok Hdb.
  assert (match c with Some _ => match authority with SupervisorDirect => false | _ => true end
          | None => match authority with SupervisorDirect => true | _ => false end end = true) as Hauth.
  { apply spend_authority_Ok in Hs. destruct c; [destruct Hs as (_ & _ & Hs); by destruct authority|by destruct Hs as [_ ->]]. }
  apply spend_frame in Hs as ((Hf1 & Hf2 & Hf3) & [Hle _] & Hvs1).
  pose proof (add_frame _ _ _ Ha) as (Hg1 & Hg2 & Hg3). pose proof (insert_issues _ _ _ Ha) as Hiss.
  apply add_verification_Ok in Ha as (_ & Hnone & Hvs & _ & Hds & _).
  pose proof (timed_author (default (clk 3%nat) (c ≫= vc_consumed_at)) duration_ms (c ≫= vc_bound_at)
    (c ≫= vc_consumed_at) (vd_requested_at dv) (authored (ag_id caller) dispatch_id c draft)) as Htm.
  pose proof (timed_text (default (clk 3%nat) (c ≫= vc_consumed_at)) duration_ms (c ≫= vc_bound_at)
    (c ≫= vc_consumed_at) (vd_requested_at dv) (authored (ag_id caller) dispatch_id c draft)) as Htx.
  cbv zeta in Htm, Htx. rewrite <-Hv in Htm, Htx. clear Hv. destruct_and! Htm.
  assert (attributed (ag_id caller) dispatch_id authority draft v) as Hatt.
  { unfold attributed. split_and!; [rewrite Htx; by destruct c|..];
      (etrans; [eassumption|]); destruct c, authority; done. }
  apply get_dispatch_Ok in Hd as (dr & Hdr & (Hid & Htask & _ & Hdel & _)%parse_dispatch_Ok).
  destruct (vle_dispatch _ _ Hle dispatch_id d Hdb) as (dr' & Hdr' & Hsteps).
  assert (dr' = dr) as -> by congruence. apply dispatch_steps_boundary in Hsteps as Hb.
  destruct Hb as (Hb1 & Hb2 & Hb3 & _).
  assert (v_id (authored (ag_id caller) dispatch_id c draft) = v_id draft
          ∧ v_task_id (authored (ag_id caller) dispatch_id c draft) = v_task_id draft
          ∧ v_status (authored (ag_id caller) dispatch_id c draft) = v_status draft)
    as (? & ? & ?) by (by destruct c).
  exists dv, dr, db2. rewrite Hds. unfold same_but_verification. split_and!; try congruence; done.
Qed.


#[local] Arguments state_in : simpl never.
(** A new verdict is on a dispatch that is still open. *)
Lemma authority_open v db did :
  validate_verification_authority_with_conn v false db = Ok tt →
  v_provenance v = VerificationProvenance_TaskVerifier
  ∨ v_provenance v = VerificationProvenance_SupervisorDirect →
  v_dispatch_id v = Some did →
  ∃ d, dispatches db !! did = Some d ∧ dispatch_open d = true.
Proof.
  unfold validate_verification_authority_with_conn, verifier_authority, supervisor_authority.
  intros H [Hp|Hp] Hd; rewrite Hp, Hd in H; inv_ok; ok_cases; bool_to_prop;
    (eexists; split; [done|]; apply state_in_elem;
     match goal with H : state_in _ _ = true |- _ => apply state_in_elem in H end; set_solver).
Qed.

(** A question keeps the review open.  A supervisor_call verdict is stored,
    but the dispatch it is about stays open and no delivery and no task
    changes; the capability of the child that asked is spent, so the answer can
    only be a supervisor's or a new child's. *)
Theorem question_keeps_review_open clk caller authority dispatch_id draft duration_ms pending db v db' :
  record_verdict clk caller authority dispatch_id draft duration_ms pending db = Ok (v, db') →
  v_status draft = VerificationStatus_SupervisorCall →
  db_delivery db' = db_delivery db ∧ db_tasks db' = db_tasks db
  ∧ verifications db' = <[v_id v := verification_row (sanitized_verification_for_write v)]> (verifications db)
  ∧ (∃ d, dispatches db' !! dispatch_id = Some d ∧ dispatch_open d = true)
  ∧ (authority = SupervisorDirect ∧ v_capability_id v = v_capability_id draft
     ∨ ∃ cid c, v_capability_id v = Some cid ∧ capabilities db' !! cid = Some c ∧ is_Some (cp_consumed_at c)).
Proof.
  intros (c & dv & db1 & db2 & Hs & Hd & Ht & Hv & Ha & Hset)%record_verdict_Ok Hsc.
  pose proof (timed_author (default (clk 3%nat) (c ≫= vc_consumed_at)) duration_ms (c ≫= vc_bound_at)
    (c ≫= vc_consumed_at) (vd_requested_at dv) (authored (ag_id caller) dispatch_id c draft)) as Htm.
  cbv zeta in Htm. rewrite <-Hv in Htm. clear Hv. destruct_and! Htm.
  pose proof (spend_frame _ _ _ _ _ _ _ Hs) as ((Hf1 & Hf2 & _) & _ & Hvs1).
  apply spend_authority_Ok in Hs.
  pose proof (add_frame _ _ _ Ha) as (Hg1 & Hg2 & _).
  apply add_verification_Ok in Ha as (Hval & _ & Hvs & Hcs & Hds & _).
  assert (v_status v = VerificationStatus_SupervisorCall) as Hst by (destruct c; simpl in *; congruence).
  rewrite bool_decide_true in Hset by done. subst db2. split_and!; try congruence.
  - rewrite Hds. eapply authority_open; [exact Hval|..];
      pose proof (sanitized_author v) as Hsan; cbv zeta in Hsan; destruct_and! Hsan;
      destruct c; simpl in *; (left; congruence) || (right; congruence) || congruence.
  - rewrite Hcs. destruct c as [c|].
    + right. destruct Hs as ([_ (r & Hr & _ & Hcons) _ _ _ _ _ _] & _ & _). exists (vc_id c), r.
      split_and!; [simpl in *; congruence|done|done].
    + left. destruct Hs as [_ ->]. simpl in *. split; [done|congruence].
Qed.

(** A skipped delivery review is never settled.  The transaction takes a
    skipped verdict for an approval of the delivery, but the delivery moves on
    an approval only when the stored status is approved: on a dispatch whose
    delivery awaits a verdict, a skipped verdict is always refused, and nothing
    of it is kept. *)
Theorem skipped_delivery_verdict_fails clk caller authority dispatch_id draft duration_ms pending db d :
  dispatches db !! dispatch_id = Some d → is_Some (awaited d db) →
  v_status draft = VerificationStatus_Skipped →
  is_ok (record_verdict clk caller authority dispatch_id draft duration_ms pending db) = false.
Proof.
  intros Hd [[tid row] Haw] Hsk.
  destruct (record_verdict _ _ _ _ _ _ _ db) as [[v db']|] eqn:H; [|done]. exfalso.
  destruct (record_stages _ _ _ _ _ _ _ _ _ _ _ H Hd)
    as (dv & dr & db2 & Hdr & Hdel & _ & Hid & Hdv & _ & (Hf1 & _ & _) & Hvs & [= Hi Ht Hst] & _ & _ & _ & Hset).
  rewrite bool_decide_false in Hset by congruence.
  apply (settle_Ok _ _ _ _ _ _ _ _ dr) in Hset as (_ & _ & _ & Hb); [|congruence..].
  assert (awaited dr db2 = Some (tid, row)) as Haw2
    by (rewrite <-Haw; unfold awaited, wtransactions; by rewrite Hdel, Hf1).
  destruct (Hb tid row Haw2) as (cur & _ & db3 & Hex & Hv3). revert Hex. unfold exact_binding.
  rewrite Hv3, Hvs, lookup_insert_eq.
  assert (v_status (sanitized_verification_for_write v) = VerificationStatus_Skipped) as Hsv.
  { pose proof (sanitized_author v) as Hsan. cbv zeta in Hsan. destruct_and! Hsan. congruence. }
  cbn [verification_row vr_status vr_dispatch_id vr_task_id vr_agent_id]. rewrite Hsv.
  rewrite Hst, Hsk. cbn [approves storage_status]. intros Hex. repeat split_match; bool_to_prop; done.
Qed.
End verdict_spec.
