(* ===== verification/CapabilitySpec.v ===== *)
(** * What capability tokens promise

    The comparison of digests decides equality, a token handed out is the one
    that is accepted, and only a token with the stored digest is. *)

From S2P Require Import Prelude Enums TaskTypes VerifierText Verifications Agents Db NoteMarkers TaskRows LeaseStore Continuity AgentStore Dispatches Capabilities VerificationSpec.

(** ** Comparing digests *)
Lemma byte_diff_zero d l r :
  String.length l = String.length r → (byte_diff d l r = 0%N ↔ d = 0%N ∧ l = r).
Proof.
  revert d r. induction l as [|a l IH]; intros d [|b r]; simpl; try done; [naive_solver|].
  intros [= Hl]. rewrite (IH _ _ Hl), N.lor_eq_0_iff, N.lxor_eq_0_iff. split.
  - intros [[-> Hab] ->]. split; [done|]. f_equal.
    by rewrite <-(ascii_N_embedding a), Hab, ascii_N_embedding.
  - intros [-> [= -> ->]]. done.
Qed.
Lemma constant_time_eq_spec l r : constant_time_eq l r = String.eqb l r.
Proof.
  unfold constant_time_eq. destruct (Nat.eqb_spec (String.length l) (String.length r)) as [Hl|Hl]; cbn [negb].
  - pose proof (byte_diff_zero 0 l r Hl) as H.
    destruct (N.eqb_spec (byte_diff 0 l r) 0), (String.eqb_spec l r); naive_solver.
  - destruct (String.eqb_spec l r); [congruence|done].
Qed.

(** ** Hexadecimal texts *)
Definition hex_char (c : ascii) : bool :=
  let n := N_of_ascii c in ((48 <=? n) && (n <=? 57) || (97 <=? n) && (n <=? 102))%N.
Lemma hex_digit_char n : 0 ≤ n < 16 → hex_char (hex_digit n) = true.
Proof.
  intros Hn. assert (n = 0 ∨ n = 1 ∨ n = 2 ∨ n = 3 ∨ n = 4 ∨ n = 5 ∨ n = 6 ∨ n = 7 ∨ n = 8 ∨ n = 9
    ∨ n = 10 ∨ n = 11 ∨ n = 12 ∨ n = 13 ∨ n = 14 ∨ n = 15) as Hc by lia.
  repeat destruct Hc as [-> |Hc]; try reflexivity. by subst.
Qed.
Fixpoint all_chars (p : ascii → bool) (s : string) : bool :=
  match s with EmptyString => true | String c s => p c && all_chars p s end.
Lemma hex_text_chars d n tail : all_chars hex_char tail = true → all_chars hex_char (hex_text d n tail) = true.
Proof.
  revert n tail. induction d as [|d IH]; intros n tail Ht; simpl; [done|]. apply IH. simpl.
  rewrite hex_digit_char by (apply Z.mod_pos_bound; lia). done.
Qed.
Lemma hex_text_length d n tail : String.length (hex_text d n tail) = (d + String.length tail)%nat.
Proof. revert n tail. induction d as [|d IH]; intros n tail; simpl; [done|]. rewrite IH. simpl. lia. Qed.

Lemma split_once_app (sep : ascii) s t :
  all_chars (λ c, negb (Ascii.eqb c sep)) s = true →
  split_once sep (s +:+ String sep t) = Some (s, t).
Proof.
  induction s as [|c s IH]; intros H.
  - change (split_once sep (String sep t) = Some ("", t)). simpl. by rewrite Ascii.eqb_refl.
  - cbn [all_chars] in H. bool_to_prop. rewrite append_cons. simpl. destruct (Ascii.eqb c sep); [done|]. by rewrite IH.
Qed.
Lemma all_chars_impl (p q : ascii → bool) s :
  (∀ c, p c = true → q c = true) → all_chars p s = true → all_chars q s = true.
Proof. intros Hpq. induction s; simpl; [done|]. intros H. bool_to_prop. apply andb_true_iff. auto. Qed.
Lemma all_chars_app p s t : all_chars p (s +:+ t) = all_chars p s && all_chars p t.
Proof.
  induction s as [|c s IH]; [done|]. rewrite append_cons. simpl. by rewrite IH, andb_assoc.
Qed.
Lemma all_bytes_chars p s : all_bytes p s = all_chars (λ c, p (N_of_ascii c)) s.
Proof. induction s; simpl; congruence. Qed.

Section tokens.
Context {host : Host}.

Definition bearer_id (random_id : Z) : string := "vcap-" +:+ hex_text 32 random_id "".
Lemma bearer_id_chars random_id (q : ascii → bool) :
  (∀ c, hex_char c = true → q c = true) → all_chars q "vcap-" = true →
  all_chars q (bearer_id random_id) = true.
Proof.
  intros Hq Hv. unfold bearer_id. rewrite all_chars_app, Hv.
  by apply (all_chars_impl hex_char), hex_text_chars.
Qed.

Lemma token_names_its_capability random_id random_secret :
  capability_id_from_token (bearer_id random_id +:+ "." +:+ hex_text 64 random_secret "")
  = Ok (bearer_id random_id).
Proof.
  unfold capability_id_from_token.
  assert ("." +:+ hex_text 64 random_secret "" = String "." (hex_text 64 random_secret "")) as ->
    by (by rewrite append_cons, append_nil).
  rewrite split_once_app.
  - assert (starts_with "vcap-" (bearer_id random_id) = true) as ->.
    { unfold bearer_id. generalize (hex_text 32 random_id ""). intros t.
      rewrite !append_cons, append_nil. reflexivity. }
    rewrite all_bytes_chars, bearer_id_chars; [|intros c Hc|done].
    + rewrite hex_text_length. done.
    + unfold hex_char, char_is_ascii_alphanumeric in *. by destruct c as [[] [] [] [] [] [] [] []].
  - apply bearer_id_chars; [intros c Hc|done]. by destruct c as [[] [] [] [] [] [] [] []].
Qed.

(** C31: A token handed out is accepted, and only it.  The token that comes with a
    new bearer capability names and proves that capability, which is stored for
    the latest dispatch of the task, unbound, for half an hour; and a token is
    accepted only for a stored capability whose digest is the token's digest. *)
Theorem issued_token_is_accepted clk random_id random_secret task_id issuer db c token db' :
  issue_verifier_capability clk random_id random_secret task_id issuer db = Ok ((c, token), db') →
  inspect_verifier_capability token db' = Ok c
  ∧ vc_dispatch_id c = latest_dispatch_id task_id db ∧ vc_issuer_agent_id c = issuer
  ∧ vc_verifier_agent_id c = None ∧ vc_consumed_at c = None
  ∧ vc_expires_at c = vc_issued_at c + duration_seconds 1800
  ∧ ∀ other c', inspect_verifier_capability other db' = Ok c' →
      vc_token_hash c' = capability_token_hash other
      ∧ capabilities db' !! vc_id c' = Some (capability_row c').
Proof.
  unfold issue_verifier_capability. intros H. apply bind_Ok in H as (latest & Hl & H).
  apply bind_Ok in H as (d & Hd & H). cbv zeta in H. fold (bearer_id random_id) in H.
  remember (bearer_id random_id +:+ "." +:+ hex_text 64 random_secret "") as tok eqn:Htok.
  apply bind_Ok in H as (db1 & Hi & [= <- <- <-]). unfold insert_capability in Hi.
  cbn [new_capability vc_id] in Hi. destruct (capabilities db !! bearer_id random_id) eqn:Hfree; [done|].
  injection Hi as <-. destruct latest as [l|]; [|done]. cbn in Hd.
  destruct (_ && _ && _) in Hd; [|done]. injection Hd as ->.
  split_and!; try done.
  - unfold inspect_verifier_capability. rewrite Htok at 1. rewrite token_names_its_capability. cbn [mbind result_bind].
    unfold load_capability_with_conn. cbn [capabilities set_capabilities]. unfold capabilities. cbn.
    rewrite lookup_insert_eq. cbn. by rewrite constant_time_eq_spec, String.eqb_refl.
  - apply get_latest_Some in Hl as (r & Hh & _). unfold latest_dispatch_id. by rewrite Hh.
  - intros other c'. unfold inspect_verifier_capability, load_capability_with_conn.
    intros (id & _ & H)%bind_Ok. apply bind_Ok in H as (x & Hx & H).
    destruct (capabilities _ !! id) as [r|] eqn:Hr in Hx; [|done]. injection Hx as <-.
    rewrite constant_time_eq_spec in H. destruct (String.eqb_spec (vc_token_hash (capability_from_row id r))
      (capability_token_hash other)) as [Heq|]; [|done]. injection H as <-. split; [done|].
    cbn [vc_id capability_from_row]. rewrite Hr. by destruct r.
Qed.
End tokens.
