(* ===== verification/DeliverySpec.v ===== *)
(** * What deliveries promise

    A receipt's id is the digest of a text that determines the whole receipt;
    receipts are immutable, and reporting the same completion again changes
    nothing. *)

From S2P Require Import Prelude Enums TaskTypes VerifierText Verifications Agents Db NoteMarkers TaskRows Leases LeaseStore Dispatches Deliveries.

(** ** The hashed text *)

(** A text is determined by what precedes and follows a part of known length. *)
Lemma append_inj_length (a b c d : string) :
  String.length a = String.length c → a +:+ b = c +:+ d → a = c ∧ b = d.
Proof.
  revert c. induction a as [|x a IH]; intros [|y c]; simpl; try done.
  intros Hl. rewrite !append_cons. intros [= -> H]. apply IH in H as [-> ->]; [done|lia].
Qed.

Lemma be_bytes_length n z tail : String.length (be_bytes n z tail) = (n + String.length tail)%nat.
Proof. revert z tail. induction n as [|n IH]; intros z tail; simpl; [done|]. rewrite IH. simpl. lia. Qed.

(** The number [n] bytes stand for *)
Fixpoint be_value (acc : Z) (s : string) : Z :=
  match s with
  | EmptyString => acc
  | String c s => be_value (acc * 256 + Z.of_N (N_of_ascii c)) s
  end.
Lemma be_value_bytes n acc z tail :
  0 ≤ z < 256 ^ Z.of_nat n →
  be_value acc (be_bytes n z tail) = be_value (acc * 256 ^ Z.of_nat n + z) tail.
Proof.
  revert z tail. induction n as [|n IH]; intros z tail Hz.
  - simpl. f_equal. change (256 ^ Z.of_nat 0) with 1 in *. lia.
  - simpl be_bytes. rewrite Nat2Z.inj_succ, Z.pow_succ_r in * by lia.
    pose proof (Z.div_mod z 256 ltac:(lia)). pose proof (Z.mod_pos_bound z 256 ltac:(lia)).
    rewrite IH by (split; [apply Z.div_pos; lia|apply Z.div_lt_upper_bound; lia]).
    simpl. f_equal. rewrite N_ascii_embedding by lia. rewrite Z2N.id by lia. nia.
Qed.
Lemma be_bytes_inj n z z' :
  0 ≤ z < 256 ^ Z.of_nat n → 0 ≤ z' < 256 ^ Z.of_nat n →
  be_bytes n z "" = be_bytes n z' "" → z = z'.
Proof.
  intros Hz Hz' H. apply (f_equal (be_value 0)) in H. rewrite !be_value_bytes in H by done. done.
Qed.

(** [usize]: the length of a text fits 64 bits *)
Definition fits_usize (s : string) : Prop := Z.of_nat (String.length s) < 2 ^ 64.

Lemma digest_input_cons p parts :
  digest_input (p :: parts)
  = be_bytes 8 (Z.of_nat (String.length p)) "" +:+ p +:+ digest_input parts.
Proof. reflexivity. Qed.
Lemma digest_input_nonempty p parts : digest_input (p :: parts) ≠ "".
Proof.
  intros H%(f_equal String.length). rewrite digest_input_cons, length_append, be_bytes_length in H.
  revert H. generalize (String.length (p +:+ digest_input parts)). simpl. lia.
Qed.

Lemma digest_input_inj parts parts' :
  Forall fits_usize parts → Forall fits_usize parts' →
  digest_input parts = digest_input parts' → parts = parts'.
Proof.
  revert parts'. induction parts as [|p parts IH]; intros [|p' parts'] Hf Hf' H; [done|..].
  - symmetry in H. by apply digest_input_nonempty in H.
  - by apply digest_input_nonempty in H.
  - apply Forall_cons in Hf as [Hp Hf], Hf' as [Hp' Hf']. rewrite !digest_input_cons in H.
    apply append_inj_length in H as [Hlen H]; [|by rewrite !be_bytes_length].
    unfold fits_usize in *. apply be_bytes_inj in Hlen; [|change (256 ^ Z.of_nat 8) with (2 ^ 64); lia..].
    apply append_inj_length in H as [-> H]; [|lia]. f_equal. by apply IH.
Qed.

(** A receipt's digest commits to the whole receipt.  The text that is hashed
    into the id of a completion receipt frames every part with its length, so
    two reports with the same hashed text agree on the task, the worker and its
    name, the repository, branches, commits, proof, scope and artifact; nothing
    can be moved from one field to the next. *)
Theorem receipt_digest_is_unambiguous input worker_name input' worker_name' :
  Forall fits_usize (receipt_parts input worker_name) →
  Forall fits_usize (receipt_parts input' worker_name') →
  digest_input (receipt_parts input worker_name) = digest_input (receipt_parts input' worker_name') →
  input = input' ∧ worker_name = worker_name'.
Proof.
  intros Hf Hf' H%digest_input_inj; [|done..].
  destruct input as [? ? ? ? ? ? ? ? ? ? o], input' as [? ? ? ? ? ? ? ? ? ? o'].
  unfold receipt_parts in H. simpl in H. destruct o, o'; simplify_eq/=; done.
Qed.

(** ** Creation *)
Section delivery_spec.
Context {host : Host}.

Lemma same_payload_refl r : same_immutable_receipt_payload r r = true.
Proof. unfold same_immutable_receipt_payload. by apply bool_decide_eq_true. Qed.

Lemma transaction_of_receipt_Some rid db id row :
  transaction_of_receipt rid db = Some (id, row) →
  wtransactions db !! id = Some row ∧ tx_receipt_id row = rid.
Proof.
  unfold transaction_of_receipt. intros H. apply head_Some_elem_of in H.
  apply elem_of_sql_select in H as [H Heq]. bool_to_prop. done.
Qed.

Lemma set_wreceipts_same db : set_wreceipts (wreceipts db) db = db.
Proof. destruct db as [? ? ? ? ? ? ? ? ? ? ? ? ? ? ? ? ? ? ? ? ? ? del ?]. by destruct del. Qed.

(** The first part of the operation: the receipt is kept or stored. *)
Definition kept_receipt (receipt : WorkerCompletionReceipt) (db : Db) : CompletionReceiptRow :=
  default (receipt_row receipt) (wreceipts db !! wc_id receipt).

Lemma insert_event_deliveries tid state actor detail now db db' :
  insert_event tid state actor detail now db = Ok db' →
  wtransactions db' = wtransactions db ∧ wreceipts db' = wreceipts db.
Proof.
  unfold insert_event. cbv zeta. destruct (existsb _ _); [by intros [= <-]|].
  destruct (wtransactions db !! tid); [by intros [= <-]|done].
Qed.

Lemma parse_state_to_string i x : parse_state i (WorkerDeliveryState_to_string x) = Ok x.
Proof. by destruct x. Qed.

Lemma parse_state_Ok i s x : parse_state i s = Ok x → s = WorkerDeliveryState_to_string x.
Proof.
  unfold parse_state, WorkerDeliveryState_from_str. simpl. intros H.
  repeat match type of H with context [String.eqb ?a ?b] =>
    destruct (String.eqb_spec a b); [by simplify_eq/=|] end.
  done.
Qed.
Lemma insert_transaction_Ok id row db n db' :
  insert_transaction id row db = (n, db') →
  n = 0%nat ∧ db' = db
  ∨ n = 1%nat ∧ wtransactions db !! id = None ∧ transaction_of_receipt (tx_receipt_id row) db = None
    ∧ db' = set_wtransactions (<[id := row]> (wtransactions db)) db.
Proof.
  unfold insert_transaction. intros H.
  destruct (wtransactions db !! id), (transaction_of_receipt _ db); simplify_eq; auto.
Qed.
Lemma transaction_of_receipt_None rid db id row :
  transaction_of_receipt rid db = None → wtransactions db !! id = Some row → tx_receipt_id row ≠ rid.
Proof.
  unfold transaction_of_receipt. intros Hn Hrow Heq.
  assert ((id, row) ∈ sql_select (λ _ r, String.eqb (tx_receipt_id r) rid) (wtransactions db)) as Hin
    by (apply elem_of_sql_select; by rewrite Heq, String.eqb_refl).
  destruct (sql_select _ _); [by apply elem_of_nil in Hin|done].
Qed.

(** A success of the operation, by the tables it leaves *)
Lemma create_delivery_Ok receipt state actor now db t db' :
  create_worker_delivery receipt state actor now db = Ok (t, db') →
  let kept := kept_receipt receipt db in
  same_immutable_receipt_payload (receipt_from_row (wc_id receipt) kept) receipt = true
  ∧ wreceipts db' = <[wc_id receipt := kept]> (wreceipts db)
  ∧ wtransactions db ⊆ wtransactions db' ∧ wtx_state t = state
  ∧ ∃ id row, transaction_of_receipt (wc_id receipt) db' = Some (id, row)
      ∧ transaction_from_row id row = Ok t
      ∧ (wtransactions db' = wtransactions db
         ∨ wtransactions db !! id = None
           ∧ wtransactions db' = <[id := new_transaction_row receipt state now]> (wtransactions db)).
Proof.
  unfold create_worker_delivery, create_worker_delivery_with_conn. intros H. cbv zeta in *.
  assert (match wreceipts db !! wc_id receipt with Some r => r | None => receipt_row receipt end
          = kept_receipt receipt db) as Hk by (unfold kept_receipt; by destruct (wreceipts db !! _)).
  rewrite Hk in H. set (kept := kept_receipt receipt db) in *. clearbody kept.
  destruct (same_immutable_receipt_payload _ _) eqn:Hsame in H; [|done]. cbn [negb] in H. split; [done|].
  set (db1 := set_wreceipts _ db) in H. set (tid := worker_delivery_transaction_id _) in H.
  destruct (insert_transaction _ _ db1) as [n db2] eqn:Hins.
  apply bind_Ok in H as ([id row] & Hof & H). apply bind_Ok in H as (t0 & Hrow & H).
  destruct (transaction_of_receipt (wc_id receipt) db2) as [x|] eqn:Hrec; [|done].
  injection Hof as ->. apply insert_transaction_Ok in Hins as [[-> ->]|(-> & Hnone & Hno & Hdb2)].
  - destruct (bool_decide _) eqn:Hst in H; [|done]. injection H as <- <-. bool_to_prop.
    split_and!; [done|done|done|]. exists id, row. auto.
  - apply bind_Ok in H as (db3 & [Hw Hr]%insert_event_deliveries & [= <- <-]).
    assert (transaction_of_receipt (wc_id receipt) db3 = Some (id, row)) as Hrec3
      by (unfold transaction_of_receipt in *; by rewrite Hw).
    assert (id = tid) as ->.
    { destruct (decide (id = tid)) as [|Hne]; [done|]. exfalso.
      apply transaction_of_receipt_Some in Hrec as [Hid Hrid]. rewrite Hdb2 in Hid. cbn in Hid.
      rewrite lookup_insert_ne in Hid by done. by apply (transaction_of_receipt_None _ _ _ _ Hno) in Hid. }
    split_and!; [by rewrite Hr, Hdb2| | |].
    + rewrite Hw, Hdb2. apply insert_subseteq, Hnone.
    + apply transaction_of_receipt_Some in Hrec as [Hid _]. rewrite Hdb2 in Hid. cbn in Hid.
      rewrite lookup_insert_eq in Hid. injection Hid as <-. unfold transaction_from_row in Hrow.
      cbn [new_transaction_row tx_state] in Hrow. rewrite parse_state_to_string in Hrow. by injection Hrow as <-.
    + exists tid, row. split_and!; [done|done|]. right. split; [done|]. by rewrite Hw, Hdb2.
Qed.

(** The content of a receipt, as its row keeps it *)
Definition stored_receipt (r : WorkerCompletionReceipt) (created_at : Z) : CompletionReceiptRow :=
  mkCompletionReceiptRow
    (wc_task_id r) (wc_worker_agent_id r) (wc_worker_name r) (wc_repo_selector r) (wc_source_branch r)
    (wc_commit_sha r) (wc_merge_base_sha r) (wc_target_branch r) (wc_target_sha r) (wc_proof_reference r)
    (wc_scope_summary r) (wc_artifact_path r) created_at.
Lemma kept_is_stored receipt db :
  same_immutable_receipt_payload (receipt_from_row (wc_id receipt) (kept_receipt receipt db)) receipt = true →
  kept_receipt receipt db
  = stored_receipt receipt (match wreceipts db !! wc_id receipt with
                            | Some old => wr_created_at old | None => wc_created_at receipt end).
Proof.
  unfold same_immutable_receipt_payload, kept_receipt. intros H%bool_decide_eq_true. revert H.
  destruct (wreceipts db !! _) as [[]|]; [|by destruct receipt]. destruct receipt. by intros [= ????????????]; subst.
Qed.

(** The transaction a new completion starts *)
Definition started_delivery (receipt : WorkerCompletionReceipt) (state : WorkerDeliveryState) (now : Z)
    : DeliveryTransactionRow :=
  mkDeliveryTransactionRow (wc_id receipt) (wc_task_id receipt) (WorkerDeliveryState_to_string state)
    None None None None None now now.

(** C35: A completion is recorded once.  When reporting a completion succeeds, the
    stored receipts and transactions that were there are unchanged and none but
    this receipt is added.  The receipt is stored with every field of the report,
    and keeps the creation time of its first report; so a report whose id is taken
    by another content fails.  Its transaction is in the requested state: the one
    it had, or a new one of this task.  Reporting it again, at any time and by
    anyone, answers the same transaction and changes nothing. *)
Theorem create_delivery_is_idempotent receipt state actor now db t db' :
  create_worker_delivery receipt state actor now db = Ok (t, db') →
  wreceipts db ⊆ wreceipts db' ∧ wtransactions db ⊆ wtransactions db'
  ∧ wreceipts db' = <[wc_id receipt := stored_receipt receipt
                        (match wreceipts db !! wc_id receipt with
                         | Some old => wr_created_at old | None => wc_created_at receipt end)]> (wreceipts db)
  ∧ (∃ row, wtransactions db' !! wtx_id t = Some row ∧ tx_receipt_id row = wc_id receipt
      ∧ tx_state row = WorkerDeliveryState_to_string state)
  ∧ (wtransactions db' = wtransactions db
     ∨ wtransactions db !! wtx_id t = None
       ∧ wtransactions db' = <[wtx_id t := started_delivery receipt state now]> (wtransactions db))
  ∧ ∀ actor' now', create_worker_delivery receipt state actor' now' db' = Ok (t, db').
Proof.
  intros (Hsame & Hr & Hw & Hst & id & row & Hof & Hrow & Hnew)%create_delivery_Ok.
  rewrite <-kept_is_stored by done. set (kept := kept_receipt receipt db) in *.
  assert (wreceipts db' !! wc_id receipt = Some kept) as Hkept by (by rewrite Hr, lookup_insert_eq).
  assert (wtx_id t = id ∧ tx_state row = WorkerDeliveryState_to_string state) as [Hid Htext].
  { unfold transaction_from_row in Hrow. destruct (parse_state _ _) as [x|] eqn:Hp; [|done].
    injection Hrow as <-. cbn in Hst. subst x. split; [done|]. by apply parse_state_Ok in Hp. }
  rewrite Hid. apply transaction_of_receipt_Some in Hof as Hat. split_and!; [|done|done| |done|].
  - rewrite Hr. apply map_subseteq_spec. intros k r Hk.
    destruct (decide (k = wc_id receipt)) as [->|Hne]; [|by rewrite lookup_insert_ne].
    rewrite lookup_insert_eq. unfold kept, kept_receipt. by rewrite Hk.
  - exists row. by destruct Hat.
  - intros actor' now'. unfold create_worker_delivery, create_worker_delivery_with_conn. cbv zeta.
    rewrite Hkept, insert_id by done. rewrite set_wreceipts_same, Hsame. cbn [negb].
    unfold insert_transaction. cbn [new_transaction_row tx_receipt_id]. rewrite Hof.
    destruct (wtransactions db' !! worker_delivery_transaction_id (wc_id receipt)); rewrite Hof; cbn [ok_or mbind result_bind]; rewrite Hrow;
      cbn [mbind result_bind Nat.eqb]; by rewrite bool_decide_true.
Qed.
End delivery_spec.
