(* ===== verification/Witnesses.v ===== *)
(** * Concrete runs of the lease, agent and handoff theorems

    A small database (a supervisor with two workers, one leased task, one
    worktree, one recorded session end) on which the hypotheses of the theorems
    of the agent store hold, and each of those theorems applied to it. *)

From S2P Require Import Prelude Enums TaskTypes Leases Agents Db LeaseStore WorktreeLeases Continuity AgentStore Coordination LeaseProtocol.

(** ** The sample host and database *)

(** A host whose digest is the identity: injective, as the digest is assumed to be. *)
Definition sample_host : Host :=
  {| sha256_hex := λ s, s; to_rfc3339 := λ z, show_z z; parse_from_rfc3339 := parse_i64; display_time := λ z, show_z z;
     json_parse := λ s, if String.eqb s "[]" then Some (JArray []) else None;
     json_error := λ _, "expected value";
     deliverables_json := λ _, JObject []; process_id := 4242; env_factory_session := None;
     json_parse_string := λ _, None; json_strings_prefix := λ _, None;
     is_note_timestamp := λ _, true;
     json_text := λ v, match v with JString s => s | _ => "{}" end;
     sqlite_json_extract := λ key s, SqlText <$> strip_prefix (key +:+ "=") s;
     sqlite_json_set := λ key v s, Some (s +:+ ";" +:+ key +:+ "=" +:+ v) |}.
#[export] Existing Instance sample_host.

(** A clock that reads [s] seconds after the epoch, and a nanosecond more at
    every further reading *)
Definition at_sec (s : Z) : Clock := λ n, duration_seconds s + Z.of_nat n.

Definition lead_agent : Agent :=
  Agent_new_with_role (duration_seconds 10) "s1" "lead" AgentRole_Supervisor
    <| ag_machine_id := Some "m" |> <| ag_factory_session := Some "fs1" |>.
Definition worker_agent (id name : string) : Agent :=
  Agent_new_sub_agent (duration_seconds 20) id name "s1"
    <| ag_role := AgentRole_Worker |> <| ag_machine_id := Some "m" |>
    <| ag_factory_session := Some "fs1" |>.

Definition row_of (a : Agent) (counter : Z) : AgentRow :=
  registered_row a (ag_factory_session a) None <| a_active_tasks := counter |>.

Definition lease_of (a : string) (epoch until : Z) : LeaseRow :=
  claim_row a (duration_seconds 30) (duration_seconds until) epoch None.

(** A review round of "t1" that "w1" has claimed *)
Definition claimed_round : QaPassRow :=
  {| q_rowid := 1; q_task_id := "t1"; q_round := 1; q_implementer_agent_id := "w2";
     q_branch := "factory/bob"; q_bound_head := "aaaa1111"; q_qa_task_id := None;
     q_reviewer_agent_id := Some "w1"; q_state := "claimed"; q_summary := None;
     q_issues_json := None; q_ledger_path := None; q_issuer_agent_id := None;
     q_requested_at := 0; q_deadline_at := 900; q_resolved_at := None |}.
(** "w1" holds task "t1" at epoch 3 until second 630. *)
Definition base_db : Db :=
  empty_db
    <| db_agents := <["s1" := row_of lead_agent 0]>
                     (<["w1" := row_of (worker_agent "w1" "ada") 1]>
                      (<["w2" := row_of (worker_agent "w2" "bob") 0]> ∅)) |>
    <| db_task_leases := <["t1" := lease_of "w1" 3 630]> ∅ |>
    <| db_tasks := <["t1" := Task_new (at_sec 5) "t1" "work"
                             <| t_status := TaskStatus_InProgress |> <| t_assignee := Some "w1" |>]> ∅ |>
    <| db_worktrees := <["wt1" := mkWorktreeRow (Some "e1") "b" "/p" "active"]> ∅ |>
    <| db_worktree_leases :=
         <["wt1" := worktree_claim_row "w1" (duration_seconds 30) (duration_seconds 630)]> ∅ |>
    <| db_qa_passes := <["q1" := claimed_round]> ∅ |>.

(** Decide a closed proposition by evaluation. *)
Ltac by_eval := apply (bool_decide_eq_true_1 _); vm_compute; reflexivity.
(** A hypothesis about the row found under a concrete key *)
Ltac by_row := intros ? Hrow; vm_compute in Hrow; simplify_eq; vm_compute; intuition congruence.

Lemma epochs_ok_eval db :
  bool_decide (map_Forall (λ _ r, 1 ≤ l_epoch r < 2 ^ 63 - 1) (db_task_leases db)) = true →
  epochs_ok db.
Proof. intros H%bool_decide_eq_true_1 t r Hr. exact (H t r Hr). Qed.

Lemma digest_fresh_eval db id :
  db_session_ends db = ∅ → digest_fresh db id.
Proof. intros H a _ _ k r Hr. rewrite H in Hr. by rewrite lookup_empty in Hr. Qed.

Lemma db_wf_eval db :
  bool_decide (map_Forall (λ _ r, is_Some (db_agents db !! l_agent_id r)) (db_task_leases db)) = true →
  bool_decide (map_Forall (λ _ r, is_Some (db_agents db !! w_agent_id r)) (db_worktree_leases db)) = true →
  db_wf db.
Proof. intros ?%bool_decide_eq_true_1 ?%bool_decide_eq_true_1. by split. Qed.

(** ** Leases *)
Lemma release_default_equiv_witness :
  (λ r, (r.1, erase_reasons r.2)) <$> release_lease_if_owner_epoch_default (at_sec 40) "t1" "w1" 3 base_db
  = (λ r, (r.1, erase_reasons r.2)) <$>
      lease_release_lease_if_owner_epoch (at_sec 40) "t1" "w1" 3 "done" base_db.
Proof. apply release_if_owner_epoch_default_equiv; [lia|by_row]. Defined.

Lemma renew_lease_witness :
  is_ok (lease_renew_lease (at_sec 40) "t1" "w1" 900 base_db) = true
  ∧ renew_post (at_sec 40 0%nat) "t1" "w1" 900 base_db
      (lease_renew_lease (at_sec 40) "t1" "w1" 900 base_db).
Proof. split; [vm_compute; reflexivity|]. apply renew_lease_spec. by_row. Defined.

Lemma can_work_witness :
  worktree_can_agent_work_on_epic (at_sec 40) "w2" "e1" base_db = false
  ∧ (worktree_can_agent_work_on_epic (at_sec 40) "w1" "e1" base_db = true ↔
     ∀ k w h, db_worktrees base_db !! k = Some w → active_worktree_of "e1" w = true →
       worktree_holder base_db (at_sec 40 0%nat) k = Some h → h = "w1").
Proof.
  split; [vm_compute; reflexivity|].
  apply can_agent_work_on_epic_spec. intros k1 k2 w1 w2 H1 H2 _ _.
  unfold base_db in H1, H2. simpl in H1, H2.
  apply lookup_insert_Some in H1 as [[<- _]|[_ H1]]; [|by rewrite lookup_empty in H1].
  apply lookup_insert_Some in H2 as [[<- _]|[_ H2]]; [done|by rewrite lookup_empty in H2].
Defined.

(** ** Handoff *)

(** The session end of a retired "s0" on record, claimed by the live "s1" *)
Definition handoff_row (claimed_by : option string) (claimed_epoch : option Z) : SessionEndRow :=
  {| s_id := "h0"; s_machine_id := Some "m"; s_role := "supervisor"; s_reason := "unknown";
     s_payload := {| se_id := "h0"; se_agent_id := "s0"; se_name := "lead"; se_reason := "unknown";
                     se_registered_at := 1; se_factory_session := None; se_pid := None;
                     se_ppid := None; se_pid_starttime := None; se_parent_starttime := None;
                     se_tasks := []; se_workers := []; se_pending := [] |};
     s_ended_at := 2; s_claimed_by := claimed_by; s_claimed_epoch := claimed_epoch;
     s_queued_at := None |}.
Definition handoff_db : Db :=
  base_db <| db_session_ends :=
    <[("s0", 1) := handoff_row (Some "s1") (Some (duration_seconds 10))]> ∅ |>
    <| db_agents ::= <["s2" := row_of (lead_agent <| ag_id := "s2" |> <| ag_name := "second" |>) 0]> |>.

Lemma capture_keeps_evidence_witness :
  ∃ r', db_session_ends (commit handoff_db ((λ d, ((), d)) <$> capture 50 "s1" (Some "crash") handoff_db))
          !! ("s0", 1) = Some r'
    ∧ reason_refined (handoff_row (Some "s1") (Some (duration_seconds 10))) r'.
Proof.
  eapply (capture_keeps_evidence 50 "s1" (Some "crash") handoff_db); vm_compute; reflexivity.
Defined.

Lemma capture_records_witness :
  ∃ db', capture 50 "w1" (Some "crash") base_db = Ok db' ∧ session_end_recorded "w1" db' = true.
Proof.
  eexists. split; [vm_compute; reflexivity|].
  eapply (capture_records 50 "w1" (Some "crash") base_db); vm_compute; reflexivity.
Defined.

Lemma handoff_one_winner_witness :
  ∃ l db', claim_supervisor_handoffs (lead_agent <| ag_id := "s2" |> <| ag_name := "second" |>) handoff_db
             = Ok (l, db')
    ∧ db_session_ends db' !! ("s0", 1)
      = Some (handoff_row (Some "s1") (Some (duration_seconds 10))).
Proof.
  eexists _, _. split; [vm_compute; reflexivity|].
  refine (proj1 (handoff_one_winner lead_agent
    (lead_agent <| ag_id := "s2" |> <| ag_name := "second" |>) handoff_db _ _ _ _ _ _) _ _ _ _);
    [|vm_compute; reflexivity|vm_compute; intuition congruence|vm_compute; reflexivity
     |vm_compute; reflexivity|vm_compute; reflexivity].
  intros k1 k2 r1 r2 H1 H2 _. unfold handoff_db in H1, H2. simpl in H1, H2.
  apply lookup_insert_Some in H1 as [[<- _]|[_ H1]]; [|by rewrite lookup_empty in H1].
  apply lookup_insert_Some in H2 as [[<- _]|[_ H2]]; [done|by rewrite lookup_empty in H2].
Defined.

Lemma release_qa_claims_witness :
  db_qa_passes (release_qa_claims_for_agent "w1" base_db) !! "q1"
  = Some (claimed_round <| q_reviewer_agent_id := None |> <| q_state := "pending" |>).
Proof.
  rewrite (proj1 (release_qa_claims_spec "w1" base_db "q1"
                   claimed_round eq_refl)).
  vm_compute. reflexivity.
Defined.

(** ** Agents *)
Lemma heartbeat_witness :
  is_ok (agent_heartbeat (at_sec 40) "w1" base_db) = true
  ∧ heartbeat_post (at_sec 40 0%nat) "w1" base_db (agent_heartbeat (at_sec 40) "w1" base_db).
Proof. split; [vm_compute; reflexivity|]. apply heartbeat_spec, epochs_ok_eval. vm_compute. reflexivity. Defined.

Lemma register_upsert_witness :
  ∃ db', agent_register (at_sec 50) (worker_agent "w1" "eve") base_db = Ok (tt, db')
    ∧ db_task_leases db' = db_task_leases base_db.
Proof.
  eexists. split; [vm_compute; reflexivity|].
  eapply (register_upsert (at_sec 50) (worker_agent "w1" "eve") base_db). vm_compute. reflexivity.
Defined.

(** The supervisor comes back under a new id and session; "w2" follows it. *)
Definition new_lead : Agent :=
  lead_agent <| ag_id := "s3" |> <| ag_factory_session := Some "fs2" |>.

Lemma register_supervisor_witness :
  ∃ db' a', agent_register (at_sec 50) new_lead base_db = Ok (tt, db')
    ∧ db_agents db' !! "w2" = Some a'
    ∧ a_factory_session a' = Some "fs2" ∧ a_status a' = "active".
Proof.
  assert (∃ db', agent_register (at_sec 50) new_lead base_db = Ok (tt, db')) as [db' Hdb'].
  { eexists. vm_compute. reflexivity. }
  destruct (register_supervisor_takes_over (at_sec 50) new_lead "fs2" base_db db' Hdb'
    eq_refl ltac:(done) eq_refl ltac:(vm_compute; done) "w2"
    (row_of (worker_agent "w2" "bob") 0) ltac:(done) ltac:(vm_compute; reflexivity))
    as (a' & Ha' & Hpost).
  exists db', a'. split; [done|]. split; [done|]. vm_compute in Hpost. exact Hpost.
Defined.

Lemma register_get_witness :
  ∃ db', agent_register (at_sec 50) (worker_agent "w9" "new") base_db = Ok (tt, db')
    ∧ agent_get "w9" db' = Ok (worker_agent "w9" "new").
Proof.
  assert (∃ db', agent_register (at_sec 50) (worker_agent "w9" "new") base_db = Ok (tt, db'))
    as [db' Hdb'] by (eexists; vm_compute; reflexivity).
  exists db'. split; [done|].
  refine (eq_trans (register_get_roundtrip (at_sec 50) (worker_agent "w9" "new") base_db db' Hdb'
            _ _ _ _ _) _);
    [vm_compute; reflexivity|vm_compute; intuition congruence|intros ? [=]..
    |vm_compute; reflexivity].
Defined.

Lemma unregister_witness :
  ∃ db', agent_unregister (at_sec 50) "w1" base_db = Ok (tt, db')
    ∧ db_task_leases db' !! "t1" = None.
Proof.
  destruct (unregister_spec (at_sec 50) "w1" base_db) as (db' & Hok & _ & Hl & _).
  - by apply digest_fresh_eval.
  - apply db_wf_eval; vm_compute; reflexivity.
  - exists db'. split; [done|]. rewrite Hl. vm_compute. reflexivity.
Defined.

Lemma graceful_shutdown_witness :
  ∃ tasks db', coord_graceful_shutdown (at_sec 50) "w1" base_db = Ok (tasks, db') ∧ "t1" ∈ tasks.
Proof.
  destruct (graceful_shutdown_spec (at_sec 50) "w1" base_db) as (tasks & db' & Hok & Ht & _).
  - by apply digest_fresh_eval.
  - exists tasks, db'. split; [done|]. apply Ht. exists (lease_of "w1" 3 630).
    split_and!; vm_compute; reflexivity.
Defined.

(** ** The protocol *)

(** A run from the empty database: register, claim, expire, claim again *)
Definition sample_run : trace :=
  [(at_sec 1, OpRegister lead_agent); (at_sec 2, OpRegister (worker_agent "w1" "ada"));
   (at_sec 3, OpClaim "t1" "w1" 60 None); (at_sec 70, OpReclaim);
   (at_sec 71, OpClaim "t1" "s1" 60 None)].

Lemma reachable_wf_witness :
  db_wf (run sample_run empty_db)
  ∧ ∃ r, db_task_leases (run sample_run empty_db) !! "t1" = Some r ∧ l_epoch r = 2.
Proof.
  split; [apply (reachable_wf sample_run); simpl; lia|].
  eexists. split; vm_compute; reflexivity.
Defined.

Lemma epochs_below_eval n db :
  bool_decide (epochs_below n db) = true → epochs_below n db.
Proof. apply bool_decide_eq_true_1. Qed.

Lemma epoch_identifies_holder_witness :
  ∃ r', db_task_leases (run [(at_sec 700, OpReclaim); (at_sec 701, OpClaim "t1" "w2" 60 None)] base_db)
          !! "t1" = Some r' ∧ 3 ≤ l_epoch r'
    ∧ (l_epoch r' = 3 → l_agent_id r' = "w1" ∧ l_acquired_at r' = duration_seconds 30).
Proof.
  apply (epoch_identifies_holder _ base_db 3 "t1" (lease_of "w1" 3 630));
    [apply epochs_below_eval; vm_compute; reflexivity
    |apply db_wf_eval; vm_compute; reflexivity|lia|simpl; lia
    |repeat constructor|vm_compute; reflexivity].
Defined.

Lemma stale_release_witness :
  let db' := run ([(at_sec 700, OpReclaim)] ++ (at_sec 701, OpClaim "t1" "w2" 60 None)
                    :: [(at_sec 702, OpHeartbeat "w2")]) base_db in
  lease_release_lease_if_owner_epoch (at_sec 703) "t1" "w1" 3 "late" db' = Ok (false, db').
Proof.
  apply (stale_release_is_fenced [(at_sec 700, OpReclaim)] (at_sec 701) "w2" 60 None
           [(at_sec 702, OpHeartbeat "w2")] base_db 3 "t1" (lease_of "w1" 3 630));
    [apply epochs_below_eval; vm_compute; reflexivity
    |apply db_wf_eval; vm_compute; reflexivity|lia|vm_compute; reflexivity
    |repeat constructor|repeat constructor|vm_compute; reflexivity..].
Defined.

Lemma lease_mutual_exclusion_witness :
  lease_try_claim (at_sec 60) "t1" "w2" 60 None
    (run [(at_sec 50, OpHeartbeat "w2"); (at_sec 51, OpReclaim)] base_db)
  = Ok (ClaimResult_AlreadyClaimed "t1" "w1" None (duration_seconds 630),
        run [(at_sec 50, OpHeartbeat "w2"); (at_sec 51, OpReclaim)] base_db).
Proof.
  destruct (lease_mutual_exclusion [(at_sec 50, OpHeartbeat "w2"); (at_sec 51, OpReclaim)]
              base_db 3 "t1" (lease_of "w1" 3 630)) as (r' & Hr' & _ & _ & _ & Hclaim);
    [apply epochs_below_eval; vm_compute; reflexivity
    |apply db_wf_eval; vm_compute; reflexivity|lia|vm_compute; reflexivity
    |vm_compute; reflexivity|vm_compute; reflexivity| |].
  - split; [|split; [|done]]; intros r Hr; vm_compute in Hr; injection Hr as <-;
      (split; [vm_compute; reflexivity|split; [vm_compute; congruence|intros ? ? ? [=]]]).
  - vm_compute in Hr'. injection Hr' as <-.
    apply (Hclaim (at_sec 60) "w2" 60 None); vm_compute; reflexivity.
Defined.

Lemma lease_refines_lock_witness :
  lock_step (at_sec 700 0%nat) (λ a h, a ≠ h ∧ parent_is base_db a h = true)
    (lock_of base_db "t1") (lock_of (run_op (at_sec 700) (OpClaim "t1" "w2" 60 None) base_db) "t1").
Proof. apply lease_refines_lock, epochs_ok_eval. vm_compute. reflexivity. Defined.

Lemma counters_cover_eval db :
  bool_decide (map_Forall (λ a ar, Z.of_nat (sql_count (held a) (db_task_leases db))
                                   ≤ a_active_tasks ar) (db_agents db)) = true →
  counters_cover db.
Proof. intros H%bool_decide_eq_true_1 a ar Ha. exact (H a ar Ha). Qed.

Lemma active_tasks_witness :
  counters_cover (run_op (at_sec 700) (OpClaim "t1" "w2" 60 None) base_db).
Proof.
  apply active_tasks_covers_leases;
    [apply epochs_ok_eval; vm_compute; reflexivity|reflexivity
    |apply counters_cover_eval; vm_compute; reflexivity].
Defined.

Lemma expired_takeover_witness :
  db_agents (run_op (at_sec 700) (OpClaim "t1" "w2" 60 None) base_db) !! "w1"
  = db_agents base_db !! "w1".
Proof.
  apply (expired_takeover_leaks_counter (at_sec 700) "t1" "w2" 60 None base_db (lease_of "w1" 3 630));
    [vm_compute; reflexivity|vm_compute; reflexivity|vm_compute; congruence
    |vm_compute; congruence|vm_compute; reflexivity].
Defined.

Lemma retirement_witness :
  ∃ r', db_task_leases (run_op (at_sec 60) (OpClaim "t1" "w2" 60 None)
          (run_op (at_sec 50) (OpUnregister "w1") base_db)) !! "t1" = Some r'
    ∧ l_agent_id r' = "w2" ∧ l_epoch r' = 1.
Proof.
  apply (retirement_resets_epoch (at_sec 50) (at_sec 60) "t1" "w2" 60 None base_db (lease_of "w1" 3 630));
    [by apply digest_fresh_eval|by eexists|vm_compute; reflexivity..].
Defined.
