(* ===== verification/TaskWitnesses.v ===== *)
(** * Concrete runs of the task store theorems

    A small project (an epic with three tasks, a blocking edge, a leased task)
    on which the hypotheses of the theorems of the task store hold, and each of
    those theorems applied to it. *)

From S2P Require Import Prelude Enums TaskTypes Leases Agents Db LeaseStore NoteMarkers NoteMarkersSpec TaskRows Cte TaskGraph TaskStore TaskStoreSpec TaskProtocol LeaseProtocol System Witnesses.

Definition sample_task (id : string) : Task := Task_new (at_sec 5) id ("task " +:+ id).

Definition epic_task : Task := sample_task "e1" <| t_task_type := TaskType_Epic |>.
Definition started_task : Task :=
  sample_task "t1" <| t_status := TaskStatus_InProgress |> <| t_assignee := Some "w1" |>
    <| t_notes := "first" |>.

(** "t2" waits for "t1"; both are children of "e1". *)
Definition project_db : Db :=
  base_db
    <| db_tasks := <["e1" := epic_task]> (<["t1" := started_task]>
                     (<["t2" := sample_task "t2"]> (<["t3" := sample_task "t3"]> ∅))) |>
    <| db_dependencies :=
         <[("t2", "t1") := mkDepRow "blocks" 6 None]>
         (<[("t1", "e1") := mkDepRow "parent-child" 6 None]>
         (<[("t2", "e1") := mkDepRow "parent-child" 6 None]> ∅)) |>
    <| db_revisions := <["e1" := mkRevisionRow 1 true]> (<["t1" := mkRevisionRow 4 true]>
                         (<["t2" := mkRevisionRow 1 true]> (<["t3" := mkRevisionRow 1 true]> ∅))) |>.

(** The edges of a concrete database decide its well-formedness. *)
Lemma graph_wf_eval db :
  bool_decide (map_Forall (λ k _, is_Some (db_tasks db !! k.1) ∧ is_Some (db_tasks db !! k.2))
                 (db_dependencies db)) = true →
  bool_decide (map_Forall (λ (k : string * string) r,
                 of_type "blocks" r = true → k.1 ∉ reachable db k.2) (db_dependencies db)) = true →
  graph_wf db.
Proof.
  intros Hc%bool_decide_eq_true_1 Ha%bool_decide_eq_true_1. split.
  - intros x y r Hr. exact (Hc (x, y) r Hr).
  - intros x Hx. inversion Hx as [? y (r & Hr & Hty)|? y z (r & Hr & Hty) Hyx]; subst.
    + apply (Ha (x, x) r Hr Hty). by apply elem_of_reachable.
    + apply (Ha (x, y) r Hr Hty). apply elem_of_reachable. by apply tc_rtc.
Qed.

(** ** Notes *)
Lemma neutralize_defuses_witness :
  ∃ line', split_inclusive (neutralize_new_markers "ARTIFACT_PROOF: forged" (Some "ARTIFACT_PROOF: real")) !! 0%nat
           = Some line'
    ∧ ¬ reads_as_marker (line_text line')
    ∧ ¬ vouched "ARTIFACT_PROOF: forged" (Some "ARTIFACT_PROOF: real") 0 "ARTIFACT_PROOF: forged".
Proof.
  exists " ARTIFACT_PROOF: forged". split; [vm_compute; reflexivity|].
  destruct (neutralize_defuses "ARTIFACT_PROOF: forged" (Some "ARTIFACT_PROOF: real")) as [_ H].
  destruct (H 0%nat "ARTIFACT_PROOF: forged" " ARTIFACT_PROOF: forged") as [[[Heq _]|(_ & _ & Hv & Hm)] _].
  - vm_compute; reflexivity.
  - vm_compute; reflexivity.
  - discriminate Heq.
  - split; [exact Hm|exact Hv].
Defined.

Lemma append_note_witness :
  ∃ db' notes', append_note (at_sec 50) "t1" "second" project_db = Ok (at_sec 50 1%nat, db')
  ∧ db_tasks db' = <["t1" := started_task <| t_notes := notes' |> <| t_updated_at := at_sec 50 1%nat |>]>
                     (db_tasks project_db)
  ∧ notes' = append_text (t_notes started_task) (neutralize_new_markers "second" None)
  ∧ reserved_lines notes' = reserved_lines (t_notes started_task).
Proof. apply append_note_spec. vm_compute. reflexivity. Defined.

(** ** Dependencies *)
Definition blocks_edge (x y : string) : Dependency := Dependency_new 7 x y DependencyType_Blocks.

Lemma concurrent_checks_witness :
  ¬ blocks_acyclic (put_dependency (blocks_edge "t1" "t3") (put_dependency (blocks_edge "t3" "t1") project_db)).
Proof.
  apply (concurrent_checks_admit_cycle (blocks_edge "t3" "t1") (blocks_edge "t1" "t3") project_db).
  - by eexists.
  - by eexists.
  - done.
  - done.
  - done.
  - done.
  - rewrite <-elem_of_reachable. by_eval.
  - rewrite <-elem_of_reachable. by_eval.
Defined.

(** ** Updates *)
Definition closed_task : Task :=
  started_task <| t_status := TaskStatus_Closed |> <| t_closed_at := Some 9 |>
    <| t_terminal_outcome := Some TaskTerminalOutcome_Delivered |>
    <| t_deliverables ::= λ d, d <| td_factory_branch_anchor := Some "abc" |>
                                 <| td_green_merge_commit := Some "def" |> |>.
Definition closed_db : Db := project_db <| db_tasks ::= <["t1" := closed_task]> |>.

Definition urgent_task : Task := started_task <| t_priority := 1 |>.

Lemma update_if_current_witness :
  ∃ db', update_if_current_with_mutation_receipt (at_sec 50) urgent_task
           started_task EmptyString project_db = Ok (at_sec 50 1%nat, db')
  ∧ db_tasks db' = <[t_id urgent_task := next_row project_db (at_sec 50 1%nat) urgent_task started_task]> (db_tasks project_db)
  ∧ db_revisions db' = db_revisions (bump_revision (t_id urgent_task) true project_db)
  ∧ db_dependencies db' = db_dependencies project_db
  ∧ db_task_leases db' = db_task_leases project_db.
Proof.
  assert (bool_decide (t_updated_at started_task = t_updated_at started_task)
          && bool_decide (t_status started_task = t_status started_task) = true) as Hc
    by (vm_compute; reflexivity).
  assert (db_tasks project_db !! t_id urgent_task = Some started_task) as Hcur by (vm_compute; reflexivity).
  assert (t_id started_task = t_id urgent_task) as Hid by (vm_compute; reflexivity).
  pose proof (update_if_current_spec (at_sec 50) urgent_task started_task
                project_db started_task Hid Hcur) as H.
  rewrite Hc in H. exact H.
Defined.

(** A replica's open copy does not undo the live start of "w1". *)
Lemma update_from_sync_witness :
  update_from_sync (at_sec 50) (started_task <| t_status := TaskStatus_Open |>) started_task project_db
  = Ok (None, project_db)
  ∧ project_db = project_db.
Proof.
  assert (update_from_sync (at_sec 50) (started_task <| t_status := TaskStatus_Open |>) started_task
            project_db = Ok (None, project_db)) as H by (vm_compute; reflexivity).
  split; [exact H|]. exact (update_from_sync_spec _ _ _ _ _ _ H).
Defined.

Definition reopened_task : Task := closed_task <| t_status := TaskStatus_Open |> <| t_closed_at := None |>.

Lemma update_invalidates_witness :
  ∃ db' row, update_checked (at_sec 50) reopened_task EmptyString None false closed_db
             = Ok (Some (at_sec 50 1%nat), db')
  ∧ db_tasks db' !! "t1" = Some row ∧ t_terminal_outcome row = None.
Proof.
  assert (∃ db', update_checked (at_sec 50) reopened_task EmptyString None false closed_db
                 = Ok (Some (at_sec 50 1%nat), db')) as [db' H].
  { eexists. unfold update_checked. reflexivity. }
  destruct (update_invalidates_evidence _ _ _ _ _ _ _ _ closed_task H) as (row & Hrow & Hreopen & _).
  - vm_compute. reflexivity.
  - exists db', row. split_and!; [exact H|exact Hrow|]. by apply Hreopen.
Defined.

(** ** Creation and the protocol *)
Definition created_task : Task := sample_task "t4".

Lemma create_atomic_witness :
  ∃ db', create_atomic (at_sec 60) (Some "proj") created_task ["t3"; " "] (Some " e1 ") (Some "s1") project_db
         = Ok (tt, db')
  ∧ db_dependencies db' !! ("t4", "e1") = Some (mkDepRow "parent-child" (at_sec 60 0%nat) (Some "s1"))
  ∧ db_dependencies db' !! ("t4", "t3") = Some (mkDepRow "blocks" (at_sec 60 0%nat) (Some "s1")).
Proof.
  assert (∃ db', create_atomic (at_sec 60) (Some "proj") created_task ["t3"; " "] (Some " e1 ")
                   (Some "s1") project_db = Ok (tt, db')) as [db' H].
  { eexists. vm_compute. reflexivity. }
  destruct (create_atomic_spec _ _ _ _ _ _ _ _ H) as (_ & _ & _ & _ & _ & Hd).
  exists db'. split_and!; [exact H|rewrite Hd|rewrite Hd]; vm_compute; reflexivity.
Defined.

Lemma receipt_certifies_witness :
  let db1 := run_op (at_sec 60) (OpTask None (TAppendNote "t1" "more" "r1" false)) project_db in
  let db2 := run [(at_sec 70, OpTask None (TDelete "t2")); (at_sec 80, OpUnregister "w1")] db1 in
  db_tasks db2 !! "t1" = db_tasks db1 !! "t1".
Proof.
  destruct (receipt_certifies_row (at_sec 60) (OpTask None (TAppendNote "t1" "more" "r1" false)) project_db
              [(at_sec 70, OpTask None (TDelete "t2")); (at_sec 80, OpUnregister "w1")]
              "r1" (mkReceiptRow "t1" 5 (at_sec 60 2%nat)))
    as (_ & _ & H).
  - vm_compute. reflexivity.
  - vm_compute. reflexivity.
  - apply H. vm_compute. reflexivity.
Defined.

(** Between the check and the INSERT of one addition an agent claims the task; then
    whole operations run. *)
Definition claim_meanwhile : Db := run_op (at_sec 61) (OpClaim "t3" "w2" 60 None) project_db.
Definition later_ops : list ((nat → Z) * op) :=
  [(at_sec 62, OpTask None (TAddDependency (blocks_edge "t1" "t3"))); (at_sec 63, OpTask None (TDelete "t2"))].
Lemma blocking_witness :
  graph_wf (run later_ops (put_dependency (blocks_edge "t3" "t2") claim_meanwhile)).
Proof.
  apply (blocking_never_deadlocks project_db []).
  - apply graph_wf_eval; vm_compute; reflexivity.
  - eapply rtc_l; [split; [apply (S_check (blocks_edge "t3" "t2")); vm_compute; reflexivity|by intros d ?%elem_of_nil]|].
    eapply rtc_l.
    { split; [apply (S_op (at_sec 61) (OpClaim "t3" "w2" 60 None)); exact I|].
      destruct (agent_op_tasks (at_sec 61) (OpClaim "t3" "w2" 60 None) project_db eq_refl) as (Ht & Hd & _).
      intros d _ _. cbn [snd]. unfold dep_edge. rewrite Ht, Hd. auto. }
    eapply rtc_l; [split; [apply (S_insert [] (blocks_edge "t3" "t2") [])|by intros d _ ?%elem_of_nil]|].
    apply run_is_serial. repeat constructor.
Defined.
