(* ===== verification/QaWitnesses.v ===== *)
(** * Sample rounds

    A delivery of "t1" by "bob", reviewed by "ada" on the sample database: each
    theorem on QA rounds applied to it. *)

From S2P Require Import Prelude Enums TaskTypes Leases Db TaskRows QaPasses QaPassSpec QaGate TaskProtocol LeaseProtocol System Witnesses.

(** Well-formedness of a concrete table, by evaluation *)
Definition qa_wf_b (t : gmap string QaPassRow) : bool :=
  bool_decide (NoDup (active_task_ids t))
  && bool_decide (map_Forall (λ _ r, is_ok (QaPassState_from_str (q_state r)) = true) t).

Lemma qa_wf_eval t : qa_wf_b t = true → qa_wf t.
Proof.
  intros [Hnd%bool_decide_eq_true Hst%bool_decide_eq_true]%andb_true_iff.
  split; [|by apply NoDup_active_ids]. intros id r Hr. specialize (Hst id r Hr). simpl in Hst.
  destruct (QaPassState_from_str (q_state r)) as [s|] eqn:E; [|done].
  exists s. by apply QaPassState_from_str_inv.
Qed.

(** A delivery of "t1" at a tip *)
Definition parked (head : string) : NewQaPass :=
  {| nq_task_id := "t1"; nq_implementer_agent_id := "bob"; nq_branch := "factory/bob";
     nq_bound_head := head; nq_deadline_at := duration_seconds 9000; nq_max_rounds := 3 |}.

Definition qa_step (now : Z) (o : qa_op) (db : Db) : Db := run_qa_op (duration_seconds now) o db.

Definition no_rounds_db : Db := base_db <| db_qa_passes := ∅ |>.
Definition open_db : Db := qa_step 100 (QOpen 10 (parked "aaaa1111")) no_rounds_db.
Definition claimed_db : Db := qa_step 110 (QClaim true "t1" "ada") open_db.
Definition passed_db : Db :=
  qa_step 120 (QResolve "t1" "ada" QaVerdict_Approved "fine" (Some "[]") "/l/LEDGER.md") claimed_db.
Definition failed_db : Db :=
  qa_step 120 (QResolve "t1" "ada" QaVerdict_Rejected "broken" None "/l/LEDGER.md") claimed_db.
Definition moved_db : Db := qa_step 130 (QOpen 11 (parked "bbbb2222")) passed_db.

(** A result that evaluates to [Ok], with a property of the answer *)
Lemma Ok_eval {A} (r : result (A * Db)) (P : A → bool) :
  match r with Ok (a, _) => P a | Err _ => false end = true →
  ∃ a db', r = Ok (a, db') ∧ P a = true.
Proof. destruct r as [[a db']|]; [|done]. intros H. by exists a, db'. Qed.

Lemma exec_Ok now o db db' : exec_qa_op now o db = Ok db' → run_qa_op now o db = db'.
Proof. unfold run_qa_op. by intros ->. Qed.

Ltac by_wf := apply qa_wf_eval; vm_compute; reflexivity.

Lemma open_qa_pass_witness :
  ∃ out superseded db',
    open_qa_pass_reporting_superseded 11 (parked "bbbb2222") (duration_seconds 130) claimed_db
    = Ok ((out, superseded), db')
    ∧ qa_wf (db_qa_passes db')
    ∧ open_post (parked "bbbb2222") (duration_seconds 130) claimed_db out superseded db'
    ∧ opens (parked "bbbb2222") out claimed_db db'
    ∧ superseded_post (parked "bbbb2222") (duration_seconds 130) claimed_db superseded.
Proof.
  apply (open_qa_pass_spec 11 (parked "bbbb2222") (duration_seconds 130) claimed_db).
  - by_wf.
  - split_and!; vm_compute; reflexivity.
  - vm_compute. reflexivity.
Defined.

Lemma verdict_opens_witness :
  ∃ p, resolve_qa_pass "t1" "ada" QaVerdict_Approved "fine" (Some "[]") "/l/LEDGER.md"
         (duration_seconds 120) claimed_db = Ok (p, passed_db)
    ∧ gate_open "t1" "aaaa1111" passed_db ∧ ¬ gate_open "t1" "bbbb2222" passed_db.
Proof.
  destruct (Ok_eval (resolve_qa_pass "t1" "ada" QaVerdict_Approved "fine" (Some "[]") "/l/LEDGER.md"
         (duration_seconds 120) claimed_db) (λ p, String.eqb (qp_bound_head p) "aaaa1111"))
    as (p & db' & H & Hh%String.eqb_eq); [vm_compute; reflexivity|].
  assert (passed_db = db') as <- by (apply exec_Ok; cbn [exec_qa_op]; by rewrite H).
  assert (∀ head, ¬ gate_open "t1" head claimed_db) as Hno.
  { intros head (q & Hq). apply satisfying_Some in Hq as (r & Hr & _ & _ & Hs & _).
    revert Hs. assert (map_Forall (λ _ r, row_satisfies r = false) (db_qa_passes claimed_db)) as Hall by by_eval.
    rewrite (Hall _ _ Hr). discriminate. }
  assert (qa_wf (db_qa_passes claimed_db)) as Hwf by by_wf.
  destruct (verdict_opens_its_head "t1" "ada" QaVerdict_Approved "fine" (Some "[]") "/l/LEDGER.md"
              (duration_seconds 120) claimed_db p passed_db Hwf H) as (_ & _ & _ & Hgate).
  exists p. split; [exact H|]. split.
  - apply Hgate. right. split; [reflexivity|]. split; [reflexivity|symmetry; exact Hh].
  - intros [G|(_ & _ & G)]%Hgate; [exact (Hno _ G)|]. rewrite Hh in G. discriminate G.
Defined.

Lemma latest_failed_witness :
  ∃ m, latest_failed_qa_reviewers ["t1"; "t2"] failed_db = Ok m ∧ m !! "t1" = Some ("ada", 1).
Proof.
  destruct (latest_failed_is_latest ["t1"; "t2"] failed_db) as (m & E & H).
  - by_wf.
  - by_eval.
  - exists m. split; [exact E|]. apply H. split; [left|].
    assert (∃ p, latest_with_conn "t1" failed_db = Ok (Some p) ∧ qp_state p = QaPassState_Failed
      ∧ qp_reviewer_agent_id p = Some "ada" ∧ qp_round p = 1) as Hp
      by (eexists; split_and!; vm_compute; reflexivity).
    exact Hp.
Defined.

Lemma repark_is_idempotent_witness :
  ∃ p, open_qa_pass_reporting_superseded 12 (parked "aaaa1111") (duration_seconds 200) open_db
       = Ok ((AlreadyOpen p, None), open_db).
Proof.
  destruct (Ok_eval (open_qa_pass_reporting_superseded 10 (parked "aaaa1111") (duration_seconds 100)
              no_rounds_db)
      (λ o, match o with
            | (Dispatched p, None) => qp_deadline_at p =? duration_seconds 9000
            | _ => false
            end)) as ([out sup] & db' & H & Hd); [vm_compute; reflexivity|].
  destruct out as [p|?|?|? ?]; [|discriminate Hd..]. destruct sup; [discriminate Hd|].
  apply Z.eqb_eq in Hd.
  assert (open_db = db') as <- by (apply exec_Ok; cbn [exec_qa_op]; unfold open_qa_pass; by rewrite H).
  exists p.
  apply (repark_is_idempotent 10 12 (parked "aaaa1111") (duration_seconds 100) (duration_seconds 200)
           no_rounds_db (Dispatched p) None open_db).
  - by_wf.
  - split_and!; vm_compute; reflexivity.
  - vm_compute. reflexivity.
  - exact H.
  - rewrite Hd. vm_compute. reflexivity.
Defined.

Lemma repark_forgets_witness :
  ∃ p superseded db',
    open_qa_pass_reporting_superseded 12 (parked "aaaa1111") (duration_seconds 140) moved_db
    = Ok ((Dispatched p, superseded), db')
    ∧ gate_open "t1" "aaaa1111" db'.
Proof.
  assert (∃ l, latest_with_conn "t1" moved_db = Ok (Some l) ∧ active_with_conn "t1" moved_db = Ok (Some l)
    ∧ qp_bound_head l = "bbbb2222") as (l & Hl & Ha & Hh)
    by (eexists; split_and!; vm_compute; reflexivity).
  apply (repark_forgets_a_passed_head 12 (parked "aaaa1111") (duration_seconds 140) moved_db l).
  - by_wf.
  - split_and!; vm_compute; reflexivity.
  - vm_compute. reflexivity.
  - assert (∃ q, satisfying_qa_pass_for_head "t1" "aaaa1111" moved_db = Ok (Some q)) as Hq
      by (eexists; vm_compute; reflexivity).
    exact Hq.
  - exact Hl.
  - rewrite Hh. discriminate.
  - intros p Hp. change (active_with_conn "t1" moved_db = Ok (Some p)) in Hp.
    rewrite Ha in Hp. injection Hp as <-. rewrite Hh. discriminate.
  - vm_compute. reflexivity.
Defined.

Lemma stale_snapshot_witness :
  ∃ p0 db2, import_qa_pass p0 (duration_seconds 105) claimed_db = Ok (tt, db2)
    ∧ by_id_with_conn (qp_id p0) db2 = Ok p0 ∧ qp_reviewer_agent_id p0 = None.
Proof.
  assert (∃ p0, active_with_conn "t1" open_db = Ok (Some p0) ∧ qp_state p0 = QaPassState_Pending
    ∧ qp_resolved_at p0 = None ∧ invalid_snapshot p0 = false ∧ db_qa_sync open_db !! qp_id p0 = None
    ∧ qp_requested_at p0 = duration_seconds 100 ∧ qp_reviewer_agent_id p0 = None)
    as (p0 & Hact & Hst & Hres & Hv & Hver & Hreq & Hrev)
    by (eexists; split_and!; vm_compute; reflexivity).
  destruct (Ok_eval (claim_qa_pass true "t1" "ada" (duration_seconds 110) open_db) (λ _, true))
    as (p1 & db' & Hcl & _); [vm_compute; reflexivity|].
  assert (claimed_db = db') as <- by (apply exec_Ok; cbn [exec_qa_op]; by rewrite Hcl).
  destruct (stale_snapshot_undoes_claim true "t1" "ada" (duration_seconds 110) open_db p0 p1 claimed_db
              (duration_seconds 105)) as [_ (db2 & H)].
  - by_wf.
  - exact Hact.
  - exact Hst.
  - exact Hres.
  - exact Hv.
  - exact Hver.
  - exact Hcl.
  - rewrite Hreq. split; vm_compute; reflexivity.
  - exists p0, db2. destruct H as [H1 H2]. split_and!; [exact H1|exact H2|exact Hrev].
Defined.

Lemma qa_constraints_witness :
  qa_wf (db_qa_passes (run_qa_op (duration_seconds 130) (QOpen 11 (parked "bbbb2222")) claimed_db)).
Proof.
  apply (qa_never_violates_constraints (duration_seconds 130) (QOpen 11 (parked "bbbb2222")) claimed_db).
  - by_wf.
  - split; vm_compute; reflexivity.
Defined.

(** The reviewer retires with its claim, another one approves, a new tip is parked. *)
Definition review_trace : trace :=
  [(at_sec 100, OpQa (QOpen 10 (parked "aaaa1111")));
   (at_sec 110, OpQa (QClaim true "t1" "ada"));
   (at_sec 115, OpUnregister "w1");
   (at_sec 116, OpQa (QClaim true "t1" "s1"));
   (at_sec 120, OpQa (QResolve "t1" "s1" QaVerdict_Approved "fine" None "/l/LEDGER.md"));
   (at_sec 130, OpQa (QOpen 11 (parked "bbbb2222")));
   (at_sec 140, OpTask None (TDelete "t1"))].

Lemma rounds_lifecycle_witness :
  ∃ r', db_qa_passes (run review_trace base_db) !! "q1" = Some r'
    ∧ round_identity r' = round_identity claimed_round.
Proof.
  destruct (rounds_follow_lifecycle review_trace base_db) as [_ H].
  - by_wf.
  - destruct (H "q1" claimed_round) as (r' & Hr' & _ & Hid & _); [vm_compute; reflexivity|].
    exists r'. split; [exact Hr'|exact Hid].
Defined.

Lemma gate_is_independent_witness :
  ∃ p, satisfying_qa_pass_for_head "t1" "aaaa1111" (run review_trace no_rounds_db) = Ok (Some p)
    ∧ qp_state p = QaPassState_Passed ∧ qp_reviewer_agent_id p = Some "s1".
Proof.
  assert (∃ p, satisfying_qa_pass_for_head "t1" "aaaa1111" (run review_trace no_rounds_db) = Ok (Some p)
    ∧ qp_state p = QaPassState_Passed ∧ qp_reviewer_agent_id p = Some "s1") as (p & H & Hs & Hr)
    by (eexists; split_and!; vm_compute; reflexivity).
  destruct (gate_is_independent review_trace no_rounds_db "t1" "aaaa1111" p) as (_ & _ & _).
  - by_wf.
  - apply map_Forall_empty.
  - repeat (constructor; [by intros from []|]). constructor.
  - exact H.
  - exists p. split; [exact H|]. split; [exact Hs|exact Hr].
Defined.
