(* ===== verification/WaitWitnesses.v ===== *)
(** * A sample machine

    A world in which a foreign writer holds the database throughout and another
    thread holds the mutex for a while: the theorems on bounded waits applied to it. *)

From S2P Require Import Prelude Db WaitBudget.

(** The lock is free from 2 ms on; BEGIN IMMEDIATE waits its whole limit in vain. *)
Definition busy_world : World :=
  {| try_lock := λ now, if now <? millis 2 then WouldBlock else Acquired;
     block_lock := λ now, (Acquired, millis 1);
     oversleep := λ _, 0;
     begin_immediate := λ _ limit, (BeginBusy "database is locked", Z.max 0 limit) |}.

Lemma busy_world_laws : WorldLaws busy_world.
Proof.
  split.
  - intros t. apply Z.le_refl.
  - intros t. vm_compute. discriminate.
  - intros t limit. apply Z.le_max_l.
Defined.

Definition sample_thread (deadline : option Z) : Thread :=
  {| th_now := 0; th_deadline := deadline; th_forbid_depth := 0; th_violations := 0;
     th_last_violation := None; th_rng := 88172645463325252 |}.

(** The lock frees up before the deadline, or only after it. *)
Lemma locks_end_witness :
  (∃ th', lock_mutex_within_budget (world := busy_world) "m" (sample_thread (Some (millis 10)))
          = Some (true, th'))
  ∧ ∃ r th', lock_connection_with (world := busy_world) false (sample_thread (Some (millis 1))) = Some (r, th')
      ∧ th_now th' ≤ millis 1.
Proof.
  split.
  - destruct (locks_end_by_deadline (world := busy_world) (laws := busy_world_laws) "m" false
                (sample_thread (Some (millis 10))) (millis 10) 0) as [(got & th' & E & _) _].
    + reflexivity.
    + intros t. apply Z.le_refl.
    + destruct got; [exists th'; exact E|]. vm_compute in E. discriminate E.
  - destruct (locks_end_by_deadline (world := busy_world) (laws := busy_world_laws) "m" false
                (sample_thread (Some (millis 1))) (millis 1) 0) as (_ & _ & (r & th' & E & Hn & _)).
    + reflexivity.
    + intros t. apply Z.le_refl.
    + exists r, th'. split; [exact E|]. vm_compute in Hn |- *. exact Hn.
Defined.

Definition always_busy (k : nat) (th : Thread) : Result WaitError unit * Thread :=
  (Err (BusyError "database is locked"), spend SQLITE_BUSY_TIMEOUT th).

(** More than thirty seconds *)
Lemma busy_write_witness :
  millis 30775 ≤ th_now (snd (with_write_retry (world := busy_world) always_busy (sample_thread None)))
  ≤ millis 32325.
Proof.
  destruct (busy_write_waits (world := busy_world) always_busy SQLITE_BUSY_TIMEOUT "database is locked"
              (sample_thread None)) as [_ [H1 H2]].
  - reflexivity.
  - reflexivity.
  - reflexivity.
  - split; vm_compute in H1, H2 |- *; assumption.
Defined.

(** The budget runs out, or the thread's deadline comes first. *)
Lemma pooled_ends_witness :
  (∃ r th', begin_immediate_pooled_bounded (world := busy_world) (millis 10) (millis 60) (sample_thread None)
            = Some (r, th') ∧ pooled_answer (world := busy_world) (millis 60) 0 r th')
  ∧ ∃ msg th', begin_immediate_pooled_bounded (world := busy_world) (millis 10) (millis 60)
                 (sample_thread (Some (millis 5))) = Some (Err (BusyError msg), th')
       ∧ millis 5 ≤ th_now th'.
Proof.
  assert (0 ≤ millis 60) as Hb by (vm_compute; discriminate). split.
  - exact (begin_immediate_pooled_ends (world := busy_world) (laws := busy_world_laws) (millis 10) (millis 60)
             (sample_thread None) Hb).
  - destruct (begin_immediate_pooled_ends (world := busy_world) (laws := busy_world_laws) (millis 10) (millis 60)
                (sample_thread (Some (millis 5))) Hb) as (r & th' & E & Ha).
    vm_compute in E. injection E as <- <-. eexists _, _. split; [vm_compute; reflexivity|].
    destruct Ha as (d & Hd & Hle). vm_compute in Hd. injection Hd as <-. exact Hle.
Defined.
