(* ===== verification/VerificationWitnesses.v ===== *)
(** * A sample review

    "w1" delivers task "t1", the supervisor "s1" starts a verifier child "v1",
    and the child gives its verdict: the theorems on the verification protocol
    and on deliveries applied to this run. *)

From S2P Require Import Prelude Enums TaskTypes VerifierText Verifications Leases Agents Db TaskRows LeaseStore AgentStore Dispatches Capabilities VerificationStore Deliveries VerdictTransaction VerificationSpec VerificationSteps VerificationProtocol VerdictSpec CapabilitySpec DeliverySpec Witnesses.

Definition completion_input : WorkerCompletionReceiptInput :=
  {| wi_task_id := "t1"; wi_worker_agent_id := "w1"; wi_repo_selector := "main-repo";
     wi_source_branch := "factory/ada"; wi_commit_sha := "aaaa1111"; wi_merge_base_sha := "0000";
     wi_target_branch := "main"; wi_target_sha := "0000"; wi_proof_reference := "cargo test";
     wi_scope_summary := "the fix"; wi_artifact_path := None |}.
Definition completion : WorkerCompletionReceipt :=
  build_worker_completion_receipt completion_input "ada" (duration_seconds 40).
Definition the_dispatch : string := new_dispatch_id 1.
Definition the_handoff : string := SERVER_HANDOFF_ID_PREFIX +:+ hex_text 32 2 "".
Definition the_delivery : string := worker_delivery_transaction_id (wc_id completion).
Definition verifier_child : Agent :=
  Agent_new_sub_agent (duration_seconds 60) "v1" "task-verifier" "s1".

Definition step_at (s : Z) (o : verification_op) (db : Db) : Db := run_verification_op (at_sec s) o db.
Definition delivered_db : Db :=
  step_at 40 (VDeliverForLease 1 completion WorkerDeliveryState_AwaitingVerification "w1" 3 "s1"
                (duration_seconds 1800) None) base_db.
Definition handed_db : Db :=
  step_at 50 (VIssueHandoff 2 "t1" the_dispatch "s1" "tool-1" "entropy") delivered_db.
Definition bound_db : Db := step_at 60 (VBindChild "s1" verifier_child) handed_db.
Definition verdict (status : VerificationStatus) : Verification :=
  drafted "ver-1" "t1" "looks right" status [] ["src/lib.rs"] None false (duration_seconds 70).
Definition record (status : VerificationStatus) : verification_op :=
  VRecord verifier_child (ByHandoff the_handoff None) the_dispatch (verdict status) None false.
Definition approved_db : Db := step_at 70 (record VerificationStatus_Approved) bound_db.
Definition asked_db : Db := step_at 70 (record VerificationStatus_SupervisorCall) bound_db.

(** ** The protocol *)
Lemma base_verification_wf : verification_wf base_db.
Proof. split; [apply NoDup_nil_2|apply map_Forall_empty|apply map_Forall_empty]. Defined.
Lemma base_single_use : single_use base_db.
Proof. intros id1 id2 r1 r2 H _. vm_compute in H. discriminate H. Defined.

Lemma run_to_bound : rtc program_step base_db bound_db.
Proof.
  apply rtc_l with delivered_db; [apply ps_op; discriminate|].
  apply rtc_l with handed_db; [apply ps_op; discriminate|].
  apply rtc_once. apply ps_op. discriminate.
Qed.
Lemma run_to_verdict : rtc program_step bound_db approved_db.
Proof. apply rtc_once. apply ps_op. discriminate. Qed.
Lemma program_verification db db' : rtc program_step db db' → rtc verification_step db db'.
Proof.
  induction 1 as [|a b c Hs _ IH]; [done|]. eapply rtc_l; [by apply program_step_verification_step|done].
Qed.
Lemma whole_run : rtc verification_step base_db approved_db.
Proof. apply program_verification. etrans; [apply run_to_bound|apply run_to_verdict]. Qed.

(** A row found by evaluation *)
Lemma eval_lookup {K A} `{Countable K} (m : gmap K A) k (P : A → bool) :
  match m !! k with Some a => P a | None => false end = true → ∃ a, m !! k = Some a ∧ P a = true.
Proof. intros HP. destruct (m !! k) as [a|]; [by exists a|done]. Qed.
Definition verifier_row_b (r : VerificationRow) : bool :=
  bool_decide (result_ok (VerificationProvenance_from_str (vr_provenance r))
               = Some VerificationProvenance_TaskVerifier).
Lemma verifier_row_eval r : verifier_row_b r = true → verifier_row r.
Proof.
  unfold verifier_row_b, verifier_row. intros H%bool_decide_eq_true.
  destruct (VerificationProvenance_from_str _); simpl in H; congruence.
Qed.

Lemma verdict_authority_witness :
  ∃ r cid c, verifications approved_db !! "ver-1" = Some r ∧ vr_capability_id r = Some cid
    ∧ capabilities approved_db !! cid = Some c ∧ vr_agent_id r ≠ Some (cp_issuer_agent_id c).
Proof.
  destruct (eval_lookup (verifications approved_db) "ver-1" verifier_row_b) as (r & Hr & Hv);
    [vm_compute; reflexivity|].
  destruct (child_verdicts_have_authority base_db approved_db "ver-1" r base_verification_wf whole_run
    Hr (verifier_row_eval r Hv)) as (cid & c & v & i & Hcid & Hc & _ & _ & _ & Ha & _ & _ & Hi & Hne).
  exists r, cid, c. split; [exact Hr|]. split; [exact Hcid|]. split; [exact Hc|].
  rewrite Ha, Hi. intros Heq. injection Heq as Heq. exact (Hne Heq).
Defined.

Lemma one_verdict_witness :
  is_Some (verifications approved_db !! "ver-1")
  ∧ ∀ id r, verifications approved_db !! id = Some r → verifier_row r →
      vr_capability_id r = Some the_handoff → id = "ver-1".
Proof.
  split; [vm_compute; eexists; reflexivity|]. intros id r Hr Hv Hc.
  destruct (eval_lookup (verifications approved_db) "ver-1"
    (λ r, verifier_row_b r && bool_decide (vr_capability_id r = Some the_handoff))) as (r1 & Hr1 & H1);
    [vm_compute; reflexivity|].
  apply andb_true_iff in H1 as [Hv1 Hc1%bool_decide_eq_true].
  apply (capability_gives_one_verdict base_db approved_db id "ver-1" r r1 base_verification_wf
    base_single_use); [etrans; [apply run_to_bound|apply run_to_verdict]|exact Hr|exact Hr1|exact Hv
    |exact (verifier_row_eval r1 Hv1)|congruence].
Defined.

Lemma permanent_binding_witness :
  ∃ c c', capabilities bound_db !! the_handoff = Some c ∧ unbound c = false
    ∧ capabilities approved_db !! the_handoff = Some c' ∧ cap_le c c'.
Proof.
  destruct (eval_lookup (capabilities bound_db) the_handoff (λ c, negb (unbound c))) as (c & Hc & Hu);
    [vm_compute; reflexivity|]. apply negb_true_iff in Hu.
  destruct (capability_binding_is_permanent bound_db approved_db the_handoff c
    (program_verification _ _ run_to_verdict) Hc Hu) as (c' & Hc' & Hle).
  exists c, c'. split; [exact Hc|]. split; [exact Hu|]. split; [exact Hc'|exact Hle].
Defined.

Lemma dispatch_lifecycle_witness :
  NoDup (active_dispatch_tasks (dispatches approved_db))
  ∧ ∃ r r', dispatches delivered_db !! the_dispatch = Some r
      ∧ dispatches approved_db !! the_dispatch = Some r' ∧ rtc dispatch_step r r' ∧ same_boundary r r'.
Proof.
  assert (rtc verification_step delivered_db approved_db) as Hrun.
  { apply rtc_l with handed_db; [apply vs_op|]. apply rtc_l with bound_db; [apply vs_op|].
    apply rtc_once, vs_op. }
  assert (verification_wf delivered_db) as Hwf.
  { apply (verification_wf_steps base_db); [apply rtc_once, vs_op|apply base_verification_wf]. }
  destruct (eval_lookup (dispatches delivered_db) the_dispatch (λ _, true)) as (r & Hr & _);
    [vm_compute; reflexivity|].
  destruct (dispatches_follow_lifecycle delivered_db approved_db Hwf Hrun) as (Hnd & Hall).
  destruct (Hall the_dispatch r Hr) as (r' & Hr' & Hs & Hb & _).
  split; [exact Hnd|]. exists r, r'. split; [exact Hr|]. split; [exact Hr'|]. split; [exact Hs|exact Hb].
Defined.

(** ** The verdict *)

(** A success found by evaluation *)
Lemma eval_Ok {E A} (r : Result E A) : is_ok r = true → ∃ a, r = Ok a.
Proof. destruct r as [a|]; [by exists a|done]. Qed.


Lemma question_witness :
  ∃ v db', record_verdict (at_sec 70) verifier_child (ByHandoff the_handoff None) the_dispatch
             (verdict VerificationStatus_SupervisorCall) None false bound_db = Ok (v, db')
    ∧ db_tasks db' = db_tasks bound_db
    ∧ ∃ d, dispatches db' !! the_dispatch = Some d ∧ dispatch_open d = true.
Proof.
  destruct (eval_Ok (record_verdict (at_sec 70) verifier_child (ByHandoff the_handoff None) the_dispatch
    (verdict VerificationStatus_SupervisorCall) None false bound_db)) as ([v db'] & H);
    [vm_compute; reflexivity|].
  destruct (question_keeps_review_open _ _ _ _ _ _ _ _ _ _ H eq_refl) as (_ & Ht & _ & Hd & _).
  exists v, db'. split; [exact H|]. split; [exact Ht|exact Hd].
Defined.

Lemma skipped_witness :
  is_ok (record_verdict (at_sec 70) verifier_child (ByHandoff the_handoff None) the_dispatch
           (verdict VerificationStatus_Skipped) None false bound_db) = false.
Proof.
  destruct (eval_lookup (dispatches bound_db) the_dispatch (λ d, negb (is_none (awaited d bound_db))))
    as (d & Hd & Ha); [vm_compute; reflexivity|].
  apply (skipped_delivery_verdict_fails _ _ _ _ _ _ _ _ d Hd); [|reflexivity].
  destruct (awaited d bound_db) as [x|]; [exists x; reflexivity|discriminate Ha].
Defined.

(** ** Tokens and receipts *)
Lemma issued_token_witness :
  ∃ c token db', issue_verifier_capability (at_sec 45) 7 8 "t1" "s1" delivered_db = Ok ((c, token), db')
    ∧ inspect_verifier_capability token db' = Ok c.
Proof.
  destruct (eval_Ok (issue_verifier_capability (at_sec 45) 7 8 "t1" "s1" delivered_db))
    as ([[c token] db'] & H); [vm_compute; reflexivity|].
  exists c, token, db'. split; [exact H|].
  exact (proj1 (issued_token_is_accepted _ _ _ _ _ _ _ _ _ H)).
Defined.

Lemma receipt_digest_witness :
  completion_input = completion_input ∧ "ada" = "ada".
Proof.
  apply receipt_digest_is_unambiguous; [| |reflexivity];
    (apply Forall_forall; intros s Hs; unfold fits_usize; vm_compute in Hs;
     repeat (apply elem_of_cons in Hs as [-> |Hs]; [vm_compute; reflexivity|]); by apply elem_of_nil in Hs).
Defined.

Lemma create_delivery_witness :
  ∃ t db', create_worker_delivery completion WorkerDeliveryState_AwaitingVerification "w1"
             (duration_seconds 40) base_db = Ok (t, db')
    ∧ create_worker_delivery completion WorkerDeliveryState_AwaitingVerification "w2"
        (duration_seconds 99) db' = Ok (t, db')
    ∧ wreceipts db' !! wc_id completion = Some (stored_receipt completion (wc_created_at completion)).
Proof.
  destruct (eval_Ok (create_worker_delivery completion WorkerDeliveryState_AwaitingVerification "w1"
    (duration_seconds 40) base_db)) as ([t db'] & H); [vm_compute; reflexivity|].
  destruct (create_delivery_is_idempotent _ _ _ _ _ _ _ H) as (_ & _ & Hr & _ & _ & Hagain).
  exists t, db'. split; [exact H|]. split; [apply Hagain|]. rewrite Hr. apply lookup_insert_eq.
Defined.
