(* ===== verification/QueueWitnesses.v ===== *)
(** * Concrete runs of the queue and reminder theorems

    A supervisor with two alerts of one group and their relay, a spawn request
    with a backlog, and two reminders of a held worker, on which the hypotheses
    of the theorems of the queues hold. *)

From S2P Require Import Prelude Logs Enums TaskTypes VerifierText Db SupervisorQueue SpawnQueue Reminders SupervisorQueueSpec SpawnQueueSpec ReminderSpec Witnesses.

(** The database that a successful operation leaves *)
Definition after {A} (r : result (A * Db)) : Db :=
  match r with Ok (_, db) => db | Err _ => empty_db end.

(** A table of a few rows with increasing ids is well-formed. *)
Ltac log_wf_eval := vm_compute; split; repeat constructor; discriminate.
Ltac keys_eval :=
  intros r r' key Hr%list_elem_of_In Hr'%list_elem_of_In Hk Hk'; vm_compute in Hr, Hr';
  destruct_or?; subst; vm_compute in Hk, Hk'; simplify_eq; done.

(** ** The supervisor queue *)
Definition alert (s : Z) (sid key : string) (db : Db) : result (NotifyIdempotentResult * Db) :=
  notify_idempotent (at_sec s) sid "task_lifecycle" "payload" NotificationPriority_High key db.
Definition alerted_db : Db := after (alert 100 "s1" "t1:done" empty_db).
Definition delivered_db : Db := after (mark_prompt_delivered (at_sec 101) 1 alerted_db).

Lemma transition_witness :
  ∃ a db, alert 200 "s2" "t1:done" delivered_db = Ok (a, db)
    ∧ db = delivered_db ∧ a = AlreadyExists 1 true.
Proof.
  eexists (AlreadyExists 1 true), delivered_db. split; [vm_compute; reflexivity|].
  assert (mark_prompt_delivered (at_sec 101) 1 alerted_db = Ok (tt, delivered_db)) as Hm by (vm_compute; reflexivity).
  edestruct (transition_recorded_once (at_sec 100) (at_sec 200) "s1" "s2" "task_lifecycle" "task_lifecycle"
            "payload" "payload" NotificationPriority_High NotificationPriority_High "t1:done"
            empty_db (Created 1) alerted_db delivered_db (AlreadyExists 1 true) delivered_db)
    as (Hdb & r & _ & Hid & _ & Ha & _ & Hmarked & _).
  - log_wf_eval.
  - keys_eval.
  - vm_compute; reflexivity.
  - by apply rtc_once, (sq_mark_delivered _ (at_sec 101) 1).
  - apply list_elem_of_In. vm_compute. by left.
  - vm_compute; reflexivity.
  - split; [done|]. rewrite Ha, Hid.
    destruct (Hmarked (at_sec 101) alerted_db delivered_db) as [t ->]; [apply rtc_refl|exact Hm|apply rtc_refl|done].
Defined.

(** Two members of the group "t1", for two supervisors *)
Definition group_db : Db := after (alert 101 "s2" "t1:lost" (after (alert 100 "s1" "t1:idle" empty_db))).
Definition relay (db : Db) : result (NotifyIdempotentResult * Db) :=
  notify_idempotent_folding (at_sec 102) "s1" "worker_relay" "text" NotificationPriority_High "relay:t1"
    "task_lifecycle" ["t1"] db.

Lemma fold_witness :
  let member := notification_row "s2" "task_lifecycle" "payload" NotificationPriority_High
                  (duration_seconds 101) (Some "t1:lost") 2 in
  (¬ group_member "task_lifecycle" ["t1"] member ∧ member ∈ log_rows (db_supervisor_queue (after (relay group_db))))
  ∨ group_member "task_lifecycle" ["t1"] member
    ∧ folded_away (duration_seconds 102) member ∈ log_rows (db_supervisor_queue (after (relay group_db)))
    ∧ ∃ c, c ∈ log_rows (db_supervisor_queue (after (relay group_db)))
        ∧ sq_transition_key c = Some (alert_key "relay:t1" "s1" "s2")
        ∧ ((∀ r', r' ∈ log_rows (db_supervisor_queue group_db) →
              sq_transition_key r' ≠ Some (alert_key "relay:t1" "s1" "s2")) →
           sq_supervisor_id c = "s2" ∧ sq_event_type c = "worker_relay" ∧ sq_prompt_delivered_at c = None
           ∧ alert_payload "text" "s1" "s2" (sq_payload c)).
Proof.
  intros member.
  apply (fold_loses_no_alert (at_sec 102) "s1" "worker_relay" "text" NotificationPriority_High "relay:t1"
           "task_lifecycle" ["t1"] group_db (Created 3) (after (relay group_db)) member).
  - vm_compute; reflexivity.
  - discriminate.
  - apply list_elem_of_In. vm_compute. by right; left.
Defined.

(** Two pulled notifications and a third one that was not *)
Definition pulled_db : Db :=
  let n s db := after (notify (at_sec s) "s1" "worker_idle" "payload" NotificationPriority_Normal db) in
  n 5 (after (ack (at_sec 4) 2 (after (ack (at_sec 3) 1 (n 2 (n 1 empty_db)))))).

Lemma retention_witness :
  ∃ rep db' k,
    run_retention_batches (prune_run true true (at_sec 1000) 60) 1 5 (pulled_db, 0%nat) = (Ok rep, (db', k))
    ∧ (rr_affected rep + length (log_rows (db_supervisor_queue db'))
       = length (log_rows (db_supervisor_queue pulled_db)))%nat
    ∧ if rr_complete rep
      then ∃ i, log_rows (db_supervisor_queue db')
                = List.filter (λ r, negb (prunable true true (at_sec 1000 i - duration_seconds 60) pulled_db r))
                    (log_rows (db_supervisor_queue pulled_db))
      else rr_affected rep = (5 * Z.to_nat (clamp_batch 1 RETENTION_MAX_BATCH 1))%nat.
Proof.
  apply (retention_equals_one_delete true true (at_sec 1000) 60 1 5 pulled_db).
  - lia.
  - intros i j Hij. unfold at_sec. lia.
  - log_wf_eval.
Defined.

Lemma poll_witness :
  ∃ ns ns', ns ≠ [] ∧ ns' ≠ [] ∧ ∀ n n', n ∈ ns → n' ∈ ns' → sn_id n ≠ sn_id n'.
Proof.
  pose (db := after (notify (at_sec 2) "s1" "worker_idle" "b" NotificationPriority_Normal
                (after (notify (at_sec 1) "s1" "worker_idle" "a" NotificationPriority_Normal empty_db)))).
  pose (p1 := poll_notifications (at_sec 3) "s1" 1 db).
  pose (p2 := poll_notifications (at_sec 4) "s1" 5 (after p1)).
  eexists _, _. split; [|split].
  3: { apply (poll_never_repeats (at_sec 3) (at_sec 4) "s1" "s1" 1 5 db _ (after p1) (after p1) _ (after p2)).
       - log_wf_eval.
       - vm_compute; reflexivity.
       - apply rtc_refl.
       - vm_compute; reflexivity. }
  all: discriminate.
Defined.

(** ** The spawn queue *)
Definition requested_db : Db :=
  after (enqueue_spawn_with_task_queue (at_sec 10) 1 ["ada"] true None (Some "fs1") None None None
           ["t1"; "t2"; "t3"] empty_db).
Definition record_state (s : Z) (state : SpawnLifecycleState) (worker : option string) (db : Db) :=
  record_spawn_state (at_sec s) 1 state worker None db.
Definition launched_db : Db := after (record_state 11 SpawnLifecycleState_Launched (Some "ada") requested_db).
(** A late report of an earlier stage, then the registration *)
Definition registered_db : Db :=
  after (record_state 13 SpawnLifecycleState_Registered (Some "bob")
           (after (record_state 12 SpawnLifecycleState_Provisioning None launched_db))).
Definition first_request (db : Db) : SpawnRow :=
  default (mkSpawnRow 0 "" None None false false None None None None None 0 None None None None None)
    (head (log_rows (spawns db))).

Lemma spawn_lifecycle_witness :
  sw_spawn_state (first_request registered_db) = Some "registered"
  ∧ sw_spawn_worker (first_request registered_db) = Some "ada"
  ∧ (sw_spawn_state (first_request registered_db) = sw_spawn_state (first_request launched_db)
     ∨ state_rank (first_request launched_db) < state_rank (first_request registered_db)).
Proof.
  split; [vm_compute; reflexivity|]. split; [vm_compute; reflexivity|].
  apply (spawn_lifecycle_is_monotone launched_db registered_db (first_request launched_db)
           (first_request registered_db)).
  - log_wf_eval.
  - eapply rtc_l; [|apply rtc_once].
    + apply (step_record _ (at_sec 12) 1 SpawnLifecycleState_Provisioning None None). vm_compute; reflexivity.
    + apply (step_record _ (at_sec 13) 1 SpawnLifecycleState_Registered (Some "bob") None).
      vm_compute; reflexivity.
  - apply list_elem_of_In. vm_compute. by left.
  - apply list_elem_of_In. vm_compute. by left.
  - vm_compute; reflexivity.
Defined.

Lemma spawn_poll_witness :
  ∃ ns, length ns = 1%nat ∧ ∀ n n', n ∈ ns →
    n' ∈ match spawn_poll (at_sec 21) "fs1" 5 (after (spawn_poll (at_sec 20) "fs1" 5 requested_db)) with
         | Ok (ns', _) => ns' | Err _ => [] end → sp_id n ≠ sp_id n'.
Proof.
  eexists (match spawn_poll (at_sec 20) "fs1" 5 requested_db with Ok (ns, _) => ns | Err _ => [] end).
  split; [vm_compute; reflexivity|].
  apply (spawn_poll_never_repeats (at_sec 20) (at_sec 21) "fs1" "fs1" 5 5 requested_db _
           (after (spawn_poll (at_sec 20) "fs1" 5 requested_db)) (after (spawn_poll (at_sec 20) "fs1" 5 requested_db))
           _ (after (spawn_poll (at_sec 21) "fs1" 5 (after (spawn_poll (at_sec 20) "fs1" 5 requested_db))))).
  - log_wf_eval.
  - vm_compute; reflexivity.
  - apply rtc_refl.
  - vm_compute; reflexivity.
Defined.

Lemma no_backlogs_wf db : sp_worker_queues (db_spawns db) = ∅ → backlogs_wf db.
Proof. intros H k r Hr. rewrite H in Hr. by rewrite lookup_empty in Hr. Qed.

(** Two sessions read an empty backlog; the one that saves last is refused. *)
Lemma stale_save_witness :
  let mine := WorkerTaskQueue_default <| tq_pending := ["t1"] |> in
  let theirs := WorkerTaskQueue_default <| tq_pending := ["t2"] |> in
  queue_save "fs1" "ada" theirs (after (queue_save "fs1" "ada" mine empty_db))
  = Err (Other "Worker task queue changed; reload before replacing it").
Proof.
  intros mine theirs.
  apply (stale_save_is_refused "fs1" "ada" mine (mine <| tq_revision := 1 |>) empty_db
           (after (queue_save "fs1" "ada" mine empty_db)) (after (queue_save "fs1" "ada" mine empty_db)) theirs).
  - by apply no_backlogs_wf.
  - vm_compute; reflexivity.
  - apply rtc_refl.
  - vm_compute. split; discriminate.
Defined.

Definition bound_backlog_db : Db := after (bind_spawn 1 "fs1" "ada" requested_db).
Lemma bind_witness :
  (let q := queue_get "fs1" "ada" bound_backlog_db in
   match tq_current_task q with Some t => t :: tq_pending q | None => tq_pending q end = ["t1"; "t2"; "t3"]
   ∧ tq_starting q = false ∧ tq_dispatch_from q = None)
  ∧ backlogs_wf bound_backlog_db
  ∧ ∀ session' worker', bind_spawn 1 session' worker' bound_backlog_db = Ok (tt, bound_backlog_db).
Proof.
  apply (spawn_backlog_is_bound_once 1 "fs1" "ada" ["t1"; "t2"; "t3"] requested_db bound_backlog_db).
  - by apply no_backlogs_wf.
  - vm_compute; reflexivity.
  - vm_compute; reflexivity.
Defined.

(** ** Reminders *)
Definition remind (s : Z) (ty : ReminderTriggerType) (due : option Z) (ev : option string) (db : Db) : Db :=
  after (create_reminder (at_sec s) "s1" (Some "w1") "check" ty due ev None 3600 None db).
(** One for second 500, one for an event *)
Definition reminded_db : Db :=
  remind 11 ReminderTriggerType_Event None (Some "task_done")
    (remind 10 ReminderTriggerType_Time (Some (duration_seconds 500)) None empty_db).
Definition nth_reminder (n : nat) (db : Db) : ReminderRow :=
  default (mkReminderRow 0 "" "" "" None None None "" 0 0 None None None None None None false None None)
    (log_rows (db_reminders db) !! n).
Definition fired_db : Db := after (mark_fired (at_sec 501) 1 None reminded_db).

Lemma reminder_ends_witness :
  (∀ ev, mark_fired (at_sec 502) 1 ev fired_db = Err (NotFound "Reminder not found or not pending: 1"))
  ∧ rm_fired_at (nth_reminder 0 fired_db) = Some (duration_seconds 501).
Proof.
  split; [|vm_compute; reflexivity].
  apply (reminder_ends_once (λ _, True) fired_db fired_db (nth_reminder 0 fired_db) (at_sec 502)).
  - log_wf_eval.
  - apply rtc_refl.
  - apply list_elem_of_In. vm_compute. by left.
  - vm_compute; reflexivity.
Defined.

(** "w1" is held from second 400 to 600; the event comes at 450. *)
Definition held_db : Db := after (suspend_pending_for_target (at_sec 400) "w1" reminded_db).
Definition caught_db : Db := after (catch_suspended_event 2 (JString "done") held_db).
Definition resumed_db : Db := after (resume_suspended_for_target (at_sec 600) "w1" caught_db).

Lemma hold_witness :
  ∃ r, r ∈ log_rows (db_reminders resumed_db) ∧ rm_id r = 2 ∧ has_status "pending" r = true
    ∧ wakes_now (duration_seconds 600) r ∧ rm_fired_event r = Some "done".
Proof.
  destruct (hold_loses_no_wake "w1" (at_sec 400) (at_sec 600) 2 2 reminded_db held_db caught_db resumed_db
              (nth_reminder 1 reminded_db) (nth_reminder 1 caught_db)) as (r & Hr & Hid & Hp & Hdue & _).
  - log_wf_eval.
  - vm_compute; reflexivity.
  - apply rtc_once, (rm_catch _ _ 2 (JString "done") true). vm_compute; reflexivity.
  - vm_compute; reflexivity.
  - apply list_elem_of_In. vm_compute. by right; left.
  - vm_compute; reflexivity.
  - vm_compute; reflexivity.
  - apply list_elem_of_In. vm_compute. by right; left.
  - vm_compute; reflexivity.
  - vm_compute; reflexivity.
  - exists r. destruct Hdue as [Hw He]; [by left; vm_compute|]. split_and!; [done..|exact He].
Defined.

Lemma delivery_witness :
  let r := reminder_from_row (nth_reminder 1 reminded_db) in
  parse_reminder_delivery_id (format_reminder_delivery (re_id r) (re_message r) None) = Some 2
  ∧ parse_reminder_delivery_id (format_reminder_delivery_with_provenance 0 r None None) = Some 2
  ∧ parse_reminder_delivery_id (format_cross_session_reminder_delivery 0 r None None) = Some 2.
Proof.
  intros r. apply (delivery_names_its_reminder 0 r None None). vm_compute. split; [discriminate|done].
Defined.
