(* ===== verification/PromptWitnesses.v ===== *)
(** * Concrete runs of the prompt queue theorems

    Mail of one sender to two recipients of a factory session, with and without
    a session, on which the hypotheses of the prompt queue theorems hold. *)

From S2P Require Import Prelude Logs Enums Db Envelopes SupervisorQueue PromptTypes PromptLanes PromptNotices PromptQueue PromptDrain PromptLaneSpec PromptQueueSpec PromptDrainSpec PromptProtocol PromptInbox PromptRetentionSpec Witnesses QueueWitnesses.

Definition mail (target : string) (session : option string) (id : Z) : PromptRow :=
  fresh_prompt_row "ada" target "text" (duration_seconds id) session None 1 false None
    (Some "registered_agent") None None id.
(** Three messages: one to bob and one to eve in the session, one to eve without *)
Definition mail_db : Db :=
  empty_db <| db_prompts := mkLog [mail "bob" (Some "fs1") 1; mail "eve" (Some "fs1") 2; mail "eve" None 3] 3 |>.

Lemma mail_recorded : all_recorded mail_db.
Proof.
  intros r Hr%list_elem_of_In. vm_compute in Hr. destruct_or?; subst; by split.
Qed.
Lemma mail_wf : log_wf (db_prompts mail_db).
Proof. log_wf_eval. Qed.

Lemma merge_witness :
  let s := prompt_from_row <$> [mail "bob" (Some "fs1") 1; mail "eve" (Some "fs1") 2] in
  let l := prompt_from_row <$> [mail "eve" None 3] in
  lane_sorted (merge_two_lane_peeks s l 2)
  ∧ ∃ a b, band 1 (merge_two_lane_peeks s l 2) ≡ₚ take a (band 1 s) ++ take b (band 1 l)
      ∧ (a + b = Nat.min (2 - ahead 1 (s ++ l)) (length (band 1 s) + length (band 1 l))
         ∧ a ≤ length (band 1 s) ∧ b ≤ length (band 1 l)
         ∧ Nat.min ((2 - ahead 1 (s ++ l) + 1) / 2) (length (band 1 s)) ≤ a
         ∧ Nat.min ((2 - ahead 1 (s ++ l)) / 2) (length (band 1 l)) ≤ b)%nat.
Proof.
  intros s l. apply (two_lane_merge_is_fair s l 2 1).
  - repeat constructor; vm_compute; discriminate.
  - repeat constructor.
  - right. left.
Defined.

(** A critical message to eve before normal ones to bob and eve *)
Definition critical (id : Z) : PromptRow := mail "eve" (Some "fs1") id <| pq_priority := 0 |>.
Definition urgent_db : Db :=
  empty_db <| db_prompts := mkLog [critical 1; mail "eve" (Some "fs1") 2; mail "bob" (Some "fs1") 3; mail "bob" None 4] 4 |>.
Lemma peek_witness :
  ∃ out, peek_for_targets (at_sec 20) ["bob"; "eve"] (Some "fs1") 5 urgent_db = Ok out
    ∧ prompt_from_row (mail "bob" (Some "fs1") 3) ∈ out.
Proof.
  apply (peek_reaches_every_target (at_sec 20) ["bob"; "eve"] "fs1" 5 urgent_db).
  - log_wf_eval.
  - intros r Hr%list_elem_of_In. vm_compute in Hr. destruct_or?; subst; split; vm_compute; discriminate.
  - vm_compute. lia.
  - vm_compute. reflexivity.
  - apply list_elem_of_In. vm_compute. by right; right; left.
  - vm_compute. reflexivity.
  - intros x Hx%list_elem_of_In He. vm_compute in Hx. destruct_or?; subst; vm_compute; intros; discriminate.
Defined.
(** More urgent prompts do come first, and can fill a window. *)
Example urgent_rows_fill_the_window :
  match peek_for_targets (at_sec 20) ["bob"; "eve"] (Some "fs1") 4
    (empty_db <| db_prompts := mkLog (map critical [1; 2; 3; 4; 5] ++ [mail "bob" (Some "fs1") 6]) 6 |>)
  with Ok out => map qd_target out | Err _ => [] end = ["eve"; "eve"; "eve"; "eve"].
Proof. vm_compute. reflexivity. Qed.

(** ** Stages *)
Definition any_row : Z → Prop := λ _, True.
Definition handed_over_db : Db := after (mark_transport_delivered true (at_sec 20) 1 mail_db).

Lemma recorded_witness :
  is_Some (pt_transport (db_prompt_receipts handed_over_db) !! (1, "bob")).
Proof.
  pose (r := default (mail "bob" None 1) (head (log_rows (db_prompts handed_over_db)))).
  destruct (delivered_has_recipient_record true true any_row mail_db handed_over_db r) as [_ H].
  - apply mail_wf.
  - apply mail_recorded.
  - apply rtc_once, P_handling, (H_delivered true true any_row (at_sec 20) 1 _ ()). vm_compute. reflexivity.
  - apply list_elem_of_In. vm_compute. by left.
  - destruct H as [_ H]; [vm_compute; reflexivity|]. by apply H.
Defined.

Lemma irreversible_witness :
  let r' := default (mail "bob" None 1) (head (log_rows (db_prompts handed_over_db))) in
  pq_target r' = "bob" ∧ pq_delivery_attempts (mail "bob" (Some "fs1") 1) ≤ pq_delivery_attempts r'.
Proof.
  intros r'. destruct (prompt_progress_is_irreversible true true any_row mail_db handed_over_db (mail "bob" (Some "fs1") 1) r')
    as (Ht & _ & _ & _ & _ & Ha & _).
  - apply mail_wf.
  - apply rtc_once, P_handling, (H_delivered true true any_row (at_sec 20) 1 _ ()). vm_compute. reflexivity.
  - apply list_elem_of_In. vm_compute. by left.
  - apply list_elem_of_In. vm_compute. by left.
  - reflexivity.
  - by split.
Defined.

Definition shutdown_db : Db :=
  after (cancel_unread_for_shutdown (at_sec 30) "bob" (Some "fs1") "worker shut down" mail_db).
(** An acknowledgement that had chosen message 2 updates it after the shutdown, and
    one by id stamps message 2; another one chooses afterwards. *)
Definition second_message (id : Z) : Prop := id = 2.
Definition late_ack_db : Db :=
  confirm_stage true (duration_seconds 32) 2 (assume_seen (duration_seconds 31) [2] shutdown_db).2.
Lemma cancelled_witness :
  (∀ clk' last o last' db3,
     claim_recipient_transport_token clk' last 1 "bob" late_ack_db = Ok (o, last', db3) → o = None)
  ∧ (∀ clk' targets session' limit out q,
     peek_for_targets clk' targets session' limit late_ack_db = Ok out → q ∈ out → qd_id q ≠ 1)
  ∧ (∀ clk' hold limit d out over db3 q,
     drain_unseen_for_recipient_budgeted true true clk' hold limit d late_ack_db = Ok (out, over, db3) →
     q ∈ out → qd_id q = 1 → qd_reference_only q = true).
Proof.
  apply (cancelled_mail_is_never_handed_over true true second_message (at_sec 30) "bob" (Some "fs1") "worker shut down" mail_db 1
           [2] shutdown_db (confirmable_ids ["bob"] ["ada"] (Some "fs1") (duration_seconds 40) late_ack_db)
           late_ack_db (mail "bob" (Some "fs1") 1)).
  - apply mail_wf.
  - apply list_elem_of_In. vm_compute. by left.
  - vm_compute. reflexivity.
  - vm_compute. reflexivity.
  - by intros ?%list_elem_of_singleton.
  - done.
  - eapply rtc_l; [apply (A_update _ _ _ (duration_seconds 31) [] 2 [])|].
    eapply rtc_l; [apply A_step, P_handling, (H_confirm _ _ _ (duration_seconds 32) 2); reflexivity|].
    eapply rtc_once, (A_select _ _ _ ["bob"] ["ada"] (Some "fs1") (duration_seconds 40) []).
Defined.

(** ** Inboxes *)
(** bob polls his inbox in the session; a budget of 10 characters lets a hook
    hand over nothing. *)
Definition bob_inbox : Drain := next_poll "bob" (Some "fs1").
Definition bob_hook : Drain :=
  mkDrain "bob" (Some "fs1") SurfacingSource_HookSurfaced None TransportEligibility_Any [] (Some 10).
Definition not_held : nat → bool := λ _, false.
Definition poll_bob (db : Db) :=
  drain_unseen_for_recipient_budgeted true true (at_sec 30) not_held 5 bob_inbox db.
Definition polled_db : Db := after (poll_bob mail_db).
Definition shown_of (m : result (list QueuedPrompt * list (Z * Z) * Db)) : list QueuedPrompt :=
  match m with Ok (out, _, _) => out | Err _ => [] end.
Definition polled_mail : QueuedPrompt := default (prompt_from_row (mail "" None 0)) (head (shown_of (poll_bob mail_db))).

Lemma once_witness :
  qd_prompt polled_mail = "text"
  ∧ (∀ clk' hold' limit' d' out' over' db3 q',
     dr_recipient d' = "bob" →
     drain_unseen_for_recipient_budgeted true true clk' hold' limit' d' polled_db = Ok (out', over', db3) →
     q' ∈ out' → qd_id q' = 1 →
     dr_transport d' = TransportEligibility_NamedRead
     ∨ ∃ at_, dr_transport d' = TransportEligibility_PolledBefore at_ ∧ reminded at_ 1 "bob" polled_db).
Proof.
  split; [vm_compute; reflexivity|].
  eapply (mail_is_handed_over_once true true any_row (at_sec 30) not_held 5 bob_inbox mail_db _ _ polled_db polled_mail polled_db).
  - apply mail_wf.
  - by left.
  - done.
  - vm_compute. reflexivity.
  - vm_compute. left.
  - vm_compute. reflexivity.
  - apply rtc_refl.
Defined.

Definition hook_bob := drain_unseen_for_recipient_budgeted true true (at_sec 30) not_held 5 bob_hook mail_db.
Definition left_out : list (Z * Z) := match hook_bob with Ok (_, over, _) => over | Err _ => [] end.
Lemma no_loss_witness :
  ∃ b cost, Some 10 = Some b ∧ (1, cost) ∈ left_out ∧ 0 ≤ b < cost + 0
    ∧ receipts (after hook_bob) !! (1, "bob") = receipts mail_db !! (1, "bob").
Proof.
  destruct (drain_loses_no_mail true true (at_sec 30) not_held 5 bob_hook mail_db [] left_out (after hook_bob)
              (mail "bob" (Some "fs1") 1)) as [H|[H|[H|H]]].
  - apply mail_wf.
  - by right.
  - reflexivity.
  - intros b [= <-]. done.
  - vm_compute. reflexivity.
  - vm_compute. left.
  - destruct H as (q & Hq & _). by apply elem_of_nil in Hq.
  - destruct H as [[x H] _]. vm_compute in H. discriminate.
  - destruct H as [H _]. discriminate.
  - exact H.
Defined.

(** A broadcast that bob acknowledged without reading it *)
Definition acked_broadcast_db : Db :=
  after (acknowledge_for_recipients true (at_sec 20) 1 ["bob"] None
    (empty_db <| db_prompts := mkLog [mail "all_workers" (Some "fs1") 1; mail "bob" (Some "fs1") 2] 2 |>)).
Lemma count_witness :
  count_unseen_for_recipient true (at_sec 30) "bob" (Some "fs1") acked_broadcast_db = 2%nat
  ∧ length (peek_unseen_for_recipient true (at_sec 30) "bob" (Some "fs1") 5 acked_broadcast_db) = 2%nat.
Proof.
  split; [vm_compute; reflexivity|].
  destruct (inbox_count_spec true (at_sec 30) "bob" (Some "fs1") false acked_broadcast_db 5) as [H _].
  - vm_compute. reflexivity.
  - vm_compute. lia.
  - lia.
  - lia.
  - rewrite H. vm_compute. reflexivity.
Defined.
(** Under a hold an action relay is counted, and no poll returns it. *)
Definition relay_db : Db :=
  empty_db <| db_prompts := mkLog [mail "bob" (Some "fs1") 1 <| pq_prompt := "<cas-merge-request>" |>] 1 |>.
Lemma held_relay_is_counted :
  count_unseen_for_recipient true (at_sec 30) "bob" (Some "fs1") relay_db = 1%nat
  ∧ log_count (drainable true true (duration_seconds 30 - duration_seconds PROMPT_QUEUE_STALE_TTL_SECS)
                 (next_poll "bob" (Some "fs1")) relay_db) (db_prompts relay_db) = 0%nat.
Proof. split; vm_compute; reflexivity. Qed.

(** ** Claims *)
Definition claim (s last : Z) (db : Db) := claim_recipient_transport_token (at_sec s) last 1 "bob" db.
Definition claimed_copy_db : Db := after (claim 20 0 mail_db).
(** The pane ended: the receipt is released, and claimed again. *)
Definition reclaimed_db : Db :=
  after (claim 21 (duration_seconds 20) (after (release_recipient_transport 1 "bob" claimed_copy_db))).

Lemma exclusive_witness :
  ∃ o last' db', claim 22 0 claimed_copy_db = Ok (o, last', db') ∧ o = None ∧ db' = claimed_copy_db.
Proof.
  eexists _, _, _. split; [vm_compute; reflexivity|].
  eapply (claim_is_exclusive true true any_row (at_sec 20) 0 1 "bob" mail_db _ _ claimed_copy_db claimed_copy_db (at_sec 22) 0).
  - vm_compute. reflexivity.
  - apply rtc_refl.
  - vm_compute. reflexivity.
Defined.

Lemma fenced_witness :
  duration_seconds 20 < duration_seconds 21
  ∧ release_recipient_transport_claim 1 "bob" (duration_seconds 20) reclaimed_db = Ok (false, reclaimed_db).
Proof.
  eapply (stale_claim_release_is_refused true true any_row (at_sec 20) 0 1 "bob" mail_db _ (duration_seconds 20) claimed_copy_db (at_sec 21)
           (duration_seconds 20) (after (release_recipient_transport 1 "bob" claimed_copy_db)) _ _ reclaimed_db).
  - vm_compute. reflexivity.
  - done.
  - vm_compute. reflexivity.
  - vm_compute. reflexivity.
  - apply rtc_refl.
Defined.

(** ** Retries *)
Definition retry (s : Z) (db : Db) :=
  record_retry true (at_sec s) 1 PendingReason_AdapterRetryable None db.

Lemma budget_witness : 2%nat = 0%nat ∨ pq_delivery_attempts (mail "bob" (Some "fs1") 1) + 2 < PROMPT_RETRY_MAX_ATTEMPTS.
Proof.
  apply (retry_budget true true any_row 1 2 mail_db (after (retry 21 (after (retry 20 mail_db))))).
  - apply mail_wf.
  - apply list_elem_of_In. vm_compute. by left.
  - reflexivity.
  - eapply (R_retry _ _ _ _ _ _ _ (at_sec 21) PendingReason_AdapterRetryable None);
      [eapply (R_retry _ _ _ _ _ _ _ (at_sec 20) PendingReason_AdapterRetryable None);
         [apply R_start|vm_compute; reflexivity]|vm_compute; reflexivity].
Defined.

Lemma answers_witness :
  ∃ at_, duration_seconds 20 + 250 * 1000000 ≤ at_ ≤ duration_seconds 20 + 5000 * 1000000.
Proof.
  eexists. pose proof (retry_answers true (at_sec 20) 1 PendingReason_AdapterRetryable None mail_db
    (Scheduled 1 (duration_seconds 20 + 250 * 1000000)) (after (retry 20 mail_db)) (mail "bob" (Some "fs1") 1)) as H.
  destruct H as (_ & _ & H & _).
  - apply mail_wf.
  - apply mail_recorded.
  - vm_compute. reflexivity.
  - vm_compute. reflexivity.
  - vm_compute. reflexivity.
  - exact H.
Defined.

(** ** Retention *)
Lemma sweep_witness :
  ∃ sweep db' last, prune_terminal_older_than true true 1 (at_sec 1000) 60 handed_over_db = Some (Ok (sweep, db'))
    ∧ (ps_pruned sweep + length (prompt_rows db') = length (prompt_rows handed_over_db))%nat
    ∧ (∀ r, r ∈ prompt_rows db' ↔
        r ∈ prompt_rows handed_over_db
        ∧ prunable_prompt true true (at_sec 1000 last - duration_seconds 60) handed_over_db r = false)
    ∧ ∀ r, r ∈ prompt_rows handed_over_db → r ∈ prompt_rows db' ∨ untraced db' (pq_id r).
Proof.
  apply (prompt_sweep_equals_one_delete true true 1 (at_sec 1000) 60 handed_over_db).
  - lia.
  - log_wf_eval.
  - intros i j Hij. unfold at_sec. lia.
  - vm_compute. reflexivity.
Defined.

(** ** What the modelling showed *)

(** The UPDATE of [ack_delivered_for_recipient] does not look at the stage
    again: a cancellation since its SELECT is overwritten, and the cancelled
    message can be claimed. *)
Example stale_assumption_revives_cancelled_mail :
  let noted := after (record_recipient_surfaced (at_sec 21) 1 "bob" SurfacingSource_TransportDelivered handed_over_db) in
  let ids := confirmable_ids ["bob"] ["ada"] (Some "fs1") (duration_seconds 22) noted in
  let cancelled := after (cancel_unread_for_shutdown (at_sec 30) "bob" (Some "fs1") "worker shut down" noted) in
  let claims db := match claim_recipient_transport_token (at_sec 40) 0 1 "bob" db with
                   | Ok (Some _, _, _) => true
                   | _ => false
                   end in
  claims cancelled = false ∧ claims (assume_seen (duration_seconds 31) ids cancelled).2 = true.
Proof. vm_compute. split; reflexivity. Qed.

(** An acknowledgement by id stamps the stage before it records itself: in between a
    cancelled message can be claimed. *)
Example half_acknowledged_mail_is_claimable :
  let claims db := match claim_recipient_transport_token (at_sec 40) 0 1 "bob" db with
                   | Ok (Some _, _, _) => true
                   | _ => false
                   end in
  claims shutdown_db = false ∧ claims (confirm_stage true (duration_seconds 31) 1 shutdown_db) = true
  ∧ claims (after (ack_prompt true (at_sec 31) 1 shutdown_db)) = false.
Proof. vm_compute. split_and!; reflexivity. Qed.

(** A broadcast acknowledged unread counts as unseen, and no poll returns it. *)
Example acknowledged_broadcast_is_counted :
  count_unseen_for_recipient true (at_sec 30) "bob" (Some "fs1") acked_broadcast_db = 2%nat
  ∧ length (shown_of (drain_unseen_for_recipient_budgeted true true (at_sec 30) not_held 5 bob_inbox acked_broadcast_db)) = 1%nat.
Proof. vm_compute. split; reflexivity. Qed.

(** A message acknowledged before its delivery was recorded is never settled by
    the sweeps: the stamp keeps the stage [Confirmed] and marks nothing
    processed. *)
Example acknowledged_row_stays_pending :
  let acked := after (ack_prompt true (at_sec 20) 1 mail_db) in
  let swept := after (settle_aged_rows_in_tx true (at_sec 90000) [1] (duration_seconds 90000) "" "" acked) in
  (log_get 1 (db_prompts acked) ≫= pq_processed_at) = None
  ∧ (log_get 1 (db_prompts swept) ≫= pq_processed_at) = None.
Proof. vm_compute. split; reflexivity. Qed.
