(* ===== verification/LaneWitnesses.v ===== *)
(** * Concrete runs of the delivery lane and fold theorems

    One turn to the operator in a project whose feed is bound, claimed by both
    lanes, one offline command, and two action messages of a worker, on which the
    hypotheses of those theorems hold. *)

From S2P Require Import Prelude Texts Logs Enums Db NoteMarkers SupervisorQueue PromptTypes PromptNotices PromptQueue PromptDrain OperatorLanes PromptEnqueue PromptQueueSpec PromptDrainSpec LaneSpec PromptEnqueueSpec Witnesses QueueWitnesses.

Definition reply_turn : OperatorTurn :=
  mkOperatorTurn "ada" "operator" "done" (Some "fs1") OperatorTurnMetadata_default.
Definition bound_db : Db :=
  after (bind_operator_feed (mkOperatorFeedBinding "acct" "m1" "hub" "proj" "then") empty_db).
Definition lane_db : Db := after (record_operator_turn true (at_sec 5) reply_turn "ev1" bound_db).
Definition local_claim (s : Z) (token : string) (db : Db) :=
  claim_operator_delivery (duration_seconds s) OperatorDrainLimits_default (λ _, token) db.
Definition cloud_claim_at (s : Z) (token : string) (db : Db) :=
  claim_operator_cloud "m1" (duration_seconds s) 10 30 (λ _, token) db.
(** What a claim took *)
Definition claims_of {A} (r : result (list A * Db)) : list A := match r with Ok (ks, _) => ks | Err _ => [] end.
Definition no_claim : OperatorDeliveryClaim := mkOperatorDeliveryClaim (mkOperatorDeliveryEvent "" 0 None "" "" 0) "" 0.
Definition claim_of (r : result (list OperatorDeliveryClaim * Db)) : OperatorDeliveryClaim :=
  default no_claim (head (claims_of r)).

Lemma result_of {A} (r : result (list A * Db)) : is_ok r = true → r = Ok (claims_of r, after r).
Proof. by destruct r as [[ks db]|]. Qed.
Lemma local_claim_taken s token db :
  is_ok (local_claim s token db) = true →
  Claims Local (timestamp_millis (duration_seconds s)) (timestamp_millis (duration_seconds s + duration_seconds 30))
    ((λ k, (ev_event_id (dc_event k), dc_lease_token k)) <$> claims_of (local_claim s token db)) db
    (after (local_claim s token db)).
Proof. intros Hok. eapply (C_local _ OperatorDrainLimits_default). by apply result_of. Qed.
Lemma cloud_claim_taken s token db :
  is_ok (cloud_claim_at s token db) = true →
  Claims Cloud (timestamp_millis (duration_seconds s)) (timestamp_millis (duration_seconds s) + 30 * 1000)
    ((λ k, (cc_event_id k, cc_lease_token k)) <$> claims_of (cloud_claim_at s token db)) db
    (after (cloud_claim_at s token db)).
Proof. intros Hok. eapply C_cloud. by apply result_of. Qed.

(** Claims at 10 seconds, in the cloud lane at 12, and after the first lease has
    ended at 41 *)
Definition lent_db : Db := after (local_claim 10 "t1" lane_db).
Definition both_lent_db : Db := after (cloud_claim_at 12 "c1" lent_db).
Definition lent_again_db : Db := after (local_claim 41 "t2" both_lent_db).

Lemma lane_db_keys : lane_keys lane_db.
Proof. split; vm_compute; repeat constructor; by intros ?%elem_of_nil. Qed.

Lemma lease_witness :
  claims_of (local_claim 20 "t3" both_lent_db) = []
  ∧ ∀ t', ("ev1", t') ∉ (λ k, (ev_event_id (dc_event k), dc_lease_token k)) <$> claims_of (local_claim 20 "t3" both_lent_db).
Proof.
  split; [vm_compute; reflexivity|].
  eapply (lane_lease_is_exclusive true Local "ev1" "t1" (timestamp_millis (duration_seconds 10 + duration_seconds 30)) [Claim Cloud _ _ _]
    _ _ _ _ _ lane_db lent_db both_lent_db).
  - apply lane_db_keys.
  - apply local_claim_taken. vm_compute. reflexivity.
  - apply list_elem_of_In. vm_compute. by left.
  - eapply Lr_cons; [|apply Lr_nil]. apply L_claim, cloud_claim_taken. vm_compute. reflexivity.
  - repeat constructor.
  - apply local_claim_taken. vm_compute. reflexivity.
  - reflexivity.
Defined.

Definition late_settlement : result (bool * Db) :=
  retain_operator_delivery (claim_of (local_claim 10 "t1" lane_db)) (mkOperatorRelayReceipt "ev1" "receipt")
    (duration_seconds 42) lent_again_db.
Lemma stale_witness : late_settlement = Ok (false, lent_again_db).
Proof.
  assert (∃ ok db', late_settlement = Ok (ok, db')) as (ok & db' & Hr) by (eexists _, _; vm_compute; reflexivity).
  enough (ok = false ∧ db' = lent_again_db) as [-> ->] by exact Hr.
  eapply (stale_lease_is_fenced true Local "ev1" "t1" "t2" _ _ _ [] (timestamp_millis (duration_seconds 42)) ok both_lent_db lent_again_db).
  - split; vm_compute; repeat constructor; by intros ?%elem_of_nil.
  - apply local_claim_taken. vm_compute. reflexivity.
  - apply list_elem_of_In. vm_compute. by left.
  - discriminate.
  - apply Lr_nil.
  - constructor.
  - exact (U_retain _ _ _ _ _ _ Hr).
Defined.

Definition kept_db : Db :=
  after (retain_operator_delivery (claim_of (local_claim 10 "t1" lane_db)) (mkOperatorRelayReceipt "ev1" "receipt")
    (duration_seconds 13) both_lent_db).
Lemma immutable_witness :
  ∃ o o', event_at "ev1" lane_db = Some o ∧ event_at "ev1" kept_db = Some o' ∧ ob_attempts o' = 1 ∧ event_le o o'.
Proof.
  assert (∃ labels, LaneRun true "ev1" labels lane_db kept_db) as [labels Hrun].
  { eexists. eapply Lr_cons; [apply L_claim, (local_claim_taken 10 "t1"); vm_compute; reflexivity|].
    eapply Lr_cons; [apply L_claim, (cloud_claim_taken 12 "c1"); vm_compute; reflexivity|].
    eapply Lr_cons; [|apply Lr_nil]. eapply L_use, (U_retain (claim_of (local_claim 10 "t1" lane_db))
      (mkOperatorRelayReceipt "ev1" "receipt") (duration_seconds 13)). vm_compute. reflexivity. }
  destruct (operator_event_is_immutable true "ev1" labels lane_db kept_db lane_db_keys Hrun) as (_ & Hev & _).
  destruct (event_at "ev1" kept_db) as [o'|] eqn:Ho'; [|vm_compute in Ho'; discriminate]. destruct Hev as (o & Ho & Hle).
  exists o, o'. split_and!; [done..| |done]. vm_compute in Ho'. by injection Ho' as <-.
Defined.

(** ** Offline commands *)
Definition command (body digest : string) : OperatorCommandAdmission :=
  mkOperatorCommandAdmission "cmd1" digest "hist1" "dev1" "phone" "fs1" body.
Definition admit_command (body digest : string) (db : Db) :=
  admit_operator_command true (at_sec 6) (λ i, match i with O => "r1" | _ => "ev2" end) (command body digest) db.
Definition admitted_db : Db := after (admit_command "go" "d1" lane_db).
Lemma command_witness :
  ∃ sent, admit_command "go again" "d2" (after (mark_command_receipt_sent "cmd1" (duration_seconds 7) admitted_db))
    = Ok (if String.eqb "d1" "d2" then AdmissionOutcome_Existing 2 "r1" sent else AdmissionOutcome_Conflict,
          after (mark_command_receipt_sent "cmd1" (duration_seconds 7) admitted_db)).
Proof.
  apply (command_admitted_once true (at_sec 6) (at_sec 6) (λ i, match i with O => "r1" | _ => "ev2" end)
    (λ i, match i with O => "r1" | _ => "ev2" end) (command "go" "d1") (command "go again" "d2") "ev1" [Other]
    (AdmissionOutcome_Admitted 2 "r1") 2 "r1" lane_db admitted_db).
  - split; vm_compute; repeat constructor; by intros ?%elem_of_nil.
  - vm_compute. reflexivity.
  - by split.
  - eapply Lr_cons; [|apply Lr_nil]. eapply (L_mark _ _ "cmd1" (duration_seconds 7)). reflexivity.
  - reflexivity.
  - reflexivity.
Defined.

(** ** A worker's action messages *)
Definition action (body : string) : string :=
  body +:+ nl +:+ "<cas-worker-action kind=" +:+ in_quotes "status" +:+ " worker=" +:+ in_quotes "ada" +:+ "></cas-worker-action>".
Definition send_action (s : Z) (body : string) (db : Db) :=
  enqueue_worker_action_with_outcome true true (at_sec s) "ada" "supervisor" (action body) "ada" "fs1" None None false
    (QueueOrigin_RegisteredAgent "w1") db.
Definition asked_db : Db := after (send_action 5 "which branch?" empty_db).
Definition answered_db : Db := after (send_action 9 "tests pass" asked_db).
Definition question : PromptRow :=
  default (fresh_prompt_row "" "" "" 0 None None 0 false None None None None 0) (head (log_rows (db_prompts asked_db))).
(** The second message holds the question of the first, which is settled. *)
Lemma message_fold_witness :
  ∃ stored message new_body r,
    escaped (action "tests pass") stored ∧ unmarked stored message ∧ before_envelope message new_body
    ∧ r ∈ log_rows (db_prompts answered_db) ∧ pq_id r = 2
    ∧ (∃ o', o' ∈ log_rows (db_prompts answered_db) ∧ pq_id o' = 1 ∧ is_Some (pq_processed_at o'))
    ∧ holds_message new_body (pq_prompt r) question.
Proof.
  destruct (fold_loses_no_message true true (at_sec 9) "ada" "supervisor" (action "tests pass") "ada" "fs1" None None false
    (QueueOrigin_RegisteredAgent "w1") asked_db 2 answered_db)
    as (stored & message & new_body & r & Hesc & Hun & Hbody & Hr & Hid & _ & _ & Hold).
  - log_wf_eval.
  - vm_compute. reflexivity.
  - exists stored, message, new_body, r. do 5 (split; [done|]). destruct (Hold question) as [Hin|[(o' & Ho' & Hoid & Hp) Hc]].
    + apply list_elem_of_In. vm_compute. by left.
    + exfalso. apply list_elem_of_In in Hin. vm_compute in Hin. destruct_or?; done.
    + split; [exists o'; split_and!; [done|by rewrite Hoid|done]|exact Hc].
Defined.
(** Evaluated: the second and the third message start with the question, and the
    third one holds the answer too. *)
Definition third_db : Db := after (send_action 12 "please merge" answered_db).
Definition text_of (id : Z) (db : Db) : string :=
  default EmptyString (pq_prompt <$> List.find (λ r, pq_id r =? id) (log_rows (db_prompts db))).
Example folds_accumulate :
  let heading id body := "Earlier message #" +:+ id +:+ ", not yet delivered when this one was sent:" +:+ nl +:+ body in
  text_of 2 answered_db = heading "1" "which branch?" +:+ END_OF_FOLD +:+ nlnl +:+ action "tests pass"
  ∧ text_of 3 third_db =
      heading "1" "which branch?" +:+ nlnl +:+ heading "2" "tests pass" +:+ END_OF_FOLD +:+ nlnl +:+ action "please merge".
Proof. by split; vm_compute. Qed.
